(* ===== verification/_CoqProject ===== *)
-Q . S2P
Prelude.v
Real.v
Ast.v
Lex.v
Parse.v
Sem.v
Emit.v
Main.v
Buffers.v
CPrelude.v
ParseSafe.v
ParseFuel.v
ParseRound.v
LexProps.v
SemProps.v
EmitText.v
EmitFrame.v
CTypes.v
Preserve.v
Stmts.v
StmtSim.v
StmtPreserve.v
Runtime.v
InitHeap.v
HeapLock.v
Files.v
Readers.v
ReaderProps.v
FileProps.v
StdInput.v
FileRound.v
EncDec.v
Device.v
StackCk.v
TempFiles.v
CmdLine.v
Net.v
SysUtil.v
SysTree.v
Numeric.v
RealProps.v
RtErrors.v
Json.v
RealText.v
JsonText.v
EnumTokens.v
DecodeReal.v
ReadReal.v
FileInv.v
Cuda.v
Units.v
Gaps.v
