(* ===== verification/Prelude.v ===== *)
(** * Verification library of pasboot, the bootstrap translator of native-pascal-1981

    ** The program

    The repository is a compiler for the 1981 Pascal dialect written in that
    dialect. The C program pasboot (bootstrap/) builds it the first time: it
    translates one Pascal compiland (a PROGRAM, a MODULE or an IMPLEMENTATION,
    with the interfaces of the units it uses) to one C file. Its parts run one
    after the other:

    - lex.c turns the text, with the files it includes, into an array of tokens;
    - parse.c turns the tokens into the tree of a compiland;
    - emit.c walks the tree, declares names and types in the tables of sem.c
      (types, scopes, constants, the C spelling of types) and writes C text;
    - main.c is the command line; every error is a message "file:line: text" and
      exit status 1 ([fatal]);
    - prelude.h is C text written at the head of every generated program: the
      integer operators, LSTRING helpers and TRUNC the emitted C calls.

    ** The model

    A function of the code that can fail or has state is a function of the monad
    [ST S A], which is [S -> res (A * S)]; [Err] holds the message of [fatal], or
    [Undef] where the C code would have no defined behaviour, or [OutOfFuel]
    where a bound of the model is exhausted. Definitions keep the names of the
    code.

    - [Prelude] (this file): errors and the monad, printing of integers, C strings,
      tactics and the hint databases;
    - [Real]: binary64 values, [strtod] and the %.17g of printf;
    - [Ast]: the tokens and trees of pasboot.h, with induction principles;
    - [Lex]: lex.c. The position in the text is the rest of the text; the file
      system is a parameter, from paths to contents ([read_file] reads it);
    - [Parse]: parse.c, all functions. The position is the rest of the tokens;
    - [Sem]: sem.c. [Type *] and [Sym *] are indices in two stores, so that sharing
      and in-place updates are those of the code; a scope is the hash table of the
      code, 4096 chains under the FNV hash;
    - [Emit]: emit.c, all functions, on the record [Emit] of its globals. The
      output buffers are strings;
    - [Main]: main.c on a host with files that can or cannot be written;
    - [Buffers]: the buffers, arrays and file reading of main.c and lex.c, on memory
      blocks with bounds and an allocator that may refuse; elsewhere they are strings
      and lists;
    - [CPrelude]: the helpers of prelude.h on integers at their width, on byte
      arrays and on binary64, and the loop a FOR statement is translated to;
    - [Stmts]: the C statements the emitter writes, with the grammar of their text and
      their execution, and the execution of Pascal statements.

    The run-time library of compiled programs, runtime/:

    - [Runtime]: the moves, fills, scans and POSITN, the 16-bit overflow tests, and the
      checks on SUPER ARRAY descriptors;
    - [InitHeap]: initck_heap.c and initck.c, the table of initialized heap cells with
      the blocks it owns; [HeapLock]: its spin lock, as a machine that interleaves the
      calls of threads on sequentially consistent memory, and ends the process when a call
      aborts;
    - [Files]: fileops.c, on a world of files, streams of the C library and file control
      blocks; the host decides what can be opened, read and written;
    - [Readers]: readq.c and the readers of fileops.c, over a source of characters that
      gives the next one and takes one back;
    - [EncDec]: encode_decode.c; an LSTRING is its length byte and its cells;
    - [Device]: cpu_device_shim.c; kernels are parameters, functions on the index
      registers and the memory;
    - [StackCk]: stackck.c; what the system calls answer is an argument;
    - [TempFiles]: temporary.c, on a file system that other processes change between
      the calls; any system call may fail, those of the clean-up included;
    - [CmdLine]: cmdline.c; number 0 is the stream [stdin] points to, so that redirecting
      it renumbers the streams;
    - [Net] and [SysUtil]: netsock.c, and of sysutil.c the files and child processes; the
      answers of the kernel are arguments, a sequence of them for a loop, and the system
      calls of parent and child are recorded in order;
    - [SysTree]: the directories of sysutil.c, on a file system of inodes and open
      descriptors, any call of which may fail;
    - [Numeric]: numeric.c; [RtErrors]: the reports of run-time failures (subrange.c,
      array_index.c, set_element.c, vector_bounds.c, nilck.c, new_alloc.c, mathck.c,
      pabort.c, diagnostics.c, dev_error.c, and the [die] routines of fileops.c, readq.c,
      initck_heap.c and super_descriptor.c), on the state of the process;
    - [Json]: json_helpers.c; cJSON is the class [CJson] of its operations with the class
      [CJsonLaws] of what its documentation says of them; [JsonText] adds its printer and
      parser, with a small JSON printer and parser as an instance;
    - [EnumTokens]: the ring of buffers for the names of enumeration values;
    - [DecodeReal]: DECODE of a REAL, on the whole of C's [strtod]; [ReadReal]: READ of a
      REAL, on [scanf] as the C standard has it;
    - [Cuda]: cuda_launch.c; the driver is the class [Driver] of its calls.

    ** Bounds

    Recursion that is not structural has a bound, and a theorem says that the
    bound is enough or that the result does not depend on it. Includes nest to
    depth 16, the limit of the code, so the lexer's bound is 18. The parser gets
    16 calls per token and 16 more ([front_end_total], [parse_compiland_total]).
    The walk of the units gets one call per interface and one more
    ([unit_order_topological]). A walk along the types of a store gets one step
    per type and one more ([same_type_decides], [ctype_in_order]); what needs
    more is a circle of pointer types, which the code does not refuse
    ([pointer_circle_accepted]). A probe of the heap table gets one step per slot
    ([heap_state_refines]). A reader gets one step per character of its stream and
    one more ([text_file_refines], [std_integers_exact]). A loop over system calls runs
    out only when it was given fewer answers than it has bytes to move
    ([sock_write_exact], [sys_file_roundtrip]). The removal of a directory gets one step
    per level of the tree ([remove_tree_exact]). The execution of Pascal statements takes
    a bound on the steps of its loops, and [statements_preserved] relates the C text to
    the result at some bound, in both directions.

    ** The theorems

    - [ParseSafe], [ParseFuel], [ParseRound]: the parser ends on every token array
      without reading past it; the bound does not influence a result; expressions
      printed with the fewest parentheses are parsed back, and the trees this
      covers are exactly the trees the parser makes;
    - [LexProps]: the tokenizer ends on every file, with tokens of the shape the
      parser relies on and one EOF; printed tokens are read back; integer literals
      are exact or refused;
    - [SemProps]: the hashed scopes refine a stack of finite maps; constants are
      evaluated exactly or refused; structural types are interned once; type
      compatibility decides an equivalence;
    - [EmitText]: the string literals and integer constants the emitter writes
      denote, by the rules of C, the bytes and values they stand for;
    - [Preserve]: the text of an expression, read by the grammar of C and evaluated
      by its rules, has the value of the Pascal expression. The grammar is a
      relation between texts and C expressions; evaluation leaves the order of
      operands open. Covered are expressions over integers, characters, BOOLEANs
      and enumerations; reals, strings, pointers, selectors and calls of routines
      are not. [StmtSim], [StmtPreserve]: the same for statements over these
      expressions, with FOR, WHILE, BREAK, CYCLE and RETURN: the C text and the Pascal
      statements have the same runs, where no limit of a FOR reads its control variable;
    - [Buffers]: what is put into a buffer or an array is in it, and no store leaves
      its block, within the sizes the counters have;
    - [RealProps]: 17 decimal digits determine a binary64 value, by the rounding of
      [strtod] and printf; [RealText]: so the finite REAL constants of the C text and
      the literals of the pretty printer are read back exactly; [JsonText]: so are the
      numbers of a JSON tree, and INTEGER64 fields, through cJSON's text; and
      [DecodeReal] and [ReadReal] give back the REAL that was printed;
    - [CTypes]: the declarations written for settled types come in an order C accepts,
      and no type holds itself;
    - [EmitFrame]: translating statements declares nothing and only appends to the
      body; a routine leaves no name behind;
    - [Units]: units are initialized once, after the units they use, and an order
      exists exactly when no USES are circular;
    - [CPrelude]: the operators wrap at their width, DIV and MOD truncate and stop
      on zero, strings compare lexicographically, CONCAT never leaves its
      destination, a FOR loop ends at the extreme limits;
    - [Runtime]: moves give overlapping blocks as their direction defines, scans and
      POSITN find the first match inside their strings, the overflow tests are
      exact, and descriptors are accepted exactly when they are valid;
    - [InitHeap]: under every program of calls the table answers as a finite map from
      addresses to leaves, whatever allocations fail; [HeapLock]: with threads, the
      calls take effect in the order of the lock, and all of them return or the process is
      ended because memory was refused;
    - [FileProps]: reading a TEXT file by any mixture of operations is reading the
      sequence of its characters, with CR LF as one line marker. [ReaderProps] proves
      the scanners for every source of the class [CharSource]; [FileProps] and
      [StdInput] are its instances, a file and standard input. [StdInput]: integers are
      read exactly or refused, pointers are read back; [FileRound]: what PUT wrote to a
      binary file is read back; [FileInv]: INITCK's leaves of F^ are those of the file's
      last transition and of what the program wrote to F^ since;
    - [EncDec]: DECODE accepts exactly the integers of the type, and undoes ENCODE;
    - [Device]: a launch runs every thread of the grid once, in the order of its number,
      and a round trip through the device maps an array;
    - [StackCk]: the extent of the stack is found in every memory map and exactly the
      faults of the stack are reported;
    - [TempFiles]: the end of the driver removes its files and nothing else, whatever
      fails, and leaves nothing when its calls succeed and others keep out;
    - [CmdLine]: parameters given on the command line have their exact values, and the
      program then finds its input untouched;
    - [Net], [SysUtil]: whole buffers are moved or a failure is reported, no descriptor is
      lost, URLs are split as [atoi] allows, a child gets the packed arguments and the
      result says how it ended, or that it was killed at the deadline; [SysTree]: a directory
      is listed exactly when no call fails, and removed without touching anything outside it;
    - [RtErrors]: a failure report delivers the output before it, writes one line
      and ends the process; [Numeric]: the conversions clamp and are exact;
    - [EnumTokens]: the texts of a WRITE last until it prints;
    - [Cuda]: device code is loaded once and after the context exists; no launch returns
      over a failed device check;
    - [Gaps]: inputs on which the code does not do what its comments or checks
      intend.

    ** What is not modelled, and what comes next

    Outside [Buffers], memory allocation of pasboot never fails, and the sizes of texts
    are not bounded by [INT_MAX]. The text of pasboot's messages is kept, the write to
    the error stream is not. The text that printf makes is an argument of formatted
    output (WRITE to a file, ENCODE), except for the numbers of the JSON helpers. The
    side channel of INITCK between routines is written by compiled code, not by
    runtime/. The compiler itself is written in Pascal (src/) and is not modelled.
    Planned, in this order: the meaning of the remaining expressions (reals, strings,
    pointers, selectors, calls) and of WRITE and CONCAT; the round trips of statements
    and declarations; the composition of a translated routine with its prototype. *)

From Stdlib Require Import ZArith Ascii String Lia.
From stdpp Require Import base list strings gmap numbers option.

#[global] Open Scope Z_scope.

(** * Byte strings, locations and errors *)

(** The bytes of a source file or of a string literal (not NUL terminated). *)
Abbreviation bytes := (list ascii).

(** [struct Loc] of pasboot.h: [file] is [NULL] for a location that no file has. *)
Record Loc := mkLoc { loc_file : option string; loc_line : Z }.

(** How a run of the program stops other than by returning a value.
    - [Fatal l m]: [fatal(l, m)], the message "file:line: m" and exit status 1;
    - [CannotOpen p]: the unlocated "pasboot: cannot open" of [read_file];
    - [RtAbort m]: a run-time error of a generated program ([abort()]);
    - [Undef m]: the C code would read out of bounds, or overflow a signed integer;
    - [OutOfFuel]: the bound of the model on a loop or a recursion is too small. *)
Inductive err :=
  | Fatal (l : Loc) (msg : string)
  | CannotOpen (path : string)
  | RtAbort (msg : string)
  | Undef (msg : string)
  | OutOfFuel.

Inductive res (A : Type) :=
  | Ok (a : A)
  | Err (e : err).
Arguments Ok {A} a.
Arguments Err {A} e.

#[export] Instance Loc_eq_dec : EqDecision Loc.
Proof. solve_decision. Defined.
#[export] Instance err_eq_dec : EqDecision err.
Proof. solve_decision. Defined.

(** [unsupported(l, what)] of main.c. *)
Definition unsupported {A} (l : Loc) (what : string) : res A :=
  Err (Fatal l ("unsupported: " +:+ what)).

(** * The error monad and the state-and-error monad *)

Definition rbind {A B} (m : res A) (k : A -> res B) : res B :=
  match m with Ok a => k a | Err e => Err e end.

(** Code that reads and writes a state [S] and may stop. *)
Definition ST (S A : Type) : Type := S -> res (A * S).

Definition ret {S A} (a : A) : ST S A := fun s => Ok (a, s).
Definition bind {S A B} (m : ST S A) (k : A -> ST S B) : ST S B :=
  fun s => match m s with Ok (a, s') => k a s' | Err e => Err e end.
Definition fail {S A} (e : err) : ST S A := fun _ => Err e.
Definition lift {S A} (r : res A) : ST S A :=
  fun s => match r with Ok a => Ok (a, s) | Err e => Err e end.
Definition get {S} : ST S S := fun s => Ok (s, s).
Definition modify {S} (f : S -> S) : ST S unit := fun s => Ok (tt, f s).

Declare Scope pas_scope.
Delimit Scope pas_scope with pas.
Notation "'let!' x ':=' m 'in' k" := (rbind m (fun x => k))
  (at level 10, x pattern, m at level 100, k at level 200) : pas_scope.
Notation "'let*' x ':=' m 'in' k" := (bind m (fun x => k))
  (at level 10, x pattern, m at level 100, k at level 200) : pas_scope.
Notation "'do*' m 'in' k" := (bind m (fun _ => k))
  (at level 10, m at level 100, k at level 200) : pas_scope.
Open Scope pas_scope.

Definition fatal {S A} (l : Loc) (msg : string) : ST S A := fail (Fatal l msg).
Definition unsupp {S A} (l : Loc) (what : string) : ST S A :=
  fatal l ("unsupported: " +:+ what).

(** * Machine integers *)

Definition INT64_MAX : Z := 9223372036854775807.
Definition INT64_MIN : Z := -9223372036854775808.
Definition INT32_MAX : Z := 2147483647.
Definition INT32_MIN : Z := -2147483648.

(** The value of a [w]-bit two's-complement integer with the low bits of [z]. *)
Definition swrap (w z : Z) : Z := (z + 2 ^ (w - 1)) `mod` 2 ^ w - 2 ^ (w - 1).
Definition uwrap (w z : Z) : Z := z `mod` 2 ^ w.
Definition in_srange (w z : Z) : Prop := - 2 ^ (w - 1) <= z < 2 ^ (w - 1).
Definition fits64 (z : Z) : bool := (INT64_MIN <=? z) && (z <=? INT64_MAX).

(** * Characters (the C locale's [ctype.h] on an unsigned char) *)

Definition code (c : ascii) : Z := Z.of_N (N_of_ascii c).
Definition chr (z : Z) : ascii := ascii_of_N (Z.to_N z).
Definition between (lo hi : ascii) (c : ascii) : bool := (code lo <=? code c) && (code c <=? code hi).
Definition isdigit (c : ascii) : bool := between "0" "9" c.
Definition islower (c : ascii) : bool := between "a" "z" c.
Definition isupper (c : ascii) : bool := between "A" "Z" c.
Definition isalpha (c : ascii) : bool := islower c || isupper c.
Definition isalnum (c : ascii) : bool := isalpha c || isdigit c.
Definition isspace (c : ascii) : bool := Ascii.eqb c " " || between "009" "013" c.
Definition isprint (c : ascii) : bool := between " " "126" c.
Definition tolower (c : ascii) : ascii := if isupper c then chr (code c + 32) else c.
Definition toupper (c : ascii) : ascii := if islower c then chr (code c - 32) else c.

Definition newline : ascii := "010".
Definition nl : string := String newline EmptyString.
Definition dquote : ascii := "034".
Definition dq : string := String dquote EmptyString.
Definition str (s : bytes) : string := string_of_list_ascii s.
Definition chars (s : string) : bytes := list_ascii_of_string s.

(** * printf's %lld and %03o *)

Definition digit_char (d : Z) : ascii := chr (code "0" + d).

Fixpoint base_aux (b : Z) (fuel : nat) (n : Z) (acc : bytes) : bytes :=
  match fuel with
  | O => acc
  | S f =>
      let acc' := digit_char (n `mod` b) :: acc in
      if n / b =? 0 then acc' else base_aux b f (n / b) acc'
  end.

(** The digits of [n >= 0] in base [b], most significant first. *)
Definition base_digits (b n : Z) : bytes := base_aux b (S (Z.to_nat (Z.log2 n))) n [].
Definition dec_bytes (n : Z) : bytes := base_digits 10 n.
(** %lld (and %d) *)
Definition Zs (n : Z) : string :=
  if n <? 0 then String "-" (str (dec_bytes (- n))) else str (dec_bytes n).
(** The number that digits in base [b] stand for. *)
Definition base_value (b : Z) (ds : bytes) : Z :=
  fold_left (fun v c => v * b + (code c - code "0")) ds 0.
Definition dec_value (ds : bytes) : Z := base_value 10 ds.
(** %03o *)
Definition oct3 (n : Z) : bytes :=
  let ds := base_digits 8 n in
  replicate (3 - length ds) "0"%char ++ ds.

(** * Shared lemmas and automation *)

Create HintDb pas discriminated.

(** ** Monads *)

Lemma rbind_Ok {A B} (m : res A) (k : A -> res B) b :
  rbind m k = Ok b -> exists a, m = Ok a /\ k a = Ok b.
Proof. destruct m; simpl; [eauto | discriminate]. Qed.

Lemma bind_Ok {S A B} (m : ST S A) (k : A -> ST S B) s r :
  bind m k s = Ok r -> exists a s', m s = Ok (a, s') /\ k a s' = Ok r.
Proof. unfold bind. destruct (m s) as [[a s'] | e]; [eauto | discriminate]. Qed.

(** The run of a sequence, from the run of its first step. *)
Lemma bind_ok {S A B} (m : ST S A) (k : A -> ST S B) s a s' : m s = Ok (a, s') -> bind m k s = k a s'.
Proof. intros H. unfold bind. by rewrite H. Qed.
Lemma bind_err {S A B} (m : ST S A) (k : A -> ST S B) s e : m s = Err e -> bind m k s = Err e.
Proof. intros H. unfold bind. by rewrite H. Qed.

(** Splits every successful sequence of steps among the hypotheses. *)
Ltac inv_ok :=
  repeat match goal with
    | H : rbind _ _ = Ok _ |- _ =>
        let a := fresh "a" in let E := fresh "E" in
        apply rbind_Ok in H as (a & E & H)
    | H : bind _ _ _ = Ok _ |- _ =>
        let a := fresh "a" in let s := fresh "s" in let E := fresh "E" in
        apply bind_Ok in H as (a & s & E & H)
    | H : ret _ _ = Ok _ |- _ => unfold ret in H
    | H : get _ = Ok _ |- _ => unfold get in H
    | H : modify _ _ = Ok _ |- _ => unfold modify in H
    | H : fatal _ _ _ = Ok _ |- _ => discriminate H
    | H : unsupp _ _ _ = Ok _ |- _ => discriminate H
    | H : fail _ _ = Ok _ |- _ => discriminate H
    | H : Err _ = Ok _ |- _ => discriminate H
    | H : Ok _ = Ok _ |- _ => injection H; clear H; intros; subst
    | x : (_ * _)%type |- _ => destruct x
    | H : context [match ?x with (_, _) => _ end] |- _ => is_var x; destruct x
    end.

(** ** Characters *)

Lemma code_range c : 0 <= code c < 256.
Proof. unfold code. pose proof (N_ascii_bounded c). lia. Qed.
#[export] Hint Resolve code_range : pas.

Lemma code_chr z : 0 <= z < 256 -> code (chr z) = z.
Proof. intros H. unfold code, chr. rewrite N_ascii_embedding; lia. Qed.

Lemma chr_code c : chr (code c) = c.
Proof. unfold code, chr. rewrite N2Z.id. apply ascii_N_embedding. Qed.

Lemma code_inj c d : code c = code d -> c = d.
Proof. intros H. rewrite <- (chr_code c), <- (chr_code d). by rewrite H. Qed.

(** A property of characters checked on all 256 of them. *)
Definition all_chars : list ascii := map (fun n => ascii_of_nat n) (seq 0 256).

Lemma in_all_chars c : In c all_chars.
Proof.
  unfold all_chars. apply in_map_iff. exists (nat_of_ascii c).
  split; [apply ascii_nat_embedding |].
  apply in_seq. pose proof (nat_ascii_bounded c). lia.
Qed.

Lemma char_check (p : ascii -> bool) c : forallb p all_chars = true -> p c = true.
Proof. intros H. rewrite forallb_forall in H. apply H, in_all_chars. Qed.

Lemma between_iff lo hi c : between lo hi c = true <-> code lo <= code c <= code hi.
Proof. unfold between. rewrite andb_true_iff, !Z.leb_le. done. Qed.

Lemma isdigit_iff c : isdigit c = true <-> 48 <= code c <= 57.
Proof. apply between_iff. Qed.

Lemma code_digit_char d : 0 <= d < 10 -> code (digit_char d) = 48 + d.
Proof. intros H. unfold digit_char. rewrite code_chr; change (code "0") with 48; lia. Qed.

Lemma isdigit_digit_char d : 0 <= d < 10 -> isdigit (digit_char d) = true.
Proof. intros H. apply isdigit_iff. rewrite code_digit_char by done. lia. Qed.

Lemma str_chars s : str (chars s) = s.
Proof. apply string_of_list_ascii_of_string. Qed.
Lemma chars_str s : chars (str s) = s.
Proof. apply list_ascii_of_string_of_list_ascii. Qed.

(** ** Numerals *)

Section Numerals.
Variable b : Z.
Hypothesis Hb : 2 <= b <= 10.

Lemma base_aux_acc fuel : forall n acc, base_aux b fuel n acc = base_aux b fuel n [] ++ acc.
Proof using Hb.
  induction fuel as [|f IH]; intros n acc; simpl; [done |].
  destruct (n / b =? 0); [done |].
  rewrite (IH _ (_ :: acc)), (IH _ [_]), <- app_assoc. done.
Qed.

Lemma base_value_app ds c : base_value b (ds ++ [c]) = base_value b ds * b + (code c - 48).
Proof using Type. unfold base_value. rewrite fold_left_app. done. Qed.

Lemma base_aux_value fuel : forall n, 0 <= n < 2 ^ Z.of_nat (S fuel) ->
  base_value b (base_aux b (S fuel) n []) = n.
Proof using Hb.
  induction fuel as [|f IH]; intros n Hn; cbn [base_aux].
  - assert (n / b = 0) as -> by (apply Z.div_small; simpl in Hn; lia).
    rewrite Z.eqb_refl. cbn. rewrite code_digit_char; pose proof (Z.mod_pos_bound n b ltac:(lia)).
    + change (code "0") with 48. rewrite Z.mod_small by (simpl in Hn; lia). lia.
    + lia.
  - pose proof (Z.mod_pos_bound n b ltac:(lia)).
    destruct (Z.eqb_spec (n / b) 0) as [E | E].
    + cbn. rewrite code_digit_char by lia. change (code "0") with 48.
      pose proof (Z.div_mod n b ltac:(lia)). lia.
    + change (base_value b (base_aux b (S f) (n / b) [digit_char (n `mod` b)]) = n).
      rewrite base_aux_acc, base_value_app, IH.
      * rewrite code_digit_char by lia. pose proof (Z.div_mod n b ltac:(lia)). lia.
      * split; [apply Z.div_pos; lia |].
        apply Z.div_lt_upper_bound; [lia |].
        rewrite Nat2Z.inj_succ, Z.pow_succ_r in Hn by lia. nia.
Qed.

Lemma base_aux_digits fuel : forall n acc, 0 <= n ->
  Forall (fun c => isdigit c = true) acc -> Forall (fun c => isdigit c = true) (base_aux b fuel n acc).
Proof using Hb.
  induction fuel as [|f IH]; intros n acc Hn Hacc; simpl; [done |].
  assert (isdigit (digit_char (n `mod` b)) = true) as Hd.
  { apply isdigit_digit_char. pose proof (Z.mod_pos_bound n b ltac:(lia)). lia. }
  destruct (n / b =? 0); [by constructor |].
  apply IH; [apply Z.div_pos; lia | by constructor].
Qed.

Lemma base_digits_value n : 0 <= n -> base_value b (base_digits b n) = n.
Proof using Hb.
  intros Hn. unfold base_digits. apply base_aux_value. split; [done |].
  destruct (Z.eq_dec n 0) as [-> | Hz]; [by vm_compute |].
  rewrite Nat2Z.inj_succ, Z2Nat.id by apply Z.log2_nonneg.
  apply Z.log2_spec. lia.
Qed.

Lemma base_digits_digits n : 0 <= n -> Forall (fun c => isdigit c = true) (base_digits b n).
Proof using Hb. intros Hn. by apply base_aux_digits. Qed.

Lemma base_digits_nonempty n : base_digits b n <> [].
Proof using Hb.
  unfold base_digits. simpl. destruct (n / b =? 0); [done |].
  rewrite base_aux_acc. by destruct (base_aux b _ _ []).
Qed.
End Numerals.

Lemma dec_bytes_inj n m : 0 <= n -> 0 <= m -> dec_bytes n = dec_bytes m -> n = m.
Proof.
  intros Hn Hm E. rewrite <- (base_digits_value 10 ltac:(lia) n Hn), <- (base_digits_value 10 ltac:(lia) m Hm).
  unfold dec_bytes in E. by rewrite E.
Qed.

Lemma Zs_inj n m : 0 <= n -> 0 <= m -> Zs n = Zs m -> n = m.
Proof.
  intros Hn Hm. unfold Zs. destruct (Z.ltb_spec n 0); [lia |]. destruct (Z.ltb_spec m 0); [lia |].
  intros E%(f_equal chars). rewrite !chars_str in E. by apply dec_bytes_inj.
Qed.

(** ** Two's complement *)

(** Closes [in_srange w z] for concrete [w] and [z]. *)
Ltac srange := unfold in_srange; simpl; lia.

Lemma pow2_half w : 0 < w -> 2 ^ w = 2 * 2 ^ (w - 1).
Proof. intros H. rewrite <- Z.pow_succ_r by lia. f_equal. lia. Qed.

Lemma swrap_range w z : 0 < w -> in_srange w (swrap w z).
Proof.
  intros H. unfold in_srange, swrap. rewrite (pow2_half w) by done.
  pose proof (Z.pow_pos_nonneg 2 (w - 1) ltac:(lia) ltac:(lia)).
  pose proof (Z.mod_pos_bound (z + 2 ^ (w - 1)) (2 * 2 ^ (w - 1)) ltac:(lia)). lia.
Qed.

Lemma swrap_small w z : 0 < w -> in_srange w z -> swrap w z = z.
Proof.
  unfold in_srange, swrap. intros H Hz. rewrite (pow2_half w) by done.
  rewrite Z.mod_small by lia. lia.
Qed.

Lemma swrap_cong w z : 0 < w -> exists k, swrap w z = z + k * 2 ^ w.
Proof.
  intros H. unfold swrap. exists (- ((z + 2 ^ (w - 1)) / 2 ^ w)).
  pose proof (Z.div_mod (z + 2 ^ (w - 1)) (2 ^ w) ltac:(apply Z.pow_nonzero; lia)). lia.
Qed.

Lemma swrap_add_mul w z k : 0 < w -> swrap w (z + k * 2 ^ w) = swrap w z.
Proof.
  intros H. unfold swrap.
  replace (z + k * 2 ^ w + 2 ^ (w - 1)) with (z + 2 ^ (w - 1) + k * 2 ^ w) by lia.
  rewrite Z.mod_add; [done | apply Z.pow_nonzero; lia].
Qed.

Lemma fits64_iff z : fits64 z = true <-> in_srange 64 z.
Proof.
  unfold fits64, in_srange, INT64_MIN, INT64_MAX. rewrite andb_true_iff, !Z.leb_le.
  change (2 ^ (64 - 1)) with 9223372036854775808. lia.
Qed.
