(* ===== verification/Real.v ===== *)
(** Binary64 reals as lex.c reads them ([strtod]) and emit.c prints them
    (printf's %.17g), on the Standard Library's [spec_float]: both conversions
    are exact rational arithmetic followed by one rounding to nearest, ties to
    even. *)

From Stdlib Require Import ZArith Ascii String SpecFloat.
From stdpp Require Import base list strings.
From S2P Require Import Prelude.
#[local] Open Scope Z_scope.

Definition prec : Z := 53.
Definition emax : Z := 1024.

(** The double nearest to [m * 10 ^ e], for [m >= 0]. *)
Definition real_of_decimal (m e : Z) : spec_float :=
  if m =? 0 then S754_zero false
  else if 0 <=? e then binary_normalize prec emax (m * 10 ^ e) 0 false
  else
    let '(mz, ez, lz) := SFdiv_core_binary prec emax m 0 (10 ^ (- e)) 0 in
    binary_round_aux prec emax false mz ez lz.

(** [strtod] on a text of digits, an optional fraction and an optional exponent. *)
Fixpoint span_digits (s : bytes) : bytes * bytes :=
  match s with
  | c :: s' => if isdigit c then let '(ds, r) := span_digits s' in (c :: ds, r) else ([], s)
  | [] => ([], [])
  end.

Definition strtod (text : bytes) : spec_float :=
  let '(ip, r) := span_digits text in
  let '(fp, r) := match r with
                  | c :: r' => if Ascii.eqb c "." then span_digits r' else ([], r)
                  | [] => ([], r)
                  end in
  let ex := match r with
            | c :: r' =>
                if Ascii.eqb c "e" || Ascii.eqb c "E" then
                  match r' with
                  | c' :: r'' =>
                      if Ascii.eqb c' "-" then - dec_value (fst (span_digits r''))
                      else if Ascii.eqb c' "+" then dec_value (fst (span_digits r''))
                      else dec_value (fst (span_digits r'))
                  | [] => 0
                  end
                else 0
            | [] => 0
            end in
  real_of_decimal (dec_value (ip ++ fp)) (ex - Z.of_nat (length fp)).

(** Unary minus on a double. *)
Definition real_neg (v : spec_float) : spec_float := SFopp v.

(** * printf's %.17g *)

(** The integer nearest to [num / den], ties to even. *)
Definition div_round (num den : Z) : Z :=
  let '(q, r) := Z.div_eucl num den in
  match Z.compare (2 * r) den with
  | Lt => q
  | Gt => q + 1
  | Eq => if Z.even q then q else q + 1
  end.

(** [num / den * 10 ^ k], rounded. *)
Definition scaled (num den k : Z) : Z :=
  if 0 <=? k then div_round (num * 10 ^ k) den else div_round num (den * 10 ^ (- k)).

(** The decimal exponent of [num / den]: [10 ^ x <= num / den < 10 ^ (x + 1)]. *)
Definition at_least_pow10 (num den x : Z) : bool :=
  if 0 <=? x then den * 10 ^ x <=? num else den <=? num * 10 ^ (- x).

Definition dec_exponent (num den : Z) : Z :=
  let x := (Z.log2 num - Z.log2 den) * 30103 / 100000 in
  let x := if at_least_pow10 num den x then x else x - 1 in
  let x := if at_least_pow10 num den x then x else x - 1 in
  if at_least_pow10 num den (x + 1) then x + 1 else x.

(** 17 significant digits and the decimal exponent they stand for. *)
Definition sci17 (m : positive) (e : Z) : Z * Z :=
  let num := Zpos m * 2 ^ Z.max e 0 in
  let den := 2 ^ Z.max (- e) 0 in
  let x := dec_exponent num den in
  let q := scaled num den (16 - x) in
  if q =? 10 ^ 17 then (10 ^ 16, x + 1) else (q, x).

Fixpoint drop_zeros (ds : bytes) : bytes :=
  match ds with
  | c :: ds' => if Ascii.eqb c "0" then drop_zeros ds' else ds
  | [] => []
  end.
Definition strip_zeros (ds : bytes) : bytes := rev (drop_zeros (rev ds)).

Definition with_fraction (ip fp : bytes) : bytes :=
  match strip_zeros fp with
  | [] => ip
  | fp' => ip ++ "."%char :: fp'
  end.

Definition two_digits (n : Z) : bytes :=
  if n <? 10 then "0"%char :: dec_bytes n else dec_bytes n.

Definition fmt_17g (v : spec_float) : string :=
  let sign (s : bool) (r : string) := if s then String "-" r else r in
  match v with
  | S754_zero s => sign s "0"
  | S754_infinity s => sign s "inf"
  | S754_nan => "nan"
  | S754_finite s m e =>
      let '(q, x) := sci17 m e in
      let ds := dec_bytes q in
      sign s
        (str
           (if (x <? -4) || (17 <=? x) then
              with_fraction (firstn 1 ds) (skipn 1 ds)
                ++ "e"%char :: (if x <? 0 then "-"%char else "+"%char) :: two_digits (Z.abs x)
            else if x <? 0 then
              with_fraction ["0"%char] (replicate (Z.to_nat (- x - 1)) "0"%char ++ ds)
            else with_fraction (firstn (Z.to_nat (x + 1)) ds) (skipn (Z.to_nat (x + 1)) ds)))
  end.

Example fmt_third : fmt_17g (strtod (chars "0.1")) = "0.10000000000000001".
Proof. vm_compute. reflexivity. Qed.
Example fmt_pi : fmt_17g (strtod (chars "3.141592653589793")) = "3.1415926535897931".
Proof. vm_compute. reflexivity. Qed.
Example fmt_big : fmt_17g (strtod (chars "1.5e300")) = "1.5000000000000001e+300".
Proof. vm_compute. reflexivity. Qed.
Example fmt_small : fmt_17g (strtod (chars "25E-7")) = "2.5000000000000002e-06".
Proof. vm_compute. reflexivity. Qed.
Example fmt_100 : fmt_17g (strtod (chars "100.0")) = "100".
Proof. vm_compute. reflexivity. Qed.
Example fmt_denorm : fmt_17g (strtod (chars "4.9e-324")) = "4.9406564584124654e-324".
Proof. vm_compute. reflexivity. Qed.
Example fmt_max : fmt_17g (strtod (chars "1.7976931348623157E308")) = "1.7976931348623157e+308".
Proof. vm_compute. reflexivity. Qed.
Example fmt_inf : fmt_17g (strtod (chars "1e400")) = "inf".
Proof. vm_compute. reflexivity. Qed.
