(* ===== verification/Ast.v ===== *)
(** The data of pasboot.h: tokens and the syntax trees of a compiland. A C
    struct with a [kind] tag is an inductive type with the tag's constructors;
    the fields a tag does not use are not kept. *)

From Stdlib Require Import ZArith Ascii String SpecFloat.
From stdpp Require Import base list strings.
From S2P Require Import Prelude.
#[local] Open Scope Z_scope.
#[local] Set Warnings "-register-all".

(** * Tokens *)

Inductive Punct :=
  | P_LPAREN | P_RPAREN | P_LBRACK | P_RBRACK | P_COMMA | P_SEMI | P_COLON
  | P_ASSIGN | P_DOT | P_DOTDOT | P_CARET | P_PLUS | P_MINUS | P_STAR | P_SLASH
  | P_EQ | P_NE | P_LT | P_LE | P_GT | P_GE.

(** [text] is the identifier folded to lower case, [orig] as spelled. *)
Inductive TokKind :=
  | T_EOF
  | T_IDENT (text orig : string)
  | T_INT (ival : Z)
  | T_REAL (rval : spec_float)
  | T_STR (sval : bytes)
  | T_CHAR (ival : Z)
  | T_PUNCT (p : Punct).

Record Token := mkTok { tkind : TokKind; tloc : Loc }.

#[export] Instance Punct_eq_dec : EqDecision Punct.
Proof. solve_decision. Defined.
#[export] Instance spec_float_eq_dec : EqDecision spec_float.
Proof. solve_decision. Defined.
#[export] Instance TokKind_eq_dec : EqDecision TokKind.
Proof. solve_decision. Defined.
#[export] Instance Token_eq_dec : EqDecision Token.
Proof. solve_decision. Defined.

(** * Expressions *)

Inductive Op :=
  | OP_ADD | OP_SUB | OP_MUL | OP_RDIV | OP_IDIV | OP_MOD | OP_AND | OP_OR
  | OP_ANDTHEN | OP_EQ | OP_NE | OP_LT | OP_LE | OP_GT | OP_GE | OP_NEG | OP_NOT.

#[export] Instance Op_eq_dec : EqDecision Op.
Proof. solve_decision. Defined.

Inductive Expr :=
  | E_INT (l : Loc) (ival : Z)
  | E_REAL (l : Loc) (rval : spec_float)
  | E_STR (l : Loc) (s : bytes)
  | E_CHAR (l : Loc) (ival : Z)
  | E_NAME (l : Loc) (name : string)
  | E_CALL (l : Loc) (name : string) (args : list Expr)
  | E_INDEX (l : Loc) (a b : Expr)
  | E_FIELD (l : Loc) (a : Expr) (name : string)
  | E_DEREF (l : Loc) (a : Expr)
  | E_BIN (l : Loc) (op : Op) (a b : Expr)
  | E_UN (l : Loc) (op : Op) (a : Expr)
  | E_ADR (l : Loc) (name : string).

Definition expr_loc (e : Expr) : Loc :=
  match e with
  | E_INT l _ | E_REAL l _ | E_STR l _ | E_CHAR l _ | E_NAME l _ | E_CALL l _ _
  | E_INDEX l _ _ | E_FIELD l _ _ | E_DEREF l _ | E_BIN l _ _ _ | E_UN l _ _ | E_ADR l _ => l
  end.

(** The induction principle that goes under the argument list of a call. *)
Section ExprInd.
Variable P : Expr -> Prop.
Hypothesis Hint : forall l v, P (E_INT l v).
Hypothesis Hreal : forall l v, P (E_REAL l v).
Hypothesis Hstr : forall l s, P (E_STR l s).
Hypothesis Hchar : forall l v, P (E_CHAR l v).
Hypothesis Hname : forall l n, P (E_NAME l n).
Hypothesis Hcall : forall l n args, Forall P args -> P (E_CALL l n args).
Hypothesis Hindex : forall l a b, P a -> P b -> P (E_INDEX l a b).
Hypothesis Hfield : forall l a n, P a -> P (E_FIELD l a n).
Hypothesis Hderef : forall l a, P a -> P (E_DEREF l a).
Hypothesis Hbin : forall l op a b, P a -> P b -> P (E_BIN l op a b).
Hypothesis Hun : forall l op a, P a -> P (E_UN l op a).
Hypothesis Hadr : forall l n, P (E_ADR l n).

Fixpoint Expr_nested_ind (e : Expr) : P e :=
  match e with
  | E_INT l v => Hint l v
  | E_REAL l v => Hreal l v
  | E_STR l s => Hstr l s
  | E_CHAR l v => Hchar l v
  | E_NAME l n => Hname l n
  | E_CALL l n args =>
      Hcall l n args
        ((fix go (es : list Expr) : Forall P es :=
            match es with
            | [] => Forall_nil_2 P
            | e' :: es' => Forall_cons_2 P e' es' (Expr_nested_ind e') (go es')
            end) args)
  | E_INDEX l a b => Hindex l a b (Expr_nested_ind a) (Expr_nested_ind b)
  | E_FIELD l a n => Hfield l a n (Expr_nested_ind a)
  | E_DEREF l a => Hderef l a (Expr_nested_ind a)
  | E_BIN l op a b => Hbin l op a b (Expr_nested_ind a) (Expr_nested_ind b)
  | E_UN l op a => Hun l op a (Expr_nested_ind a)
  | E_ADR l n => Hadr l n
  end.
End ExprInd.

(** * Types, statements, declarations *)

Inductive TypeExpr :=
  | TE_NAME (l : Loc) (name : string)
  | TE_LSTRING (l : Loc) (lo : Expr)
  | TE_ARRAY (l : Loc) (lo hi : Expr) (elem : TypeExpr)
  | TE_RECORD (l : Loc) (fields : list FieldGroup)
  | TE_POINTER (l : Loc) (name : string)
  | TE_ENUM (l : Loc) (names : list string)
with FieldGroup :=
  | mkFieldGroup (names : list string) (te : TypeExpr) (l : Loc).

Definition fg_te (g : FieldGroup) : TypeExpr := let 'mkFieldGroup _ te _ := g in te.

Section TypeExprInd.
Variable P : TypeExpr -> Prop.
Hypothesis Hname : forall l n, P (TE_NAME l n).
Hypothesis Hlstring : forall l lo, P (TE_LSTRING l lo).
Hypothesis Harray : forall l lo hi elem, P elem -> P (TE_ARRAY l lo hi elem).
Hypothesis Hrecord : forall l gs, Forall (fun g => P (fg_te g)) gs -> P (TE_RECORD l gs).
Hypothesis Hpointer : forall l n, P (TE_POINTER l n).
Hypothesis Henum : forall l ns, P (TE_ENUM l ns).

Fixpoint TypeExpr_nested_ind (te : TypeExpr) : P te :=
  match te with
  | TE_NAME l n => Hname l n
  | TE_LSTRING l lo => Hlstring l lo
  | TE_ARRAY l lo hi elem => Harray l lo hi elem (TypeExpr_nested_ind elem)
  | TE_RECORD l gs =>
      Hrecord l gs
        ((fix go (gs : list FieldGroup) : Forall (fun g => P (fg_te g)) gs :=
            match gs with
            | [] => Forall_nil_2 _
            | mkFieldGroup ns te' gl :: gs' =>
                Forall_cons_2 _ (mkFieldGroup ns te' gl) gs' (TypeExpr_nested_ind te') (go gs')
            end) gs)
  | TE_POINTER l n => Hpointer l n
  | TE_ENUM l ns => Henum l ns
  end.
End TypeExprInd.

Inductive Stmt :=
  | S_EMPTY (l : Loc)
  | S_ASSIGN (l : Loc) (lhs rhs : Expr)
  | S_CALL (l : Loc) (lhs : Expr)
  | S_IF (l : Loc) (cond : Expr) (then_ : Stmt) (els : option Stmt)
  | S_WHILE (l : Loc) (cond : Expr) (body : Stmt)
  | S_FOR (l : Loc) (var : string) (varloc : Loc) (from to : Expr) (down : bool) (body : Stmt)
  | S_BLOCK (l : Loc) (stmts : list Stmt)
  | S_RETURN (l : Loc)
  | S_BREAK (l : Loc)
  | S_CYCLE (l : Loc).

Section StmtInd.
Variable P : Stmt -> Prop.
Hypothesis Hempty : forall l, P (S_EMPTY l).
Hypothesis Hassign : forall l a b, P (S_ASSIGN l a b).
Hypothesis Hcall : forall l e, P (S_CALL l e).
Hypothesis Hif : forall l c th el, P th -> match el with Some e => P e | None => True end -> P (S_IF l c th el).
Hypothesis Hwhile : forall l c b, P b -> P (S_WHILE l c b).
Hypothesis Hfor : forall l v vl from to down b, P b -> P (S_FOR l v vl from to down b).
Hypothesis Hblock : forall l ss, Forall P ss -> P (S_BLOCK l ss).
Hypothesis Hreturn : forall l, P (S_RETURN l).
Hypothesis Hbreak : forall l, P (S_BREAK l).
Hypothesis Hcycle : forall l, P (S_CYCLE l).

Fixpoint Stmt_nested_ind (s : Stmt) : P s :=
  match s with
  | S_EMPTY l => Hempty l
  | S_ASSIGN l a b => Hassign l a b
  | S_CALL l e => Hcall l e
  | S_IF l c th el =>
      Hif l c th el (Stmt_nested_ind th)
        (match el with Some e => Stmt_nested_ind e | None => I end)
  | S_WHILE l c b => Hwhile l c b (Stmt_nested_ind b)
  | S_FOR l v vl from to down b => Hfor l v vl from to down b (Stmt_nested_ind b)
  | S_BLOCK l ss =>
      Hblock l ss
        ((fix go (ss : list Stmt) : Forall P ss :=
            match ss with
            | [] => Forall_nil_2 P
            | s' :: ss' => Forall_cons_2 P s' ss' (Stmt_nested_ind s') (go ss')
            end) ss)
  | S_RETURN l => Hreturn l
  | S_BREAK l => Hbreak l
  | S_CYCLE l => Hcycle l
  end.
End StmtInd.

Record ConstDecl := mkConstDecl { cd_name : string; cd_loc : Loc; cd_val : Expr }.
Record TypeDecl := mkTypeDecl { td_name : string; td_loc : Loc; td_te : TypeExpr }.
Record VarDecl := mkVarDecl { vd_names : list string; vd_loc : Loc; vd_te : TypeExpr }.
Record ParamGroup := mkParamGroup {
  pg_names : list string; pg_is_var : bool; pg_te : TypeExpr; pg_loc : Loc }.

(** [struct Decl] and [struct Routine]; [r_body] is [None] when [has_body] is 0,
    otherwise the statements of the body's block. *)
Inductive Decl :=
  | D_CONST (l : Loc) (items : list ConstDecl)
  | D_TYPE (l : Loc) (items : list TypeDecl)
  | D_VAR (l : Loc) (items : list VarDecl)
  | D_ROUTINE (l : Loc) (r : Routine)
with Routine :=
  | mkRoutine (name orig : string) (l : Loc) (is_func has_params : bool)
      (params : list ParamGroup) (result : option TypeExpr)
      (is_c is_extern is_forward : bool)
      (decls : list Decl) (body : option (list Stmt)).

Definition r_name (r : Routine) := let 'mkRoutine n _ _ _ _ _ _ _ _ _ _ _ := r in n.
Definition r_orig (r : Routine) := let 'mkRoutine _ o _ _ _ _ _ _ _ _ _ _ := r in o.
Definition r_loc (r : Routine) := let 'mkRoutine _ _ l _ _ _ _ _ _ _ _ _ := r in l.
Definition r_is_func (r : Routine) := let 'mkRoutine _ _ _ f _ _ _ _ _ _ _ _ := r in f.
Definition r_has_params (r : Routine) := let 'mkRoutine _ _ _ _ h _ _ _ _ _ _ _ := r in h.
Definition r_params (r : Routine) := let 'mkRoutine _ _ _ _ _ p _ _ _ _ _ _ := r in p.
Definition r_result (r : Routine) := let 'mkRoutine _ _ _ _ _ _ t _ _ _ _ _ := r in t.
Definition r_is_c (r : Routine) := let 'mkRoutine _ _ _ _ _ _ _ c _ _ _ _ := r in c.
Definition r_is_extern (r : Routine) := let 'mkRoutine _ _ _ _ _ _ _ _ e _ _ _ := r in e.
Definition r_is_forward (r : Routine) := let 'mkRoutine _ _ _ _ _ _ _ _ _ f _ _ := r in f.
Definition r_decls (r : Routine) := let 'mkRoutine _ _ _ _ _ _ _ _ _ _ d _ := r in d.
Definition r_body (r : Routine) := let 'mkRoutine _ _ _ _ _ _ _ _ _ _ _ b := r in b.

Record Interface := mkInterface {
  in_unit : string; in_loc : Loc; in_uses : list string; in_decls : list Decl }.

(** [c_name] is [None] for a file of interfaces only; [c_body] holds the block of
    the program or of the unit's initialization. *)
Record Compiland := mkCompiland {
  c_ifaces : list Interface; c_is_program : bool; c_name : option string;
  c_loc : Loc; c_uses : list string; c_decls : list Decl; c_body : option (list Stmt) }.
