(* ===== verification/Lex.v ===== *)
(** The tokenizer, lex.c: comments, metacommands with $INCLUDE splicing, numbers,
    strings, identifiers and punctuation. The lexer's position in its buffer is
    the suffix of the source that is left; the file system is a parameter, from
    paths to file contents. *)

From Stdlib Require Import ZArith Ascii String SpecFloat.
From stdpp Require Import base list strings.
From S2P Require Import Prelude Real Ast.
#[local] Open Scope Z_scope.

(** ** Helpers of lex.c *)

Definition quote : ascii := "'".
Definition ceq (c d : ascii) : bool := Ascii.eqb c d.
Definition rfatal {A} (l : Loc) (msg : string) : res A := Err (Fatal l msg).

(** The C string in a buffer: its bytes up to the first NUL. *)
Fixpoint c_str (s : bytes) : bytes :=
  match s with
  | c :: s' => if ceq c "000" then [] else c :: c_str s'
  | [] => []
  end.

Fixpoint skip_spaces (s : bytes) : bytes :=
  match s with
  | c :: s' => if isspace c then skip_spaces s' else s
  | [] => []
  end.

(** The part of a path up to and including its last slash. *)
Definition dir_of (path : string) : string :=
  let fix go (s : bytes) : bytes :=
    match s with
    | c :: s' => if ceq c "/" then s else go s'
    | [] => []
    end in
  str (rev (go (rev (chars path)))).

(** ** Metacommands *)

(** The metacommand's word, folded to upper case, at most 31 characters. *)
Fixpoint meta_word (room : nat) (s : bytes) : bytes * bytes :=
  match room, s with
  | S room', c :: s' =>
      if isalpha c || ceq c "_" then let '(w, r) := meta_word room' s' in (toupper c :: w, r) else ([], s)
  | _, _ => ([], s)
  end.

(** What is left after the setting of a $MATHCK must be blank. *)
Definition mathck_setting (l : Loc) (s : bytes) : res unit :=
  let bad := rfatal l "malformed $MATHCK" in
  let finish (r : bytes) := match skip_spaces r with [] => Ok tt | _ => bad end in
  match skip_spaces s with
  | c :: s' =>
      if ceq c "+" || ceq c "-" then finish s'
      else if ceq c ":" then
        let s2 := skip_spaces s' in
        let s3 := match s2 with c2 :: s2' => if ceq c2 "+" || ceq c2 "-" then s2' else s2 | [] => s2 end in
        match span_digits s3 with
        | ([], _) => bad
        | (_, r) => finish r
        end
      else bad
  | [] => bad
  end.

Fixpoint up_to_quote (s : bytes) : option bytes :=
  match s with
  | c :: s' => if ceq c quote then Some [] else option_map (cons c) (up_to_quote s')
  | [] => None
  end.

(** The file name of an $INCLUDE, from the text after the word. *)
Definition include_name (l : Loc) (s : bytes) : res bytes :=
  let bad := rfatal l "malformed $INCLUDE" in
  let s1 := skip_spaces s in
  let s2 := match s1 with c :: s1' => if ceq c ":" then s1' else s1 | [] => s1 end in
  match skip_spaces s2 with
  | c :: s3 => if ceq c quote then match up_to_quote s3 with Some name => Ok name | None => bad end else bad
  | [] => bad
  end.

Section Lexer.
(** [read_file]: the contents of a file that opens. *)
Variable fs : string -> option bytes.

(** A comment body that starts with a dollar sign. [incl path from toks] is
    [lex_one(path, depth + 1, from)] on the tokens so far (newest first). *)
Definition metacommand (incl : string -> Loc -> list Token -> res (list Token))
    (dir : string) (depth : nat) (body : bytes) (l : Loc) (toks : list Token) : res (list Token) :=
  let '(w, r) := meta_word 31 (tail body) in
  let word := str w in
  if String.eqb word "MATHCK" then let! _ := mathck_setting l r in Ok toks
  else if negb (String.eqb word "INCLUDE") then unsupported l ("metacommand $" +:+ word)
  else
    let! name := include_name l r in
    let name := c_str name in
    let path := match name with
                | c :: _ => if ceq c "/" then str name else dir +:+ str name
                | [] => dir +:+ str name
                end in
    if (16 <? Z.of_nat depth) then rfatal l "$INCLUDE nested too deeply"
    else incl path l toks.

(** The scan of [skip_comment]: the comment's body, the text after its end, and
    the line it ends on. *)
Fixpoint comment_scan (l : Loc) (paren : bool) (s : bytes) (line : Z) (body : bytes) : res (bytes * bytes * Z) :=
  match s with
  | [] => rfatal l "unterminated comment"
  | c :: s' =>
      if negb paren && ceq c "}" then Ok (rev body, s', line)
      else if paren && ceq c "*" && (match s' with d :: _ => ceq d ")" | [] => false end)
      then Ok (rev body, tail s', line)
      else comment_scan l paren s' (if ceq c newline then line + 1 else line) (c :: body)
  end.

Definition digit_value (c : ascii) : Z :=
  if between "0" "9" c then code c - code "0"
  else if between "a" "z" c then code c - code "a" + 10
  else if between "A" "Z" c then code c - code "A" + 10
  else 99.

(** ** Numbers *)

Fixpoint radix_base (l : Loc) (base : Z) (ds : bytes) : res Z :=
  match ds with
  | [] => Ok base
  | c :: ds' =>
      let base' := base * 10 + (code c - code "0") in
      if 36 <? base' then rfatal l "bad radix constant" else radix_base l base' ds'
  end.

(** The digits of a radix constant; the accumulator is a [uint64_t]. *)
Fixpoint radix_digits (l : Loc) (base v : Z) (s : bytes) : res (Z * bytes) :=
  match s with
  | c :: s' =>
      if digit_value c <? base then
        let d := digit_value c in
        if (INT64_MAX - d) / base <? v then rfatal l "integer literal exceeds INTEGER64"
        else radix_digits l base (uwrap 64 (v * base + d)) s'
      else Ok (v, s)
  | [] => Ok (v, s)
  end.

Fixpoint decimal_digits (l : Loc) (v : Z) (ds : bytes) : res Z :=
  match ds with
  | c :: ds' =>
      let d := code c - code "0" in
      if (INT64_MAX - d) / 10 <? v then rfatal l "integer literal exceeds INTEGER64"
      else decimal_digits l (uwrap 64 (v * 10 + d)) ds'
  | [] => Ok v
  end.

(** The fraction of a real, when a digit follows the point. *)
Definition fraction (s : bytes) : bytes * bytes :=
  match s with
  | p :: ((d :: _) as s') =>
      if ceq p "." && isdigit d then let '(fs', r) := span_digits s' in (p :: fs', r) else ([], s)
  | _ => ([], s)
  end.

(** The exponent, when digits follow the letter and the optional sign. *)
Definition exponent (s : bytes) : bytes * bytes :=
  match s with
  | e :: s' =>
      if ceq e "e" || ceq e "E" then
        let '(sg, q) := match s' with
                        | c :: s'' => if ceq c "+" || ceq c "-" then ([c], s'') else ([], s')
                        | [] => ([], s')
                        end in
        match span_digits q with
        | ([], _) => ([], s)
        | (ds, r) => (e :: sg ++ ds, r)
        end
      else ([], s)
  | [] => ([], s)
  end.

Definition lex_number (l : Loc) (s : bytes) : res (TokKind * bytes) :=
  let '(ip, r) := span_digits s in
  let radix := match r with c :: r' => if ceq c "#" then Some r' else None | [] => None end in
  match radix with
  | Some r' =>
      let! base := radix_base l 0 ip in
      if base <? 2 then rfatal l "bad radix constant"
      else
        let! (v, r'') := radix_digits l base 0 r' in
        if (length r'' =? length r')%nat then rfatal l "bad radix constant"
        else Ok (T_INT (swrap 64 v), r'')
  | None =>
      let '(fp, r1) := fraction r in
      let '(ep, r2) := exponent r1 in
      match fp, ep with
      | [], [] => let! v := decimal_digits l 0 ip in Ok (T_INT (swrap 64 v), r2)
      | _, _ => Ok (T_REAL (strtod (ip ++ fp ++ ep)), r2)
      end
  end.

(** ** Strings: from just past the opening quote *)

Fixpoint string_scan (l : Loc) (s b : bytes) : res (bytes * bytes) :=
  let unterminated := rfatal l "unterminated string literal" in
  match s with
  | [] => unterminated
  | c :: s' =>
      if ceq c newline then unterminated
      else if ceq c quote then
        match s' with
        | d :: s'' => if ceq d quote then string_scan l s'' (c :: b) else Ok (rev b, s')
        | [] => Ok (rev b, s')
        end
      else string_scan l s' (c :: b)
  end.

(** A single quoted character is a CHAR, not a string. *)
Definition lex_string (l : Loc) (s : bytes) : res (TokKind * bytes) :=
  let! (b, r) := string_scan l s [] in
  match b with
  | [c] => Ok (T_CHAR (code c), r)
  | _ => Ok (T_STR b, r)
  end.

(** ** Identifiers and punctuation *)

Fixpoint span_ident (s : bytes) : bytes * bytes :=
  match s with
  | c :: s' => if isalnum c || ceq c "_" then let '(w, r) := span_ident s' in (c :: w, r) else ([], s)
  | [] => ([], [])
  end.

Definition hex_digit (d : Z) : ascii := if d <? 10 then digit_char d else chr (code "a" + d - 10).
(** %02x of an unsigned char *)
Definition hex2 (c : ascii) : string := str [hex_digit (code c / 16); hex_digit (code c `mod` 16)].

(** The punctuation at [c], followed by [d] (NUL at the end of the text), and
    whether it takes both characters. *)
Definition punct_of (c d : ascii) : option (Punct * bool) :=
  if ceq c "(" then Some (P_LPAREN, false)
  else if ceq c ")" then Some (P_RPAREN, false)
  else if ceq c "[" then Some (P_LBRACK, false)
  else if ceq c "]" then Some (P_RBRACK, false)
  else if ceq c "," then Some (P_COMMA, false)
  else if ceq c ";" then Some (P_SEMI, false)
  else if ceq c "^" then Some (P_CARET, false)
  else if ceq c "+" then Some (P_PLUS, false)
  else if ceq c "-" then Some (P_MINUS, false)
  else if ceq c "*" then Some (P_STAR, false)
  else if ceq c "/" then Some (P_SLASH, false)
  else if ceq c "=" then Some (P_EQ, false)
  else if ceq c ":" then Some (if ceq d "=" then (P_ASSIGN, true) else (P_COLON, false))
  else if ceq c "." then Some (if ceq d "." then (P_DOTDOT, true) else (P_DOT, false))
  else if ceq c "<" then
    Some (if ceq d ">" then (P_NE, true) else if ceq d "=" then (P_LE, true) else (P_LT, false))
  else if ceq c ">" then Some (if ceq d "=" then (P_GE, true) else (P_GT, false))
  else None.

Definition lex_punct (l : Loc) (c : ascii) (s' : bytes) : res (TokKind * bytes) :=
  match punct_of c (match s' with d :: _ => d | [] => "000"%char end) with
  | Some (p, two) => Ok (T_PUNCT p, if two then tail s' else s')
  | None =>
      rfatal l ("unexpected character '" +:+ str [if isprint c then c else "?"%char]
                +:+ "' (0x" +:+ hex2 c +:+ ")")
  end.

(** The token that starts at [c], which is no space and opens no comment. *)
Definition lex_token (l : Loc) (c : ascii) (s' : bytes) : res (TokKind * bytes) :=
  if isalpha c || ceq c "_" then
    let '(w, r) := span_ident (c :: s') in Ok (T_IDENT (str (map tolower w)) (str w), r)
  else if isdigit c then lex_number l (c :: s')
  else if ceq c quote then lex_string l s'
  else lex_punct l c s'.

(** ** The loop of [lex_one] *)

Section Loop.
Variable incl : string -> Loc -> list Token -> res (list Token).
Variables (file dir : string) (depth : nat).

(** [skip_comment], and the metacommand it may hold. *)
Definition skip_comment (paren : bool) (s : bytes) (line : Z) (toks : list Token)
    : res (bytes * Z * list Token) :=
  let l := mkLoc (Some file) line in
  let! (body, r, line') := comment_scan l paren s line [] in
  let! toks' :=
    match body with
    | c :: _ => if ceq c "$" then metacommand incl dir depth body l toks else Ok toks
    | [] => Ok toks
    end in
  Ok (r, line', toks').

Fixpoint lex_loop (fuel : nat) (s : bytes) (line : Z) (toks : list Token) : res (list Token) :=
  match fuel with
  | O => Err OutOfFuel
  | S f =>
      match s with
      | [] => Ok toks
      | c :: s' =>
          if ceq c newline then lex_loop f s' (line + 1) toks
          else if isspace c then lex_loop f s' line toks
          else if ceq c "{" then
            let! (r, line', toks') := skip_comment false s' line toks in lex_loop f r line' toks'
          else if ceq c "(" && (match s' with d :: _ => ceq d "*" | [] => false end) then
            let! (r, line', toks') := skip_comment true (tail s') line toks in lex_loop f r line' toks'
          else
            let l := mkLoc (Some file) line in
            let! (k, r) := lex_token l c s' in
            lex_loop f r line (mkTok k l :: toks)
      end
  end.
End Loop.

(** [lex_one]; [dfuel] bounds the nesting of $INCLUDE, which the code bounds too. *)
Fixpoint lex_one (dfuel : nat) (path : string) (depth : nat) (from : Loc) (toks : list Token)
    : res (list Token) :=
  match dfuel with
  | O => Err OutOfFuel
  | S df =>
      match fs path with
      | None =>
          match loc_file from with
          | Some _ => rfatal from ("cannot open '" +:+ path +:+ "'")
          | None => Err (CannotOpen path)
          end
      | Some src =>
          lex_loop (fun p l t => lex_one df p (S depth) l t) path (dir_of path) depth
            (S (length src)) src 1 toks
      end
  end.

(** [$INCLUDE] is refused at depth 17 and above, so 18 levels are enough. *)
Definition lex_fuel : nat := 18.

Definition lex_file (path : string) : res (list Token) :=
  let! toks := lex_one lex_fuel path 0 (mkLoc None 0) [] in
  let l := match toks with
           | t :: _ => tloc t
           | [] => mkLoc (Some path) 1
           end in
  Ok (rev (mkTok T_EOF l :: toks)).
End Lexer.

Definition punct_text (p : Punct) : string :=
  match p with
  | P_LPAREN => "(" | P_RPAREN => ")" | P_LBRACK => "[" | P_RBRACK => "]"
  | P_COMMA => "," | P_SEMI => ";" | P_COLON => ":" | P_ASSIGN => ":=" | P_DOT => "."
  | P_DOTDOT => ".." | P_CARET => "^" | P_PLUS => "+" | P_MINUS => "-" | P_STAR => "*"
  | P_SLASH => "/" | P_EQ => "=" | P_NE => "<>" | P_LT => "<" | P_LE => "<="
  | P_GT => ">" | P_GE => ">="
  end.
