(* ===== verification/Parse.v ===== *)
(** The recursive-descent parser, parse.c. The parser's position in the token
    array is the suffix of the tokens that is left. Each function of the code
    that loops or recurses takes a bound [fuel] on the calls below it; an
    exhausted bound is the error [OutOfFuel], a read past the array [Undef]. *)

From Stdlib Require Import ZArith Ascii String SpecFloat.
From stdpp Require Import base list strings.
From S2P Require Import Prelude Ast Lex.
#[local] Open Scope Z_scope.

Abbreviation P := (ST (list Token)).

Definition past_end {A} : P A := fail (Undef "read past the end of the token array").

(** ** The cursor *)

Definition cur : P Token :=
  fun ts => match ts with t :: _ => Ok (t, ts) | [] => past_end ts end.

(** [pos++] *)
Definition advance : P unit :=
  fun ts => match ts with _ :: r => Ok (tt, r) | [] => past_end ts end.

Fixpoint peek_in (k : nat) (ts : list Token) : option Token :=
  match ts, k with
  | [], _ => None
  | t :: _, O => Some t
  | t :: r, S k' => match tkind t with T_EOF => Some t | _ => peek_in k' r end
  end.

Definition peek (k : nat) : P Token :=
  fun ts => match peek_in k ts with Some t => Ok (t, ts) | None => past_end ts end.

Definition here : P Loc := let* t := cur in ret (tloc t).

Definition is_word (t : Token) (w : string) : bool :=
  match tkind t with T_IDENT text _ => String.eqb text w | _ => false end.

Definition is_ident (t : Token) : bool := match tkind t with T_IDENT _ _ => true | _ => false end.

Definition is_punct (t : Token) (p : Punct) : bool :=
  match tkind t with T_PUNCT q => bool_decide (q = p) | _ => false end.

Definition at_word (w : string) : P bool := let* t := cur in ret (is_word t w).
Definition at_punct (p : Punct) : P bool := let* t := cur in ret (is_punct t p).

Definition describe (t : Token) : string :=
  match tkind t with
  | T_EOF => "end of file"
  | T_IDENT _ orig => "'" +:+ orig +:+ "'"
  | T_INT _ => "integer literal"
  | T_REAL _ => "real literal"
  | T_STR _ => "string literal"
  | T_CHAR _ => "character literal"
  | T_PUNCT p => "'" +:+ punct_text p +:+ "'"
  end.

Definition expected {A} (what : string) : P A :=
  let* t := cur in fatal (tloc t) ("expected " +:+ what +:+ ", found " +:+ describe t).

Definition expect_word (w : string) : P unit :=
  let* b := at_word w in if b then advance else expected ("'" +:+ w +:+ "'").

Definition expect_punct (p : Punct) : P unit :=
  let* b := at_punct p in if b then advance else expected ("'" +:+ punct_text p +:+ "'").

Definition accept_word (w : string) : P bool :=
  let* b := at_word w in if b then do* advance in ret true else ret false.

Definition accept_punct (p : Punct) : P bool :=
  let* b := at_punct p in if b then do* advance in ret true else ret false.

(** [unsupported(here(), what)] when the condition holds. *)
Definition reject_if (b : bool) (what : string) : P unit :=
  if b then let* l := here in unsupp l what else ret tt.

Definition reserved : list string :=
  ["and"; "array"; "begin"; "case"; "const"; "div"; "do"; "downto"; "else";
   "end"; "for"; "function"; "goto"; "if"; "in"; "label"; "mod"; "not"; "of";
   "or"; "packed"; "procedure"; "program"; "record"; "repeat"; "set"; "then";
   "to"; "type"; "until"; "var"; "while"; "with"; "interface"; "implementation";
   "unit"; "uses"; "otherwise"; "value"; "module"; "xor"].

Definition is_reserved (t : Token) : bool :=
  match tkind t with T_IDENT text _ => existsb (String.eqb text) reserved | _ => false end.

(** The token of an identifier, as its folded text and its spelling. *)
Definition ident_tok : P (string * string) :=
  let* t := cur in
  match tkind t with
  | T_IDENT text orig => if is_reserved t then expected "identifier" else do* advance in ret (text, orig)
  | _ => expected "identifier"
  end.

Definition ident : P string := let* w := ident_tok in ret (fst w).

Fixpoint ident_list (fuel : nat) : P (list string) :=
  match fuel with
  | O => fail OutOfFuel
  | S f =>
      let* x := ident in
      let* more := accept_punct P_COMMA in
      if more then let* xs := ident_list f in ret (x :: xs) else ret [x]
  end.

(** ** Expressions *)

(** The operator of a multiplicative, additive or comparison position. *)
Definition mul_op : P (option Op) :=
  let* star := accept_punct P_STAR in
  if star then ret (Some OP_MUL) else
  let* slash := accept_punct P_SLASH in
  if slash then ret (Some OP_RDIV) else
  let* div := accept_word "div" in
  if div then ret (Some OP_IDIV) else
  let* md := accept_word "mod" in
  if md then ret (Some OP_MOD) else
  let* a := at_word "and" in
  if a then
    let* n := peek 1 in
    if is_word n "then" then ret None else do* advance in ret (Some OP_AND)
  else ret None.

Definition add_op : P (option Op) :=
  let* plus := accept_punct P_PLUS in
  if plus then ret (Some OP_ADD) else
  let* minus := accept_punct P_MINUS in
  if minus then ret (Some OP_SUB) else
  let* o := accept_word "or" in
  if o then
    let* e := at_word "else" in
    do* reject_if e "OR ELSE" in
    ret (Some OP_OR)
  else
    let* x := at_word "xor" in
    do* reject_if x "XOR" in
    ret None.

Definition cmp_op : P (option Op) :=
  let* eq := accept_punct P_EQ in if eq then ret (Some OP_EQ) else
  let* ne := accept_punct P_NE in if ne then ret (Some OP_NE) else
  let* lt := accept_punct P_LT in if lt then ret (Some OP_LT) else
  let* le := accept_punct P_LE in if le then ret (Some OP_LE) else
  let* gt := accept_punct P_GT in if gt then ret (Some OP_GT) else
  let* ge := accept_punct P_GE in if ge then ret (Some OP_GE) else
  let* i := at_word "in" in
  do* reject_if i "IN" in
  ret None.

(** [adr <identifier>], just past the word. *)
Definition adr_operand (l : Loc) : P Expr :=
  let* n := ident in
  let* d := at_punct P_DOT in
  let* b := at_punct P_LBRACK in
  let* c := at_punct P_CARET in
  do* reject_if (d || b || c) "ADR of anything but a bare identifier" in
  ret (E_ADR l n).

Fixpoint expr (fuel : nat) : P Expr :=
  match fuel with
  | O => fail OutOfFuel
  | S f =>
      let* e := simple f in
      let* l := here in
      let* op := cmp_op in
      match op with
      | Some o => let* b := simple f in ret (E_BIN l o e b)
      | None => ret e
      end
  end
with simple (fuel : nat) : P Expr :=
  match fuel with
  | O => fail OutOfFuel
  | S f =>
      let* l := here in
      let* neg := accept_punct P_MINUS in
      if neg then let* a := term f in simple_loop f (E_UN l OP_NEG a)
      else
        do* accept_punct P_PLUS in
        let* e := term f in
        simple_loop f e
  end
with simple_loop (fuel : nat) (e : Expr) : P Expr :=
  match fuel with
  | O => fail OutOfFuel
  | S f =>
      let* l := here in
      let* op := add_op in
      match op with
      | Some o => let* b := term f in simple_loop f (E_BIN l o e b)
      | None => ret e
      end
  end
with term (fuel : nat) : P Expr :=
  match fuel with
  | O => fail OutOfFuel
  | S f => let* e := factor f in term_loop f e
  end
with term_loop (fuel : nat) (e : Expr) : P Expr :=
  match fuel with
  | O => fail OutOfFuel
  | S f =>
      let* l := here in
      let* op := mul_op in
      match op with
      | Some o => let* b := factor f in term_loop f (E_BIN l o e b)
      | None => ret e
      end
  end
with factor (fuel : nat) : P Expr :=
  match fuel with
  | O => fail OutOfFuel
  | S f =>
      let* t := cur in
      let l := tloc t in
      match tkind t with
      | T_INT v => do* advance in ret (E_INT l v)
      | T_REAL v => do* advance in ret (E_REAL l v)
      | T_STR s => do* advance in ret (E_STR l s)
      | T_CHAR v => do* advance in ret (E_CHAR l v)
      | T_PUNCT _ =>
          let* open := accept_punct P_LPAREN in
          if open then
            let* e := expr f in
            do* expect_punct P_RPAREN in
            selectors f e
          else
            let* b := at_punct P_LBRACK in
            if b then unsupp l "set constructor" else expected "expression"
      | T_IDENT text _ =>
          let* neg := accept_word "not" in
          if neg then let* a := factor f in ret (E_UN l OP_NOT a)
          else
            let* adr := (if is_word t "adr" then let* n := peek 1 in ret (is_ident n) else ret false) in
            if (adr : bool) then do* advance in adr_operand l
            else if is_word t "ads" then unsupp l "ADS"
            else if is_reserved t then expected "expression"
            else
              do* advance in
              let* open := at_punct P_LPAREN in
              if open then
                do* advance in
                let* close := at_punct P_RPAREN in
                let* args := (if close then ret [] else call_args f) in
                do* expect_punct P_RPAREN in
                selectors f (E_CALL l text args)
              else selectors f (E_NAME l text)
      | T_EOF => expected "expression"
      end
  end
with call_args (fuel : nat) : P (list Expr) :=
  match fuel with
  | O => fail OutOfFuel
  | S f =>
      let* e := expr f in
      let* colon := at_punct P_COLON in
      do* reject_if colon "WRITE field width" in
      let* more := accept_punct P_COMMA in
      if more then let* es := call_args f in ret (e :: es) else ret [e]
  end
with selectors (fuel : nat) (e : Expr) : P Expr :=
  match fuel with
  | O => fail OutOfFuel
  | S f =>
      let* l := here in
      let* idx := accept_punct P_LBRACK in
      if idx then
        let* b := expr f in
        let* comma := at_punct P_COMMA in
        do* reject_if comma "multi-dimensional subscript" in
        do* expect_punct P_RBRACK in
        selectors f (E_INDEX l e b)
      else
        let* dot := accept_punct P_DOT in
        if dot then let* n := ident in selectors f (E_FIELD l e n)
        else
          let* caret := accept_punct P_CARET in
          if caret then selectors f (E_DEREF l e) else ret e
  end.

(** The condition of an IF or a WHILE: AND THEN binds looser than any operator. *)
Fixpoint bool_loop (fuel : nat) (e : Expr) : P Expr :=
  match fuel with
  | O => fail OutOfFuel
  | S f =>
      let* l := here in
      let* a := at_word "and" in
      let* o := at_word "or" in
      if a || o then
        let* n := peek 1 in
        if a && is_word n "then" then
          do* advance in
          do* advance in
          let* b := expr f in
          bool_loop f (E_BIN l OP_ANDTHEN e b)
        else if o && is_word n "else" then unsupp l "OR ELSE"
        else ret e
      else ret e
  end.

Definition bool_expr (fuel : nat) : P Expr := let* e := expr fuel in bool_loop fuel e.

(** ** Types *)

Definition is_lparen (t : Token) : bool := is_punct t P_LPAREN.

(** The reserved or predefined words a type cannot start with. *)
Definition reject_type_word (l : Loc) (t : Token) : P unit :=
  if is_word t "packed" then unsupp l "PACKED"
  else if is_word t "set" then unsupp l "SET type"
  else if is_word t "file" then unsupp l "FILE type"
  else
    let* str := (if is_word t "string" then let* n := peek 1 in ret (is_lparen n) else ret false) in
    if (str : bool) then unsupp l "STRING(n)"
    else if is_word t "super" then unsupp l "SUPER ARRAY"
    else if is_word t "vector" then unsupp l "VECTOR"
    else if is_word t "ads" || is_word t "adr" then unsupp l "ADS/ADR type"
    else if negb (is_ident t) then unsupp l "subrange type"
    else ret tt.

Fixpoint type_expr (fuel : nat) : P TypeExpr :=
  match fuel with
  | O => fail OutOfFuel
  | S f =>
      let* l := here in
      let* ptr := accept_punct P_CARET in
      if ptr then let* n := ident in ret (TE_POINTER l n)
      else
      let* enum := accept_punct P_LPAREN in
      if enum then
        let* names := ident_list f in
        do* expect_punct P_RPAREN in
        ret (TE_ENUM l names)
      else
      let* arr := accept_word "array" in
      if arr then
        let* b := at_punct P_LBRACK in
        do* reject_if (negb b) "ARRAY without explicit bounds" in
        do* advance in
        let* lo := simple f in
        let* dd := at_punct P_DOTDOT in
        do* reject_if (negb dd) "array index type other than lo..hi" in
        do* advance in
        let* hi := simple f in
        let* c := at_punct P_COMMA in
        do* reject_if c "multi-dimensional array" in
        do* expect_punct P_RBRACK in
        do* expect_word "of" in
        let* elem := type_expr f in
        ret (TE_ARRAY l lo hi elem)
      else
      let* rcd := accept_word "record" in
      if rcd then
        let* fields := record_fields f in
        do* expect_word "end" in
        ret (TE_RECORD l fields)
      else
      let* t := cur in
      do* reject_type_word l t in
      let* lstr := at_word "lstring" in
      if lstr then
        do* advance in
        do* expect_punct P_LPAREN in
        let* lo := expr f in
        do* expect_punct P_RPAREN in
        ret (TE_LSTRING l lo)
      else
        let* n := ident in
        let* dd := at_punct P_DOTDOT in
        if dd then unsupp l "subrange type" else ret (TE_NAME l n)
  end
with record_fields (fuel : nat) : P (list FieldGroup) :=
  match fuel with
  | O => fail OutOfFuel
  | S f =>
      let* e := at_word "end" in
      if e then ret []
      else
        let* c := at_word "case" in
        do* reject_if c "record variant part" in
        let* l := here in
        let* names := ident_list f in
        do* expect_punct P_COLON in
        let* te := type_expr f in
        let g := mkFieldGroup names te l in
        let* more := accept_punct P_SEMI in
        if more then let* gs := record_fields f in ret (g :: gs) else ret [g]
  end.

(** ** Statements *)

(** RETURN, BREAK and CYCLE, just past the word. *)
Definition jump_stmt (l : Loc) (t : Token) : P Stmt :=
  let* n := cur in
  let* e := at_word "end" in
  let* el := at_word "else" in
  do* reject_if (is_ident n && negb e && negb el) "labelled BREAK/CYCLE/RETURN" in
  ret (if is_word t "return" then S_RETURN l else if is_word t "break" then S_BREAK l else S_CYCLE l).

Definition is_jump (t : Token) : bool :=
  is_word t "return" || is_word t "break" || is_word t "cycle".

(** An assignment or a call. *)
Definition simple_stmt (f : nat) (l : Loc) : P Stmt :=
  let* lhs := factor f in
  let* asg := accept_punct P_ASSIGN in
  if asg then let* rhs := expr f in ret (S_ASSIGN l lhs rhs)
  else match lhs with
       | E_NAME _ _ | E_CALL _ _ _ => ret (S_CALL l lhs)
       | _ => expected "':='"
       end.

Fixpoint statement (fuel : nat) : P Stmt :=
  match fuel with
  | O => fail OutOfFuel
  | S f =>
      let* l := here in
      let* t := cur in
      match tkind t with
      | T_INT _ => unsupp l "labelled statement"
      | T_IDENT _ _ =>
          let* b := accept_word "begin" in
          if b then
            let* ss := stmt_list f in
            do* expect_word "end" in
            ret (S_BLOCK l ss)
          else
          let* i := accept_word "if" in
          if i then
            let* c := bool_expr f in
            do* expect_word "then" in
            let* th := statement f in
            let* e := accept_word "else" in
            if e then let* el := statement f in ret (S_IF l c th (Some el)) else ret (S_IF l c th None)
          else
          let* w := accept_word "while" in
          if w then
            let* c := bool_expr f in
            do* expect_word "do" in
            let* body := statement f in
            ret (S_WHILE l c body)
          else
          let* fr := accept_word "for" in
          if fr then
            let* st := at_word "static" in
            do* reject_if st "FOR STATIC" in
            let* vl := here in
            let* v := ident in
            do* expect_punct P_ASSIGN in
            let* from := expr f in
            let* down := accept_word "downto" in
            do* (if down then ret tt else expect_word "to") in
            let* to := expr f in
            do* expect_word "do" in
            let* body := statement f in
            ret (S_FOR l v vl from to down body)
          else
          if is_word t "repeat" then unsupp l "REPEAT"
          else if is_word t "case" then unsupp l "CASE"
          else if is_word t "with" then unsupp l "WITH"
          else if is_word t "goto" then unsupp l "GOTO"
          else if is_word t "end" || is_word t "else" then ret (S_EMPTY l)
          else
            let* nx := peek 1 in
            if negb (is_punct nx P_ASSIGN) && is_jump t then do* advance in jump_stmt l t
            else if is_reserved t then expected "statement"
            else if is_punct nx P_COLON then unsupp l "labelled statement"
            else simple_stmt f l
      | _ => ret (S_EMPTY l)
      end
  end
with stmt_list (fuel : nat) : P (list Stmt) :=
  match fuel with
  | O => fail OutOfFuel
  | S f =>
      let* s := statement f in
      let* more := accept_punct P_SEMI in
      if more then let* ss := stmt_list f in ret (s :: ss) else ret [s]
  end.

(** ** Declarations *)

Definition at_ident_then (p : Punct) : P bool :=
  let* t := cur in
  if is_ident t && negb (is_reserved t) then let* n := peek 1 in ret (is_punct n p) else ret false.

(** The [do ... while] loops over the declarations of a section. *)
Fixpoint const_items (fuel : nat) : P (list ConstDecl) :=
  match fuel with
  | O => fail OutOfFuel
  | S f =>
      let* l := here in
      let* n := ident in
      do* expect_punct P_EQ in
      let* v := expr f in
      do* expect_punct P_SEMI in
      let* more := at_ident_then P_EQ in
      let c := mkConstDecl n l v in
      if more then let* cs := const_items f in ret (c :: cs) else ret [c]
  end.

Fixpoint type_items (fuel : nat) : P (list TypeDecl) :=
  match fuel with
  | O => fail OutOfFuel
  | S f =>
      let* l := here in
      let* n := ident in
      do* expect_punct P_EQ in
      let* te := type_expr f in
      do* expect_punct P_SEMI in
      let* more := at_ident_then P_EQ in
      let t := mkTypeDecl n l te in
      if more then let* ts := type_items f in ret (t :: ts) else ret [t]
  end.

Fixpoint var_items (fuel : nat) : P (list VarDecl) :=
  match fuel with
  | O => fail OutOfFuel
  | S f =>
      let* l := here in
      let* names := ident_list f in
      do* expect_punct P_COLON in
      let* te := type_expr f in
      let* b := at_punct P_LBRACK in
      do* reject_if b "variable attribute" in
      let* e := at_punct P_EQ in
      do* reject_if e "variable initializer" in
      do* expect_punct P_SEMI in
      let* comma := at_ident_then P_COMMA in
      let* colon := at_ident_then P_COLON in
      let v := mkVarDecl names l te in
      if comma || colon then let* vs := var_items f in ret (v :: vs) else ret [v]
  end.

Definition is_section (t : Token) : bool :=
  is_word t "const" || is_word t "type" || is_word t "var".

(** [const_section], [type_section], [var_section] and their choice [section]. *)
Definition section (f : nat) : P Decl :=
  let* t := cur in
  let l := tloc t in
  if is_word t "const" then do* advance in let* cs := const_items f in ret (D_CONST l cs)
  else if is_word t "type" then do* advance in let* ts := type_items f in ret (D_TYPE l ts)
  else do* advance in let* vs := var_items f in ret (D_VAR l vs).

Fixpoint sections (fuel : nat) : P (list Decl) :=
  match fuel with
  | O => fail OutOfFuel
  | S f =>
      let* t := cur in
      if is_section t then let* d := section f in let* ds := sections f in ret (d :: ds) else ret []
  end.

Definition token_orig (t : Token) : string :=
  match tkind t with T_IDENT _ orig => orig | _ => EmptyString end.

Fixpoint param_groups (fuel : nat) : P (list ParamGroup) :=
  match fuel with
  | O => fail OutOfFuel
  | S f =>
      let* t := cur in
      let l := tloc t in
      let* is_var := accept_word "var" in
      do* (if is_var then ret tt
           else if is_word t "vars" || is_word t "const" || is_word t "consts"
           then unsupp l (token_orig t +:+ " parameter")
           else if is_word t "procedure" || is_word t "function"
           then unsupp l "procedural parameter" else ret tt) in
      let* names := ident_list f in
      do* expect_punct P_COLON in
      let* te := type_expr f in
      let g := mkParamGroup names is_var te l in
      let* more := accept_punct P_SEMI in
      if more then let* gs := param_groups f in ret (g :: gs) else ret [g]
  end.

(** The heading's [C] attribute, if there is one. *)
Definition c_attribute : P bool :=
  let* b := accept_punct P_LBRACK in
  if b then
    let* l := here in
    let* (text, orig) := ident_tok in
    let* close := at_punct P_RBRACK in
    if negb (String.eqb text "c") || negb close
    then unsupp l ("routine attribute [" +:+ orig +:+ "]")
    else do* advance in ret true
  else ret false.

Record Heading := mkHeading {
  h_name : string; h_orig : string; h_loc : Loc; h_is_func : bool; h_has_params : bool;
  h_params : list ParamGroup; h_result : option TypeExpr; h_is_c : bool }.

Definition routine_heading (f : nat) : P Heading :=
  let* l := here in
  let* is_func := at_word "function" in
  do* advance in
  let* (name, orig) := ident_tok in
  let* has_params := accept_punct P_LPAREN in
  let* params := (if has_params then
                    let* gs := param_groups f in
                    do* expect_punct P_RPAREN in ret gs
                  else ret []) in
  let* colon := (if is_func then accept_punct P_COLON else ret false) in
  let* result := (if colon then let* te := type_expr f in ret (Some te) else ret None) in
  let* is_c := c_attribute in
  do* expect_punct P_SEMI in
  ret (mkHeading name orig l is_func has_params params result is_c).

Definition routine_of (h : Heading) (is_extern is_forward : bool) (ds : list Decl)
    (body : option (list Stmt)) : Routine :=
  mkRoutine (h_name h) (h_orig h) (h_loc h) (h_is_func h) (h_has_params h) (h_params h)
    (h_result h) (h_is_c h) is_extern is_forward ds body.

Definition is_routine_word (t : Token) : bool := is_word t "procedure" || is_word t "function".

Definition routine_decl (f : nat) (in_interface : bool) : P Decl :=
  let* l := here in
  let* h := routine_heading f in
  if in_interface then ret (D_ROUTINE l (routine_of h false false [] None)) else
  let* fwd := accept_word "forward" in
  if fwd then do* expect_punct P_SEMI in ret (D_ROUTINE l (routine_of h false true [] None)) else
  let* ext := accept_word "extern" in
  let* ext := (if ext then ret true else accept_word "external") in
  if (ext : bool) then do* expect_punct P_SEMI in ret (D_ROUTINE l (routine_of h true false [] None)) else
  if h_is_c h then unsupp l "[C] routine with a body" else
  let* ds := sections f in
  let* t := cur in
  do* reject_if (is_routine_word t) "nested routine" in
  do* reject_if (is_word t "label") "LABEL" in
  do* expect_word "begin" in
  let* ss := stmt_list f in
  do* expect_word "end" in
  do* expect_punct P_SEMI in
  ret (D_ROUTINE l (routine_of h false false ds (Some ss))).

(** ** Compilands *)

Fixpoint uses_clause (fuel : nat) : P (list string) :=
  match fuel with
  | O => fail OutOfFuel
  | S f =>
      let* u := accept_word "uses" in
      if u then
        let* xs := ident_list f in
        do* expect_punct P_SEMI in
        let* ys := uses_clause f in
        ret (xs ++ ys)
      else ret []
  end.

Fixpoint interface_decls (fuel : nat) : P (list Decl) :=
  match fuel with
  | O => fail OutOfFuel
  | S f =>
      let* t := cur in
      if is_section t then let* d := section f in let* ds := interface_decls f in ret (d :: ds)
      else if is_routine_word t
      then let* d := routine_decl f true in let* ds := interface_decls f in ret (d :: ds)
      else do* reject_if (is_word t "label") "LABEL" in ret []
  end.

(** A parenthesized list of names that only needs to parse. *)
Definition skip_names (f : nat) : P unit :=
  let* open := accept_punct P_LPAREN in
  if open then do* ident_list f in expect_punct P_RPAREN else ret tt.

Definition interface (f : nat) : P Interface :=
  let* l := here in
  do* expect_word "interface" in
  do* expect_punct P_SEMI in
  do* expect_word "unit" in
  let* unit := ident in
  do* skip_names f in
  do* expect_punct P_SEMI in
  let* uses := uses_clause f in
  let* ds := interface_decls f in
  do* expect_word "end" in
  do* expect_punct P_SEMI in
  ret (mkInterface unit l uses ds).

Fixpoint interfaces (fuel : nat) : P (list Interface) :=
  match fuel with
  | O => fail OutOfFuel
  | S f =>
      let* i := at_word "interface" in
      if i then let* x := interface f in let* xs := interfaces f in ret (x :: xs) else ret []
  end.

(** The declarations of a compiland, and the units its later USES name. *)
Fixpoint compiland_decls (fuel : nat) : P (list string * list Decl) :=
  match fuel with
  | O => fail OutOfFuel
  | S f =>
      let* t := cur in
      if is_section t then
        let* d := section f in let* (us, ds) := compiland_decls f in ret (us, d :: ds)
      else if is_routine_word t then
        let* d := routine_decl f false in let* (us, ds) := compiland_decls f in ret (us, d :: ds)
      else
        do* reject_if (is_word t "label") "LABEL" in
        if is_word t "uses" then
          let* us := uses_clause f in let* (us', ds) := compiland_decls f in ret (us ++ us', ds)
        else ret ([], [])
  end.

(** [PROGRAM p(...)] or [IMPLEMENTATION OF u]. *)
Definition compiland_heading (f : nat) : P (bool * string) :=
  let* prog := accept_word "program" in
  if prog then let* n := ident in do* skip_names f in ret (true, n)
  else
    let* impl := accept_word "implementation" in
    if impl then do* expect_word "of" in let* n := ident in ret (false, n)
    else
      let* m := at_word "module" in
      do* reject_if m "MODULE compiland" in
      let* d := at_word "device" in
      do* reject_if d "DEVICE compiland" in
      expected "PROGRAM or IMPLEMENTATION".

Definition is_eof (t : Token) : bool := match tkind t with T_EOF => true | _ => false end.

Definition compiland (f : nat) : P Compiland :=
  let* ifaces := interfaces f in
  let* t := cur in
  if is_eof t && negb (bool_decide (ifaces = [])) then
    ret (mkCompiland ifaces false None (tloc t) [] [] None)
  else
    let* (is_program, name) := compiland_heading f in
    do* expect_punct P_SEMI in
    let* us := uses_clause f in
    let* (us', ds) := compiland_decls f in
    do* expect_word "begin" in
    let* ss := stmt_list f in
    do* expect_word "end" in
    do* expect_punct P_DOT in
    let* e := cur in
    if is_eof e then ret (mkCompiland ifaces is_program (Some name) (tloc t) (us ++ us') ds (Some ss))
    else fatal (tloc e) "text after the final 'END.'".

(** A bound no parse of [n] tokens reaches. *)
Definition parse_fuel (n : nat) : nat := 16 * n + 16.

Definition parse_compiland (toks : list Token) : res Compiland :=
  let! (c, _) := compiland (parse_fuel (length toks)) toks in Ok c.
