(* ===== verification/Sem.v ===== *)
(** The type model, the symbol scopes, constant evaluation and the C spelling of
    types, sem.c. A [Type *] is the index of its record in the store [types] (the
    code's [t->id] is that index plus one), a [Sym *] its index in [syms], so
    that pointer comparison is comparison of indices and in-place updates are
    updates of the store. *)

From Stdlib Require Import ZArith Ascii String SpecFloat.
From stdpp Require Import base list strings gmap.
From S2P Require Import Prelude Real Ast.
#[local] Open Scope Z_scope.

Abbreviation tyid := nat.
Abbreviation symid := nat.

(** ** Types *)

Inductive TypeDesc :=
  | TY_INT (width : Z) (iname : string)
  | TY_REAL
  | TY_BOOL
  | TY_CHAR
  | TY_ADRMEM
  | TY_ENUM (lo hi : Z)
  | TY_LSTR (cap : Z)
  | TY_ARRAY (lo hi : Z) (elem : tyid)
  | TY_RECORD (fields : list (string * tyid))
  | TY_PTR (target : option tyid) (pending : option string)
  | TY_NIL
  | TY_STRLIT
  | TY_VOID.

(** [struct Type]; [emitted] and [declared] say which C text was written. *)
Record Ty := mkTy { t_desc : TypeDesc; t_loc : Loc; t_emitted : bool; t_declared : bool }.

(** ** Symbols *)

Inductive SymKind := SY_CONST | SY_TYPE | SY_VAR | SY_ROUTINE.

#[export] Instance SymKind_eq_dec : EqDecision SymKind.
Proof. solve_decision. Defined.
#[export] Instance TypeDesc_eq_dec : EqDecision TypeDesc.
Proof. solve_decision. Defined.

Record ParamInfo := mkParam { pi_name : string; pi_ty : tyid; pi_is_var : bool }.

(** [struct Sym]. [s_ty] is [None] for a procedure, [s_owner] for what no
    interface declares. *)
Record Sym := mkSym {
  s_name : string; s_kind : SymKind; s_loc : Loc; s_ty : option tyid;
  s_ival : Z; s_rval : spec_float; s_sval : bytes;
  s_is_varparam : bool; s_cname : string; s_unit_level : bool; s_from_iface : bool;
  s_owner : option string; s_routine : option Routine; s_params : list ParamInfo;
  s_is_c : bool; s_defined : bool }.

Definition real_zero : spec_float := S754_zero false.

Definition new_sym (name : string) (kind : SymKind) (l : Loc) : Sym :=
  mkSym name kind l None 0 real_zero [] false EmptyString false false None None [] false false.

Definition set_ty (t : tyid) (s : Sym) : Sym :=
  mkSym (s_name s) (s_kind s) (s_loc s) (Some t) (s_ival s) (s_rval s) (s_sval s)
    (s_is_varparam s) (s_cname s) (s_unit_level s) (s_from_iface s) (s_owner s) (s_routine s)
    (s_params s) (s_is_c s) (s_defined s).
Definition set_value (iv : Z) (rv : spec_float) (sv : bytes) (s : Sym) : Sym :=
  mkSym (s_name s) (s_kind s) (s_loc s) (s_ty s) iv rv sv
    (s_is_varparam s) (s_cname s) (s_unit_level s) (s_from_iface s) (s_owner s) (s_routine s)
    (s_params s) (s_is_c s) (s_defined s).
Definition set_var (varparam : bool) (cname : string) (s : Sym) : Sym :=
  mkSym (s_name s) (s_kind s) (s_loc s) (s_ty s) (s_ival s) (s_rval s) (s_sval s)
    varparam cname (s_unit_level s) (s_from_iface s) (s_owner s) (s_routine s)
    (s_params s) (s_is_c s) (s_defined s).
Definition set_unit (unit_level from_iface : bool) (owner : option string) (s : Sym) : Sym :=
  mkSym (s_name s) (s_kind s) (s_loc s) (s_ty s) (s_ival s) (s_rval s) (s_sval s)
    (s_is_varparam s) (s_cname s) unit_level from_iface owner (s_routine s)
    (s_params s) (s_is_c s) (s_defined s).
Definition set_routine (r : Routine) (ps : list ParamInfo) (result : option tyid) (s : Sym) : Sym :=
  mkSym (s_name s) (s_kind s) (s_loc s) result (s_ival s) (s_rval s) (s_sval s)
    (s_is_varparam s) (s_cname s) (s_unit_level s) (s_from_iface s) (s_owner s) (Some r)
    ps (r_is_c r) (s_defined s).
Definition set_defined (s : Sym) : Sym :=
  mkSym (s_name s) (s_kind s) (s_loc s) (s_ty s) (s_ival s) (s_rval s) (s_sval s)
    (s_is_varparam s) (s_cname s) (s_unit_level s) (s_from_iface s) (s_owner s) (s_routine s)
    (s_params s) (s_is_c s) true.

(** ** The state of sem.c *)

(** A scope's hash table: the chain of symbols of each bucket, newest first. *)
Abbreviation table := (gmap Z (list symid)).

Record Sem := mkSem {
  types : list Ty;
  syms : list Sym;
  scopes : list table;              (* innermost first *)
  lstr_types : list tyid;
  array_types : list tyid;
  pending_ptrs : list tyid;
  section_items : option (list TypeDecl * nat);
  types_buf : string }.

Abbreviation SM := (ST Sem).

Definition with_types (ts : list Ty) (st : Sem) : Sem :=
  mkSem ts (syms st) (scopes st) (lstr_types st) (array_types st) (pending_ptrs st)
    (section_items st) (types_buf st).
Definition with_syms (ss : list Sym) (st : Sem) : Sem :=
  mkSem (types st) ss (scopes st) (lstr_types st) (array_types st) (pending_ptrs st)
    (section_items st) (types_buf st).
Definition with_scopes (sc : list table) (st : Sem) : Sem :=
  mkSem (types st) (syms st) sc (lstr_types st) (array_types st) (pending_ptrs st)
    (section_items st) (types_buf st).
Definition with_interned (ls arr : list tyid) (st : Sem) : Sem :=
  mkSem (types st) (syms st) (scopes st) ls arr (pending_ptrs st) (section_items st) (types_buf st).
Definition with_pending (ps : list tyid) (st : Sem) : Sem :=
  mkSem (types st) (syms st) (scopes st) (lstr_types st) (array_types st) ps
    (section_items st) (types_buf st).
Definition with_section (s : option (list TypeDecl * nat)) (st : Sem) : Sem :=
  mkSem (types st) (syms st) (scopes st) (lstr_types st) (array_types st) (pending_ptrs st) s
    (types_buf st).
Definition with_types_buf (b : string) (st : Sem) : Sem :=
  mkSem (types st) (syms st) (scopes st) (lstr_types st) (array_types st) (pending_ptrs st)
    (section_items st) b.

Definition dangling {A} : SM A := fail (Undef "dangling pointer").

Definition get_type (t : tyid) : SM Ty :=
  fun st => match types st !! t with Some ty => Ok (ty, st) | None => dangling st end.
Definition desc_of (t : tyid) : SM TypeDesc := let* ty := get_type t in ret (t_desc ty).
Definition get_sym (s : symid) : SM Sym :=
  fun st => match syms st !! s with Some sy => Ok (sy, st) | None => dangling st end.

Definition new_type (d : TypeDesc) (l : Loc) : SM tyid :=
  fun st => Ok (length (types st), with_types (types st ++ [mkTy d l false false]) st).
Definition alloc_sym (s : Sym) : SM symid :=
  fun st => Ok (length (syms st), with_syms (syms st ++ [s]) st).

(** Updates in place. *)
Definition set_desc (t : tyid) (d : TypeDesc) : SM unit :=
  let* ty := get_type t in
  modify (fun st => with_types (<[t := mkTy d (t_loc ty) (t_emitted ty) (t_declared ty)]> (types st)) st).
Definition set_flags (t : tyid) (emitted declared : bool) : SM unit :=
  let* ty := get_type t in
  modify (fun st => with_types (<[t := mkTy (t_desc ty) (t_loc ty) emitted declared]> (types st)) st).
Definition update_sym (s : symid) (f : Sym -> Sym) : SM unit :=
  let* sy := get_sym s in modify (fun st => with_syms (<[s := f sy]> (syms st)) st).

(** ** Scopes *)

Definition HASH_SIZE : Z := 4096.

(** [hash]: FNV-1a on 32-bit unsigned integers, reduced to a bucket. *)
Fixpoint hash_bytes (h : Z) (s : bytes) : Z :=
  match s with
  | c :: s' => hash_bytes (uwrap 32 (Z.lxor h (code c) * 16777619)) s'
  | [] => h
  end.
Definition hash (name : string) : Z := hash_bytes 2166136261 (chars name) `mod` HASH_SIZE.

Definition scope_push : SM unit := modify (fun st => with_scopes (∅ :: scopes st) st).
Definition scope_pop : SM unit := modify (fun st => with_scopes (tail (scopes st)) st).
Definition scope_depth (st : Sem) : nat := length (scopes st).

Definition bucket (sc : table) (h : Z) : list symid := default [] (sc !! h).

Definition named (ss : list Sym) (name : string) (i : symid) : bool :=
  match ss !! i with Some s => String.eqb (s_name s) name | None => false end.

Fixpoint find_chain (ss : list Sym) (name : string) (chain : list symid) : option symid :=
  match chain with
  | i :: rest => if named ss name i then Some i else find_chain ss name rest
  | [] => None
  end.

Definition find_in (ss : list Sym) (sc : table) (name : string) : option symid :=
  find_chain ss name (bucket sc (hash name)).

Fixpoint lookup_in (ss : list Sym) (scs : list table) (name : string) : option symid :=
  match scs with
  | sc :: outer =>
      match find_in ss sc name with Some i => Some i | None => lookup_in ss outer name end
  | [] => None
  end.

(** [lookup] and [lookup_innermost], with the symbol found. *)
Definition deref_sym (o : option symid) : SM (option (symid * Sym)) :=
  match o with
  | Some i => let* s := get_sym i in ret (Some (i, s))
  | None => ret None
  end.

Definition lookup (name : string) : SM (option (symid * Sym)) :=
  let* st := get in deref_sym (lookup_in (syms st) (scopes st) name).

Definition lookup_innermost (name : string) : SM (option (symid * Sym)) :=
  let* st := get in
  match scopes st with
  | sc :: _ => deref_sym (find_in (syms st) sc name)
  | [] => dangling
  end.

Fixpoint replace_chain (ss : list Sym) (name : string) (i : symid) (chain : list symid) : option (list symid) :=
  match chain with
  | j :: rest =>
      if named ss name j then Some (i :: rest) else option_map (cons j) (replace_chain ss name i rest)
  | [] => None
  end.

Definition define_in (ss : list Sym) (sc : table) (i : symid) (name : string) : table :=
  let h := hash name in
  match replace_chain ss name i (bucket sc h) with
  | Some chain => <[h := chain]> sc
  | None => <[h := i :: bucket sc h]> sc
  end.

(** Allocate a symbol and [define] it in the innermost scope. *)
Definition define (s : Sym) : SM symid :=
  let* i := alloc_sym s in
  let* st := get in
  match scopes st with
  | sc :: outer =>
      do* modify (with_scopes (define_in (syms st) sc i (s_name s) :: outer)) in ret i
  | [] => dangling
  end.

(** ** The predefined types and constants, [sem_init] *)

Definition t_integer : tyid := 0%nat.
Definition t_int32 : tyid := 1%nat.
Definition t_cint : tyid := 2%nat.
Definition t_int64 : tyid := 3%nat.
Definition t_clong : tyid := 4%nat.
Definition t_csize : tyid := 5%nat.
Definition t_real : tyid := 6%nat.
Definition t_bool : tyid := 7%nat.
Definition t_char : tyid := 8%nat.
Definition t_adrmem : tyid := 9%nat.
Definition t_nil : tyid := 10%nat.
Definition t_strlit : tyid := 11%nat.
Definition t_void : tyid := 12%nat.

Definition no_loc : Loc := mkLoc None 0.
Definition predefined : Loc := mkLoc (Some "<predefined>") 0.

Definition predefine_type (name : string) (t : tyid) : SM unit :=
  do* define (set_ty t (new_sym name SY_TYPE predefined)) in ret tt.
Definition predefine_const (name : string) (t : tyid) (v : Z) : SM unit :=
  do* define (set_value v real_zero [] (set_ty t (new_sym name SY_CONST predefined))) in ret tt.

Definition empty_sem : Sem := mkSem [] [] [] [] [] [] None EmptyString.

(** One of the globals [t_integer] ... [t_void]: the ids follow the order of the
    allocations, from an empty store. *)
Fixpoint new_types (ds : list TypeDesc) : SM unit :=
  match ds with
  | d :: ds' => do* new_type d no_loc in new_types ds'
  | [] => ret tt
  end.

Fixpoint run_all (ms : list (SM unit)) : SM unit :=
  match ms with
  | m :: ms' => do* m in run_all ms'
  | [] => ret tt
  end.

Definition sem_init : SM unit :=
  do* new_types
        [TY_INT 16 "INTEGER"; TY_INT 32 "INTEGER32"; TY_INT 32 "CINT"; TY_INT 64 "INTEGER64";
         TY_INT 64 "CLONG"; TY_INT 64 "CSIZE_T"; TY_REAL; TY_BOOL; TY_CHAR; TY_ADRMEM; TY_NIL;
         TY_STRLIT; TY_VOID] in
  do* scope_push in
  run_all
    [predefine_type "integer" t_integer; predefine_type "integer32" t_int32;
     predefine_type "cint" t_cint; predefine_type "integer64" t_int64;
     predefine_type "clong" t_clong; predefine_type "csize_t" t_csize;
     predefine_type "real" t_real; predefine_type "boolean" t_bool;
     predefine_type "char" t_char; predefine_type "adrmem" t_adrmem;
     predefine_const "true" t_bool 1; predefine_const "false" t_bool 0;
     predefine_const "nil" t_nil 0; predefine_const "maxint" t_integer 32767;
     predefine_const "maxword" t_int32 65535; predefine_const "maxint32" t_int32 INT32_MAX;
     predefine_const "maxint64" t_int64 INT64_MAX].

(** ** Type predicates *)

Definition d_is_int (d : TypeDesc) : bool := match d with TY_INT _ _ => true | _ => false end.
Definition d_is_ptr (d : TypeDesc) : bool :=
  match d with TY_PTR _ _ | TY_ADRMEM | TY_NIL => true | _ => false end.
Definition is_int (t : tyid) : SM bool := let* d := desc_of t in ret (d_is_int d).
Definition is_ptr (t : tyid) : SM bool := let* d := desc_of t in ret (d_is_ptr d).

(** Recursions over the type graph: a path without a repeated type is no longer
    than the store. *)
Definition type_fuel (st : Sem) : nat := S (length (types st)).

Fixpoint same_type_f (fuel : nat) (a b : tyid) : SM bool :=
  match fuel with
  | O => fail OutOfFuel
  | S f =>
      if (a =? b)%nat then ret true
      else
        let* da := desc_of a in
        let* db := desc_of b in
        match da, db with
        | TY_INT wa _, TY_INT wb _ => ret (wa =? wb)
        | TY_LSTR ca, TY_LSTR cb => ret (ca =? cb)
        | TY_ARRAY la ha ea, TY_ARRAY lb hb eb =>
            if (la =? lb) && (ha =? hb) then same_type_f f ea eb else ret false
        | TY_PTR (Some ta) _, TY_PTR (Some tb) _ => same_type_f f ta tb
        | TY_REAL, TY_REAL | TY_BOOL, TY_BOOL | TY_CHAR, TY_CHAR | TY_ADRMEM, TY_ADRMEM
        | TY_NIL, TY_NIL => ret true
        | _, _ => ret false
        end
  end.

Definition same_type (a b : tyid) : SM bool :=
  let* st := get in same_type_f (type_fuel st) a b.

Fixpoint type_name_f (fuel : nat) (t : tyid) : SM string :=
  match fuel with
  | O => fail OutOfFuel
  | S f =>
      let* d := desc_of t in
      match d with
      | TY_INT _ iname => ret iname
      | TY_REAL => ret "REAL"
      | TY_BOOL => ret "BOOLEAN"
      | TY_CHAR => ret "CHAR"
      | TY_ADRMEM => ret "ADRMEM"
      | TY_ENUM _ _ => ret "enumeration"
      | TY_LSTR cap => ret ("LSTRING(" +:+ Zs cap +:+ ")")
      | TY_ARRAY lo hi elem =>
          let* n := type_name_f f elem in
          ret ("ARRAY [" +:+ Zs lo +:+ ".." +:+ Zs hi +:+ "] OF " +:+ n)
      | TY_RECORD _ => ret "RECORD"
      | TY_PTR (Some target) _ => let* n := type_name_f f target in ret ("^" +:+ n)
      | TY_PTR None _ => ret "pointer"
      | TY_NIL => ret "NIL"
      | TY_STRLIT => ret "string literal"
      | TY_VOID => ret "no value"
      end
  end.

Definition type_name (t : tyid) : SM string :=
  let* st := get in type_name_f (type_fuel st) t.

(** ** Interning *)

Definition cap_is (ts : list Ty) (cap : Z) (i : tyid) : bool :=
  match ts !! i with
  | Some ty => match t_desc ty with TY_LSTR c => c =? cap | _ => false end
  | None => false
  end.
Definition array_is (ts : list Ty) (lo hi : Z) (elem i : tyid) : bool :=
  match ts !! i with
  | Some ty =>
      match t_desc ty with
      | TY_ARRAY l h e => (l =? lo) && (h =? hi) && (e =? elem)%nat
      | _ => false
      end
  | None => false
  end.

Definition lstring_of (cap : Z) (l : Loc) : SM tyid :=
  if (cap <? 1) || (255 <? cap) then fatal l ("LSTRING capacity " +:+ Zs cap +:+ " is outside 1..255")
  else
    let* st := get in
    match List.find (cap_is (types st) cap) (lstr_types st) with
    | Some t => ret t
    | None =>
        let* t := new_type (TY_LSTR cap) no_loc in
        do* modify (fun st => with_interned (lstr_types st ++ [t]) (array_types st) st) in
        ret t
    end.

Definition array_of (lo hi : Z) (elem : tyid) (l : Loc) : SM tyid :=
  if hi <? lo then fatal l ("empty array bounds " +:+ Zs lo +:+ ".." +:+ Zs hi)
  else
    let* st := get in
    match List.find (array_is (types st) lo hi elem) (array_types st) with
    | Some t => ret t
    | None =>
        let* t := new_type (TY_ARRAY lo hi elem) no_loc in
        do* modify (fun st => with_interned (lstr_types st) (array_types st ++ [t]) st) in
        ret t
    end.

(** ** Constants *)

Definition int_type_for (v : Z) : tyid :=
  if (-32767 <=? v) && (v <=? 32767) then t_integer
  else if (INT32_MIN <=? v) && (v <=? INT32_MAX) then t_int32
  else t_int64.

(** What the callers of [const_eval] read of the symbol it returns. *)
Record CVal := mkCVal { cv_ty : tyid; cv_ival : Z; cv_rval : spec_float; cv_sval : bytes }.

Definition const_int (v : Z) : CVal := mkCVal (int_type_for v) v real_zero [].

(** [__builtin_add_overflow] and the like: the exact result, if it fits. *)
Definition exact64 (l : Loc) (v : Z) : SM CVal :=
  if fits64 v then ret (const_int v) else fatal l "constant arithmetic overflows INTEGER64".

Fixpoint const_eval (e : Expr) : SM CVal :=
  match e with
  | E_INT l v => ret (const_int v)
  | E_REAL l v => ret (mkCVal t_real 0 v [])
  | E_CHAR l v => ret (mkCVal t_char v real_zero [])
  | E_STR l s => ret (mkCVal t_strlit 0 real_zero s)
  | E_NAME l name =>
      let* o := lookup name in
      match o with
      | None => fatal l ("undeclared identifier '" +:+ name +:+ "'")
      | Some (_, s) =>
          if bool_decide (s_kind s = SY_CONST) then
            match s_ty s with
            | Some t => ret (mkCVal t (s_ival s) (s_rval s) (s_sval s))
            | None => dangling
            end
          else fatal l ("'" +:+ name +:+ "' is not a constant")
      end
  | E_UN l op a =>
      let* v := const_eval a in
      let* d := desc_of (cv_ty v) in
      match op, d with
      | OP_NEG, TY_INT _ _ => exact64 l (- cv_ival v)
      | OP_NEG, TY_REAL => ret (mkCVal t_real 0 (real_neg (cv_rval v)) [])
      | _, _ => unsupp l "constant expression form"
      end
  | E_BIN l op a b =>
      let* va := const_eval a in
      let* vb := const_eval b in
      let* ia := is_int (cv_ty va) in
      let* ib := is_int (cv_ty vb) in
      if negb (ia && ib) then unsupp l "non-integer constant arithmetic"
      else
        match op with
        | OP_ADD => exact64 l (cv_ival va + cv_ival vb)
        | OP_SUB => exact64 l (cv_ival va - cv_ival vb)
        | OP_MUL => exact64 l (cv_ival va * cv_ival vb)
        | OP_IDIV =>
            if cv_ival vb =? 0 then fatal l "division by zero in constant"
            else exact64 l (Z.quot (cv_ival va) (cv_ival vb))
        | _ => unsupp l "constant expression operator"
        end
  | E_CALL l _ _ | E_INDEX l _ _ | E_FIELD l _ _ | E_DEREF l _ | E_ADR l _ =>
      unsupp l "constant expression form"
  end.

Definition const_int_value (e : Expr) : SM Z :=
  let* v := const_eval e in
  let* d := desc_of (cv_ty v) in
  match d with
  | TY_INT _ _ | TY_ENUM _ _ => ret (cv_ival v)
  | TY_CHAR => unsupp (expr_loc e) "CHAR array bound"
  | _ => fatal (expr_loc e) "integer constant expected"
  end.

(** ** Type expressions *)

Definition set_type_section (s : option (list TypeDecl * nat)) : SM unit := modify (with_section s).

Definition declared_later_in_section (st : Sem) (name : string) : bool :=
  match section_items st with
  | Some (items, pos) => existsb (fun d => String.eqb (td_name d) name) (skipn pos items)
  | None => false
  end.

(** The named fields of a group, each checked against the fields before it. *)
Fixpoint add_fields (l : Loc) (t : tyid) (names : list string) (fs : list (string * tyid))
    : SM (list (string * tyid)) :=
  match names with
  | [] => ret fs
  | n :: names' =>
      if existsb (fun f => String.eqb (fst f) n) fs then fatal l ("duplicate field '" +:+ n +:+ "'")
      else add_fields l t names' (fs ++ [(n, t)])
  end.

(** The constants of an enumeration type, from ordinal [i] on. *)
Fixpoint enum_consts (l : Loc) (t : tyid) (i : Z) (names : list string) : SM unit :=
  match names with
  | [] => ret tt
  | n :: names' =>
      let* o := lookup_innermost n in
      match o with
      | Some _ => fatal l ("duplicate identifier '" +:+ n +:+ "'")
      | None =>
          do* define (set_value i real_zero [] (set_ty t (new_sym n SY_CONST l))) in
          enum_consts l t (i + 1) names'
      end
  end.

(** The target of a pointer that is resolved at once, if it is. *)
Definition pointer_target (name : string) : SM (option tyid) :=
  let* st := get in
  if declared_later_in_section st name then ret None
  else
    let* o := lookup name in
    match o with
    | Some (_, s) => if bool_decide (s_kind s = SY_TYPE) then ret (s_ty s) else ret None
    | None => ret None
    end.

(** The fields of a record, group by group. *)
Definition group_fields (resolve : TypeExpr -> SM tyid) : list FieldGroup -> list (string * tyid) ->
    SM (list (string * tyid)) :=
  fix go (gs : list FieldGroup) (fs : list (string * tyid)) : SM (list (string * tyid)) :=
    match gs with
    | [] => ret fs
    | mkFieldGroup names te gl :: gs' =>
        let* ft := resolve te in
        let* fs' := add_fields gl ft names fs in
        go gs' fs'
    end.

Fixpoint resolve_type (te : TypeExpr) : SM tyid :=
  match te with
  | TE_NAME l name =>
      let* o := lookup name in
      match o with
      | None => fatal l ("undeclared type '" +:+ name +:+ "'")
      | Some (_, s) =>
          if bool_decide (s_kind s = SY_TYPE) then
            match s_ty s with Some t => ret t | None => dangling end
          else fatal l ("'" +:+ name +:+ "' is not a type")
      end
  | TE_LSTRING l lo => let* v := const_int_value lo in lstring_of (swrap 32 v) l
  | TE_ARRAY l lo hi elem =>
      let* vlo := const_int_value lo in
      let* vhi := const_int_value hi in
      let* t := resolve_type elem in
      array_of vlo vhi t l
  | TE_RECORD l groups =>
      let* t := new_type (TY_RECORD []) l in
      let* fs := group_fields resolve_type groups [] in
      do* set_desc t (TY_RECORD fs) in
      ret t
  | TE_POINTER l name =>
      let* t := new_type (TY_PTR None None) l in
      let* target := pointer_target name in
      match target with
      | Some u => do* set_desc t (TY_PTR (Some u) None) in ret t
      | None =>
          do* set_desc t (TY_PTR None (Some name)) in
          do* modify (fun st => with_pending (pending_ptrs st ++ [t]) st) in
          ret t
      end
  | TE_ENUM l names =>
      let* t := new_type (TY_ENUM 0 (Z.of_nat (length names) - 1)) l in
      do* enum_consts l t 0 names in
      ret t
  end.

(** The first loop of [resolve_pending_pointers]: every pending target is looked up. *)
Fixpoint bind_pending (ps : list tyid) : SM unit :=
  match ps with
  | [] => ret tt
  | p :: ps' =>
      let* ty := get_type p in
      match t_desc ty with
      | TY_PTR _ (Some name) =>
          let* o := lookup name in
          let undeclared := fatal (t_loc ty) ("undeclared pointer target type '" +:+ name +:+ "'") in
          match o with
          | Some (_, s) =>
              match s_kind s, s_ty s with
              | SY_TYPE, Some u => do* set_desc p (TY_PTR (Some u) (Some name)) in bind_pending ps'
              | _, _ => undeclared
              end
          | None => undeclared
          end
      | _ => dangling
      end
  end.

(** The second: the walk along the targets, at most [pending_ptrs.n + 1] steps. *)
Fixpoint chase (steps : nat) (t : tyid) (u : option tyid) : SM bool :=
  match steps, u with
  | S k, Some u =>
      let* d := desc_of u in
      match d with
      | TY_PTR target _ => if (u =? t)%nat then ret true else chase k t target
      | _ => ret false
      end
  | _, _ => ret false
  end.

Fixpoint check_cycles (n : nat) (ps : list tyid) : SM unit :=
  match ps with
  | [] => ret tt
  | p :: ps' =>
      let* ty := get_type p in
      match t_desc ty with
      | TY_PTR target (Some name) =>
          let* cyclic := chase (S n) p target in
          if (cyclic : bool) then fatal (t_loc ty) ("pointer type cycle through type '" +:+ name +:+ "'")
          else check_cycles n ps'
      | _ => dangling
      end
  end.

(** The third: the pointers are no longer pending. *)
Fixpoint clear_pending (ps : list tyid) : SM unit :=
  match ps with
  | [] => modify (with_pending [])
  | p :: ps' =>
      let* d := desc_of p in
      match d with
      | TY_PTR target _ => do* set_desc p (TY_PTR target None) in clear_pending ps'
      | _ => dangling
      end
  end.

Definition resolve_pending_pointers : SM unit :=
  let* st := get in
  let ps := pending_ptrs st in
  do* bind_pending ps in
  do* check_cycles (length ps) ps in
  clear_pending ps.

(** ** C spellings *)

Definition tid (t : tyid) : string := Zs (Z.of_nat (S t)).

Definition tag_of (t : tyid) (d : TypeDesc) : string :=
  match d with
  | TY_LSTR cap => "struct pl_" +:+ Zs cap
  | TY_ARRAY _ _ _ => "struct pa_" +:+ tid t
  | TY_RECORD _ => "struct pr_" +:+ tid t
  | _ => EmptyString
  end.

Definition buf_types (s : string) : SM unit :=
  modify (fun st => with_types_buf (types_buf st +:+ s) st).

(** [hi - lo + 1] in [int64_t]: a signed overflow is undefined. *)
Definition array_len (lo hi : Z) : SM Z :=
  if fits64 (hi - lo) && fits64 (hi - lo + 1) then ret (hi - lo + 1)
  else fail (Undef "signed overflow in an array length").

(** The declaration of an aggregate's tag, and its definition when it has to be
    complete, each at most once. *)
Definition aggregate (t : tyid) (ty : Ty) (need_complete : bool) (def : string -> SM string) : SM string :=
  let tag := tag_of t (t_desc ty) in
  do* (if t_declared ty then ret tt
       else do* set_flags t (t_emitted ty) true in buf_types (tag +:+ ";" +:+ nl)) in
  do* (if need_complete && negb (t_emitted ty) then
         do* set_flags t true true in
         let* text := def tag in
         buf_types text
       else ret tt) in
  ret tag.

Fixpoint field_lines (ct : tyid -> SM string) (fields : list (string * tyid)) : SM string :=
  match fields with
  | [] => ret EmptyString
  | (n, ft) :: fields' =>
      let* c := ct ft in
      let* rest := field_lines ct fields' in
      ret ("    " +:+ c +:+ " f_" +:+ n +:+ ";" +:+ nl +:+ rest)
  end.

Fixpoint ctype_ref (fuel : nat) (t : tyid) (need_complete : bool) : SM string :=
  match fuel with
  | O => fail OutOfFuel
  | S f =>
      let* ty := get_type t in
      match t_desc ty with
      | TY_INT width _ =>
          ret (if width =? 16 then "int16_t" else if width =? 32 then "int32_t" else "int64_t")
      | TY_REAL => ret "double"
      | TY_BOOL | TY_CHAR => ret "uint8_t"
      | TY_ADRMEM => ret "uint8_t *"
      | TY_ENUM _ _ => ret "int32_t"
      | TY_PTR (Some target) _ => let* c := ctype_ref f target false in ret (c +:+ " *")
      | TY_PTR None pending =>
          fatal (t_loc ty) ("unresolved pointer target '" +:+ default "(null)" pending +:+ "'")
      | TY_LSTR cap =>
          aggregate t ty need_complete (fun tag =>
            ret (tag +:+ " { uint8_t b[" +:+ Zs (cap + 1) +:+ "]; };" +:+ nl))
      | TY_ARRAY lo hi elem =>
          aggregate t ty need_complete (fun tag =>
            let* et := ctype_ref f elem true in
            let* n := array_len lo hi in
            ret (tag +:+ " { " +:+ et +:+ " a[" +:+ Zs n +:+ "]; };" +:+ nl))
      | TY_RECORD fields =>
          aggregate t ty need_complete (fun tag =>
            let* fs := field_lines (fun ft => ctype_ref f ft true) fields in
            ret (tag +:+ " {" +:+ nl +:+ fs
                 +:+ (match fields with [] => "    char empty_;" +:+ nl | _ => EmptyString end)
                 +:+ "};" +:+ nl))
      | TY_NIL | TY_STRLIT | TY_VOID => ret "void"
      end
  end.

Definition ctype (t : tyid) : SM string :=
  let* st := get in ctype_ref (type_fuel st) t true.
