(* ===== verification/Emit.v ===== *)
(** The C emitter, emit.c: expressions and statements of a routine body to C
    text, declarations, and the unit model. The emitter's globals are the record
    [Emit] over the state of sem.c; [body] is the buffer the statements go to
    (never [out] itself while a statement is emitted). *)

From Stdlib Require Import ZArith Ascii String SpecFloat.
From stdpp Require Import base list strings gmap.
From S2P Require Import Prelude Real Ast Sem.
#[local] Open Scope Z_scope.

Record Emit := mkEmit {
  sem : Sem;
  out : string;                     (* declarations and definitions *)
  body : string;                    (* where statements go *)
  indent : nat;
  impl_unit : option string;
  iface_unit : option string;
  cur_func : option symid;
  in_main : bool;
  for_count : Z }.

Abbreviation EM := (ST Emit).

Definition with_sem (s : Sem) (st : Emit) : Emit :=
  mkEmit s (out st) (body st) (indent st) (impl_unit st) (iface_unit st) (cur_func st)
    (in_main st) (for_count st).
Definition with_out (o : string) (st : Emit) : Emit :=
  mkEmit (sem st) o (body st) (indent st) (impl_unit st) (iface_unit st) (cur_func st)
    (in_main st) (for_count st).
Definition with_body (b : string) (st : Emit) : Emit :=
  mkEmit (sem st) (out st) b (indent st) (impl_unit st) (iface_unit st) (cur_func st)
    (in_main st) (for_count st).
Definition with_indent (i : nat) (st : Emit) : Emit :=
  mkEmit (sem st) (out st) (body st) i (impl_unit st) (iface_unit st) (cur_func st)
    (in_main st) (for_count st).
Definition with_units (impl iface : option string) (st : Emit) : Emit :=
  mkEmit (sem st) (out st) (body st) (indent st) impl iface (cur_func st)
    (in_main st) (for_count st).
Definition with_func (f : option symid) (main : bool) (st : Emit) : Emit :=
  mkEmit (sem st) (out st) (body st) (indent st) (impl_unit st) (iface_unit st) f main (for_count st).
Definition with_for_count (n : Z) (st : Emit) : Emit :=
  mkEmit (sem st) (out st) (body st) (indent st) (impl_unit st) (iface_unit st) (cur_func st)
    (in_main st) n.

(** A step of sem.c inside the emitter. *)
Definition in_sem {A} (m : SM A) : EM A :=
  fun st => match m (sem st) with Ok (a, s') => Ok (a, with_sem s' st) | Err e => Err e end.

Definition put_out (s : string) : EM unit := modify (fun st => with_out (out st +:+ s) st).

Fixpoint spaces (n : nat) : string :=
  match n with O => EmptyString | S n' => "    " +:+ spaces n' end.

Definition line (s : string) : EM unit :=
  modify (fun st => with_body (body st +:+ spaces (indent st) +:+ s +:+ nl) st).

Definition indent_by (up : bool) : EM unit :=
  modify (fun st => with_indent (if up then S (indent st) else Nat.pred (indent st)) st).

(** Statements between [indent++] and [indent--]. *)
Definition indented (m : EM unit) : EM unit :=
  do* indent_by true in
  do* m in
  indent_by false.

(** [struct CE]: C text, its Pascal type, whether it is a variable, and the
    literal it stands for. *)
Record CE := mkCE { ce_s : string; ce_ty : tyid; ce_lval : bool; ce_lit : option Expr }.
Definition mk (s : string) (t : tyid) (lval : bool) : CE := mkCE s t lval None.

(** ** Literals *)

(** A byte of a string literal: itself, or a three-digit octal escape. *)
Definition plain_char (c : ascii) : bool :=
  isalnum c || Ascii.eqb c " " || Ascii.eqb c "_".
Definition backslash : ascii := "092".
Definition c_char (c : ascii) : bytes := if plain_char c then [c] else backslash :: oct3 (code c).

Definition c_string_bytes (s : bytes) (prefix_len : bool) : string :=
  str (dquote :: (if prefix_len then backslash :: oct3 (Z.of_nat (length s)) else [])
         ++ concat (map c_char s) ++ [dquote]).

Definition lit_lstr_ptr (l : Loc) (s : bytes) : EM string :=
  if 255 <? Z.of_nat (length s) then fatal l "string literal longer than 255 characters"
  else ret ("((const uint8_t *)" +:+ c_string_bytes s true +:+ ")").

(** [lit_lstr_ptr] of the literal a string-valued CE carries. *)
Definition lit_ptr (o : option Expr) : EM string :=
  match o with
  | Some (E_STR l s) => lit_lstr_ptr l s
  | _ => in_sem dangling
  end.

Definition int_lit (v : Z) : string :=
  if (INT32_MIN <=? v) && (v <=? INT32_MAX) then Zs v
  else if v =? INT64_MIN then "INT64_MIN"
  else "INT64_C(" +:+ Zs v +:+ ")".

Definition real_mark (c : ascii) : bool :=
  existsb (Ascii.eqb c) ["."; "e"; "E"; "n"; "i"]%char.

Definition real_lit (v : spec_float) : string :=
  let s := fmt_17g v in
  "(" +:+ (if existsb real_mark (chars s) then s else s +:+ ".0") +:+ ")".

Definition const_ce (s : Sym) (e_loc : Loc) : EM CE :=
  match s_ty s with
  | None => in_sem dangling
  | Some t =>
      let* d := in_sem (desc_of t) in
      match d with
      | TY_INT _ _ | TY_ENUM _ _ => ret (mk ("(" +:+ int_lit (s_ival s) +:+ ")") t false)
      | TY_BOOL => ret (mk ("((uint8_t)" +:+ Zs (s_ival s) +:+ ")") t false)
      | TY_CHAR =>
          ret (mkCE ("((uint8_t)" +:+ Zs (s_ival s) +:+ ")") t false (Some (E_CHAR e_loc (s_ival s))))
      | TY_REAL => ret (mk (real_lit (s_rval s)) t false)
      | TY_NIL => ret (mk "((void *)0)" t false)
      | TY_STRLIT =>
          let* p := lit_lstr_ptr e_loc (s_sval s) in
          ret (mkCE p t false (Some (E_STR e_loc (s_sval s))))
      | _ => fatal e_loc "bad constant"
      end
  end.

(** ** Conversions *)

Definition int_ctype (width : Z) : string :=
  if width =? 8 then "int8_t" else if width =? 16 then "int16_t"
  else if width =? 32 then "int32_t" else "int64_t".

Definition ty_desc (c : CE) : EM TypeDesc := in_sem (desc_of (ce_ty c)).
Definition name_of (t : tyid) : EM string := in_sem (type_name t).

Definition lstr_bytes (e : CE) (l : Loc) : EM string :=
  let* d := ty_desc e in
  match d with
  | TY_LSTR _ => ret ("((const uint8_t *)(" +:+ ce_s e +:+ ").b)")
  | TY_STRLIT => lit_ptr (ce_lit e)
  | _ => let* n := name_of (ce_ty e) in fatal l ("string operand expected, found " +:+ n)
  end.

Definition cast_to (t : tyid) (s : string) : EM string :=
  let* c := in_sem (ctype t) in ret ("((" +:+ c +:+ ")" +:+ s +:+ ")").

Definition d_is_enum (d : TypeDesc) : bool := match d with TY_ENUM _ _ => true | _ => false end.

(** [e] converted for storage in, or passing as a value of, type [to]. *)
Definition conv (e : CE) (to : tyid) (l : Loc) : EM string :=
  let* from := ty_desc e in
  let* dto := in_sem (desc_of to) in
  let mismatch :=
    let* nf := name_of (ce_ty e) in
    let* nt := name_of to in
    fatal l ("type mismatch: " +:+ nf +:+ " where " +:+ nt +:+ " is expected") in
  match dto with
  | TY_INT _ _ => if d_is_int from || d_is_enum from then cast_to to (ce_s e) else mismatch
  | TY_REAL =>
      match from with
      | TY_REAL => ret (ce_s e)
      | TY_INT _ _ => ret ("((double)" +:+ ce_s e +:+ ")")
      | _ => mismatch
      end
  | TY_BOOL => match from with TY_BOOL => ret ("((uint8_t)" +:+ ce_s e +:+ ")") | _ => mismatch end
  | TY_CHAR => match from with TY_CHAR => ret (ce_s e) | _ => mismatch end
  | TY_ENUM _ _ => if (ce_ty e =? to)%nat then ret (ce_s e) else mismatch
  | TY_ADRMEM | TY_PTR _ _ => if d_is_ptr from then cast_to to (ce_s e) else mismatch
  | TY_LSTR cap =>
      match from with
      | TY_LSTR cap' =>
          if cap' =? cap then ret (ce_s e)
          else
            let* nf := name_of (ce_ty e) in
            let* nt := name_of to in
            unsupp l ("assignment between " +:+ nf +:+ " and " +:+ nt)
      | TY_STRLIT =>
          match ce_lit e with
          | Some (E_STR _ s) =>
              if cap <? Z.of_nat (length s) then
                let* nt := name_of to in
                fatal l ("string literal of length " +:+ Zs (Z.of_nat (length s)) +:+ " does not fit " +:+ nt)
              else
                let* c := in_sem (ctype to) in
                ret ("((" +:+ c +:+ "){" +:+ c_string_bytes s true +:+ "})")
          | _ => in_sem dangling
          end
      | _ => mismatch
      end
  | TY_ARRAY _ _ _ | TY_RECORD _ =>
      let* same := in_sem (same_type (ce_ty e) to) in
      if (ce_ty e =? to)%nat || same then ret (ce_s e) else mismatch
  | TY_NIL | TY_STRLIT | TY_VOID => mismatch
  end.

(** ** Names and calls *)

Definition var_ce (s : Sym) : EM CE :=
  match s_ty s with
  | None => in_sem dangling
  | Some t => ret (if s_is_varparam s then mk ("(*" +:+ s_cname s +:+ ")") t true else mk (s_cname s) t true)
  end.

(** The arguments of a call, from parameter number [i] on, for the generator
    [gen] of their text. *)
Fixpoint gen_args (gen : Expr -> EM CE) (r : Sym) (i : Z) (ps : list ParamInfo) (args : list Expr) {struct args}
    : EM string :=
  match args, ps with
  | a :: args', p :: ps' =>
      let* v := gen a in
      let* text :=
        if pi_is_var p then
          let what := "VAR argument " +:+ Zs (i + 1) +:+ " of '" +:+ s_name r +:+ "'" in
          if negb (ce_lval v) then fatal (expr_loc a) (what +:+ " is not a variable")
          else
            let* same := in_sem (same_type (ce_ty v) (pi_ty p)) in
            let* dv := ty_desc v in
            let* dp := in_sem (desc_of (pi_ty p)) in
            if negb same && negb (d_is_ptr dv && d_is_ptr dp) then
              let* nv := name_of (ce_ty v) in
              let* np := name_of (pi_ty p) in
              fatal (expr_loc a) (what +:+ ": " +:+ nv +:+ " where " +:+ np +:+ " is expected")
            else
              let* c := in_sem (ctype (pi_ty p)) in
              ret ("((" +:+ c +:+ " *)&" +:+ ce_s v +:+ ")")
        else conv v (pi_ty p) (expr_loc a) in
      let* rest := gen_args gen r (i + 1) ps' args' in
      ret ((if i =? 0 then EmptyString else ", ") +:+ text +:+ rest)
  | _, _ => ret EmptyString
  end.

Definition gen_call (gen : Expr -> EM CE) (r : Sym) (args : list Expr) (l : Loc) : EM CE :=
  let nargs := length args in
  let nparams := length (s_params r) in
  if negb (nargs =? nparams)%nat then
    fatal l ("'" +:+ s_name r +:+ "' takes " +:+ Zs (Z.of_nat nparams) +:+ " argument(s), "
             +:+ Zs (Z.of_nat nargs) +:+ " given")
  else
    let* text := gen_args gen r 0 (s_params r) args in
    ret (mk (s_cname r +:+ "(" +:+ text +:+ ")") (default t_void (s_ty r)) false).

(** A bare routine name is a call without arguments, so no argument is generated. *)
Definition gen_name (l : Loc) (name : string) : EM CE :=
  let* o := in_sem (lookup name) in
  match o with
  | None => fatal l ("undeclared identifier '" +:+ name +:+ "'")
  | Some (_, s) =>
      match s_kind s with
      | SY_CONST => const_ce s l
      | SY_VAR => var_ce s
      | SY_ROUTINE => gen_call (fun _ => in_sem dangling) s [] l
      | SY_TYPE => fatal l ("'" +:+ name +:+ "' is a type, not a value")
      end
  end.

Definition type_arg (e : Expr) : EM tyid :=
  match e with
  | E_NAME l name =>
      let* o := in_sem (lookup name) in
      match o with
      | Some (_, s) =>
          match s_kind s, s_ty s with
          | SY_TYPE, Some t => ret t
          | _, _ => fatal l "type name expected"
          end
      | None => fatal l "type name expected"
      end
  | _ => fatal (expr_loc e) "type name expected"
  end.

Definition bits_of (d : TypeDesc) : Z :=
  match d with
  | TY_INT w _ => w
  | TY_CHAR | TY_BOOL => 8
  | TY_ENUM _ _ => 32
  | _ => 0
  end.

(** The base name of a location's file as a C string literal. *)
Definition file_char (c : ascii) : bytes :=
  if Ascii.eqb c dquote || Ascii.eqb c backslash then [backslash; c]
  else if (code c <? 32) || (126 <? code c) then backslash :: oct3 (code c)
  else [c].

Fixpoint after_slash (s best : bytes) : bytes :=
  match s with
  | c :: s' => after_slash s' (if Ascii.eqb c "/" then s' else best)
  | [] => best
  end.

Definition loc_file_lit (l : Loc) : string :=
  let f := chars (default "?" (loc_file l)) in
  str (dquote :: concat (map file_char (after_slash f f)) ++ [dquote]).

(** ** Builtins *)

Definition gen_ord (l : Loc) (v : CE) : EM CE :=
  let* d := ty_desc v in
  let w := bits_of d in
  if w =? 0 then let* n := name_of (ce_ty v) in fatal l ("ORD of " +:+ n)
  else if w =? 64 then unsupp l "ORD of a 64-bit value"
  else
    match d with
    | TY_CHAR | TY_BOOL => ret (mk ("((int16_t)(uint8_t)" +:+ ce_s v +:+ ")") t_integer false)
    | TY_ENUM _ _ => ret (mk ("((int32_t)" +:+ ce_s v +:+ ")") t_int32 false)
    | _ => ret (mk ("(" +:+ ce_s v +:+ ")") (ce_ty v) false)
    end.

Definition gen_chr (l : Loc) (v : CE) : EM CE :=
  let* d := ty_desc v in
  if d_is_int d then ret (mk ("((uint8_t)" +:+ ce_s v +:+ ")") t_char false)
  else let* n := name_of (ce_ty v) in fatal l ("CHR of " +:+ n).

Definition gen_retype (l : Loc) (to : tyid) (v : CE) : EM CE :=
  let* dt := in_sem (desc_of to) in
  let* dv := ty_desc v in
  if (negb (bits_of dt =? 0) && negb (bits_of dv =? 0)) || (d_is_ptr dt && d_is_ptr dv) then
    let* s := cast_to to (ce_s v) in ret (mk s to false)
  else
    let* nv := name_of (ce_ty v) in
    let* nt := name_of to in
    unsupp l ("RETYPE from " +:+ nv +:+ " to " +:+ nt).

Definition gen_trunc (l : Loc) (v : CE) : EM CE :=
  let* d := ty_desc v in
  match d with
  | TY_REAL =>
      ret (mk ("pas_trunc16(" +:+ ce_s v +:+ ", " +:+ loc_file_lit l +:+ ", " +:+ Zs (loc_line l) +:+ ")")
              t_integer false)
  | _ => let* n := name_of (ce_ty v) in fatal l ("TRUNC of " +:+ n)
  end.

(** The type a SIZEOF argument names, when it names one. *)
Definition sizeof_type (e : Expr) : EM (option tyid) :=
  match e with
  | E_NAME _ name =>
      let* o := in_sem (lookup name) in
      match o with
      | Some (_, s) => ret (match s_kind s with SY_TYPE => s_ty s | _ => None end)
      | None => ret None
      end
  | _ => ret None
  end.

Definition gen_builtin (gen : Expr -> EM CE) (l : Loc) (n : string) (args : list Expr) : EM CE :=
  let unknown := unsupp l ("builtin " +:+ n +:+ "/" +:+ Zs (Z.of_nat (length args))) in
  match args with
  | [a] =>
      if String.eqb n "ord" then let* v := gen a in gen_ord l v
      else if String.eqb n "chr" then let* v := gen a in gen_chr l v
      else if String.eqb n "sizeof" then
        let* o := sizeof_type a in
        let* t := (match o with Some t => ret t | None => let* v := gen a in ret (ce_ty v) end) in
        let* c := in_sem (ctype t) in
        ret (mk ("((int32_t)sizeof(" +:+ c +:+ "))") t_int32 false)
      else if String.eqb n "trunc" then let* v := gen a in gen_trunc l v
      else unknown
  | [a; b] =>
      if String.eqb n "retype" then let* to := type_arg a in let* v := gen b in gen_retype l to v
      else unknown
  | _ => unknown
  end.

(** ** Operators *)

Definition width_of (d : TypeDesc) : Z := match d with TY_INT w _ => w | _ => 0 end.
Definition wider (a b : CE) (da db : TypeDesc) : tyid * Z :=
  if width_of da <? width_of db then (ce_ty b, width_of db) else (ce_ty a, width_of da).

Definition d_string_like (d : TypeDesc) : bool :=
  match d with TY_LSTR _ | TY_STRLIT => true | _ => false end.

Definition op_text (op : Op) : string :=
  match op with
  | OP_ADD => "+" | OP_SUB => "-" | OP_MUL => "*" | OP_IDIV => "/" | OP_MOD => "%"
  | OP_AND => "&" | OP_OR => "|" | OP_EQ => "==" | OP_NE => "!=" | OP_LT => "<"
  | OP_LE => "<=" | OP_GT => ">" | OP_GE => ">=" | _ => "?"
  end.

Definition is_cmp (op : Op) : bool :=
  match op with OP_EQ | OP_NE | OP_LT | OP_LE | OP_GT | OP_GE => true | _ => false end.
Definition is_eq_op (op : Op) : bool := match op with OP_EQ | OP_NE => true | _ => false end.

Definition int_arith (op : Op) (w : Z) (l r : string) (loc : Loc) : EM string :=
  let ct := int_ctype w in
  let ops := "((" +:+ ct +:+ ")" +:+ l +:+ ", (" +:+ ct +:+ ")" +:+ r in
  let at_loc := ", " +:+ loc_file_lit loc +:+ ", " +:+ Zs (loc_line loc) in
  match op with
  | OP_ADD => ret ("pas_add" +:+ Zs w +:+ ops +:+ ")")
  | OP_SUB => ret ("pas_sub" +:+ Zs w +:+ ops +:+ ")")
  | OP_MUL => ret ("pas_mul" +:+ Zs w +:+ ops +:+ ")")
  | OP_IDIV => ret ("pas_div" +:+ Zs w +:+ ops +:+ at_loc +:+ ")")
  | OP_MOD => ret ("pas_mod" +:+ Zs w +:+ ops +:+ at_loc +:+ ")")
  | _ => fatal loc "bad integer operator"
  end.

Definition d_is_real (d : TypeDesc) : bool := match d with TY_REAL => true | _ => false end.
Definition d_is_bool (d : TypeDesc) : bool := match d with TY_BOOL => true | _ => false end.
Definition d_is_char (d : TypeDesc) : bool := match d with TY_CHAR => true | _ => false end.
Definition d_is_nil (d : TypeDesc) : bool := match d with TY_NIL => true | _ => false end.
Definition d_is_num (d : TypeDesc) : bool := d_is_real d || d_is_int d.

Definition bool_ce (s : string) : CE := mk ("((uint8_t)(" +:+ s +:+ "))") t_bool false.
Definition infix (l o r : string) : string := l +:+ " " +:+ o +:+ " " +:+ r.

(** The comparisons. *)
Definition gen_compare (op : Op) (loc : Loc) (l r : CE) : EM CE :=
  let o := op_text op in
  let* dl := ty_desc l in
  let* dr := ty_desc r in
  let cannot :=
    let* nl := name_of (ce_ty l) in
    let* nr := name_of (ce_ty r) in
    fatal loc ("cannot compare " +:+ nl +:+ " with " +:+ nr) in
  if d_string_like dl || d_string_like dr then
    let* bl := lstr_bytes l loc in
    let* br := lstr_bytes r loc in
    ret (bool_ce (infix ("pas_scmp(" +:+ bl +:+ ", " +:+ br +:+ ")") o "0"))
  else if d_is_ptr dl && d_is_ptr dr then
    if is_eq_op op then ret (bool_ce (infix ("(const void *)" +:+ ce_s l) o ("(const void *)" +:+ ce_s r)))
    else fatal loc "pointers compare only with = and <>"
  else if d_is_real dl || d_is_real dr then
    if d_is_num dl && d_is_num dr
    then ret (bool_ce (infix ("(double)" +:+ ce_s l) o ("(double)" +:+ ce_s r)))
    else cannot
  else if d_is_int dl && d_is_int dr then
    let ct := "(" +:+ int_ctype (snd (wider l r dl dr)) +:+ ")" in
    ret (bool_ce (infix (ct +:+ ce_s l) o (ct +:+ ce_s r)))
  else if d_is_char dl && d_is_char dr then
    ret (bool_ce (infix ("(int8_t)" +:+ ce_s l) o ("(int8_t)" +:+ ce_s r)))
  else if d_is_bool dl && d_is_bool dr then
    if is_eq_op op then ret (bool_ce (infix (ce_s l) o (ce_s r)))
    else unsupp loc "ordering comparison of BOOLEAN values"
  else if d_is_enum dl && (ce_ty l =? ce_ty r)%nat then ret (bool_ce (infix (ce_s l) o (ce_s r)))
  else cannot.

(** AND and OR. *)
Definition gen_logical (op : Op) (loc : Loc) (l r : CE) : EM CE :=
  let o := op_text op in
  let* dl := ty_desc l in
  let* dr := ty_desc r in
  if d_is_bool dl && d_is_bool dr then ret (bool_ce (infix (ce_s l) o (ce_s r)))
  else if d_is_int dl && d_is_int dr then
    let '(t, w) := wider l r dl dr in
    let ct := int_ctype w in
    let cast s := "(" +:+ ct +:+ ")" +:+ s in
    ret (mk ("(" +:+ cast ("(" +:+ infix (cast (ce_s l)) o (cast (ce_s r)) +:+ ")") +:+ ")") t false)
  else
    fatal loc ((if bool_decide (op = OP_AND) then "AND" else "OR") +:+ " needs BOOLEAN or integer operands").

(** [ctype(t->target)] of a pointer operand of [+], for its effect. *)
Definition complete_target (d : TypeDesc) : EM unit :=
  match d with
  | TY_PTR (Some target) _ => do* in_sem (ctype target) in ret tt
  | TY_PTR None _ => in_sem dangling
  | _ => ret tt
  end.

(** Addition on pointers, and arithmetic. *)
Definition gen_arith (op : Op) (loc : Loc) (l r : CE) : EM CE :=
  let* dl := ty_desc l in
  let* dr := ty_desc r in
  let add := bool_decide (op = OP_ADD) in
  do* (if add then do* complete_target dl in complete_target dr else ret tt) in
  let on_types :=
    let* nl := name_of (ce_ty l) in
    let* nr := name_of (ce_ty r) in
    fatal loc ("arithmetic on " +:+ nl +:+ " and " +:+ nr) in
  if add && d_is_ptr dl && negb (d_is_nil dl) && d_is_int dr then
    ret (mk ("(" +:+ infix (ce_s l) "+" (ce_s r) +:+ ")") (ce_ty l) false)
  else if add && d_is_ptr dr && negb (d_is_nil dr) && d_is_int dl then
    ret (mk ("(" +:+ infix (ce_s r) "+" (ce_s l) +:+ ")") (ce_ty r) false)
  else if bool_decide (op = OP_RDIV) then
    if d_is_num dl && d_is_num dr
    then ret (mk ("(" +:+ infix ("(double)" +:+ ce_s l) "/" ("(double)" +:+ ce_s r) +:+ ")") t_real false)
    else fatal loc "'/' needs numeric operands"
  else if d_is_real dl || d_is_real dr then
    if negb (d_is_num dl && d_is_num dr) then on_types
    else if bool_decide (op = OP_IDIV) || bool_decide (op = OP_MOD)
    then fatal loc "DIV and MOD need integer operands"
    else ret (mk ("(" +:+ infix ("(double)" +:+ ce_s l) (op_text op) ("(double)" +:+ ce_s r) +:+ ")") t_real false)
  else if d_is_int dl && d_is_int dr then
    let '(t, w) := wider l r dl dr in
    let* s := int_arith op w (ce_s l) (ce_s r) loc in
    ret (mk s t false)
  else on_types.

Definition gen_binary (op : Op) (loc : Loc) (l r : CE) : EM CE :=
  if bool_decide (op = OP_ANDTHEN) then
    let* dl := ty_desc l in
    let* dr := ty_desc r in
    if d_is_bool dl && d_is_bool dr then ret (bool_ce (infix (ce_s l) "&&" (ce_s r)))
    else fatal loc "AND THEN needs BOOLEAN operands"
  else if is_cmp op then gen_compare op loc l r
  else if bool_decide (op = OP_AND) || bool_decide (op = OP_OR) then gen_logical op loc l r
  else gen_arith op loc l r.

Definition gen_unary (op : Op) (l : Loc) (v : CE) : EM CE :=
  let* d := ty_desc v in
  if bool_decide (op = OP_NEG) then
    match d with
    | TY_REAL => ret (mk ("(-" +:+ ce_s v +:+ ")") t_real false)
    | TY_INT w _ => ret (mk ("pas_neg" +:+ Zs w +:+ "((" +:+ int_ctype w +:+ ")" +:+ ce_s v +:+ ")") (ce_ty v) false)
    | _ => let* n := name_of (ce_ty v) in fatal l ("unary minus on " +:+ n)
    end
  else
    match d with
    | TY_BOOL => ret (mk ("((uint8_t)!" +:+ ce_s v +:+ ")") t_bool false)
    | TY_INT w _ => ret (mk ("((" +:+ int_ctype w +:+ ")~" +:+ ce_s v +:+ ")") (ce_ty v) false)
    | _ => let* n := name_of (ce_ty v) in fatal l ("NOT on " +:+ n)
    end.

(** ** Selectors *)

Definition gen_index (l : Loc) (b i : CE) : EM CE :=
  let* di := ty_desc i in
  if negb (d_is_int di) then let* n := name_of (ce_ty i) in fatal l ("subscript of type " +:+ n)
  else
    let* db := ty_desc b in
    match db with
    | TY_LSTR _ => ret (mk ("(" +:+ ce_s b +:+ ").b[" +:+ ce_s i +:+ "]") t_char (ce_lval b))
    | TY_ARRAY lo _ elem =>
        ret (mk ("(" +:+ ce_s b +:+ ").a[" +:+ ce_s i
                 +:+ (if lo =? 0 then EmptyString else " - " +:+ int_lit lo) +:+ "]") elem (ce_lval b))
    | _ => let* n := name_of (ce_ty b) in fatal l ("subscript of " +:+ n)
    end.

Definition gen_field (l : Loc) (b : CE) (name : string) : EM CE :=
  let* db := ty_desc b in
  match db with
  | TY_RECORD fields =>
      match List.find (fun f => String.eqb (fst f) name) fields with
      | Some (_, t) => ret (mk ("(" +:+ ce_s b +:+ ").f_" +:+ name) t (ce_lval b))
      | None => fatal l ("no field '" +:+ name +:+ "' in record")
      end
  | _ => let* n := name_of (ce_ty b) in fatal l ("field selection from " +:+ n)
  end.

Definition gen_deref (l : Loc) (b : CE) : EM CE :=
  let* db := ty_desc b in
  match db with
  | TY_PTR (Some target) _ =>
      do* in_sem (ctype target) in
      ret (mk ("(*" +:+ ce_s b +:+ ")") target true)
  | TY_PTR None _ => in_sem dangling
  | _ => let* n := name_of (ce_ty b) in fatal l ("'^' applied to " +:+ n)
  end.

Definition gen_adr (l : Loc) (name : string) : EM CE :=
  let* o := in_sem (lookup name) in
  match o with
  | Some (_, s) =>
      match s_kind s with
      | SY_VAR => let* v := var_ce s in ret (mk ("((uint8_t *)&" +:+ ce_s v +:+ ")") t_adrmem false)
      | _ => fatal l "ADR needs a variable"
      end
  | None => fatal l "ADR needs a variable"
  end.

(** ** Expressions *)

Fixpoint gen_expr (e : Expr) : EM CE :=
  match e with
  | E_INT _ v => ret (mk ("(" +:+ int_lit v +:+ ")") (int_type_for v) false)
  | E_REAL _ v => ret (mk (real_lit v) t_real false)
  | E_CHAR _ v => ret (mkCE ("((uint8_t)" +:+ Zs v +:+ ")") t_char false (Some e))
  | E_STR l s => let* p := lit_lstr_ptr l s in ret (mkCE p t_strlit false (Some e))
  | E_NAME l name => gen_name l name
  | E_CALL l name args =>
      let* o := in_sem (lookup name) in
      match o with
      | Some (_, s) =>
          match s_kind s with
          | SY_ROUTINE =>
              let* r := gen_call gen_expr s args l in
              if (ce_ty r =? t_void)%nat then fatal l ("procedure '" +:+ name +:+ "' used as a value")
              else ret r
          | _ => fatal l ("'" +:+ name +:+ "' is not a routine")
          end
      | None => gen_builtin gen_expr l name args
      end
  | E_INDEX l a i => let* b := gen_expr a in let* i := gen_expr i in gen_index l b i
  | E_FIELD l a name => let* b := gen_expr a in gen_field l b name
  | E_DEREF l a => let* b := gen_expr a in gen_deref l b
  | E_BIN l op a b => let* va := gen_expr a in let* vb := gen_expr b in gen_binary op l va vb
  | E_UN l op a => let* v := gen_expr a in gen_unary op l v
  | E_ADR l name => gen_adr l name
  end.

(** ** Statements *)

Definition call_args_of (e : Expr) : list Expr :=
  match e with E_CALL _ _ args => args | _ => [] end.
Definition callee_name (e : Expr) : option string :=
  match e with E_CALL _ n _ | E_NAME _ n => Some n | _ => None end.
Definition is_call (e : Expr) : bool := match e with E_CALL _ _ _ => true | _ => false end.

Fixpoint gen_write_args (args : list Expr) : EM unit :=
  match args with
  | [] => ret tt
  | a :: args' =>
      let* v := gen_expr a in
      let* d := ty_desc v in
      do* (match d with
           | TY_STRLIT => let* p := lit_ptr (ce_lit v) in line ("pas_wr_str(" +:+ p +:+ ");")
           | TY_CHAR => line ("pas_wr_ch(" +:+ ce_s v +:+ ");")
           | _ => let* n := name_of (ce_ty v) in unsupp (expr_loc a) ("WRITE of " +:+ n)
           end) in
      gen_write_args args'
  end.

Definition gen_write (call : Expr) (newline : bool) : EM unit :=
  do* gen_write_args (call_args_of call) in
  if newline then line "pas_wr_ch(10);" else ret tt.

Definition gen_concat (l : Loc) (args : list Expr) : EM unit :=
  match args with
  | [d; s] =>
      match d with
      | E_NAME dl _ =>
          let* dv := gen_expr d in
          let* dd := ty_desc dv in
          match dd, ce_lval dv with
          | TY_LSTR cap, true =>
              let* sv := gen_expr s in
              let* b := lstr_bytes sv l in
              line ("pas_concat(" +:+ ce_s dv +:+ ".b, " +:+ Zs cap +:+ ", " +:+ b +:+ ");")
          | _, _ => fatal dl "CONCAT destination must be an LSTRING variable"
          end
      | _ => unsupp (expr_loc d) "CONCAT destination other than a bare variable"
      end
  | _ => unsupp l "CONCAT with other than two arguments"
  end.

(** [e] is the [E_NAME] or [E_CALL] of a call statement. *)
Definition gen_call_stmt (e : Expr) : EM unit :=
  let l := expr_loc e in
  match callee_name e with
  | None => in_sem dangling
  | Some name =>
      let* o := in_sem (lookup name) in
      match o with
      | Some (_, s) =>
          match s_kind s with
          | SY_ROUTINE => let* c := gen_call gen_expr s (call_args_of e) l in line (ce_s c +:+ ";")
          | _ => fatal l ("'" +:+ name +:+ "' is not a procedure")
          end
      | None =>
          if String.eqb name "write" || String.eqb name "writeln" then gen_write e (String.eqb name "writeln")
          else if String.eqb name "concat" && is_call e then gen_concat l (call_args_of e)
          else if is_call e then unsupp l ("builtin procedure " +:+ name)
          else fatal l ("undeclared identifier '" +:+ name +:+ "'")
      end
  end.

(** The left side of an assignment: the result of the function whose body this
    is, or a variable. *)
Definition gen_target (le : Expr) : EM CE :=
  let* fs := (match le with E_NAME _ n => in_sem (lookup n) | _ => ret None end) in
  match fs with
  | Some (i, s) =>
      match s_kind s with
      | SY_ROUTINE =>
          let* st := get in
          match s_ty s with
          | Some t =>
              if bool_decide (cur_func st = Some i) then ret (mk "pres" t true)
              else fatal (expr_loc le) ("assignment to routine '" +:+ s_name s +:+ "'")
          | None => fatal (expr_loc le) ("assignment to routine '" +:+ s_name s +:+ "'")
          end
      | _ => gen_expr le
      end
  | None => gen_expr le
  end.

Definition gen_assign (l : Loc) (le re : Expr) : EM unit :=
  let* t := gen_target le in
  if negb (ce_lval t) then fatal (expr_loc le) "left side of ':=' is not a variable"
  else
    let* r := gen_expr re in
    let* c := conv r (ce_ty t) l in
    line (ce_s t +:+ " = " +:+ c +:+ ";").

(** A BOOLEAN condition of an IF or a WHILE. *)
Definition gen_cond (what : string) (e : Expr) : EM string :=
  let* c := gen_expr e in
  let* d := ty_desc c in
  match d with
  | TY_BOOL => ret (ce_s c)
  | _ => let* n := name_of (ce_ty c) in fatal (expr_loc e) (what +:+ " condition is " +:+ n +:+ ", not BOOLEAN")
  end.

(** The lines of a FOR around its body [gen_body]. *)
Definition gen_for (var : string) (varloc : Loc) (from to : Expr) (down : bool) (gen_body : EM unit) : EM unit :=
  let not_var := fatal varloc ("FOR control '" +:+ var +:+ "' is not a variable") in
  let* o := in_sem (lookup var) in
  match o with
  | Some (_, v) =>
      match s_kind v, s_ty v with
      | SY_VAR, Some vt =>
          let* dv := in_sem (desc_of vt) in
          match dv with
          | TY_INT w _ =>
              let* cv := var_ce v in
              let* f := gen_expr from in
              let* t := gen_expr to in
              let* dt := ty_desc t in
              if negb (d_is_int dt)
              then let* n := name_of (ce_ty t) in fatal (expr_loc to) ("FOR limit is " +:+ n)
              else
                let* ct := in_sem (ctype vt) in
                let* st := get in
                do* modify (with_for_count (for_count st + 1)) in
                let n := Zs (for_count st + 1) in
                let v := ce_s cv in
                do* line "{" in
                do* indented (
                  let* cf := conv f vt (expr_loc from) in
                  do* line (v +:+ " = " +:+ cf +:+ ";") in
                  do* line (ct +:+ " lim_" +:+ n +:+ " = (" +:+ ct +:+ ")" +:+ ce_s t +:+ ";") in
                  do* line ("int done_" +:+ n +:+ " = 0;") in
                  do* line ("for (; !done_" +:+ n +:+ " && " +:+ v +:+ (if down then " >= " else " <= ")
                            +:+ "lim_" +:+ n +:+ "; done_" +:+ n +:+ " = " +:+ v +:+ " == lim_" +:+ n
                            +:+ ", " +:+ v +:+ " = pas_" +:+ (if down then "sub" else "add") +:+ Zs w
                            +:+ "(" +:+ v +:+ ", 1)) {") in
                  do* gen_body in
                  line "}") in
                line "}"
          | _ => let* n := name_of vt in unsupp varloc ("FOR over " +:+ n)
          end
      | _, _ => not_var
      end
  | None => not_var
  end.

Definition gen_return : EM unit :=
  let* st := get in
  if in_main st then line "return 0;"
  else
    match cur_func st with
    | Some f =>
        let* s := in_sem (get_sym f) in
        match s_ty s with Some _ => line "return pres;" | None => line "return;" end
    | None => line "return;"
    end.

Definition gen_each (gen : Stmt -> EM unit) : list Stmt -> EM unit :=
  fix go (ss : list Stmt) : EM unit :=
    match ss with
    | [] => ret tt
    | s :: ss' => do* gen s in go ss'
    end.

Definition gen_block_body (gen : Stmt -> EM unit) (s : Stmt) : EM unit :=
  indented (match s with S_BLOCK _ ss => gen_each gen ss | _ => gen s end).

Fixpoint gen_stmt (s : Stmt) : EM unit :=
  match s with
  | S_EMPTY _ => ret tt
  | S_BLOCK _ ss =>
      do* line "{" in
      do* indented (gen_each gen_stmt ss) in
      line "}"
  | S_ASSIGN l le re => gen_assign l le re
  | S_CALL _ e => gen_call_stmt e
  | S_IF _ c th el =>
      let* t := gen_cond "IF" c in
      do* line ("if (" +:+ t +:+ ") {") in
      do* gen_block_body gen_stmt th in
      do* (match el with
           | Some e => do* line "} else {" in gen_block_body gen_stmt e
           | None => ret tt
           end) in
      line "}"
  | S_WHILE _ c b =>
      let* t := gen_cond "WHILE" c in
      do* line ("while (" +:+ t +:+ ") {") in
      do* gen_block_body gen_stmt b in
      line "}"
  | S_FOR _ var varloc from to down b => gen_for var varloc from to down (gen_block_body gen_stmt b)
  | S_RETURN _ => gen_return
  | S_BREAK _ => line "break;"
  | S_CYCLE _ => line "continue;"
  end.

(** ** Declarations *)

Definition param_decl (p : ParamInfo) (named : bool) : EM string :=
  let* t := in_sem (ctype (pi_ty p)) in
  ret (t +:+ (if pi_is_var p then " *" else if named then " " else EmptyString)
       +:+ (if named then "a_" +:+ pi_name p else EmptyString)).

Fixpoint param_decls (named first : bool) (ps : list ParamInfo) : EM string :=
  match ps with
  | [] => ret EmptyString
  | p :: ps' =>
      let* d := param_decl p named in
      let* rest := param_decls named false ps' in
      ret ((if first then EmptyString else ", ") +:+ d +:+ rest)
  end.

Definition prototype (r : Sym) (named : bool) : EM string :=
  let* res := (match s_ty r with Some t => in_sem (ctype t) | None => ret "void" end) in
  let* ps := param_decls named true (s_params r) in
  ret (res +:+ " " +:+ s_cname r +:+ "(" +:+ (match s_params r with [] => "void" | _ => EmptyString end)
       +:+ ps +:+ ")").

Definition is_exported (st : Emit) (s : Sym) : bool :=
  s_from_iface s && bool_decide (is_Some (impl_unit st)) && bool_decide (s_owner s = impl_unit st).

Fixpoint signature_params (gs : list ParamGroup) : EM (list ParamInfo) :=
  match gs with
  | [] => ret []
  | g :: gs' =>
      let* t := in_sem (resolve_type (pg_te g)) in
      let* rest := signature_params gs' in
      ret (map (fun n => mkParam n t (pg_is_var g)) (pg_names g) ++ rest)
  end.

(** The parameters and the result type of a heading. *)
Definition signature (r : Routine) : EM (list ParamInfo * option tyid) :=
  let* ps := signature_params (r_params r) in
  if r_is_func r then
    match r_result r with
    | Some te => let* t := in_sem (resolve_type te) in ret (ps, Some t)
    | None => fatal (r_loc r) ("function '" +:+ r_name r +:+ "' has no result type")
    end
  else ret (ps, None).

Definition d_c_scalar (d : TypeDesc) : bool := d_is_int d || d_is_ptr d || d_is_real d.
Definition c_scalar (t : tyid) : EM bool := let* d := in_sem (desc_of t) in ret (d_c_scalar d).

Fixpoint check_c_params (l : Loc) (ps : list ParamInfo) : EM unit :=
  match ps with
  | [] => ret tt
  | p :: ps' =>
      let* ok := c_scalar (pi_ty p) in
      if pi_is_var p || negb ok then
        let* n := name_of (pi_ty p) in
        unsupp l ("[C] parameter '" +:+ pi_name p +:+ "' of " +:+ (if pi_is_var p then "VAR " else EmptyString) +:+ n)
      else check_c_params l ps'
  end.

Definition check_c_signature (l : Loc) (ps : list ParamInfo) (result : option tyid) : EM unit :=
  do* check_c_params l ps in
  match result with
  | Some t =>
      let* ok := c_scalar t in
      if ok then ret tt else let* n := name_of t in unsupp l ("[C] result of " +:+ n)
  | None => ret tt
  end.

Definition const_item (c : ConstDecl) : EM unit :=
  let* v := in_sem (const_eval (cd_val c)) in
  let* old := in_sem (lookup_innermost (cd_name c)) in
  let* st := get in
  let iface := bool_decide (is_Some (iface_unit st)) in
  match old with
  | Some (_, o) =>
      if bool_decide (s_kind o = SY_CONST) && s_from_iface o && negb iface then ret tt
      else fatal (cd_loc c) ("duplicate declaration of '" +:+ cd_name c +:+ "'")
  | None =>
      do* in_sem (define
                    (set_unit false iface None
                       (set_value (cv_ival v) (cv_rval v) (cv_sval v)
                          (set_ty (cv_ty v) (new_sym (cd_name c) SY_CONST (cd_loc c)))))) in
      ret tt
  end.

Fixpoint const_section (items : list ConstDecl) : EM unit :=
  match items with
  | [] => ret tt
  | c :: items' => do* const_item c in const_section items'
  end.

(** The declaration at index [i] of the section [all]. *)
Definition type_item (all : list TypeDecl) (i : nat) (t : TypeDecl) : EM unit :=
  let* old := in_sem (lookup_innermost (td_name t)) in
  let* st := get in
  let iface := bool_decide (is_Some (iface_unit st)) in
  match old with
  | Some (_, o) =>
      if bool_decide (s_kind o = SY_TYPE) && s_from_iface o && negb iface then ret tt
      else fatal (td_loc t) ("duplicate declaration of '" +:+ td_name t +:+ "'")
  | None =>
      do* in_sem (set_type_section (Some (all, i))) in
      let* ty := in_sem (resolve_type (td_te t)) in
      do* in_sem (define (set_unit false iface None (set_ty ty (new_sym (td_name t) SY_TYPE (td_loc t))))) in
      ret tt
  end.

Fixpoint type_items (all : list TypeDecl) (i : nat) (items : list TypeDecl) : EM unit :=
  match items with
  | [] => ret tt
  | t :: items' => do* type_item all i t in type_items all (S i) items'
  end.

Definition type_section (items : list TypeDecl) : EM unit :=
  do* type_items items 0 items in
  do* in_sem (set_type_section None) in
  in_sem resolve_pending_pointers.

(** One name of a VAR declaration of type [t], spelled [ct] in C. *)
Definition var_name (local : bool) (l : Loc) (t : tyid) (ct : string) (name : string) : EM unit :=
  let* old := in_sem (lookup_innermost name) in
  let* st := get in
  let duplicate := fatal l ("duplicate declaration of '" +:+ name +:+ "'") in
  let fresh := set_ty t (new_sym name SY_VAR l) in
  if local then
    match old with
    | Some _ => duplicate
    | None =>
        let cname := "l_" +:+ name in
        do* in_sem (define (set_var false cname fresh)) in
        do* line (ct +:+ " " +:+ cname +:+ ";") in
        line ("memset(&" +:+ cname +:+ ", 0, sizeof " +:+ cname +:+ ");")
    end
  else
    match old with
    | Some (i, o) =>
        if bool_decide (s_kind o = SY_VAR) && is_exported st o && bool_decide (iface_unit st = None)
           && negb (s_defined o)
        then
          match s_ty o with
          | Some ot =>
              let* same := in_sem (same_type ot t) in
              if negb same then fatal l ("'" +:+ name +:+ "' is redeclared with a different type")
              else
                do* in_sem (update_sym i set_defined) in
                put_out (ct +:+ " " +:+ s_cname o +:+ ";" +:+ nl)
          | None => in_sem dangling
          end
        else duplicate
    | None =>
        let cname := "p_" +:+ name in
        let sym := set_var false cname fresh in
        match iface_unit st with
        | Some u =>
            do* put_out ("extern " +:+ ct +:+ " " +:+ cname +:+ ";" +:+ nl) in
            do* in_sem (define (set_unit true true (Some u) sym)) in ret tt
        | None =>
            do* put_out ("static " +:+ ct +:+ " " +:+ cname +:+ ";" +:+ nl) in
            do* in_sem (define (set_unit true false None sym)) in ret tt
        end
    end.

Fixpoint var_names (local : bool) (l : Loc) (t : tyid) (ct : string) (names : list string) : EM unit :=
  match names with
  | [] => ret tt
  | n :: names' => do* var_name local l t ct n in var_names local l t ct names'
  end.

Fixpoint var_section (items : list VarDecl) (local : bool) : EM unit :=
  match items with
  | [] => ret tt
  | v :: items' =>
      let* t := in_sem (resolve_type (vd_te v)) in
      let* ct := in_sem (ctype t) in
      do* var_names local (vd_loc v) t ct (vd_names v) in
      var_section items' local
  end.

(** The sections of a scope; [routine] handles a routine declaration, which a
    local scope refuses. *)
Definition process_decl (routine : Routine -> EM unit) (local : bool) (d : Decl) : EM unit :=
  match d with
  | D_CONST _ items => const_section items
  | D_TYPE _ items => type_section items
  | D_VAR _ items => var_section items local
  | D_ROUTINE l r => if local then unsupp l "nested routine" else routine r
  end.

Fixpoint process_sections (routine : Routine -> EM unit) (decls : list Decl) (local : bool) : EM unit :=
  match decls with
  | [] => ret tt
  | d :: decls' => do* process_decl routine local d in process_sections routine decls' local
  end.

(** The parameters as variables of the body's scope. *)
Fixpoint define_params (l : Loc) (ps : list ParamInfo) : EM unit :=
  match ps with
  | [] => ret tt
  | p :: ps' =>
      let* o := in_sem (lookup_innermost (pi_name p)) in
      match o with
      | Some _ => fatal l ("duplicate parameter '" +:+ pi_name p +:+ "'")
      | None =>
          do* in_sem (define (set_var (pi_is_var p) ("a_" +:+ pi_name p)
                                (set_ty (pi_ty p) (new_sym (pi_name p) SY_VAR l)))) in
          define_params l ps'
      end
  end.

Definition swap_body (b : string) : EM string :=
  fun st => Ok (body st, with_body b st).

(** The part of [emit_body] between its [scope_push] and its [scope_pop]. *)
Definition routine_body (s : Sym) (r : Routine) : EM unit :=
  do* define_params (r_loc r) (s_params s) in
  do* modify (with_indent 1) in
  do* (match s_ty s with
       | Some t =>
           let* ct := in_sem (ctype t) in
           do* line (ct +:+ " pres;") in
           line "memset(&pres, 0, sizeof pres);"
       | None => ret tt
       end) in
  let* hold := swap_body EmptyString in
  do* process_sections (fun _ => ret tt) (r_decls r) true in
  let* locals := swap_body hold in
  do* modify (fun st => with_body (body st +:+ locals) st) in
  do* gen_each gen_stmt (default [] (r_body r)) in
  do* (match s_ty s with Some _ => line "return pres;" | None => ret tt end) in
  modify (with_indent 0).

Definition emit_body (i : symid) (r : Routine) : EM unit :=
  let* s := in_sem (get_sym i) in
  let* saved := swap_body EmptyString in
  let* st := get in
  do* modify (with_func (Some i) (in_main st)) in
  do* in_sem scope_push in
  do* routine_body s r in
  do* in_sem scope_pop in
  let* st := get in
  do* modify (with_func None (in_main st)) in
  let* fb := swap_body saved in
  let* proto := prototype s true in
  let* st := get in
  put_out (nl +:+ (if is_exported st s then EmptyString else "static ") +:+ proto +:+ nl +:+ "{" +:+ nl
           +:+ fb +:+ "}" +:+ nl).

Definition routine_cname (r : Routine) : string :=
  if r_is_c r then "c_" +:+ r_orig r else "p_" +:+ r_name r.

Definition extern_c (s : Sym) (r : Routine) : EM unit :=
  let* p := prototype s false in
  put_out ("extern " +:+ p +:+ " __asm__(" +:+ dq +:+ r_orig r +:+ dq +:+ ");" +:+ nl).

(** The symbol of a first declaration. *)
Definition routine_sym (r : Routine) (owner : option string) : EM Sym :=
  let* (ps, result) := signature r in
  do* (if r_is_c r then check_c_signature (r_loc r) ps result else ret tt) in
  ret (set_unit true (bool_decide (is_Some owner)) owner
         (set_var false (routine_cname r)
            (set_routine r ps result (new_sym (r_name r) SY_ROUTINE (r_loc r))))).

Definition iface_routine (r : Routine) (uname : string) (old : option (symid * Sym)) : EM unit :=
  match old with
  | Some (_, o) =>
      if bool_decide (s_kind o = SY_ROUTINE) && s_is_c o && r_is_c r then ret tt
      else fatal (r_loc r) ("duplicate declaration of '" +:+ r_name r +:+ "'")
  | None =>
      let* s := routine_sym r (Some uname) in
      do* in_sem (define s) in
      if r_is_c r then extern_c s r
      else let* p := prototype s false in put_out ("extern " +:+ p +:+ ";" +:+ nl)
  end.

(** A repeated heading against the first one, parameter by parameter. *)
Fixpoint same_params (ps qs : list ParamInfo) : EM bool :=
  match ps, qs with
  | p :: ps', q :: qs' =>
      if Bool.eqb (pi_is_var p) (pi_is_var q) then
        let* same := in_sem (same_type (pi_ty p) (pi_ty q)) in
        if same && String.eqb (pi_name p) (pi_name q) then same_params ps' qs' else ret false
      else ret false
  | _, _ => ret true
  end.

Definition heading_matches (r : Routine) (old : Sym) : EM bool :=
  if r_has_params r || bool_decide (is_Some (r_result r)) then
    let* (ps, result) := signature r in
    if negb (length ps =? length (s_params old))%nat then ret false
    else
      let* same :=
        (match result, s_ty old with
         | None, _ => ret true
         | Some t, Some u => in_sem (same_type t u)
         | Some _, None => in_sem dangling
         end) in
      if (same : bool) then same_params ps (s_params old) else ret false
  else ret true.

Definition old_forward (o : Sym) : bool :=
  match s_routine o with Some r => r_is_forward r | None => false end.
Definition old_is_func (o : Sym) : bool :=
  match s_routine o with Some r => r_is_func r | None => false end.

Definition redeclared_routine (r : Routine) (i : symid) (o : Sym) : EM unit :=
  let* st := get in
  if bool_decide (s_kind o = SY_ROUTINE) && s_is_c o && r_is_c r then ret tt
  else if negb (bool_decide (s_kind o = SY_ROUTINE)) || s_is_c o || r_is_c r || s_defined o || r_is_extern r
          || negb (old_forward o || is_exported st o) || (r_is_forward r && old_forward o)
  then fatal (r_loc r) ("duplicate declaration of '" +:+ r_name r +:+ "'")
  else
    let mismatch :=
      fatal (r_loc r) ("heading of '" +:+ r_name r +:+ "' does not match its earlier declaration") in
    if negb (Bool.eqb (r_is_func r) (old_is_func o)) then mismatch
    else
      let* ok := heading_matches r o in
      if negb ok then mismatch
      else if r_is_forward r then ret tt
      else do* in_sem (update_sym i set_defined) in emit_body i r.

Definition new_routine (r : Routine) : EM unit :=
  let* s := routine_sym r None in
  let* i := in_sem (define s) in
  if r_is_c r then extern_c s r
  else if r_is_forward r then let* p := prototype s false in put_out ("static " +:+ p +:+ ";" +:+ nl)
  else if r_is_extern r then unsupp (r_loc r) "EXTERN routine without [C]"
  else do* in_sem (update_sym i set_defined) in emit_body i r.

Definition routine_decl (r : Routine) : EM unit :=
  let* old := in_sem (lookup_innermost (r_name r)) in
  let* st := get in
  match iface_unit st with
  | Some u => iface_routine r u old
  | None =>
      if r_is_c r && negb (r_is_extern r) then unsupp (r_loc r) "[C] routine that is not EXTERN"
      else match old with
           | Some (i, o) => redeclared_routine r i o
           | None => new_routine r
           end
  end.

(** ** The unit model *)

Fixpoint find_iface (ifaces : list Interface) (uname : string) : option nat :=
  match ifaces with
  | [] => None
  | i :: rest => if String.eqb (in_unit i) uname then Some O else option_map S (find_iface rest uname)
  end.

(** The marks of the walk. *)
Inductive mark := NotVisited | OnWalk | Done.

#[export] Instance mark_eq_dec : EqDecision mark.
Proof. solve_decision. Defined.

(** A loop of [visit_unit] over the names of a USES. *)
Fixpoint visit_units (visit : string -> Loc -> list mark * list nat -> res (list mark * list nat))
    (us : list string) (l : Loc) (w : list mark * list nat) : res (list mark * list nat) :=
  match us with
  | [] => Ok w
  | u :: us' => let! w' := visit u l w in visit_units visit us' l w'
  end.

Section Visit.
Variable ifaces : list Interface.

Fixpoint visit_unit (fuel : nat) (uname : string) (l : Loc) (w : list mark * list nat) {struct fuel}
    : res (list mark * list nat) :=
  match fuel with
  | O => Err OutOfFuel
  | S f =>
      match find_iface ifaces uname with
      | None => Ok w
      | Some i =>
          match fst w !! i, ifaces !! i with
          | Some Done, _ => Ok w
          | Some OnWalk, Some it =>
              Err (Fatal l ("circular USES dependency detected involving unit: " +:+ in_unit it))
          | Some NotVisited, Some it =>
              let! (state, order) :=
                visit_units (visit_unit f) (in_uses it) (in_loc it) (<[i := OnWalk]> (fst w), snd w) in
              Ok (<[i := Done]> state, order ++ [i])
          | _, _ => Err (Undef "unit index out of range")
          end
      end
  end.

(** No walk is deeper than the number of units: each level marks a new one. *)
Definition unit_order (us : list string) (l : Loc) : res (list nat) :=
  let! (_, order) := visit_units (visit_unit (S (length ifaces))) us l (replicate (length ifaces) NotVisited, []) in
  Ok order.
End Visit.

(** The interfaces, in splice order; [before] are the ones already processed. *)
Fixpoint process_ifaces (all before rest : list Interface) : EM unit :=
  match rest with
  | [] => ret tt
  | i :: rest' =>
      if existsb (fun b => String.eqb (in_unit b) (in_unit i)) before
      then fatal (in_loc i) ("interface of unit '" +:+ in_unit i +:+ "' included twice")
      else if existsb (fun u => bool_decide (find_iface all u = Some (length before))) (in_uses i)
      then fatal (in_loc i) ("unit " +:+ in_unit i +:+ " USES itself")
      else
        do* put_out (nl +:+ "/* INTERFACE; UNIT " +:+ in_unit i +:+ " */" +:+ nl) in
        let* st := get in
        do* modify (with_units (impl_unit st) (Some (in_unit i))) in
        do* process_sections routine_decl (in_decls i) false in
        let* st := get in
        do* modify (with_units (impl_unit st) None) in
        process_ifaces all (before ++ [i]) rest'
  end.

(** Every exported routine needs a body. *)
Fixpoint check_defined (ds : list Decl) : EM unit :=
  match ds with
  | D_ROUTINE _ r :: ds' =>
      if r_is_c r then check_defined ds'
      else
        let* o := in_sem (lookup (r_name r)) in
        match o with
        | Some (_, s) =>
            if s_defined s then check_defined ds'
            else fatal (r_loc r) ("'" +:+ s_name s +:+ "' is declared in the interface but never defined")
        | None => in_sem dangling
        end
  | _ :: ds' => check_defined ds'
  | [] => ret tt
  end.

Fixpoint check_exports (uname : string) (ifaces : list Interface) : EM unit :=
  match ifaces with
  | [] => ret tt
  | i :: rest =>
      do* (if String.eqb (in_unit i) uname then check_defined (in_decls i) else ret tt) in
      check_exports uname rest
  end.

Definition unit_name (ifaces : list Interface) (i : nat) : string :=
  match ifaces !! i with Some it => in_unit it | None => EmptyString end.

Fixpoint each (f : string -> EM unit) (l : list string) : EM unit :=
  match l with [] => ret tt | x :: l' => do* f x in each f l' end.

(** [translate], up to the text it writes: the header line's file, the type
    definitions and the declarations. *)
Definition translate_compiland (c : Compiland) (name : string) : EM unit :=
  do* in_sem sem_init in
  do* in_sem scope_push in
  do* process_ifaces (c_ifaces c) [] (c_ifaces c) in
  let* order := lift (unit_order (c_ifaces c) (c_uses c) (c_loc c)) in
  do* (if c_is_program c then ret tt
       else
         do* modify (with_units (Some name) None) in
         match find_iface (c_ifaces c) name with
         | Some _ => ret tt
         | None => fatal (c_loc c) ("IMPLEMENTATION OF " +:+ name +:+ " without its interface")
         end) in
  do* put_out (nl +:+ "/* " +:+ (if c_is_program c then "PROGRAM" else "IMPLEMENTATION OF")
               +:+ " " +:+ name +:+ " */" +:+ nl) in
  do* process_sections routine_decl (c_decls c) false in
  do* (if c_is_program c then ret tt else check_exports name (c_ifaces c)) in
  do* modify (with_body EmptyString) in
  do* modify (with_indent 1) in
  let units := map (unit_name (c_ifaces c)) order in
  do* (if c_is_program c then
         do* modify (with_func None true) in
         do* each (fun u => put_out ("void pascal_init_" +:+ u +:+ "(void);" +:+ nl)) units in
         do* line "pas_args_init(argc, argv);" in
         each (fun u => line ("pascal_init_" +:+ u +:+ "();")) units
       else ret tt) in
  do* gen_each gen_stmt (default [] (c_body c)) in
  if c_is_program c then
    do* line "return 0;" in
    let* st := get in
    put_out (nl +:+ "int main(int argc, char **argv)" +:+ nl +:+ "{" +:+ nl +:+ body st +:+ "}" +:+ nl)
  else
    let* st := get in
    put_out (nl +:+ "void pascal_init_" +:+ name +:+ "(void)" +:+ nl +:+ "{" +:+ nl +:+ body st +:+ "}" +:+ nl).

Definition init_emit : Emit :=
  mkEmit empty_sem EmptyString EmptyString 0 None None None false 0.

(** The C file, or nothing when the run only checks. *)
Definition translate (c : Compiland) (check_only : bool) : res (option string) :=
  match c_name c with
  | None => if check_only then Ok None else Err (Fatal (c_loc c) "no PROGRAM or IMPLEMENTATION")
  | Some name =>
      let! (_, st) := translate_compiland c name init_emit in
      Ok (if check_only then None
          else Some ("/* Generated by pasboot from " +:+ default "(null)" (loc_file (c_loc c))
                     +:+ ". Do not edit. */" +:+ nl +:+ "#include " +:+ dq +:+ "prelude.h" +:+ dq +:+ nl +:+ nl
                     +:+ types_buf (sem st) +:+ out st))
  end.
