(* ===== verification/Main.v ===== *)
(** The command line of pasboot, main.c: the modes, the token dump and the exit
    status of a run. *)

From Stdlib Require Import ZArith Ascii String SpecFloat.
From stdpp Require Import base list strings.
From S2P Require Import Prelude Real Ast Lex Parse Sem Emit.
#[local] Open Scope Z_scope.

Record Options := mkOptions {
  o_src : option string; o_out : option string; o_tokens : bool; o_parse_only : bool }.

(** The loop over [argv[1..]]; [None] is [usage()]. *)
Fixpoint parse_args (args : list string) (o : Options) : option Options :=
  match args with
  | [] => Some o
  | a :: args' =>
      if String.eqb a "--tokens" then parse_args args' (mkOptions (o_src o) (o_out o) true (o_parse_only o))
      else if String.eqb a "--parse-only" then
        parse_args args' (mkOptions (o_src o) (o_out o) (o_tokens o) true)
      else if String.eqb a "-o" then
        match args' with
        | f :: args'' => parse_args args'' (mkOptions (o_src o) (Some f) (o_tokens o) (o_parse_only o))
        | [] => None
        end
      else
        match a with
        | String c (String _ _) =>
            if Ascii.eqb c "-" then None
            else match o_src o with
                 | Some _ => None
                 | None => parse_args args' (mkOptions (Some a) (o_out o) (o_tokens o) (o_parse_only o))
                 end
        | _ =>
            match o_src o with
            | Some _ => None
            | None => parse_args args' (mkOptions (Some a) (o_out o) (o_tokens o) (o_parse_only o))
            end
        end
  end.

(** One line of the token dump. *)
Definition dump_token (t : Token) : string :=
  default "(null)" (loc_file (tloc t)) +:+ ":" +:+ Zs (loc_line (tloc t)) +:+ ": "
  +:+ (match tkind t with
       | T_EOF => "EOF"
       | T_IDENT _ orig => "IDENT " +:+ orig
       | T_INT v => "INT " +:+ Zs v
       | T_REAL v => "REAL " +:+ fmt_17g v
       | T_CHAR v => "CHAR " +:+ Zs v
       | T_STR s => "STR '" +:+ str (c_str s) +:+ "'"
       | T_PUNCT p => "PUNCT " +:+ punct_text p
       end) +:+ nl.

Definition dump_tokens (ts : list Token) : string := String.concat EmptyString (map dump_token ts).

(** What the run needs of the system: the contents of the files that open, and
    which output files [fopen] and [fclose] succeed on. *)
Record Host := mkHost {
  h_file : string -> option bytes; h_can_write : string -> bool; h_close_ok : string -> bool }.

(** How a run ends.
    - [Usage]: exit status 2;
    - [Stopped e left]: exit status 1 by [fatal]; [left] is the output file that
      was opened, hence truncated, and is still there, empty;
    - [CannotWrite p], [CloseFailed p]: exit status 1 without an output file (the
      second removed it);
    - [Silent]: exit status 0, nothing written;
    - [Wrote dest text]: exit status 0, the text in a file or ([None]) on the
      standard output. *)
Inductive Outcome :=
  | Usage
  | Stopped (e : err) (left : option string)
  | CannotWrite (path : string)
  | CloseFailed (path : string)
  | Silent
  | Wrote (dest : option string) (text : string).

Definition exit_status (r : Outcome) : Z :=
  match r with
  | Usage => 2
  | Stopped _ _ | CannotWrite _ | CloseFailed _ => 1
  | Silent | Wrote _ _ => 0
  end.

Definition finish {A} (r : res A) (left : option string) (k : A -> Outcome) : Outcome :=
  match r with Ok a => k a | Err e => Stopped e left end.

(** The end of [main]: the output is opened, then the compiland translated; the
    text is written by the last statements of [translate]. *)
Definition write_out (h : Host) (c : Compiland) (dest : option string) : Outcome :=
  match dest with
  | Some f => if h_can_write h f then
      finish (translate c false) dest (fun text =>
        if h_close_ok h f then Wrote dest (default EmptyString text) else CloseFailed f)
      else CannotWrite f
  | None => finish (translate c false) None (fun text => Wrote None (default EmptyString text))
  end.

Definition pasboot (h : Host) (args : list string) : Outcome :=
  match parse_args args (mkOptions None None false false) with
  | None => Usage
  | Some o =>
      match o_src o with
      | None => Usage
      | Some src =>
          if o_tokens o && o_parse_only o then Usage
          else
            finish (lex_file (h_file h) src) None (fun toks =>
              if o_tokens o then Wrote None (dump_tokens toks)
              else
                finish (parse_compiland toks) None (fun c =>
                  if o_parse_only o then finish (translate c true) None (fun _ => Silent)
                  else write_out h c (o_out o)))
      end
  end.
