(* ===== verification/Buffers.v ===== *)
(** The growing buffers of pasboot: [xmalloc], [xrealloc], [xstrdup], [xfmt], [buf_put],
    [buf_printf] and [vec_push] of main.c, [push_tok] and [read_file] of lex.c, on memory
    blocks whose bounds are kept. What the other files take for texts and lists is built
    here, without a store outside its block. *)

From Stdlib Require Import ZArith Ascii String Lia.
From stdpp Require Import base list strings.
From S2P Require Import Prelude.
#[local] Open Scope Z_scope.

(** * Memory blocks *)

(** How a step ends: [OutOfMemory] is the message "pasboot: out of memory" and exit
    status 1; [OutOfBounds] a store past the end of a block; [IntOverflow] a signed
    overflow. *)
Inductive outcome (A : Type) :=
  | Built (a : A)
  | OutOfMemory
  | OutOfBounds
  | IntOverflow
  | Unopened.
Arguments Built {A} a.
Arguments OutOfMemory {A}.
Arguments OutOfBounds {A}.
Arguments IntOverflow {A}.
Arguments Unopened {A}.

Definition obind {A B} (m : outcome A) (k : A -> outcome B) : outcome B :=
  match m with Built a => k a | OutOfMemory => OutOfMemory | OutOfBounds => OutOfBounds | IntOverflow => IntOverflow | Unopened => Unopened end.
Notation "'let+' x ':=' m 'in' k" := (obind m (fun x => k)) (at level 10, x pattern, m at level 100, k at level 200) : pas_scope.

(** A block of cells; a cell that was never stored to is [None]. *)
Abbreviation block A := (list (option A)).

Definition NUL : ascii := "000".
Definition size_t (z : Z) : Z := uwrap 64 z.
Definition int_max : Z := 2 ^ 31 - 1.

(** [memcpy] of [xs] to the cells from [i] on. *)
Definition memcpy {A} (p : block A) (i : Z) (xs : list A) : outcome (block A) :=
  if (0 <=? i) && (i + Z.of_nat (length xs) <=? Z.of_nat (length p))
  then Built (take (Z.to_nat i) p ++ map Some xs ++ drop (Z.to_nat i + length xs) p) else OutOfBounds.

(** [vsnprintf] of the text [s] to the cells from [i] on, [size] of them at most, and what
    it returns. *)
Definition vsnprintf (p : block ascii) (i size : Z) (s : bytes) : outcome (block ascii) :=
  if size =? 0 then Built p else memcpy p i (take (Z.to_nat (size - 1)) s ++ [NUL]).
Definition vsnprintf_length (s : bytes) : Z := if int_max <? Z.of_nat (length s) then -1 else Z.of_nat (length s).

(** A growable array. *)
Record Vec (A : Type) := mkVec { vec_p : block A; vec_n : Z; vec_cap : Z }.
Arguments mkVec {A}.
Arguments vec_p {A}.
Arguments vec_n {A}.
Arguments vec_cap {A}.
Definition empty_vec {A} : Vec A := mkVec [] 0 0.

Section Alloc.

(** Whether the allocator has a block of so many bytes. *)
Variable can : Z -> bool.

(** [xmalloc] gives a block of zeroes ([zero] is the element they represent). *)
Definition xmalloc {A} (zero : A) (n : Z) : outcome (block A) :=
  let n := if n =? 0 then 1 else n in if can n then Built (replicate (Z.to_nat n) (Some zero)) else OutOfMemory.

(** [xrealloc] to [n] bytes, [size] to a cell. *)
Definition xrealloc {A} (size : Z) (p : block A) (n : Z) : outcome (block A) :=
  let n := if n =? 0 then 1 else n in
  if can n then Built (take (Z.to_nat (n / size)) p ++ replicate (Z.to_nat (n / size) - length p) None) else OutOfMemory.

Definition xstrdup (s : bytes) : outcome (block ascii) :=
  let+ d := xmalloc NUL (size_t (Z.of_nat (length s) + 1)) in memcpy d 0 (s ++ [NUL]).

Definition xfmt (s : bytes) : outcome (block ascii) :=
  let size := size_t (size_t (vsnprintf_length s) + 1) in
  let+ d := xmalloc NUL size in vsnprintf d 0 size s.

(** * [Buf] *)

Record Buf := mkBuf { buf_p : block ascii; buf_len : Z; buf_cap : Z }.
Definition empty_buf : Buf := mkBuf [] 0 0.

(** Room for [n] more bytes and a NUL. *)
Definition buf_room (b : Buf) (n : Z) : outcome Buf :=
  let need := size_t (buf_len b + n + 1) in
  if buf_cap b <? need then
    let cap := size_t (need * 2) in
    let+ p := xrealloc 1 (buf_p b) cap in Built (mkBuf p (buf_len b) cap)
  else Built b.

Definition buf_put (b : Buf) (s : bytes) : outcome Buf :=
  let n := Z.of_nat (length s) in
  let+ b := buf_room b n in
  let+ p := memcpy (buf_p b) (buf_len b) (s ++ [NUL]) in
  Built (mkBuf p (size_t (buf_len b + n)) (buf_cap b)).

Definition buf_printf (b : Buf) (s : bytes) : outcome Buf :=
  let n := size_t (vsnprintf_length s) in
  let+ b := buf_room b n in
  let+ p := vsnprintf (buf_p b) (buf_len b) (size_t (n + 1)) s in
  Built (mkBuf p (size_t (buf_len b + n)) (buf_cap b)).

(** * [Vec] *)

(** Both arrays double when they are full; they start with [init] cells. *)
Definition push {A} (init size : Z) (v : Vec A) (x : A) : outcome (Vec A) :=
  let+ v := (if vec_n v =? vec_cap v then
    let cap := if vec_cap v =? 0 then init else vec_cap v * 2 in
    if int_max <? cap then IntOverflow
    else let+ p := xrealloc size (vec_p v) (size_t (cap * size)) in Built (mkVec p (vec_n v) cap)
  else Built v) in
  let+ p := memcpy (vec_p v) (vec_n v) [x] in
  if int_max <? vec_n v + 1 then IntOverflow else Built (mkVec p (vec_n v + 1) (vec_cap v)).

Definition vec_push {A} (v : Vec A) (x : A) : outcome (Vec A) := push 8 8 v x.
(** [sizeof(Token)] is 72. *)
Definition push_tok {A} (v : Vec A) (x : A) : outcome (Vec A) := push 4096 72 v x.

(** * [read_file] *)

(** The loop, on the pieces that [fread] gives; an empty piece ends it. *)
Fixpoint read_loop (pieces : list bytes) (b : Buf) : outcome Buf :=
  match pieces with
  | [] => Built b
  | [] :: _ => Built b
  | chunk :: pieces' =>
      let n := Z.of_nat (length chunk) in
      let+ b := buf_room b n in
      let+ p := memcpy (buf_p b) (buf_len b) chunk in
      read_loop pieces' (mkBuf p (size_t (buf_len b + n)) (buf_cap b))
  end.

(** [None]: the file does not open. *)
Definition read_file (file : option (list bytes)) : outcome (block ascii * Z) :=
  match file with
  | None => Unopened
  | Some pieces =>
      let+ b := read_loop pieces empty_buf in
      let+ p := (match buf_p b with [] => xmalloc NUL 1 | _ => Built (buf_p b) end) in
      let+ p := memcpy p (buf_len b) [NUL] in Built (p, buf_len b)
  end.

End Alloc.

(** * What the buffers hold *)

(** A step that builds what [P] says, or finds no block of some size up to [bound]. *)
Definition ends {A} (can : Z -> bool) (bound : Z) (P : A -> Prop) (m : outcome A) : Prop :=
  match m with Built a => P a | OutOfMemory => exists n, 0 < n <= bound /\ can n = false | _ => False end.

Lemma ends_bind {A B} can bound (P : A -> Prop) (Q : B -> Prop) m k :
  ends can bound P m -> (forall a, P a -> ends can bound Q (k a)) -> ends can bound Q (obind m k).
Proof. destruct m; cbn; eauto. Qed.

Lemma ends_weaken {A} can b b' (P Q : A -> Prop) m : ends can b P m -> b <= b' -> (forall a, P a -> Q a) -> ends can b' Q m.
Proof. destruct m; cbn; [eauto | intros (n & Hn & Hc) Hb _; exists n; split; [lia | done] | done | done | done]. Qed.

Lemma copy_spec {A} can bound (p : block A) (i : nat) (xs : list A) : (i + length xs <= length p)%nat ->
  ends can bound (fun q => length q = length p /\ take (i + length xs) q = take i p ++ map Some xs) (memcpy p (Z.of_nat i) xs).
Proof.
  intros H. unfold memcpy. destruct (Z.leb_spec 0 (Z.of_nat i)); [| lia].
  destruct (Z.leb_spec (Z.of_nat i + Z.of_nat (length xs)) (Z.of_nat (length p))); [| lia]. cbn [andb ends]. rewrite Nat2Z.id. split.
  - rewrite !length_app, length_map, length_take, length_drop. lia.
  - rewrite app_assoc. apply take_app_length'. rewrite length_app, length_map, length_take. lia.
Qed.

Lemma xrealloc_spec {A} can size (p : block A) cap : 0 < size -> 0 < cap -> Z.of_nat (length p) <= cap ->
  ends can (cap * size) (fun q => Z.of_nat (length q) = cap /\ take (length p) q = p) (xrealloc can size p (cap * size)).
Proof.
  intros Hs Hc Hp. unfold xrealloc. destruct (Z.eqb_spec (cap * size) 0); [nia |]. rewrite Z.div_mul by lia.
  destruct (can (cap * size)) eqn:E; [| exists (cap * size); split; [nia | done]]. cbn [ends].
  rewrite take_ge by lia. split; [| by apply take_app_length].
  rewrite length_app, length_replicate. lia.
Qed.

Lemma size_t_small z : 0 <= z < 2 ^ 64 -> size_t z = z.
Proof. intros H. unfold size_t, uwrap. by apply Z.mod_small. Qed.

Lemma take_prefix {A} (q x y : list A) a b : take (a + b) q = x ++ y -> length x = a -> take a q = x.
Proof.
  intros H <-. transitivity (take (length x) (take (length x + b) q)); [rewrite take_take; f_equal; lia |]. rewrite H. apply take_app_length.
Qed.

(** ** [Buf] *)

(** [b] holds [t], with room behind it for a NUL unless nothing was put. *)
Definition holds (b : Buf) (t : bytes) : Prop :=
  buf_len b = Z.of_nat (length t) /\ buf_cap b = Z.of_nat (length (buf_p b)) /\
  take (length t) (buf_p b) = map Some t /\ (buf_len b < buf_cap b \/ b = empty_buf).
(** A NUL follows. *)
Definition terminated (p : block ascii) (t : bytes) : Prop := take (length t + 1) p = map Some (t ++ [NUL]).

Lemma holds_prefix b t : holds b t -> (length t <= length (buf_p b))%nat.
Proof. intros (_ & _ & H & _). apply (f_equal length) in H. rewrite length_take, length_map in H. lia. Qed.

Lemma room_spec can b t n total : holds b t -> 0 <= n -> Z.of_nat (length t) + n <= total -> total + 1 < 2 ^ 63 ->
  ends can (2 * (total + 1)) (fun b' => holds b' t /\ buf_len b' = buf_len b /\ buf_len b + n + 1 <= buf_cap b') (buf_room can b n).
Proof.
  intros Hb Hn Ht Hl. pose proof (holds_prefix b t Hb) as Hp. pose proof Hb as (El & Ec & Et & _). unfold buf_room.
  rewrite (size_t_small (buf_len b + n + 1)) by lia. destruct (Z.ltb_spec (buf_cap b) (buf_len b + n + 1)); [| cbn; eauto].
  rewrite size_t_small by lia. rewrite <- (Z.mul_1_r ((buf_len b + n + 1) * 2)) at 1.
  eapply ends_bind; [eapply ends_weaken; [apply xrealloc_spec; lia | lia | intros q Hq; exact Hq] |].
  intros q [Hq Hk]. cbn [ends]. split; [| cbn; lia]. split; [done |]. cbn [buf_cap buf_p buf_len]. split; [lia |]. split; [| lia].
  rewrite <- Et, <- Hk at 1. rewrite take_take. f_equal. lia.
Qed.

Lemma store_spec can bound b t s : holds b t -> (length t + length s <= length (buf_p b))%nat ->
  ends can bound (fun q => length q = length (buf_p b) /\ take (length (t ++ s)) q = map Some (t ++ s)) (memcpy (buf_p b) (buf_len b) s).
Proof.
  intros (-> & Ec & Et & _) Hl. eapply ends_weaken; [by apply copy_spec | reflexivity |]. intros q [H1 H2].
  by rewrite length_app, map_app, H2, Et.
Qed.

(** One more text. *)
Lemma buf_put_spec can b t s total : holds b t -> Z.of_nat (length (t ++ s)) <= total -> total + 1 < 2 ^ 63 ->
  ends can (2 * (total + 1)) (fun b' => holds b' (t ++ s) /\ terminated (buf_p b') (t ++ s)) (buf_put can b s).
Proof.
  intros Hb Ht Hl. rewrite length_app in Ht. unfold buf_put.
  eapply ends_bind; [apply (room_spec can b t _ total); [done | lia | lia | lia] |]. intros b1 (Hb1 & El & Hr).
  pose proof Hb1 as (El1 & Ec1 & _ & _).
  eapply ends_bind; [apply (store_spec can _ b1 t (s ++ [NUL])); [done |]; rewrite length_app; cbn; lia |].
  intros q [Hq Hk]. rewrite app_assoc in Hk. rewrite length_app in Hk at 1. cbn [ends]. split; [| done].
  unfold holds. cbn [buf_len buf_cap buf_p]. rewrite size_t_small by lia. rewrite length_app.
  split; [lia |]. split; [lia |]. split; [| lia].
  rewrite map_app in Hk. apply take_prefix in Hk; rewrite length_app in *; [done |]. by rewrite length_map, length_app.
Qed.

Lemma printf_put can b t s : holds b t -> Z.of_nat (length s) <= int_max -> Z.of_nat (length (t ++ s)) + 1 < 2 ^ 63 ->
  buf_printf can b s = buf_put can b s.
Proof.
  intros Hb Hs Ht. unfold buf_printf, buf_put, vsnprintf_length. unfold int_max in *. rewrite length_app in Ht.
  destruct (Z.ltb_spec (2 ^ 31 - 1) (Z.of_nat (length s))); [lia |]. rewrite !(size_t_small (Z.of_nat _)) by lia.
  unfold vsnprintf. rewrite size_t_small by lia. destruct (Z.eqb_spec (Z.of_nat (length s) + 1) 0); [lia |].
  by rewrite Z.add_simpl_r, Nat2Z.id, firstn_all.
Qed.

(** A sequence of texts, put or formatted. *)
Inductive text_op := TPut (s : bytes) | TPrintf (s : bytes).
Definition op_text (o : text_op) : bytes := match o with TPut s | TPrintf s => s end.
Definition run_text (can : Z -> bool) (b : Buf) (o : text_op) : outcome Buf :=
  match o with TPut s => buf_put can b s | TPrintf s => buf_printf can b s end.
Definition op_ok (o : text_op) : Prop := match o with TPut _ => True | TPrintf s => Z.of_nat (length s) <= int_max end.
Fixpoint run_texts (can : Z -> bool) (b : Buf) (os : list text_op) : outcome Buf :=
  match os with [] => Built b | o :: os => let+ b := run_text can b o in run_texts can b os end.

Lemma text_spec can b t o total : holds b t -> op_ok o -> Z.of_nat (length (t ++ op_text o)) <= total -> total + 1 < 2 ^ 63 ->
  ends can (2 * (total + 1)) (fun b' => holds b' (t ++ op_text o) /\ terminated (buf_p b') (t ++ op_text o)) (run_text can b o).
Proof.
  intros Hb Ho Ht Hl. destruct o as [s | s]; cbn [run_text op_text] in *; [by apply buf_put_spec |].
  rewrite (printf_put can b t s) by (done || lia). by apply buf_put_spec.
Qed.

Lemma texts_spec can os : forall b t total, holds b t -> terminated (buf_p b) t -> Forall op_ok os ->
  Z.of_nat (length (t ++ concat (map op_text os))) <= total -> total + 1 < 2 ^ 63 ->
  ends can (2 * (total + 1)) (fun b' => holds b' (t ++ concat (map op_text os)) /\ terminated (buf_p b') (t ++ concat (map op_text os)))
    (run_texts can b os).
Proof.
  induction os as [| o os IH]; intros b t total Hb Hz Hos Ht Hl; cbn [map concat run_texts] in *; [by rewrite app_nil_r |].
  apply Forall_cons_1 in Hos as [Ho Hos]. rewrite !app_assoc in *. eapply ends_bind; [apply (text_spec can b t o total); [done | done | | done] |].
  - rewrite (length_app (t ++ op_text o)) in Ht. lia.
  - intros b1 [Hb1 Hz1]. by apply IH.
Qed.

(** ** [read_file] *)

Lemma read_loop_spec can pieces : forall b t total, holds b t -> Forall (fun c => c <> []) pieces ->
  Z.of_nat (length (t ++ concat pieces)) <= total -> total + 1 < 2 ^ 63 ->
  ends can (2 * (total + 1)) (fun b' => holds b' (t ++ concat pieces)) (read_loop can pieces b).
Proof.
  induction pieces as [| c cs IH]; intros b t total Hb Hne Ht Hl; cbn [concat] in *; [by rewrite app_nil_r |].
  apply Forall_cons_1 in Hne as [Hc Hne]. rewrite app_assoc in *. cbn [read_loop]. destruct c as [| a c]; [done |].
  revert Hc Ht. generalize (a :: c). clear a c. intros c Hc Ht. rewrite (length_app (t ++ c)), length_app in Ht.
  eapply ends_bind; [apply (room_spec can b t _ total); [done | lia | lia | lia] |]. intros b1 (Hb1 & El & Hr).
  pose proof Hb1 as (El1 & Ec1 & _ & _). eapply ends_bind; [apply (store_spec can _ b1 t c); [done | lia] |].
  intros q [Hq Hk]. apply IH; [| done | rewrite !length_app; lia | done]. unfold holds. cbn [buf_len buf_cap buf_p].
  rewrite size_t_small by lia. split; [rewrite length_app; lia |]. split; [lia |]. split; [done | lia].
Qed.

Lemma read_file_spec can pieces total : Forall (fun c => c <> []) pieces -> Z.of_nat (length (concat pieces)) <= total -> total + 1 < 2 ^ 63 ->
  ends can (2 * (total + 1)) (fun '(p, len) => len = Z.of_nat (length (concat pieces)) /\ terminated p (concat pieces))
    (read_file can (Some pieces)).
Proof.
  intros Hne Ht Hl. assert (holds empty_buf []) as H0 by (split; [done |]; split; [done |]; split; [done | by right]).
  cbn [read_file]. eapply ends_bind; [apply (read_loop_spec can pieces empty_buf [] total); done |]. cbn [app].
  intros b Hb. pose proof Hb as (El & Ec & Et & Hr). unfold terminated.
  destruct (buf_p b) as [| c q] eqn:Ep.
  - cbn [length] in Ec. destruct Hr as [Hr | ->]; [lia |]. assert (concat pieces = []) as -> by (cbn in El; destruct (concat pieces); [done | cbn in El; lia]).
    cbn [obind]. unfold xmalloc. cbn [Z.eqb]. destruct (can 1) eqn:E1; [done | exists 1; split; [lia | done]].
  - rewrite <- Ep in *. cbn [obind]. destruct Hr as [Hr | ->]; [| done].
    eapply ends_bind; [apply (store_spec can _ b (concat pieces) [NUL]); [split; [done |]; split; [done |]; split; [done | by left] |]; cbn; lia |].
    intros p [_ Hk]. rewrite length_app in Hk. done.
Qed.

(** ** [Vec] *)

Definition vec_holds {A} (init : Z) (v : Vec A) (xs : list A) : Prop :=
  vec_n v = Z.of_nat (length xs) /\ vec_cap v = Z.of_nat (length (vec_p v)) /\ take (length xs) (vec_p v) = map Some xs /\
  vec_n v <= vec_cap v <= Z.max init (2 * vec_n v) /\ (vec_cap v = 0 \/ exists k, 0 <= k /\ vec_cap v = 2 ^ k).

(** A power of two that is below 2^30 doubles within it. *)
Lemma power_doubles k b : 0 <= k -> 0 <= b -> 2 ^ k < 2 ^ b -> 2 ^ k * 2 <= 2 ^ b.
Proof.
  intros Hk Hb H. apply Z.pow_lt_mono_r_iff in H; [| lia | lia]. replace (2 ^ k * 2) with (2 ^ (k + 1)) by (rewrite Z.pow_add_r; lia).
  apply Z.pow_le_mono_r; lia.
Qed.

(** The new capacity of a full array. *)
Lemma grown_cap init cap j : 0 <= j <= 30 -> init = 2 ^ j -> 0 <= cap < 2 ^ 30 -> (cap = 0 \/ exists k, 0 <= k /\ cap = 2 ^ k) ->
  let cap' := if cap =? 0 then init else cap * 2 in
  cap < cap' <= 2 ^ 30 /\ cap' <= Z.max init (2 * (cap + 1)) /\ exists k, 0 <= k /\ cap' = 2 ^ k.
Proof.
  intros Hj -> Hc Hk. cbn zeta. destruct (Z.eqb_spec cap 0) as [-> | Hne].
  - pose proof (Z.pow_pos_nonneg 2 j). pose proof (Z.pow_le_mono_r 2 j 30). split; [lia |]. split; [lia |]. exists j. lia.
  - destruct Hk as [? | (k & Hk & ->)]; [lia |]. pose proof (power_doubles k 30 Hk ltac:(lia) (proj2 Hc)).
    split; [lia |]. split; [lia |]. exists (k + 1). split; [lia |]. rewrite Z.pow_add_r; lia.
Qed.

Lemma push_spec {A} can init size j (v : Vec A) xs x total : 0 <= j <= 30 -> init = 2 ^ j -> 0 < size <= 2 ^ 10 -> vec_holds init v xs ->
  Z.of_nat (length xs) < total -> total <= 2 ^ 30 ->
  ends can (Z.max init (2 * total) * size) (fun v' => vec_holds init v' (xs ++ [x])) (push can init size v x).
Proof.
  intros Hj Hi Hs (En & Ec & Et & Hle & Hk) Ht Hm. unfold push.
  eapply (ends_bind _ _ (fun v' => vec_n v' = vec_n v /\ vec_cap v' = Z.of_nat (length (vec_p v')) /\ take (length xs) (vec_p v') = map Some xs /\
    vec_n v < vec_cap v' <= Z.max init (2 * (vec_n v + 1)) /\ exists k, 0 <= k /\ vec_cap v' = 2 ^ k)).
  - destruct (Z.eqb_spec (vec_n v) (vec_cap v)) as [E | Hne].
    2:{ cbn. destruct Hk as [? | Hk]; [lia |]. split; [done |]. split; [done |]. split; [done |]. split; [lia | done]. }
    pose proof (grown_cap init (vec_cap v) j Hj Hi ltac:(lia) Hk) as (Hb & Hb' & Hp). revert Hb Hb' Hp.
    generalize (if vec_cap v =? 0 then init else vec_cap v * 2). intros cap Hb Hb' Hp. unfold int_max.
    destruct (Z.ltb_spec (2 ^ 31 - 1) cap); [lia |]. rewrite size_t_small by nia.
    eapply ends_bind; [eapply ends_weaken; [apply xrealloc_spec; lia | nia | intros q Hq; exact Hq] |].
    intros q [Hq Hq']. cbn. split; [done |]. split; [done |]. split; [| split; [lia | done]].
    rewrite <- Et, <- Hq' at 1. rewrite take_take. f_equal. lia.
  - intros v1 (E1 & E2 & E3 & E4 & E5). rewrite E1, En.
    eapply ends_bind; [apply (copy_spec can _ (vec_p v1) (length xs) [x]); cbn; lia |]. intros q [Hq Hq'].
    unfold int_max. destruct (Z.ltb_spec (2 ^ 31 - 1) (Z.of_nat (length xs) + 1)); [lia |]. cbn.
    unfold vec_holds. cbn [vec_n vec_p vec_cap]. rewrite length_app, map_app, Hq', E3. cbn [length].
    split; [lia |]. split; [lia |]. split; [done |]. split; [lia | by right].
Qed.

Fixpoint pushes {A} (can : Z -> bool) (init size : Z) (v : Vec A) (xs : list A) : outcome (Vec A) :=
  match xs with [] => Built v | x :: xs => let+ v := push can init size v x in pushes can init size v xs end.

Lemma pushes_spec {A} can init size j (xs : list A) : 0 <= j <= 30 -> init = 2 ^ j -> 0 < size <= 2 ^ 10 -> forall v ys total, vec_holds init v ys ->
  Z.of_nat (length (ys ++ xs)) <= total -> total <= 2 ^ 30 ->
  ends can (Z.max init (2 * total) * size) (fun v' => vec_holds init v' (ys ++ xs)) (pushes can init size v xs).
Proof.
  intros Hj Hi Hs. induction xs as [| x xs IH]; intros v ys total Hv Ht Hm; cbn [pushes]; [by rewrite app_nil_r |].
  rewrite length_app in Ht. cbn [length] in Ht.
  eapply ends_bind; [apply (push_spec can init size j v ys x total); try done; lia |]. intros v1 Hv1.
  rewrite (cons_middle x ys xs), app_assoc in *. apply IH; [done | | done]. rewrite !length_app. cbn. lia.
Qed.

(** C15: the buffers of pasboot hold what is put into them, within the sizes their
    counters have. For any allocator: (1) any sequence of [buf_put] and [buf_printf], each
    formatted text no longer than an [int] counts and all together shorter than 2^63 - 1,
    leaves the texts one after another with a NUL behind them, (2) [read_file] gives the
    bytes of a file shorter than 2^63 - 1 with a NUL behind them, and (3) the arrays of
    [vec_push] and [push_tok] keep up to 2^30 elements in order (the next one overflows
    the [int] capacity: [push_overflow]). Within these sizes no step stores outside its
    block and no capacity overflows; the only other end is the message "out of memory",
    when no block is had of some size up to twice what is held. *)
Theorem buffers_exact {A} can (os : list text_op) (pieces : list bytes) (xs : list A) total :
  Forall op_ok os -> os <> [] -> Forall (fun c => c <> []) pieces ->
  Z.of_nat (length (concat (map op_text os))) <= total -> Z.of_nat (length (concat pieces)) <= total -> total + 1 < 2 ^ 63 ->
  Z.of_nat (length xs) <= 2 ^ 30 ->
  ends can (2 * (total + 1)) (fun b => terminated (buf_p b) (concat (map op_text os)) /\ buf_len b < buf_cap b) (run_texts can empty_buf os) /\
  ends can (2 * (total + 1)) (fun '(p, len) => len = Z.of_nat (length (concat pieces)) /\ terminated p (concat pieces))
    (read_file can (Some pieces)) /\
  forall init size, (init, size) ∈ [(8, 8); (4096, 72)] ->
    ends can (Z.max init (2 * Z.of_nat (length xs)) * size)
      (fun v => vec_n v = Z.of_nat (length xs) /\ take (length xs) (vec_p v) = map Some xs) (pushes can init size empty_vec xs).
Proof.
  intros Hos Hne Hp Ho Hf Ht Hx. split; [| split; [by apply read_file_spec |]].
  - destruct os as [| o os]; [done |]. apply Forall_cons_1 in Hos as [Ho1 Hos]. cbn [run_texts map concat] in *.
    assert (holds empty_buf []) as H0 by (split; [done |]; split; [done |]; split; [done | by right]). rewrite length_app in Ho.
    eapply ends_bind; [apply (text_spec can empty_buf [] o total); [done | done | cbn [app]; lia | done] |].
    intros b [Hb Hz]. eapply ends_weaken; [apply (texts_spec can os b ([] ++ op_text o) total); [done | done | done | | done] | reflexivity |].
    + cbn [app]. rewrite length_app. lia.
    + intros b' [(El & Ec & _ & Hr) Hz']. split; [done |]. destruct Hr as [? | ->]; [done |].
      exfalso. unfold terminated in Hz'. cbn [buf_p empty_buf] in Hz'. rewrite take_nil, map_app in Hz'. by destruct (map _ _) in Hz'.
  - intros init size Hin%list_elem_of_In. cbn [In] in Hin.
    assert (vec_holds (A:=A) init empty_vec []) as H0.
    { split; [done |]. split; [done |]. split; [done |]. cbn. split; [| by left]. destruct Hin as [ [= <- <-] | [ [= <- <-] | []]]; lia. }
    assert (exists j, 0 <= j <= 30 /\ init = 2 ^ j /\ 0 < size <= 2 ^ 10) as (j & Hj & Hi & Hs).
    { destruct Hin as [ [= <- <-] | [ [= <- <-] | []]]; [exists 3 | exists 12]; lia. }
    eapply ends_weaken; [apply (pushes_spec can init size j xs Hj Hi Hs empty_vec [] (Z.of_nat (length xs))); [done | cbn [app]; lia | lia] | reflexivity |].
    intros v (H1 & _ & H2 & _). done.
Qed.

Lemma buffers_exact_witness :
  ends (fun n => n <? 100) 100 (fun b => terminated (buf_p b) (chars "int x;") /\ buf_len b < buf_cap b)
    (run_texts (fun n => n <? 100) empty_buf [TPut (chars "int "); TPrintf (chars "x;")]).
Proof.
  destruct (buffers_exact (fun n => n <? 100) [TPut (chars "int "); TPrintf (chars "x;")] [chars "ab"; chars "c"] [1; 2; 3] 6) as (H & _ & _);
    [repeat constructor; cbn; unfold int_max; lia | done | repeat constructor; done | cbn; lia | cbn; lia | lia | cbn; lia |].
  eapply ends_weaken; [exact H | lia | done].
Defined.

(** The first 2^30 elements fit; the capacity of the next would not be an [int]. *)
Lemma push_overflow : push (fun _ => true) 8 8 (mkVec (A:=unit) [] (2 ^ 30) (2 ^ 30)) tt = IntOverflow.
Proof. reflexivity. Qed.
