(* ===== verification/CPrelude.v ===== *)
(** The run-time helpers of every generated program, bootstrap/prelude.h, and the
    FOR loop the emitter writes around them. Integers are kept at their width:
    each operation is the C one on the unsigned type the macro names, converted
    back. *)

From Stdlib Require Import ZArith Ascii String SpecFloat Lia.
From stdpp Require Import base list strings.
From S2P Require Import Prelude.
#[local] Open Scope Z_scope.

(** * Integer arithmetic *)

Module Arith.

(** The unsigned type of [PAS_INT_OPS(W, U)], by its width. *)
Definition uwidth (w : Z) : Z := if w =? 64 then 64 else 32.

Definition pas_add (w a b : Z) : Z := swrap w (uwrap (uwidth w) (uwrap (uwidth w) a + uwrap (uwidth w) b)).
Definition pas_sub (w a b : Z) : Z := swrap w (uwrap (uwidth w) (uwrap (uwidth w) a - uwrap (uwidth w) b)).
Definition pas_mul (w a b : Z) : Z := swrap w (uwrap (uwidth w) (uwrap (uwidth w) a * uwrap (uwidth w) b)).
Definition pas_neg (w a : Z) : Z := swrap w (uwrap (uwidth w) (0 - uwrap (uwidth w) a)).

Definition pas_div_zero {A} (is_mod : bool) (left : Z) (file : string) (line : Z) : res A :=
  Err (RtAbort ("runtime error: division by zero in " +:+ (if is_mod then "MOD" else "DIV") +:+ " at " +:+ file
                +:+ " line " +:+ Zs line +:+ " (left=" +:+ Zs left +:+ ", right=0)" +:+ nl)).

Definition pas_div (w a b : Z) (f : string) (l : Z) : res Z :=
  if b =? 0 then pas_div_zero false a f l
  else if b =? -1 then Ok (pas_neg w a)
  else Ok (swrap w (Z.quot a b)).

Definition pas_mod (w a b : Z) (f : string) (l : Z) : res Z :=
  if b =? 0 then pas_div_zero true a f l
  else if b =? -1 then Ok 0
  else Ok (swrap w (Z.rem a b)).

(** The widths the macro is instantiated at. *)
Definition op_width (w : Z) : Prop := w = 8 \/ w = 16 \/ w = 32 \/ w = 64.

Lemma op_width_cases w : op_width w -> 0 < w /\ exists k, 0 <= k /\ uwidth w = w + k.
Proof.
  intros [-> | [-> | [-> | ->]]]; (split; [lia |]); [exists 24 | exists 16 | exists 0 | exists 0]; done.
Qed.

(** Reduction at the wider unsigned type does not change the low bits. *)
Lemma swrap_uwrap w z : op_width w -> swrap w (uwrap (uwidth w) z) = swrap w z.
Proof.
  intros Hw. destruct (op_width_cases w Hw) as (Hpos & k & Hk & E).
  unfold uwrap. pose proof (Z.div_mod z (2 ^ uwidth w) ltac:(apply Z.pow_nonzero; lia)) as Hd.
  replace (z `mod` 2 ^ uwidth w) with (z + (- (2 ^ k * (z / 2 ^ uwidth w))) * 2 ^ w).
  - apply swrap_add_mul. done.
  - rewrite E in *. rewrite Z.pow_add_r in * by lia. lia.
Qed.

Lemma uwrap_form u z : 0 <= u -> exists q, uwrap u z = z + q * 2 ^ u.
Proof.
  intros H. unfold uwrap. exists (- (z / 2 ^ u)).
  pose proof (Z.div_mod z (2 ^ u) ltac:(apply Z.pow_nonzero; lia)). lia.
Qed.

Lemma uwidth_nonneg w : 0 <= uwidth w.
Proof. unfold uwidth. by destruct (w =? 64). Qed.

(** Congruent arguments of [swrap] at the operation's unsigned width. *)
Lemma swrap_shift w z q : op_width w -> swrap w (z + q * 2 ^ uwidth w) = swrap w z.
Proof.
  intros Hw. destruct (op_width_cases w Hw) as (Hpos & k & Hk & ->).
  rewrite Z.pow_add_r by lia. replace (q * (2 ^ w * 2 ^ k)) with (q * 2 ^ k * 2 ^ w) by lia.
  by apply swrap_add_mul.
Qed.

Lemma pas_add_eq w a b : op_width w -> pas_add w a b = swrap w (a + b).
Proof.
  intros Hw. unfold pas_add. rewrite swrap_uwrap by done.
  destruct (uwrap_form (uwidth w) a (uwidth_nonneg w)) as [qa ->].
  destruct (uwrap_form (uwidth w) b (uwidth_nonneg w)) as [qb ->].
  rewrite <- (swrap_shift w (a + b) (qa + qb)) by done. f_equal. lia.
Qed.

Lemma pas_sub_eq w a b : op_width w -> pas_sub w a b = swrap w (a - b).
Proof.
  intros Hw. unfold pas_sub. rewrite swrap_uwrap by done.
  destruct (uwrap_form (uwidth w) a (uwidth_nonneg w)) as [qa ->].
  destruct (uwrap_form (uwidth w) b (uwidth_nonneg w)) as [qb ->].
  rewrite <- (swrap_shift w (a - b) (qa - qb)) by done. f_equal. lia.
Qed.

Lemma pas_mul_eq w a b : op_width w -> pas_mul w a b = swrap w (a * b).
Proof.
  intros Hw. unfold pas_mul. rewrite swrap_uwrap by done.
  destruct (uwrap_form (uwidth w) a (uwidth_nonneg w)) as [qa ->].
  destruct (uwrap_form (uwidth w) b (uwidth_nonneg w)) as [qb ->].
  rewrite <- (swrap_shift w (a * b) (a * qb + qa * b + qa * qb * 2 ^ uwidth w)) by done. f_equal. ring.
Qed.

Lemma pas_neg_eq w a : op_width w -> pas_neg w a = swrap w (- a).
Proof.
  intros Hw. unfold pas_neg. rewrite swrap_uwrap by done.
  destruct (uwrap_form (uwidth w) a (uwidth_nonneg w)) as [qa ->].
  rewrite <- (swrap_shift w (- a) (- qa)) by done. f_equal. lia.
Qed.

(** A quotient of two values of a width stays in it, but for [MIN / -1]. *)
Lemma quot_in_range w a b :
  0 < w -> in_srange w a -> b <> 0 -> b <> -1 -> in_srange w (Z.quot a b).
Proof.
  unfold in_srange. intros Hw Ha Hb Hb1.
  assert (0 < 2 ^ (w - 1)) by (apply Z.pow_pos_nonneg; lia).
  assert (Z.abs (Z.quot a b) <= Z.abs a) as Habs.
  { rewrite <- Z.quot_abs by done. apply Z.quot_le_upper_bound; [lia |]. nia. }
  destruct (Z.eq_dec a (- 2 ^ (w - 1))) as [-> | Hne]; [| lia].
  destruct (Z.eq_dec b 1) as [-> | Hb2]; [rewrite Z.quot_1_r; lia |].
  assert (Z.abs (Z.quot (- 2 ^ (w - 1)) b) < 2 ^ (w - 1)); [| lia].
  rewrite <- Z.quot_abs by done. rewrite Z.abs_opp, (Z.abs_eq (2 ^ (w - 1))) by lia.
  apply Z.quot_lt_upper_bound; [lia | lia |]. nia.
Qed.

Lemma rem_in_range w a b : 0 < w -> in_srange w a -> b <> 0 -> in_srange w (Z.rem a b).
Proof.
  unfold in_srange. intros Hw Ha Hb.
  assert (0 < 2 ^ (w - 1)) by (apply Z.pow_pos_nonneg; lia).
  pose proof (Z.quot_rem a b Hb).
  destruct (Z.le_gt_cases 0 a).
  - pose proof (Z.rem_nonneg a b Hb ltac:(lia)).
    assert (Z.rem a b <= a) by (rewrite <- Z.rem_abs_r by done; apply Z.rem_le; lia). lia.
  - pose proof (Z.rem_nonpos a b Hb ltac:(lia)).
    assert (Z.rem (- a) b <= - a) by (rewrite <- Z.rem_abs_r by done; apply Z.rem_le; lia).
    rewrite Z.rem_opp_l in * by done. lia.
Qed.

(** the sum, difference, product and negation of the prelude at each width
    are the exact results reduced to two's complement of that width, and are the
    exact results themselves whenever those fit. *)
Theorem pas_arith_wraps w a b (Hw : op_width w) (Ha : in_srange w a) (Hb : in_srange w b) :
  (pas_add w a b = swrap w (a + b) /\ pas_sub w a b = swrap w (a - b) /\
   pas_mul w a b = swrap w (a * b) /\ pas_neg w a = swrap w (- a)) /\
  (in_srange w (a + b) -> pas_add w a b = a + b) /\
  (in_srange w (a - b) -> pas_sub w a b = a - b) /\
  (in_srange w (a * b) -> pas_mul w a b = a * b) /\
  (in_srange w (- a) -> pas_neg w a = - a).
Proof.
  destruct (op_width_cases w Hw) as (Hpos & _).
  rewrite pas_add_eq, pas_sub_eq, pas_mul_eq, pas_neg_eq by done.
  repeat split; intros; by apply swrap_small.
Qed.

Lemma pas_arith_wraps_witness :
  pas_add 16 32767 1 = -32768 /\ pas_mul 16 (-32768) (-1) = -32768 /\ pas_neg 16 (-32768) = -32768.
Proof.
  destruct (pas_arith_wraps 16 32767 1) as ((-> & _) & _);
    [right; left; reflexivity | srange | srange |].
  destruct (pas_arith_wraps 16 (-32768) (-1)) as ((_ & _ & -> & ->) & _);
    [right; left; reflexivity | srange | srange |].
  repeat split; reflexivity.
Defined.

(** DIV and MOD of the prelude. A zero divisor aborts with the located
    message and left operand; otherwise both return, truncating toward zero with
    the remainder's sign that of the dividend, and the two recompose the
    dividend, except that [MIN DIV -1] wraps to [MIN] (with remainder 0). *)
Theorem pas_divmod_spec w a b f l (Hw : op_width w) (Ha : in_srange w a) (Hb : in_srange w b) :
  (b = 0 -> pas_div w a b f l = pas_div_zero false a f l /\ pas_mod w a b f l = pas_div_zero true a f l) /\
  (b <> 0 -> exists q r, pas_div w a b f l = Ok q /\ pas_mod w a b f l = Ok r /\
     in_srange w q /\ in_srange w r /\ r = Z.rem a b /\
     (if bool_decide (a = - 2 ^ (w - 1) /\ b = -1) then q = a else q = Z.quot a b /\ a = q * b + r)).
Proof.
  destruct (op_width_cases w Hw) as (Hpos & _).
  assert (Hp : 0 < 2 ^ (w - 1)) by (apply Z.pow_pos_nonneg; lia).
  split.
  - intros ->. done.
  - intros Hnz. unfold pas_div, pas_mod. rewrite (proj2 (Z.eqb_neq b 0)) by done.
    pose proof (Z.quot_rem a b Hnz) as Hqr.
    destruct (Z.eqb_spec b (-1)) as [-> | Hb1].
    + exists (pas_neg w a), 0. rewrite pas_neg_eq by done.
      assert (Z.rem a (-1) = 0) as Hr by (rewrite <- Z.rem_abs_r by done; apply Z.rem_1_r).
      split_and!; try done; try (unfold in_srange; lia).
      * by apply swrap_range.
      * case_bool_decide as Hc.
        -- destruct Hc as [-> _]. rewrite Z.opp_involutive. unfold swrap.
           replace (2 ^ (w - 1) + 2 ^ (w - 1)) with (2 ^ w) by (rewrite (pow2_half w) by done; lia).
           rewrite Z.mod_same by (apply Z.pow_nonzero; lia). lia.
        -- assert (in_srange w (- a)) as Hn.
           { unfold in_srange in *. assert (a <> - 2 ^ (w - 1)) by naive_solver. lia. }
           rewrite swrap_small by done. lia.
    + exists (swrap w (Z.quot a b)), (swrap w (Z.rem a b)).
      pose proof (quot_in_range w a b Hpos Ha Hnz Hb1). pose proof (rem_in_range w a b Hpos Ha Hnz).
      rewrite !swrap_small by done. split_and!; try done.
      rewrite bool_decide_false by naive_solver. lia.
Qed.

Lemma pas_divmod_spec_witness :
  pas_div 16 (-32768) (-1) "f.pas" 3 = Ok (-32768) /\ pas_mod 16 (-7) 2 "f.pas" 3 = Ok (-1) /\
  pas_div 16 5 0 "f.pas" 3 = pas_div_zero false 5 "f.pas" 3.
Proof.
  assert (op_width 16) as Hw by (right; left; reflexivity).
  destruct (proj2 (pas_divmod_spec 16 (-32768) (-1) "f.pas" 3 Hw
    ltac:(srange) ltac:(srange)) ltac:(discriminate))
    as (q & r & -> & _ & _ & _ & _ & Hq).
  destruct (proj2 (pas_divmod_spec 16 (-7) 2 "f.pas" 3 Hw
    ltac:(srange) ltac:(srange)) ltac:(discriminate))
    as (q' & r' & _ & -> & _ & _ & -> & _).
  destruct (proj1 (pas_divmod_spec 16 5 0 "f.pas" 3 Hw
    ltac:(srange) ltac:(srange)) eq_refl) as [-> _].
  rewrite bool_decide_true in Hq by done. subst q. repeat split; reflexivity.
Defined.
End Arith.

(** * LSTRINGs: the length in byte 0, the characters after it *)

Module Lstring.

(** The characters of a buffer that holds at least as many as its length byte says. *)
Definition content (d : bytes) : option bytes :=
  match d with
  | n :: s => if (Z.to_nat (code n) <=? length s)%nat then Some (take (Z.to_nat (code n)) s) else None
  | [] => None
  end.

(** [memcmp]: the sign of the first difference, as unsigned bytes. *)
Fixpoint memcmp (a b : bytes) (n : nat) : Z :=
  match n, a, b with
  | S n', x :: a', y :: b' =>
      if code x =? code y then memcmp a' b' n' else if code x <? code y then -1 else 1
  | _, _, _ => 0
  end.

Definition pas_scmp (a b : bytes) : res Z :=
  match content a, content b with
  | Some ca, Some cb =>
      let la := Z.of_nat (length ca) in
      let lb := Z.of_nat (length cb) in
      let c := memcmp ca cb (Z.to_nat (if la <? lb then la else lb)) in
      Ok (if negb (c =? 0) then if c <? 0 then -1 else 1
          else if la <? lb then -1 else if lb <? la then 1 else 0)
  | _, _ => Err (Undef "LSTRING shorter than its length byte")
  end.

(** [memmove(d + at, s, length s)] *)
Definition write_at (d : bytes) (at_ : nat) (s : bytes) : res bytes :=
  if (at_ + length s <=? length d)%nat then Ok (take at_ d ++ s ++ drop (at_ + length s) d)
  else Err (Undef "write past the end of an LSTRING").

Definition concat_overflow : string :=
  "runtime error: CONCAT overflows its destination string" +:+ nl.

(** [pas_concat(d, cap, s)]: the new bytes of [d]. *)
Definition pas_concat (d : bytes) (cap : Z) (s : bytes) : res bytes :=
  match d, content s with
  | n :: _, Some cs =>
      let ld := code n in
      let ls := Z.of_nat (length cs) in
      if cap <? ld + ls then Err (RtAbort concat_overflow)
      else
        let! d' := write_at d (Z.to_nat (1 + ld)) cs in
        Ok (<[0%nat := chr (uwrap 8 (ld + ls))]> d')
  | _, _ => Err (Undef "LSTRING shorter than its length byte")
  end.

(** WRITE of a string and of a character; [out] is what was written to stdout before. *)
Definition pas_wr_str (s out : bytes) : res bytes :=
  match content s with
  | Some cs => Ok (out ++ cs)
  | None => Err (Undef "LSTRING shorter than its length byte")
  end.
Definition pas_wr_ch (c : ascii) (out : bytes) : bytes := out ++ [c].

(** An LSTRING variable of capacity [cap]: [cap + 1] bytes, a length within the capacity. *)
Definition wf (cap : Z) (d : bytes) : Prop :=
  0 <= cap <= 255 /\ Z.of_nat (length d) = cap + 1 /\
  exists n s, d = n :: s /\ code n <= cap.

Lemma content_length d c : content d = Some c -> exists n s, d = n :: s /\ Z.of_nat (length c) = code n.
Proof.
  destruct d as [|n s]; simpl; [done |]. destruct (Nat.leb_spec (Z.to_nat (code n)) (length s)); [| done].
  intros [= <-]. exists n, s. split; [done |]. rewrite length_take_le by done.
  pose proof (code_range n). lia.
Qed.

Lemma wf_content cap d : wf cap d -> exists c, content d = Some c.
Proof.
  intros (Hcap & Hlen & n & s & -> & Hn). simpl in *.
  pose proof (code_range n). destruct (Nat.leb_spec (Z.to_nat (code n)) (length s)); [eauto | lia].
Qed.

(** ** The order [pas_scmp] decides: lexicographic on unsigned bytes *)

Fixpoint lex_compare (a b : bytes) : comparison :=
  match a, b with
  | [], [] => Eq
  | [], _ => Lt
  | _, [] => Gt
  | x :: a', y :: b' => match code x ?= code y with Eq => lex_compare a' b' | c => c end
  end.

Definition sign (c : comparison) : Z := match c with Lt => -1 | Eq => 0 | Gt => 1 end.

Lemma memcmp_lex a : forall b,
  sign (lex_compare a b) =
    (let c := memcmp a b (Nat.min (length a) (length b)) in
     if negb (c =? 0) then if c <? 0 then -1 else 1
     else if Z.of_nat (length a) <? Z.of_nat (length b) then -1
     else if Z.of_nat (length b) <? Z.of_nat (length a) then 1 else 0).
Proof.
  induction a as [|x a IH]; intros [|y b]; try done. cbn [lex_compare length Nat.min memcmp].
  destruct (Z.compare_spec (code x) (code y)) as [E | E | E].
  - rewrite E, Z.eqb_refl, IH, !Nat2Z.inj_succ. cbv zeta.
    destruct (negb _); [done |].
    destruct (Z.ltb_spec (Z.of_nat (length a)) (Z.of_nat (length b))),
      (Z.ltb_spec (Z.succ (Z.of_nat (length a))) (Z.succ (Z.of_nat (length b)))); try lia.
    destruct (Z.ltb_spec (Z.of_nat (length b)) (Z.of_nat (length a))),
      (Z.ltb_spec (Z.succ (Z.of_nat (length b))) (Z.succ (Z.of_nat (length a)))); lia.
  - rewrite (proj2 (Z.eqb_neq (code x) (code y))), (proj2 (Z.ltb_lt (code x) (code y))) by lia. done.
  - rewrite (proj2 (Z.eqb_neq (code x) (code y))), (proj2 (Z.ltb_ge (code x) (code y))) by lia. done.
Qed.

Lemma lex_compare_eq a : forall b, lex_compare a b = Eq <-> a = b.
Proof.
  induction a as [|x a IH]; intros [|y b]; simpl; try done.
  destruct (Z.compare_spec (code x) (code y)) as [E | E | E]; (split; [intros H | intros [= -> ->]]); try done; try lia.
  - apply code_inj in E. apply IH in H. by subst.
  - by apply IH.
Qed.

Lemma lex_compare_antisym a : forall b, lex_compare b a = CompOpp (lex_compare a b).
Proof.
  induction a as [|x a IH]; intros [|y b]; simpl; try done.
  rewrite (Z.compare_antisym (code x) (code y)). destruct (code x ?= code y); simpl; auto.
Qed.

Lemma lex_compare_trans a : forall b c, lex_compare a b = Lt -> lex_compare b c = Lt -> lex_compare a c = Lt.
Proof.
  induction a as [|x a IH]; intros [|y b] [|z c]; simpl; try done.
  destruct (Z.compare_spec (code x) (code y)), (Z.compare_spec (code y) (code z)),
    (Z.compare_spec (code x) (code z)); try done; try lia. apply IH.
Qed.

(** on two LSTRINGs whose buffers hold their characters, [pas_scmp] returns,
    and its sign is the lexicographic order of their contents as unsigned bytes
    (a proper prefix is smaller): 0 exactly on equal contents, opposite on
    swapped operands, and the strict order is transitive. *)
Theorem pas_scmp_order a b ca cb (Ha : content a = Some ca) (Hb : content b = Some cb) :
  pas_scmp a b = Ok (sign (lex_compare ca cb)) /\
  (pas_scmp a b = Ok 0 <-> ca = cb) /\
  (forall v, pas_scmp a b = Ok v -> pas_scmp b a = Ok (- v)) /\
  (forall c cc, content c = Some cc -> pas_scmp a b = Ok (-1) -> pas_scmp b c = Ok (-1) -> pas_scmp a c = Ok (-1)).
Proof.
  assert (Hs : forall x y cx cy, content x = Some cx -> content y = Some cy ->
                 pas_scmp x y = Ok (sign (lex_compare cx cy))).
  { intros x y cx cy Hx Hy. unfold pas_scmp. rewrite Hx, Hy, memcmp_lex.
    cbv zeta.
    replace (Z.to_nat (if Z.of_nat (length cx) <? Z.of_nat (length cy) then Z.of_nat (length cx) else Z.of_nat (length cy)))
      with (Nat.min (length cx) (length cy)); [done |].
    destruct (Z.ltb_spec (Z.of_nat (length cx)) (Z.of_nat (length cy))); lia. }
  pose proof (Hs _ _ _ _ Ha Hb) as E. split; [done |]. rewrite E. split_and!.
  - rewrite <- lex_compare_eq. destruct (lex_compare ca cb); naive_solver.
  - intros v [= <-]. rewrite (Hs _ _ _ _ Hb Ha), lex_compare_antisym. by destruct (lex_compare ca cb).
  - intros c cc Hc. rewrite (Hs _ _ _ _ Hb Hc), (Hs _ _ _ _ Ha Hc). intros H1 H2.
    rewrite (lex_compare_trans ca cb cc); [done | by destruct (lex_compare ca cb) | by destruct (lex_compare cb cc)].
Qed.

Lemma pas_scmp_order_witness :
  pas_scmp ["002"; "a"; "b"]%char ["003"; "a"; "b"; "c"]%char = Ok (-1).
Proof.
  destruct (pas_scmp_order ["002"; "a"; "b"]%char ["003"; "a"; "b"; "c"]%char
              ["a"; "b"]%char ["a"; "b"; "c"]%char eq_refl eq_refl) as (-> & _).
  reflexivity.
Defined.

(** CONCAT on an LSTRING variable [d] of capacity [cap]. If the joined length
    exceeds the capacity the program aborts; otherwise the call returns a
    well-formed variable of the same size whose content is the two contents
    joined, and no byte past the new length changes. *)
Theorem pas_concat_spec d cap s cd cs (Hd : wf cap d) (Hcd : content d = Some cd) (Hs : content s = Some cs) :
  (cap < Z.of_nat (length cd) + Z.of_nat (length cs) -> pas_concat d cap s = Err (RtAbort concat_overflow)) /\
  (Z.of_nat (length cd) + Z.of_nat (length cs) <= cap ->
   exists d', pas_concat d cap s = Ok d' /\ wf cap d' /\ content d' = Some (cd ++ cs) /\
     drop (1 + length cd + length cs)%nat d' = drop (1 + length cd + length cs)%nat d).
Proof.
  destruct Hd as (Hcap & Hlen & n & t & -> & Hn).
  destruct (content_length _ _ Hcd) as (n' & t' & [= <- <-] & Hcl).
  assert (cd = take (Z.to_nat (code n)) t) as Ecd.
  { simpl in Hcd. destruct (_ <=? _)%nat; naive_solver. }
  unfold pas_concat. rewrite Hs. pose proof (code_range n). simpl in Hlen. split.
  - intros Hov. rewrite (proj2 (Z.ltb_lt _ _)) by lia. done.
  - intros Hfit. rewrite (proj2 (Z.ltb_ge _ _)) by lia. unfold write_at.
    replace (Z.to_nat (1 + code n)) with (S (length cd)) by lia.
    rewrite (proj2 (Nat.leb_le _ _)) by (simpl; lia). cbn [rbind take drop insert list_insert app].
    set (len := (length cd + length cs)%nat).
    assert (length t = Z.to_nat cap) as Ht by lia.
    assert (Hc : code (chr (uwrap 8 (code n + Z.of_nat (length cs)))) = Z.of_nat len).
    { unfold uwrap. change (2 ^ 8) with 256. rewrite Z.mod_small, code_chr by (unfold len; lia).
      unfold len. lia. }
    assert (Htk : take (length cd) t = cd).
    { rewrite Ecd at 1. rewrite length_take_le by lia. subst cd. done. }
    eexists. split; [reflexivity |]. cbn [Nat.add drop]. rewrite Htk.
    assert (Hall : length (cd ++ cs ++ drop (length cd + length cs)%nat t) = length t).
    { rewrite !length_app, length_drop. lia. }
    split_and!.
    + split; [done |]. simpl. rewrite Hall. split; [lia |]. eexists _, _. split; [done |]. lia.
    + cbn [content]. rewrite Hc, Nat2Z.id, Hall. rewrite (proj2 (Nat.leb_le _ _)) by lia.
      rewrite app_assoc, take_app_length'; [done |]. by rewrite length_app.
    + rewrite app_assoc. rewrite drop_app_length'; [done |]. by rewrite length_app.
Qed.

Lemma pas_concat_spec_witness :
  (exists d', pas_concat ["001"; "x"; "?"; "?"]%char 3 ["002"; "y"; "z"]%char = Ok d' /\
     content d' = Some ["x"; "y"; "z"]%char) /\
  pas_concat ["001"; "x"; "?"; "?"]%char 3 ["003"; "y"; "z"; "w"]%char = Err (RtAbort concat_overflow).
Proof.
  assert (wf 3 ["001"; "x"; "?"; "?"]%char) as Hwf.
  { split; [lia |]. split; [reflexivity |]. exists "001"%char, ["x"; "?"; "?"]%char. split; [reflexivity |]. discriminate. }
  split.
  - destruct (proj2 (pas_concat_spec _ 3 ["002"; "y"; "z"]%char ["x"]%char ["y"; "z"]%char Hwf eq_refl eq_refl))
      as (d' & -> & _ & Hc & _); [discriminate |].
    exists d'. split; [reflexivity | exact Hc].
  - apply (proj1 (pas_concat_spec _ 3 ["003"; "y"; "z"; "w"]%char ["x"]%char ["y"; "z"; "w"]%char Hwf eq_refl eq_refl)).
    reflexivity.
Defined.
End Lstring.

(** * The FOR loop of the generated C *)

Module ForLoop.
Import Arith.

(** The emitted loop
    [for (; !done && v <= lim; done = v == lim, v = pas_add(v, 1))], or its
    DOWNTO form, on a control variable of width [w] that the body does not
    assign: the values the body sees, and the variable's value after the loop. *)
Fixpoint for_run (fuel : nat) (w : Z) (down : bool) (v lim : Z) (done : bool) : option (list Z * Z) :=
  match fuel with
  | O => None
  | S f =>
      if negb done && (if down then lim <=? v else v <=? lim) then
        match for_run f w down (if down then pas_sub w v 1 else pas_add w v 1) lim (v =? lim) with
        | Some (vs, final) => Some (v :: vs, final)
        | None => None
        end
      else Some ([], v)
  end.

(** One step in the loop's direction. *)
Definition dir (down : bool) : Z := if down then -1 else 1.
Definition next (w : Z) (down : bool) (v : Z) : Z := if down then pas_sub w v 1 else pas_add w v 1.
Definition trips (down : bool) (v lim : Z) : Z := Z.max 0 (dir down * (lim - v) + 1).

Lemma next_eq w down v : op_width w -> next w down v = swrap w (v + dir down).
Proof. intros Hw. unfold next, dir. destruct down; [by rewrite pas_sub_eq | by rewrite pas_add_eq]. Qed.

Lemma for_run_S f w down v lim : for_run (S f) w down v lim false =
  if 0 <? trips down v lim then
    match for_run f w down (next w down v) lim (v =? lim) with
    | Some (vs, final) => Some (v :: vs, final) | None => None end
  else Some ([], v).
Proof.
  cbn [for_run negb andb]. unfold trips, dir, next.
  destruct down.
  - destruct (Z.leb_spec lim v), (Z.ltb_spec 0 (Z.max 0 (-1 * (lim - v) + 1))); lia || done.
  - destruct (Z.leb_spec v lim), (Z.ltb_spec 0 (Z.max 0 (1 * (lim - v) + 1))); lia || done.
Qed.

Lemma for_run_trips w down lim n (Hw : op_width w) (Hl : in_srange w lim) : forall v,
  in_srange w v -> trips down v lim = Z.of_nat n ->
  for_run (S (S n)) w down v lim false =
    Some ((fun i => v + dir down * i) <$> seqZ 0 (trips down v lim),
          if 0 <? trips down v lim then swrap w (lim + dir down) else v).
Proof.
  destruct (op_width_cases w Hw) as (Hpos & _).
  induction n as [|n IH]; intros v Hv Hn; rewrite for_run_S, Hn.
  - done.
  - rewrite (proj2 (Z.ltb_lt 0 (Z.of_nat (S n)))) by lia.
    rewrite next_eq by done. rewrite Nat2Z.inj_succ, seqZ_cons by lia. cbn [fmap list_fmap].
    replace (v + dir down * 0) with v by lia.
    destruct (Z.eqb_spec v lim) as [-> | Hne].
    + assert (n = 0%nat) as -> by (unfold trips in Hn; destruct down; simpl in Hn; lia).
      cbn [for_run negb andb]. done.
    + assert (swrap w (v + dir down) = v + dir down) as E.
      { apply swrap_small; [done |]. unfold in_srange, trips, dir in *. destruct down; lia. }
      assert (Ht : trips down (v + dir down) lim = Z.of_nat n).
      { unfold trips, dir in *. destruct down; lia. }
      rewrite E, IH; [| rewrite <- E; by apply swrap_range | done].
      rewrite Ht. replace (Z.pred (Z.succ (Z.of_nat n))) with (Z.of_nat n) by lia.
      assert (n <> 0%nat) by (unfold trips, dir in *; destruct down; lia).
      rewrite (proj2 (Z.ltb_lt 0 (Z.of_nat n))) by lia. do 3 f_equal.
      rewrite <- (fmap_add_seqZ 1 0), <- list_fmap_compose. apply list_fmap_ext.
      intros i x _. simpl. lia.
Qed.

(** a FOR loop terminates at every limit of its width, the extreme ones
    included: its body runs once for each value from the start to the limit, in
    order (not at all when the start is past the limit), within the number of
    trips plus two tests, and after a loop that ran the control variable holds
    one step past the limit, wrapped at the width. *)
Theorem for_loop_terminates w down v lim
    (Hw : op_width w) (Hv : in_srange w v) (Hl : in_srange w lim) :
  for_run (S (S (Z.to_nat (trips down v lim)))) w down v lim false =
    Some ((fun i => v + dir down * i) <$> seqZ 0 (trips down v lim),
          if 0 <? trips down v lim then swrap w (lim + dir down) else v).
Proof. apply for_run_trips; [done | done | done |]. unfold trips. lia. Qed.

Lemma for_loop_terminates_witness :
  for_run 5 16 false 32765 32767 false = Some ([32765; 32766; 32767], -32768).
Proof.
  assert (op_width 16) as Hw by (right; left; reflexivity).
  exact (for_loop_terminates 16 false 32765 32767 Hw ltac:(srange) ltac:(srange)).
Defined.
End ForLoop.

(** * TRUNC *)

Module Trunc.

(** [v < z] and [z < v] for a double [v] and an integral double [z]. *)
Definition real_lt_Z (v : spec_float) (z : Z) : bool :=
  match v with
  | S754_zero _ => 0 <? z
  | S754_infinity s => s
  | S754_nan => false
  | S754_finite s m e =>
      let n := if s then Zneg m else Zpos m in
      if 0 <=? e then n * 2 ^ e <? z else n <? z * 2 ^ (- e)
  end.
Definition Z_lt_real (z : Z) (v : spec_float) : bool := real_lt_Z (SFopp v) (- z).

(** The conversion of a double to [int64_t], toward zero. *)
Definition real_trunc (v : spec_float) : Z :=
  match v with
  | S754_finite s m e =>
      let n := if s then Zneg m else Zpos m in
      if 0 <=? e then n * 2 ^ e else Z.quot n (2 ^ (- e))
  | _ => 0
  end.

Definition trunc_range (file : string) (line : Z) : string :=
  "runtime error: TRUNC argument out of range at " +:+ file +:+ " line " +:+ Zs line +:+ nl.

Definition pas_trunc16 (v : spec_float) (file : string) (line : Z) : res Z :=
  if negb (Z_lt_real (- 2 ^ 63) v && real_lt_Z v (2 ^ 63)) then Err (RtAbort (trunc_range file line))
  else Ok (swrap 16 (uwrap 16 (uwrap 64 (real_trunc v)))).

Lemma finite_abs_bound n e z :
  (if 0 <=? e then n * 2 ^ e <? z else n <? z * 2 ^ (- e)) = true -> 0 < z ->
  (if 0 <=? e then n * 2 ^ e else Z.quot n (2 ^ (- e))) < z.
Proof.
  destruct (Z.leb_spec 0 e) as [He | He]; rewrite Z.ltb_lt; intros Hn Hz; [done |].
  assert (0 < 2 ^ (- e)) by (apply Z.pow_pos_nonneg; lia).
  destruct (Z.le_gt_cases 0 n).
  - apply Z.quot_lt_upper_bound; lia.
  - assert (Z.quot n (2 ^ (- e)) <= 0) by (apply Z.opp_nonneg_nonpos; rewrite <- Z.quot_opp_l by lia; apply Z.quot_pos; lia).
    lia.
Qed.

(** Every accepted argument truncates into INTEGER64. *)
Lemma trunc_in_int64 v :
  Z_lt_real (- 2 ^ 63) v && real_lt_Z v (2 ^ 63) = true -> in_srange 64 (real_trunc v).
Proof.
  rewrite andb_true_iff. intros [H1 H2]. unfold Z_lt_real in H1. rewrite Z.opp_involutive in H1.
  destruct v as [s | s | | s m e]; simpl in H1, H2.
  - unfold in_srange. simpl. lia.
  - by destruct s.
  - done.
  - apply finite_abs_bound in H1; [| done]. apply finite_abs_bound in H2; [| done].
    unfold in_srange, real_trunc. change (2 ^ (64 - 1)) with (2 ^ 63).
    assert ((if negb s then Zneg m else Zpos m) = - (if s then Zneg m else Zpos m)) as Hn by by destruct s.
    rewrite Hn in H1. destruct (Z.leb_spec 0 e).
    + lia.
    + rewrite Z.quot_opp_l in H1 by (apply Z.pow_nonzero; lia). lia.
Qed.

(** TRUNC of a NaN, of an infinity or of a real not strictly between [-2^63]
    and [2^63] aborts; of any other real it returns the low 16 bits of the value
    truncated toward zero, and that value fits INTEGER64, so the C conversion it
    goes through is defined. *)
Theorem pas_trunc16_spec v file line :
  (pas_trunc16 v file line = Err (RtAbort (trunc_range file line)) /\
   Z_lt_real (- 2 ^ 63) v && real_lt_Z v (2 ^ 63) = false) \/
  (pas_trunc16 v file line = Ok (swrap 16 (real_trunc v)) /\
   Z_lt_real (- 2 ^ 63) v && real_lt_Z v (2 ^ 63) = true /\ in_srange 64 (real_trunc v)).
Proof.
  unfold pas_trunc16. destruct (Z_lt_real _ v && _) eqn:E; simpl; [right | by left].
  split; [| split; [done | by apply trunc_in_int64]]. f_equal. unfold swrap, uwrap.
  set (z := real_trunc v).
  assert ((z `mod` 2 ^ 64) `mod` 2 ^ 16 = z `mod` 2 ^ 16) as ->.
  { apply Z.mod_mod_divide. exists (2 ^ 48). done. }
  rewrite Zplus_mod_idemp_l. done.
Qed.
End Trunc.
