(* ===== verification/ParseSafe.v ===== *)
(** Termination and memory safety of the parser: on a token array that ends with
    its only EOF, every function of parse.c stops with a tree or with a located
    message, within the bound the model gives it, and never reads past the
    array. The proofs are one walk over each function in a small
    weakest-precondition calculus, with the number of tokens left as measure. *)

From Stdlib Require Import ZArith Ascii String SpecFloat Lia.
From stdpp Require Import base list strings.
From S2P Require Import Prelude Ast Lex Parse.
#[local] Open Scope nat_scope.

(** ** Token arrays *)

(** The EOF token is the last one and the only one. *)
Fixpoint eof_ended (ts : list Token) : bool :=
  match ts with
  | [] => false
  | [t] => is_eof t
  | t :: r => negb (is_eof t) && eof_ended r
  end.

(** The cursor is not at the EOF. *)
Definition inside (ts : list Token) : Prop := exists t r, ts = t :: r /\ is_eof t = false.

Lemma eof_ended_cons t r : eof_ended (t :: r) = true -> is_eof t = false -> eof_ended r = true.
Proof. destruct r; simpl; [congruence |]. intros [_ ?]%andb_true_iff _. done. Qed.

Lemma eof_ended_head ts : eof_ended ts = true -> exists t r, ts = t :: r.
Proof. destruct ts; [done | eauto]. Qed.

Lemma word_not_eof t w : is_word t w = true -> is_eof t = false.
Proof. unfold is_word, is_eof. by destruct (tkind t). Qed.
Lemma punct_not_eof t p : is_punct t p = true -> is_eof t = false.
Proof. unfold is_punct, is_eof. by destruct (tkind t). Qed.
Lemma ident_not_eof t : is_ident t = true -> is_eof t = false.
Proof. unfold is_ident, is_eof. by destruct (tkind t). Qed.

(** ** The calculus *)

(** [m] on [ts] stops with a located message, or with a result in [Q]. *)
Definition safe {A} (m : P A) (ts : list Token) (Q : A -> list Token -> Prop) : Prop :=
  match m ts with
  | Ok (a, ts') => Q a ts'
  | Err (Fatal _ _) => True
  | Err _ => False
  end.

Lemma safe_bind {A B} (m : P A) (k : A -> P B) ts Q :
  safe m ts (fun a ts' => safe (k a) ts' Q) -> safe (bind m k) ts Q.
Proof. unfold safe, bind. destruct (m ts) as [[a ts'] | e]; [done | by destruct e]. Qed.

Lemma safe_mono {A} (m : P A) ts (Q R : A -> list Token -> Prop) :
  safe m ts Q -> (forall a ts', Q a ts' -> R a ts') -> safe m ts R.
Proof. unfold safe. destruct (m ts) as [[a ts'] | e]; [auto | done]. Qed.

Lemma safe_ret {A} (a : A) ts (Q : A -> list Token -> Prop) : Q a ts -> safe (ret a) ts Q.
Proof. done. Qed.
Lemma safe_unsupp {A} l w ts (Q : A -> list Token -> Prop) : safe (unsupp l w) ts Q.
Proof. done. Qed.
Lemma safe_fatal {A} l w ts (Q : A -> list Token -> Prop) : safe (fatal l w) ts Q.
Proof. done. Qed.

(** What a function that reads some of the tokens leaves: the rest of the array,
    shorter by at least [d]. *)
Definition left {A} (d : nat) (ts : list Token) : A -> list Token -> Prop :=
  fun _ ts' => eof_ended ts' = true /\ d + length ts' <= length ts.

Lemma safe_cur ts (Hts : eof_ended ts = true) : safe cur ts (fun t ts' => ts' = ts /\ exists r, ts = t :: r).
Proof. destruct (eof_ended_head ts Hts) as (t & r & ->). cbn. eauto. Qed.

Lemma safe_here ts (Hts : eof_ended ts = true) : safe here ts (fun _ ts' => ts' = ts).
Proof. destruct (eof_ended_head ts Hts) as (t & r & ->). done. Qed.

Lemma safe_advance ts (Hts : eof_ended ts = true) : inside ts ->
  safe advance ts (fun _ ts' => eof_ended ts' = true /\ exists t, ts = t :: ts').
Proof. intros (t & r & -> & H). cbn. eauto using eof_ended_cons. Qed.

Lemma safe_at_word w ts (Hts : eof_ended ts = true) :
  safe (at_word w) ts (fun b ts' => ts' = ts /\ (b = true -> inside ts)).
Proof.
  destruct (eof_ended_head ts Hts) as (t & r & ->). cbn. split; [done |].
  intros H. exists t, r. eauto using word_not_eof.
Qed.

Lemma safe_at_punct p ts (Hts : eof_ended ts = true) :
  safe (at_punct p) ts (fun b ts' => ts' = ts /\ (b = true -> inside ts)).
Proof.
  destruct (eof_ended_head ts Hts) as (t & r & ->). cbn. split; [done |].
  intros H. exists t, r. eauto using punct_not_eof.
Qed.

Lemma safe_expected {A} what ts (Q : A -> list Token -> Prop) (Hts : eof_ended ts = true) :
  safe (expected what) ts Q.
Proof. destruct (eof_ended_head ts Hts) as (t & r & ->). done. Qed.

Lemma safe_reject_if b what ts (Hts : eof_ended ts = true) :
  safe (reject_if b what) ts (fun _ ts' => ts' = ts /\ b = false).
Proof. destruct (eof_ended_head ts Hts) as (t & r & ->). by destruct b. Qed.

(** [peek(1)] is the token after the current one. *)
Lemma safe_peek1 ts (Hts : eof_ended ts = true) :
  safe (peek 1) ts (fun n ts' => ts' = ts /\
    forall t r, ts = t :: r -> is_eof t = false -> exists r', r = n :: r').
Proof.
  destruct (eof_ended_head ts Hts) as (t & r & ->). unfold safe, peek. cbn.
  destruct (is_eof t) eqn:Et.
  - unfold is_eof in *. destruct (tkind t) eqn:Ek; try done. split; [done |].
    intros ? ? [= <- <-] H. rewrite Ek in H. done.
  - pose proof (eof_ended_cons _ _ Hts Et) as Hr. destruct (eof_ended_head r Hr) as (n & r' & ->).
    unfold is_eof in Et. destruct (tkind t) eqn:Ek; try done;
      (split; [done |]; intros ? ? [= <- <-] _; eauto).
Qed.

(** ** Automation: one step of the walk, with the specification of the call *)

Create HintDb psafe discriminated.

Lemma inside_intro t r : is_eof t = false -> inside (t :: r).
Proof. exists t, r. done. Qed.

#[export] Hint Resolve safe_cur safe_here safe_advance safe_at_word safe_at_punct safe_reject_if
  safe_peek1 inside_intro word_not_eof punct_not_eof ident_not_eof : psafe.
#[export] Hint Extern 4 (_ <= _) => simpl length in *; lia : psafe.
#[export] Hint Extern 4 (_ < _) => simpl length in *; lia : psafe.

(** An accepted token is consumed; otherwise the cursor stays. *)
Definition taken (ts : list Token) (b : bool) (ts' : list Token) : Prop :=
  eof_ended ts' = true /\ (if b then 1 + length ts' <= length ts else ts' = ts).

(** The same of an optional operator. *)
Definition op_taken (ts : list Token) (o : option Op) (ts' : list Token) : Prop :=
  eof_ended ts' = true /\ match o with Some _ => 1 + length ts' <= length ts | None => ts' = ts end.

(** The facts a specification leaves, taken apart. *)
Ltac pfacts :=
  unfold left, taken, op_taken in * |-; cbv beta in * |-;
  repeat match goal with
    | H : _ /\ _ |- _ => destruct H
    | H : exists _, _ |- _ => destruct H
    | H : ?x = ?y :> list Token |- _ => first [subst x | subst y]
    | H : _ :: _ = _ :: _ |- _ => injection H; clear H; intros; subst
    | H : true = true -> _ |- _ => specialize (H eq_refl)
    | H : false = true -> _ |- _ => clear H
    | H : (if true then _ else _) |- _ => cbv iota in H
    | H : (if false then _ else _) |- _ => cbv iota in H
    | H : (match Some _ with _ => _ end) |- _ => cbv iota in H
    | H : (match None with _ => _ end) |- _ => cbv iota in H
    | H : negb _ = false |- _ => apply negb_false_iff in H; subst
    | H : _ || _ = false |- _ => apply orb_false_iff in H
    | H : true = false |- _ => discriminate H
    | H : false = true |- _ => discriminate H
    end.

(** Whether an optional token was there, when nothing else asks. *)
Ltac pcase :=
  match goal with
  | H : (if ?b then _ else _) |- ?G =>
      is_var b; lazymatch G with context [b] => fail | _ => destruct b; pfacts end
  end.

Ltac pstep :=
  first [pcase |
  lazymatch goal with
  | |- safe (bind _ _) _ _ => apply safe_bind
  | |- safe (ret _) _ _ => apply safe_ret
  | |- safe (unsupp _ _) _ _ => exact I
  | |- safe (fatal _ _) _ _ => exact I
  | |- safe (expected _) _ _ => apply safe_expected; assumption
  | |- safe (if ?b then _ else _) _ _ => first [is_var b; destruct b | destruct b eqn:?]; pfacts
  | |- safe (match ?x with _ => _ end) _ _ => first [is_var x; destruct x | destruct x eqn:?]; pfacts
  | |- safe _ _ _ => eapply safe_mono; [solve [eauto with psafe] | intros ? ? ?; pfacts]
  | |- left _ _ _ _ => split; [assumption | simpl length in *; lia]
  | |- taken _ _ _ => split; [assumption | first [reflexivity | simpl length in *; lia]]
  | |- op_taken _ _ _ => split; [assumption | first [reflexivity | simpl length in *; lia]]
  end].
Ltac pwalk := repeat pstep.

(** ** Tokens *)

Lemma safe_expect_word w ts (Hts : eof_ended ts = true) : safe (expect_word w) ts (left 1 ts).
Proof. unfold expect_word. pwalk. Qed.

Lemma safe_expect_punct p ts (Hts : eof_ended ts = true) : safe (expect_punct p) ts (left 1 ts).
Proof. unfold expect_punct. pwalk. Qed.

Lemma safe_accept_word w ts (Hts : eof_ended ts = true) : safe (accept_word w) ts (taken ts).
Proof. unfold accept_word. pwalk. Qed.

Lemma safe_accept_punct p ts (Hts : eof_ended ts = true) : safe (accept_punct p) ts (taken ts).
Proof. unfold accept_punct. pwalk. Qed.

Lemma kind_not_eof t k : tkind t = k -> k <> T_EOF -> is_eof t = false.
Proof. unfold is_eof. intros -> H. by destruct k. Qed.
#[export] Hint Extern 3 (is_eof _ = false) =>
  solve [eapply kind_not_eof; [eassumption | discriminate]] : psafe.

Lemma safe_ident_tok ts (Hts : eof_ended ts = true) : safe ident_tok ts (left 1 ts).
Proof. unfold ident_tok. pwalk. Qed.
#[export] Hint Resolve safe_expect_word safe_expect_punct safe_accept_word safe_accept_punct safe_ident_tok : psafe.

Lemma safe_ident ts (Hts : eof_ended ts = true) : safe ident ts (left 1 ts).
Proof. unfold ident. pwalk. Qed.
#[export] Hint Resolve safe_ident : psafe.

(** The bound on the calls below each function: 16 for each token left, and the
    function's place in the chain of calls that consume nothing. *)
Definition enough (rank : nat) (ts : list Token) (f : nat) : Prop := 16 * length ts + rank <= f.
#[export] Hint Extern 4 (enough _ _ _) => unfold enough in *; simpl length in *; lia : psafe.

Lemma safe_ident_list f : forall ts, eof_ended ts = true -> enough 1 ts f ->
  safe (ident_list f) ts (left 1 ts).
Proof.
  induction f as [|f IH]; intros ts Hts Hf; [unfold enough in Hf; lia |]. simpl. pwalk.
Qed.
#[export] Hint Resolve safe_ident_list : psafe.

(** ** Expressions *)

Lemma safe_mul_op ts (Hts : eof_ended ts = true) : safe mul_op ts (op_taken ts).
Proof. unfold mul_op. pwalk. Qed.

Lemma safe_add_op ts (Hts : eof_ended ts = true) : safe add_op ts (op_taken ts).
Proof. unfold add_op. pwalk. Qed.

Lemma safe_cmp_op ts (Hts : eof_ended ts = true) : safe cmp_op ts (op_taken ts).
Proof. unfold cmp_op. pwalk. Qed.

Lemma safe_adr_operand l ts (Hts : eof_ended ts = true) : safe (adr_operand l) ts (left 1 ts).
Proof. unfold adr_operand. pwalk. Qed.
#[export] Hint Resolve safe_mul_op safe_add_op safe_cmp_op safe_adr_operand : psafe.

Lemma safe_exprs f : forall ts, eof_ended ts = true ->
  (enough 4 ts f -> safe (expr f) ts (left 1 ts)) /\
  (enough 3 ts f -> safe (simple f) ts (left 1 ts)) /\
  (enough 1 ts f -> forall e, safe (simple_loop f e) ts (left 0 ts)) /\
  (enough 2 ts f -> safe (term f) ts (left 1 ts)) /\
  (enough 1 ts f -> forall e, safe (term_loop f e) ts (left 0 ts)) /\
  (enough 1 ts f -> safe (factor f) ts (left 1 ts)) /\
  (enough 5 ts f -> safe (call_args f) ts (left 1 ts)) /\
  (enough 1 ts f -> forall e, safe (selectors f e) ts (left 0 ts)).
Proof.
  induction f as [|f IH]; intros ts Hts; [unfold enough; repeat split; lia |].
  assert (forall ts, eof_ended ts = true -> enough 4 ts f -> safe (expr f) ts (left 1 ts)) by apply IH.
  assert (forall ts, eof_ended ts = true -> enough 3 ts f -> safe (simple f) ts (left 1 ts)) by apply IH.
  assert (forall ts e, eof_ended ts = true -> enough 1 ts f -> safe (simple_loop f e) ts (left 0 ts)) by (intros; by apply IH).
  assert (forall ts, eof_ended ts = true -> enough 2 ts f -> safe (term f) ts (left 1 ts)) by apply IH.
  assert (forall ts e, eof_ended ts = true -> enough 1 ts f -> safe (term_loop f e) ts (left 0 ts)) by (intros; by apply IH).
  assert (forall ts, eof_ended ts = true -> enough 1 ts f -> safe (factor f) ts (left 1 ts)) by apply IH.
  assert (forall ts, eof_ended ts = true -> enough 5 ts f -> safe (call_args f) ts (left 1 ts)) by apply IH.
  assert (forall ts e, eof_ended ts = true -> enough 1 ts f -> safe (selectors f e) ts (left 0 ts)) by (intros; by apply IH).
  clear IH. repeat split; intros He; simpl; intros; pwalk.
Qed.

Lemma safe_expr f ts : eof_ended ts = true -> enough 4 ts f -> safe (expr f) ts (left 1 ts).
Proof. apply safe_exprs. Qed.
Lemma safe_simple f ts : eof_ended ts = true -> enough 3 ts f -> safe (simple f) ts (left 1 ts).
Proof. apply safe_exprs. Qed.
Lemma safe_factor f ts : eof_ended ts = true -> enough 1 ts f -> safe (factor f) ts (left 1 ts).
Proof. apply safe_exprs. Qed.
#[export] Hint Resolve safe_expr safe_simple safe_factor : psafe.

Lemma safe_bool_loop f : forall ts e, eof_ended ts = true -> enough 1 ts f ->
  safe (bool_loop f e) ts (left 0 ts).
Proof.
  induction f as [|f IH]; intros ts e Hts Hf; [unfold enough in Hf; lia |]. simpl. pwalk.
  match goal with H : _ && _ = true, Hin : _ -> inside ts |- _ =>
    apply andb_true_iff in H as [-> Hw]; destruct (Hin eq_refl) as (t & r & -> & Ht) end.
  match goal with H : forall _ _, _ |- _ => destruct (H t r eq_refl Ht) as [r' ->] end.
  pwalk.
Qed.
#[export] Hint Resolve safe_bool_loop : psafe.

Lemma safe_bool_expr f ts : eof_ended ts = true -> enough 4 ts f -> safe (bool_expr f) ts (left 1 ts).
Proof. intros. unfold bool_expr. pwalk. Qed.
#[export] Hint Resolve safe_bool_expr : psafe.

(** ** Types *)

Lemma safe_reject_type_word l t r :
  eof_ended (t :: r) = true ->
  safe (reject_type_word l t) (t :: r) (fun _ ts' => ts' = t :: r /\ is_eof t = false).
Proof. intros. unfold reject_type_word. pwalk; eauto with psafe. Qed.
#[export] Hint Resolve safe_reject_type_word : psafe.

Lemma safe_types f : forall ts, eof_ended ts = true ->
  (enough 1 ts f -> safe (type_expr f) ts (left 1 ts)) /\
  (enough 2 ts f -> safe (record_fields f) ts (left 0 ts)).
Proof.
  induction f as [|f IH]; intros ts Hts; [unfold enough; split; lia |].
  assert (forall ts, eof_ended ts = true -> enough 1 ts f -> safe (type_expr f) ts (left 1 ts)) by apply IH.
  assert (forall ts, eof_ended ts = true -> enough 2 ts f -> safe (record_fields f) ts (left 0 ts)) by apply IH.
  clear IH. split; intros He; simpl; pwalk.
Qed.

Lemma safe_type_expr f ts : eof_ended ts = true -> enough 1 ts f -> safe (type_expr f) ts (left 1 ts).
Proof. apply safe_types. Qed.
#[export] Hint Resolve safe_type_expr : psafe.

(** ** Statements *)

Lemma safe_jump_stmt l t ts : eof_ended ts = true -> safe (jump_stmt l t) ts (left 0 ts).
Proof. intros. unfold jump_stmt. pwalk. Qed.

Lemma safe_simple_stmt f l ts : eof_ended ts = true -> enough 1 ts f -> safe (simple_stmt f l) ts (left 1 ts).
Proof. intros. unfold simple_stmt. pwalk. Qed.
#[export] Hint Resolve safe_jump_stmt safe_simple_stmt : psafe.

Lemma safe_statements f : forall ts, eof_ended ts = true ->
  (enough 2 ts f -> safe (statement f) ts (left 0 ts)) /\
  (enough 3 ts f -> safe (stmt_list f) ts (left 0 ts)).
Proof.
  induction f as [|f IH]; intros ts Hts; [unfold enough; split; lia |].
  assert (forall ts, eof_ended ts = true -> enough 2 ts f -> safe (statement f) ts (left 0 ts)) by apply IH.
  assert (forall ts, eof_ended ts = true -> enough 3 ts f -> safe (stmt_list f) ts (left 0 ts)) by apply IH.
  clear IH. split; intros He; simpl; pwalk.
Qed.

Lemma safe_stmt_list f ts : eof_ended ts = true -> enough 3 ts f -> safe (stmt_list f) ts (left 0 ts).
Proof. apply safe_statements. Qed.
#[export] Hint Resolve safe_stmt_list : psafe.

(** ** Declarations *)

Lemma safe_at_ident_then p ts : eof_ended ts = true -> safe (at_ident_then p) ts (fun _ ts' => ts' = ts).
Proof. intros. unfold at_ident_then. pwalk; done. Qed.
#[export] Hint Resolve safe_at_ident_then : psafe.

Lemma safe_const_items f : forall ts, eof_ended ts = true -> enough 1 ts f -> safe (const_items f) ts (left 1 ts).
Proof. induction f as [|f IH]; intros ts Hts Hf; [unfold enough in Hf; lia |]. simpl. pwalk. Qed.
Lemma safe_type_items f : forall ts, eof_ended ts = true -> enough 1 ts f -> safe (type_items f) ts (left 1 ts).
Proof. induction f as [|f IH]; intros ts Hts Hf; [unfold enough in Hf; lia |]. simpl. pwalk. Qed.
Lemma safe_var_items f : forall ts, eof_ended ts = true -> enough 2 ts f -> safe (var_items f) ts (left 1 ts).
Proof. induction f as [|f IH]; intros ts Hts Hf; [unfold enough in Hf; lia |]. simpl. pwalk. Qed.
#[export] Hint Resolve safe_const_items safe_type_items safe_var_items : psafe.

Lemma section_not_eof t : is_section t = true -> is_eof t = false.
Proof. unfold is_section. rewrite !orb_true_iff. intros [[?|?]|?]; eauto using word_not_eof. Qed.
Lemma routine_word_not_eof t : is_routine_word t = true -> is_eof t = false.
Proof. unfold is_routine_word. rewrite !orb_true_iff. intros [?|?]; eauto using word_not_eof. Qed.
#[export] Hint Resolve section_not_eof routine_word_not_eof : psafe.

Lemma safe_section f t r : eof_ended (t :: r) = true -> is_section t = true -> enough 0 (t :: r) f ->
  safe (section f) (t :: r) (left 1 (t :: r)).
Proof. intros. unfold section. pwalk. Qed.
#[export] Hint Resolve safe_section : psafe.

Lemma safe_sections f : forall ts, eof_ended ts = true -> enough 1 ts f -> safe (sections f) ts (left 0 ts).
Proof. induction f as [|f IH]; intros ts Hts Hf; [unfold enough in Hf; lia |]. simpl. pwalk. Qed.
#[export] Hint Resolve safe_sections : psafe.

Lemma safe_param_groups f : forall ts, eof_ended ts = true -> enough 2 ts f -> safe (param_groups f) ts (left 1 ts).
Proof. induction f as [|f IH]; intros ts Hts Hf; [unfold enough in Hf; lia |]. simpl. pwalk. Qed.

Lemma safe_c_attribute ts : eof_ended ts = true -> safe c_attribute ts (left 0 ts).
Proof. intros. unfold c_attribute. pwalk. Qed.
#[export] Hint Resolve safe_param_groups safe_c_attribute : psafe.

Lemma safe_routine_heading f ts : eof_ended ts = true -> inside ts -> enough 0 ts f ->
  safe (routine_heading f) ts (left 1 ts).
Proof. intros. unfold routine_heading. pwalk. Qed.
#[export] Hint Resolve safe_routine_heading : psafe.

Lemma safe_routine_decl f b ts : eof_ended ts = true -> inside ts -> enough 0 ts f ->
  safe (routine_decl f b) ts (left 1 ts).
Proof. intros. unfold routine_decl. pwalk. Qed.
#[export] Hint Resolve safe_routine_decl : psafe.

(** ** Compilands *)

Lemma safe_uses_clause f : forall ts, eof_ended ts = true -> enough 1 ts f ->
  safe (uses_clause f) ts (left 0 ts).
Proof. induction f as [|f IH]; intros ts Hts Hf; [unfold enough in Hf; lia |]. simpl. pwalk. Qed.

(** At the word USES the clause is not empty. *)
Lemma safe_uses_here f t r : eof_ended (t :: r) = true -> is_word t "uses" = true -> enough 1 (t :: r) f ->
  safe (uses_clause f) (t :: r) (left 1 (t :: r)).
Proof.
  intros Hts Hu Hf. pose proof (word_not_eof _ _ Hu) as Ht. pose proof (eof_ended_cons _ _ Hts Ht).
  destruct f as [|f]; [unfold enough in Hf; lia |]. pose proof safe_uses_clause.
  simpl. apply safe_bind. unfold safe, accept_word, at_word, cur, bind, ret, advance.
  rewrite Hu. change (safe (let* xs := ident_list f in do* expect_punct P_SEMI in
    let* ys := uses_clause f in ret (xs ++ ys)) r (left 1 (t :: r))).
  pwalk.
Qed.
#[export] Hint Resolve safe_uses_here | 0 : psafe.
#[export] Hint Resolve safe_uses_clause | 3 : psafe.

Lemma safe_interface_decls f : forall ts, eof_ended ts = true -> enough 1 ts f ->
  safe (interface_decls f) ts (left 0 ts).
Proof. induction f as [|f IH]; intros ts Hts Hf; [unfold enough in Hf; lia |]. simpl. pwalk. Qed.
#[export] Hint Resolve safe_interface_decls : psafe.

Lemma safe_skip_names f ts : eof_ended ts = true -> enough 1 ts f -> safe (skip_names f) ts (left 0 ts).
Proof. intros. unfold skip_names. pwalk. Qed.
#[export] Hint Resolve safe_skip_names : psafe.

Lemma safe_interface f ts : eof_ended ts = true -> enough 1 ts f -> safe (interface f) ts (left 1 ts).
Proof. intros. unfold interface. pwalk. Qed.
#[export] Hint Resolve safe_interface : psafe.

Lemma safe_interfaces f : forall ts, eof_ended ts = true -> enough 2 ts f ->
  safe (interfaces f) ts (left 0 ts).
Proof. induction f as [|f IH]; intros ts Hts Hf; [unfold enough in Hf; lia |]. simpl. pwalk. Qed.
#[export] Hint Resolve safe_interfaces : psafe.

Lemma safe_compiland_decls f : forall ts, eof_ended ts = true -> enough 2 ts f ->
  safe (compiland_decls f) ts (left 0 ts).
Proof.
  induction f as [|f IH]; intros ts Hts Hf; [unfold enough in Hf; lia |]. simpl. pwalk.
Qed.
#[export] Hint Resolve safe_compiland_decls : psafe.

Lemma safe_compiland_heading f ts : eof_ended ts = true -> enough 1 ts f ->
  safe (compiland_heading f) ts (left 1 ts).
Proof. intros. unfold compiland_heading. pwalk. Qed.
#[export] Hint Resolve safe_compiland_heading : psafe.

Lemma safe_compiland f ts : eof_ended ts = true -> enough 4 ts f -> safe (compiland f) ts (left 0 ts).
Proof. intros. unfold compiland. pwalk. Qed.

(** ** The parser as a whole *)

Lemma compiland_ends toks : eof_ended toks = true ->
  match parse_compiland toks with Ok _ | Err (Fatal _ _) => True | Err _ => False end.
Proof.
  intros H. assert (enough 4 toks (parse_fuel (length toks))) as Hf by (unfold enough, parse_fuel; lia).
  pose proof (safe_compiland _ _ H Hf) as Hs. unfold safe in Hs. unfold parse_compiland.
  by destruct (compiland _ toks) as [[c ts'] | []].
Qed.

(** on every token array that ends with its only EOF the parser returns a
    tree or stops with a message at a location: it ends, it does not exceed the
    bound of 16 calls for each token, and it never reads past the array. *)
Theorem parse_compiland_total toks (H : eof_ended toks = true) :
  (exists c, parse_compiland toks = Ok c) \/
  (exists l msg, parse_compiland toks = Err (Fatal l msg)).
Proof. pose proof (compiland_ends toks H). destruct (parse_compiland toks) as [c | []]; naive_solver. Qed.

(** PROGRAM p; BEGIN END. *)
Definition smallest_program : list Token :=
  map (fun k => mkTok k (mkLoc (Some "p") 1))
    [T_IDENT "program" "PROGRAM"; T_IDENT "p" "p"; T_PUNCT P_SEMI; T_IDENT "begin" "BEGIN";
     T_IDENT "end" "END"; T_PUNCT P_DOT; T_EOF].

Lemma parse_compiland_total_witness :
  (exists c, parse_compiland smallest_program = Ok c) \/
  (exists l msg, parse_compiland smallest_program = Err (Fatal l msg)).
Proof. exact (parse_compiland_total smallest_program ltac:(reflexivity)). Defined.
