(* ===== verification/ParseFuel.v ===== *)
(** The bound of the parser's recursion does not matter: a run that a bound lets
    finish is the run of every larger bound. Results proved for some bound
    therefore hold for the one [parse_compiland] uses. *)

From Stdlib Require Import ZArith Ascii String SpecFloat Lia.
From stdpp Require Import base list strings.
From S2P Require Import Prelude Ast Lex Parse.
#[local] Open Scope nat_scope.

(** [m'] does what [m] does, unless [m] runs out of fuel. *)
Definition below {A} (m m' : P A) : Prop := forall ts, m ts = Err OutOfFuel \/ m' ts = m ts.

#[export] Instance below_refl {A} : Reflexive (@below A).
Proof. intros m ts. by right. Qed.

#[export] Instance below_trans {A} : Transitive (@below A).
Proof. intros m1 m2 m3 H1 H2 ts. destruct (H1 ts) as [| E]; [by left |]. rewrite <- E. apply H2. Qed.

Lemma below_out {A} (m : P A) : below (fail OutOfFuel) m.
Proof. intros ts. by left. Qed.

Lemma below_bind {A B} (m m' : P A) (k k' : A -> P B) :
  below m m' -> (forall a, below (k a) (k' a)) -> below (bind m k) (bind m' k').
Proof.
  intros Hm Hk ts. unfold bind. destruct (Hm ts) as [-> | ->]; [by left |].
  destruct (m ts) as [[a ts'] | e]; [apply Hk | by right].
Qed.

(** A function of the bound that only grows. *)
Definition grows {A} (m : nat -> P A) : Prop := forall f, below (m f) (m (S f)).

Lemma grows_le {A} (m : nat -> P A) f g : grows m -> f <= g -> below (m f) (m g).
Proof. intros Hm. induction 1; [done |]. etrans; [done | apply Hm]. Qed.

Ltac grow :=
  repeat first
    [ reflexivity | apply below_out | eassumption | solve [eauto with pgrow]
    | match goal with H : forall _, below _ _ |- _ => apply H end
    | apply below_bind; [| intros ?]
    | match goal with
      | |- below (if ?b then _ else _) _ => destruct b
      | |- below (match ?x with _ => _ end) _ => destruct x
      end ].

Create HintDb pgrow discriminated.

Lemma grows_ident_list : grows ident_list.
Proof. intros f. induction f; cbn [ident_list]; grow. Qed.
#[export] Hint Resolve grows_ident_list : pgrow.

Lemma grows_exprs f :
  below (expr f) (expr (S f)) /\ below (simple f) (simple (S f)) /\
  (forall e, below (simple_loop f e) (simple_loop (S f) e)) /\ below (term f) (term (S f)) /\
  (forall e, below (term_loop f e) (term_loop (S f) e)) /\ below (factor f) (factor (S f)) /\
  below (call_args f) (call_args (S f)) /\ (forall e, below (selectors f e) (selectors (S f) e)).
Proof.
  induction f as [|f IH].
  - repeat split; intros; apply below_out.
  - destruct IH as (? & ? & ? & ? & ? & ? & ? & ?).
    repeat split; intros; cbn [expr simple simple_loop term term_loop factor call_args selectors]; grow.
Qed.

Lemma grows_expr : grows expr.
Proof. intros f. apply grows_exprs. Qed.
Lemma grows_simple : grows simple.
Proof. intros f. apply grows_exprs. Qed.
Lemma grows_simple_loop e : grows (fun f => simple_loop f e).
Proof. intros f. apply grows_exprs. Qed.
Lemma grows_term : grows term.
Proof. intros f. apply grows_exprs. Qed.
Lemma grows_term_loop e : grows (fun f => term_loop f e).
Proof. intros f. apply grows_exprs. Qed.
Lemma grows_factor : grows factor.
Proof. intros f. apply grows_exprs. Qed.
Lemma grows_call_args : grows call_args.
Proof. intros f. apply grows_exprs. Qed.
Lemma grows_selectors e : grows (fun f => selectors f e).
Proof. intros f. apply grows_exprs. Qed.
#[export] Hint Resolve grows_expr grows_simple grows_term grows_factor grows_call_args : pgrow.

Lemma grows_bool_loop f : forall e, below (bool_loop f e) (bool_loop (S f) e).
Proof. induction f; intros e; cbn [bool_loop]; grow. Qed.
#[export] Hint Resolve grows_bool_loop : pgrow.

Lemma grows_bool_expr : grows bool_expr.
Proof. intros f. unfold bool_expr. grow. Qed.
#[export] Hint Resolve grows_bool_expr : pgrow.

Lemma grows_types f :
  below (type_expr f) (type_expr (S f)) /\ below (record_fields f) (record_fields (S f)).
Proof.
  induction f as [|f [? ?]]; split; intros; cbn [type_expr record_fields]; grow.
Qed.

Lemma grows_type_expr : grows type_expr.
Proof. intros f. apply grows_types. Qed.
#[export] Hint Resolve grows_type_expr : pgrow.

Lemma grows_simple_stmt f l : below (simple_stmt f l) (simple_stmt (S f) l).
Proof. unfold simple_stmt. grow. Qed.
#[export] Hint Resolve grows_simple_stmt : pgrow.

Lemma grows_statements f :
  below (statement f) (statement (S f)) /\ below (stmt_list f) (stmt_list (S f)).
Proof.
  induction f as [|f [? ?]]; split; intros; cbn [statement stmt_list]; grow.
Qed.

Lemma grows_stmt_list : grows stmt_list.
Proof. intros f. apply grows_statements. Qed.
#[export] Hint Resolve grows_stmt_list : pgrow.

Lemma grows_const_items : grows const_items.
Proof. intros f. induction f; cbn [const_items]; grow. Qed.
Lemma grows_type_items : grows type_items.
Proof. intros f. induction f; cbn [type_items]; grow. Qed.
Lemma grows_var_items : grows var_items.
Proof. intros f. induction f; cbn [var_items]; grow. Qed.
#[export] Hint Resolve grows_const_items grows_type_items grows_var_items : pgrow.

Lemma grows_section : grows section.
Proof. intros f. unfold section. grow. Qed.
#[export] Hint Resolve grows_section : pgrow.

Lemma grows_sections : grows sections.
Proof. intros f. induction f; cbn [sections]; grow. Qed.
Lemma grows_param_groups : grows param_groups.
Proof. intros f. induction f; cbn [param_groups]; grow. Qed.
#[export] Hint Resolve grows_sections grows_param_groups : pgrow.

Lemma grows_routine_heading : grows routine_heading.
Proof. intros f. unfold routine_heading. grow. Qed.
#[export] Hint Resolve grows_routine_heading : pgrow.

Lemma grows_routine_decl f b : below (routine_decl f b) (routine_decl (S f) b).
Proof. unfold routine_decl. grow. Qed.
#[export] Hint Resolve grows_routine_decl : pgrow.

Lemma grows_uses_clause : grows uses_clause.
Proof. intros f. induction f; cbn [uses_clause]; grow. Qed.
Lemma grows_interface_decls : grows interface_decls.
Proof. intros f. induction f; cbn [interface_decls]; grow. Qed.
Lemma grows_skip_names : grows skip_names.
Proof. intros f. unfold skip_names. grow. Qed.
#[export] Hint Resolve grows_uses_clause grows_interface_decls grows_skip_names : pgrow.

Lemma grows_interface : grows interface.
Proof. intros f. unfold interface. grow. Qed.
#[export] Hint Resolve grows_interface : pgrow.

Lemma grows_interfaces : grows interfaces.
Proof. intros f. induction f; cbn [interfaces]; grow. Qed.
Lemma grows_compiland_decls : grows compiland_decls.
Proof. intros f. induction f; cbn [compiland_decls]; grow. Qed.
Lemma grows_compiland_heading : grows compiland_heading.
Proof. intros f. unfold compiland_heading. grow. Qed.
#[export] Hint Resolve grows_interfaces grows_compiland_decls grows_compiland_heading : pgrow.

Lemma grows_compiland : grows compiland.
Proof. intros f. unfold compiland. grow. Qed.

(** ** Runs with some bound *)

(** With bound [f] or any larger one, the parse of [ts] is [a], with [rest] left. *)
Definition parses {A} (m : nat -> P A) (ts : list Token) (a : A) (rest : list Token) : Prop :=
  exists f, forall g, f <= g -> m g ts = Ok (a, rest).

Lemma parses_intro {A} (m : nat -> P A) f ts a rest :
  grows m -> m f ts = Ok (a, rest) -> parses m ts a rest.
Proof.
  intros Hm H. exists f. intros g Hg. destruct (grows_le m f g Hm Hg ts) as [E | E]; congruence.
Qed.

(** A finished run with a bound is the parse. *)
Lemma parses_at {A} (m : nat -> P A) f ts a rest :
  grows m -> parses m ts a rest -> m f ts <> Err OutOfFuel -> m f ts = Ok (a, rest).
Proof.
  intros Hm [g Hg] Hf. destruct (grows_le m f (max f g) Hm ltac:(lia) ts) as [E | E]; [done |].
  rewrite <- E. apply Hg. lia.
Qed.

Lemma parses_unique {A} (m : nat -> P A) ts a a' rest rest' :
  parses m ts a rest -> parses m ts a' rest' -> a = a' /\ rest = rest'.
Proof.
  intros [f Hf] [g Hg]. pose proof (Hf (max f g) ltac:(lia)). pose proof (Hg (max f g) ltac:(lia)).
  split; congruence.
Qed.
