(* ===== verification/ParseRound.v ===== *)
(** The parser inverts a printer: the tokens of an expression, with parentheses
    only where the grammar's precedences need them, parse back to that
    expression, locations included. *)

From Stdlib Require Import ZArith Ascii String SpecFloat Lia.
From stdpp Require Import base list strings.
From S2P Require Import Prelude Ast Lex Parse ParseSafe ParseFuel.
#[local] Open Scope nat_scope.

(** ** The printer *)

Definition pt (p : Punct) (l : Loc) : Token := mkTok (T_PUNCT p) l.
Definition wd (w : string) (l : Loc) : Token := mkTok (T_IDENT w w) l.

(** A binary operator's token and its level: 0 for the comparisons, 1 for the
    additive ones, 2 for the multiplicative ones. *)
Definition op_token (op : Op) : option (nat * (Loc -> Token)) :=
  match op with
  | OP_EQ => Some (0, pt P_EQ) | OP_NE => Some (0, pt P_NE) | OP_LT => Some (0, pt P_LT)
  | OP_LE => Some (0, pt P_LE) | OP_GT => Some (0, pt P_GT) | OP_GE => Some (0, pt P_GE)
  | OP_ADD => Some (1, pt P_PLUS) | OP_SUB => Some (1, pt P_MINUS) | OP_OR => Some (1, wd "or")
  | OP_MUL => Some (2, pt P_STAR) | OP_RDIV => Some (2, pt P_SLASH) | OP_IDIV => Some (2, wd "div")
  | OP_MOD => Some (2, wd "mod") | OP_AND => Some (2, wd "and")
  | OP_ANDTHEN | OP_NEG | OP_NOT => None
  end.

Definition op_level (op : Op) : nat := match op_token op with Some (k, _) => k | None => 0 end.
Definition op_tok (op : Op) (l : Loc) : Token :=
  match op_token op with Some (_, t) => t l | None => pt P_COMMA l end.

(** Where an expression can stand without parentheses: 0 as an expression, 1 as a
    simple expression, 2 as a term, 3 as a factor, 4 before a selector. *)
Definition level (e : Expr) : nat :=
  match e with
  | E_BIN _ op _ _ => op_level op
  | E_UN _ OP_NEG _ => 1
  | E_INT _ _ | E_REAL _ _ | E_STR _ _ | E_CHAR _ _ | E_UN _ _ _ | E_ADR _ _ => 3
  | E_NAME _ _ | E_CALL _ _ _ | E_INDEX _ _ _ | E_FIELD _ _ _ | E_DEREF _ _ => 4
  end.

Section Printer.
(** The location of the tokens that no node of the tree records. *)
Variable pl : Loc.

Definition paren (ts : list Token) : list Token := pt P_LPAREN pl :: ts ++ [pt P_RPAREN pl].
Definition at_level (p : nat) (e : Expr) (raw : list Token) : list Token :=
  if level e <? p then paren raw else raw.

Fixpoint show (e : Expr) : list Token :=
  let sub (p : nat) (a : Expr) := at_level p a (show a) in
  match e with
  | E_INT l v => [mkTok (T_INT v) l]
  | E_REAL l v => [mkTok (T_REAL v) l]
  | E_STR l s => [mkTok (T_STR s) l]
  | E_CHAR l v => [mkTok (T_CHAR v) l]
  | E_NAME l n => if String.eqb n "adr" then paren [wd n l] else [wd n l]
  | E_CALL l n args =>
      wd n l :: paren ((fix go (es : list Expr) :=
        match es with
        | [] => []
        | [a] => show a
        | a :: es' => show a ++ pt P_COMMA pl :: go es'
        end) args)
  | E_INDEX l a b => sub 4 a ++ pt P_LBRACK l :: show b ++ [pt P_RBRACK pl]
  | E_FIELD l a n => sub 4 a ++ [pt P_DOT l; wd n pl]
  | E_DEREF l a => sub 4 a ++ [pt P_CARET l]
  | E_BIN l op a b =>
      sub (max 1 (op_level op)) a ++ op_tok op l :: sub (op_level op + 1) b
  | E_UN l op a =>
      match op with
      | OP_NEG => pt P_MINUS l :: sub 2 a
      | _ => wd "not" l :: sub 3 a
      end
  | E_ADR l n => [wd "adr" l; wd n pl]
  end.

Definition show_at (p : nat) (e : Expr) : list Token := at_level p e (show e).

Fixpoint show_args (es : list Expr) : list Token :=
  match es with
  | [] => []
  | [a] => show a
  | a :: es' => show a ++ pt P_COMMA pl :: show_args es'
  end.
End Printer.

(** The trees the parser can produce for an expression: names are identifiers,
    and not ADS where a factor starts; the operators are the grammar's. *)
Definition is_reserved_name (n : string) : bool := existsb (String.eqb n) reserved.
Definition name_ok (n : string) : bool :=
  negb (is_reserved_name n) && negb (String.eqb n "ads").

Fixpoint well_formed (e : Expr) : bool :=
  match e with
  | E_INT _ _ | E_REAL _ _ | E_STR _ _ | E_CHAR _ _ => true
  | E_NAME _ n => name_ok n
  | E_CALL _ n args => name_ok n && forallb well_formed args
  | E_INDEX _ a b => well_formed a && well_formed b
  | E_FIELD _ a n => well_formed a && negb (is_reserved_name n)
  | E_DEREF _ a => well_formed a
  | E_BIN _ op a b => bool_decide (is_Some (op_token op)) && well_formed a && well_formed b
  | E_UN _ op a => bool_decide (op = OP_NEG \/ op = OP_NOT) && well_formed a
  | E_ADR _ n => negb (is_reserved_name n)
  end.

(** ** Runs of sequences *)

Lemma parses_bind {A B} (m : nat -> P A) (k : nat -> A -> P B) ts a ts1 b rest :
  parses m ts a ts1 -> parses (fun f => k f a) ts1 b rest ->
  parses (fun f => bind (m f) (k f)) ts b rest.
Proof.
  intros [f Hf] [g Hg]. exists (max f g). intros h Hh. unfold bind.
  rewrite Hf by lia. apply Hg. lia.
Qed.

Lemma parses_step {A} (m m' : nat -> P A) ts a rest :
  (forall f, m (S f) = m' f) -> parses m' ts a rest -> parses m ts a rest.
Proof.
  intros E [f Hf]. exists (S f). intros g Hg. destruct g; [lia |]. rewrite E. apply Hf. lia.
Qed.

Lemma parses_const {A} (m : P A) ts a rest : m ts = Ok (a, rest) -> parses (fun _ => m) ts a rest.
Proof. intros H. exists 0. done. Qed.

(** One step that looks only at the tokens themselves. *)
Ltac tok := eapply parses_bind; [apply parses_const; reflexivity |]; cbv beta iota.

(** ** What may follow *)

(** The first token, and that it is no punctuation of [ps]. *)
Definition hd_not (ps : list Punct) (ts : list Token) : Prop :=
  exists t r, ts = t :: r /\ forallb (fun p => negb (is_punct t p)) ps = true.
Definition no_call (ts : list Token) : Prop := hd_not [P_LPAREN] ts.
Definition no_selector (ts : list Token) : Prop := hd_not [P_LPAREN; P_LBRACK; P_DOT; P_CARET] ts.
Definition no_mul (ts : list Token) : Prop := mul_op ts = Ok (None, ts).
Definition no_add (ts : list Token) : Prop := add_op ts = Ok (None, ts).
Definition no_cmp (ts : list Token) : Prop := cmp_op ts = Ok (None, ts).

(** Tokens that begin a factor. *)
Definition starts (ts : list Token) : Prop :=
  exists t r, ts = t :: r /\ is_punct t P_PLUS = false /\ is_punct t P_MINUS = false /\
    is_punct t P_RPAREN = false /\ is_word t "then" = false /\ is_word t "else" = false.

(** ** The correctness of a spelling, by the place it can stand in *)

Definition C4 (ts : list Token) (e : Expr) : Prop := starts ts /\ forall rest x r',
  no_call rest -> parses (fun f => selectors f e) rest x r' -> parses factor (ts ++ rest) x r'.
Definition C3 (ts : list Token) (e : Expr) : Prop := starts ts /\ forall rest,
  no_selector rest -> parses factor (ts ++ rest) e rest.
Definition C2 (ts : list Token) (e : Expr) : Prop := starts ts /\ forall rest x r',
  no_selector rest -> parses (fun f => term_loop f e) rest x r' -> parses term (ts ++ rest) x r'.
Definition C1 (ts : list Token) (e : Expr) : Prop := forall rest x r',
  no_selector rest -> no_mul rest -> parses (fun f => simple_loop f e) rest x r' ->
  parses simple (ts ++ rest) x r'.
Definition C0 (ts : list Token) (e : Expr) : Prop := forall rest,
  no_selector rest -> no_mul rest -> no_add rest -> no_cmp rest -> parses expr (ts ++ rest) e rest.

Lemma here_eq t r : here (t :: r) = Ok (tloc t, t :: r).
Proof. done. Qed.

Lemma no_selector_call ts : no_selector ts -> no_call ts.
Proof.
  intros (t & r & -> & H). exists t, r. split; [done |]. simpl in *.
  apply andb_true_iff in H as [-> _]. done.
Qed.

Lemma accept_punct_no p t r : is_punct t p = false -> accept_punct p (t :: r) = Ok (false, t :: r).
Proof. intros H. unfold accept_punct, at_punct, bind, cur, ret. by rewrite H. Qed.

Lemma at_punct_no p t r : is_punct t p = false -> at_punct p (t :: r) = Ok (false, t :: r).
Proof. intros H. unfold at_punct, bind, cur, ret. by rewrite H. Qed.
Lemma at_word_no w t r : is_word t w = false -> at_word w (t :: r) = Ok (false, t :: r).
Proof. intros H. unfold at_word, bind, cur, ret. by rewrite H. Qed.
Lemma accept_word_no w t r : is_word t w = false -> accept_word w (t :: r) = Ok (false, t :: r).
Proof. intros H. unfold accept_word, at_word, bind, cur, ret. by rewrite H. Qed.

(** Steps over tests that the first token fails. *)
Ltac skip :=
  erewrite bind_ok by (first [apply accept_punct_no | apply accept_word_no | apply at_punct_no
    | apply at_word_no]; eassumption); cbv beta iota.
Ltac skips := repeat skip.

Lemma selectors_stop e rest : no_selector rest -> parses (fun f => selectors f e) rest e rest.
Proof.
  intros (t & r & -> & H). simpl in H. repeat (apply andb_true_iff in H as [?%negb_true_iff H]).
  eapply parses_step; [intros f; reflexivity |]. tok.
  do 3 (eapply parses_bind; [apply parses_const, accept_punct_no; eassumption |]; cbv beta iota).
  by apply parses_const.
Qed.

Lemma term_loop_stop e rest : no_selector rest -> no_mul rest -> parses (fun f => term_loop f e) rest e rest.
Proof.
  intros (t & r & -> & _) H. eapply parses_step; [intros f; reflexivity |]. tok.
  eapply parses_bind; [apply parses_const, H |]. by apply parses_const.
Qed.

Lemma simple_loop_stop e rest : no_selector rest -> no_add rest -> parses (fun f => simple_loop f e) rest e rest.
Proof.
  intros (t & r & -> & _) H. eapply parses_step; [intros f; reflexivity |]. tok.
  eapply parses_bind; [apply parses_const, H |]. by apply parses_const.
Qed.

Lemma C4_C3 ts e : C4 ts e -> C3 ts e.
Proof. intros [Hs H]. split; [done |]. intros. apply H; auto using no_selector_call, selectors_stop. Qed.

Lemma C3_C2 ts e : C3 ts e -> C2 ts e.
Proof.
  intros [Hs H]. split; [done |]. intros rest x r' Hr Hl.
  eapply parses_step; [intros f; reflexivity |]. eapply parses_bind; [by apply H | done].
Qed.

Lemma C2_C1 ts e : C2 ts e -> C1 ts e.
Proof.
  intros [(t & r & -> & Hp & Hm & _) H] rest x r' Hr Hmul Hl.
  eapply parses_step; [intros f; reflexivity |]. tok.
  do 2 (eapply parses_bind; [apply parses_const, accept_punct_no; eassumption |]; cbv beta iota).
  eapply parses_bind; [| exact Hl]. apply (H rest); auto using term_loop_stop.
Qed.

Lemma C1_C0 ts e : C1 ts e -> C0 ts e.
Proof.
  intros H rest Hr Hmul Hadd Hcmp. eapply parses_step; [intros f; reflexivity |].
  eapply parses_bind; [apply (H rest); auto using simple_loop_stop |].
  pose proof Hr as (t & r & -> & _). tok. eapply parses_bind; [apply parses_const, Hcmp |].
  by apply parses_const.
Qed.

Definition Cp (p : nat) (ts : list Token) (e : Expr) : Prop :=
  match p with 0 => C0 ts e | 1 => C1 ts e | 2 => C2 ts e | 3 => C3 ts e | _ => C4 ts e end.

Lemma Cp_down p q ts e : p <= q -> Cp q ts e -> Cp p ts e.
Proof.
  intros Hpq. induction Hpq as [|q Hpq IH]; [done |]. intros H. apply IH.
  destruct q as [|[|[|[|q]]]]; simpl in *; auto using C4_C3, C3_C2, C2_C1, C1_C0.
Qed.

(** A token that closes every kind of expression. *)
Definition closer (t : Token) : bool :=
  negb (is_punct t P_LPAREN) && negb (is_punct t P_LBRACK) && negb (is_punct t P_DOT)
  && negb (is_punct t P_CARET) && negb (is_punct t P_STAR) && negb (is_punct t P_SLASH)
  && negb (is_word t "div") && negb (is_word t "mod") && negb (is_word t "and")
  && negb (is_punct t P_PLUS) && negb (is_punct t P_MINUS) && negb (is_word t "or")
  && negb (is_word t "xor") && negb (is_punct t P_EQ) && negb (is_punct t P_NE)
  && negb (is_punct t P_LT) && negb (is_punct t P_LE) && negb (is_punct t P_GT)
  && negb (is_punct t P_GE) && negb (is_word t "in").

Lemma closer_follows t r : closer t = true ->
  no_selector (t :: r) /\ no_mul (t :: r) /\ no_add (t :: r) /\ no_cmp (t :: r).
Proof.
  unfold closer. rewrite !andb_true_iff, !negb_true_iff. intros H.
  repeat match goal with H : _ /\ _ |- _ => destruct H end.
  repeat split.
  - exists t, r. simpl. split; [done |]. repeat (rewrite andb_true_iff, negb_true_iff; split; [done |]). done.
  - unfold no_mul, mul_op. skips. done.
  - unfold no_add, add_op. skips. done.
  - unfold no_cmp, cmp_op. skips. done.
Qed.

Lemma C0_closed ts e t r : C0 ts e -> closer t = true -> parses expr (ts ++ t :: r) e (t :: r).
Proof. intros H Ht. destruct (closer_follows t r Ht) as (? & ? & ? & ?). by apply H. Qed.

Section Round.
Variable pl : Loc.

Lemma C0_paren ts e : C0 ts e -> C4 (paren pl ts) e.
Proof using Type.
  intros H. split; [by repeat esplit |]. intros rest x r' _ Hsel. unfold paren. simpl.
  rewrite <- app_assoc. eapply parses_step; [intros f; reflexivity |]. tok. simpl. tok.
  eapply parses_bind; [by apply C0_closed |]. cbv beta. tok. done.
Qed.

Lemma Cp_at_level p e ts : p <= 4 -> Cp (level e) ts e -> Cp p (at_level pl p e ts) e.
Proof using Type.
  intros Hp H. unfold at_level. destruct (Nat.ltb_spec (level e) p).
  - apply (Cp_down p 4); [done |]. apply C0_paren, (Cp_down 0 (level e)); [lia | done].
  - by apply (Cp_down p (level e)).
Qed.

(** *** Literals, names and calls *)

Lemma C3_literal (k : TokKind) (e : Expr) l :
  starts [mkTok k l] ->
  (forall f rest, factor (S f) (mkTok k l :: rest) = Ok (e, rest)) -> C3 [mkTok k l] e.
Proof using Type.
  intros Hs H. split; [done |]. intros rest _. exists 1. intros g Hg. destruct g; [lia |]. apply H.
Qed.

Lemma name_start n l : is_reserved_name n = false -> starts [wd n l].
Proof using Type.
  intros H. exists (wd n l), []. repeat split; simpl; try done.
  - unfold is_word. simpl. destruct (String.eqb_spec n "then") as [-> |]; [discriminate H | done].
  - unfold is_word. simpl. destruct (String.eqb_spec n "else") as [-> |]; [discriminate H | done].
Qed.

Lemma starts_app ts us : starts ts -> starts (ts ++ us).
Proof using Type. intros (t & r & -> & H). exists t, (r ++ us). done. Qed.

(** A factor that begins with a name goes on after it; the name ADR is one when
    no identifier follows. *)
Lemma factor_name n l t r x r' : name_ok n = true -> n <> "adr" \/ is_ident t = false ->
  parses (fun f =>
    let* open := at_punct P_LPAREN in
    if open then
      do* advance in
      let* close := at_punct P_RPAREN in
      let* args := (if close then ret [] else call_args f) in
      do* expect_punct P_RPAREN in
      selectors f (E_CALL l n args)
    else selectors f (E_NAME l n)) (t :: r) x r' ->
  parses factor (wd n l :: t :: r) x r'.
Proof using Type.
  unfold name_ok. rewrite !andb_true_iff, !negb_true_iff. intros [Hr Hs] Ha H.
  eapply parses_step; [intros f; reflexivity |]. tok. simpl.
  assert (String.eqb n "not" = false) as Hn.
  { destruct (String.eqb_spec n "not") as [-> |]; [discriminate Hr | done]. }
  eapply parses_bind; [by apply parses_const, accept_word_no |]. cbv beta iota.
  eapply parses_bind with (a := false) (ts1 := wd n l :: t :: r).
  { apply parses_const. unfold is_word. simpl. destruct (String.eqb_spec n "adr") as [-> |]; [| done].
    destruct Ha as [|Ha]; [done |]. unfold peek, bind, ret. simpl. by rewrite Ha. }
  cbv beta iota. unfold is_word. simpl. rewrite Hs.
  change (is_reserved (wd n l)) with (is_reserved_name n). rewrite Hr. tok. exact H.
Qed.

Lemma C4_name n l : name_ok n = true -> C4 (show pl (E_NAME l n)) (E_NAME l n).
Proof using Type.
  intros Hn. cbn [show]. destruct (String.eqb_spec n "adr") as [-> | Ha].
  - split; [by repeat esplit |]. intros rest x r' _ Hsel.
    eapply parses_step; [intros f; reflexivity |]. tok. simpl. tok.
    eapply parses_bind; [apply (parses_intro expr 9); [apply grows_expr | reflexivity] |].
    cbv beta. tok. done.
  - split; [apply name_start; unfold name_ok in Hn; by destruct (is_reserved_name n) |].
    intros rest x r' (t & r & -> & Ht) Hsel. apply factor_name; [done | by left |].
    simpl in Ht. apply andb_true_iff in Ht as [Ht%negb_true_iff _].
    eapply parses_bind; [by apply parses_const, at_punct_no |]. done.
Qed.

(** No expression begins with a closing parenthesis. *)
Lemma at_level_head p e ts : hd_not [P_RPAREN] ts -> hd_not [P_RPAREN] (at_level pl p e ts).
Proof using Type. unfold at_level. destruct (_ <? _); [| done]. intros _. by repeat esplit. Qed.

Lemma hd_not_app ps ts us : hd_not ps ts -> hd_not ps (ts ++ us).
Proof using Type. intros (t & r & -> & H). by exists t, (r ++ us). Qed.

Lemma show_head e : hd_not [P_RPAREN] (show pl e).
Proof using Type.
  induction e using Expr_nested_ind; cbn [show];
    try (by repeat esplit); try (by apply hd_not_app, at_level_head).
  - destruct (_ =? _)%string; by repeat esplit.
  - destruct op; by repeat esplit.
Qed.

Lemma call_args_show args rest : Forall (fun a => C0 (show pl a) a) args -> args <> [] ->
  parses call_args (show_args pl args ++ pt P_RPAREN pl :: rest) args (pt P_RPAREN pl :: rest).
Proof using Type.
  intros H. induction H as [|a args Ha H IH]; [done |]. intros _.
  eapply parses_step; [intros f; reflexivity |]. destruct args as [|b args].
  - eapply parses_bind; [by apply C0_closed |]. cbv beta. do 3 tok. by apply parses_const.
  - cbn [show_args]. rewrite <- app_assoc. eapply parses_bind; [by apply C0_closed |]. cbv beta. do 3 tok.
    eapply parses_bind; [by apply IH |]. by apply parses_const.
Qed.

Lemma C4_call n l args : name_ok n = true -> Forall (fun a => C0 (show pl a) a) args ->
  C4 (wd n l :: paren pl (show_args pl args)) (E_CALL l n args).
Proof using Type.
  intros Hn Ha. split.
  - apply (starts_app [wd n l]), name_start. unfold name_ok in Hn. by destruct (is_reserved_name n).
  - intros rest x r' Hr Hsel. simpl. apply factor_name; [done | by right |]. rewrite <- app_assoc. do 2 tok.
    destruct args as [|a args].
    + do 3 tok. done.
    + assert (hd_not [P_RPAREN] (show_args pl (a :: args))) as (t & r & E & Ht).
      { destruct args; cbn [show_args]; [apply show_head | apply hd_not_app, show_head]. }
      simpl in Ht. apply andb_true_iff in Ht as [Ht%negb_true_iff _].
      pose proof (call_args_show (a :: args) rest Ha ltac:(done)) as Hargs. rewrite E in *.
      eapply parses_bind; [by apply parses_const, at_punct_no |]. cbv beta iota.
      eapply parses_bind; [apply Hargs |]. cbv beta. tok. done.
Qed.

(** *** Selectors *)

Lemma C4_index ts a ls b l : C4 ts a -> C0 ls b ->
  C4 (ts ++ pt P_LBRACK l :: ls ++ [pt P_RBRACK pl]) (E_INDEX l a b).
Proof using Type.
  intros [Hs Ha] Hb. split; [by apply starts_app |]. intros rest x r' Hr Hsel.
  rewrite <- app_assoc. apply Ha; [by repeat esplit |].
  eapply parses_step; [intros f; reflexivity |]. tok. simpl. rewrite <- app_assoc. tok.
  eapply parses_bind; [by apply C0_closed |]. cbv beta. do 3 tok. done.
Qed.

Lemma C4_field ts a n l : C4 ts a -> is_reserved_name n = false ->
  C4 (ts ++ [pt P_DOT l; wd n pl]) (E_FIELD l a n).
Proof using Type.
  intros [Hs Ha] Hn. split; [by apply starts_app |]. intros rest x r' Hr Hsel.
  rewrite <- app_assoc. apply Ha; [by repeat esplit |].
  eapply parses_step; [intros f; reflexivity |]. do 3 tok.
  eapply parses_bind; [| exact Hsel]. apply parses_const.
  unfold ident, ident_tok, bind, cur. simpl. change (is_reserved (wd n pl)) with (is_reserved_name n).
  by rewrite Hn.
Qed.

Lemma C4_deref ts a l : C4 ts a -> C4 (ts ++ [pt P_CARET l]) (E_DEREF l a).
Proof using Type.
  intros [Hs Ha]. split; [by apply starts_app |]. intros rest x r' Hr Hsel.
  rewrite <- app_assoc. apply Ha; [by repeat esplit |].
  eapply parses_step; [intros f; reflexivity |]. do 4 tok. done.
Qed.

(** *** Operators *)

Lemma C1_neg ts a l : C2 ts a -> C1 (pt P_MINUS l :: ts) (E_UN l OP_NEG a).
Proof using Type.
  intros [Hs Ha] rest x r' Hr Hm Hl. eapply parses_step; [intros f; reflexivity |]. do 2 tok.
  eapply parses_bind; [| exact Hl]. apply Ha; auto using term_loop_stop.
Qed.

Lemma C3_not ts a l : C3 ts a -> C3 (wd "not" l :: ts) (E_UN l OP_NOT a).
Proof using Type.
  intros [Hs Ha]. split; [by repeat esplit |]. intros rest Hr.
  eapply parses_step; [intros f; reflexivity |]. tok. simpl. tok.
  eapply parses_bind; [by apply Ha |]. by apply parses_const.
Qed.

Lemma C3_adr n l : is_reserved_name n = false -> C3 [wd "adr" l; wd n pl] (E_ADR l n).
Proof using Type.
  intros Hn. split; [by repeat esplit |]. intros rest (t & r & -> & Ht).
  simpl in Ht. repeat (apply andb_true_iff in Ht as [?%negb_true_iff Ht]).
  eapply parses_step; [intros f; reflexivity |]. tok. simpl. do 3 tok. unfold adr_operand.
  eapply parses_bind.
  { apply parses_const. unfold ident, ident_tok, bind, cur. simpl.
    change (is_reserved (wd n pl)) with (is_reserved_name n). by rewrite Hn. }
  apply parses_const. cbn [fst]. skips. done.
Qed.

Lemma C2_mul op ts a us b l : op_level op = 2 -> C2 ts a -> C3 us b ->
  C2 (ts ++ op_tok op l :: us) (E_BIN l op a b).
Proof using Type.
  intros Hop [Hs Ha] [Hsb Hb]. split; [by apply starts_app |]. intros rest x r' Hr Hl.
  rewrite <- app_assoc. simpl. apply Ha; [destruct op; try discriminate Hop; by repeat esplit |].
  eapply parses_step; [intros f; reflexivity |]. tok.
  eapply parses_bind with (a := Some op) (ts1 := us ++ rest).
  - apply parses_const. destruct Hsb as (t & r & -> & _ & _ & _ & Ht & _).
    destruct op; try discriminate Hop; try reflexivity.
    unfold mul_op, accept_punct, accept_word, at_punct, at_word, peek, bind, cur, ret. simpl. by rewrite Ht.
  - cbv beta iota. eapply parses_bind; [by apply Hb |]. simpl.
    replace (tloc (op_tok op l)) with l by (by destruct op). done.
Qed.

Lemma C1_add op ts a us b l : op_level op = 1 -> C1 ts a -> C2 us b ->
  C1 (ts ++ op_tok op l :: us) (E_BIN l op a b).
Proof using Type.
  intros Hop Ha [Hsb Hb] rest x r' Hr Hm Hl.
  rewrite <- app_assoc. simpl.
  apply Ha; [destruct op; try discriminate Hop; by repeat esplit | by destruct op |].
  eapply parses_step; [intros f; reflexivity |]. tok.
  eapply parses_bind with (a := Some op) (ts1 := us ++ rest).
  - apply parses_const. destruct Hsb as (t & r & -> & _ & _ & _ & _ & Ht).
    destruct op; try discriminate Hop; try reflexivity.
    unfold add_op, accept_punct, accept_word, at_punct, at_word, advance, bind, cur, ret. simpl. by rewrite Ht.
  - cbv beta iota. eapply parses_bind; [apply Hb; eauto using term_loop_stop |]. simpl.
    replace (tloc (op_tok op l)) with l by (by destruct op). done.
Qed.

Lemma C0_cmp op ts a us b l : is_Some (op_token op) -> op_level op = 0 -> C1 ts a -> C1 us b ->
  C0 (ts ++ op_tok op l :: us) (E_BIN l op a b).
Proof using Type.
  intros Hi Hop Ha Hb rest Hr Hm Had Hc. rewrite <- app_assoc. simpl.
  assert (parses (fun f => simple_loop f a) (op_tok op l :: us ++ rest) a (op_tok op l :: us ++ rest)) as Hl.
  { apply simple_loop_stop; destruct op; try discriminate Hop; try (by destruct Hi); by repeat esplit. }
  eapply parses_step; [intros f; reflexivity |].
  eapply parses_bind.
  { apply Ha; [destruct op; try discriminate Hop; try (by destruct Hi); by repeat esplit | | exact Hl].
    destruct op; try discriminate Hop; try (by destruct Hi). }
  tok. eapply parses_bind with (a := Some op) (ts1 := us ++ rest).
  { apply parses_const. destruct op; try discriminate Hop; try (by destruct Hi). }
  cbv beta iota. eapply parses_bind; [apply Hb; eauto using simple_loop_stop |]. simpl.
  replace (tloc (op_tok op l)) with l by (by destruct op). by apply parses_const.
Qed.

(** *** Every expression *)

Lemma show_call l n args : show pl (E_CALL l n args) = wd n l :: paren pl (show_args pl args).
Proof using Type. reflexivity. Qed.

Lemma show_correct e : well_formed e = true -> Cp (level e) (show pl e) e.
Proof using Type.
  induction e as [l v | l v | l s | l v | l n | l n args IH | l a b IHa IHb | l a n IH | l a IH
    | l op a b IHa IHb | l op a IH | l n] using Expr_nested_ind; cbn [well_formed]; intros Hw.
  1-4: by apply C3_literal; [by repeat esplit |].
  - by apply C4_name.
  - apply andb_true_iff in Hw as [Hn Hw]. rewrite show_call. apply C4_call; [done |].
    rewrite forallb_forall in Hw. rewrite Forall_forall in *. intros a Hin.
    apply (Cp_down 0 (level a)); [lia |]. apply IH, Hw; [done |]. by apply list_elem_of_In.
  - apply andb_true_iff in Hw as [Ha Hb]. apply C4_index; [by apply (Cp_at_level 4), IHa |].
    apply (Cp_down 0 (level b)); [lia | auto].
  - apply andb_true_iff in Hw as [Ha Hb%negb_true_iff]. by apply C4_field; [apply (Cp_at_level 4), IH |].
  - by apply C4_deref, (Cp_at_level 4), IH.
  - rewrite !andb_true_iff, bool_decide_eq_true in Hw. destruct Hw as [[Hop Ha] Hb].
    specialize (IHa Ha). specialize (IHb Hb).
    cbn [show level]. destruct (op_level op) as [|[|[|k]]] eqn:E; simpl max; simpl Nat.add.
    + apply C0_cmp; [done | done | by apply (Cp_at_level 1); [lia |] | by apply (Cp_at_level 1); [lia |]].
    + apply C1_add; [done | by apply (Cp_at_level 1); [lia |] | by apply (Cp_at_level 2); [lia |]].
    + apply C2_mul; [done | by apply (Cp_at_level 2); [lia |] | by apply (Cp_at_level 3); [lia |]].
    + by destruct op.
  - apply andb_true_iff in Hw as [Hop%bool_decide_eq_true Ha]. specialize (IH Ha).
    destruct Hop as [-> | ->].
    + apply C1_neg. apply (Cp_at_level 2); [lia | done].
    + apply C3_not. apply (Cp_at_level 3); [lia | done].
  - by apply C3_adr, negb_true_iff.
Qed.

(** The printed tokens hold no EOF. *)
Definition no_eof (ts : list Token) : Prop := Forall (fun t => is_eof t = false) ts.

Lemma no_eof_at_level p e ts : no_eof ts -> no_eof (at_level pl p e ts).
Proof using Type.
  intros H. unfold at_level, paren. destruct (_ <? _); [| done].
  constructor; [done |]. apply Forall_app. split; [done | by repeat constructor].
Qed.

Lemma show_no_eof e : no_eof (show pl e).
Proof using Type.
  induction e as [| | | | | l n args IH | | | | l op a b IHa IHb | l op a IH |] using Expr_nested_ind;
    rewrite ?show_call; cbn [show]; unfold no_eof, paren in *;
    try (by repeat constructor);
    try (apply Forall_app; split; [by apply no_eof_at_level |]; by repeat constructor).
  - destruct (_ =? _)%string; by repeat constructor.
  - do 2 (constructor; [done |]). apply Forall_app. split; [| by repeat constructor].
    induction IH as [|a args Ha _ IHl]; [done |]. destruct args; [done |]. cbn [show_args].
    apply Forall_app. split; [done |]. by constructor.
  - apply Forall_app. split; [by apply no_eof_at_level |]. constructor; [done |].
    apply Forall_app. split; [done | by repeat constructor].
  - apply Forall_app. split; [by apply no_eof_at_level |].
    constructor; [by destruct op | by apply no_eof_at_level].
  - destruct op; (constructor; [done |]); by apply no_eof_at_level.
Qed.

Lemma eof_ended_app ts us : no_eof ts -> eof_ended us = true -> eof_ended (ts ++ us) = true.
Proof using Type.
  intros Hts Hus. induction Hts as [|t ts Ht Hts IH]; [done |]. simpl. rewrite Ht.
  destruct (ts ++ us) eqn:E; [discriminate IH | done].
Qed.
End Round.

(** The printed tokens of every well-formed expression, followed by tokens that
    end an expression and an EOF, parse back to that expression: the
    precedences, the associativity, the selectors, the argument lists and every
    recorded location are recovered, with the bound the parser uses. *)
Lemma show_parses pl e t r
    (He : well_formed e = true) (Ht : closer t = true) (Hr : eof_ended (t :: r) = true) :
  expr (parse_fuel (length (show pl e ++ t :: r))) (show pl e ++ t :: r) = Ok (e, t :: r).
Proof.
  set (ts := show pl e ++ t :: r). apply parses_at; [apply grows_expr | |].
  - apply C0_closed; [| done]. apply (Cp_down 0 (level e)); [lia | by apply show_correct].
  - pose proof (safe_expr (parse_fuel (length ts)) ts) as Hs. unfold safe in Hs.
    intros E. rewrite E in Hs. apply Hs; [| unfold enough, parse_fuel; lia].
    apply eof_ended_app; [apply show_no_eof | done].
Qed.

(** ** The range of the parser *)

(** Every result of a run satisfies [Q]. *)
Definition yields {A} (m : P A) (Q : A -> Prop) : Prop := forall ts a ts', m ts = Ok (a, ts') -> Q a.

Lemma yields_bind {A B} (m : P A) (k : A -> P B) (R : A -> Prop) Q :
  yields m R -> (forall a, R a -> yields (k a) Q) -> yields (bind m k) Q.
Proof. intros Hm Hk ts b ts' H. inv_ok. eapply Hk; eauto. Qed.

Lemma yields_any {A} (m : P A) : yields m (fun _ => True).
Proof. done. Qed.
Lemma yields_ret {A} (a : A) (Q : A -> Prop) : Q a -> yields (ret a) Q.
Proof. intros H ts b ts' E. by inv_ok. Qed.
Lemma yields_fatal {A} l msg (Q : A -> Prop) : yields (fatal l msg) Q.
Proof. by intros ts a ts'. Qed.
Lemma yields_unsupp {A} l msg (Q : A -> Prop) : yields (unsupp l msg) Q.
Proof. by intros ts a ts'. Qed.
Lemma yields_out {A} (Q : A -> Prop) : yields (fail OutOfFuel) Q.
Proof. by intros ts a ts'. Qed.
Lemma yields_expected {A} what (Q : A -> Prop) : yields (expected what) Q.
Proof. intros ts a ts' E. unfold expected in E. inv_ok. Qed.

Create HintDb yld discriminated.
#[export] Hint Resolve yields_ret yields_fatal yields_unsupp yields_out yields_expected : yld.

Ltac ywalk :=
  repeat first
    [ solve [eauto with yld]
    | match goal with
      | |- yields (bind _ _) _ =>
          eapply yields_bind; [first [solve [eauto 3 with yld] | apply yields_any] | intros ? ?]
      | |- yields (if ?b then _ else _) _ => destruct b eqn:?
      | |- yields (match ?x with _ => _ end) _ => destruct x eqn:?
      end
    | apply yields_ret; simpl in *; try done ].

Lemma yields_ident_tok : yields ident_tok (fun w => is_reserved_name (fst w) = false).
Proof.
  unfold ident_tok. ywalk. unfold is_reserved in *.
  match goal with E : tkind _ = _ |- _ => rewrite E in * end. done.
Qed.
#[export] Hint Resolve yields_ident_tok : yld.

Lemma yields_ident : yields ident (fun n => is_reserved_name n = false).
Proof. unfold ident. ywalk. Qed.
#[export] Hint Resolve yields_ident : yld.

Definition op_ok (o : option Op) : Prop :=
  match o with Some op => bool_decide (is_Some (op_token op)) = true | None => True end.

Lemma yields_mul_op : yields mul_op op_ok.
Proof. unfold mul_op. ywalk. Qed.
Lemma yields_add_op : yields add_op op_ok.
Proof. unfold add_op. ywalk. Qed.
Lemma yields_cmp_op : yields cmp_op op_ok.
Proof. unfold cmp_op. ywalk. Qed.
#[export] Hint Resolve yields_mul_op yields_add_op yields_cmp_op : yld.

Abbreviation wf e := (well_formed e = true).

Lemma yields_adr l : yields (adr_operand l) (fun e => wf e).
Proof. unfold adr_operand. ywalk. by apply negb_true_iff. Qed.
#[export] Hint Resolve yields_adr : yld.

Lemma wf_bin l op a b : op_ok (Some op) -> wf a -> wf b -> wf (E_BIN l op a b).
Proof. simpl. intros -> -> ->. done. Qed.
Lemma wf_index l a b : wf a -> wf b -> wf (E_INDEX l a b).
Proof. simpl. intros -> ->. done. Qed.
Lemma wf_field l a n : wf a -> is_reserved_name n = false -> wf (E_FIELD l a n).
Proof. simpl. intros -> ->. done. Qed.
Lemma wf_call l n es : name_ok n = true -> forallb well_formed es = true -> wf (E_CALL l n es).
Proof. simpl. intros -> ->. done. Qed.
#[export] Hint Resolve wf_bin wf_index wf_field wf_call : yld.

Lemma yields_args (close : bool) (m : P (list Expr)) :
  yields m (fun es => forallb well_formed es = true) ->
  yields (if close then ret [] else m) (fun es => forallb well_formed es = true).
Proof. intros H. destruct close; [by apply yields_ret | done]. Qed.

Lemma token_name_ok t n orig :
  tkind t = T_IDENT n orig -> is_word t "ads" = false -> is_reserved t = false -> name_ok n = true.
Proof.
  unfold is_word, is_reserved, name_ok. intros -> Hs Hr. rewrite Hs. unfold is_reserved_name. by rewrite Hr.
Qed.
#[export] Hint Resolve yields_args token_name_ok : yld.

Lemma exprs_well_formed f :
  yields (expr f) (fun e => wf e) /\ yields (simple f) (fun e => wf e) /\
  (forall e, wf e -> yields (simple_loop f e) (fun e => wf e)) /\ yields (term f) (fun e => wf e) /\
  (forall e, wf e -> yields (term_loop f e) (fun e => wf e)) /\ yields (factor f) (fun e => wf e) /\
  yields (call_args f) (fun es => forallb well_formed es = true) /\
  (forall e, wf e -> yields (selectors f e) (fun e => wf e)).
Proof.
  induction f as [|f IH]; [repeat split; intros; apply yields_out |].
  destruct IH as (? & ? & ? & ? & ? & ? & ? & ?).
  repeat split; intros; cbn [expr simple simple_loop term term_loop factor call_args selectors].
  all: ywalk.
  - by apply andb_true_iff.
  - by apply andb_true_iff.
Qed.

(** ** The results *)

(** C7: the printed tokens of every well-formed expression, followed by a token
    that ends an expression, parse back to that expression: the precedences, the
    associativity, the selectors, the argument lists and every recorded location
    are recovered, with the bound the parser uses. *)
Theorem expr_roundtrip pl e t r
    (He : well_formed e = true) (Ht : closer t = true) (Hr : eof_ended (t :: r) = true) :
  expr (parse_fuel (length (show pl e ++ t :: r))) (show pl e ++ t :: r) = Ok (e, t :: r).
Proof. by apply show_parses. Qed.

(** -(a + b) * f(x[1]^.y, not p) < 3 or adr, as the tree and as the tokens. *)
Definition example_expr : Expr :=
  let l (n : nat) := mkLoc (Some "e") (Z.of_nat n) in
  E_BIN (l 1) OP_LT
    (E_UN (l 2) OP_NEG
       (E_BIN (l 3) OP_MUL
          (E_BIN (l 4) OP_ADD (E_NAME (l 5) "a") (E_NAME (l 6) "b"))
          (E_CALL (l 7) "f"
             [E_FIELD (l 8) (E_DEREF (l 9) (E_INDEX (l 10) (E_NAME (l 11) "x") (E_INT (l 12) 1%Z))) "y";
              E_UN (l 13) OP_NOT (E_NAME (l 14) "p")])))
    (E_BIN (l 15) OP_OR (E_INT (l 16) 3%Z) (E_NAME (l 17) "adr")).
Definition example_end : list Token := [mkTok T_EOF (mkLoc (Some "e") 99%Z)].
Definition example_semi : Token := pt P_SEMI (mkLoc (Some "e") 18%Z).

Lemma expr_roundtrip_witness :
  let ts := show (mkLoc (Some "e") 0%Z) example_expr ++ example_semi :: example_end in
  expr (parse_fuel (length ts)) ts = Ok (example_expr, example_semi :: example_end).
Proof.
  exact (expr_roundtrip (mkLoc (Some "e") 0%Z) example_expr example_semi example_end
    ltac:(reflexivity) ltac:(reflexivity) ltac:(reflexivity)).
Defined.

(** C8: the well-formed trees are exactly the trees the expression parser
    produces: whatever tokens it accepts, the tree is well formed, and every
    well-formed tree is the parse of some tokens. *)
Theorem expr_range e :
  well_formed e = true <-> exists f ts rest, expr f ts = Ok (e, rest).
Proof.
  split.
  - intros He. do 3 eexists. exact (show_parses (mkLoc None 0%Z) e (pt P_SEMI (mkLoc None 0%Z))
      [mkTok T_EOF (mkLoc None 0%Z)] He eq_refl eq_refl).
  - intros (f & ts & rest & H). destruct (exprs_well_formed f) as [Hw _]. exact (Hw _ _ _ H).
Qed.
