(* ===== verification/LexProps.v ===== *)
(** What the tokenizer guarantees: it ends on every text, with tokens of the
    shape the parser relies on; integers are read exactly or refused; printed
    tokens are read back. *)

From Stdlib Require Import ZArith Ascii String SpecFloat Lia.
From stdpp Require Import base list strings.
From S2P Require Import Prelude Real Ast Lex Parse ParseSafe.
#[local] Open Scope Z_scope.

(** ** The spans *)

Lemma span_digits_eq s : forall ds r, span_digits s = (ds, r) ->
  s = ds ++ r /\ forallb isdigit ds = true /\
  match r with c :: _ => isdigit c = false | [] => True end.
Proof.
  induction s as [|c s IH]; simpl; intros ds r H; [by simplify_eq |].
  destruct (isdigit c) eqn:E; [| by simplify_eq].
  destruct (span_digits s) as [w r'] eqn:Es. simplify_eq. destruct (IH _ _ eq_refl) as (-> & H & Hr).
  simpl. rewrite E, H. done.
Qed.

Lemma span_ident_eq s : forall w r, span_ident s = (w, r) -> s = w ++ r /\
  forallb (fun c => isalnum c || ceq c "_") w = true.
Proof.
  induction s as [|c s IH]; simpl; intros w r H; [by simplify_eq |].
  destruct (isalnum c || ceq c "_") eqn:E; [| by simplify_eq].
  destruct (span_ident s) as [w' r'] eqn:Es. simplify_eq. destruct (IH _ _ eq_refl) as (-> & H).
  simpl. rewrite E, H. done.
Qed.

(** ** The tokens of a text *)

(** What the rest of the translator may rely on of a token. *)
Definition token_ok (k : TokKind) : Prop :=
  match k with
  | T_EOF => False
  | T_IDENT text orig =>
      text = str (map tolower (chars orig)) /\
      exists c w, chars orig = c :: w /\ isalpha c || ceq c "_" = true /\
        forallb (fun c => isalnum c || ceq c "_") w = true
  | T_INT v => 0 <= v <= INT64_MAX
  | T_REAL _ => True
  | T_STR s => length s <> 1%nat /\ Forall (fun c => c <> newline) s
  | T_CHAR v => 0 <= v < 256 /\ v <> 10
  | T_PUNCT _ => True
  end.

(** How the reading of a token may end: with a token and a shorter text, or with
    a located message. *)
Definition reads (r : res (TokKind * bytes)) (s : bytes) : Prop :=
  match r with
  | Ok (k, rest) => token_ok k /\ (length rest < length s)%nat
  | Err (Fatal _ _) => True
  | Err _ => False
  end.

Lemma uwrap64_small v : 0 <= v <= INT64_MAX -> uwrap 64 v = v.
Proof. intros H. unfold uwrap. apply Z.mod_small. unfold INT64_MAX in H. lia. Qed.

Lemma swrap64_small v : 0 <= v <= INT64_MAX -> swrap 64 v = v.
Proof.
  intros H. apply swrap_small; [done |]. unfold in_srange, INT64_MAX in *.
  change (2 ^ (64 - 1)) with 9223372036854775808. lia.
Qed.

(** The overflow test before each digit is exact. *)
Lemma digit_guard b v d : 2 <= b <= 36 -> 0 <= v -> 0 <= d < b ->
  ((INT64_MAX - d) / b <? v) = negb (v * b + d <=? INT64_MAX).
Proof.
  intros Hb Hv Hd. destruct (Z.leb_spec (v * b + d) INT64_MAX) as [H | H]; simpl.
  - apply Z.ltb_ge. apply Z.div_le_lower_bound; lia.
  - apply Z.ltb_lt. apply Z.div_lt_upper_bound; lia.
Qed.

(** The value of digits in any base, after a value [v]. *)
Definition digits_value (b v : Z) (ds : bytes) : Z := fold_left (fun v c => v * b + digit_value c) ds v.

Lemma digits_value_ge b ds : forall v, 1 <= b -> 0 <= v -> Forall (fun c => 0 <= digit_value c) ds ->
  v <= digits_value b v ds.
Proof.
  induction ds as [|c ds IH]; simpl; intros v Hb Hv H; [lia |]. inversion H; subst.
  specialize (IH (v * b + digit_value c) Hb ltac:(nia) ltac:(done)). nia.
Qed.

Lemma digit_value_dec c : isdigit c = true -> digit_value c = code c - 48 /\ 0 <= digit_value c < 10.
Proof.
  intros H. unfold digit_value. change (between "0" "9" c) with (isdigit c). rewrite H.
  apply isdigit_iff in H. change (code "0") with 48. lia.
Qed.

Lemma digit_value_nonneg c : 0 <= digit_value c.
Proof.
  assert ((0 <=? digit_value c) = true) as H by (apply (char_check (fun c => 0 <=? digit_value c)); by vm_compute).
  by apply Z.leb_le.
Qed.

(** The loop of a radix constant stops at the first character that is no digit of
    the base. *)
Fixpoint span_base (b : Z) (s : bytes) : bytes * bytes :=
  match s with
  | c :: s' => if digit_value c <? b then let '(w, r) := span_base b s' in (c :: w, r) else ([], s)
  | [] => ([], [])
  end.

Definition too_big : string := "integer literal exceeds INTEGER64".

(** The digits in range are summed exactly, or the literal is refused. *)
Lemma radix_digits_exact l b (Hb : 2 <= b <= 36) s : forall v, 0 <= v <= INT64_MAX ->
  let '(ds, r) := span_base b s in
  radix_digits l b v s =
    if digits_value b v ds <=? INT64_MAX then Ok (digits_value b v ds, r) else rfatal l too_big.
Proof.
  induction s as [|c s IH]; simpl; intros v Hv; [by rewrite (proj2 (Z.leb_le v INT64_MAX)) by lia |].
  destruct (Z.ltb_spec (digit_value c) b) as [Hc | Hc]; simpl; [| by rewrite (proj2 (Z.leb_le v INT64_MAX)) by lia].
  pose proof (digit_value_nonneg c). rewrite digit_guard by lia.
  specialize (IH (v * b + digit_value c)). destruct (span_base b s) as [ds r]. simpl.
  destruct (Z.leb_spec (v * b + digit_value c) INT64_MAX) as [Hle | Hgt]; simpl.
  - rewrite uwrap64_small by nia. apply IH. nia.
  - rewrite (proj2 (Z.leb_gt _ INT64_MAX)); [done |].
    eapply Z.lt_le_trans; [exact Hgt |]. apply digits_value_ge; [lia | nia |].
    apply Forall_forall. intros x _. apply digit_value_nonneg.
Qed.

Lemma decimal_digits_exact l ds : forall v, forallb isdigit ds = true -> 0 <= v <= INT64_MAX ->
  decimal_digits l v ds =
    if digits_value 10 v ds <=? INT64_MAX then Ok (digits_value 10 v ds) else rfatal l too_big.
Proof.
  induction ds as [|c ds IH]; simpl; intros v Hds Hv; [by rewrite (proj2 (Z.leb_le v INT64_MAX)) by lia |].
  apply andb_true_iff in Hds as [Hc Hds]. destruct (digit_value_dec c Hc) as [E Hd].
  change (code "0") with 48. rewrite <- E. rewrite digit_guard by lia.
  destruct (Z.leb_spec (v * 10 + digit_value c) INT64_MAX) as [Hle | Hgt]; simpl.
  - rewrite uwrap64_small by nia. apply IH; [done | nia].
  - rewrite (proj2 (Z.leb_gt _ INT64_MAX)); [done |].
    eapply Z.lt_le_trans; [exact Hgt |]. apply digits_value_ge; [lia | nia |].
    apply Forall_forall. intros x _. apply digit_value_nonneg.
Qed.

Lemma radix_base_exact l ds : forall v, forallb isdigit ds = true -> 0 <= v <= 36 ->
  radix_base l v ds =
    if digits_value 10 v ds <=? 36 then Ok (digits_value 10 v ds) else rfatal l "bad radix constant".
Proof.
  induction ds as [|c ds IH]; simpl; intros v Hds Hv; [by rewrite (proj2 (Z.leb_le v 36)) by lia |].
  apply andb_true_iff in Hds as [Hc Hds]. destruct (digit_value_dec c Hc) as [E Hd].
  change (code "0") with 48. rewrite <- E.
  destruct (Z.ltb_spec 36 (v * 10 + digit_value c)) as [Hgt | Hle].
  - rewrite (proj2 (Z.leb_gt _ 36)); [done |].
    eapply Z.lt_le_trans; [exact Hgt |]. apply digits_value_ge; [lia | nia |].
    apply Forall_forall. intros x _. apply digit_value_nonneg.
  - apply IH; [done | lia].
Qed.

Lemma span_digits_app ds : forall r, forallb isdigit ds = true ->
  match r with c :: _ => isdigit c = false | [] => True end -> span_digits (ds ++ r) = (ds, r).
Proof.
  induction ds as [|c ds IH]; intros r Hds Hr; simpl in *.
  - destruct r as [|c r]; [done |]. simpl. by rewrite Hr.
  - apply andb_true_iff in Hds as [-> Hds]. by rewrite IH.
Qed.

Lemma span_base_app b s : forall ds r, span_base b s = (ds, r) -> s = ds ++ r.
Proof.
  induction s as [|c s IH]; simpl; intros ds r H; [by simplify_eq |].
  destruct (_ <? _); [| by simplify_eq]. destruct (span_base b s). simplify_eq. simpl. f_equal. by apply IH.
Qed.

(** What a decimal integer literal is followed by: no digit, no number sign, no
    fraction and no exponent. *)
Definition ends_int (r : bytes) : bool :=
  match r with
  | c :: r' =>
      negb (isdigit c) && negb (ceq c "#") && negb (ceq c "e" || ceq c "E")
      && negb (ceq c "." && match r' with d :: _ => isdigit d | [] => false end)
  | [] => true
  end.

Lemma ends_int_stops r : ends_int r = true ->
  match r with c :: _ => isdigit c = false | [] => True end /\
  match r with c :: r' => if ceq c "#" then Some r' else None | [] => None end = None /\
  fraction r = ([], r) /\ exponent r = ([], r).
Proof.
  destruct r as [|c r]; [done |]. simpl. rewrite !andb_true_iff, !negb_true_iff. intros [[[Hd Hh] He] Hf].
  rewrite Hh, He. repeat split; try done. destruct r as [|d r]; [done |]. by rewrite Hf.
Qed.

Lemma lex_number_decimal l ds r : forallb isdigit ds = true -> ends_int r = true ->
  lex_number l (ds ++ r) =
    if digits_value 10 0 ds <=? INT64_MAX then Ok (T_INT (digits_value 10 0 ds), r) else rfatal l too_big.
Proof.
  intros Hds Hr. destruct (ends_int_stops r Hr) as (Hd & Hh & Hf & He).
  unfold lex_number. rewrite span_digits_app by done. rewrite Hh, Hf, He.
  rewrite decimal_digits_exact by done. destruct (Z.leb_spec (digits_value 10 0 ds) INT64_MAX); simpl; [| done].
  rewrite swrap64_small; [done |]. split; [| done]. apply digits_value_ge; [done | done |].
  apply Forall_forall. intros x _. apply digit_value_nonneg.
Qed.

Definition bad_radix : string := "bad radix constant".

Lemma lex_number_radix l ds s : forallb isdigit ds = true ->
  lex_number l (ds ++ "#"%char :: s) =
    let b := digits_value 10 0 ds in
    if (2 <=? b) && (b <=? 36) then
      let '(xs, r) := span_base b s in
      if digits_value b 0 xs <=? INT64_MAX then
        match xs with [] => rfatal l bad_radix | _ => Ok (T_INT (digits_value b 0 xs), r) end
      else rfatal l too_big
    else rfatal l bad_radix.
Proof.
  intros Hds. unfold lex_number. rewrite span_digits_app by done. cbn [ceq Ascii.eqb Bool.eqb].
  rewrite radix_base_exact by done. set (b := digits_value 10 0 ds). cbv zeta.
  destruct (Z.leb_spec b 36); simpl; [| by rewrite andb_false_r].
  destruct (Z.ltb_spec b 2) as [Hb | Hb].
  { rewrite (proj2 (Z.leb_gt 2 b)) by lia. done. }
  rewrite (proj2 (Z.leb_le 2 b)) by lia. simpl.
  pose proof (radix_digits_exact l b ltac:(lia) s 0 ltac:(unfold INT64_MAX; lia)) as E.
  destruct (span_base b s) as [xs r] eqn:Es. rewrite E. apply span_base_app in Es as ->.
  destruct (Z.leb_spec (digits_value b 0 xs) INT64_MAX); simpl; [| done]. rewrite length_app.
  destruct xs as [|x xs].
  - simpl. by rewrite Nat.eqb_refl.
  - rewrite (proj2 (Nat.eqb_neq _ _)) by (simpl; lia). rewrite swrap64_small; [done |].
    split; [| done]. apply digits_value_ge; [lia | done |]. apply Forall_forall. intros y _. apply digit_value_nonneg.
Qed.

(** ** Strings *)

Definition only_fatal {A} (r : res A) : Prop :=
  match r with Ok _ => True | Err (Fatal _ _) => True | Err _ => False end.

Lemma ceq_spec c d : reflect (c = d) (ceq c d).
Proof. apply Ascii.eqb_spec. Qed.

Lemma string_scan_reads l : forall n s b, (length s <= n)%nat -> Forall (fun c => c <> newline) b ->
  match string_scan l s b with
  | Ok (w, r) => (length r < length s)%nat /\ Forall (fun c => c <> newline) w
  | Err (Fatal _ _) => True
  | Err _ => False
  end.
Proof.
  induction n as [|n IH]; intros s b Hn Hb; (destruct s as [|c s]; simpl in Hn; [done | try lia]).
  simpl. destruct (ceq_spec c newline) as [-> | Hc]; [done |].
  assert (Forall (fun c => c <> newline) (rev b)) as Hrev by (rewrite Forall_forall in *; intros x Hx; apply Hb;
    rewrite list_elem_of_In in *; by apply in_rev).
  destruct (ceq_spec c quote) as [-> | Hq].
  - destruct s as [|d s]; simpl; [split; [lia | done] |].
    destruct (ceq_spec d quote) as [-> | Hd]; [| simpl; split; [lia | done]].
    simpl in Hn. specialize (IH s (quote :: b) ltac:(lia) ltac:(by constructor)).
    destruct (string_scan l s (quote :: b)) as [[w r] | []]; try done. destruct IH. split; [lia | done].
  - specialize (IH s (c :: b) ltac:(lia) ltac:(by constructor)).
    destruct (string_scan l s (c :: b)) as [[w r] | []]; try done. destruct IH. split; [lia | done].
Qed.

Lemma code_newline c : code c = 10 -> c = newline.
Proof. intros H. apply code_inj. by rewrite H. Qed.

Lemma lex_string_reads l s : reads (lex_string l s) s.
Proof.
  unfold lex_string, reads. pose proof (string_scan_reads l _ s [] (le_n _) ltac:(constructor)) as H.
  destruct (string_scan l s []) as [[w r] | []]; try done. simpl. destruct H as [Hl Hw].
  destruct w as [|c [|d w]]; simpl; (split; [| done]); try (split; [simpl; lia | done]).
  split; [apply code_range |]. intros E%code_newline. inversion Hw. done.
Qed.

(** The text of a string between its quotes. *)
Definition quoted (s : bytes) : bytes := concat (map (fun c => if ceq c quote then [quote; quote] else [c]) s).

Lemma string_scan_quoted l s r : forall b, Forall (fun c => c <> newline) s ->
  match r with c :: _ => c <> quote | [] => True end ->
  string_scan l (quoted s ++ quote :: r) b = Ok (rev b ++ s, r).
Proof.
  induction s as [|c s IH]; intros b Hs Hr; cbn [quoted concat map app].
  - simpl. rewrite app_nil_r. destruct r as [|d r]; [done |].
    destruct (ceq_spec d quote); done.
  - inversion Hs; subst. destruct (ceq_spec c quote) as [-> | Hq].
    + simpl. fold (quoted s). rewrite IH by done. simpl. by rewrite <- app_assoc.
    + simpl. fold (quoted s). destruct (ceq_spec c newline); [done |]. destruct (ceq_spec c quote); [done |].
      rewrite IH by done. simpl. by rewrite <- app_assoc.
Qed.

(** ** One token *)

Lemma fraction_app s f r : fraction s = (f, r) -> s = f ++ r.
Proof.
  unfold fraction. destruct s as [|p [|d s]]; [by intros [= <- <-] .. |].
  destruct (ceq p "." && isdigit d); [| by intros [= <- <-]].
  destruct (span_digits (d :: s)) as [w r'] eqn:E. intros [= <- <-].
  apply span_digits_eq in E as [-> _]. done.
Qed.

Lemma exponent_app s e r : exponent s = (e, r) -> s = e ++ r.
Proof.
  unfold exponent. destruct s as [|c s]; [by intros [= <- <-] |].
  destruct (ceq c "e" || ceq c "E"); [| by intros [= <- <-]].
  destruct s as [|d s]; [by intros [= <- <-] |].
  destruct (ceq d "+" || ceq d "-").
  - destruct (span_digits s) as [w r'] eqn:E. apply span_digits_eq in E as [-> _].
    destruct w; intros [= <- <-]; done.
  - destruct (span_digits (d :: s)) as [w r'] eqn:E. apply span_digits_eq in E as [-> _].
    destruct w; intros [= <- <-]; done.
Qed.

Lemma lex_number_reads l c s : isdigit c = true -> reads (lex_number l (c :: s)) (c :: s).
Proof.
  intros Hc. destruct (span_digits (c :: s)) as [ip r] eqn:E.
  pose proof (span_digits_eq _ _ _ E) as (Hs & Hip & Hr).
  assert (ip <> []) as Hne by (intros ->; simpl in E; rewrite Hc in E; by destruct (span_digits s)).
  assert (forall b xs, 1 <= b -> 0 <= digits_value b 0 xs) as Hpos.
  { intros b xs Hb. apply digits_value_ge; [done | done |]. apply Forall_forall. intros y _. apply digit_value_nonneg. }
  assert ((exists s', r = "#"%char :: s') \/
    match r with c :: r' => if ceq c "#" then Some r' else None | [] => None end = None) as [[s' ->] | Hn].
  { destruct r as [|d r']; [by right |]. destruct (ceq_spec d "#") as [-> |]; [left; eauto | by right]. }
  - rewrite Hs. rewrite lex_number_radix by done. cbv zeta.
    destruct ((2 <=? digits_value 10 0 ip) && (digits_value 10 0 ip <=? 36)) eqn:Hb; [| done].
    apply andb_true_iff in Hb as [Hb%Z.leb_le _].
    destruct (span_base _ s') as [xs r'] eqn:Es. apply span_base_app in Es as ->.
    destruct (Z.leb_spec (digits_value (digits_value 10 0 ip) 0 xs) INT64_MAX) as [Hle | ]; [| done].
    destruct xs as [|x xs]; [done |]. split; [split; [apply Hpos; lia | done] |].
    rewrite !length_app. simpl. rewrite length_app. lia.
  - unfold lex_number. rewrite E.
    rewrite Hn.
    destruct (fraction r) as [fp r1] eqn:Ef. destruct (exponent r1) as [ep r2] eqn:Ee.
    pose proof (fraction_app _ _ _ Ef) as Hr1. pose proof (exponent_app _ _ _ Ee) as Hr2.
    assert (length r2 < length (c :: s))%nat as Hlen.
    { rewrite Hs, Hr1, Hr2, !length_app. destruct ip; [done |]. simpl. lia. }
    destruct fp, ep; try done. rewrite decimal_digits_exact by done.
    destruct (Z.leb_spec (digits_value 10 0 ip) INT64_MAX); [| done]. simpl.
    split; [| done]. rewrite swrap64_small by (split; [apply Hpos; lia | done]). split; [apply Hpos; lia | done].
Qed.

Lemma lex_punct_reads l c s : reads (lex_punct l c s) (c :: s).
Proof.
  unfold lex_punct, reads. destruct (punct_of c _) as [[p two] |]; [| done]. split; [done |].
  destruct two; [| simpl; lia]. destruct s; simpl; lia.
Qed.

Lemma span_ident_cons c s w r : isalnum c || ceq c "_" = true -> span_ident (c :: s) = (w, r) ->
  exists w', w = c :: w' /\ s = w' ++ r /\ forallb (fun c => isalnum c || ceq c "_") w' = true.
Proof.
  intros Hc H. simpl in H. rewrite Hc in H. destruct (span_ident s) as [w' r'] eqn:E.
  injection H as <- <-. apply span_ident_eq in E as [-> Hw]. eauto.
Qed.

Lemma alpha_ident c : isalpha c || ceq c "_" = true -> isalnum c || ceq c "_" = true.
Proof. unfold isalnum. destruct (isalpha c); simpl; [done |]. intros ->. apply orb_true_r. Qed.

Lemma lex_token_reads l c s : reads (lex_token l c s) (c :: s).
Proof.
  unfold lex_token. destruct (isalpha c || ceq c "_") eqn:Ha.
  - destruct (span_ident (c :: s)) as [w r] eqn:E.
    destruct (span_ident_cons _ _ _ _ (alpha_ident c Ha) E) as (w' & -> & -> & Hw').
    split; [| simpl; rewrite length_app; lia].
    cbn [token_ok]. rewrite chars_str. split; [done |]. exists c, w'. done.
  - destruct (isdigit c) eqn:Hd; [by apply lex_number_reads |].
    destruct (ceq c quote); [| apply lex_punct_reads].
    pose proof (lex_string_reads l s) as H. unfold reads in *.
    destruct (lex_string l s) as [[k r] | []]; try done. destruct H. split; [done | simpl; lia].
Qed.

(** ** A whole file *)

(** The tokens so far, newest first. *)
Definition tokens_ok (ts : list Token) : Prop := Forall (fun t => token_ok (tkind t)) ts.

(** How reading a file may end: with tokens, or with a message about a location
    or about a file that does not open. *)
Definition lexes (r : res (list Token)) : Prop :=
  match r with
  | Ok ts => tokens_ok ts
  | Err (Fatal _ _) | Err (CannotOpen _) => True
  | Err _ => False
  end.

Lemma comment_scan_reads l paren s : forall line body,
  match comment_scan l paren s line body with
  | Ok (_, r, _) => (length r < length s)%nat
  | Err (Fatal _ _) => True
  | Err _ => False
  end.
Proof.
  induction s as [|c s IH]; intros line body; simpl; [done |].
  destruct (negb paren && ceq c "}"); [lia |].
  destruct (paren && ceq c "*" && _); [destruct s; simpl; lia |].
  specialize (IH (if ceq c newline then line + 1 else line) (c :: body)).
  destruct (comment_scan _ _ s _ _) as [[[b r] ln] | []]; try done. lia.
Qed.

Lemma mathck_only_fatal l s : only_fatal (mathck_setting l s).
Proof. unfold mathck_setting. repeat case_match; done. Qed.
Lemma include_only_fatal l s : only_fatal (include_name l s).
Proof. unfold include_name. repeat case_match; done. Qed.

Section Files.
Variable fs : string -> option bytes.

Lemma metacommand_lexes incl dir depth body l toks :
  tokens_ok toks ->
  ((depth <= 16)%nat -> forall p l toks, tokens_ok toks -> lexes (incl p l toks)) ->
  lexes (metacommand incl dir depth body l toks).
Proof using Type.
  intros Ht Hi. unfold metacommand. destruct (meta_word 31 (tail body)) as [w r].
  destruct (_ =? _)%string.
  - pose proof (mathck_only_fatal l r). destruct (mathck_setting l r) as [|[]]; done.
  - destruct (negb _); [done |].
    pose proof (include_only_fatal l r). destruct (include_name l r) as [name|[]]; try done. simpl.
    destruct (Z.ltb_spec 16 (Z.of_nat depth)); [done |]. apply Hi; [lia | done].
Qed.

Lemma lex_loop_lexes incl file dir depth :
  ((depth <= 16)%nat -> forall p l toks, tokens_ok toks -> lexes (incl p l toks)) ->
  forall fuel s line toks, (length s < fuel)%nat -> tokens_ok toks ->
  lexes (lex_loop incl file dir depth fuel s line toks).
Proof using Type.
  intros Hi. induction fuel as [|f IH]; intros s line toks Hf Ht; [lia |].
  destruct s as [|c s]; simpl; [done |]. simpl in Hf.
  assert (forall paren s', (length s' <= length s)%nat ->
    lexes (let! (r, line', toks') := skip_comment incl file dir depth paren s' line toks in
           lex_loop incl file dir depth f r line' toks')) as Hc.
  { intros paren s' Hs'. unfold skip_comment.
    pose proof (comment_scan_reads (mkLoc (Some file) line) paren s' line []) as H.
    destruct (comment_scan _ _ s' _ _) as [[[b r] ln] | []]; try done. simpl.
    assert (lexes (match b with c :: _ => if ceq c "$"
      then metacommand incl dir depth b (mkLoc (Some file) line) toks else Ok toks | [] => Ok toks end)) as Hm.
    { destruct b as [|c' b]; [done |]. destruct (ceq c' "$"); [by apply metacommand_lexes | done]. }
    destruct (match b with [] => _ | _ => _ end) as [toks' | []]; try done. simpl. apply IH; [lia | done]. }
  destruct (ceq c newline); [apply IH; [lia | done] |].
  destruct (isspace c); [apply IH; [lia | done] |].
  destruct (ceq c "{"); [apply Hc; lia |].
  destruct (ceq c "(" && _); [apply Hc; destruct s; simpl; lia |].
  pose proof (lex_token_reads (mkLoc (Some file) line) c s) as Hr. unfold reads in Hr.
  destruct (lex_token _ c s) as [[k r] | []]; try done. destruct Hr as [Hk Hl]. simpl in Hl |- *.
  apply IH; [lia | by constructor].
Qed.

(** The nesting bound of the model is never reached: at depth 17 no $INCLUDE is
    followed. *)
Lemma lex_one_lexes : forall dfuel path depth from toks,
  (17 < dfuel + depth)%nat -> (depth <= 17)%nat -> tokens_ok toks ->
  lexes (lex_one fs dfuel path depth from toks).
Proof using Type.
  induction dfuel as [|df IH]; intros path depth from toks Hd Hd' Ht; [lia |]. cbn [lex_one].
  destruct (fs path) as [src |]; [| by destruct (loc_file from)].
  apply lex_loop_lexes; [| lia | done]. intros Hle p l t Hp. apply IH; [lia | lia | done].
Qed.
End Files.

Lemma token_ok_not_eof t : token_ok (tkind t) -> is_eof t = false.
Proof. unfold is_eof. by destruct (tkind t). Qed.

Lemma tokens_ok_ended ts e : tokens_ok ts -> is_eof e = true -> eof_ended (ts ++ [e]) = true.
Proof.
  intros H He. induction H as [|t ts Ht _ IH]; [done |]. simpl. rewrite (token_ok_not_eof t Ht).
  destruct (ts ++ [e]) eqn:E; [by destruct ts | done].
Qed.

(** What [lex_file] gives the parser. *)
Lemma lex_file_ended fs path :
  match lex_file fs path with
  | Ok ts => eof_ended ts = true /\ exists body e, ts = body ++ [e] /\ is_eof e = true /\ tokens_ok body
  | Err (Fatal _ _) | Err (CannotOpen _) => True
  | Err _ => False
  end.
Proof.
  unfold lex_file. pose proof (lex_one_lexes fs lex_fuel path 0 (mkLoc None 0) []
    ltac:(unfold lex_fuel; lia) ltac:(lia) ltac:(constructor)) as H. unfold lexes in H.
  destruct (lex_one fs lex_fuel path 0 _ []) as [ts | []]; try done. simpl.
  set (e := mkTok T_EOF _). assert (tokens_ok (rev ts)) as Hr.
  { unfold tokens_ok in *. rewrite Forall_forall in *. intros t Ht. apply H.
    rewrite list_elem_of_In in *. by apply in_rev. }
  split; [by apply tokens_ok_ended | by exists (rev ts), e].
Qed.

(** ** Printed tokens *)

Definition tok_text (k : TokKind) : bytes :=
  match k with
  | T_IDENT _ orig => chars orig
  | T_INT v => dec_bytes v
  | T_STR s => quote :: quoted s ++ [quote]
  | T_CHAR v => quote :: quoted [chr v] ++ [quote]
  | T_PUNCT p => chars (punct_text p)
  | T_REAL _ | T_EOF => []
  end.

(** The tokens a text can hold, reals apart. *)
Definition printable (k : TokKind) : Prop := token_ok k /\ match k with T_REAL _ => False | _ => True end.

(** A character that begins a token: no white space and no opening brace. *)
Definition opens_token (c : ascii) : bool := negb (ceq c newline) && negb (isspace c) && negb (ceq c "{").

Lemma span_ident_app w : forall r, forallb (fun c => isalnum c || ceq c "_") w = true ->
  match r with c :: _ => isalnum c || ceq c "_" = false | [] => True end -> span_ident (w ++ r) = (w, r).
Proof.
  induction w as [|c w IH]; intros r Hw Hr; simpl in *.
  - destruct r as [|c r]; [done |]. simpl. by rewrite Hr.
  - apply andb_true_iff in Hw as [-> Hw]. by rewrite IH.
Qed.

Lemma digits_value_base ds : forallb isdigit ds = true -> forall v,
  digits_value 10 v ds = fold_left (fun v c => v * 10 + (code c - code "0")) ds v.
Proof.
  induction ds as [|c ds IH]; simpl; intros H v; [done |]. apply andb_true_iff in H as [Hc H].
  destruct (digit_value_dec c Hc) as [-> _]. by apply IH.
Qed.

Lemma dec_bytes_value n : 0 <= n -> forallb isdigit (dec_bytes n) = true /\ digits_value 10 0 (dec_bytes n) = n.
Proof.
  intros Hn. assert (forallb isdigit (dec_bytes n) = true) as Hd.
  { apply forallb_forall. intros c Hc. pose proof (base_digits_digits 10 ltac:(lia) n Hn) as H.
    rewrite Forall_forall in H. apply H. by apply list_elem_of_In. }
  split; [done |]. rewrite digits_value_base by done. apply (base_digits_value 10); lia.
Qed.

Lemma alpha_opens c : isalpha c || ceq c "_" = true -> opens_token c = true /\ ceq c "(" = false.
Proof.
  intros H. pose proof (char_check (fun c => implb (isalpha c || ceq c "_") (opens_token c && negb (ceq c "("))) c
    ltac:(by vm_compute)) as Hc. simpl in Hc. rewrite H in Hc. simpl in Hc.
  by apply andb_true_iff in Hc as [-> Hc%negb_true_iff].
Qed.

Lemma digit_opens c : isdigit c = true ->
  opens_token c = true /\ ceq c "(" = false /\ isalpha c || ceq c "_" = false.
Proof.
  intros H. pose proof (char_check (fun c => implb (isdigit c)
    (opens_token c && negb (ceq c "(") && negb (isalpha c || ceq c "_"))) c ltac:(by vm_compute)) as Hc.
  simpl in Hc. rewrite H in Hc. simpl in Hc. rewrite !andb_true_iff in Hc.
  by destruct Hc as [[-> ?%negb_true_iff] ?%negb_true_iff].
Qed.

(** A printed token, followed by a space, is read back. *)
Definition read_back (k : TokKind) : Prop := exists c s, tok_text k = c :: s /\ opens_token c = true /\
  (ceq c "(" = false \/ s = []) /\
  forall l rest, lex_token l c (s ++ " "%char :: rest) = Ok (k, " "%char :: rest).

Lemma read_back_ident text orig : token_ok (T_IDENT text orig) -> read_back (T_IDENT text orig).
Proof.
  intros (-> & c & w & E & Hc & Hw). exists c, w. destruct (alpha_opens c Hc) as [Ho Hp].
  repeat split; [done | done | by left |]. intros l rest. unfold lex_token. rewrite Hc.
  change (c :: w ++ " "%char :: rest) with ((c :: w) ++ " "%char :: rest).
  rewrite span_ident_app; [| simpl; by rewrite (alpha_ident c Hc), Hw | done].
  rewrite <- E. by rewrite (str_chars orig).
Qed.

Lemma read_back_int v : 0 <= v <= INT64_MAX -> read_back (T_INT v).
Proof.
  intros Hv. destruct (dec_bytes_value v ltac:(lia)) as [Hd Hval].
  pose proof (base_digits_nonempty 10 ltac:(lia) v) as Hne. fold (dec_bytes v) in Hne.
  destruct (dec_bytes v) as [|c s] eqn:E; [done |]. exists c, s.
  pose proof Hd as Hd'. simpl in Hd'. apply andb_true_iff in Hd' as [Hc _].
  destruct (digit_opens c Hc) as (Ho & Hp & Ha). repeat split; [done | done | by left |].
  intros l rest. unfold lex_token. rewrite Ha, Hc.
  change (c :: s ++ " "%char :: rest) with ((c :: s) ++ " "%char :: rest).
  rewrite lex_number_decimal by done. rewrite Hval. by rewrite (proj2 (Z.leb_le v INT64_MAX)) by lia.
Qed.

Lemma read_back_quoted s k :
  Forall (fun c => c <> newline) s -> tok_text k = quote :: quoted s ++ [quote] ->
  match s with [c] => k = T_CHAR (code c) | _ => k = T_STR s end -> read_back k.
Proof.
  intros Hs E Hk. exists quote, (quoted s ++ [quote]). repeat split; [done | by left |].
  intros l rest. unfold lex_token. simpl. unfold lex_string. rewrite <- app_assoc.
  simpl. rewrite string_scan_quoted by done. simpl. destruct s as [|c [|d s]]; by subst.
Qed.

Lemma printable_read_back k : printable k -> read_back k.
Proof.
  intros [Hk Hr]. destruct k as [| text orig | v | v | s | v | p]; try done.
  - by apply read_back_ident.
  - by apply read_back_int.
  - destruct Hk as [Hn Hs]. apply (read_back_quoted s); [done | done |]. by destruct s as [|c [|d s]].
  - destruct Hk as [Hv Hn]. apply (read_back_quoted [chr v]); [| done | by rewrite code_chr].
    repeat constructor. intros E. apply Hn. rewrite <- (code_chr v) by done. by rewrite E.
  - destruct p; eexists _, _; (split; [reflexivity |]); repeat split; auto.
Qed.

(** A file of lines of tokens, and its tokens with their locations. *)
Definition print_line (ks : list TokKind) : bytes :=
  concat (map (fun k => tok_text k ++ [" "%char]) ks) ++ [newline].
Definition print_lines (ls : list (list TokKind)) : bytes := concat (map print_line ls).

Definition place_line (file : string) (line : Z) (ks : list TokKind) : list Token :=
  map (fun k => mkTok k (mkLoc (Some file) line)) ks.
Fixpoint place (file : string) (line : Z) (ls : list (list TokKind)) : list Token :=
  match ls with
  | [] => []
  | ks :: ls' => place_line file line ks ++ place file (line + 1) ls'
  end.

Section PrintedLines.
Variable incl : string -> Loc -> list Token -> res (list Token).
Variables (file dir : string) (depth : nat).

(** The loop on a printed token goes on after the space that follows it. *)
Lemma lex_loop_token k rest f line toks : read_back k -> (length (tok_text k ++ " "%char :: rest) < f)%nat ->
  exists g, (length rest < g)%nat /\
    lex_loop incl file dir depth f (tok_text k ++ " "%char :: rest) line toks =
    lex_loop incl file dir depth g rest line (mkTok k (mkLoc (Some file) line) :: toks).
Proof using Type.
  intros (c & s & E & Ho & Hp & Hr) Hf. rewrite E in *. simpl in Hf. rewrite length_app in Hf. simpl in Hf.
  destruct f as [|[|f]]; [lia | lia |]. exists f. split; [lia |]. simpl app.
  unfold opens_token in Ho. rewrite !andb_true_iff, !negb_true_iff in Ho. destruct Ho as [[H1 H2] H3].
  cbn [lex_loop]. rewrite H1, H2, H3.
  assert (ceq c "(" && match s ++ " "%char :: rest with d :: _ => ceq d "*" | [] => false end = false) as ->.
  { destruct Hp as [-> | ->]; [done |]. by rewrite andb_comm. }
  rewrite Hr. reflexivity.
Qed.

Lemma lex_loop_line ks rest line : Forall read_back ks -> forall f toks,
  (length (print_line ks ++ rest) < f)%nat ->
  exists g, (length rest < g)%nat /\
    lex_loop incl file dir depth f (print_line ks ++ rest) line toks =
    lex_loop incl file dir depth g rest (line + 1) (rev (place_line file line ks) ++ toks).
Proof using Type.
  induction 1 as [|k ks Hk _ IH]; intros f toks Hf.
  - destruct f as [|f]; [simpl in Hf; lia |]. exists f. simpl in Hf. split; [lia | done].
  - assert (print_line (k :: ks) ++ rest = tok_text k ++ " "%char :: print_line ks ++ rest) as E.
    { unfold print_line. simpl. rewrite <- !app_assoc. done. }
    rewrite E in *. destruct (lex_loop_token k _ f line toks Hk Hf) as (g & Hg & ->).
    destruct (IH g (mkTok k (mkLoc (Some file) line) :: toks) Hg) as (h & Hh & ->).
    exists h. split; [done |]. simpl. by rewrite <- app_assoc.
Qed.

Lemma lex_loop_lines ls : Forall (Forall read_back) ls -> forall f line toks,
  (length (print_lines ls) < f)%nat ->
  lex_loop incl file dir depth f (print_lines ls) line toks = Ok (rev (place file line ls) ++ toks).
Proof using Type.
  induction 1 as [|ks ls Hk _ IH]; intros f line toks Hf.
  - destruct f as [|f]; [simpl in Hf; lia | done].
  - change (print_lines (ks :: ls)) with (print_line ks ++ print_lines ls) in *.
    destruct (lex_loop_line ks _ line Hk f toks Hf) as (g & Hg & ->). rewrite IH by done.
    simpl. by rewrite rev_app_distr, <- app_assoc.
Qed.
End PrintedLines.

(** The location of the EOF token: that of the last token. *)
Definition eof_loc (path : string) (ts : list Token) : Loc :=
  match rev ts with t :: _ => tloc t | [] => mkLoc (Some path) 1 end.

Lemma lex_print_lines fs path ls :
  Forall (Forall printable) ls -> fs path = Some (print_lines ls) ->
  lex_file fs path = Ok (place path 1 ls ++ [mkTok T_EOF (eof_loc path (place path 1 ls))]).
Proof.
  intros Hp Hfs. unfold lex_file, lex_fuel. cbn [lex_one]. rewrite Hfs.
  rewrite lex_loop_lines; [| | lia].
  - rewrite app_nil_r. cbn [rbind]. unfold eof_loc. simpl. rewrite rev_involutive. done.
  - eapply Forall_impl; [exact Hp |]. intros ks Hks. eapply Forall_impl; [exact Hks |].
    intros k. apply printable_read_back.
Qed.

(** ** The results *)

(** C2: the front end ends on every file and whatever it includes: the text is
    tokenized and parsed into a tree, or the run stops with a message at a
    location or about a file that does not open. No loop or recursion exceeds the
    bound the model gives it, and the parser never reads past the token array. *)
Theorem front_end_total fs path :
  match (let! toks := lex_file fs path in parse_compiland toks) with
  | Ok _ | Err (Fatal _ _) | Err (CannotOpen _) => True
  | Err _ => False
  end.
Proof.
  pose proof (lex_file_ended fs path) as H. destruct (lex_file fs path) as [ts | e]; simpl; [| by destruct e].
  destruct H as [H _]. pose proof (compiland_ends ts H) as Hp. by destruct (parse_compiland ts) as [c | []].
Qed.

(** C36: [lex_file] returns the tokens of the text followed by one EOF, or stops
    with a message; every token before the EOF has the shape the rest of the
    translator relies on: integers in 0..INT64_MAX, characters in 0..255, strings
    without a newline that are not one character long, identifiers made of the
    identifier characters with their spelling folded to lower case. *)
Theorem lex_file_tokens fs path :
  match lex_file fs path with
  | Ok ts => exists body e, ts = body ++ [e] /\ is_eof e = true /\ Forall (fun t => token_ok (tkind t)) body
  | Err (Fatal _ _) | Err (CannotOpen _) => True
  | Err _ => False
  end.
Proof. pose proof (lex_file_ended fs path) as H. destruct (lex_file fs path); [by destruct H | done]. Qed.

(** C37: printed tokens are read back: a file that holds lines of identifiers,
    integers, strings, characters and punctuation, each followed by a space, is
    tokenized into exactly those tokens, each with its file and line, and the
    EOF. *)
Theorem lex_print_roundtrip fs path ls
    (Hp : Forall (Forall printable) ls) (Hfs : fs path = Some (print_lines ls)) :
  lex_file fs path = Ok (place path 1 ls ++ [mkTok T_EOF (eof_loc path (place path 1 ls))]).
Proof. by apply lex_print_lines. Qed.

Definition example_lines : list (list TokKind) :=
  [[T_IDENT "x" "X"; T_PUNCT P_ASSIGN; T_INT 42]; []; [T_STR (chars "it's"); T_CHAR 39; T_PUNCT P_LPAREN]].

Lemma lex_print_roundtrip_witness :
  lex_file (fun _ => Some (print_lines example_lines)) "f" =
  Ok (place "f" 1 example_lines ++ [mkTok T_EOF (mkLoc (Some "f") 3)]).
Proof.
  apply (lex_print_roundtrip (fun _ => Some (print_lines example_lines)) "f" example_lines); [| reflexivity].
  repeat constructor; simpl; try lia; try discriminate.
  exists "X"%char, []. done.
Defined.

(** C38: a number is read exactly or refused. Decimal digits that are followed by
    neither a radix, a fraction nor an exponent denote their value when it is at
    most INT64_MAX, and are refused as too big otherwise; a radix constant
    denotes the value of the longest run of digits of its base, 2 to 36, with the
    same limit, and is refused when the base is out of range or no digit
    follows. *)
Theorem lex_number_exact l ds r (Hds : forallb isdigit ds = true) :
  (ends_int r = true ->
   lex_number l (ds ++ r) =
     if digits_value 10 0 ds <=? INT64_MAX then Ok (T_INT (digits_value 10 0 ds), r) else Err (Fatal l too_big)) /\
  lex_number l (ds ++ "#"%char :: r) =
    (let b := digits_value 10 0 ds in
     if (2 <=? b) && (b <=? 36) then
       let '(xs, r') := span_base b r in
       if digits_value b 0 xs <=? INT64_MAX then
         match xs with [] => Err (Fatal l bad_radix) | _ => Ok (T_INT (digits_value b 0 xs), r') end
       else Err (Fatal l too_big)
     else Err (Fatal l bad_radix)).
Proof. split; [by apply lex_number_decimal | by apply lex_number_radix]. Qed.

Lemma lex_number_exact_witness :
  let l := mkLoc None 1 in
  lex_number l (chars "9223372036854775807;") = Ok (T_INT 9223372036854775807, chars ";") /\
  lex_number l (chars "9223372036854775808;") = Err (Fatal l too_big) /\
  lex_number l (chars "16#7Fg") = Ok (T_INT 127, chars "g").
Proof.
  intros l. split; [| split].
  - exact (proj1 (lex_number_exact l (chars "9223372036854775807") (chars ";") ltac:(reflexivity)) ltac:(reflexivity)).
  - exact (proj1 (lex_number_exact l (chars "9223372036854775808") (chars ";") ltac:(reflexivity)) ltac:(reflexivity)).
  - exact (proj2 (lex_number_exact l (chars "16") (chars "7Fg") ltac:(reflexivity))).
Defined.
