(* ===== verification/SemProps.v ===== *)
(** What sem.c promises: the hashed scopes behave as a stack of finite maps,
    constants are evaluated exactly, structural types are interned once, and type
    compatibility is an equivalence. *)

From Stdlib Require Import ZArith Ascii String SpecFloat Lia.
From stdpp Require Import base list strings gmap.
From S2P Require Import Prelude Real Ast Sem.
#[local] Open Scope Z_scope.

(** * Scopes: hash tables refine a stack of finite maps *)

Module Scopes.

(** ** The abstract scopes *)

(** A stack of maps from names to symbols, innermost first, and the next symbol. *)
Record Abs := mkAbs { a_next : symid; a_maps : list (gmap string symid) }.

Fixpoint alookup (ms : list (gmap string symid)) (name : string) : option symid :=
  match ms with
  | m :: ms' => match m !! name with Some i => Some i | None => alookup ms' name end
  | [] => None
  end.

(** The operations on scopes, in the order a translation performs them. *)
Inductive ScopeOp := Push | Pop | Define (s : Sym) | MarkDefined (i : symid).

(** A pop or a definition needs an open scope, a mark an existing symbol. *)
Definition astep (op : ScopeOp) (a : Abs) : option Abs :=
  match op, a_maps a with
  | Push, ms => Some (mkAbs (a_next a) (∅ :: ms))
  | Pop, _ :: ms => Some (mkAbs (a_next a) ms)
  | Define s, m :: ms => Some (mkAbs (S (a_next a)) (<[s_name s := a_next a]> m :: ms))
  | MarkDefined i, ms => if (i <? a_next a)%nat then Some a else None
  | _, [] => None
  end.

Fixpoint asteps (ops : list ScopeOp) (a : Abs) : option Abs :=
  match ops with
  | [] => Some a
  | op :: ops' => match astep op a with Some a' => asteps ops' a' | None => None end
  end.

(** ** The concrete ones *)

Definition cstep (op : ScopeOp) : SM unit :=
  match op with
  | Push => scope_push
  | Pop => scope_pop
  | Define s => do* define s in ret tt
  | MarkDefined i => update_sym i set_defined
  end.

Fixpoint csteps (ops : list ScopeOp) : SM unit :=
  match ops with
  | [] => ret tt
  | op :: ops' => do* cstep op in csteps ops'
  end.

(** ** The relation between them *)

(** Every symbol of every chain is in the store. *)
Definition table_ok (n : nat) (sc : table) : Prop := forall h i, In i (bucket sc h) -> (i < n)%nat.

Definition refines (ss : list Sym) (sc : table) (m : gmap string symid) : Prop :=
  table_ok (length ss) sc /\ forall name, find_in ss sc name = m !! name.

Definition related (st : Sem) (a : Abs) : Prop :=
  a_next a = length (syms st) /\ Forall2 (refines (syms st)) (scopes st) (a_maps a).

(** ** Chains *)

Lemma named_app ss s name i : (i < length ss)%nat -> named (ss ++ [s]) name i = named ss name i.
Proof. intros H. unfold named. by rewrite lookup_app_l. Qed.

Lemma named_new ss s name : named (ss ++ [s]) name (length ss) = String.eqb (s_name s) name.
Proof. unfold named. by rewrite list_lookup_middle. Qed.

Lemma named_unique ss i n n' : named ss n i = true -> named ss n' i = true -> n = n'.
Proof.
  unfold named. destruct (ss !! i); [| done].
  intros E1%String.eqb_eq E2%String.eqb_eq. congruence.
Qed.

Lemma find_chain_app ss s name chain : (forall i, In i chain -> (i < length ss)%nat) ->
  find_chain (ss ++ [s]) name chain = find_chain ss name chain.
Proof.
  induction chain as [|i chain IH]; simpl; intros H; [done |].
  rewrite named_app by auto. destruct (named ss name i); [done | auto].
Qed.

(** The definition replaces the symbol of that name in its place, or goes first. *)
Definition define_chain (ss : list Sym) (name : string) (i : symid) (chain : list symid) : list symid :=
  match replace_chain ss name i chain with Some c => c | None => i :: chain end.

Lemma define_in_bucket ss sc i name h :
  bucket (define_in ss sc i name) h =
    if decide (h = hash name) then define_chain ss name i (bucket sc h) else bucket sc h.
Proof.
  unfold define_in, define_chain, bucket. destruct (decide (h = hash name)) as [-> | Hh].
  - destruct (replace_chain _ _ _ _); by rewrite lookup_insert_eq.
  - destruct (replace_chain _ _ _ _); by rewrite lookup_insert_ne.
Qed.

Lemma replace_chain_in ss name i chain c : replace_chain ss name i chain = Some c ->
  forall j, In j c -> j = i \/ In j chain.
Proof.
  revert c. induction chain as [|k chain IH]; simpl; intros c H j Hj; [done |].
  destruct (named ss name k).
  - injection H as <-. destruct Hj; auto.
  - destruct (replace_chain ss name i chain); [| done]. injection H as <-.
    destruct Hj as [-> | Hj]; [auto |]. destruct (IH _ eq_refl _ Hj); auto.
Qed.

Lemma define_chain_in ss name i chain j : In j (define_chain ss name i chain) -> j = i \/ In j chain.
Proof.
  unfold define_chain. destruct (replace_chain ss name i chain) eqn:E.
  - by apply (replace_chain_in ss name).
  - simpl. intros [<- | ?]; auto.
Qed.

Lemma find_replace ss name i chain c : named ss name i = true -> replace_chain ss name i chain = Some c ->
  forall n, find_chain ss n c = if String.eqb name n then Some i else find_chain ss n chain.
Proof.
  intros Hi. revert c. induction chain as [|k chain IH]; simpl; intros c H n; [done |].
  destruct (named ss name k) eqn:Ek.
  - injection H as <-. simpl. destruct (String.eqb_spec name n) as [<- | Hn]; [by rewrite Hi |].
    assert (named ss n i = false) as -> by (destruct (named ss n i) eqn:E; [| done]; by destruct (Hn (named_unique _ _ _ _ Hi E))).
    assert (named ss n k = false) as -> by (destruct (named ss n k) eqn:E; [| done]; by destruct (Hn (named_unique _ _ _ _ Ek E))).
    done.
  - destruct (replace_chain ss name i chain) as [c' |]; [| done]. injection H as <-. simpl.
    rewrite (IH c') by done. destruct (String.eqb_spec name n) as [<- | Hn]; [by rewrite Ek | done].
Qed.

Lemma find_define_chain ss name i chain n : named ss name i = true ->
  find_chain ss n (define_chain ss name i chain) =
    if String.eqb name n then Some i else find_chain ss n chain.
Proof.
  intros Hi. unfold define_chain. destruct (replace_chain ss name i chain) eqn:E.
  - by apply (find_replace ss name i chain).
  - simpl. destruct (String.eqb_spec name n) as [<- | Hn]; [by rewrite Hi |].
    by assert (named ss n i = false) as -> by (destruct (named ss n i) eqn:E'; [| done]; by destruct (Hn (named_unique _ _ _ _ Hi E'))).
Qed.

(** ** Each operation *)

Lemma named_other ss name n i : named ss name i = true -> name <> n -> named ss n i = false.
Proof. intros Hi Hn. destruct (named ss n i) eqn:E; [| done]. by destruct (Hn (named_unique _ _ _ _ Hi E)). Qed.

Lemma refines_empty ss : refines ss ∅ ∅.
Proof.
  split; [intros h i; unfold bucket; by rewrite lookup_empty |].
  intros name. unfold find_in, bucket. by rewrite !lookup_empty.
Qed.

(** A new symbol does not change what the scopes hold. *)
Lemma refines_new_sym ss s sc m : refines ss sc m -> refines (ss ++ [s]) sc m.
Proof.
  intros [Hok Hf]. split.
  - intros h i Hi. rewrite length_app. specialize (Hok h i Hi). lia.
  - intros name. rewrite <- Hf. unfold find_in. apply find_chain_app. intros i. apply Hok.
Qed.

Lemma refines_define ss s sc m : refines ss sc m ->
  refines (ss ++ [s]) (define_in (ss ++ [s]) sc (length ss) (s_name s)) (<[s_name s := length ss]> m).
Proof.
  intros [Hok Hf]. pose proof (named_new ss s (s_name s)) as Hn. rewrite String.eqb_refl in Hn. split.
  - intros h i. rewrite define_in_bucket, length_app. simpl.
    destruct (decide _); [intros [-> | Hi]%define_chain_in; [lia |] | intros Hi]; specialize (Hok h i Hi); lia.
  - intros name. unfold find_in. rewrite define_in_bucket.
    destruct (decide (hash name = hash (s_name s))) as [Hh | Hh].
    + rewrite find_define_chain by done. rewrite find_chain_app by (intros i; apply Hok).
      destruct (String.eqb_spec (s_name s) name) as [<- | Hne]; [by rewrite lookup_insert_eq |].
      rewrite lookup_insert_ne by done. apply Hf.
    + rewrite find_chain_app by (intros i; apply Hok). rewrite lookup_insert_ne by congruence. apply Hf.
Qed.

(** Marking a symbol keeps its name, so the scopes hold what they held. *)
Lemma named_update ss i s s' name j : ss !! i = Some s -> s_name s' = s_name s ->
  named (<[i := s']> ss) name j = named ss name j.
Proof.
  intros Hi Hn. unfold named. destruct (decide (i = j)) as [<- | Hne].
  - rewrite list_lookup_insert_eq by (by apply lookup_lt_Some in Hi). by rewrite Hi, Hn.
  - by rewrite list_lookup_insert_ne.
Qed.

Lemma find_chain_ext ss ss' name chain :
  (forall i, named ss' name i = named ss name i) -> find_chain ss' name chain = find_chain ss name chain.
Proof. intros H. induction chain as [|i c IH]; simpl; [done |]. by rewrite H, IH. Qed.

Lemma refines_update ss i s s' sc m : ss !! i = Some s -> s_name s' = s_name s ->
  refines ss sc m -> refines (<[i := s']> ss) sc m.
Proof.
  intros Hi Hn [Hok Hf]. split; [by rewrite length_insert |].
  intros name. rewrite <- Hf. apply find_chain_ext. intros j. by apply (named_update ss i s).
Qed.

Lemma cstep_sim op st a a' : related st a -> astep op a = Some a' ->
  exists st', cstep op st = Ok (tt, st') /\ related st' a'.
Proof.
  intros [Hn Hr] Ha. destruct op as [| | s | i]; simpl in Ha |- *.
  - injection Ha as <-. eexists. split; [done |]. split; [done |]. constructor; [apply refines_empty | done].
  - destruct (a_maps a) as [|m ms] eqn:E; [done |]. injection Ha as <-.
    inversion Hr as [|sc ? scs ? H1 H2 E1]; subst.
    eexists. split; [done |]. split; [done |]. simpl. by rewrite <- E1.
  - destruct (a_maps a) as [|m ms] eqn:E; [done |]. injection Ha as <-.
    inversion Hr as [|sc ? scs ? H1 H2 E1]; subst.
    unfold define, alloc_sym, bind, get, modify, ret. simpl. rewrite <- E1. simpl.
    eexists. split; [done |]. split; simpl; [rewrite length_app, Hn; simpl; lia |]. rewrite Hn.
    constructor; [by apply refines_define |].
    eapply Forall2_impl; [exact H2 |]. intros. by apply refines_new_sym.
  - destruct (Nat.ltb_spec i (a_next a)) as [Hi |]; [| destruct (a_maps a); done].
    assert (Ha' : a = a') by (destruct (a_maps a); by injection Ha). subst a'.
    rewrite Hn in Hi. apply lookup_lt_is_Some in Hi as [s Hs].
    unfold update_sym, get_sym, modify, bind. rewrite Hs. eexists. split; [done |].
    split; simpl; [by rewrite length_insert |].
    eapply Forall2_impl; [exact Hr |]. intros sc m Hm. by apply (refines_update _ i s).
Qed.

Lemma csteps_sim ops : forall st a a', related st a -> asteps ops a = Some a' ->
  exists st', csteps ops st = Ok (tt, st') /\ related st' a'.
Proof.
  induction ops as [|op ops IH]; simpl; intros st a a' Hr Ha; [injection Ha as <-; by exists st |].
  destruct (astep op a) as [a1 |] eqn:E; [| done].
  destruct (cstep_sim op st a a1 Hr E) as (st1 & E1 & Hr1).
  unfold bind. rewrite E1. by apply (IH st1 a1).
Qed.

(** ** Lookups *)

Lemma lookup_in_sim ss scs ms name : Forall2 (refines ss) scs ms -> lookup_in ss scs name = alookup ms name.
Proof. induction 1 as [|sc m scs ms [_ Hf] _ IH]; simpl; [done |]. by rewrite Hf, IH. Qed.

Lemma find_in_valid ss sc m name i : refines ss sc m -> find_in ss sc name = Some i -> (i < length ss)%nat.
Proof.
  intros [Hok _]. unfold find_in. specialize (Hok (hash name)).
  induction (bucket sc (hash name)) as [|j c IH]; simpl; [done |]. simpl in Hok.
  destruct (named ss name j); [intros [= <-]; auto |]. apply IH. auto.
Qed.

Lemma lookup_in_valid ss scs ms name i : Forall2 (refines ss) scs ms ->
  lookup_in ss scs name = Some i -> (i < length ss)%nat.
Proof.
  induction 1 as [|sc m scs ms H _ IH]; simpl; [done |]. destruct (find_in ss sc name) eqn:E; [| done].
  intros [= <-]. by eapply find_in_valid.
Qed.

(** A lookup returns the symbol of the innermost map that has the name. *)
Definition found (st : Sem) (o : option symid) : res (option (symid * Sym) * Sem) :=
  match o with
  | None => Ok (None, st)
  | Some i => match syms st !! i with Some s => Ok (Some (i, s), st) | None => Err (Undef "no such symbol") end
  end.

Lemma deref_found st o : (forall i, o = Some i -> (i < length (syms st))%nat) -> deref_sym o st = found st o.
Proof.
  destruct o as [i |]; [| done]. intros H. destruct (lookup_lt_is_Some_2 (syms st) i (H i eq_refl)) as [s Hs].
  unfold deref_sym, found, bind, get_sym, ret. by rewrite Hs.
Qed.

Lemma lookup_sim st a name : related st a -> lookup name st = found st (alookup (a_maps a) name).
Proof.
  intros [_ Hr]. unfold lookup, bind, get. rewrite deref_found.
  - by rewrite (lookup_in_sim _ _ _ _ Hr).
  - intros i. by apply (lookup_in_valid _ _ _ _ _ Hr).
Qed.

Lemma lookup_innermost_sim st a m ms name : related st a -> a_maps a = m :: ms ->
  lookup_innermost name st = found st (m !! name).
Proof.
  intros [_ Hr] E. rewrite E in Hr. inversion Hr as [|sc ? scs ? H1 H2 E1]; subst.
  unfold lookup_innermost, bind, get. rewrite <- E1. rewrite deref_found.
  - destruct H1 as [_ Hf]. by rewrite Hf.
  - intros i. by apply (find_in_valid _ _ _ _ _ H1).
Qed.

Lemma find_chain_named ss name chain i : find_chain ss name chain = Some i -> named ss name i = true.
Proof.
  induction chain as [|j c IH]; simpl; [done |]. destruct (named ss name j) eqn:E; [by intros [= <-] | done].
Qed.

Lemma lookup_in_named ss scs name i : lookup_in ss scs name = Some i -> named ss name i = true.
Proof.
  induction scs as [|sc scs IH]; simpl; [done |].
  destruct (find_in ss sc name) eqn:E; [intros [= <-]; by eapply find_chain_named | done].
Qed.

Lemma named_sym ss name i : named ss name i = true -> exists s, ss !! i = Some s /\ s_name s = name.
Proof. unfold named. destruct (ss !! i) as [s |]; [| done]. intros H%String.eqb_eq. eauto. Qed.

Lemma alookup_sym st a name i : related st a -> alookup (a_maps a) name = Some i ->
  exists s, syms st !! i = Some s /\ s_name s = name.
Proof.
  intros [_ Hr] E. rewrite <- (lookup_in_sim _ _ _ _ Hr) in E. by eapply named_sym, lookup_in_named.
Qed.

(** C10: every sequence of operations that the abstract scopes allow runs on the hash
    tables without an error and keeps them in step: a name then means the symbol
    its innermost map has for it, or nothing, whatever names collide in the
    buckets; and the symbol a lookup returns bears the name. *)
Theorem scopes_refine ops st a a' (Hr : related st a) (Ha : asteps ops a = Some a') :
  exists st', csteps ops st = Ok (tt, st') /\ related st' a' /\
    (forall name, lookup name st' = found st' (alookup (a_maps a') name)) /\
    (forall name m ms, a_maps a' = m :: ms -> lookup_innermost name st' = found st' (m !! name)) /\
    (forall name i, alookup (a_maps a') name = Some i -> exists s, syms st' !! i = Some s /\ s_name s = name).
Proof.
  destruct (csteps_sim ops st a a' Hr Ha) as (st' & E & Hr'). exists st'. split; [done |]. split; [done |].
  split; [intros; by apply lookup_sim |].
  split; [intros; by eapply lookup_innermost_sim | intros; by eapply alookup_sym].
Qed.

Lemma related_empty : related empty_sem (mkAbs 0 []).
Proof. split; [done | constructor]. Qed.

(** Two names of the same bucket, one of them redefined in an inner scope. *)
Definition example_ops : list ScopeOp :=
  [Push; Define (new_sym "c21" SY_VAR no_loc); Define (new_sym "head" SY_VAR no_loc); Push;
   Define (new_sym "y" SY_VAR no_loc); Define (new_sym "head" SY_CONST no_loc);
   MarkDefined 1; Define (new_sym "head" SY_TYPE no_loc); Pop].

Lemma scopes_refine_witness :
  hash "c21" = hash "head" /\
  exists st, csteps example_ops empty_sem = Ok (tt, st) /\ lookup "head" st = found st (Some 1%nat) /\
    lookup "c21" st = found st (Some 0%nat) /\ lookup "y" st = found st None.
Proof.
  split; [reflexivity |].
  destruct (scopes_refine example_ops empty_sem (mkAbs 0 [])
    (mkAbs 5 [<["head" := 1%nat]> (<["c21" := 0%nat]> ∅)]) related_empty ltac:(reflexivity)) as (st & E & _ & H & _).
  exists st. split; [exact E |]. split; [exact (H "head") |]. split; [exact (H "c21") | exact (H "y")].
Defined.
End Scopes.

(** * Constants *)

Module Consts.

(** The first types of the store are the predefined ones. *)
Definition predefs : list TypeDesc :=
  [TY_INT 16 "INTEGER"; TY_INT 32 "INTEGER32"; TY_INT 32 "CINT"; TY_INT 64 "INTEGER64";
   TY_INT 64 "CLONG"; TY_INT 64 "CSIZE_T"; TY_REAL; TY_BOOL; TY_CHAR; TY_ADRMEM; TY_NIL;
   TY_STRLIT; TY_VOID].
Definition desc_at (st : Sem) (t : tyid) : option TypeDesc := t_desc <$> types st !! t.
Definition basic (st : Sem) : Prop := forall i d, predefs !! i = Some d -> desc_at st i = Some d.

(** The integer a constant name stands for. *)
Definition const_name_value (st : Sem) (name : string) : option Z :=
  match lookup_in (syms st) (scopes st) name with
  | Some i =>
      match syms st !! i with
      | Some s =>
          if bool_decide (s_kind s = SY_CONST) then
            match s_ty s with
            | Some t => match desc_at st t with Some (TY_INT _ _) => Some (s_ival s) | _ => None end
            | None => None
            end
          else None
      | None => None
      end
  | None => None
  end.

(** The value of an integer constant expression in unbounded integers. *)
Fixpoint math (st : Sem) (e : Expr) : option Z :=
  match e with
  | E_INT _ v => Some v
  | E_NAME _ n => const_name_value st n
  | E_UN _ OP_NEG a => Z.opp <$> math st a
  | E_BIN _ op a b =>
      match math st a, math st b, op with
      | Some x, Some y, OP_ADD => Some (x + y)
      | Some x, Some y, OP_SUB => Some (x - y)
      | Some x, Some y, OP_MUL => Some (x * y)
      | Some x, Some y, OP_IDIV => if y =? 0 then None else Some (Z.quot x y)
      | _, _, _ => None
      end
  | _ => None
  end.

(** Every operation's result fits INTEGER64. *)
Definition fits (o : option Z) : bool := match o with Some v => fits64 v | None => false end.
Fixpoint ops_fit (st : Sem) (e : Expr) : bool :=
  match e with
  | E_UN _ _ a => ops_fit st a && fits (math st e)
  | E_BIN _ _ a b => ops_fit st a && ops_fit st b && fits (math st e)
  | _ => match math st e with Some _ => true | None => false end
  end.

Lemma desc_of_ok t st d : desc_at st t = Some d -> desc_of t st = Ok (d, st).
Proof.
  unfold desc_at, desc_of, get_type, bind, ret. destruct (types st !! t) as [ty |]; [| done].
  simpl. by intros [= <-].
Qed.

Lemma desc_of_inv t st d st' : desc_of t st = Ok (d, st') -> desc_at st t = Some d /\ st' = st.
Proof.
  unfold desc_at, desc_of, get_type, bind, ret. destruct (types st !! t) as [ty |]; [| done].
  simpl. by intros [= <- <-].
Qed.

Lemma int_type_for_int st v : basic st -> exists w n, desc_at st (int_type_for v) = Some (TY_INT w n).
Proof.
  intros Hb. unfold int_type_for. repeat case_match;
    (eexists _, _; apply Hb; reflexivity).
Qed.

Definition is_int_at (st : Sem) (t : tyid) : Prop := exists w n, desc_at st t = Some (TY_INT w n).
Definition overflows : string := "constant arithmetic overflows INTEGER64".

Lemma exact64_cases st l z : basic st ->
  if fits64 z then exists v, exact64 l z st = Ok (v, st) /\ cv_ival v = z /\ is_int_at st (cv_ty v)
  else exact64 l z st = Err (Fatal l overflows).
Proof.
  intros Hb. unfold exact64. destruct (fits64 z); [| done].
  exists (const_int z). split; [done |]. split; [done |]. by apply int_type_for_int.
Qed.

Lemma const_name_eval st l n z : const_name_value st n = Some z ->
  exists v, const_eval (E_NAME l n) st = Ok (v, st) /\ cv_ival v = z /\ is_int_at st (cv_ty v).
Proof.
  unfold const_name_value. cbn [const_eval]. unfold lookup, deref_sym, get_sym, bind, get, ret.
  destruct (lookup_in (syms st) (scopes st) n) as [i |]; [| done].
  destruct (syms st !! i) as [s |]; [| done]. destruct (bool_decide _); [| done].
  destruct (s_ty s) as [t |]; [| done]. destruct (desc_at st t) as [d |] eqn:Hd; [| done].
  destruct d; try done. intros [= <-]. eexists. split; [done |]. split; [done |]. by eexists _, _.
Qed.

(** An operand that is an integer is seen as one. *)
Lemma is_int_ok st t : is_int_at st t -> is_int t st = Ok (true, st).
Proof. intros (w & n & Hd). unfold is_int, bind. by rewrite (desc_of_ok _ _ _ Hd). Qed.

Definition outcome (st : Sem) (e : Expr) (z : Z) : Prop :=
  if ops_fit st e
  then exists v, const_eval e st = Ok (v, st) /\ cv_ival v = z /\ is_int_at st (cv_ty v)
  else exists l, const_eval e st = Err (Fatal l overflows).

Lemma const_bin_outcome st l op a b x y z : basic st -> outcome st a x -> outcome st b y ->
  math st a = Some x -> math st b = Some y -> math st (E_BIN l op a b) = Some z ->
  outcome st (E_BIN l op a b) z.
Proof.
  intros Hb Ha Hbo Ex Ey Ez. unfold outcome in *. cbn [ops_fit]. rewrite Ez. cbn [fits].
  cbn [const_eval].
  destruct (ops_fit st a); [| destruct Ha as [l' Ea]; exists l'; by apply bind_err].
  destruct Ha as (va & Ea & <- & Hta). rewrite (bind_ok _ _ _ _ _ Ea).
  destruct (ops_fit st b); [| destruct Hbo as [l' Eb]; exists l'; by apply bind_err].
  destruct Hbo as (vb & Eb & <- & Htb). rewrite (bind_ok _ _ _ _ _ Eb).
  rewrite (bind_ok _ _ _ _ _ (is_int_ok _ _ Hta)), (bind_ok _ _ _ _ _ (is_int_ok _ _ Htb)).
  cbn [andb negb].
  cbn [math] in Ez. rewrite Ex, Ey in Ez. pose proof (exact64_cases st l z Hb) as Hc.
  destruct op; try discriminate Ez.
  4: destruct (cv_ival vb =? 0); [discriminate Ez |].
  all: injection Ez as Ez; rewrite Ez; destruct (fits64 z); [done | by exists l].
Qed.

Lemma const_eval_outcome st e : basic st -> forall z, math st e = Some z -> outcome st e z.
Proof.
  intros Hb. induction e as [l v | | | | l n | | | | | l op a b IHa IHb | l op a IH |] using Expr_nested_ind;
    intros z Hz; try discriminate Hz.
  - injection Hz as <-. unfold outcome. cbn. eexists. split; [done |]. split; [done |].
    by apply int_type_for_int.
  - unfold outcome. cbn [ops_fit]. rewrite Hz. by apply const_name_eval.
  - pose proof Hz as Hz'. cbn [math] in Hz'.
    destruct (math st a) as [x |] eqn:Ex; [| done]. destruct (math st b) as [y |] eqn:Ey; [| done].
    eapply const_bin_outcome; eauto.
  - pose proof Hz as Hz'. cbn [math] in Hz'. destruct op; try discriminate Hz'.
    destruct (math st a) as [x |] eqn:Ex; [| done]. simpl in Hz'. injection Hz' as Hx.
    specialize (IH x eq_refl). unfold outcome in *. cbn [ops_fit]. rewrite Hz. cbn [fits const_eval].
    destruct (ops_fit st a); [| destruct IH as [l' Ea]; exists l'; by apply bind_err].
    destruct IH as (va & Ea & <- & w & n & Hd).
    rewrite (bind_ok _ _ _ _ _ Ea), (bind_ok _ _ _ _ _ (desc_of_ok _ _ _ Hd)). cbn [andb].
    rewrite Hx. pose proof (exact64_cases st l z Hb) as Hc.
    destruct (fits64 z); [done | by exists l].
Qed.

(** The converse: an integer result is the value. *)
Lemma exact64_inv st l z v st' : exact64 l z st = Ok (v, st') -> st' = st /\ cv_ival v = z.
Proof. unfold exact64. destruct (fits64 z); [| done]. intros [= <- <-]. done. Qed.

Lemma is_int_inv st t b st' : is_int t st = Ok (b, st') -> st' = st /\ (b = true -> is_int_at st t).
Proof.
  unfold is_int. intros H. inv_ok. apply desc_of_inv in E as [Hd ->]. split; [done |].
  destruct a; try done. intros _. by eexists _, _.
Qed.

Lemma const_eval_value st e : basic st -> forall v st', const_eval e st = Ok (v, st') ->
  st' = st /\ (is_int_at st (cv_ty v) -> math st e = Some (cv_ival v)).
Proof.
  intros Hb. induction e as [l v | l v | l v | l v | l n | | | | | l op a b IHa IHb | l op a IH |] using Expr_nested_ind;
    intros r st' Hr; try discriminate Hr.
  all: cbn [const_eval] in Hr.
  - inv_ok. done.
  - inv_ok. split; [done |]. intros (w & n & Hd). simpl in Hd. rewrite (Hb t_real TY_REAL eq_refl) in Hd. done.
  - inv_ok. split; [done |]. intros (w & n & Hd). simpl in Hd. rewrite (Hb t_strlit TY_STRLIT eq_refl) in Hd. done.
  - inv_ok. split; [done |]. intros (w & n & Hd). simpl in Hd. rewrite (Hb t_char TY_CHAR eq_refl) in Hd. done.
  - cbn [math]. unfold const_name_value. unfold lookup, deref_sym, get_sym, bind, get, ret in Hr.
    destruct (lookup_in (syms st) (scopes st) n) as [i |]; [| done].
    destruct (syms st !! i) as [s |]; [| done]. destruct (bool_decide _); [| done].
    destruct (s_ty s) as [t |]; [| done]. injection Hr as <- <-. split; [done |].
    intros (w & k & Hd). simpl in Hd. by rewrite Hd.
  - inv_ok. destruct (IHa _ _ E) as [-> Ha]. destruct (IHb _ _ E0) as [-> Hbv].
    apply is_int_inv in E1 as [-> Hia]. apply is_int_inv in E2 as [-> Hib].
    destruct a2, a3; simpl in Hr; try discriminate Hr.
    cbn [math]. rewrite (Ha (Hia eq_refl)), (Hbv (Hib eq_refl)).
    destruct op; try discriminate Hr; try (apply exact64_inv in Hr as [-> ->]; done).
    destruct (_ =? 0); [discriminate Hr |]. apply exact64_inv in Hr as [-> ->]. done.
  - inv_ok. destruct (IH _ _ E) as [-> Ha]. apply desc_of_inv in E0 as [Hd ->].
    destruct op; try discriminate Hr. destruct a1; try discriminate Hr.
    + apply exact64_inv in Hr as [-> ->]. split; [done |]. intros _. cbn [math].
      rewrite Ha by (by eexists _, _). done.
    + inv_ok. split; [done |]. intros (w & n & Hd'). simpl in Hd'. rewrite (Hb t_real TY_REAL eq_refl) in Hd'. done.
Qed.

(** C11: an integer constant expression evaluates to its exact mathematical value when
    every operation in it stays inside INTEGER64, and is refused with the
    overflow message when one does not; an integer result is never anything
    else than that value. DIV truncates toward zero. *)
Theorem const_eval_exact st e (Hb : basic st) :
  (forall z, math st e = Some z ->
     if ops_fit st e
     then exists v, const_eval e st = Ok (v, st) /\ cv_ival v = z /\ is_int_at st (cv_ty v)
     else exists l, const_eval e st = Err (Fatal l overflows)) /\
  (forall v st', const_eval e st = Ok (v, st') -> is_int_at st (cv_ty v) ->
     st' = st /\ math st e = Some (cv_ival v)).
Proof.
  split; [intros z Hz; by apply const_eval_outcome |].
  intros v st' H Hi. destruct (const_eval_value st e Hb v st' H) as [-> Hv]. auto.
Qed.

(** The state after [sem_init]. *)
Definition init_state : Sem :=
  match sem_init empty_sem with Ok (_, st) => st | Err _ => empty_sem end.

Lemma basic_init : basic init_state.
Proof.
  intros i d H. unfold desc_at.
  assert (t_desc <$> types init_state = predefs) as E by (vm_compute; reflexivity).
  by rewrite <- list_lookup_fmap, E.
Qed.

(** (-7) DIV 2 + MAXINT64 * 0, and MAXINT64 + 1. *)
Definition example_fits : Expr :=
  E_BIN no_loc OP_ADD
    (E_BIN no_loc OP_IDIV (E_UN no_loc OP_NEG (E_INT no_loc 7)) (E_INT no_loc 2))
    (E_BIN no_loc OP_MUL (E_NAME no_loc "maxint64") (E_INT no_loc 0)).
Definition example_overflows : Expr :=
  E_BIN no_loc OP_ADD (E_NAME no_loc "maxint64") (E_INT no_loc 1).

Lemma const_eval_exact_witness :
  (exists v, const_eval example_fits init_state = Ok (v, init_state) /\ cv_ival v = -3 /\
     is_int_at init_state (cv_ty v)) /\
  (exists l, const_eval example_overflows init_state = Err (Fatal l overflows)).
Proof.
  assert (ops_fit init_state example_fits = true) as F1 by (vm_compute; reflexivity).
  assert (ops_fit init_state example_overflows = false) as F2 by (vm_compute; reflexivity).
  pose proof (proj1 (const_eval_exact init_state example_fits basic_init) (-3)) as H1.
  pose proof (proj1 (const_eval_exact init_state example_overflows basic_init) (2 ^ 63)) as H2.
  rewrite F1 in H1. rewrite F2 in H2.
  split; [apply H1; vm_compute; reflexivity | apply H2; vm_compute; reflexivity].
Defined.
End Consts.

(** * Interned types *)

Module Interning.
Import Consts.

Definition descs (st : Sem) : list TypeDesc := map t_desc (types st).

(** At most one type of the store has each LSTRING capacity and each array shape,
    the registers of interned types are exactly those types, and their capacities
    and bounds are in range. *)
Record canon (ds : list TypeDesc) (ls arr : list tyid) : Prop := {
  lstr_listed : forall i, In i ls <-> exists c, ds !! i = Some (TY_LSTR c);
  lstr_range : forall i c, ds !! i = Some (TY_LSTR c) -> 1 <= c <= 255;
  lstr_once : forall i j c, ds !! i = Some (TY_LSTR c) -> ds !! j = Some (TY_LSTR c) -> i = j;
  array_listed : forall i, In i arr <-> exists lo hi e, ds !! i = Some (TY_ARRAY lo hi e);
  array_range : forall i lo hi e, ds !! i = Some (TY_ARRAY lo hi e) -> lo <= hi;
  array_once : forall i j lo hi e,
    ds !! i = Some (TY_ARRAY lo hi e) -> ds !! j = Some (TY_ARRAY lo hi e) -> i = j }.

Definition canonical (st : Sem) : Prop := canon (descs st) (lstr_types st) (array_types st).

(** The types that are not interned. *)
Definition plain (d : TypeDesc) : bool := match d with TY_LSTR _ | TY_ARRAY _ _ _ => false | _ => true end.

Lemma snoc_lookup {A} (l : list A) x i y : (l ++ [x]) !! i = Some y ->
  l !! i = Some y \/ (i = length l /\ x = y).
Proof.
  intros H. apply lookup_app_Some in H as [H | [Hl H]]; [by left |]. right.
  destruct (i - length l)%nat eqn:E; [| done]. simpl in H. split; [lia | congruence].
Qed.

Lemma lookup_snoc {A} (l : list A) x i y : l !! i = Some y -> (l ++ [x]) !! i = Some y.
Proof. intros H. apply lookup_app_Some. by left. Qed.

Lemma lookup_end {A} (l : list A) x : (l ++ [x]) !! length l = Some x.
Proof. by rewrite list_lookup_middle. Qed.

Lemma in_snoc {A} (l : list A) x y : In y (l ++ [x]) <-> In y l \/ y = x.
Proof. rewrite in_app_iff. simpl. intuition congruence. Qed.

(** Only the interned types matter. *)
Lemma canon_ext ds ds' ls arr :
  (forall i d, plain d = false -> ds' !! i = Some d <-> ds !! i = Some d) ->
  canon ds ls arr -> canon ds' ls arr.
Proof.
  intros Hp C. split.
  - intros i. rewrite (lstr_listed _ _ _ C). setoid_rewrite Hp; done.
  - intros i c H. apply (lstr_range _ _ _ C i). by apply Hp in H.
  - intros i j c H1 H2. apply (lstr_once _ _ _ C i j c); by apply Hp.
  - intros i. rewrite (array_listed _ _ _ C). setoid_rewrite Hp; done.
  - intros i lo hi e H. apply (array_range _ _ _ C i lo hi e). by apply Hp in H.
  - intros i j lo hi e H1 H2. apply (array_once _ _ _ C i j lo hi e); by apply Hp.
Qed.

Lemma canon_plain ds ls arr d : plain d = true -> canon ds ls arr -> canon (ds ++ [d]) ls arr.
Proof.
  intros Hd. apply canon_ext. intros i d' Hd'. split; [| apply lookup_snoc].
  intros [H | [_ ->]]%snoc_lookup; congruence.
Qed.

Lemma canon_update ds ls arr t d0 d : ds !! t = Some d0 -> plain d0 = true -> plain d = true ->
  canon ds ls arr -> canon (<[t := d]> ds) ls arr.
Proof.
  intros Ht Hd0 Hd. apply canon_ext. intros i d' Hd'.
  destruct (decide (t = i)) as [<- | Hn]; [| by rewrite list_lookup_insert_ne].
  rewrite list_lookup_insert_eq by (by apply lookup_lt_Some in Ht). split; congruence.
Qed.

(** Adding a new capacity. *)
Lemma canon_lstr ds ls arr c : 1 <= c <= 255 -> (forall i, ds !! i <> Some (TY_LSTR c)) ->
  canon ds ls arr -> canon (ds ++ [TY_LSTR c]) (ls ++ [length ds]) arr.
Proof.
  intros Hc Hn C. split.
  - intros i. rewrite in_snoc, (lstr_listed _ _ _ C). split.
    + intros [[c' H] | ->]; eauto using lookup_snoc, lookup_end.
    + intros [c' [H | [-> _]]%snoc_lookup]; eauto.
  - intros i c' [H | [_ [= <-]]]%snoc_lookup; [by eapply lstr_range | done].
  - intros i j c' [H1 | [-> [= <-]]]%snoc_lookup [H2 | [-> E2]]%snoc_lookup; try done.
    + by eapply lstr_once.
    + injection E2 as <-. by destruct (Hn i).
    + by destruct (Hn j).
  - intros i. rewrite (array_listed _ _ _ C). split.
    + intros (lo & hi & e & H). eauto using lookup_snoc.
    + intros (lo & hi & e & [H | [_ [=]]]%snoc_lookup). eauto.
  - intros i lo hi e [H | [_ [=]]]%snoc_lookup. by eapply array_range.
  - intros i j lo hi e [H1 | [_ [=]]]%snoc_lookup [H2 | [_ [=]]]%snoc_lookup. by eapply array_once.
Qed.

(** Adding a new array shape. *)
Lemma canon_array ds ls arr lo hi e : lo <= hi -> (forall i, ds !! i <> Some (TY_ARRAY lo hi e)) ->
  canon ds ls arr -> canon (ds ++ [TY_ARRAY lo hi e]) ls (arr ++ [length ds]).
Proof.
  intros Hc Hn C. split.
  - intros i. rewrite (lstr_listed _ _ _ C). split.
    + intros (c & H). eauto using lookup_snoc.
    + intros (c & [H | [_ [=]]]%snoc_lookup). eauto.
  - intros i c [H | [_ [=]]]%snoc_lookup. by eapply lstr_range.
  - intros i j c [H1 | [_ [=]]]%snoc_lookup [H2 | [_ [=]]]%snoc_lookup. by eapply lstr_once.
  - intros i. rewrite in_snoc, (array_listed _ _ _ C). split.
    + intros [(lo' & hi' & e' & H) | ->]; eauto 6 using lookup_snoc, lookup_end.
    + intros (lo' & hi' & e' & [H | [-> _]]%snoc_lookup); eauto.
  - intros i lo' hi' e' [H | [_ [= <- <- <-]]]%snoc_lookup; [by eapply array_range | done].
  - intros i j lo' hi' e' [H1 | [-> [= <- <- <-]]]%snoc_lookup [H2 | [-> E2]]%snoc_lookup; try done.
    + by eapply array_once.
    + injection E2 as <- <- <-. by destruct (Hn i).
    + by destruct (Hn j).
Qed.

(** ** The operations *)

(** What an operation that creates types does to the store: it keeps the types
    that are there, and the interning. *)
Definition creates (st st' : Sem) : Prop :=
  (exists ds, descs st' = descs st ++ ds) /\ (canonical st -> canonical st').

Lemma creates_refl st : creates st st.
Proof. split; [exists []; by rewrite app_nil_r | done]. Qed.

Lemma creates_trans st1 st2 st3 : creates st1 st2 -> creates st2 st3 -> creates st1 st3.
Proof.
  intros [[d1 E1] C1] [[d2 E2] C2]. split; [| auto]. exists (d1 ++ d2). by rewrite E2, E1, app_assoc.
Qed.

(** Operations that leave the types alone. *)
Lemma creates_same st st' : types st' = types st -> lstr_types st' = lstr_types st ->
  array_types st' = array_types st -> creates st st'.
Proof.
  intros E1 E2 E3. unfold creates, canonical, descs. rewrite E1, E2, E3.
  split; [exists []; by rewrite app_nil_r | done].
Qed.

Lemma new_type_creates d l st t st' : new_type d l st = Ok (t, st') -> plain d = true ->
  creates st st' /\ t = length (descs st) /\ descs st' = descs st ++ [d].
Proof.
  intros [= <- <-] Hd. unfold creates, canonical, descs. simpl. rewrite map_app, length_map. simpl.
  split; [| done]. split; [by eexists |]. by apply canon_plain.
Qed.

Lemma descs_lookup st t : descs st !! t = desc_at st t.
Proof. unfold descs, desc_at. apply list_lookup_fmap. Qed.

Lemma cap_is_iff st c i : cap_is (types st) c i = true <-> descs st !! i = Some (TY_LSTR c).
Proof.
  unfold cap_is. rewrite descs_lookup. unfold desc_at. destruct (types st !! i) as [ty |]; [| done]. simpl.
  destruct (t_desc ty); try (split; congruence). rewrite Z.eqb_eq. split; congruence.
Qed.

Lemma array_is_iff st lo hi e i :
  array_is (types st) lo hi e i = true <-> descs st !! i = Some (TY_ARRAY lo hi e).
Proof.
  unfold array_is. rewrite descs_lookup. unfold desc_at. destruct (types st !! i) as [ty |]; [| done]. simpl.
  destruct (t_desc ty); try (split; congruence).
  rewrite !andb_true_iff, !Z.eqb_eq, Nat.eqb_eq. split; [intros [[-> ->] ->] | intros [= -> -> ->]]; done.
Qed.

Lemma lstring_of_creates c l st t st' : lstring_of c l st = Ok (t, st') -> creates st st'.
Proof.
  unfold lstring_of. destruct ((c <? 1) || (255 <? c)) eqn:Hr; [done |].
  apply orb_false_iff in Hr as [H1%Z.ltb_ge H2%Z.ltb_ge]. intros Hok. rewrite (bind_ok get _ st st st eq_refl) in Hok.
  destruct (List.find (cap_is (types st) c) (lstr_types st)) as [i |] eqn:E.
  - inv_ok. apply creates_refl.
  - inv_ok. unfold new_type in E0. inv_ok.
    unfold creates, canonical, descs. simpl. rewrite map_app. simpl. split; [by eexists |].
    intros C. rewrite <- (length_map t_desc). apply canon_lstr; [lia | | done].
    intros i Hi. assert (In i (lstr_types st)) as Hin by (apply (lstr_listed _ _ _ C); eauto).
    pose proof (List.find_none _ _ E i Hin) as Hf. by rewrite (proj2 (cap_is_iff st c i) Hi) in Hf.
Qed.

Lemma array_of_creates lo hi e l st t st' : array_of lo hi e l st = Ok (t, st') -> creates st st'.
Proof.
  unfold array_of. destruct (Z.ltb_spec hi lo) as [Hl | Hl]; [done |]. intros Hok. rewrite (bind_ok get _ st st st eq_refl) in Hok.
  destruct (List.find (array_is (types st) lo hi e) (array_types st)) as [i |] eqn:E.
  - inv_ok. apply creates_refl.
  - inv_ok. unfold new_type in E0. inv_ok.
    unfold creates, canonical, descs. simpl. rewrite map_app. simpl. split; [by eexists |].
    intros C. rewrite <- (length_map t_desc). apply canon_array; [lia | | done].
    intros i Hi. assert (In i (array_types st)) as Hin by (apply (array_listed _ _ _ C); eauto).
    pose proof (List.find_none _ _ E i Hin) as Hf. by rewrite (proj2 (array_is_iff st lo hi e i) Hi) in Hf.
Qed.

(** Steps that only read. *)
Lemma lookup_pure n st o st' : lookup n st = Ok (o, st') -> st' = st.
Proof.
  unfold lookup. intros H. rewrite (bind_ok get _ st st st eq_refl) in H. unfold deref_sym, get_sym in H.
  destruct (lookup_in _ _ n) as [i |]; [| by inv_ok]. inv_ok. destruct (syms st !! i); by inv_ok.
Qed.

Lemma const_eval_pure e : forall st v st', const_eval e st = Ok (v, st') -> st' = st.
Proof.
  induction e as [| | | | l n | | | | | l op a b IHa IHb | l op a IH |] using Expr_nested_ind;
    intros st v' st' Hr; try discriminate Hr; cbn [const_eval] in Hr; try (by inv_ok).
  - inv_ok. apply lookup_pure in E as ->. repeat case_match; by inv_ok.
  - inv_ok. apply IHa in E as ->. apply IHb in E0 as ->.
    apply is_int_inv in E1 as [-> _]. apply is_int_inv in E2 as [-> _].
    destruct (negb _); [done |]. destruct op; try done; try (by apply exact64_inv in Hr as [-> _]).
    destruct (_ =? 0); [done |]. by apply exact64_inv in Hr as [-> _].
  - inv_ok. apply IH in E as ->. apply desc_of_inv in E0 as [_ ->].
    destruct op; try done. destruct a1; try done; [by apply exact64_inv in Hr as [-> _] | by inv_ok].
Qed.

Lemma const_int_value_pure e st v st' : const_int_value e st = Ok (v, st') -> st' = st.
Proof.
  unfold const_int_value. intros H. inv_ok. apply const_eval_pure in E as ->.
  apply desc_of_inv in E0 as [_ ->]. destruct a0; by inv_ok.
Qed.

Lemma pointer_target_pure n st o st' : pointer_target n st = Ok (o, st') -> st' = st.
Proof.
  unfold pointer_target. intros H. rewrite (bind_ok get _ st st st eq_refl) in H.
  destruct (declared_later_in_section st n); [by inv_ok |]. inv_ok. apply lookup_pure in E as ->.
  destruct a as [[i s] |]; [destruct (bool_decide _) |]; by inv_ok.
Qed.

Lemma set_desc_creates t d st r st' d0 : set_desc t d st = Ok (r, st') ->
  desc_at st t = Some d0 -> plain d0 = true -> plain d = true ->
  (canonical st -> canonical st') /\ descs st' = <[t := d]> (descs st).
Proof.
  unfold set_desc, get_type, modify, bind, desc_at.
  destruct (types st !! t) as [ty |] eqn:E; [| done]. intros [= <- <-] [= <-] Hp0 Hp. unfold canonical, descs. simpl.
  assert (map t_desc (<[t := mkTy d (t_loc ty) (t_emitted ty) (t_declared ty)]> (types st)) =
          <[t := d]> (map t_desc (types st))) as -> by apply (list_fmap_insert t_desc).
  split; [| done]. apply (canon_update _ _ _ t (t_desc ty)); [| done | done].
  change (map t_desc (types st)) with (t_desc <$> types st). by rewrite list_lookup_fmap, E.
Qed.

(** A type created and then completed in place. *)
Lemma creates_complete st st1 st2 st3 t d0 d ds r :
  descs st1 = descs st ++ [d0] -> t = length (descs st) -> creates st st1 ->
  plain d0 = true -> plain d = true ->
  (canonical st1 -> canonical st2) -> descs st2 = descs st1 ++ ds ->
  set_desc t d st2 = Ok (r, st3) -> creates st st3.
Proof.
  intros E1 -> H1 Hp0 Hp C2 E2 H3.
  assert (desc_at st2 (length (descs st)) = Some d0) as Hd.
  { rewrite <- descs_lookup, E2, E1, <- app_assoc. simpl. by rewrite list_lookup_middle. }
  destruct (set_desc_creates _ _ _ _ _ _ H3 Hd Hp0 Hp) as [C3 E3]. split; [| destruct H1; auto].
  exists (d :: ds). rewrite E3, E2, E1, <- app_assoc. simpl.
  rewrite insert_app_r_alt by lia. by rewrite Nat.sub_diag.
Qed.

Lemma define_creates s st i st' : define s st = Ok (i, st') -> creates st st'.
Proof.
  unfold define. intros H. inv_ok. unfold alloc_sym in E. inv_ok.
  destruct (scopes _); inv_ok; [done |]. by apply creates_same.
Qed.

Lemma lookup_innermost_pure n st o st' : lookup_innermost n st = Ok (o, st') -> st' = st.
Proof.
  unfold lookup_innermost. intros H. rewrite (bind_ok get _ st st st eq_refl) in H.
  destruct (scopes st) as [|sc scs]; [done |]. unfold deref_sym, get_sym in H.
  destruct (find_in _ _ n) as [i |]; [| by inv_ok]. inv_ok. destruct (syms st !! i); by inv_ok.
Qed.

Lemma enum_consts_creates l t names : forall i st r st', enum_consts l t i names st = Ok (r, st') -> creates st st'.
Proof.
  induction names as [|n names IH]; intros i st r st' H; cbn [enum_consts] in H; [inv_ok; apply creates_refl |].
  inv_ok. apply lookup_innermost_pure in E as ->. destruct a; inv_ok.
  eapply creates_trans; [by eapply define_creates | by eapply IH].
Qed.

Lemma add_fields_pure l t names : forall fs st r st', add_fields l t names fs st = Ok (r, st') -> st' = st.
Proof.
  induction names as [|n names IH]; intros fs st r st' H; cbn [add_fields] in H; [by inv_ok |].
  destruct (existsb _ fs); [done |]. by eapply IH.
Qed.

Lemma group_fields_creates gs :
  Forall (fun g => forall st t st', resolve_type (fg_te g) st = Ok (t, st') -> creates st st') gs ->
  forall fs st r st', group_fields resolve_type gs fs st = Ok (r, st') -> creates st st'.
Proof.
  induction 1 as [|[names te gl] gs Hg _ IH]; intros fs st r st' H; cbn [group_fields] in H.
  - inv_ok. apply creates_refl.
  - inv_ok. apply add_fields_pure in E0 as ->. eapply creates_trans; [by eapply Hg | by eapply IH].
Qed.

Lemma resolve_type_creates te : forall st t st', resolve_type te st = Ok (t, st') -> creates st st'.
Proof.
  induction te as [l n | l lo | l lo hi elem IH | l gs IH | l n | l ns] using TypeExpr_nested_ind;
    intros st t st' H; cbn [resolve_type] in H; inv_ok.
  - apply lookup_pure in E as ->. repeat case_match; inv_ok; try done; apply creates_refl.
  - apply const_int_value_pure in E as ->. by eapply lstring_of_creates.
  - apply const_int_value_pure in E as ->. apply const_int_value_pure in E0 as ->.
    eapply creates_trans; [by eapply IH | by eapply array_of_creates].
  - destruct (new_type_creates _ _ _ _ _ E eq_refl) as (H1 & -> & Hd).
    destruct (group_fields_creates gs IH _ _ _ _ E0) as [[ds H2] C2].
    by apply (creates_complete st s s0 st' (length (descs st)) (TY_RECORD []) (TY_RECORD a0) ds a1).
  - destruct (new_type_creates _ _ _ _ _ E eq_refl) as (H1 & -> & Hd). apply pointer_target_pure in E0 as ->.
    destruct a0 as [u |]; inv_ok.
    + eapply (creates_complete st s s st' (length (descs st)) (TY_PTR None None) (TY_PTR (Some u) None) []);
        try eassumption; try done. by rewrite app_nil_r.
    + apply (creates_trans st s0); [| by apply creates_same].
      eapply (creates_complete st s s s0 (length (descs st)) (TY_PTR None None) (TY_PTR None (Some n)) []);
        try eassumption; try done. by rewrite app_nil_r.
  - destruct (new_type_creates _ _ _ _ _ E eq_refl) as (H1 & -> & Hd).
    eapply creates_trans; [done | by eapply enum_consts_creates].
Qed.

(** What the later steps do: pointers get their targets, and types are marked
    as written; no type changes its kind. *)
Lemma get_type_inv t st ty st' : get_type t st = Ok (ty, st') -> st' = st /\ desc_at st t = Some (t_desc ty).
Proof. unfold get_type, desc_at. destruct (types st !! t); [| done]. by intros [= <- <-]. Qed.

Lemma bind_pending_canonical ps : forall st r st', bind_pending ps st = Ok (r, st') ->
  canonical st -> canonical st'.
Proof.
  induction ps as [|p ps IH]; intros st r st' H C; cbn [bind_pending] in H; [by inv_ok |].
  inv_ok. apply get_type_inv in E as [-> Hd].
  destruct (t_desc a) eqn:Ed; try done. destruct pending as [name |]; [| done]. inv_ok.
  apply lookup_pure in E as ->. destruct a0 as [[i sy] |]; [| done].
  destruct (s_kind sy); try done. destruct (s_ty sy) as [u |]; [| done]. inv_ok.
  eapply IH; [done |]. exact (proj1 (set_desc_creates _ _ _ _ _ _ E Hd eq_refl eq_refl) C).
Qed.

Lemma chase_pure k : forall t u st b st', chase k t u st = Ok (b, st') -> st' = st.
Proof.
  induction k as [|k IH]; intros t u st b st' H; cbn [chase] in H; [by inv_ok |].
  destruct u as [u |]; [| by inv_ok]. inv_ok. apply desc_of_inv in E as [_ ->].
  destruct a; try (by inv_ok). destruct (_ =? _)%nat; [by inv_ok | by eapply IH].
Qed.

Lemma check_cycles_pure n ps : forall st r st', check_cycles n ps st = Ok (r, st') -> st' = st.
Proof.
  induction ps as [|p ps IH]; intros st r st' H; cbn [check_cycles] in H; [by inv_ok |].
  inv_ok. apply get_type_inv in E as [-> _]. destruct (t_desc a); try done. destruct pending; [| done].
  inv_ok. apply chase_pure in E as ->. destruct a0; [done | by eapply IH].
Qed.

Lemma clear_pending_canonical ps : forall st r st', clear_pending ps st = Ok (r, st') ->
  canonical st -> canonical st'.
Proof.
  induction ps as [|p ps IH]; intros st r st' H C; cbn [clear_pending] in H; [by inv_ok |].
  inv_ok. apply desc_of_inv in E as [Hd ->]. destruct a; try done. inv_ok.
  eapply IH; [done |]. exact (proj1 (set_desc_creates _ _ _ _ _ _ E Hd eq_refl eq_refl) C).
Qed.

Lemma set_flags_canonical t e d st r st' : set_flags t e d st = Ok (r, st') -> canonical st -> canonical st'.
Proof.
  unfold set_flags. intros H C. inv_ok. apply get_type_inv in E as [-> Hd]. inv_ok.
  unfold canonical, descs in *. simpl.
  match goal with |- canon (map t_desc ?x) _ _ => replace (map t_desc x) with (map t_desc (types st)); [done |] end.
  symmetry. etrans; [apply (list_fmap_insert t_desc) |]. apply list_insert_id. simpl.
  rewrite list_lookup_fmap. done.
Qed.

Lemma buf_types_canonical x st r st' : buf_types x st = Ok (r, st') -> canonical st -> canonical st'.
Proof. unfold buf_types. intros H C. by inv_ok. Qed.

Lemma aggregate_canonical t ty need def st r st' :
  (forall tag st x st', def tag st = Ok (x, st') -> canonical st -> canonical st') ->
  aggregate t ty need def st = Ok (r, st') -> canonical st -> canonical st'.
Proof.
  unfold aggregate. intros Hdef H C. inv_ok.
  assert (canonical s) as C1.
  { destruct (t_declared ty); inv_ok; eauto using set_flags_canonical, buf_types_canonical. }
  destruct (need && negb (t_emitted ty)); inv_ok; [| done].
  eauto using set_flags_canonical, buf_types_canonical.
Qed.

Lemma field_lines_canonical ct fields : (forall t st x st', ct t st = Ok (x, st') -> canonical st -> canonical st') ->
  forall st r st', field_lines ct fields st = Ok (r, st') -> canonical st -> canonical st'.
Proof.
  intros Hct. induction fields as [|[n t] fields IH]; intros st r st' H C; cbn [field_lines] in H; inv_ok; [done |].
  eauto.
Qed.

Lemma ctype_ref_canonical f : forall t need st r st',
  ctype_ref f t need st = Ok (r, st') -> canonical st -> canonical st'.
Proof.
  induction f as [|f IH]; intros t need st r st' H C; cbn [ctype_ref] in H; [done |].
  inv_ok. apply get_type_inv in E as [-> _]. destruct (t_desc a); try (by inv_ok).
  - eapply aggregate_canonical; [| exact H | done]. intros tag st0 x st1 H0 C0. cbv beta in H0. by inv_ok.
  - eapply aggregate_canonical; [| exact H | done]. intros tag st0 x st1 H0 C0. cbv beta in H0. inv_ok.
    unfold array_len in E0. destruct (_ && _); inv_ok. by eapply IH.
  - eapply aggregate_canonical; [| exact H | done]. intros tag st0 x st1 H0 C0. cbv beta in H0. inv_ok.
    eapply field_lines_canonical; [| exact E | done]. intros t' st2 x st3 Hx Cx. cbv beta in Hx. by eapply IH.
  - destruct target; inv_ok. by eapply IH.
Qed.

(** structural types are interned once: whatever type expression is resolved,
    whatever pending pointers are bound and whatever C type is spelled, the store
    keeps at most one LSTRING type of each capacity and one array type of each
    bounds and element type, with capacities in 1..255 and bounds that are not
    empty; and resolving a type changes none of the types already there. *)
Theorem types_interned st (Hc : canonical st) :
  (forall te t st', resolve_type te st = Ok (t, st') ->
     canonical st' /\ exists ds, descs st' = descs st ++ ds) /\
  (forall r st', resolve_pending_pointers st = Ok (r, st') -> canonical st') /\
  (forall t text st', ctype t st = Ok (text, st') -> canonical st').
Proof.
  split; [| split].
  - intros te t st' H. apply resolve_type_creates in H as [He Ce]. auto.
  - intros r st' H. unfold resolve_pending_pointers in H. rewrite (bind_ok get _ st st st eq_refl) in H. inv_ok.
    apply check_cycles_pure in E0 as ->.
    eauto using bind_pending_canonical, clear_pending_canonical.
  - intros t text st' H. unfold ctype in H. rewrite (bind_ok get _ st st st eq_refl) in H.
    by eapply ctype_ref_canonical.
Qed.

Lemma canonical_init : canonical init_state.
Proof.
  unfold canonical. assert (descs init_state = predefs) as -> by (vm_compute; reflexivity).
  assert (lstr_types init_state = []) as -> by (vm_compute; reflexivity).
  assert (array_types init_state = []) as -> by (vm_compute; reflexivity).
  assert (forall i d, predefs !! i = Some d -> plain d = true) as Hp.
  { intros i d H. repeat (destruct i as [|i]; [by injection H as <- |]). done. }
  split; try (intros; match goal with H : predefs !! _ = Some _ |- _ => by apply Hp in H end).
  - intros i. split; [done |]. intros [c H]. by apply Hp in H.
  - intros i. split; [done |]. intros (lo & hi & e & H). by apply Hp in H.
Qed.

Definition example_type : TypeExpr :=
  TE_ARRAY no_loc (E_INT no_loc 1) (E_INT no_loc 3) (TE_LSTRING no_loc (E_INT no_loc 20)).

Lemma types_interned_witness :
  exists t st', resolve_type example_type init_state = Ok (t, st') /\ canonical st'.
Proof.
  destruct (types_interned init_state canonical_init) as [H _].
  destruct (resolve_type example_type init_state) as [[t st'] | e] eqn:E.
  - exists t, st'. split; [reflexivity | exact (proj1 (H _ _ _ E))].
  - exfalso. vm_compute in E. discriminate E.
Defined.
End Interning.

(** * Type compatibility *)

Module Compat.
Import Consts.

(** Structural equality of types: two LSTRINGs of the same capacity, two arrays
    of the same bounds over equal elements, two pointers to equal targets, two
    integers of the same width; records and enumerations only equal themselves. *)
Inductive Same (st : Sem) : tyid -> tyid -> Prop :=
  | same_refl a : Same st a a
  | same_int a b w na nb :
      desc_at st a = Some (TY_INT w na) -> desc_at st b = Some (TY_INT w nb) -> Same st a b
  | same_lstr a b c :
      desc_at st a = Some (TY_LSTR c) -> desc_at st b = Some (TY_LSTR c) -> Same st a b
  | same_array a b lo hi ea eb :
      desc_at st a = Some (TY_ARRAY lo hi ea) -> desc_at st b = Some (TY_ARRAY lo hi eb) ->
      Same st ea eb -> Same st a b
  | same_ptr a b ta tb pa pb :
      desc_at st a = Some (TY_PTR (Some ta) pa) -> desc_at st b = Some (TY_PTR (Some tb) pb) ->
      Same st ta tb -> Same st a b
  | same_scalar a b d :
      In d [TY_REAL; TY_BOOL; TY_CHAR; TY_ADRMEM; TY_NIL] ->
      desc_at st a = Some d -> desc_at st b = Some d -> Same st a b.

#[export] Instance Same_equivalence st : Equivalence (Same st).
Proof.
  split.
  - intros a. apply same_refl.
  - intros a b H. induction H; econstructor; eauto; fail.
  - intros a b c H. revert c. induction H; intros x Hx; [done | ..];
      (inversion Hx; subst; [econstructor; eauto; fail | ..]; simplify_eq);
      try (match goal with H : In _ _ |- _ => by repeat destruct H as [H | H] end).
    + by eapply same_int.
    + by eapply same_lstr.
    + eapply same_array; eauto.
    + eapply same_ptr; eauto.
    + by eapply same_scalar.
Qed.

(** Every chain of array elements and pointer targets ends, within the store. *)
Definition ranked (st : Sem) (rank : tyid -> nat) : Prop :=
  forall t d, desc_at st t = Some d -> (rank t < length (types st))%nat /\
    match d with
    | TY_ARRAY _ _ u | TY_PTR (Some u) _ => is_Some (desc_at st u) /\ (rank u < rank t)%nat
    | _ => True
    end.

Section Ranked.
Variables (st : Sem) (rank : tyid -> nat).
Hypothesis Hr : ranked st rank.

Lemma same_type_f_total f : forall a b, is_Some (desc_at st a) -> is_Some (desc_at st b) ->
  (rank a < f)%nat -> exists r, same_type_f f a b st = Ok (r, st).
Proof using Hr.
  induction f as [|f IH]; intros a b [da Ha] [db Hb] Hf; [lia |]. cbn [same_type_f].
  destruct (a =? b)%nat; [by eexists |].
  rewrite (bind_ok _ _ _ _ _ (desc_of_ok _ _ _ Ha)), (bind_ok _ _ _ _ _ (desc_of_ok _ _ _ Hb)).
  destruct (Hr _ _ Ha) as [_ Hda]. destruct (Hr _ _ Hb) as [_ Hdb].
  destruct da; try (destruct db; by eexists).
  - destruct db; try (by eexists). destruct (_ && _); [| by eexists].
    destruct Hda as [Va Ra]. destruct Hdb as [Vb _]. apply IH; [done | done | lia].
  - destruct target as [ta |]; [| destruct db; by eexists].
    destruct db as [| | | | | | | | | [tb |] pb | | |]; try (by eexists).
    destruct Hda as [Va Ra]. destruct Hdb as [Vb _]. apply IH; [done | done | lia].
Qed.

Lemma same_type_f_sound f : forall a b st', same_type_f f a b st = Ok (true, st') -> Same st a b.
Proof using Type.
  induction f as [|f IH]; intros a b st' H; [done |]. cbn [same_type_f] in H.
  destruct (Nat.eqb_spec a b) as [-> |]; [apply same_refl |]. inv_ok.
  apply desc_of_inv in E as [Ha ->]. apply desc_of_inv in E0 as [Hb ->].
  destruct a0, a1; try discriminate H; try (destruct target; discriminate H);
    try (eapply same_scalar; [| exact Ha | exact Hb]; simpl; tauto).
  - injection H as E _. apply Z.eqb_eq in E as ->. by eapply same_int.
  - injection H as E _. apply Z.eqb_eq in E as ->. by eapply same_lstr.
  - destruct (_ && _) eqn:E; [| discriminate H].
    apply andb_true_iff in E as [->%Z.eqb_eq ->%Z.eqb_eq]. eapply same_array; eauto.
  - destruct target as [ta |]; [| discriminate H]. destruct target0 as [tb |]; [| discriminate H].
    eapply same_ptr; eauto.
Qed.

Lemma same_type_f_complete a b : Same st a b -> forall f r, same_type_f f a b st = Ok (r, st) -> r = true.
Proof using Type.
  induction 1 as [a | a b w na nb Ha Hb | a b c Ha Hb | a b lo hi ea eb Ha Hb _ IH | a b ta tb pa pb Ha Hb _ IH
    | a b d Hd Ha Hb]; intros f r H; (destruct f as [|f]; [done |]); cbn [same_type_f] in H.
  1: by rewrite Nat.eqb_refl in H; injection H as <-.
  all: destruct (a =? b)%nat; [by injection H as <- |];
    rewrite (bind_ok _ _ _ _ _ (desc_of_ok _ _ _ Ha)), (bind_ok _ _ _ _ _ (desc_of_ok _ _ _ Hb)) in H.
  - rewrite Z.eqb_refl in H. by injection H.
  - rewrite Z.eqb_refl in H. by injection H.
  - rewrite !Z.eqb_refl in H. by apply IH in H.
  - by apply IH in H.
  - repeat destruct Hd as [<- | Hd]; [by inversion H .. | done].
Qed.
End Ranked.

(** on a store whose element and target chains end, [same_type] returns a verdict
    for every two types, and its verdict is structural equality, which is an
    equivalence. *)
Theorem same_type_decides st rank (Hr : ranked st rank) :
  Equivalence (Same st) /\
  forall a b, is_Some (desc_at st a) -> is_Some (desc_at st b) ->
    exists r, same_type a b st = Ok (r, st) /\ (r = true <-> Same st a b).
Proof.
  split; [apply Same_equivalence |]. intros a b Ha Hb.
  destruct (same_type_f_total st rank Hr (type_fuel st) a b Ha Hb) as [r E].
  { destruct Ha as [d Ha]. destruct (Hr _ _ Ha) as [H _]. unfold type_fuel. lia. }
  exists r. split; [exact E |]. split; [intros ->; by eapply same_type_f_sound |].
  intros H. by eapply same_type_f_complete.
Qed.

(** Two pointer types to INTEGER and CHAR declared apart. *)
Definition two_pointers : SM tyid :=
  do* resolve_type (TE_POINTER no_loc "integer") in
  do* resolve_type (TE_POINTER no_loc "integer") in
  resolve_type (TE_POINTER no_loc "char").
Definition pointers_state : Sem :=
  match two_pointers init_state with Ok (_, st) => st | Err _ => empty_sem end.
Definition pointer_rank (t : tyid) : nat := if (t <? 13)%nat then 0%nat else 1%nat.

Lemma pointers_ranked : ranked pointers_state pointer_rank.
Proof.
  intros t d. unfold desc_at. rewrite <- list_lookup_fmap.
  assert (t_desc <$> types pointers_state = predefs ++
    [TY_PTR (Some t_integer) None; TY_PTR (Some t_integer) None; TY_PTR (Some t_char) None]) as ->
    by (vm_compute; reflexivity).
  assert (length (types pointers_state) = 16%nat) as -> by (vm_compute; reflexivity).
  intros H. do 16 (destruct t as [|t]; [injection H as <-; vm_compute; repeat split; try lia; by eexists |]).
  done.
Qed.

Lemma same_type_decides_witness :
  same_type 13 14 pointers_state = Ok (true, pointers_state) /\ Same pointers_state 13 14 /\
  ~ Same pointers_state 13 15.
Proof.
  destruct (same_type_decides pointers_state pointer_rank pointers_ranked) as [_ H].
  assert (forall t, (t < 16)%nat -> is_Some (desc_at pointers_state t)) as Hv.
  { intros t Ht. unfold desc_at. destruct (lookup_lt_is_Some_2 (types pointers_state) t) as [ty E].
    - assert (length (types pointers_state) = 16%nat) as -> by (vm_compute; reflexivity). exact Ht.
    - rewrite E. by eexists. }
  destruct (H 13%nat 14%nat (Hv 13%nat ltac:(lia)) (Hv 14%nat ltac:(lia))) as (r & E & Hr).
  destruct (H 13%nat 15%nat (Hv 13%nat ltac:(lia)) (Hv 15%nat ltac:(lia))) as (r' & E' & Hr').
  assert (r = true) as -> by (vm_compute in E; congruence).
  assert (r' = false) as -> by (vm_compute in E'; congruence).
  split; [exact E |]. split; [by apply Hr | intros Hs; apply Hr' in Hs; discriminate Hs].
Defined.
End Compat.
