(* ===== verification/EmitText.v ===== *)
(** The literals emit.c writes, read back with the rules of C: string literals
    with their length byte, file names and integer constants denote exactly the
    bytes and the values they were made from. *)

From Stdlib Require Import ZArith Ascii String SpecFloat Lia.
From stdpp Require Import base list strings.
From S2P Require Import Prelude Real Ast Lex Sem Emit LexProps.
#[local] Open Scope Z_scope.

(** * String literals *)

Module Strings.

Definition oct_digit (c : ascii) : bool := between "0" "7" c.
Definition oct_value (c : ascii) : Z := code c - 48.

(** ISO C, 6.4.4.4: an octal escape takes as many octal digits as follow, at most
    three, and denotes a byte; other escapes are of the quote and the backslash. *)
Fixpoint c_decode (s : bytes) : option bytes :=
  let emit (v : Z) (rest : option bytes) := if v <? 256 then option_map (cons (chr v)) rest else None in
  match s with
  | [] => Some []
  | c :: r =>
      if ceq c backslash then
        match r with
        | [] => None
        | a :: r1 =>
            if oct_digit a then
              match r1 with
              | b :: r2 =>
                  if oct_digit b then
                    match r2 with
                    | d :: r3 =>
                        if oct_digit d then emit (64 * oct_value a + 8 * oct_value b + oct_value d) (c_decode r3)
                        else emit (8 * oct_value a + oct_value b) (c_decode r2)
                    | [] => emit (8 * oct_value a + oct_value b) (Some [])
                    end
                  else emit (oct_value a) (c_decode r1)
              | [] => emit (oct_value a) (Some [])
              end
            else if ceq a dquote || ceq a backslash then option_map (cons a) (c_decode r1)
            else None
        end
      else if ceq c dquote || ceq c newline then None
      else option_map (cons c) (c_decode r)
  end.

(** A literal: its text between the quotes. *)
Definition c_literal (s : string) : option bytes :=
  match chars s with
  | q :: r =>
      match rev r with
      | q' :: r' => if ceq q dquote && ceq q' dquote then c_decode (rev r') else None
      | [] => None
      end
  | [] => None
  end.

(** A three-digit escape ends after its third digit, whatever follows. *)
Lemma decode_octal c rest : c_decode (backslash :: oct3 (code c) ++ rest) = option_map (cons c) (c_decode rest).
Proof.
  assert (exists a b d, oct3 (code c) = [a; b; d] /\ oct_digit a = true /\ oct_digit b = true /\ oct_digit d = true /\
    64 * oct_value a + 8 * oct_value b + oct_value d = code c) as (a & b & d & -> & Ha & Hb & Hd & E).
  { assert (match oct3 (code c) with
            | [a; b; d] => oct_digit a && oct_digit b && oct_digit d
                && (64 * oct_value a + 8 * oct_value b + oct_value d =? code c)
            | _ => false end = true) as H.
    { apply (char_check (fun c => match oct3 (code c) with
            | [a; b; d] => oct_digit a && oct_digit b && oct_digit d
                && (64 * oct_value a + 8 * oct_value b + oct_value d =? code c)
            | _ => false end)). vm_compute. reflexivity. }
    destruct (oct3 (code c)) as [|a [|b [|d [|]]]]; try discriminate H.
    rewrite !andb_true_iff, Z.eqb_eq in H. destruct H as [[[? ?] ?] ?]. by exists a, b, d. }
  simpl. rewrite Ha, Hb, Hd, E. pose proof (code_range c).
  rewrite (proj2 (Z.ltb_lt _ _)) by lia. by rewrite chr_code.
Qed.

Lemma plain_char_ok c : plain_char c = true ->
  ceq c backslash = false /\ ceq c dquote || ceq c newline = false.
Proof.
  intros H. pose proof (char_check (fun c => implb (plain_char c)
    (negb (ceq c backslash) && negb (ceq c dquote || ceq c newline))) c ltac:(by vm_compute)) as Hc.
  simpl in Hc. rewrite H in Hc. simpl in Hc. by apply andb_true_iff in Hc as [?%negb_true_iff ?%negb_true_iff].
Qed.

Lemma decode_c_char c rest : c_decode (c_char c ++ rest) = option_map (cons c) (c_decode rest).
Proof.
  unfold c_char. destruct (plain_char c) eqn:E; [| apply decode_octal].
  destruct (plain_char_ok c E) as [H1 H2]. simpl. by rewrite H1, H2.
Qed.

Lemma decode_c_chars s : c_decode (concat (map c_char s)) = Some s.
Proof. induction s as [|c s IH]; simpl; [done |]. by rewrite decode_c_char, IH. Qed.

Lemma decode_file_char c rest : c_decode (file_char c ++ rest) = option_map (cons c) (c_decode rest).
Proof.
  unfold file_char. fold (ceq c dquote) (ceq c backslash).
  destruct (ceq c dquote || ceq c backslash) eqn:E1.
  - assert (oct_digit c = false) as Ho.
    { pose proof (char_check (fun c => implb (ceq c dquote || ceq c backslash) (negb (oct_digit c))) c
        ltac:(by vm_compute)) as Hc. simpl in Hc. rewrite E1 in Hc. by apply negb_true_iff in Hc. }
    simpl. by rewrite Ho, E1.
  - destruct ((code c <? 32) || (126 <? code c)) eqn:E2; [apply decode_octal |].
    apply orb_false_iff in E1 as [Hq Hb]. apply orb_false_iff in E2 as [Hl _].
    simpl. rewrite Hb, Hq. destruct (ceq_spec c newline) as [-> |]; [discriminate Hl | done].
Qed.

Lemma decode_file_chars s : c_decode (concat (map file_char s)) = Some s.
Proof. induction s as [|c s IH]; simpl; [done |]. by rewrite decode_file_char, IH. Qed.

Lemma literal_quoted s : c_literal (str (dquote :: s ++ [dquote])) = c_decode s.
Proof. unfold c_literal. rewrite chars_str, rev_app_distr. simpl. by rewrite rev_involutive. Qed.

Lemma literal_with_length s : (length s <= 255)%nat ->
  c_literal (c_string_bytes s true) = Some (chr (Z.of_nat (length s)) :: s).
Proof.
  intros H. unfold c_string_bytes. rewrite app_assoc, literal_quoted. cbn [app].
  set (n := Z.of_nat (length s)). assert (code (chr n) = n) as E by (apply code_chr; lia).
  rewrite <- E at 1. by rewrite decode_octal, decode_c_chars.
Qed.

(** The base name of a path. *)
Fixpoint base_name (s : bytes) : bytes :=
  match s with
  | [] => []
  | c :: s' => if existsb (fun c => ceq c "/") s then base_name s' else s
  end.

Lemma after_slash_none s best : existsb (fun c => ceq c "/") s = false -> after_slash s best = best.
Proof.
  revert best. induction s as [|c s IH]; intros best H; simpl in *; [done |].
  apply orb_false_iff in H as [Hc Hs]. unfold ceq in Hc. rewrite Hc. by apply IH.
Qed.

Lemma after_slash_some s : forall best, existsb (fun c => ceq c "/") s = true ->
  after_slash s best = base_name s.
Proof.
  induction s as [|c s IH]; intros best H; [done |]. cbn [base_name]. rewrite H. simpl in *.
  destruct (existsb (fun c => ceq c "/") s) eqn:Es; [by apply IH |].
  rewrite orb_false_r in H. unfold ceq in H. rewrite H. rewrite after_slash_none by done.
  destruct s as [|d s]; [done |]. cbn [base_name]. by rewrite Es.
Qed.

Lemma after_slash_base s : after_slash s s = base_name s.
Proof.
  destruct (existsb (fun c => ceq c "/") s) eqn:E; [by apply after_slash_some |].
  rewrite after_slash_none by done. destruct s; [done |]. cbn [base_name]. by rewrite E.
Qed.

(** C39: every string the emitter writes is read by C as the bytes it stands for: a
    literal of at most 255 bytes as its length byte and its bytes, whatever
    bytes follow an escape; a literal without prefix as its bytes; and the file
    name of a run-time message as the last component of the location's path. *)
Theorem string_literals_exact s l :
  ((length s <= 255)%nat -> c_literal (c_string_bytes s true) = Some (chr (Z.of_nat (length s)) :: s)) /\
  c_literal (c_string_bytes s false) = Some s /\
  c_literal (loc_file_lit l) = Some (base_name (chars (default "?" (loc_file l)))).
Proof.
  split; [apply literal_with_length |]. split.
  - unfold c_string_bytes. rewrite app_assoc, literal_quoted. apply decode_c_chars.
  - unfold loc_file_lit. rewrite literal_quoted, decode_file_chars. by rewrite after_slash_base.
Qed.

Definition example_bytes : bytes := chars "a9?1\" ++ [dquote; "000"%char; "1"%char].

Lemma string_literals_exact_witness :
  c_literal (c_string_bytes example_bytes true) = Some (chr 8 :: example_bytes).
Proof. apply (string_literals_exact example_bytes (mkLoc None 0)). vm_compute. lia. Defined.
End Strings.

(** * Integer constants *)

Module Ints.

(** A decimal constant, which C gives a type that holds it when it is at most
    INT64_MAX. *)
Definition c_decimal (s : bytes) : option Z :=
  match s with
  | [] => None
  | _ => if forallb isdigit s && (digits_value 10 0 s <=? INT64_MAX) then Some (digits_value 10 0 s) else None
  end.

Definition c_signed (s : bytes) : option Z :=
  match s with
  | c :: r => if ceq c "-" then option_map Z.opp (c_decimal r) else c_decimal s
  | [] => None
  end.

Definition strip (pre : bytes) (s : bytes) : option bytes :=
  if bool_decide (take (length pre) s = pre) then Some (drop (length pre) s) else None.

(** The constant expressions the emitter writes for integers: a decimal constant
    with an optional minus sign, the same inside [INT64_C(...)], and the macro
    [INT64_MIN]. *)
Definition c_int_constant (s : string) : option Z :=
  if String.eqb s "INT64_MIN" then Some INT64_MIN
  else match strip (chars "INT64_C(") (chars s) with
       | Some r => match rev r with c :: r' => if ceq c ")" then c_signed (rev r') else None | [] => None end
       | None => c_signed (chars s)
       end.

Lemma c_decimal_dec n : 0 <= n <= INT64_MAX -> c_decimal (dec_bytes n) = Some n.
Proof.
  intros Hn. destruct (dec_bytes_value n ltac:(lia)) as [Hd Hv].
  pose proof (base_digits_nonempty 10 ltac:(lia) n) as Hne. fold (dec_bytes n) in Hne.
  unfold c_decimal. destruct (dec_bytes n) as [|c s] eqn:E; [done |].
  rewrite Hd, Hv. by rewrite (proj2 (Z.leb_le n INT64_MAX)) by lia.
Qed.

Lemma dec_bytes_head n : 0 <= n -> exists c s, dec_bytes n = c :: s /\ isdigit c = true.
Proof.
  intros Hn. destruct (dec_bytes_value n Hn) as [Hd _].
  pose proof (base_digits_nonempty 10 ltac:(lia) n) as Hne. fold (dec_bytes n) in Hne.
  destruct (dec_bytes n) as [|c s]; [done |]. simpl in Hd. apply andb_true_iff in Hd as [Hc _]. eauto.
Qed.

Lemma digit_head c : isdigit c = true -> ceq c "-" = false /\ c <> "I"%char.
Proof.
  intros H. pose proof (char_check (fun c => implb (isdigit c) (negb (ceq c "-") && negb (ceq c "I"))) c
    ltac:(by vm_compute)) as Hc. simpl in Hc. rewrite H in Hc. simpl in Hc.
  apply andb_true_iff in Hc as [H1%negb_true_iff H2%negb_true_iff]. split; [done |]. intros ->. discriminate H2.
Qed.

Lemma chars_Zs v : chars (Zs v) = if v <? 0 then "-"%char :: dec_bytes (- v) else dec_bytes v.
Proof. unfold Zs. destruct (v <? 0); simpl; by rewrite chars_str. Qed.

Lemma c_signed_Zs v : INT64_MIN < v <= INT64_MAX -> c_signed (chars (Zs v)) = Some v.
Proof.
  intros Hv. rewrite chars_Zs. unfold INT64_MIN, INT64_MAX in *. destruct (Z.ltb_spec v 0).
  - simpl. rewrite c_decimal_dec by (unfold INT64_MAX; lia). simpl. f_equal. lia.
  - destruct (dec_bytes_head v ltac:(lia)) as (c & s & E & Hc).
    assert (c_signed (dec_bytes v) = c_decimal (dec_bytes v)) as ->.
    { rewrite E. cbn [c_signed]. by destruct (digit_head c Hc) as [-> _]. }
    apply c_decimal_dec. unfold INT64_MAX. lia.
Qed.

(** The text of a number does not begin like a macro. *)
Lemma Zs_head v : exists c s, chars (Zs v) = c :: s /\ c <> "I"%char.
Proof.
  rewrite chars_Zs. destruct (Z.ltb_spec v 0); [by eexists _, _ |].
  destruct (dec_bytes_head v ltac:(lia)) as (c & s & E & Hc). destruct (digit_head c Hc). eauto.
Qed.

Lemma Zs_not_macro v : Zs v <> "INT64_MIN" /\ strip (chars "INT64_C(") (chars (Zs v)) = None.
Proof.
  destruct (Zs_head v) as (c & s & E & Hc). split.
  - intros H. rewrite H in E. simpl in E. injection E as <- _. done.
  - unfold strip. rewrite E. rewrite bool_decide_false; [done |]. simpl. congruence.
Qed.

Lemma chars_app a b : chars (a +:+ b) = chars a ++ chars b.
Proof. unfold chars. induction a as [|c a IH]; simpl; [done |]. by rewrite IH. Qed.

Lemma strip_app pre s : strip pre (pre ++ s) = Some s.
Proof. unfold strip. rewrite take_app_length, drop_app_length. by rewrite bool_decide_true. Qed.

Lemma int_lit_reads v : in_srange 64 v -> c_int_constant (int_lit v) = Some v.
Proof.
  intros Hv. unfold in_srange in Hv. change (2 ^ (64 - 1)) with 9223372036854775808 in Hv. unfold int_lit.
  destruct ((INT32_MIN <=? v) && (v <=? INT32_MAX)) eqn:E.
  - apply andb_true_iff in E as [H1%Z.leb_le H2%Z.leb_le]. unfold INT32_MIN, INT32_MAX in *.
    destruct (Zs_not_macro v) as [Hn Hs]. unfold c_int_constant.
    apply String.eqb_neq in Hn as ->. rewrite Hs. apply c_signed_Zs. unfold INT64_MIN, INT64_MAX. lia.
  - destruct (Z.eqb_spec v INT64_MIN) as [-> | Hm]; [done |].
    unfold c_int_constant. rewrite !chars_app, strip_app, rev_app_distr.
    cbn [chars list_ascii_of_string rev app]. rewrite rev_involutive.
    change (String.eqb _ "INT64_MIN") with false. cbv iota. simpl ceq. cbv iota.
    apply c_signed_Zs. unfold INT64_MIN, INT64_MAX in *. lia.
Qed.

(** every INTEGER64 value is written as a C constant expression that denotes it,
    none of whose decimal constants exceeds what C can hold: the least value,
    which has no decimal constant, as its macro. *)
Theorem int_lit_exact v (Hv : in_srange 64 v) : c_int_constant (int_lit v) = Some v.
Proof. by apply int_lit_reads. Qed.

Lemma int_lit_exact_witness :
  c_int_constant (int_lit (-9223372036854775808)) = Some (-9223372036854775808) /\
  c_int_constant (int_lit (-9223372036854775807)) = Some (-9223372036854775807) /\
  int_lit (-9223372036854775807) = "INT64_C(-9223372036854775807)".
Proof.
  split; [apply (int_lit_exact (-9223372036854775808)); srange |].
  split; [apply (int_lit_exact (-9223372036854775807)); srange | vm_compute; reflexivity].
Defined.
End Ints.
