(* ===== verification/EmitFrame.v ===== *)
(** What the emitter leaves alone: expressions and statements declare nothing,
    write only at the end of the body, and restore the indentation; a routine's
    body leaves no name of its scope behind. *)

From Stdlib Require Import ZArith Ascii String SpecFloat Lia.
From stdpp Require Import base list strings gmap.
From S2P Require Import Prelude Real Ast Sem Emit.
#[local] Open Scope Z_scope.

(** ** The types part of sem.c *)

(** A step of sem.c that changes no symbol and no scope. *)
Definition still (s s' : Sem) : Prop := scopes s' = scopes s /\ syms s' = syms s.
Definition sem_still {A} (m : SM A) : Prop := forall s a s', m s = Ok (a, s') -> still s s'.

#[export] Instance still_refl : Reflexive still.
Proof. by intros s. Qed.
#[export] Instance still_trans : Transitive still.
Proof. intros s1 s2 s3 [? ?] [? ?]. split; congruence. Qed.

Create HintDb frame discriminated.

Lemma sem_still_bind {A B} (m : SM A) (k : A -> SM B) :
  sem_still m -> (forall a, sem_still (k a)) -> sem_still (bind m k).
Proof. intros Hm Hk s b s' H. inv_ok. etrans; [by eapply Hm | by eapply Hk]. Qed.
Lemma sem_still_ret {A} (a : A) : sem_still (ret a).
Proof. intros s b s' H. by inv_ok. Qed.
Lemma sem_still_fail {A} e : sem_still (A := A) (fail e).
Proof. by intros s b s' H. Qed.
Lemma sem_still_fatal {A} l m : sem_still (A := A) (fatal l m).
Proof. by intros s b s' H. Qed.
Lemma sem_still_dangling {A} : sem_still (A := A) dangling.
Proof. by intros s b s' H. Qed.
Lemma sem_still_get : sem_still get.
Proof. intros s b s' H. by inv_ok. Qed.
#[export] Hint Resolve sem_still_ret sem_still_fail sem_still_fatal sem_still_dangling sem_still_get : frame.

Ltac frame_walk bind :=
  repeat first
    [ solve [eauto 4 with frame]
    | apply bind; [| intros ?]
    | match goal with
      | |- ?F (if ?b then _ else _) => destruct b
      | |- ?F (match ?x with _ => _ end) => destruct x
      end ].
Ltac sem_walk := frame_walk @sem_still_bind.

Lemma sem_still_get_type t : sem_still (get_type t).
Proof. intros s a s' H. unfold get_type in H. destruct (types s !! t); by inv_ok. Qed.
Lemma sem_still_get_sym i : sem_still (get_sym i).
Proof. intros s a s' H. unfold get_sym in H. destruct (syms s !! i); by inv_ok. Qed.
#[export] Hint Resolve sem_still_get_type sem_still_get_sym : frame.

Lemma sem_still_desc_of t : sem_still (desc_of t).
Proof. unfold desc_of. sem_walk. Qed.
Lemma sem_still_lookup n : sem_still (lookup n).
Proof. unfold lookup, deref_sym. sem_walk. Qed.
Lemma sem_still_lookup_innermost n : sem_still (lookup_innermost n).
Proof. unfold lookup_innermost, deref_sym. sem_walk. Qed.
Lemma sem_still_set_flags t e d : sem_still (set_flags t e d).
Proof. intros s a s' H. unfold set_flags in H. inv_ok. apply sem_still_get_type in E. done. Qed.
Lemma sem_still_buf_types x : sem_still (buf_types x).
Proof. intros s a s' H. unfold buf_types in H. by inv_ok. Qed.
Lemma sem_still_array_len lo hi : sem_still (array_len lo hi).
Proof. unfold array_len. sem_walk. Qed.
#[export] Hint Resolve sem_still_desc_of sem_still_lookup sem_still_lookup_innermost sem_still_set_flags
  sem_still_buf_types sem_still_array_len : frame.

Lemma sem_still_same_type_f f : forall a b, sem_still (same_type_f f a b).
Proof. induction f as [|f IH]; intros a b; cbn [same_type_f]; sem_walk. Qed.
Lemma sem_still_type_name_f f : forall t, sem_still (type_name_f f t).
Proof. induction f as [|f IH]; intros t; cbn [type_name_f]; sem_walk. Qed.
#[export] Hint Resolve sem_still_same_type_f sem_still_type_name_f : frame.

Lemma sem_still_same_type a b : sem_still (same_type a b).
Proof. unfold same_type. sem_walk. Qed.
Lemma sem_still_type_name t : sem_still (type_name t).
Proof. unfold type_name. sem_walk. Qed.
Lemma sem_still_aggregate t ty n def : (forall tag, sem_still (def tag)) -> sem_still (aggregate t ty n def).
Proof. intros H. unfold aggregate. sem_walk. Qed.
Lemma sem_still_field_lines ct fs : (forall t, sem_still (ct t)) -> sem_still (field_lines ct fs).
Proof. intros H. induction fs as [|[n t] fs IH]; cbn [field_lines]; sem_walk. Qed.
#[export] Hint Resolve sem_still_same_type sem_still_type_name sem_still_aggregate sem_still_field_lines : frame.

Lemma sem_still_ctype_ref f : forall t n, sem_still (ctype_ref f t n).
Proof.
  induction f as [|f IH]; intros t n; cbn [ctype_ref]; sem_walk;
    (apply sem_still_aggregate; intros tag; sem_walk).
Qed.
#[export] Hint Resolve sem_still_ctype_ref : frame.

Lemma sem_still_ctype t : sem_still (ctype t).
Proof. unfold ctype. sem_walk. Qed.
#[export] Hint Resolve sem_still_ctype : frame.

(** ** Expressions and statements *)

(** A step of the emitter that declares nothing and adds to the body only. *)
Record quiet (st st' : Emit) : Prop := {
  q_sem : still (sem st) (sem st');
  q_out : out st' = out st;
  q_indent : indent st' = indent st;
  q_units : impl_unit st' = impl_unit st /\ iface_unit st' = iface_unit st;
  q_func : cur_func st' = cur_func st /\ in_main st' = in_main st;
  q_body : exists text, body st' = body st +:+ text }.

Lemma string_app_assoc (a b c : string) : (a +:+ b) +:+ c = a +:+ (b +:+ c).
Proof. induction a as [|x a IH]; [done |]. exact (f_equal (String x) IH). Qed.
Lemma string_app_nil (a : string) : a +:+ EmptyString = a.
Proof. induction a as [|x a IH]; [done |]. exact (f_equal (String x) IH). Qed.

#[export] Instance quiet_refl : Reflexive quiet.
Proof. intros st. split; try done. exists EmptyString. by rewrite string_app_nil. Qed.
#[export] Instance quiet_trans : Transitive quiet.
Proof.
  intros s1 s2 s3 [S1 O1 I1 [U1 V1] [F1 M1] [t1 B1]] [S2 O2 I2 [U2 V2] [F2 M2] [t2 B2]].
  split; [by etrans | congruence | congruence | split; congruence | split; congruence |].
  exists (t1 +:+ t2). by rewrite B2, B1, string_app_assoc.
Qed.

Definition keeps {A} (m : EM A) : Prop := forall st a st', m st = Ok (a, st') -> quiet st st'.

Lemma keeps_bind {A B} (m : EM A) (k : A -> EM B) :
  keeps m -> (forall a, keeps (k a)) -> keeps (bind m k).
Proof. intros Hm Hk s b s' H. inv_ok. etrans; [by eapply Hm | by eapply Hk]. Qed.
Lemma keeps_ret {A} (a : A) : keeps (ret a).
Proof. intros s b s' H. by inv_ok. Qed.
Lemma keeps_fatal {A} l m : keeps (A := A) (fatal l m).
Proof. by intros s b s' H. Qed.
Lemma keeps_unsupp {A} l m : keeps (A := A) (unsupp l m).
Proof. by intros s b s' H. Qed.
Lemma keeps_get : keeps get.
Proof. intros s b s' H. by inv_ok. Qed.
Lemma keeps_in_sem {A} (m : SM A) : sem_still m -> keeps (in_sem m).
Proof.
  intros Hm st a st' H. unfold in_sem in H. destruct (m (sem st)) as [[x s'] | e] eqn:E; [| done].
  injection H as <- <-. split; try done; [by eapply Hm |]. exists EmptyString. by rewrite string_app_nil.
Qed.
Lemma keeps_line s : keeps (line s).
Proof. intros st a st' H. unfold line in H. inv_ok. split; try done. simpl. by eexists. Qed.
Lemma keeps_for_count n : keeps (modify (with_for_count n)).
Proof. intros st a st' H. inv_ok. split; try done. exists EmptyString. by rewrite string_app_nil. Qed.
#[export] Hint Resolve keeps_ret keeps_fatal keeps_unsupp keeps_get keeps_in_sem keeps_line keeps_for_count : frame.

Ltac walk := frame_walk @keeps_bind.

Lemma keeps_ty_desc c : keeps (ty_desc c).
Proof. unfold ty_desc. walk. Qed.
Lemma keeps_name_of t : keeps (name_of t).
Proof. unfold name_of. walk. Qed.
Lemma keeps_cast_to t s : keeps (cast_to t s).
Proof. unfold cast_to. walk. Qed.
Lemma keeps_lit_lstr_ptr l s : keeps (lit_lstr_ptr l s).
Proof. unfold lit_lstr_ptr. walk. Qed.
#[export] Hint Resolve keeps_ty_desc keeps_name_of keeps_cast_to keeps_lit_lstr_ptr : frame.

Lemma keeps_lit_ptr o : keeps (lit_ptr o).
Proof. unfold lit_ptr. walk. Qed.
#[export] Hint Resolve keeps_lit_ptr : frame.
Lemma keeps_lstr_bytes e l : keeps (lstr_bytes e l).
Proof. unfold lstr_bytes. walk. Qed.
Lemma keeps_const_ce s l : keeps (const_ce s l).
Proof. unfold const_ce. walk. Qed.
Lemma keeps_var_ce s : keeps (var_ce s).
Proof. unfold var_ce. walk. Qed.
Lemma keeps_conv e t l : keeps (conv e t l).
Proof. unfold conv. walk. Qed.
#[export] Hint Resolve keeps_lstr_bytes keeps_const_ce keeps_var_ce keeps_conv : frame.

Lemma keeps_gen_args gen r args : Forall (fun a => keeps (gen a)) args ->
  forall i ps, keeps (gen_args gen r i ps args).
Proof.
  induction 1 as [|a args Ha _ IH]; intros i ps; destruct ps as [|p ps]; cbn [gen_args]; walk.
Qed.
Lemma keeps_gen_call gen r args l : Forall (fun a => keeps (gen a)) args -> keeps (gen_call gen r args l).
Proof. intros H. unfold gen_call. pose proof (keeps_gen_args gen r args H). walk. Qed.
Lemma keeps_type_arg e : keeps (type_arg e).
Proof. unfold type_arg. walk. Qed.
#[export] Hint Resolve keeps_gen_call keeps_type_arg : frame.

Lemma keeps_gen_name l n : keeps (gen_name l n).
Proof. unfold gen_name. walk. Qed.
Lemma keeps_gen_ord l v : keeps (gen_ord l v).
Proof. unfold gen_ord. walk. Qed.
Lemma keeps_gen_chr l v : keeps (gen_chr l v).
Proof. unfold gen_chr. walk. Qed.
Lemma keeps_gen_retype l t v : keeps (gen_retype l t v).
Proof. unfold gen_retype. walk. Qed.
Lemma keeps_gen_trunc l v : keeps (gen_trunc l v).
Proof. unfold gen_trunc. walk. Qed.
Lemma keeps_sizeof_type e : keeps (sizeof_type e).
Proof. unfold sizeof_type. walk. Qed.
#[export] Hint Resolve keeps_gen_name keeps_gen_ord keeps_gen_chr keeps_gen_retype keeps_gen_trunc
  keeps_sizeof_type : frame.

Lemma keeps_gen_builtin gen l n args : Forall (fun a => keeps (gen a)) args -> keeps (gen_builtin gen l n args).
Proof.
  intros H. unfold gen_builtin. destruct args as [|a [|b [|]]]; repeat (apply Forall_cons in H as [? H]); walk.
Qed.

Lemma keeps_int_arith op w l r loc : keeps (int_arith op w l r loc).
Proof. unfold int_arith. walk. Qed.
Lemma keeps_complete_target d : keeps (complete_target d).
Proof. unfold complete_target. walk. Qed.
#[export] Hint Resolve keeps_gen_builtin keeps_int_arith keeps_complete_target : frame.
Lemma keeps_gen_compare op loc l r : keeps (gen_compare op loc l r).
Proof. unfold gen_compare. walk. Qed.
Lemma keeps_gen_logical op loc l r : keeps (gen_logical op loc l r).
Proof. unfold gen_logical. walk. Qed.
Lemma keeps_gen_arith op loc l r : keeps (gen_arith op loc l r).
Proof. unfold gen_arith. walk. Qed.
#[export] Hint Resolve keeps_gen_compare keeps_gen_logical keeps_gen_arith : frame.

Lemma keeps_gen_binary op loc l r : keeps (gen_binary op loc l r).
Proof. unfold gen_binary. walk. Qed.
Lemma keeps_gen_unary op l v : keeps (gen_unary op l v).
Proof. unfold gen_unary. walk. Qed.
Lemma keeps_gen_index l b i : keeps (gen_index l b i).
Proof. unfold gen_index. walk. Qed.
Lemma keeps_gen_field l b n : keeps (gen_field l b n).
Proof. unfold gen_field. walk. Qed.
Lemma keeps_gen_deref l b : keeps (gen_deref l b).
Proof. unfold gen_deref. walk. Qed.
Lemma keeps_gen_adr l n : keeps (gen_adr l n).
Proof. unfold gen_adr. walk. Qed.
#[export] Hint Resolve keeps_gen_binary keeps_gen_unary keeps_gen_index keeps_gen_field keeps_gen_deref
  keeps_gen_adr : frame.

Lemma keeps_gen_expr e : keeps (gen_expr e).
Proof. induction e using Expr_nested_ind; cbn [gen_expr]; walk. Qed.
#[export] Hint Resolve keeps_gen_expr : frame.

Lemma keeps_gen_args_all args : Forall (fun a => keeps (gen_expr a)) args.
Proof. apply Forall_true. intros. apply keeps_gen_expr. Qed.
#[export] Hint Resolve keeps_gen_args_all : frame.

Lemma keeps_gen_write_args args : keeps (gen_write_args args).
Proof. induction args as [|a args IH]; cbn [gen_write_args]; walk. Qed.
#[export] Hint Resolve keeps_gen_write_args : frame.
Lemma keeps_gen_write c b : keeps (gen_write c b).
Proof. unfold gen_write. walk. Qed.
Lemma keeps_gen_concat l args : keeps (gen_concat l args).
Proof. unfold gen_concat. walk. Qed.
#[export] Hint Resolve keeps_gen_write keeps_gen_concat : frame.
Lemma keeps_gen_call_stmt e : keeps (gen_call_stmt e).
Proof. unfold gen_call_stmt. walk. Qed.
Lemma keeps_gen_target e : keeps (gen_target e).
Proof. unfold gen_target. walk. Qed.
#[export] Hint Resolve keeps_gen_call_stmt keeps_gen_target : frame.
Lemma keeps_gen_assign l a b : keeps (gen_assign l a b).
Proof. unfold gen_assign. walk. Qed.
Lemma keeps_gen_cond w e : keeps (gen_cond w e).
Proof. unfold gen_cond. walk. Qed.
Lemma keeps_gen_return : keeps gen_return.
Proof. unfold gen_return. walk. Qed.
#[export] Hint Resolve keeps_gen_assign keeps_gen_cond keeps_gen_return : frame.

(** An indented part. *)
Lemma keeps_indented m : keeps m -> keeps (indented m).
Proof.
  intros Hm st a st' H. unfold indented in H. inv_ok. apply Hm in E0. unfold indent_by in *. inv_ok.
  destruct E0 as [S O I U F B]. simpl in *. split; try done. simpl. by rewrite I.
Qed.

#[local] Opaque indented.

Lemma keeps_gen_for v vl from to down b : keeps b -> keeps (gen_for v vl from to down b).
Proof. intros H. unfold gen_for. walk. apply keeps_indented. walk. Qed.

Lemma keeps_gen_each gen ss : Forall (fun s => keeps (gen s)) ss -> keeps (gen_each gen ss).
Proof. induction 1 as [|s ss Hs _ IH]; cbn [gen_each]; walk. Qed.
#[export] Hint Resolve keeps_indented keeps_gen_for keeps_gen_each : frame.

(** What a statement's blocks need: the statement itself, and the parts of a
    block. *)
Definition keeps_stmt (s : Stmt) : Prop := keeps (gen_stmt s) /\ keeps (gen_block_body gen_stmt s).

Lemma keeps_stmt_intro s : keeps (gen_stmt s) ->
  match s with S_BLOCK _ ss => Forall (fun s => keeps (gen_stmt s)) ss | _ => True end -> keeps_stmt s.
Proof.
  intros H Hs. split; [done |]. unfold gen_block_body. apply keeps_indented.
  destruct s; try done. by apply keeps_gen_each.
Qed.

Lemma gen_stmt_keeps s : keeps_stmt s.
Proof.
  induction s using Stmt_nested_ind; apply keeps_stmt_intro; cbn [gen_stmt];
    repeat match goal with H : keeps_stmt _ |- _ => destruct H end;
    repeat match goal with H : match ?x with Some _ => _ | None => _ end |- _ => destruct x as [?el |]; [destruct H |] end;
    try done; walk.
  all: assert (Forall (fun s => keeps (gen_stmt s)) ss) by (eapply Forall_impl; [exact H | by intros s []]).
  all: eauto with frame.
Qed.

(** ** Declarations of a local scope *)

(** A step that declares in the innermost scope only. *)
Definition outer_same (s s' : Sem) : Prop :=
  length (scopes s') = length (scopes s) /\ tail (scopes s') = tail (scopes s).
Definition sem_local {A} (m : SM A) : Prop := forall s a s', m s = Ok (a, s') -> outer_same s s'.

#[export] Instance outer_same_refl : Reflexive outer_same.
Proof. by intros s. Qed.
#[export] Instance outer_same_trans : Transitive outer_same.
Proof. intros s1 s2 s3 [? ?] [? ?]. split; congruence. Qed.

Lemma sem_local_bind {A B} (m : SM A) (k : A -> SM B) :
  sem_local m -> (forall a, sem_local (k a)) -> sem_local (bind m k).
Proof. intros Hm Hk s b s' H. inv_ok. etrans; [by eapply Hm | by eapply Hk]. Qed.
Lemma sem_local_still {A} (m : SM A) : sem_still m -> sem_local m.
Proof. intros Hm s a s' H. destruct (Hm _ _ _ H) as [E _]. unfold outer_same. by rewrite E. Qed.
#[export] Hint Resolve sem_local_still : frame.

(** A change of the state that leaves the scopes alone. *)
Lemma sem_local_modify f : (forall s, scopes (f s) = scopes s) -> sem_local (modify f).
Proof. intros Hf s a s' H. inv_ok. unfold outer_same. by rewrite Hf. Qed.

Lemma sem_local_define s : sem_local (define s).
Proof.
  intros st i st' H. unfold define in H. inv_ok. unfold alloc_sym in E. inv_ok. simpl in H.
  destruct (scopes st) as [|sc scs] eqn:Es; [done |]. inv_ok. unfold outer_same. simpl. by rewrite Es.
Qed.
Lemma sem_local_new_type d l : sem_local (new_type d l).
Proof. intros st t st' H. unfold new_type in H. by inv_ok. Qed.
Lemma sem_local_set_desc t d : sem_local (set_desc t d).
Proof. unfold set_desc. apply sem_local_bind; [auto with frame | intros]. by apply sem_local_modify. Qed.
#[export] Hint Resolve sem_local_define sem_local_new_type sem_local_set_desc : frame.

Ltac local_walk :=
  repeat first
    [ solve [eauto 4 with frame]
    | apply sem_local_modify; done
    | apply sem_local_bind; [| intros ?]
    | match goal with
      | |- ?F (if ?b then _ else _) => destruct b
      | |- ?F (match ?x with _ => _ end) => destruct x
      end ].

Lemma sem_still_is_int t : sem_still (is_int t).
Proof. unfold is_int. sem_walk. Qed.
Lemma sem_still_unsupp {A} l m : sem_still (A := A) (unsupp l m).
Proof. by intros s b s' H. Qed.
#[export] Hint Resolve sem_still_is_int sem_still_unsupp : frame.
Lemma sem_still_exact64 l z : sem_still (exact64 l z).
Proof. unfold exact64. sem_walk. Qed.
#[export] Hint Resolve sem_still_exact64 : frame.
Lemma sem_still_const_eval e : sem_still (const_eval e).
Proof. induction e using Expr_nested_ind; cbn [const_eval]; sem_walk. Qed.
#[export] Hint Resolve sem_still_const_eval : frame.
Lemma sem_still_const_int_value e : sem_still (const_int_value e).
Proof. unfold const_int_value. sem_walk. Qed.
Lemma sem_still_pointer_target n : sem_still (pointer_target n).
Proof. unfold pointer_target. sem_walk. Qed.
Lemma sem_still_add_fields l t ns : forall fs, sem_still (add_fields l t ns fs).
Proof. induction ns as [|n ns IH]; intros fs; cbn [add_fields]; sem_walk. Qed.
#[export] Hint Resolve sem_still_const_int_value sem_still_pointer_target sem_still_add_fields : frame.

Lemma sem_local_lstring_of c l : sem_local (lstring_of c l).
Proof. unfold lstring_of. local_walk. Qed.
Lemma sem_local_array_of lo hi e l : sem_local (array_of lo hi e l).
Proof. unfold array_of. local_walk. Qed.
Lemma sem_local_enum_consts l t ns : forall i, sem_local (enum_consts l t i ns).
Proof. induction ns as [|n ns IH]; intros i; cbn [enum_consts]; local_walk. Qed.
#[export] Hint Resolve sem_local_lstring_of sem_local_array_of sem_local_enum_consts : frame.

Lemma sem_local_group_fields gs : Forall (fun g => sem_local (resolve_type (fg_te g))) gs ->
  forall fs, sem_local (group_fields resolve_type gs fs).
Proof.
  induction 1 as [|[ns te gl] gs Hg _ IH]; intros fs; cbn [group_fields]; simpl in *; local_walk.
Qed.
#[export] Hint Resolve sem_local_group_fields : frame.

Lemma sem_local_resolve_type te : sem_local (resolve_type te).
Proof. induction te using TypeExpr_nested_ind; cbn [resolve_type]; local_walk. Qed.
#[export] Hint Resolve sem_local_resolve_type : frame.

Lemma sem_local_bind_pending ps : sem_local (bind_pending ps).
Proof. induction ps as [|p ps IH]; cbn [bind_pending]; local_walk. Qed.
Lemma sem_still_chase k : forall t u, sem_still (chase k t u).
Proof. induction k as [|k IH]; intros t u; cbn [chase]; sem_walk. Qed.
#[export] Hint Resolve sem_local_bind_pending sem_still_chase : frame.
Lemma sem_still_check_cycles n ps : sem_still (check_cycles n ps).
Proof. induction ps as [|p ps IH]; cbn [check_cycles]; sem_walk. Qed.
Lemma sem_local_clear_pending ps : sem_local (clear_pending ps).
Proof. induction ps as [|p ps IH]; cbn [clear_pending]; local_walk. Qed.
#[export] Hint Resolve sem_still_check_cycles sem_local_clear_pending : frame.
Lemma sem_local_resolve_pending : sem_local resolve_pending_pointers.
Proof. unfold resolve_pending_pointers. local_walk. Qed.
Lemma sem_local_set_type_section s : sem_local (set_type_section s).
Proof. by apply sem_local_modify. Qed.
#[export] Hint Resolve sem_local_resolve_pending sem_local_set_type_section : frame.

(** A step of the emitter on the declarations or the statements of a body. *)
Record enclosed (st st' : Emit) : Prop := {
  n_sem : outer_same (sem st) (sem st');
  n_out : out st' = out st;
  n_units : impl_unit st' = impl_unit st /\ iface_unit st' = iface_unit st;
  n_func : cur_func st' = cur_func st /\ in_main st' = in_main st }.
Definition encloses {A} (m : EM A) : Prop := forall st a st', m st = Ok (a, st') -> enclosed st st'.

#[export] Instance enclosed_refl : Reflexive enclosed.
Proof. by intros st. Qed.
#[export] Instance enclosed_trans : Transitive enclosed.
Proof.
  intros s1 s2 s3 [S1 O1 [U1 V1] [F1 M1]] [S2 O2 [U2 V2] [F2 M2]].
  split; [by etrans | congruence | split; congruence | split; congruence].
Qed.

Lemma encloses_bind {A B} (m : EM A) (k : A -> EM B) :
  encloses m -> (forall a, encloses (k a)) -> encloses (bind m k).
Proof. intros Hm Hk s b s' H. inv_ok. etrans; [by eapply Hm | by eapply Hk]. Qed.
Lemma encloses_keeps {A} (m : EM A) : keeps m -> encloses m.
Proof.
  intros Hm st a st' H. destruct (Hm _ _ _ H) as [[Es _] O I U F B]. split; try done.
  unfold outer_same. by rewrite Es.
Qed.
Lemma encloses_in_sem {A} (m : SM A) : sem_local m -> encloses (in_sem m).
Proof.
  intros Hm st a st' H. unfold in_sem in H. destruct (m (sem st)) as [[x s'] | e] eqn:E; [| done].
  injection H as <- <-. split; try done. by eapply Hm.
Qed.
Lemma encloses_with_indent n : encloses (modify (with_indent n)).
Proof. intros st a st' H. by inv_ok. Qed.
Lemma encloses_swap_body b : encloses (swap_body b).
Proof. intros st a st' H. unfold swap_body in H. by inv_ok. Qed.
Lemma encloses_append_body t : encloses (modify (fun st => with_body (body st +:+ t) st)).
Proof. intros st a st' H. by inv_ok. Qed.
#[export] Hint Resolve encloses_keeps encloses_in_sem encloses_with_indent encloses_swap_body
  encloses_append_body : frame.

Ltac enclosed_walk := frame_walk @encloses_bind.

Lemma encloses_const_section items : encloses (const_section items).
Proof. induction items as [|c items IH]; cbn [const_section]; unfold const_item; enclosed_walk. Qed.
Lemma encloses_type_items all items : forall i, encloses (type_items all i items).
Proof. induction items as [|t items IH]; intros i; cbn [type_items]; unfold type_item; enclosed_walk. Qed.
#[export] Hint Resolve encloses_const_section encloses_type_items : frame.
Lemma encloses_type_section items : encloses (type_section items).
Proof. unfold type_section. enclosed_walk. Qed.
Lemma encloses_var_names l t ct names : encloses (var_names true l t ct names).
Proof. induction names as [|n names IH]; cbn [var_names]; unfold var_name; enclosed_walk. Qed.
#[export] Hint Resolve encloses_type_section encloses_var_names : frame.
Lemma encloses_var_section items : encloses (var_section items true).
Proof. induction items as [|v items IH]; cbn [var_section]; enclosed_walk. Qed.
#[export] Hint Resolve encloses_var_section : frame.
Lemma encloses_local_sections routine decls : encloses (process_sections routine decls true).
Proof. induction decls as [|d decls IH]; cbn [process_sections]; unfold process_decl; enclosed_walk. Qed.
Lemma encloses_define_params l ps : encloses (define_params l ps).
Proof. induction ps as [|p ps IH]; cbn [define_params]; enclosed_walk. Qed.
#[export] Hint Resolve encloses_local_sections encloses_define_params : frame.

Lemma keeps_stmts ss : keeps (gen_each gen_stmt ss).
Proof. apply keeps_gen_each, Forall_true. intros s. apply gen_stmt_keeps. Qed.
#[export] Hint Resolve keeps_stmts : frame.

Lemma keeps_param_decls named ps : forall first, keeps (param_decls named first ps).
Proof. induction ps as [|p ps IH]; intros first; cbn [param_decls]; unfold param_decl; walk. Qed.
#[export] Hint Resolve keeps_param_decls : frame.
Lemma keeps_prototype s named : keeps (prototype s named).
Proof. unfold prototype. walk. Qed.
#[export] Hint Resolve keeps_prototype : frame.

Lemma encloses_routine_body s r : encloses (routine_body s r).
Proof. unfold routine_body. enclosed_walk. Qed.

(** ** The results *)

(** an expression or a statement is translated without declaring anything: the
    symbols and the scopes are as before, what was written stays written, text is
    added only at the end of the body, and the indentation is restored however
    the statements nest. *)
Theorem statements_declare_nothing s e st :
  (forall u st', gen_stmt s st = Ok (u, st') -> quiet st st') /\
  (forall c st', gen_expr e st = Ok (c, st') -> quiet st st').
Proof.
  split; intros x st' H; [by eapply (proj1 (gen_stmt_keeps s)) | by eapply keeps_gen_expr].
Qed.

(** The scopes around a push and a pop. *)
Lemma push_pop st s3 s4 a6 u v : in_sem scope_push st = Ok (u, s3) -> enclosed s3 s4 ->
  in_sem scope_pop s4 = Ok (v, a6) -> scopes (sem a6) = scopes (sem st) /\ out a6 = out st.
Proof.
  unfold in_sem, scope_push, scope_pop, modify. intros [= <- <-] [[Hl Ht] Ho _ _] [= <- <-]. simpl in *.
  split; [| done]. destruct (scopes (sem s4)); [discriminate Hl | done].
Qed.

(** a routine with a body is translated with its parameters, its locals and the
    constants of its enumerations in a scope of its own: afterwards the scopes
    are exactly what they were before, the current function is left, and the C
    function is added after the text already there. *)
Theorem routine_scope_closed i r st u st' (H : emit_body i r st = Ok (u, st')) :
  scopes (sem st') = scopes (sem st) /\ cur_func st' = None /\
  (exists text, out st' = out st +:+ text) /\ (exists text, body st' = body st +:+ text).
Proof.
  unfold emit_body in H. inv_ok.
  apply (keeps_in_sem _ (sem_still_get_sym i)) in E as [[Es _] Eo _ _ _ [t1 Eb]].
  apply encloses_routine_body in E4. destruct (push_pop _ _ _ _ _ _ E3 E4 E5) as [Hs Ho].
  apply keeps_prototype in E9 as [[Ps _] Po _ _ [Pf _] [t2 Pb]].
  unfold swap_body, put_out in *. inv_ok. simpl in *.
  split; [congruence |]. split; [done |].
  split; [eexists; by rewrite Po, Ho, Eo |]. exists (t1 +:+ t2). by rewrite Pb, Eb, string_app_assoc.
Qed.

(** FUNCTION f(a: INTEGER): INTEGER; VAR b: INTEGER; BEGIN b := a; f := b END; *)
Definition example_routine : Routine :=
  mkRoutine "f" "F" no_loc true true
    [mkParamGroup ["a"] false (TE_NAME no_loc "integer") no_loc] (Some (TE_NAME no_loc "integer"))
    false false false [D_VAR no_loc [mkVarDecl ["b"] no_loc (TE_NAME no_loc "integer")]]
    (Some [S_ASSIGN no_loc (E_NAME no_loc "b") (E_NAME no_loc "a");
           S_ASSIGN no_loc (E_NAME no_loc "f") (E_NAME no_loc "b")]).

(** The state in which its body is translated. *)
Definition example_start : res (symid * Emit) :=
  (do* in_sem sem_init in
   do* in_sem scope_push in
   let* s := routine_sym example_routine None in
   in_sem (define s)) init_emit.

Lemma routine_scope_closed_witness :
  exists i st st', example_start = Ok (i, st) /\ emit_body i example_routine st = Ok (tt, st') /\
    scopes (sem st') = scopes (sem st) /\ length (scopes (sem st)) = 2%nat.
Proof.
  destruct example_start as [[i st] | e] eqn:E; [| exfalso; vm_compute in E; discriminate E].
  destruct (emit_body i example_routine st) as [[[] st'] | e] eqn:E'.
  - exists i, st, st'. split; [reflexivity |]. split; [exact E' |].
    split; [exact (proj1 (routine_scope_closed i example_routine st tt st' E')) |].
    vm_compute in E. injection E as <- <-. reflexivity.
  - exfalso. vm_compute in E. injection E as <- <-. vm_compute in E'. discriminate E'.
Defined.
