(* ===== verification/CTypes.v ===== *)
(** The C declarations sem.c writes for types: the buffer is at any time a sequence
    of declarations a C compiler accepts, in which every structure is declared
    once, defined at most once, and defined only after the structures it holds by
    value; and no type holds itself. *)

From Stdlib Require Import ZArith Ascii String SpecFloat Lia.
From stdpp Require Import base list strings gmap.
From S2P Require Import Prelude Real Ast Sem SemProps EmitFrame.
Import SemProps.Consts SemProps.Interning.
#[local] Open Scope nat_scope.

(** * Valid sequences of C declarations *)

(** [struct tag;] and [struct tag { ... };] of a type. *)
Inductive item := Fwd (t : tyid) | Def (t : tyid).

Definition d_aggregate (d : TypeDesc) : bool :=
  match d with TY_LSTR _ | TY_ARRAY _ _ _ | TY_RECORD _ => true | _ => false end.

Definition d_pointer (d : TypeDesc) : bool := match d with TY_PTR _ _ => true | _ => false end.

Definition scalar_name (d : TypeDesc) : option string :=
  match d with
  | TY_INT width _ =>
      Some (if (width =? 16)%Z then "int16_t" else if (width =? 32)%Z then "int32_t" else "int64_t")
  | TY_REAL => Some "double"
  | TY_BOOL | TY_CHAR => Some "uint8_t"
  | TY_ADRMEM => Some "uint8_t *"
  | TY_ENUM _ _ => Some "int32_t"
  | TY_NIL | TY_STRLIT | TY_VOID => Some "void"
  | TY_PTR _ _ | TY_LSTR _ | TY_ARRAY _ _ _ | TY_RECORD _ => None
  end.

Section Decls.
Variable ds : list TypeDesc.

(** The C name of a type, of which the tags are declared in [items]. *)
Inductive Spelled (items : list item) : tyid -> string -> Prop :=
  | sp_scalar t d s : ds !! t = Some d -> scalar_name d = Some s -> Spelled items t s
  | sp_tag t d : ds !! t = Some d -> d_aggregate d = true -> In (Fwd t) items ->
      Spelled items t (tag_of t d)
  | sp_ptr t u p s : ds !! t = Some (TY_PTR (Some u) p) -> Spelled items u s ->
      Spelled items t (s +:+ " *").

(** C knows the size of the type. *)
Definition Complete (items : list item) (t : tyid) : Prop :=
  forall d, ds !! t = Some d -> d_aggregate d = true -> In (Def t) items.

Inductive Fields (items : list item) : list (string * tyid) -> string -> Prop :=
  | fields_nil : Fields items [] EmptyString
  | fields_cons n t s fs lines : Spelled items t s -> Complete items t -> Fields items fs lines ->
      Fields items ((n, t) :: fs) ("    " +:+ s +:+ " f_" +:+ n +:+ ";" +:+ nl +:+ lines).

(** The definition of a structure, all of whose members are complete. *)
Inductive Body (items : list item) (t : tyid) : TypeDesc -> string -> Prop :=
  | body_lstr cap :
      Body items t (TY_LSTR cap)
        (tag_of t (TY_LSTR cap) +:+ " { uint8_t b[" +:+ Zs (cap + 1) +:+ "]; };" +:+ nl)
  | body_array lo hi e s : Spelled items e s -> Complete items e ->
      Body items t (TY_ARRAY lo hi e)
        (tag_of t (TY_ARRAY lo hi e) +:+ " { " +:+ s +:+ " a[" +:+ Zs (hi - lo + 1) +:+ "]; };" +:+ nl)
  | body_record fs lines : Fields items fs lines ->
      Body items t (TY_RECORD fs)
        (tag_of t (TY_RECORD fs) +:+ " {" +:+ nl +:+ lines
         +:+ (match fs with [] => "    char empty_;" +:+ nl | _ => EmptyString end) +:+ "};" +:+ nl).

(** The sequences of declarations, with their text: no tag is declared twice, and a
    structure is defined once, after its tag is declared. *)
Inductive Decls : list item -> string -> Prop :=
  | decls_nil : Decls [] EmptyString
  | decls_fwd items text t d : Decls items text -> ds !! t = Some d -> d_aggregate d = true ->
      (forall u du, In (Fwd u) items -> ds !! u = Some du -> tag_of u du <> tag_of t d) ->
      Decls (items ++ [Fwd t]) (text +:+ tag_of t d +:+ ";" +:+ nl)
  | decls_def items text t d def : Decls items text -> ds !! t = Some d ->
      In (Fwd t) items -> ~ In (Def t) items -> Body items t d def ->
      Decls (items ++ [Def t]) (text +:+ def).

Lemma Spelled_mono items items' t s : incl items items' -> Spelled items t s -> Spelled items' t s.
Proof using Type.
  intros Hi. induction 1; [by eapply sp_scalar | eapply sp_tag; eauto | by eapply sp_ptr].
Qed.

Lemma Complete_mono items items' t : incl items items' -> Complete items t -> Complete items' t.
Proof using Type. intros Hi H d Hd Ha. apply Hi. by eapply H. Qed.
End Decls.
#[export] Hint Constructors Spelled Fields Body Decls : pas.
#[export] Hint Resolve Spelled_mono Complete_mono : pas.

(** * The buffer of sem.c *)

(** The flags of the types say what the buffer holds; the definitions of the types
    in [opens] are being put together. *)
Definition flags (ts : list Ty) (items : list item) (opens : list tyid) : Prop :=
  forall t ty, ts !! t = Some ty ->
    (t_declared ty = true <-> In (Fwd t) items) /\
    (t_emitted ty = true <-> In (Def t) items \/ In t opens).

Record writing (ds : list TypeDesc) (items : list item) (opens : list tyid) (st : Sem) : Prop := {
  w_descs : descs st = ds;
  w_decls : Decls ds items (types_buf st);
  w_flags : flags (types st) items opens;
  w_open : forall t, In t opens -> ~ In (Def t) items }.

(** Every chain of members and every chain of pointers ends, pointers are
    resolved, and array lengths are [int64_t] values. *)
Definition measured (ds : list TypeDesc) (rank : tyid -> nat) : Prop :=
  forall t d, ds !! t = Some d -> rank t < length ds /\
    match d with
    | TY_ARRAY lo hi e =>
        is_Some (ds !! e) /\ rank e < rank t /\ fits64 (hi - lo) && fits64 (hi - lo + 1) = true
    | TY_RECORD fs => Forall (fun f => is_Some (ds !! f.2) /\ rank f.2 < rank t) fs
    | TY_PTR (Some u) _ =>
        exists du, ds !! u = Some du /\ (d_pointer du = true -> rank u < rank t)
    | TY_PTR None _ => False
    | _ => True
    end.

(** ** Tags *)

Lemma app_inj_l (a b c : string) : a +:+ b = a +:+ c -> b = c.
Proof. induction a as [|x a IH]; simpl; [done |]. intros [= H]. auto. Qed.

(** No two types have the same tag. *)
Lemma tag_of_inj ds ls arr t u d du : canon ds ls arr -> ds !! t = Some d -> ds !! u = Some du ->
  d_aggregate d = true -> d_aggregate du = true -> tag_of t d = tag_of u du -> t = u.
Proof.
  intros C Ht Hu Ad Au E.
  assert (forall a b, tid a = tid b -> a = b) as Htid.
  { intros a b H. apply Zs_inj in H; lia. }
  destruct d as [| | | | | | cap | lo hi e | fs | | | |], du as [| | | | | | cap' | lo' hi' e' | fs' | | | |];
    try done; cbn [tag_of] in E; try discriminate E; apply app_inj_l in E; auto.
  pose proof (lstr_range _ _ _ C _ _ Ht). pose proof (lstr_range _ _ _ C _ _ Hu).
  apply Zs_inj in E; [subst cap' | lia | lia]. by eapply lstr_once.
Qed.

(** ** Steps *)

Lemma flags_other ts items opens t ty ty' items' opens' :
  flags ts items opens -> ts !! t = Some ty ->
  (forall u, u <> t -> (In (Fwd u) items' <-> In (Fwd u) items) /\
     ((In (Def u) items' \/ In u opens') <-> (In (Def u) items \/ In u opens))) ->
  (t_declared ty' = true <-> In (Fwd t) items') ->
  (t_emitted ty' = true <-> In (Def t) items' \/ In t opens') ->
  flags (<[t := ty']> ts) items' opens'.
Proof.
  intros F Ht Ho Hd He u tu Hu. destruct (decide (u = t)) as [-> | Hn].
  - rewrite list_lookup_insert_eq in Hu by (by eapply lookup_lt_Some). by injection Hu as <-.
  - rewrite list_lookup_insert_ne in Hu by done. destruct (Ho u Hn) as [-> ->]. by apply F.
Qed.

Lemma set_flags_run t e d st ty : types st !! t = Some ty ->
  set_flags t e d st = Ok (tt, with_types (<[t := mkTy (t_desc ty) (t_loc ty) e d]> (types st)) st).
Proof. intros H. unfold set_flags, get_type, bind, modify. by rewrite H. Qed.

Lemma descs_flags ts t ty e d : ts !! t = Some ty ->
  map t_desc (<[t := mkTy (t_desc ty) (t_loc ty) e d]> ts) = map t_desc ts.
Proof.
  intros H. etrans; [apply (list_fmap_insert t_desc) |]. apply list_insert_id. simpl.
  by rewrite list_lookup_fmap, H.
Qed.

Section Writing.
Variables (ds : list TypeDesc) (ls arr : list tyid) (rank : tyid -> nat).
Hypothesis HC : canon ds ls arr.
Hypothesis HM : measured ds rank.

Abbreviation writing := (writing ds).

Lemma writing_desc items opens st t ty : writing items opens st -> types st !! t = Some ty ->
  ds !! t = Some (t_desc ty).
Proof using Type.
  intros W H. rewrite <- (w_descs _ _ _ _ W). unfold descs.
  change (map t_desc (types st)) with (t_desc <$> types st). by rewrite list_lookup_fmap, H.
Qed.

Lemma writing_type items opens st t d : writing items opens st -> ds !! t = Some d ->
  exists ty, types st !! t = Some ty /\ t_desc ty = d.
Proof using Type.
  intros W H. rewrite <- (w_descs _ _ _ _ W) in H. unfold descs in H.
  change (map t_desc (types st)) with (t_desc <$> types st) in H.
  rewrite list_lookup_fmap in H. apply fmap_Some in H as (ty & H & ->). eauto.
Qed.

(** A tag is declared when it is first needed. *)
Lemma declare_ok items opens st t ty : writing items opens st -> types st !! t = Some ty ->
  d_aggregate (t_desc ty) = true ->
  exists st1 items1,
    (if t_declared ty then ret tt
     else do* set_flags t (t_emitted ty) true in buf_types (tag_of t (t_desc ty) +:+ ";" +:+ nl)) st = Ok (tt, st1) /\
    writing items1 opens st1 /\ incl items items1 /\ In (Fwd t) items1 /\
    exists ty1, types st1 !! t = Some ty1 /\ t_desc ty1 = t_desc ty /\ t_emitted ty1 = t_emitted ty.
Proof using HC.
  intros W Ht Ha. pose proof (writing_desc _ _ _ _ _ W Ht) as Hd.
  destruct (w_flags _ _ _ _ W t ty Ht) as [Fd Fe]. destruct (t_declared ty) eqn:Ed.
  { exists st, items. split; [done |]. split; [done |]. split; [apply incl_refl |]. split; [by apply Fd | eauto]. }
  rewrite (bind_ok _ _ _ _ _ (set_flags_run _ _ _ _ _ Ht)).
  assert (~ In (Fwd t) items) as Hn by (intros H%Fd; discriminate H).
  eexists _, (items ++ [Fwd t]). split; [reflexivity |]. split; [split; simpl |].
  - unfold descs. simpl. rewrite descs_flags by done. apply W.
  - eapply decls_fwd; [apply W | done | done |]. intros u du Hu Hdu E. apply Hn.
    assert (u = t) as ->; [| done].
    eapply (tag_of_inj _ _ _ u t); try done. destruct (decide (d_aggregate du = true)) as [| Hf]; [done |].
    by destruct du, (t_desc ty).
  - eapply flags_other; [apply W | done | | simpl | simpl].
    + intros u Hu. rewrite !in_snoc. intuition congruence.
    + rewrite in_snoc. intuition.
    + rewrite in_snoc, Fe. intuition congruence.
  - intros u Hu. rewrite in_snoc. intros [H | H]; [| done]. by apply (w_open _ _ _ _ W u).
  - split; [apply incl_appl, incl_refl |]. split; [by apply in_snoc; right |].
    eexists. split; [apply list_lookup_insert_eq; by eapply lookup_lt_Some | done].
Qed.

(** A definition is written after everything its members need. *)
Lemma define_ok items opens st t ty def : writing items opens st -> types st !! t = Some ty ->
  In (Fwd t) items -> t_emitted ty = false ->
  (forall items st, incl [Fwd t] items -> writing items (t :: opens) st ->
     exists text st' items', def (tag_of t (t_desc ty)) st = Ok (text, st') /\
       writing items' (t :: opens) st' /\ incl items items' /\ Body ds items' t (t_desc ty) text) ->
  exists st1 items1,
    (do* set_flags t true true in let* text := def (tag_of t (t_desc ty)) in buf_types text) st = Ok (tt, st1) /\
    writing items1 opens st1 /\ incl items items1 /\ In (Def t) items1.
Proof using Type.
  intros W Ht Hf He Hdef. pose proof (writing_desc _ _ _ _ _ W Ht) as Hd.
  destruct (w_flags _ _ _ _ W t ty Ht) as [Fd Fe].
  assert (~ (In (Def t) items \/ In t opens)) as Hn by (intros H%Fe; congruence).
  rewrite (bind_ok _ _ _ _ _ (set_flags_run _ _ _ _ _ Ht)).
  edestruct (Hdef items) as (text & st2 & items2 & E & W2 & Hi & Hb); [| | rewrite (bind_ok _ _ _ _ _ E)].
  { by intros x [<- | []]. }
  { split; simpl.
    - unfold descs. simpl. rewrite descs_flags by done. apply W.
    - apply W.
    - eapply flags_other; [apply W | done | | simpl; tauto | simpl; tauto].
      intros u Hu. simpl. intuition congruence.
    - intros u [<- | Hu]; [tauto | by apply (w_open _ _ _ _ W)]. }
  exists (with_types_buf (types_buf st2 +:+ text) st2), (items2 ++ [Def t]). split; [done |].
  assert (~ In t opens) as Hno by tauto.
  split; [split; simpl; [apply W2 | | |] |].
  - eapply decls_def; [apply W2 | done | by apply Hi | | done]. apply (w_open _ _ _ _ W2). by left.
  - intros u tu Hu. destruct (w_flags _ _ _ _ W2 u tu Hu) as [-> ->]. rewrite !in_snoc. simpl. intuition congruence.
  - intros u Hu. rewrite in_snoc. intros [H | [= ->]]; [| done]. eapply (w_open _ _ _ _ W2 u); [by right | done].
  - split; [by apply incl_appl | by apply in_snoc; right].
Qed.

(** What a call that spells a type does to the buffer. *)
Definition spells (m : SM string) (t : tyid) (need : bool) (opens : list tyid) : Prop :=
  forall items st, writing items opens st ->
  exists s st' items', m st = Ok (s, st') /\ writing items' opens st' /\ incl items items' /\
    Spelled ds items' t s /\ (need = true -> Complete ds items' t).

Lemma aggregate_ok t d need opens (def : string -> SM string) :
  ds !! t = Some d -> d_aggregate d = true -> (need = true -> ~ In t opens) ->
  (need = true -> forall items st, writing items (t :: opens) st ->
     exists text st' items', def (tag_of t d) st = Ok (text, st') /\
       writing items' (t :: opens) st' /\ incl items items' /\ Body ds items' t d text) ->
  forall ty items st, writing items opens st -> types st !! t = Some ty ->
  exists s st' items', aggregate t ty need def st = Ok (s, st') /\ writing items' opens st' /\ incl items items' /\
    Spelled ds items' t s /\ (need = true -> Complete ds items' t).
Proof using HC.
  intros Hd Ha Ho Hdef ty items st W Ht.
  assert (t_desc ty = d) as Ety by (pose proof (writing_desc _ _ _ _ _ W Ht); congruence).
  unfold aggregate. rewrite Ety.
  destruct (declare_ok items opens st t ty W Ht) as (st1 & items1 & E1 & W1 & I1 & F1 & ty1 & H1 & D1 & X1);
    [by rewrite Ety |]. rewrite Ety in E1.
  rewrite (bind_ok _ _ _ _ _ E1).
  destruct (need && negb (t_emitted ty)) eqn:En.
  - apply andb_true_iff in En as [-> He%negb_true_iff].
    destruct (define_ok items1 opens st1 t ty1 def W1 H1 F1) as (st2 & items2 & E2 & W2 & I2 & F2).
    { by rewrite X1. }
    { intros items' st' _. rewrite D1, Ety. by apply Hdef. }
    rewrite D1, Ety in E2. rewrite (bind_ok _ _ _ _ _ E2).
    exists (tag_of t d), st2, items2. split; [done |]. split; [done |].
    split; [by eapply incl_tran |]. split; [eapply sp_tag; eauto |]. by intros _ d' _ _.
  - exists (tag_of t d), st1, items1. split; [done |]. split; [done |]. split; [done |].
    split; [by eapply sp_tag |]. intros -> d' _ _. simpl in En. apply negb_false_iff in En.
    destruct (w_flags _ _ _ _ W1 _ _ H1) as [_ He]. rewrite X1 in He. apply He in En as [|]; [done |].
    by destruct Ho.
Qed.

Lemma fields_ok ct opens fs : Forall (fun f => spells (ct f.2) f.2 true opens) fs ->
  forall items st, writing items opens st ->
  exists lines st' items', field_lines ct fs st = Ok (lines, st') /\ writing items' opens st' /\
    incl items items' /\ Fields ds items' fs lines.
Proof using Type.
  induction 1 as [|[n t] fs H _ IH]; intros items st W.
  { exists EmptyString, st, items. split; [done |]. split; [done |]. split; [apply incl_refl | constructor]. }
  cbn [field_lines]. destruct (H items st W) as (s & st1 & items1 & E1 & W1 & I1 & S1 & C1). simpl in E1.
  rewrite (bind_ok _ _ _ _ _ E1). destruct (IH items1 st1 W1) as (r & st2 & items2 & E2 & W2 & I2 & F2).
  rewrite (bind_ok _ _ _ _ _ E2). eexists _, st2, items2. split; [reflexivity |].
  split; [done |]. split; [by eapply incl_tran |]. apply fields_cons; eauto with pas.
Qed.

Lemma ctype_ref_ok f : forall t need d opens, ds !! t = Some d ->
  (if need || d_pointer d then rank t + 2 <= f else 1 <= f) ->
  (need = true -> forall o, In o opens -> rank t < rank o) ->
  spells (ctype_ref f t need) t need opens.
Proof using HC HM.
  induction f as [|f IH]; intros t need d opens Hd Hf Ho items st W; [by destruct (need || d_pointer d); lia |].
  cbn [ctype_ref]. destruct (writing_type _ _ _ _ _ W Hd) as (ty & Ht & Ety).
  assert (get_type t st = Ok (ty, st)) as Eg by (unfold get_type; by rewrite Ht).
  rewrite (bind_ok _ _ _ _ _ Eg), Ety.
  destruct (HM _ _ Hd) as [_ Hmem].
  assert (need = true -> ~ In t opens) as Hno by (intros Hneed H; specialize (Ho Hneed t H); lia).
  assert (need = true -> rank t + 2 <= S f /\ forall u, rank u < rank t -> forall o, In o (t :: opens) -> rank u < rank o) as Hn.
  { intros ->. split; [done |]. intros u Hu o [<- | H]; [done |]. specialize (Ho eq_refl o H). lia. }
  destruct (scalar_name d) as [s |] eqn:Es.
  { exists s, st, items. split; [by destruct d; inversion Es |]. split; [done |]. split; [apply incl_refl |].
    split; [by eapply sp_scalar |]. intros _ d' Hd' Ha. assert (d' = d) as -> by congruence. by destruct d. }
  destruct d as [| | | | | | cap | lo hi e | fs | target p | | |]; try discriminate Es.
  - eapply aggregate_ok; try done. intros Hneed items1 st1 W1.
    eexists _, st1, items1. split; [reflexivity |]. split; [done |]. split; [apply incl_refl | constructor].
  - eapply aggregate_ok; try done. intros Hneed items1 st1 W1. destruct Hmem as ([de He] & Hr & Hfit).
    destruct (Hn Hneed) as [Hf' Hlt].
    destruct (IH e true de (t :: opens) He) with (items := items1) (st := st1)
      as (s & st2 & items2 & E2 & W2 & I2 & S2 & C2); [simpl; lia | by intros _; apply Hlt | done |].
    rewrite (bind_ok _ _ _ _ _ E2). unfold array_len. rewrite Hfit.
    eexists _, st2, items2. split; [reflexivity |]. split; [done |]. split; [done |]. by apply body_array; [| apply C2].
  - eapply aggregate_ok; try done. intros Hneed items1 st1 W1. destruct (Hn Hneed) as [Hf' Hlt].
    destruct (fields_ok (fun ft => ctype_ref f ft true) (t :: opens) fs) with (items := items1) (st := st1)
      as (r & st2 & items2 & E2 & W2 & I2 & F2); [| done |].
    { eapply Forall_impl; [exact Hmem |]. intros [n u] [[du Hu] Hr]. simpl in *.
      apply (IH u true du); [done | simpl; lia | by intros _; apply Hlt]. }
    rewrite (bind_ok _ _ _ _ _ E2). eexists _, st2, items2. split; [reflexivity |]. split; [done |].
    split; [done |]. by apply body_record.
  - destruct target as [u |]; [| done]. destruct Hmem as (du & Hu & Hr).
    rewrite orb_true_r in Hf.
    destruct (IH u false du opens Hu) with (items := items) (st := st)
      as (s & st2 & items2 & E2 & W2 & I2 & S2 & _); [| done | done |].
    { simpl. destruct (d_pointer du); [specialize (Hr eq_refl) |]; lia. }
    rewrite (bind_ok _ _ _ _ _ E2). eexists _, st2, items2. split; [reflexivity |]. split; [done |].
    split; [done |]. split; [by eapply sp_ptr |]. intros _ d' Hd' Ha. assert (d' = TY_PTR (Some u) p) as -> by congruence. done.
Qed.
End Writing.

(** * Types hold no type that holds them *)

(** The types a value of a type contains. *)
Definition members (d : TypeDesc) : list tyid :=
  match d with TY_ARRAY _ _ e => [e] | TY_RECORD fs => map snd fs | _ => [] end.

Definition holds (ds : list TypeDesc) (t u : tyid) : Prop :=
  exists d, ds !! t = Some d /\ In u (members d).

Definition laid (ds : list TypeDesc) (rank : tyid -> nat) : Prop :=
  forall t u, holds ds t u -> is_Some (ds !! u) /\ rank u < rank t.

(** The state while the records in [opens] are being resolved: nothing refers to
    them yet. *)
Record resolving (opens : list tyid) (st : Sem) : Prop := {
  r_laid : exists rank, laid (descs st) rank;
  r_held : forall t u, holds (descs st) t u -> ~ In u opens;
  r_open : forall o, In o opens -> descs st !! o = Some (TY_RECORD []);
  r_syms : forall i s t, syms st !! i = Some s -> s_ty s = Some t -> is_Some (descs st !! t) /\ ~ In t opens }.

Lemma holds_snoc ds d t u : holds (ds ++ [d]) t u -> holds ds t u \/ (t = length ds /\ In u (members d)).
Proof. intros (d' & [H | [-> ->]]%snoc_lookup & Hu); [left; by exists d' | by right]. Qed.

Lemma holds_insert ds t0 d t u : holds (<[t0 := d]> ds) t u ->
  (t <> t0 /\ holds ds t u) \/ (t = t0 /\ In u (members d)).
Proof.
  intros (d' & H & Hu). destruct (decide (t = t0)) as [-> | Hn].
  - right. split; [done |]. assert (t0 < length ds) as Hl.
    { apply lookup_lt_Some in H. by rewrite length_insert in H. }
    rewrite list_lookup_insert_eq in H by done. by injection H as ->.
  - left. rewrite list_lookup_insert_ne in H by done. split; [done | by exists d'].
Qed.

(** A rank for one more type, above its members. *)
Definition raise (rank : tyid -> nat) (t : tyid) (us : list tyid) : tyid -> nat :=
  fun x => if decide (x = t) then S (list_max (map rank us)) else rank x.

Lemma raise_member rank t us u : In u us -> u <> t -> raise rank t us u < raise rank t us t.
Proof.
  intros Hu Hn. unfold raise. rewrite decide_False, decide_True by done.
  assert (rank u <= list_max (map rank us)); [| lia].
  assert (list_max (map rank us) <= list_max (map rank us)) as H by lia.
  rewrite list_max_le in H. rewrite Forall_forall in H. apply H. apply list_elem_of_In. by apply in_map.
Qed.

Lemma raise_other rank t us u : u <> t -> raise rank t us u = rank u.
Proof. intros Hn. unfold raise. by rewrite decide_False. Qed.

Lemma holds_valid ds rank t u : laid ds rank -> holds ds t u -> t < length ds /\ u < length ds.
Proof.
  intros L H. destruct (L _ _ H) as [[d Hu] _]. destruct H as (d' & Ht & _).
  by apply lookup_lt_Some in Ht, Hu.
Qed.

(** A new type whose members are complete. *)
Lemma resolving_new opens st d l t st' : new_type d l st = Ok (t, st') -> resolving opens st ->
  Forall (fun u => is_Some (descs st !! u) /\ ~ In u opens) (members d) -> resolving opens st'.
Proof.
  intros [= <- <-] R Hm. destruct (r_laid _ _ R) as [rank L].
  assert (descs (with_types (types st ++ [mkTy d l false false]) st) = descs st ++ [d]) as Ed
    by (unfold descs; simpl; by rewrite map_app).
  assert (length (types st) = length (descs st)) as El by (unfold descs; by rewrite length_map).
  rewrite Forall_forall in Hm. setoid_rewrite list_elem_of_In in Hm.
  split; rewrite ?Ed.
  - exists (raise rank (length (descs st)) (members d)). intros t u [H | [-> Hu]]%holds_snoc.
    + destruct (L _ _ H) as [[d' Hu] Hr]. split; [exists d'; by apply lookup_snoc |].
      pose proof (holds_valid _ _ _ _ L H). rewrite !raise_other by lia. done.
    + destruct (Hm u Hu) as [[d' Hd'] _]. split; [exists d'; by apply lookup_snoc |].
      apply raise_member; [done |]. apply lookup_lt_Some in Hd'. lia.
  - intros t u [H | [_ Hu]]%holds_snoc; [by eapply r_held | by apply Hm].
  - intros o Ho. apply lookup_snoc. by apply (r_open _ _ R).
  - simpl. intros i s t Hi Hs. destruct (r_syms _ _ R i s t Hi Hs) as [[d' H] Hn].
    split; [exists d'; by apply lookup_snoc | done].
Qed.

(** A record that starts to be resolved. *)
Lemma resolving_open opens st st' t : resolving opens st' -> resolving opens st -> t = length (descs st) ->
  descs st' = descs st ++ [TY_RECORD []] -> syms st' = syms st -> resolving (t :: opens) st'.
Proof.
  intros R' R -> Ed Es. split; [by apply (r_laid _ _ R') | | |].
  - intros t u H [<- | Hin]; [| by eapply (r_held _ _ R')]. rewrite Ed in H.
    destruct (r_laid _ _ R) as [rank L]. apply holds_snoc in H as [H | [_ []]].
    apply (holds_valid _ _ _ _ L) in H. lia.
  - intros o [<- | Ho]; [rewrite Ed; apply lookup_end | by apply (r_open _ _ R')].
  - intros i s t Hi Hs. destruct (r_syms _ _ R' i s t Hi Hs) as [H Hn]. split; [done |].
    intros [<- | Hin]; [| done]. rewrite Es in Hi.
    destruct (r_syms _ _ R i s _ Hi Hs) as [[d Hl] _]. apply lookup_lt_Some in Hl. lia.
Qed.

Lemma set_desc_inv t d st r st' : set_desc t d st = Ok (r, st') ->
  descs st' = <[t := d]> (descs st) /\ syms st' = syms st /\ t < length (descs st).
Proof.
  unfold set_desc, get_type, modify, bind. destruct (types st !! t) as [ty |] eqn:E; [| done].
  intros [= <- <-]. unfold descs. simpl. split; [apply (list_fmap_insert t_desc) |].
  split; [done |]. rewrite length_map. by eapply lookup_lt_Some.
Qed.

Lemma insert_is_Some {A} (l : list A) t x u : is_Some (l !! u) -> is_Some (<[t := x]> l !! u).
Proof. intros H. apply lookup_lt_is_Some. rewrite length_insert. by apply lookup_lt_is_Some. Qed.

(** A type that no type holds gets its members, or a type loses them. *)
Lemma resolving_set opens0 opens st t d r st' : set_desc t d st = Ok (r, st') -> resolving opens0 st ->
  incl opens opens0 -> ~ In t opens -> members d = [] \/ In t opens0 ->
  Forall (fun u => is_Some (descs st !! u) /\ ~ In u (t :: opens)) (members d) -> resolving opens st'.
Proof.
  intros H R Hi Hn Ho Hm. apply set_desc_inv in H as (Ed & Es & Hl). destruct (r_laid _ _ R) as [rank L].
  rewrite Forall_forall in Hm. setoid_rewrite list_elem_of_In in Hm. split; rewrite ?Ed, ?Es.
  - destruct Ho as [E | Ho].
    + exists rank. intros x u [[_ Hx] | [_ Hu]]%holds_insert; [| by rewrite E in Hu].
      destruct (L _ _ Hx). auto using insert_is_Some.
    + exists (raise rank t (members d)). intros x u [[Hx H] | [-> Hu]]%holds_insert.
      * destruct (L _ _ H). split; [by apply insert_is_Some |].
        assert (u <> t) by (intros ->; by eapply (r_held _ _ R)). by rewrite !raise_other.
      * destruct (Hm u Hu) as [Hv Hnu]. split; [by apply insert_is_Some |].
        apply raise_member; [done |]. intros ->. apply Hnu. by left.
  - intros x u [[_ H] | [_ Hu]]%holds_insert Hin; [by eapply (r_held _ _ R); eauto |].
    destruct (Hm u Hu) as [_ Hnu]. apply Hnu. by right.
  - intros o Hin. assert (t <> o) by congruence. rewrite list_lookup_insert_ne by done.
    apply (r_open _ _ R). auto.
  - intros i s u Hs Hu. destruct (r_syms _ _ R i s u Hs Hu) as [Hv Hnu]. auto using insert_is_Some.
Qed.

Lemma resolving_define opens s st i st' : define s st = Ok (i, st') -> resolving opens st ->
  (forall t, s_ty s = Some t -> is_Some (descs st !! t) /\ ~ In t opens) -> resolving opens st'.
Proof.
  unfold define. intros H R Hs. inv_ok. unfold alloc_sym in E. inv_ok.
  destruct (scopes _); inv_ok; [done |]. split; try apply R. simpl.
  intros i' s' t [Hi | [_ <-]]%snoc_lookup; [by eapply (r_syms _ _ R) | apply Hs].
Qed.

Lemma lookup_found n st i s st' : lookup n st = Ok (Some (i, s), st') -> st' = st /\ syms st !! i = Some s.
Proof.
  unfold lookup. intros H. rewrite (bind_ok get _ st st st eq_refl) in H. unfold deref_sym, get_sym in H.
  destruct (lookup_in _ _ n) as [j |]; [| by inv_ok]. inv_ok.
  destruct (syms st !! i) eqn:E'; inv_ok; done.
Qed.

(** What resolving a type expression gives. *)
Definition resolves (m : SM tyid) : Prop :=
  forall opens st t st', m st = Ok (t, st') -> resolving opens st ->
    resolving opens st' /\ is_Some (descs st' !! t) /\ ~ In t opens.

Lemma new_type_inv d l st t st' : new_type d l st = Ok (t, st') ->
  descs st' = descs st ++ [d] /\ t = length (descs st) /\ syms st' = syms st.
Proof. intros [= <- <-]. unfold descs. simpl. by rewrite map_app, length_map. Qed.

Lemma open_lt opens st o : resolving opens st -> In o opens -> o < length (descs st).
Proof. intros R H. eapply lookup_lt_Some. by apply (r_open _ _ R). Qed.

Lemma new_type_resolves d l : members d = [] -> resolves (new_type d l).
Proof.
  intros Hd opens st t st' H R. split; [| split].
  - eapply resolving_new; [done | done |]. by rewrite Hd.
  - apply new_type_inv in H as (-> & -> & _). rewrite lookup_end. eauto.
  - apply new_type_inv in H as (_ & -> & _). intros Hin. pose proof (open_lt _ _ _ R Hin). lia.
Qed.

Lemma interned_resolving opens ls arr st : resolving opens st -> resolving opens (with_interned ls arr st).
Proof. intros R. split; apply R. Qed.

Lemma lstring_of_resolves c l : resolves (lstring_of c l).
Proof.
  intros opens st t st' H R. unfold lstring_of in H. destruct (_ || _); [done |].
  rewrite (bind_ok get _ st st st eq_refl) in H.
  destruct (List.find (cap_is (types st) c) (lstr_types st)) as [i |] eqn:E.
  - inv_ok. apply List.find_some in E as [_ E%cap_is_iff]. split; [done |]. rewrite E. split; [eauto |].
    intros Ho%(r_open _ _ R). congruence.
  - inv_ok. apply (new_type_resolves (TY_LSTR c) no_loc eq_refl opens) in E0 as (R1 & Hv & Hn); [| done].
    split; [by apply interned_resolving | done].
Qed.

Lemma array_of_resolves lo hi e l opens st t st' : array_of lo hi e l st = Ok (t, st') -> resolving opens st ->
  is_Some (descs st !! e) -> ~ In e opens -> resolving opens st' /\ is_Some (descs st' !! t) /\ ~ In t opens.
Proof.
  unfold array_of. intros H R He Hn. destruct (hi <? lo)%Z; [done |]. rewrite (bind_ok get _ st st st eq_refl) in H.
  destruct (List.find (array_is (types st) lo hi e) (array_types st)) as [i |] eqn:E.
  - inv_ok. apply List.find_some in E as [_ E%array_is_iff]. split; [done |]. rewrite E. split; [eauto |].
    intros Ho%(r_open _ _ R). congruence.
  - inv_ok. pose proof (resolving_new _ _ _ _ _ _ E0 R ltac:(by repeat constructor)) as R1.
    apply new_type_inv in E0 as (Ed & -> & _). split; [by apply interned_resolving |].
    unfold descs in *. simpl. rewrite Ed, lookup_end. split; [eauto |].
    intros Hin. pose proof (open_lt _ _ _ R Hin). unfold descs in *. lia.
Qed.

Definition usable (opens : list tyid) (st : Sem) (t : tyid) : Prop := is_Some (descs st !! t) /\ ~ In t opens.

Lemma usable_grows opens st st' t : creates st st' -> usable opens st t -> usable opens st' t.
Proof. intros [[ds E] _] [[d H] Hn]. split; [rewrite E; exists d; by apply lookup_app_l_Some | done]. Qed.

Lemma add_fields_usable P l t names : forall fs st r st', add_fields l t names fs st = Ok (r, st') ->
  Forall P (map snd fs) -> P t -> Forall P (map snd r).
Proof.
  induction names as [|n names IH]; intros fs st r st' H Hf Ht; cbn [add_fields] in H; [by inv_ok |].
  destruct (existsb _ fs); [done |]. eapply IH; [exact H | | done]. rewrite map_app. apply Forall_app. split; [done | by repeat constructor].
Qed.

Lemma group_fields_resolves gs : Forall (fun g => resolves (resolve_type (fg_te g))) gs ->
  forall opens fs st r st', group_fields resolve_type gs fs st = Ok (r, st') -> resolving opens st ->
  Forall (usable opens st) (map snd fs) -> resolving opens st' /\ Forall (usable opens st') (map snd r).
Proof.
  induction 1 as [|[names te gl] gs Hg _ IH]; intros opens fs st r st' H R Hf; cbn [group_fields] in H; inv_ok; [done |].
  pose proof (resolve_type_creates _ _ _ _ E) as Cr.
  destruct (Hg _ _ _ _ E R) as [R1 Ht]. pose proof E0 as Ep. apply add_fields_pure in Ep as ->.
  eapply IH; [exact H | done |]. eapply add_fields_usable; [exact E0 | | exact Ht].
  eapply Forall_impl; [exact Hf |]. intros u. by apply usable_grows.
Qed.

Lemma enum_consts_resolves l t names : forall opens i st r st', enum_consts l t i names st = Ok (r, st') ->
  resolving opens st -> usable opens st t -> resolving opens st'.
Proof.
  induction names as [|n names IH]; intros opens i st r st' H R Ht; cbn [enum_consts] in H; inv_ok; [done |].
  apply lookup_innermost_pure in E as ->. destruct a; inv_ok.
  pose proof (define_creates _ _ _ _ E) as Cr.
  eapply IH; [exact H | | by eapply usable_grows]. eapply resolving_define; [exact E | done |].
  simpl. by intros u [= <-].
Qed.

Lemma resolve_type_resolves te : resolves (resolve_type te).
Proof.
  induction te as [l n | l lo | l lo hi elem IH | l gs IH | l n | l ns] using TypeExpr_nested_ind;
    intros opens st t st' H R; cbn [resolve_type] in H.
  - inv_ok. destruct a as [[i s0] |]; [| done]. apply lookup_found in E as [-> Hs].
    destruct (bool_decide _); [| done]. destruct (s_ty s0) as [u |] eqn:Eu; [| done]. inv_ok.
    split; [done |]. by eapply (r_syms _ _ R).
  - inv_ok. apply const_int_value_pure in E as ->. by eapply lstring_of_resolves.
  - inv_ok. apply const_int_value_pure in E as ->. apply const_int_value_pure in E0 as ->.
    destruct (IH _ _ _ _ E1 R) as (R1 & Hv & Hn). by eapply array_of_resolves.
  - inv_ok. destruct (new_type_resolves (TY_RECORD []) l eq_refl _ _ _ _ E R) as (R1 & Hv & Hn).
    destruct (new_type_inv _ _ _ _ _ E) as (Ed & -> & Es).
    pose proof (resolving_open _ _ _ _ R1 R eq_refl Ed Es) as R2.
    destruct (group_fields_resolves gs IH _ _ _ _ _ E0 R2 ltac:(constructor)) as [R3 Hf].
    assert (length (descs st) < length (descs s0)) as Hl by (eapply open_lt; [exact R3 | by left]).
    split; [| split; [| done]].
    + eapply resolving_set; [exact E1 | exact R3 | by apply incl_tl, incl_refl | done | by right; left | done].
    + apply set_desc_inv in E1 as (-> & _ & _). apply insert_is_Some. by apply lookup_lt_is_Some.
  - inv_ok. destruct (new_type_resolves (TY_PTR None None) l eq_refl _ _ _ _ E R) as (R1 & Hv & Hn).
    apply pointer_target_pure in E0 as ->.
    assert (forall d r st2, members d = [] -> set_desc a d s = Ok (r, st2) ->
      resolving opens st2 /\ is_Some (descs st2 !! a) /\ ~ In a opens) as Hset.
    { intros d r st2 Hm Hd. split; [| split; [| done]].
      - eapply resolving_set; [exact Hd | exact R1 | apply incl_refl | done | by left | by rewrite Hm].
      - apply set_desc_inv in Hd as (-> & _ & _). by apply insert_is_Some. }
    destruct a0 as [u |]; inv_ok.
    + eapply (Hset (TY_PTR (Some u) None)); [done | eassumption].
    + destruct (Hset (TY_PTR None (Some n)) _ _ eq_refl E0) as (R2 & Hv2 & _). split; [by split; apply R2 | done].
  - inv_ok. destruct (new_type_resolves (TY_ENUM 0 (Z.of_nat (length ns) - 1)) l eq_refl _ _ _ _ E R) as (R1 & Hv & Hn).
    pose proof (enum_consts_creates _ _ _ _ _ _ _ E0) as Cr.
    split; [by eapply enum_consts_resolves |]. by apply (usable_grows opens _ _ _ Cr).
Qed.

Lemma bind_pending_resolving ps : forall st r st', bind_pending ps st = Ok (r, st') ->
  resolving [] st -> resolving [] st'.
Proof.
  induction ps as [|p ps IH]; intros st r st' H R; cbn [bind_pending] in H; [by inv_ok |].
  inv_ok. apply get_type_inv in E as [-> Hd].
  destruct (t_desc a) eqn:Ed; try done. destruct pending as [name |]; [| done]. inv_ok.
  apply lookup_pure in E as ->. destruct a0 as [[i sy] |]; [| done].
  destruct (s_kind sy); try done. destruct (s_ty sy) as [u |]; [| done]. inv_ok.
  eapply IH; [done |]. eapply resolving_set; [exact E | done | apply incl_refl | by intros [] | by left | constructor].
Qed.

Lemma clear_pending_resolving ps : forall st r st', clear_pending ps st = Ok (r, st') ->
  resolving [] st -> resolving [] st'.
Proof.
  induction ps as [|p ps IH]; intros st r st' H R; cbn [clear_pending] in H.
  - inv_ok. split; apply R.
  - inv_ok. apply desc_of_inv in E as [Hd ->]. destruct a; try done. inv_ok.
    eapply IH; [done |]. eapply resolving_set; [exact E | done | apply incl_refl | by intros [] | by left | constructor].
Qed.

(** ** From ranks to a bound *)

(** The number of types below a type in a ranking. *)
Definition compress (n : nat) (r : tyid -> nat) (t : tyid) : nat :=
  length (List.filter (fun u => r u <? r t) (seq 0 n)).

Lemma filter_length_le {A} (p q : A -> bool) l : (forall x, p x = true -> q x = true) ->
  length (List.filter p l) <= length (List.filter q l).
Proof.
  intros H. induction l as [|x l IH]; simpl; [lia |].
  destruct (p x) eqn:E; [rewrite (H x E); simpl; lia | destruct (q x); simpl; lia].
Qed.

Lemma filter_length_lt {A} (p q : A -> bool) l y : (forall x, p x = true -> q x = true) ->
  In y l -> p y = false -> q y = true -> length (List.filter p l) < length (List.filter q l).
Proof.
  intros H Hy Hp Hq. induction l as [|x l IH]; simpl in *; [done |]. destruct Hy as [-> | Hy].
  - rewrite Hp, Hq. simpl. pose proof (filter_length_le p q l H). lia.
  - specialize (IH Hy). destruct (p x) eqn:E; [rewrite (H x E); simpl; lia | destruct (q x); simpl; lia].
Qed.

Lemma compress_lt n r u t : u < n -> r u < r t -> compress n r u < compress n r t.
Proof.
  intros Hu Hr. apply (filter_length_lt _ _ _ u); [| by apply in_seq; lia | |].
  - intros x. rewrite !Nat.ltb_lt. lia.
  - by apply Nat.ltb_irrefl.
  - by apply Nat.ltb_lt.
Qed.

Lemma compress_bound n r t : t < n -> compress n r t < n.
Proof.
  intros Ht. assert (length (List.filter (fun _ => true) (seq 0 n)) = n) as E
    by (rewrite List.filter_true; apply length_seq).
  rewrite <- E at 2. apply (filter_length_lt _ _ _ t); [done | apply in_seq; lia | apply Nat.ltb_irrefl | done].
Qed.

(** Pointer types that only name pointers end in another type, and every pointer
    and every array can be spelled. *)
Definition pointers_end (ds : list TypeDesc) : Prop :=
  exists rank : tyid -> nat, forall t u p d, ds !! t = Some (TY_PTR (Some u) p) -> ds !! u = Some d ->
    d_pointer d = true -> rank u < rank t.

Definition settled (d : TypeDesc) (ds : list TypeDesc) : Prop :=
  match d with
  | TY_PTR target _ => exists u, target = Some u /\ is_Some (ds !! u)
  | TY_ARRAY lo hi _ => fits64 (hi - lo) && fits64 (hi - lo + 1) = true
  | _ => True
  end.

Definition pointer_at (ds : list TypeDesc) (t : tyid) : bool :=
  match ds !! t with Some d => d_pointer d | None => false end.

Lemma measured_exists ds rank : laid ds rank -> pointers_end ds ->
  (forall t d, ds !! t = Some d -> settled d ds) -> exists r, measured ds r.
Proof.
  intros L [prank Hp] Hs. set (n := length ds).
  set (r := fun t => if pointer_at ds t then compress n prank t else n + rank t).
  exists (compress n r). intros t d Hd. assert (t < n) as Ht by (by eapply lookup_lt_Some).
  split; [by apply compress_bound |].
  assert (forall u, pointer_at ds t = false -> holds ds t u -> compress n r u < compress n r t) as Hm.
  { intros u Hpt Hu. destruct (L _ _ Hu) as [[du Hdu] Hr]. apply lookup_lt_Some in Hdu.
    apply compress_lt; [done |]. unfold r. rewrite Hpt.
    destruct (pointer_at ds u); [pose proof (compress_bound n prank u Hdu) |]; lia. }
  unfold pointer_at in Hm at 1. rewrite Hd in Hm. specialize (Hs t d Hd).
  destruct d as [| | | | | | cap | lo hi e | fs | target p | | |]; try done; simpl in Hs.
  - assert (holds ds t e) as He by (exists (TY_ARRAY lo hi e); simpl; auto).
    split; [by apply (L _ _ He) |]. split; [by apply Hm | done].
  - apply Forall_forall. intros [x u] Hin.
    assert (holds ds t u) as Hu.
    { exists (TY_RECORD fs). split; [done |]. simpl. apply list_elem_of_In in Hin. by apply (in_map snd) in Hin. }
    split; [by apply (L _ _ Hu) | by apply Hm].
  - destruct Hs as (u & -> & [du Hu]). exists du. split; [done |]. intros Hpu.
    apply compress_lt; [by eapply lookup_lt_Some |]. unfold r, pointer_at. rewrite Hu, Hd, Hpu. simpl.
    apply compress_lt; [by eapply lookup_lt_Some | by eapply Hp].
Qed.

Lemma resolving_same st st' : descs st' = descs st -> syms st' = syms st -> resolving [] st -> resolving [] st'.
Proof. intros Ed Es R. split; rewrite ?Ed, ?Es; apply R. Qed.

Lemma laid_acyclic ds rank : laid ds rank -> forall t u, tc (holds ds) t u -> rank u < rank t.
Proof.
  intros L t u H. induction H as [t u H | t v u H _ IH]; [by apply L |].
  destruct (L _ _ H) as [_ Hr]. lia.
Qed.

(** * The theorems *)

(** The buffer of [st] is the text of the declarations [items]. *)
Definition written (st : Sem) (items : list item) : Prop := writing (descs st) items [] st.

(** no type holds itself: while every symbol names a complete type and members
    form no circle, resolving any type expression, however records nest, and
    binding the pending pointers keep it so, and the type resolved is complete. *)
Theorem types_hold_no_circle st (HR : resolving [] st) :
  (forall t, ~ tc (holds (descs st)) t t) /\
  (forall te t st', resolve_type te st = Ok (t, st') -> resolving [] st' /\ is_Some (desc_at st' t)) /\
  (forall r st', resolve_pending_pointers st = Ok (r, st') -> resolving [] st').
Proof.
  split; [| split].
  - intros t H. destruct (r_laid _ _ HR) as [rank L]. pose proof (laid_acyclic _ _ L _ _ H). lia.
  - intros te t st' H. rewrite <- descs_lookup. by destruct (resolve_type_resolves te [] st t st' H HR) as (R & Hv & _).
  - intros r st' H. unfold resolve_pending_pointers in H. rewrite (bind_ok get _ st st st eq_refl) in H. inv_ok.
    apply check_cycles_pure in E0 as ->. eauto using bind_pending_resolving, clear_pending_resolving.
Qed.

(** C9: spelling a type in C writes its declarations in an order C accepts. For a type
    that is settled (every array's length fits, every pointer is resolved) in a state in
    which no chain of pointers only leads to pointers, and a buffer that is a valid
    sequence of declarations, [ctype] ends and leaves a sequence that extends it, in
    which every tag is declared once, a structure is defined at most once, after its tag
    and after every structure it holds by value, pointers name declared tags, and the
    type spelled is complete. What it relies on of the types and the buffer holds again
    afterwards. ([Gaps.pointer_circle_accepted] shows a section after which a chain of
    pointers does not end.) *)
Theorem ctype_in_order st items t (HC : canonical st) (HR : resolving [] st) (HW : written st items)
    (Hp : pointers_end (descs st)) (Hs : forall u d, desc_at st u = Some d -> settled d (descs st))
    (Ht : is_Some (desc_at st t)) :
  exists text st' items', ctype t st = Ok (text, st') /\
    descs st' = descs st /\ canonical st' /\ resolving [] st' /\ written st' items' /\ incl items items' /\
    Spelled (descs st) items' t text /\ Complete (descs st) items' t.
Proof.
  destruct (r_laid _ _ HR) as [rank L].
  destruct (measured_exists _ _ L Hp) as [r M]; [intros u d H; rewrite descs_lookup in H; eauto |].
  destruct Ht as [d Hd]. rewrite <- descs_lookup in Hd.
  assert (ctype t st = ctype_ref (type_fuel st) t true st) as Ec by done.
  destruct (ctype_ref_ok _ _ _ r HC M (type_fuel st) t true d [] Hd) with (items := items) (st := st)
    as (text & st' & items' & E & W & I & S & C); [| done | done |].
  { destruct (M _ _ Hd) as [Hb _]. unfold type_fuel. unfold descs in Hb. rewrite length_map in Hb. simpl. lia. }
  pose proof (w_descs _ _ _ _ W) as Ed. exists text, st', items'. rewrite Ec.
  split; [done |]. split; [done |]. split; [by eapply ctype_ref_canonical |].
  split; [apply (resolving_same st); [done | | done]; by apply (sem_still_ctype_ref _ _ _ _ _ _ E) |].
  split; [unfold written; by rewrite Ed |]. split; [done |]. split; [done | by apply C].
Qed.

(** ** Examples *)

Definition example_record : TypeExpr :=
  TE_RECORD no_loc
    [mkFieldGroup ["a"] (TE_ARRAY no_loc (E_INT no_loc 1) (E_INT no_loc 3)
                           (TE_LSTRING no_loc (E_INT no_loc 5))) no_loc;
     mkFieldGroup ["b"] (TE_RECORD no_loc [mkFieldGroup ["p"] (TE_POINTER no_loc "integer") no_loc]) no_loc].

Definition record_state : Sem :=
  match resolve_type example_record init_state with Ok (_, st) => st | Err _ => empty_sem end.

Lemma record_resolved : resolve_type example_record init_state = Ok (13, record_state).
Proof. vm_compute. reflexivity. Qed.

Lemma record_descs : descs record_state =
  predefs ++ [TY_RECORD [("a", 15); ("b", 16)]; TY_LSTR 5; TY_ARRAY 1 3 14; TY_RECORD [("p", 17)];
              TY_PTR (Some t_integer) None].
Proof. vm_compute. reflexivity. Qed.

Lemma resolving_predefs st : descs st = predefs ->
  forallb (fun s => match s_ty s with Some t => t <? 13 | None => true end) (syms st) = true -> resolving [] st.
Proof.
  intros Ed Hs.
  assert (forall t u, ~ holds predefs t u) as Hh.
  { intros t u (d & H & Hu). do 13 (destruct t as [|t]; [by injection H as <- |]). done. }
  rewrite forallb_forall in Hs. split; rewrite ?Ed.
  - exists (fun _ => 0). intros t u H. by destruct (Hh t u).
  - intros t u H. by destruct (Hh t u).
  - by intros o [].
  - intros i s t Hi Ht. specialize (Hs s). rewrite Ht in Hs.
    apply list_elem_of_lookup_2, list_elem_of_In, Hs, Nat.ltb_lt in Hi.
    split; [by apply lookup_lt_is_Some | by intros []].
Qed.

Lemma resolving_init : resolving [] init_state.
Proof. apply resolving_predefs; vm_compute; reflexivity. Qed.

Lemma types_hold_no_circle_witness : resolving [] record_state /\ is_Some (desc_at record_state 13).
Proof.
  destruct (types_hold_no_circle init_state resolving_init) as (_ & H & _).
  exact (H example_record 13 record_state record_resolved).
Defined.

Lemma record_settled u d : desc_at record_state u = Some d -> settled d (descs record_state).
Proof.
  rewrite <- descs_lookup, record_descs. intros H.
  do 18 (destruct u as [|u]; [injection H as <-;
    first [exact I | reflexivity | (exists t_integer; split; [reflexivity | by eexists])] |]).
  discriminate H.
Qed.

Lemma record_pointers : pointers_end (descs record_state).
Proof.
  exists (fun _ => 0). rewrite record_descs. intros t u p d H.
  do 17 (destruct t as [|t]; [done |]). destruct t as [|t]; [| done]. injection H as <- _.
  by intros [= <-].
Qed.

Lemma record_unwritten : written record_state [].
Proof.
  split; [done | constructor | | by intros t []].
  assert (forallb (fun ty => negb (t_declared ty || t_emitted ty)) (types record_state) = true) as Hf
    by (vm_compute; reflexivity).
  rewrite forallb_forall in Hf. intros t ty H. apply list_elem_of_lookup_2, list_elem_of_In, Hf in H.
  apply negb_true_iff, orb_false_iff in H as [-> ->]. simpl. intuition congruence.
Qed.

Lemma record_valid : is_Some (desc_at record_state 13).
Proof. rewrite <- descs_lookup, record_descs. eexists. reflexivity. Qed.

Lemma ctype_in_order_witness :
  exists text st' items', ctype 13 record_state = Ok (text, st') /\ text = "struct pr_14" /\
    written st' items' /\ Complete (descs record_state) items' 13.
Proof.
  pose proof (resolve_type_creates _ _ _ _ record_resolved) as [_ Hc].
  destruct (resolve_type_resolves _ _ _ _ _ record_resolved resolving_init) as (Hr & _ & _).
  destruct (ctype_in_order record_state [] 13 (Hc canonical_init) Hr record_unwritten record_pointers record_settled
              record_valid) as (text & st' & items' & E & _ & _ & _ & W & _ & _ & C).
  exists text, st', items'. split; [exact E |]. split; [| split; [exact W | exact C]].
  vm_compute in E. by injection E as <- _.
Defined.
