(* ===== verification/Preserve.v ===== *)
(** What the C text of an expression means: every well-typed expression over
    integers, characters, BOOLEANs and enumerations is translated to C text that,
    read with the grammar of C and evaluated with its rules, has the value the
    Pascal expression has, or stops the program when that one does. *)

From Stdlib Require Import ZArith Ascii String SpecFloat Lia.
From stdpp Require Import base list strings gmap.
From S2P Require Import Prelude Real Ast Lex Sem Emit CPrelude LexProps SemProps EmitText EmitFrame.
Import SemProps.Consts EmitText.Strings EmitText.Ints.
#[local] Open Scope Z_scope.

(** * C expressions *)

(** The integer types of the generated code. *)
Inductive cty := CInt (w : Z) | CByte.

Inductive unop :=
  | Cast (t : cty)
  | LogNot
  | BitNot
  | CallNeg (w : Z).

Inductive binop :=
  | Infix (op : Op)
  | CallOp (op : Op) (w : Z)
  | CallDiv (op : Op) (w : Z) (file : string) (line : Z).

Inductive cexp :=
  | CNum (z : Z)
  | CObj (star : bool) (x : string)
  | CUn (u : unop) (c : cexp)
  | CBin (b : binop) (c d : cexp)
  | CAndAnd (c d : cexp).

Definition cty_name (t : cty) : string := match t with CInt w => int_ctype w | CByte => "uint8_t" end.

Definition c_ident (s : string) : bool :=
  match chars s with
  | c :: r => (isalpha c || ceq c "_") && forallb (fun c => isalnum c || ceq c "_") r
  | [] => false
  end.

Definition infix_op (op : Op) : bool :=
  match op with
  | OP_EQ | OP_NE | OP_LT | OP_LE | OP_GT | OP_GE | OP_AND | OP_OR => true
  | _ => false
  end.

Definition call_name (op : Op) : option string :=
  match op with OP_ADD => Some "pas_add" | OP_SUB => Some "pas_sub" | OP_MUL => Some "pas_mul" | _ => None end.
Definition div_name (op : Op) : option string :=
  match op with OP_IDIV => Some "pas_div" | OP_MOD => Some "pas_mod" | _ => None end.

(** The grammar of the C the emitter writes for them: primary expressions, unary
    expressions (with casts), and one infix operator between unary expressions,
    so that no precedence of infix operators matters. *)
Inductive Prim : string -> cexp -> Prop :=
  | p_paren s c : Full s c -> Prim ("(" +:+ s +:+ ")") c
  | p_obj x : c_ident x = true -> Prim x (CObj false x)
  | p_neg w s c : Unary s c -> Prim ("pas_neg" +:+ Zs w +:+ "(" +:+ s +:+ ")") (CUn (CallNeg w) c)
  | p_call op f w s c r d : call_name op = Some f -> Unary s c -> Unary r d ->
      Prim (f +:+ Zs w +:+ "(" +:+ s +:+ ", " +:+ r +:+ ")") (CBin (CallOp op w) c d)
  | p_div op f w s c r d file ftext line ltext : div_name op = Some f -> Unary s c -> Unary r d ->
      c_literal ftext = Some (chars file) -> c_int_constant ltext = Some line ->
      Prim (f +:+ Zs w +:+ "(" +:+ s +:+ ", " +:+ r +:+ ", " +:+ ftext +:+ ", " +:+ ltext +:+ ")")
        (CBin (CallDiv op w file line) c d)
with Unary : string -> cexp -> Prop :=
  | u_prim s c : Prim s c -> Unary s c
  | u_const s z : c_int_constant s = Some z -> Unary s (CNum z)
  | u_star x : c_ident x = true -> Unary ("*" +:+ x) (CObj true x)
  | u_cast t s c : Unary s c -> Unary ("(" +:+ cty_name t +:+ ")" +:+ s) (CUn (Cast t) c)
  | u_lognot s c : Unary s c -> Unary ("!" +:+ s) (CUn LogNot c)
  | u_bitnot s c : Unary s c -> Unary ("~" +:+ s) (CUn BitNot c)
with Full : string -> cexp -> Prop :=
  | f_unary s c : Unary s c -> Full s c
  | f_infix op s c r d : infix_op op = true -> Unary s c -> Unary r d ->
      Full (infix s (op_text op) r) (CBin (Infix op) c d)
  | f_andand s c r d : Unary s c -> Unary r d -> Full (infix s "&&" r) (CAndAnd c d).

(** ** Evaluation *)

Definition b2z (b : bool) : Z := if b then 1 else 0.

Definition cast_eval (t : cty) (v : Z) : Z := match t with CInt w => swrap w v | CByte => uwrap 8 v end.

(** The operands of an operator are converted to [int] or [int64_t], both of which
    hold every value of the types above: operators work on the values. A cast to
    a narrower signed type reduces to two's complement, as gcc and clang define. *)
Definition unop_eval (u : unop) (v : Z) : Z :=
  match u with
  | Cast t => cast_eval t v
  | LogNot => b2z (v =? 0)
  | BitNot => Z.lnot v
  | CallNeg w => Arith.pas_neg w (swrap w v)
  end.

Definition infix_eval (op : Op) (x y : Z) : Z :=
  match op with
  | OP_EQ => b2z (x =? y) | OP_NE => b2z (negb (x =? y))
  | OP_LT => b2z (x <? y) | OP_LE => b2z (x <=? y)
  | OP_GT => b2z (y <? x) | OP_GE => b2z (y <=? x)
  | OP_AND => Z.land x y | _ => Z.lor x y
  end.

(** The functions of prelude.h take parameters of their width. *)
Definition binop_eval (b : binop) (x y : Z) : res Z :=
  match b with
  | Infix op => Ok (infix_eval op x y)
  | CallOp op w =>
      Ok (match op with
          | OP_ADD => Arith.pas_add w (swrap w x) (swrap w y)
          | OP_SUB => Arith.pas_sub w (swrap w x) (swrap w y)
          | _ => Arith.pas_mul w (swrap w x) (swrap w y)
          end)
  | CallDiv op w file line =>
      match op with
      | OP_IDIV => Arith.pas_div w (swrap w x) (swrap w y) file line
      | _ => Arith.pas_mod w (swrap w x) (swrap w y) file line
      end
  end.

(** C leaves open which operand is evaluated first, so when one of them stops the
    program either may be the one seen; only [&&] evaluates its left side first.
    [rho] gives the value of the object an identifier names or points to. *)
Inductive ceval (rho : bool -> string -> option Z) : cexp -> res Z -> Prop :=
  | ev_num z : ceval rho (CNum z) (Ok z)
  | ev_obj s x v : rho s x = Some v -> ceval rho (CObj s x) (Ok v)
  | ev_un u c v : ceval rho c (Ok v) -> ceval rho (CUn u c) (Ok (unop_eval u v))
  | ev_un_stop u c e : ceval rho c (Err e) -> ceval rho (CUn u c) (Err e)
  | ev_bin b c d x y : ceval rho c (Ok x) -> ceval rho d (Ok y) -> ceval rho (CBin b c d) (binop_eval b x y)
  | ev_bin_left b c d e : ceval rho c (Err e) -> ceval rho (CBin b c d) (Err e)
  | ev_bin_right b c d e : ceval rho d (Err e) -> ceval rho (CBin b c d) (Err e)
  | ev_and_false c d : ceval rho c (Ok 0) -> ceval rho (CAndAnd c d) (Ok 0)
  | ev_and_true c d x y : ceval rho c (Ok x) -> x <> 0 -> ceval rho d (Ok y) ->
      ceval rho (CAndAnd c d) (Ok (b2z (negb (y =? 0))))
  | ev_and_left c d e : ceval rho c (Err e) -> ceval rho (CAndAnd c d) (Err e)
  | ev_and_right c d x e : ceval rho c (Ok x) -> x <> 0 -> ceval rho d (Err e) ->
      ceval rho (CAndAnd c d) (Err e).

(** * Pascal expressions *)

(** The scalar types, by what their values are. *)
Inductive sty := SInt (w : Z) | SBool | SChar | SEnum (t : tyid).
#[export] Instance sty_eq_dec : EqDecision sty.
Proof. solve_decision. Defined.

Definition width_ok (w : Z) : bool := (w =? 16) || (w =? 32) || (w =? 64).

Definition scalar_of (st : Sem) (t : tyid) : option sty :=
  match desc_at st t with
  | Some (TY_INT w _) => if width_ok w then Some (SInt w) else None
  | Some TY_BOOL => Some SBool
  | Some TY_CHAR => Some SChar
  | Some (TY_ENUM _ _) => Some (SEnum t)
  | _ => None
  end.

Definition value_of (s : sty) (v : Z) : bool :=
  match s with
  | SInt w => (- 2 ^ (w - 1) <=? v) && (v <? 2 ^ (w - 1))
  | SBool => (0 <=? v) && (v <=? 1)
  | SChar => (0 <=? v) && (v <=? 255)
  | SEnum _ => (INT32_MIN <=? v) && (v <=? INT32_MAX)
  end.

Definition typed (s : sty) (v : Z) : option (sty * res Z) := if value_of s v then Some (s, Ok v) else None.

Definition int_sty (v : Z) : sty :=
  if (-32767 <=? v) && (v <=? 32767) then SInt 16
  else if (INT32_MIN <=? v) && (v <=? INT32_MAX) then SInt 32 else SInt 64.

(** A name: a constant, or a variable with its value in the store [sigma]. *)
Definition name_value (st : Sem) (sigma : symid -> option Z) (n : string) : option (sty * res Z) :=
  match lookup_in (syms st) (scopes st) n with
  | Some i =>
      match syms st !! i with
      | Some s =>
          match s_ty s with
          | Some t =>
              match scalar_of st t, s_kind s with
              | Some ty, SY_CONST => typed ty (s_ival s)
              | Some ty, SY_VAR => match sigma i with Some v => typed ty v | None => None end
              | _, _ => None
              end
          | None => None
          end
      | None => None
      end
  | None => None
  end.

(** Integer operators work at the wider operand's width and wrap there; DIV and
    MOD truncate and stop on a zero divisor. *)
Definition arith_op (op : Op) : bool :=
  match op with OP_ADD | OP_SUB | OP_MUL | OP_IDIV | OP_MOD => true | _ => false end.

Definition int_op (op : Op) (w : Z) (l : Loc) (x y : Z) : res Z :=
  let base := str (base_name (chars (default "?" (loc_file l)))) in
  match op with
  | OP_ADD => Ok (swrap w (x + y))
  | OP_SUB => Ok (swrap w (x - y))
  | OP_IDIV => if y =? 0 then Arith.pas_div_zero false x base (loc_line l) else Ok (swrap w (Z.quot x y))
  | OP_MOD => if y =? 0 then Arith.pas_div_zero true x base (loc_line l) else Ok (Z.rem x y)
  | _ => Ok (swrap w (x * y))
  end.

Definition line_ok (l : Loc) : bool := (0 <=? loc_line l) && (loc_line l <=? INT32_MAX).

(** What a comparison of two values of these types compares: characters compare as
    signed bytes. *)
Definition compare_key (op : Op) (a b : sty) : option (Z -> Z) :=
  match a, b with
  | SInt _, SInt _ => Some id
  | SChar, SChar => Some (swrap 8)
  | SBool, SBool => if is_eq_op op then Some id else None
  | SEnum t, SEnum u => if bool_decide (t = u) then Some id else None
  | _, _ => None
  end.

Definition both (r s : res Z) (f : Z -> Z -> res Z) : res Z := let! x := r in let! y := s in f x y.

Definition wider_of (w w' : Z) : Z := if w <? w' then w' else w.

(** A binary operation on the values of its operands; AND THEN does not look at its
    right side when the left one is false. *)
Definition bin_value (op : Op) (l : Loc) (a b : sty) (r s : res Z) : option (sty * res Z) :=
  match op with
  | OP_ANDTHEN =>
      match a, b with
      | SBool, SBool => Some (SBool, let! x := r in if x =? 0 then Ok 0 else s)
      | _, _ => None
      end
  | OP_EQ | OP_NE | OP_LT | OP_LE | OP_GT | OP_GE =>
      match compare_key op a b with
      | Some k => Some (SBool, both r s (fun x y => Ok (infix_eval op (k x) (k y))))
      | None => None
      end
  | OP_AND | OP_OR =>
      let f := match op with OP_AND => Z.land | _ => Z.lor end in
      match a, b with
      | SBool, SBool => Some (SBool, both r s (fun x y => Ok (f x y)))
      | SInt w, SInt w' => Some (SInt (wider_of w w'), both r s (fun x y => Ok (f x y)))
      | _, _ => None
      end
  | OP_ADD | OP_SUB | OP_MUL | OP_IDIV | OP_MOD =>
      match a, b with
      | SInt w, SInt w' =>
          if line_ok l then Some (SInt (wider_of w w'), both r s (int_op op (wider_of w w') l)) else None
      | _, _ => None
      end
  | _ => None
  end.

Definition un_value (op : Op) (a : sty) (r : res Z) : option (sty * res Z) :=
  match op, a with
  | OP_NEG, SInt w => Some (SInt w, let! x := r in Ok (swrap w (- x)))
  | OP_NOT, SBool => Some (SBool, let! x := r in Ok (1 - x))
  | OP_NOT, SInt w => Some (SInt w, let! x := r in Ok (- x - 1))
  | _, _ => None
  end.

(** ORD and CHR. *)
Definition builtin_value (n : string) (a : sty) (r : res Z) : option (sty * res Z) :=
  if String.eqb n "ord" then
    match a with
    | SChar | SBool => Some (SInt 16, r)
    | SEnum _ => Some (SInt 32, r)
    | SInt w => if w =? 64 then None else Some (SInt w, r)
    end
  else if String.eqb n "chr" then
    match a with SInt _ => Some (SChar, let! x := r in Ok (uwrap 8 x)) | _ => None end
  else None.

(** The type and the value of a scalar expression; [None] when it is not one. *)
Fixpoint peval (st : Sem) (sigma : symid -> option Z) (e : Expr) : option (sty * res Z) :=
  match e with
  | E_INT _ v => if fits64 v then Some (int_sty v, Ok v) else None
  | E_CHAR _ v => typed SChar v
  | E_NAME _ n => name_value st sigma n
  | E_UN _ op a =>
      match peval st sigma a with Some (t, r) => un_value op t r | None => None end
  | E_BIN l op a b =>
      match peval st sigma a, peval st sigma b with
      | Some (t, r), Some (u, s) => bin_value op l t u r s
      | _, _ => None
      end
  | E_CALL _ n [a] =>
      match lookup_in (syms st) (scopes st) n, peval st sigma a with
      | None, Some (t, r) => builtin_value n t r
      | _, _ => None
      end
  | _ => None
  end.

(** Its type alone, which no value of a variable decides. *)
Definition bin_type (op : Op) (l : Loc) (a b : sty) : option sty := fst <$> bin_value op l a b (Ok 0) (Ok 0).
Definition un_type (op : Op) (a : sty) : option sty := fst <$> un_value op a (Ok 0).
Definition builtin_type (n : string) (a : sty) : option sty := fst <$> builtin_value n a (Ok 0).

Definition name_type (st : Sem) (n : string) : option sty :=
  match lookup_in (syms st) (scopes st) n with
  | Some i =>
      match syms st !! i with
      | Some s =>
          match s_ty s with
          | Some t =>
              match scalar_of st t, s_kind s with
              | Some ty, SY_CONST => fst <$> typed ty (s_ival s)
              | Some ty, SY_VAR => Some ty
              | _, _ => None
              end
          | None => None
          end
      | None => None
      end
  | None => None
  end.

Fixpoint ptype (st : Sem) (e : Expr) : option sty :=
  match e with
  | E_INT _ v => if fits64 v then Some (int_sty v) else None
  | E_CHAR _ v => fst <$> typed SChar v
  | E_NAME _ n => name_type st n
  | E_UN _ op a => match ptype st a with Some t => un_type op t | None => None end
  | E_BIN l op a b =>
      match ptype st a, ptype st b with Some t, Some u => bin_type op l t u | _, _ => None end
  | E_CALL _ n [a] =>
      match lookup_in (syms st) (scopes st) n, ptype st a with
      | None, Some t => builtin_type n t
      | _, _ => None
      end
  | _ => None
  end.

(** The result, where there is one. *)
Definition result (o : option (sty * res Z)) : res Z := match o with Some (_, r) => r | None => Ok 0 end.

Lemma bin_value_split op l a b r s :
  bin_value op l a b r s = (fun t => (t, result (bin_value op l a b r s))) <$> bin_type op l a b.
Proof.
  unfold bin_type. destruct op; try done; cbn [bin_value];
    first [ by destruct (compare_key _ a b) | destruct a; try done; destruct b; try done; by destruct (line_ok l) ].
Qed.

Lemma un_value_split op a r : un_value op a r = (fun t => (t, result (un_value op a r))) <$> un_type op a.
Proof. unfold un_type. destruct op, a; done. Qed.

Lemma builtin_value_split n a r :
  builtin_value n a r = (fun t => (t, result (builtin_value n a r))) <$> builtin_type n a.
Proof.
  unfold builtin_type, builtin_value. destruct (String.eqb n "ord"); [destruct a as [w | | |]; try done; by destruct (w =? 64) |].
  destruct (String.eqb n "chr"); [by destruct a | done].
Qed.

Lemma peval_ptype st sigma e : forall t r, peval st sigma e = Some (t, r) -> ptype st e = Some t.
Proof.
  induction e as [l v | | | l v | l n | l n args IH | | | | l op a b IHa IHb | l op a IH |] using Expr_nested_ind;
    intros t r H; try discriminate H; cbn [peval ptype] in *.
  - destruct (fits64 v); [by injection H as <- _ | done].
  - by rewrite H.
  - revert H. unfold name_value, name_type. destruct (lookup_in _ _ n) as [i |]; [| done].
    destruct (syms st !! i) as [s |]; [| done]. destruct (s_ty s) as [u |]; [| done].
    destruct (scalar_of st u) as [ty |]; [| done]. destruct (s_kind s); try done; [by intros -> |].
    destruct (sigma i) as [v |]; [| done]. unfold typed. destruct (value_of ty v); [by intros [= <- _] | done].
  - destruct args as [|a [|]]; try discriminate H. apply Forall_cons in IH as [IH _].
    destruct (lookup_in _ _ n); [done |]. destruct (peval st sigma a) as [[ta ra] |]; [| done].
    rewrite (IH _ _ eq_refl). rewrite builtin_value_split in H. destruct (builtin_type n ta); [by injection H as <- _ | done].
  - destruct (peval st sigma a) as [[ta ra] |]; [| done]. destruct (peval st sigma b) as [[tb rb] |]; [| done].
    rewrite (IHa _ _ eq_refl), (IHb _ _ eq_refl). rewrite bin_value_split in H.
    destruct (bin_type op l ta tb); [by injection H as <- _ | done].
  - destruct (peval st sigma a) as [[ta ra] |]; [| done]. rewrite (IH _ _ eq_refl). rewrite un_value_split in H.
    destruct (un_type op ta); [by injection H as <- _ | done].
Qed.

(** A visible variable of a scalar type. *)
Definition scalar_var (st : Sem) (n : string) (i : symid) (s : Sym) (ty : sty) : Prop :=
  lookup_in (syms st) (scopes st) n = Some i /\ syms st !! i = Some s /\ s_kind s = SY_VAR /\
  exists t, s_ty s = Some t /\ scalar_of st t = Some ty.

(** Variables have C identifiers. *)
Definition idents (st : Sem) : Prop := forall n i s ty, scalar_var st n i s ty -> c_ident (s_cname s) = true.

(** The C object of every visible scalar variable holds the variable's value. *)
Definition agree (st : Sem) (sigma : symid -> option Z) (rho : bool -> string -> option Z) : Prop :=
  forall n i s ty, scalar_var st n i s ty ->
    c_ident (s_cname s) = true /\ rho (s_is_varparam s) (s_cname s) = sigma i.

(** * Meaning of C expressions *)

(** The run-time error of a division by zero, with its place. *)
Definition zero_division (e : err) : Prop := exists (is_mod : bool) x f l, @Arith.pas_div_zero Z is_mod x f l = Err e.

(** The same value; or both stop at a division by zero (at which of several in one
    expression is left open). *)
Definition agrees (r r' : res Z) : Prop :=
  match r with Ok v => r' = Ok v | Err e => zero_division e /\ exists e', r' = Err e' /\ zero_division e' end.

Lemma zero_agrees is_mod x f l : agrees (Arith.pas_div_zero is_mod x f l) (Arith.pas_div_zero is_mod x f l).
Proof. split; [by exists is_mod, x, f, l |]. eexists. split; [reflexivity |]. by exists is_mod, x, f, l. Qed.

(** [c] has a value, and whatever C computes for it agrees with [r]. *)
Definition means1 (rho : bool -> string -> option Z) (c : cexp) (r : res Z) : Prop :=
  (exists r', ceval rho c r') /\ forall r', ceval rho c r' -> agrees r r'.

Lemma means1_un rho u c r f : means1 rho c r -> (forall x, r = Ok x -> unop_eval u x = f x) ->
  means1 rho (CUn u c) (let! x := r in Ok (f x)).
Proof.
  intros [[r1 H1] Hr] Hf. split.
  - destruct r1; [eexists; by eapply ev_un | eexists; by eapply ev_un_stop].
  - intros r' H. inversion H as [| | u' c' v Hc | u' c' e Hc | | | | | | |]; subst; apply Hr in Hc.
    + destruct r as [x | e]; simpl in Hc; [| by destruct Hc as (_ & ? & ? & _)]. injection Hc as <-. simpl. by rewrite (Hf v).
    + destruct r as [x | e']; simpl in Hc; [done | simpl; eauto].
Qed.

Lemma means1_bin rho b c d r s f : means1 rho c r -> means1 rho d s ->
  (forall x y, r = Ok x -> s = Ok y -> agrees (f x y) (binop_eval b x y)) ->
  means1 rho (CBin b c d) (both r s f).
Proof.
  intros [[r1 H1] Hr] [[s1 H2] Hs] Hf. unfold both. split.
  - destruct r1; [destruct s1 |]; eauto using ev_bin, ev_bin_left, ev_bin_right.
  - intros r' H.
    inversion H as [| | | | b' c' d' x y Hc Hd | b' c' d' e Hc | b' c' d' e Hd | | | |]; subst.
    + apply Hr in Hc. apply Hs in Hd. destruct r as [x' | e]; simpl in Hc; [| by destruct Hc as (_ & ? & ? & _)].
      destruct s as [y' | e]; simpl in Hd; [| by destruct Hd as (_ & ? & ? & _)]. injection Hc as <-. injection Hd as <-.
      simpl. by apply Hf.
    + apply Hr in Hc. destruct r as [x' | e']; simpl in Hc; [done | simpl; eauto].
    + apply Hs in Hd. destruct s as [y' | e']; simpl in Hd; [done |]. apply Hr in H1. destruct r; simpl in *; [done |].
      split; [apply H1 | apply Hd].
Qed.

Lemma means1_andand rho c d r s : means1 rho c r -> means1 rho d s -> (forall x, r = Ok x -> value_of SBool x = true) ->
  (forall y, s = Ok y -> value_of SBool y = true) ->
  means1 rho (CAndAnd c d) (let! x := r in if x =? 0 then Ok 0 else s).
Proof.
  intros [[r1 H1] Hr] [[s1 H2] Hs] Tr Ts. split.
  - destruct r1 as [x |]; [| eauto using ev_and_left].
    destruct (Z.eqb_spec x 0) as [-> | Hx]; [eauto using ev_and_false |].
    destruct s1; eauto using ev_and_true, ev_and_right.
  - intros r' H.
    inversion H as [| | | | | | | c' d' Hc | c' d' x y Hc Hx Hd | c' d' e Hc | c' d' x e Hc Hx Hd]; subst;
      apply Hr in Hc; (destruct r as [x' | e']; simpl in Hc;
        [try discriminate Hc; injection Hc as <- | try (by destruct Hc as (_ & ? & ? & _))]); cbn [rbind].
    + done.
    + rewrite (proj2 (Z.eqb_neq _ 0)) by done. apply Hs in Hd.
      destruct s as [y' | e']; simpl in Hd; [| by destruct Hd as (_ & ? & ? & _)]. injection Hd as <-. simpl. f_equal.
      specialize (Ts _ eq_refl). simpl in Ts. apply andb_true_iff in Ts as [?%Z.leb_le ?%Z.leb_le].
      unfold b2z. destruct (Z.eqb_spec y 0); simpl; lia.
    + simpl. eauto.
    + rewrite (proj2 (Z.eqb_neq _ 0)) by done. by apply Hs in Hd.
Qed.

(** The same C expression in every one of a family of stores. *)
Section Meaning.
Context {K : Type}.
Variable rho : K -> bool -> string -> option Z.

Definition means (c : cexp) (r : K -> res Z) : Prop := forall k, means1 (rho k) c (r k).

Lemma means_num z : means (CNum z) (fun _ => Ok z).
Proof using Type. intros k. split; [eexists; constructor |]. intros r' H. by inversion H. Qed.

Lemma means_obj b x v : (forall k, rho k b x = Some (v k)) -> means (CObj b x) (fun k => Ok (v k)).
Proof using Type.
  intros E k. split; [eexists; by constructor |]. intros r' H. inversion H; subst. simpl. rewrite E in *. congruence.
Qed.

Lemma means_un u c r f : means c r -> (forall k x, r k = Ok x -> unop_eval u x = f x) ->
  means (CUn u c) (fun k => let! x := r k in Ok (f x)).
Proof using Type. intros H Hf k. apply means1_un; eauto. Qed.

Lemma means_bin b c d r s f : means c r -> means d s ->
  (forall k x y, r k = Ok x -> s k = Ok y -> agrees (f x y) (binop_eval b x y)) ->
  means (CBin b c d) (fun k => both (r k) (s k) f).
Proof using Type. intros H H' Hf k. apply means1_bin; eauto. Qed.

Lemma means_andand c d r s : means c r -> means d s -> (forall k x, r k = Ok x -> value_of SBool x = true) ->
  (forall k y, s k = Ok y -> value_of SBool y = true) ->
  means (CAndAnd c d) (fun k => let! x := r k in if x =? 0 then Ok 0 else s k).
Proof using Type. intros H H' Hr Hs k. apply means1_andand; eauto. Qed.

Lemma means_ext c r r' : means c r -> (forall k, r k = r' k) -> means c r'.
Proof using Type. intros H E k. rewrite <- E. apply H. Qed.
End Meaning.

(** ** Values of types *)

Definition well (t : sty) (r : res Z) : Prop :=
  (forall w, t = SInt w -> width_ok w = true) /\ (forall v, r = Ok v -> value_of t v = true).

Lemma width_ok_cases w : width_ok w = true -> w = 16 \/ w = 32 \/ w = 64.
Proof. unfold width_ok. rewrite !orb_true_iff, !Z.eqb_eq. lia. Qed.

Lemma width_op w : width_ok w = true -> Arith.op_width w /\ 0 < w.
Proof. intros [-> | [-> | ->]]%width_ok_cases; split; try lia; unfold Arith.op_width; lia. Qed.

Lemma value_int w v : value_of (SInt w) v = true <-> in_srange w v.
Proof. unfold value_of, in_srange. rewrite andb_true_iff, Z.leb_le, Z.ltb_lt. done. Qed.

Lemma value_swrap w v : width_ok w = true -> value_of (SInt w) (swrap w v) = true.
Proof. intros [_ Hw]%width_op. apply value_int. by apply swrap_range. Qed.

Lemma wider_cases w w' : width_ok w = true -> width_ok w' = true ->
  width_ok (wider_of w w') = true /\ w <= wider_of w w' /\ w' <= wider_of w w'.
Proof. intros H H'. unfold wider_of. destruct (Z.ltb_spec w w'); repeat split; try done; lia. Qed.

Lemma srange_wider w w' v : 0 < w <= w' -> in_srange w v -> in_srange w' v.
Proof.
  unfold in_srange. intros Hw Hv.
  assert (2 ^ (w - 1) <= 2 ^ (w' - 1)) by (apply Z.pow_le_mono_r; lia). lia.
Qed.

Lemma swrap_wider w w' v : 0 < w <= w' -> in_srange w v -> swrap w' v = v.
Proof. intros Hw Hv. apply swrap_small; [lia |]. by apply (srange_wider w). Qed.

(** Two's complement values are closed under the bitwise operators. *)
Lemma srange_shiftr w v : 0 < w -> in_srange w v <-> Z.shiftr v (w - 1) = 0 \/ Z.shiftr v (w - 1) = -1.
Proof.
  intros Hw. unfold in_srange. rewrite Z.shiftr_div_pow2 by lia.
  assert (0 < 2 ^ (w - 1)) as Hp by (apply Z.pow_pos_nonneg; lia).
  pose proof (Z.div_mod v (2 ^ (w - 1)) ltac:(lia)) as E.
  pose proof (Z.mod_pos_bound v (2 ^ (w - 1)) Hp). split.
  - intros Hv. assert (-1 <= v / 2 ^ (w - 1) < 1); [| lia].
    split; [apply Z.div_le_lower_bound; lia | apply Z.div_lt_upper_bound; lia].
  - intros [H0 | H0]; rewrite H0 in E; lia.
Qed.

Lemma srange_bits w x y : 0 < w -> in_srange w x -> in_srange w y ->
  in_srange w (Z.land x y) /\ in_srange w (Z.lor x y).
Proof.
  intros Hw. rewrite !srange_shiftr by done. rewrite Z.shiftr_land, Z.shiftr_lor.
  intros [-> | ->] [-> | ->]; simpl; auto.
Qed.

Lemma value_bool v : value_of SBool v = true -> v = 0 \/ v = 1.
Proof. simpl. rewrite andb_true_iff, !Z.leb_le. lia. Qed.

Lemma value_b2z b : value_of SBool (b2z b) = true.
Proof. by destruct b. Qed.

Lemma both_ok r s f v : both r s f = Ok v -> exists x y, r = Ok x /\ s = Ok y /\ f x y = Ok v.
Proof. unfold both. intros H. inv_ok. eauto. Qed.

Lemma un_ok (r : res Z) (f : Z -> Z) v : (let! x := r in Ok (f x)) = Ok v -> exists x, r = Ok x /\ v = f x.
Proof. destruct r; [| done]. intros [= <-]. eauto. Qed.

Lemma rbind_id (r : res Z) : (let! x := r in Ok x) = r.
Proof. by destruct r. Qed.

Lemma int_op_value op w w' W l x y v : width_ok W = true -> 0 < w <= W -> 0 < w' <= W ->
  in_srange w x -> in_srange w' y -> int_op op W l x y = Ok v -> value_of (SInt W) v = true.
Proof.
  intros HW Hw Hw' Hx Hy H. destruct (width_op W HW) as [_ Hpos].
  unfold int_op in H. destruct op; try (injection H as <-; by apply value_swrap).
  - destruct (y =? 0); [done |]. injection H as <-. by apply value_swrap.
  - destruct (Z.eqb_spec y 0) as [| Hy0]; [done |]. injection H as <-. apply value_int.
    apply Arith.rem_in_range; [lia | by apply (srange_wider w) | done].
Qed.

Lemma compare_value op x y : is_cmp op = true -> value_of SBool (infix_eval op x y) = true.
Proof. destruct op; try done; intros _; apply value_b2z. Qed.

Lemma bin_well op l a b r s t q : well a r -> well b s -> bin_value op l a b r s = Some (t, q) -> well t q.
Proof.
  intros [Wa Va] [Wb Vb] H.
  assert (is_cmp op = true -> well t q) as Hcmp.
  { intros Hc. assert (exists k, t = SBool /\ q = both r s (fun x y => Ok (infix_eval op (k x) (k y)))) as (k & -> & ->).
    { destruct op; try done; simpl in H; destruct (compare_key _ a b) as [k |]; try done; injection H as <- <-; eauto. }
    split; [done |]. intros v (x & y & _ & _ & [= <-])%both_ok. by apply compare_value. }
  destruct op; try (by apply Hcmp); try discriminate H; clear Hcmp; cbn [bin_value] in H.
  1-5: destruct a as [w | | |]; try discriminate H; destruct b as [w' | | |]; try discriminate H;
    specialize (Wa w eq_refl); specialize (Wb w' eq_refl); destruct (wider_cases w w' Wa Wb) as (HW & H1 & H2);
    destruct (line_ok l); try discriminate H; injection H as <- <-;
    (split; [by intros ? [= <-] |]); intros v (x & y & -> & -> & Hv)%both_ok;
    (eapply (int_op_value _ w w'); [exact HW | | | by apply value_int, Va | by apply value_int, Vb | exact Hv]);
    pose proof (proj2 (width_op _ Wa)); pose proof (proj2 (width_op _ Wb)); lia.
  1-2: destruct a as [w | | |]; try discriminate H; destruct b as [w' | | |]; try discriminate H; injection H as <- <-;
    [ specialize (Wa w eq_refl); specialize (Wb w' eq_refl); destruct (wider_cases w w' Wa Wb) as (HW & H1 & H2);
      (split; [by intros ? [= <-] |]); intros v (x & y & -> & -> & [= <-])%both_ok; apply value_int;
      pose proof (proj2 (width_op _ Wa)); pose proof (proj2 (width_op _ Wb));
      apply srange_bits; [lia | apply (srange_wider w); [lia |] | apply (srange_wider w'); [lia |]];
      by apply value_int; auto
    | split; [done |]; intros v (x & y & -> & -> & [= <-])%both_ok;
      specialize (Va _ eq_refl); specialize (Vb _ eq_refl);
      apply value_bool in Va as [-> | ->]; apply value_bool in Vb as [-> | ->]; done ].
  destruct a; try discriminate H. destruct b; try discriminate H. injection H as <- <-. split; [done |].
  intros v Hv. inv_ok. destruct (_ =? 0); [by injection Hv as <- | auto].
Qed.

Lemma un_well op a r t q : well a r -> un_value op a r = Some (t, q) -> well t q.
Proof.
  intros [Wa Va] H. unfold un_value in H.
  destruct op; try discriminate H; destruct a as [w | | |]; try discriminate H; injection H as <- <-.
  - split; [auto |]. intros v Hv. inv_ok. apply value_swrap. auto.
  - split; [auto |]. intros v Hv. inv_ok. specialize (Va _ eq_refl). apply value_int in Va. apply value_int.
    unfold in_srange in *. lia.
  - split; [done |]. intros v Hv. inv_ok. specialize (Va _ eq_refl). by apply value_bool in Va as [-> | ->].
Qed.

Lemma builtin_well n a r t q : well a r -> builtin_value n a r = Some (t, q) -> well t q.
Proof.
  intros [Wa Va] H. unfold builtin_value in H. destruct (String.eqb n "ord").
  - destruct a as [w | | |]; [destruct (w =? 64); [done |] | ..]; injection H as <- <-; (split; [by intros ? [= <-]; auto |]);
      intros v ->; specialize (Va v eq_refl); [done | ..]; revert Va; simpl;
      rewrite !andb_true_iff, !Z.leb_le, ?Z.ltb_lt; unfold INT32_MIN, INT32_MAX; lia.
  - destruct (String.eqb n "chr"); [| done]. destruct a; try discriminate H. injection H as <- <-.
    split; [done |]. intros v Hv. inv_ok. simpl. unfold uwrap.
    pose proof (Z.mod_pos_bound a (2 ^ 8) ltac:(lia)). rewrite andb_true_iff, !Z.leb_le. lia.
Qed.

(** * Translation *)

(** Texts that differ only in how they were put together. *)
Ltac text_eq := unfold infix; rewrite ?string_app_assoc; cbn [String.append]; reflexivity.
Ltac as_text G := match goal with |- _ ?text _ => let E := fresh in
  assert (text = G) as E; [try text_eq | rewrite E; clear E] end.

Lemma with_sem_same s : with_sem (sem s) s = s.
Proof. by destruct s. Qed.

Section Translation.
Context {K : Type}.
Variables (st : Emit) (sigma : K -> symid -> option Z) (rho : K -> bool -> string -> option Z).
Hypothesis Hbasic : basic (sem st).
Hypothesis Hagree : forall k, agree (sem st) (sigma k) (rho k).
Hypothesis Hident : idents (sem st).

Definition wells (t : sty) (r : K -> res Z) : Prop :=
  (forall w, t = SInt w -> width_ok w = true) /\ (forall k v, r k = Ok v -> value_of t v = true).

(** A C expression the emitter made for the values [r] of type [t]. *)
Definition operand (ce : CE) (t : sty) (r : K -> res Z) : Prop :=
  scalar_of (sem st) (ce_ty ce) = Some t /\ exists c, Prim (ce_s ce) c /\ means rho c r.

Definition yields_operand (m : EM CE) (t : sty) (r : K -> res Z) : Prop :=
  exists ce, m st = Ok (ce, st) /\ operand ce t r.

Lemma operand_ext ce t r r' : operand ce t r -> (forall k, r k = r' k) -> operand ce t r'.
Proof using Type. intros (Hs & c & Hp & Hm) E. split; [done |]. exists c. split; [done | by eapply means_ext]. Qed.

Lemma in_sem_pure {A} (m : SM A) a : m (sem st) = Ok (a, sem st) -> in_sem m st = Ok (a, st).
Proof using Type. intros H. unfold in_sem. by rewrite H, with_sem_same. Qed.

(** The descriptor of an operand. *)
Definition desc_of_sty (t : sty) (d : TypeDesc) : Prop :=
  match t with
  | SInt w => exists n, d = TY_INT w n
  | SBool => d = TY_BOOL
  | SChar => d = TY_CHAR
  | SEnum _ => exists lo hi, d = TY_ENUM lo hi
  end.

Lemma scalar_desc u t : scalar_of (sem st) u = Some t ->
  exists d, desc_at (sem st) u = Some d /\ desc_of_sty t d /\ match t with SEnum v => v = u | _ => True end.
Proof using Type.
  unfold scalar_of. destruct (desc_at (sem st) u) as [d |]; [| done]. intros H. exists d. split; [done |].
  destruct d; try discriminate H; try (injection H as <-; simpl; eauto; fail).
  destruct (width_ok width); [| done]. injection H as <-. simpl. eauto.
Qed.

Lemma operand_desc ce t r : operand ce t r -> exists d, ty_desc ce st = Ok (d, st) /\ desc_of_sty t d /\
  match t with SEnum v => v = ce_ty ce | _ => True end.
Proof using Type.
  intros [(d & Hd & Hs & He)%scalar_desc _]. exists d. split; [| done].
  apply in_sem_pure. by apply desc_of_ok.
Qed.

Lemma scalar_predef i d t : predefs !! i = Some d ->
  (forall st', desc_at st' i = Some d -> scalar_of st' i = Some t) -> scalar_of (sem st) i = Some t.
Proof using Hbasic. intros H Hs. apply Hs. by apply Hbasic. Qed.

Lemma scalar_bool : scalar_of (sem st) t_bool = Some SBool.
Proof using Hbasic. apply (scalar_predef _ TY_BOOL); [done |]. intros st' E. unfold scalar_of. by rewrite E. Qed.
Lemma scalar_char : scalar_of (sem st) t_char = Some SChar.
Proof using Hbasic. apply (scalar_predef _ TY_CHAR); [done |]. intros st' E. unfold scalar_of. by rewrite E. Qed.
Lemma scalar_integer : scalar_of (sem st) t_integer = Some (SInt 16).
Proof using Hbasic. apply (scalar_predef _ (TY_INT 16 "INTEGER")); [done |]. intros st' E. unfold scalar_of. by rewrite E. Qed.
Lemma scalar_int32 : scalar_of (sem st) t_int32 = Some (SInt 32).
Proof using Hbasic. apply (scalar_predef _ (TY_INT 32 "INTEGER32")); [done |]. intros st' E. unfold scalar_of. by rewrite E. Qed.
Lemma scalar_int64 : scalar_of (sem st) t_int64 = Some (SInt 64).
Proof using Hbasic. apply (scalar_predef _ (TY_INT 64 "INTEGER64")); [done |]. intros st' E. unfold scalar_of. by rewrite E. Qed.

Lemma means_cast t c r : means rho c r -> (forall k x, r k = Ok x -> cast_eval t x = x) -> means rho (CUn (Cast t) c) r.
Proof using Type.
  intros H Hx. apply (means_ext _ _ (fun k => let! x := r k in Ok x)); [by apply means_un | intros k; apply rbind_id].
Qed.

(** An integer operand cast to a width that holds it. *)
Lemma cast_ok ce w W r : operand ce (SInt w) r -> wells (SInt w) r -> 0 < w <= W ->
  exists c, Unary ("(" +:+ int_ctype W +:+ ")" +:+ ce_s ce) c /\ means rho c r.
Proof using Type.
  intros (_ & c & Hp & Hm) [_ Hv] Hw. exists (CUn (Cast (CInt W)) c).
  split; [apply (u_cast (CInt W)); by apply u_prim |]. apply means_cast; [done |].
  intros k x Hx. simpl. apply (swrap_wider w); [done |]. by apply value_int, (Hv k).
Qed.

Lemma bool_operand s c r : Full s c -> means rho c r -> (forall k v, r k = Ok v -> value_of SBool v = true) ->
  operand (bool_ce s) SBool r.
Proof using Hbasic.
  intros Hs Hm Hv. split; [apply scalar_bool |]. exists (CUn (Cast CByte) c). split.
  - unfold bool_ce, mk. cbn [ce_s]. as_text ("(" +:+ ("(" +:+ cty_name CByte +:+ ")" +:+ ("(" +:+ s +:+ ")")) +:+ ")").
    apply p_paren, f_unary, u_cast, u_prim, p_paren, Hs.
  - apply means_cast; [done |]. intros k x Hx. apply Hv, value_bool in Hx as [-> | ->]; done.
Qed.

Lemma means_infix op c d r s : means rho c r -> means rho d s ->
  means rho (CBin (Infix op) c d) (fun k => both (r k) (s k) (fun x y => Ok (infix_eval op x y))).
Proof using Type. intros Hc Hd. by apply means_bin. Qed.

Lemma infix_bool op s c r s' d q f : infix_op op = true -> Unary s c -> Unary s' d -> means rho c r -> means rho d q ->
  (forall k x y, r k = Ok x -> q k = Ok y -> infix_eval op x y = f x y /\ value_of SBool (f x y) = true) ->
  operand (bool_ce (infix s (op_text op) s')) SBool (fun k => both (r k) (q k) (fun x y => Ok (f x y))).
Proof using Hbasic.
  intros Ho Hs Hs' Hc Hd Hf. apply (bool_operand _ (CBin (Infix op) c d)).
  - by apply f_infix.
  - apply means_bin; [done | done |]. intros k x y Hx Hy. simpl. by rewrite (proj1 (Hf k x y Hx Hy)).
  - intros k v (x & y & Hx & Hy & [= <-])%both_ok. by apply (Hf k).
Qed.

Lemma operand_unary ce t r : operand ce t r -> exists c, Unary (ce_s ce) c /\ means rho c r.
Proof using Type. intros (_ & c & Hp & Hm). exists c. split; [by apply u_prim | done]. Qed.

Lemma wider_width a b da db w w' n n' : da = TY_INT w n -> db = TY_INT w' n' ->
  snd (wider a b da db) = wider_of w w' /\ fst (wider a b da db) = if w <? w' then ce_ty b else ce_ty a.
Proof using Type. intros -> ->. unfold wider, wider_of. simpl. by destruct (w <? w'). Qed.

Lemma both_map r s f k k' : both (let! x := r in Ok (k x)) (let! y := s in Ok (k' y)) f = both r s (fun x y => f (k x) (k' y)).
Proof using Type. destruct r, s; done. Qed.

Lemma gen_compare_ok op l a b r s ta tb k : is_cmp op = true -> operand a ta r -> operand b tb s ->
  wells ta r -> wells tb s -> compare_key op ta tb = Some k ->
  yields_operand (gen_compare op l a b) SBool (fun j => both (r j) (s j) (fun x y => Ok (infix_eval op (k x) (k y)))).
Proof using Hbasic.
  intros Hop Ha Hb Wa Wb Hk.
  destruct (operand_desc _ _ _ Ha) as (da & Ea & Da & Xa). destruct (operand_desc _ _ _ Hb) as (db & Eb & Db & Xb).
  assert (infix_op op = true) as Hi by (by destruct op).
  assert (forall x y, value_of SBool (infix_eval op x y) = true) as Hv by (intros; by apply compare_value).
  destruct (operand_unary _ _ _ Ha) as (ca & Ua & Ma). destruct (operand_unary _ _ _ Hb) as (cb & Ub & Mb).
  unfold yields_operand, gen_compare. rewrite (bind_ok _ _ _ _ _ Ea), (bind_ok _ _ _ _ _ Eb).
  destruct ta as [w | | | t], tb as [w' | | | t']; try discriminate Hk; simpl in Da, Db, Xa, Xb.
  - destruct Da as [na ->], Db as [nb ->]. injection Hk as <-. cbn -[wider].
    destruct (wider_width a b (TY_INT w na) (TY_INT w' nb) w w' na nb eq_refl eq_refl) as [-> _].
    pose proof (proj1 Wa w eq_refl) as Hw. pose proof (proj1 Wb w' eq_refl) as Hw'.
    destruct (wider_cases w w' Hw Hw') as (HW & H1 & H2). apply width_op in Hw as [_ Hw]. apply width_op in Hw' as [_ Hw'].
    destruct (cast_ok a w (wider_of w w') r Ha Wa ltac:(lia)) as (ca' & Ua' & Ma').
    destruct (cast_ok b w' (wider_of w w') s Hb Wb ltac:(lia)) as (cb' & Ub' & Mb').
    eexists. split; [reflexivity |]. rewrite !string_app_assoc. by apply (infix_bool _ _ ca' _ _ cb').
  - subst da db. simpl in Hk. destruct (is_eq_op op) eqn:Eo; [| done]. injection Hk as <-. cbn.
    eexists. split; [reflexivity |]. by apply (infix_bool _ _ ca _ _ cb).
  - subst da db. injection Hk as <-. cbn. eexists. split; [reflexivity |].
    apply (operand_ext _ _ (fun k => both (let! x := r k in Ok (swrap 8 x)) (let! y := s k in Ok (swrap 8 y))
      (fun x y => Ok (infix_eval op x y)))); [| intros; apply both_map].
    apply (infix_bool op ("(int8_t)" +:+ ce_s a) (CUn (Cast (CInt 8)) ca) _ ("(int8_t)" +:+ ce_s b) (CUn (Cast (CInt 8)) cb));
      [done | by apply (u_cast (CInt 8)) | by apply (u_cast (CInt 8)) | by apply means_un | by apply means_un | done].
  - destruct Da as (? & ? & ->), Db as (? & ? & ->). subst t t'. simpl in Hk. case_bool_decide as E; [| done].
    injection Hk as <-. cbn. rewrite E, Nat.eqb_refl.
    eexists. split; [reflexivity |]. by apply (infix_bool _ _ ca _ _ cb).
Qed.

(** Two integer operands, cast to the width of the wider one. *)
Lemma int_operands a b w w' r s : operand a (SInt w) r -> operand b (SInt w') s ->
  wells (SInt w) r -> wells (SInt w') s ->
  exists da db, ty_desc a st = Ok (da, st) /\ ty_desc b st = Ok (db, st) /\
    (exists n, da = TY_INT w n) /\ (exists n, db = TY_INT w' n) /\
    (exists t, wider a b da db = (t, wider_of w w') /\ scalar_of (sem st) t = Some (SInt (wider_of w w'))) /\
    (exists c, Unary ("(" +:+ int_ctype (wider_of w w') +:+ ")" +:+ ce_s a) c /\ means rho c r) /\
    (exists c, Unary ("(" +:+ int_ctype (wider_of w w') +:+ ")" +:+ ce_s b) c /\ means rho c s) /\
    width_ok (wider_of w w') = true /\
    (forall k x, r k = Ok x -> in_srange (wider_of w w') x) /\ (forall k y, s k = Ok y -> in_srange (wider_of w w') y).
Proof using Type.
  intros Ha Hb Wa Wb.
  destruct (operand_desc _ _ _ Ha) as (da & Ea & [na Da] & _). destruct (operand_desc _ _ _ Hb) as (db & Eb & [nb Db] & _).
  pose proof (proj1 Wa w eq_refl) as Hw. pose proof (proj1 Wb w' eq_refl) as Hw'.
  destruct (wider_cases w w' Hw Hw') as (HW & H1 & H2).
  pose proof (proj2 (width_op _ Hw)). pose proof (proj2 (width_op _ Hw')).
  exists da, db. split; [done |]. split; [done |]. split; [eauto |]. split; [eauto |].
  split; [| split; [eapply (cast_ok a w); [done | done | lia] | split; [eapply (cast_ok b w'); [done | done | lia] | split; [done |]]]].
  - exists (fst (wider a b da db)). destruct (wider_width a b da db w w' na nb Da Db) as [E1 E2].
    split; [rewrite <- E1; by destruct (wider a b da db) |]. rewrite E2. unfold wider_of.
    destruct (w <? w'); [apply Hb | apply Ha].
  - split; intros k x Hx; [apply (srange_wider w) | apply (srange_wider w')]; try lia; apply value_int;
      [by apply (proj2 Wa k) | by apply (proj2 Wb k)].
Qed.

Lemma gen_logical_int op l a b w w' r s : op = OP_AND \/ op = OP_OR -> operand a (SInt w) r -> operand b (SInt w') s ->
  wells (SInt w) r -> wells (SInt w') s ->
  yields_operand (gen_logical op l a b) (SInt (wider_of w w'))
    (fun k => both (r k) (s k) (fun x y => Ok (match op with OP_AND => Z.land | _ => Z.lor end x y))).
Proof using Type.
  intros Hop Ha Hb Wa Wb.
  destruct (int_operands a b w w' r s Ha Hb Wa Wb)
    as (da & db & Ea & Eb & [na ->] & [nb ->] & (t & Et & Ht) & (ca & Ua & Ma) & (cb & Ub & Mb) & HW & Rx & Ry).
  unfold yields_operand, gen_logical. rewrite (bind_ok _ _ _ _ _ Ea), (bind_ok _ _ _ _ _ Eb).
  cbn -[wider]. rewrite Et. eexists. split; [reflexivity |]. split; [done |].
  exists (CUn (Cast (CInt (wider_of w w'))) (CBin (Infix op) ca cb)). split.
  - cbn [mk ce_s]. as_text ("(" +:+ ("(" +:+ cty_name (CInt (wider_of w w')) +:+ ")" +:+ ("("
      +:+ infix ("(" +:+ int_ctype (wider_of w w') +:+ ")" +:+ ce_s a) (op_text op)
                ("(" +:+ int_ctype (wider_of w w') +:+ ")" +:+ ce_s b) +:+ ")")) +:+ ")").
    apply p_paren, f_unary, u_cast, u_prim, p_paren, f_infix; [by destruct Hop as [-> | ->] | done | done].
  - apply means_cast; [apply means_bin; [done | done |]; by destruct Hop as [-> | ->] |].
    intros k v (x & y & Hx & Hy & [= <-])%both_ok. simpl. destruct (width_op _ HW) as [_ Hpos].
    apply swrap_small; [done |].
    destruct (srange_bits _ x y Hpos (Rx k x Hx) (Ry k y Hy)). by destruct Hop as [-> | ->].
Qed.

Lemma gen_logical_bool op l a b r s : op = OP_AND \/ op = OP_OR -> operand a SBool r -> operand b SBool s ->
  wells SBool r -> wells SBool s ->
  yields_operand (gen_logical op l a b) SBool
    (fun k => both (r k) (s k) (fun x y => Ok (match op with OP_AND => Z.land | _ => Z.lor end x y))).
Proof using Hbasic.
  intros Hop Ha Hb [_ Va] [_ Vb].
  destruct (operand_desc _ _ _ Ha) as (da & Ea & -> & _). destruct (operand_desc _ _ _ Hb) as (db & Eb & -> & _).
  destruct (operand_unary _ _ _ Ha) as (ca & Ua & Ma). destruct (operand_unary _ _ _ Hb) as (cb & Ub & Mb).
  unfold yields_operand, gen_logical. rewrite (bind_ok _ _ _ _ _ Ea), (bind_ok _ _ _ _ _ Eb). cbn.
  eexists. split; [reflexivity |]. apply (infix_bool op _ ca _ _ cb); try done; [by destruct Hop as [-> | ->] |].
  intros k x y Hx%Va%value_bool Hy%Vb%value_bool. destruct Hop as [-> | ->], Hx as [-> | ->], Hy as [-> | ->]; done.
Qed.

(** The calls of prelude.h compute the operators. *)
Lemma call_eval op W x y l : width_ok W = true -> in_srange W x -> in_srange W y ->
  match op with
  | OP_ADD | OP_SUB | OP_MUL => agrees (int_op op W l x y) (binop_eval (CallOp op W) x y)
  | OP_IDIV | OP_MOD =>
      agrees (int_op op W l x y)
        (binop_eval (CallDiv op W (str (base_name (chars (default "?" (loc_file l))))) (loc_line l)) x y)
  | _ => True
  end.
Proof using Type.
  intros HW Hx Hy. destruct (width_op W HW) as [Ho Hpos].
  unfold binop_eval, int_op, Arith.pas_div, Arith.pas_mod. rewrite (swrap_small W x), (swrap_small W y) by done.
  destruct op; try done.
  - simpl. by rewrite Arith.pas_add_eq.
  - simpl. by rewrite Arith.pas_sub_eq.
  - simpl. by rewrite Arith.pas_mul_eq.
  - destruct (Z.eqb_spec y 0) as [-> | Hy0]; [apply zero_agrees |].
    destruct (Z.eqb_spec y (-1)) as [-> | _]; [| done]. simpl. rewrite Arith.pas_neg_eq by done.
    change (-1) with (Z.opp 1). by rewrite Z.quot_opp_r, Z.quot_1_r.
  - destruct (Z.eqb_spec y 0) as [-> | Hy0]; [apply zero_agrees |].
    destruct (Z.eqb_spec y (-1)) as [-> | _]; simpl; f_equal.
    + by rewrite <- Z.rem_abs_r, Z.rem_1_r.
    + rewrite swrap_small; [done | done |]. by apply Arith.rem_in_range.
Qed.

Lemma file_lit_reads l : c_literal (loc_file_lit l) = Some (base_name (chars (default "?" (loc_file l)))).
Proof using Type. unfold loc_file_lit. rewrite literal_quoted, decode_file_chars. by rewrite after_slash_base. Qed.

Lemma line_reads l : line_ok l = true -> c_int_constant (Zs (loc_line l)) = Some (loc_line l).
Proof using Type.
  unfold line_ok. rewrite andb_true_iff, !Z.leb_le. unfold INT32_MAX. intros H.
  rewrite <- (int_lit_reads (loc_line l)) by (unfold in_srange; simpl; lia). f_equal. unfold int_lit, INT32_MIN, INT32_MAX.
  by rewrite (proj2 (Z.leb_le _ _)), (proj2 (Z.leb_le _ _)) by lia.
Qed.

Lemma gen_arith_ok op l a b w w' r s : arith_op op = true -> line_ok l = true ->
  operand a (SInt w) r -> operand b (SInt w') s -> wells (SInt w) r -> wells (SInt w') s ->
  yields_operand (gen_arith op l a b) (SInt (wider_of w w')) (fun k => both (r k) (s k) (int_op op (wider_of w w') l)).
Proof using Type.
  intros Hop Hl Ha Hb Wa Wb.
  destruct (int_operands a b w w' r s Ha Hb Wa Wb)
    as (da & db & Ea & Eb & [na ->] & [nb ->] & (t & Et & Ht) & (ca & Ua & Ma) & (cb & Ub & Mb) & HW & Rx & Ry).
  unfold yields_operand, gen_arith. rewrite (bind_ok _ _ _ _ _ Ea), (bind_ok _ _ _ _ _ Eb).
  assert ((if bool_decide (op = OP_ADD) then do* complete_target (TY_INT w na) in complete_target (TY_INT w' nb) else ret tt) st
    = Ok (tt, st)) as E1 by (by destruct (bool_decide _)).
  rewrite (bind_ok _ _ _ _ _ E1). rewrite (bool_decide_false (op = OP_RDIV)) by (by destruct op).
  cbn [d_is_ptr d_is_real d_is_int orb andb]. rewrite !andb_false_r. rewrite Et.
  set (W := wider_of w w') in *.
  assert (forall k x y, r k = Ok x -> s k = Ok y -> _) as Hev
    by (intros k x y Hx Hy; exact (call_eval op W x y l HW (Rx k x Hx) (Ry k y Hy))).
  destruct op; try discriminate Hop; cbn [int_arith];
    (eexists; split; [reflexivity |]; split; [exact Ht |]; cbn [mk ce_s]).
  1-3: eexists; split; [| exact (means_bin rho _ ca cb r s _ Ma Mb Hev)];
    match goal with |- Prim (?f +:+ _) _ =>
      as_text (f +:+ Zs W +:+ "(" +:+ ("(" +:+ int_ctype W +:+ ")" +:+ ce_s a) +:+ ", "
               +:+ ("(" +:+ int_ctype W +:+ ")" +:+ ce_s b) +:+ ")") end;
    by apply p_call.
  1-2: eexists; split; [| exact (means_bin rho _ ca cb r s _ Ma Mb Hev)];
    match goal with |- Prim (?f +:+ _) _ =>
      as_text (f +:+ Zs W +:+ "(" +:+ ("(" +:+ int_ctype W +:+ ")" +:+ ce_s a) +:+ ", "
               +:+ ("(" +:+ int_ctype W +:+ ")" +:+ ce_s b) +:+ ", " +:+ loc_file_lit l +:+ ", "
               +:+ Zs (loc_line l) +:+ ")") end;
    apply p_div; [done | done | done | rewrite chars_str; apply file_lit_reads | by apply line_reads].
Qed.

Lemma gen_andthen_ok l a b r s : operand a SBool r -> operand b SBool s -> wells SBool r -> wells SBool s ->
  yields_operand (gen_binary OP_ANDTHEN l a b) SBool (fun k => let! x := r k in if x =? 0 then Ok 0 else s k).
Proof using Hbasic.
  intros Ha Hb [_ Va] [_ Vb].
  destruct (operand_desc _ _ _ Ha) as (da & Ea & -> & _). destruct (operand_desc _ _ _ Hb) as (db & Eb & -> & _).
  destruct (operand_unary _ _ _ Ha) as (ca & Ua & Ma). destruct (operand_unary _ _ _ Hb) as (cb & Ub & Mb).
  unfold yields_operand, gen_binary. rewrite bool_decide_true by done.
  rewrite (bind_ok _ _ _ _ _ Ea), (bind_ok _ _ _ _ _ Eb). cbn.
  eexists. split; [reflexivity |]. apply (bool_operand _ (CAndAnd ca cb)).
  - by apply f_andand.
  - by apply means_andand.
  - intros k v Hv. inv_ok. destruct (_ =? 0); [by injection Hv as <- | eauto].
Qed.

Lemma gen_binary_ok op l a b ta tb r s t : operand a ta r -> operand b tb s -> wells ta r -> wells tb s ->
  bin_type op l ta tb = Some t ->
  yields_operand (gen_binary op l a b) t (fun k => result (bin_value op l ta tb (r k) (s k))).
Proof using Hbasic.
  intros Ha Hb Wa Wb H.
  assert (forall o, o <> OP_ANDTHEN -> gen_binary o l a b =
    if is_cmp o then gen_compare o l a b
    else if bool_decide (o = OP_AND) || bool_decide (o = OP_OR) then gen_logical o l a b else gen_arith o l a b) as E.
  { intros o Ho. unfold gen_binary. by rewrite (bool_decide_false (o = OP_ANDTHEN)). }
  destruct op; try discriminate H; try (rewrite E by done); cbn [is_cmp]; cbn [bin_value]; unfold bin_type in H; cbn [bin_value] in H.
  1-5: rewrite !bool_decide_false by done; cbn [orb];
    destruct ta; try discriminate H; destruct tb; try discriminate H; destruct (line_ok l) eqn:El; [| discriminate H];
    injection H as <-; by apply gen_arith_ok.
  4-9: match goal with |- yields_operand (gen_compare ?o _ _ _) _ _ =>
      destruct (compare_key o ta tb) as [k |] eqn:Ek; [| discriminate H]; injection H as <-;
      by apply (gen_compare_ok o l a b r s ta tb k) end.
  1: rewrite bool_decide_true by done. 2: rewrite (bool_decide_true (OP_OR = OP_OR)), orb_true_r by done.
  1-2: cbn [orb]; destruct ta; try discriminate H; destruct tb; try discriminate H; injection H as <-.
  - by apply (gen_logical_int OP_AND); [left | ..].
  - by apply (gen_logical_bool OP_AND); [left | ..].
  - by apply (gen_logical_int OP_OR); [right | ..].
  - by apply (gen_logical_bool OP_OR); [right | ..].
  - destruct ta; try discriminate H; destruct tb; try discriminate H. injection H as <-. by apply gen_andthen_ok.
Qed.

Lemma gen_unary_ok op l a ta r t : operand a ta r -> wells ta r ->
  un_type op ta = Some t -> yields_operand (gen_unary op l a) t (fun k => result (un_value op ta (r k))).
Proof using Hbasic.
  intros Ha [Wa Va] H. destruct (operand_desc _ _ _ Ha) as (da & Ea & Da & _).
  destruct (operand_unary _ _ _ Ha) as (ca & Ua & Ma).
  unfold yields_operand, gen_unary. rewrite (bind_ok _ _ _ _ _ Ea).
  destruct op; try discriminate H; destruct ta as [w | | |]; try discriminate H; injection H as <-; simpl in Da;
    first [rewrite bool_decide_true by done | rewrite bool_decide_false by done].
  - destruct Da as [n ->]. eexists. split; [reflexivity |]. split; [apply Ha |]. cbn [mk ce_s].
    destruct (width_op w (Wa w eq_refl)) as [Ho Hpos].
    destruct (cast_ok a w w r Ha (conj Wa Va) ltac:(lia)) as (c & Uc & Mc).
    exists (CUn (CallNeg w) c). split.
    + as_text ("pas_neg" +:+ Zs w +:+ "(" +:+ ("(" +:+ int_ctype w +:+ ")" +:+ ce_s a) +:+ ")"). by apply p_neg.
    + apply means_un; [done |]. intros k x Hx. simpl. apply Va, value_int in Hx.
      by rewrite swrap_small, Arith.pas_neg_eq.
  - destruct Da as [n ->]. eexists. split; [reflexivity |]. split; [apply Ha |]. cbn [mk ce_s].
    destruct (width_op w (Wa w eq_refl)) as [Ho Hpos].
    exists (CUn (Cast (CInt w)) (CUn BitNot ca)). split.
    + as_text ("(" +:+ ("(" +:+ cty_name (CInt w) +:+ ")" +:+ ("~" +:+ ce_s a)) +:+ ")").
      by apply p_paren, f_unary, u_cast, u_bitnot.
    + apply means_cast; [apply means_un; [done |]; intros k x _; unfold unop_eval, Z.lnot; lia |].
      intros k v Hv. apply un_ok in Hv as (x & Hx%Va%value_int & ->). simpl.
      apply swrap_small; [done |]. unfold in_srange in *. lia.
  - subst da. eexists. split; [reflexivity |]. split; [apply scalar_bool |]. cbn [mk ce_s].
    exists (CUn (Cast CByte) (CUn LogNot ca)). split.
    + as_text ("(" +:+ ("(" +:+ cty_name CByte +:+ ")" +:+ ("!" +:+ ce_s a)) +:+ ")").
      by apply p_paren, f_unary, u_cast, u_lognot.
    + apply means_cast; [apply means_un; [done |]; intros k x Hx | intros k v (x & Hx%Va%value_bool & ->)%un_ok];
        [apply Va, value_bool in Hx as [-> | ->]; done |].
      by destruct Hx as [-> | ->].
Qed.

(** Constants in the text. *)
Lemma paren_int v : in_srange 64 v -> Prim ("(" +:+ int_lit v +:+ ")") (CNum v).
Proof using Type. intros H. apply p_paren, f_unary, u_const. by apply int_lit_reads. Qed.

Lemma byte_const v : 0 <= v <= 255 ->
  Prim ("((uint8_t)" +:+ Zs v +:+ ")") (CUn (Cast CByte) (CNum v)) /\ means rho (CUn (Cast CByte) (CNum v)) (fun _ => Ok v).
Proof using Type.
  intros Hv. split.
  - as_text ("(" +:+ ("(" +:+ cty_name CByte +:+ ")" +:+ Zs v) +:+ ")").
    apply p_paren, f_unary, u_cast, u_const.
    rewrite <- (int_lit_reads v) by (unfold in_srange; simpl; lia). f_equal. unfold int_lit, INT32_MIN, INT32_MAX.
    by rewrite (proj2 (Z.leb_le _ _)), (proj2 (Z.leb_le _ _)) by lia.
  - apply means_cast; [apply means_num |]. intros k x [= <-]. simpl. apply Z.mod_small. lia.
Qed.

Lemma value_srange64 t v : (forall w, t = SInt w -> width_ok w = true) -> value_of t v = true -> in_srange 64 v.
Proof using Type.
  intros Hw H. unfold in_srange. simpl Z.sub. destruct t as [w | | |].
  - apply value_int in H. destruct (width_ok_cases w (Hw w eq_refl)) as [-> | [-> | ->]]; unfold in_srange in H; simpl in *; lia.
  - apply value_bool in H. lia.
  - simpl in H. apply andb_true_iff in H as [?%Z.leb_le ?%Z.leb_le]. lia.
  - simpl in H. apply andb_true_iff in H as [?%Z.leb_le ?%Z.leb_le]. unfold INT32_MIN, INT32_MAX in *. lia.
Qed.

Lemma scalar_width t w : scalar_of (sem st) t = Some (SInt w) -> width_ok w = true.
Proof using Type.
  unfold scalar_of. destruct (desc_at (sem st) t) as [[] |]; try done.
  destruct (width_ok width) eqn:E; [| done]. by intros [= <-].
Qed.

Lemma const_ce_ok sy l t ty : s_ty sy = Some t -> scalar_of (sem st) t = Some ty -> value_of ty (s_ival sy) = true ->
  yields_operand (const_ce sy l) ty (fun _ => Ok (s_ival sy)).
Proof using Type.
  intros Ht Hs Hv. destruct (scalar_desc t ty Hs) as (d & Hd & Ds & _).
  assert (in_srange 64 (s_ival sy)) as H64.
  { apply (value_srange64 ty); [| done]. intros w ->. by eapply scalar_width. }
  unfold yields_operand, const_ce. rewrite Ht. rewrite (bind_ok _ _ _ _ _ (in_sem_pure _ _ (desc_of_ok _ _ _ Hd))).
  destruct ty as [w | | | u]; simpl in Ds.
  - destruct Ds as [n ->]. eexists. split; [reflexivity |]. split; [done |].
    exists (CNum (s_ival sy)). split; [by apply paren_int | apply means_num].
  - subst d. eexists. split; [reflexivity |]. split; [done |]. eexists. apply byte_const. apply value_bool in Hv. lia.
  - subst d. eexists. split; [reflexivity |]. split; [done |]. eexists. apply byte_const.
    simpl in Hv. apply andb_true_iff in Hv as [?%Z.leb_le ?%Z.leb_le]. lia.
  - destruct Ds as (? & ? & ->). eexists. split; [reflexivity |]. split; [done |].
    exists (CNum (s_ival sy)). split; [by apply paren_int | apply means_num].
Qed.

Lemma var_ce_ok sy t ty v n i : lookup_in (syms (sem st)) (scopes (sem st)) n = Some i ->
  syms (sem st) !! i = Some sy -> s_kind sy = SY_VAR -> s_ty sy = Some t -> scalar_of (sem st) t = Some ty ->
  (forall k, sigma k i = Some (v k)) -> yields_operand (var_ce sy) ty (fun k => Ok (v k)).
Proof using Hagree Hident.
  intros Hl Hi Hk Ht Hs Hv. assert (scalar_var (sem st) n i sy ty) as Hsv by (repeat split; eauto).
  pose proof (Hident n i sy ty Hsv) as Hid.
  assert (forall k, rho k (s_is_varparam sy) (s_cname sy) = Some (v k)) as Hr.
  { intros k. destruct (Hagree k n i sy ty Hsv) as [_ E]. by rewrite E, Hv. }
  unfold yields_operand, var_ce. rewrite Ht.
  destruct (s_is_varparam sy); (eexists; split; [reflexivity |]; split; [done |]; eexists; split; [| by apply means_obj]).
  - cbn [mk ce_s]. as_text ("(" +:+ ("*" +:+ s_cname sy) +:+ ")"). by apply p_paren, f_unary, u_star.
  - by apply p_obj.
Qed.

Lemma lookup_pure_ok n o : lookup_in (syms (sem st)) (scopes (sem st)) n = o ->
  match o with
  | Some i => forall s, syms (sem st) !! i = Some s -> in_sem (lookup n) st = Ok (Some (i, s), st)
  | None => in_sem (lookup n) st = Ok (None, st)
  end.
Proof using Type.
  intros H. destruct o as [i |]; [intros s Hs |]; apply in_sem_pure; unfold lookup;
    rewrite (bind_ok get _ (sem st) (sem st) (sem st) eq_refl), H; [| done].
  unfold deref_sym, get_sym, bind, ret. by rewrite Hs.
Qed.

Lemma typed_some ty v t r : typed ty v = Some (t, r) -> t = ty /\ r = Ok v /\ value_of ty v = true.
Proof using Type. unfold typed. destruct (value_of ty v); [| done]. by intros [= <- <-]. Qed.

Lemma gen_name_ok l n t : name_type (sem st) n = Some t -> (forall k, is_Some (name_value (sem st) (sigma k) n)) ->
  yields_operand (gen_name l n) t (fun k => result (name_value (sem st) (sigma k) n)) /\
  wells t (fun k => result (name_value (sem st) (sigma k) n)).
Proof using Hagree Hident.
  unfold name_value, name_type. destruct (lookup_in (syms (sem st)) (scopes (sem st)) n) as [i |] eqn:El; [| done].
  destruct (syms (sem st) !! i) as [sy |] eqn:Ei; [| done]. destruct (s_ty sy) as [u |] eqn:Eu; [| done].
  destruct (scalar_of (sem st) u) as [ty |] eqn:Es; [| done]. intros H Hk.
  assert (forall w, ty = SInt w -> width_ok w = true) as Hw by (intros w ->; by eapply scalar_width).
  unfold yields_operand, gen_name. rewrite (bind_ok _ _ _ _ _ (lookup_pure_ok n _ El sy Ei)).
  destruct (s_kind sy) eqn:Ek; try discriminate H.
  - destruct (typed ty (s_ival sy)) as [[t' r] |] eqn:Et; [| done]. injection H as <-.
    apply typed_some in Et as (-> & -> & Hv). split; [by eapply const_ce_ok |]. split; [done | by intros k v [= <-]].
  - injection H as <-.
    assert (forall k, exists v, sigma k i = Some v /\ value_of ty v = true) as Hv.
    { intros k. destruct (Hk k) as [[t' r] E]. destruct (sigma k i) as [v |]; [| done].
      apply typed_some in E as (-> & -> & Hv). eauto. }
    assert (forall k, Ok (default 0 (sigma k i)) =
      result match sigma k i with Some v => typed ty v | None => None end) as Hr.
    { intros k. destruct (Hv k) as (v & -> & Hv'). unfold typed. by rewrite Hv'. }
    split.
    + destruct (var_ce_ok sy u ty (fun k => default 0 (sigma k i)) n i El Ei Ek Eu Es) as (ce & E & Ho).
      { intros k. by destruct (Hv k) as (v & -> & _). }
      exists ce. split; [done |]. by eapply operand_ext.
    + split; [done |]. intros k v. rewrite <- Hr. intros [= <-]. by destruct (Hv k) as (v & -> & Hv').
Qed.

Lemma gen_ord_ok l a ta r t : operand a ta r -> wells ta r -> builtin_type "ord" ta = Some t ->
  yields_operand (gen_ord l a) t (fun k => result (builtin_value "ord" ta (r k))).
Proof using Hbasic.
  intros Ha [Wa Va] H. destruct (operand_desc _ _ _ Ha) as (da & Ea & Da & _).
  destruct (operand_unary _ _ _ Ha) as (ca & Ua & Ma).
  unfold yields_operand, gen_ord. rewrite (bind_ok _ _ _ _ _ Ea). unfold builtin_type, builtin_value in *. cbn [String.eqb] in *.
  change (String.eqb "ord" "ord") with true in *. cbn iota in *.
  assert (ta = SBool \/ ta = SChar -> exists ce,
    ret (mk ("((int16_t)(uint8_t)" +:+ ce_s a +:+ ")") t_integer false) st = Ok (ce, st) /\ operand ce (SInt 16) r) as Hbyte.
  { intros Hta. eexists. split; [reflexivity |]. split; [apply scalar_integer |].
    exists (CUn (Cast (CInt 16)) (CUn (Cast CByte) ca)). split.
    - cbn [mk ce_s]. as_text ("(" +:+ ("(" +:+ cty_name (CInt 16) +:+ ")" +:+ ("(" +:+ cty_name CByte +:+ ")" +:+ ce_s a)) +:+ ")").
      by apply p_paren, f_unary, u_cast, u_cast.
    - assert (forall k x, r k = Ok x -> 0 <= x <= 255) as Hx.
      { intros k x Hx%Va. destruct Hta as [-> | ->]; [apply value_bool in Hx; lia |].
        simpl in Hx. apply andb_true_iff in Hx as [?%Z.leb_le ?%Z.leb_le]. lia. }
      apply means_cast; [apply means_cast; [done |] |]; intros k x Hr%Hx; simpl;
        [apply Z.mod_small; lia | apply swrap_small; [lia |]; unfold in_srange; simpl; lia]. }
  destruct ta as [w | | | u]; simpl in Da.
  - destruct Da as [n ->]. cbn [bits_of]. destruct (Z.eqb_spec w 64) as [| H64]; [done |]. injection H as <-.
    pose proof (proj2 (width_op w (Wa w eq_refl))). rewrite (proj2 (Z.eqb_neq w 0)) by lia.
    eexists. split; [reflexivity |]. split; [apply Ha |]. exists ca. split; [| done]. by apply p_paren, f_unary.
  - subst da. injection H as <-. cbn. apply Hbyte. by left.
  - subst da. injection H as <-. cbn. apply Hbyte. by right.
  - destruct Da as (lo & hi & ->). injection H as <-. cbn. eexists. split; [reflexivity |].
    split; [apply scalar_int32 |]. exists (CUn (Cast (CInt 32)) ca). split.
    + cbn [mk ce_s]. as_text ("(" +:+ ("(" +:+ cty_name (CInt 32) +:+ ")" +:+ ce_s a) +:+ ")").
      by apply p_paren, f_unary, u_cast.
    + apply means_cast; [done |]. intros k x Hx%Va. simpl in *. apply andb_true_iff in Hx as [?%Z.leb_le ?%Z.leb_le].
      unfold INT32_MIN, INT32_MAX in *. apply swrap_small; [lia |]. unfold in_srange. simpl. lia.
Qed.

Lemma gen_chr_ok l a ta r t : operand a ta r -> builtin_type "chr" ta = Some t ->
  yields_operand (gen_chr l a) t (fun k => result (builtin_value "chr" ta (r k))).
Proof using Hbasic.
  intros Ha H. destruct (operand_desc _ _ _ Ha) as (da & Ea & Da & _).
  destruct (operand_unary _ _ _ Ha) as (ca & Ua & Ma).
  unfold yields_operand, gen_chr. rewrite (bind_ok _ _ _ _ _ Ea). cbn in H.
  destruct ta; try discriminate H. injection H as <-. destruct Da as [n ->]. cbn [d_is_int].
  eexists. split; [reflexivity |]. split; [apply scalar_char |]. exists (CUn (Cast CByte) ca). split.
  - cbn [mk ce_s]. as_text ("(" +:+ ("(" +:+ cty_name CByte +:+ ")" +:+ ce_s a) +:+ ")").
    by apply p_paren, f_unary, u_cast.
  - by apply means_un.
Qed.

Lemma gen_builtin_ok gen l n a ta r t : yields_operand (gen a) ta r -> wells ta r ->
  builtin_type n ta = Some t -> yields_operand (gen_builtin gen l n [a]) t (fun k => result (builtin_value n ta (r k))).
Proof using Hbasic.
  intros (ce & E & Ha) W H. unfold gen_builtin.
  destruct (String.eqb_spec n "ord") as [-> | H1].
  - destruct (gen_ord_ok l _ _ _ _ Ha W H) as (ce' & E' & Ho). exists ce'. split; [| done].
    by rewrite (bind_ok _ _ _ _ _ E).
  - destruct (String.eqb_spec n "chr") as [-> | H2].
    + destruct (gen_chr_ok l _ _ _ _ Ha H) as (ce' & E' & Ho). exists ce'. split; [| done].
      by rewrite (bind_ok _ _ _ _ _ E).
    + unfold builtin_type, builtin_value in H. apply String.eqb_neq in H1, H2. by rewrite H1, H2 in H.
Qed.

Lemma int_const_ok v l : fits64 v = true ->
  yields_operand (gen_expr (E_INT l v)) (int_sty v) (fun _ => Ok v) /\ wells (int_sty v) (fun _ => Ok v).
Proof using Hbasic.
  intros [H1 H2]%fits64_iff. unfold INT64_MIN, INT64_MAX in *. split.
  - eexists. split; [reflexivity |]. split.
    + cbn [mk ce_ty]. unfold int_type_for, int_sty.
      destruct (_ && _); [apply scalar_integer |]. destruct (_ && _); [apply scalar_int32 | apply scalar_int64].
    + exists (CNum v). split; [apply paren_int; unfold in_srange; simpl; lia | apply means_num].
  - unfold int_sty. destruct ((-32767 <=? v) && (v <=? 32767)) eqn:E1; [| destruct ((INT32_MIN <=? v) && (v <=? INT32_MAX)) eqn:E2];
      (split; [by intros ? [= <-] |]); intros k x [= <-]; apply value_int; unfold in_srange; simpl; try lia.
    apply andb_true_iff in E2 as [?%Z.leb_le ?%Z.leb_le]. unfold INT32_MIN, INT32_MAX in *. lia.
Qed.

(** A composite operand is what its generator yields, when its results agree. *)
Lemma yields_ext m t r r' : yields_operand m t r -> (forall k, r k = r' k) -> yields_operand m t r'.
Proof using Type. intros (ce & E & Ho) Hr. exists ce. split; [done |]. by eapply operand_ext. Qed.

Lemma wells_ext t r r' : (forall w, t = SInt w -> width_ok w = true) -> (forall k, well t (r k)) ->
  (forall k, r k = r' k) -> wells t r'.
Proof using Type. intros Hw Hr E. split; [done |]. intros k v. rewrite <- E. apply Hr. Qed.

Lemma wells_at t r k : wells t r -> well t (r k).
Proof using Type. intros [Hw Hv]. split; eauto. Qed.

Lemma peval_split a ta : ptype (sem st) a = Some ta -> (forall k, is_Some (peval (sem st) (sigma k) a)) ->
  forall k, peval (sem st) (sigma k) a = Some (ta, result (peval (sem st) (sigma k) a)).
Proof using Type.
  intros Ht Hk k. destruct (Hk k) as [[t r] E]. rewrite E. apply peval_ptype in E. rewrite E in Ht. by injection Ht as ->.
Qed.

Lemma bin_width op l a b t : (forall w, a = SInt w -> width_ok w = true) -> (forall w, b = SInt w -> width_ok w = true) ->
  bin_type op l a b = Some t -> forall w, t = SInt w -> width_ok w = true.
Proof using Type.
  unfold bin_type. intros Ha Hb H. destruct (bin_value op l a b (Ok 0) (Ok 0)) as [[t' q] |] eqn:E; [| done].
  injection H as <-.
  destruct op; try discriminate E; cbn [bin_value] in E;
    try (destruct (compare_key _ a b); [| discriminate E]; injection E as <- _; discriminate);
    destruct a; try discriminate E; destruct b; try discriminate E;
    try (destruct (line_ok l); [| discriminate E]); injection E as <- _; try discriminate;
    intros ? [= <-]; apply wider_cases; auto.
Qed.

Lemma un_width op a t : (forall w, a = SInt w -> width_ok w = true) -> un_type op a = Some t ->
  forall w, t = SInt w -> width_ok w = true.
Proof using Type.
  unfold un_type. intros Ha H. destruct op; try discriminate H; destruct a; try discriminate H; injection H as <-; auto.
Qed.

Lemma builtin_width n a t : (forall w, a = SInt w -> width_ok w = true) -> builtin_type n a = Some t ->
  forall w, t = SInt w -> width_ok w = true.
Proof using Type.
  unfold builtin_type, builtin_value. intros Ha H.
  destruct (String.eqb n "ord"); [| destruct (String.eqb n "chr"); [| done]]; destruct a as [v | | |]; try discriminate H;
    try (destruct (v =? 64); [discriminate H |]); injection H as <-; try (by intros ? [= <-]); auto.
Qed.

Lemma gen_expr_ok e : forall t, ptype (sem st) e = Some t -> (forall k, is_Some (peval (sem st) (sigma k) e)) ->
  yields_operand (gen_expr e) t (fun k => result (peval (sem st) (sigma k) e)) /\
  wells t (fun k => result (peval (sem st) (sigma k) e)).
Proof using Hbasic Hagree Hident.
  induction e as [l v | | | l v | l n | l n args IH | | | | l op a b IHa IHb | l op a IH |] using Expr_nested_ind;
    intros t Ht Hk; try discriminate Ht; cbn [ptype] in Ht.
  - cbn [peval]. destruct (fits64 v) eqn:E; [| done]. injection Ht as <-. by apply int_const_ok.
  - cbn [peval]. destruct (typed SChar v) as [[t' r] |] eqn:Et; [| done]. injection Ht as <-.
    apply typed_some in Et as (-> & -> & Hv). split; [| split; [done | by intros k ? [= <-]]].
    eexists. split; [reflexivity |]. split; [apply scalar_char |]. eexists. apply byte_const.
    simpl in Hv. apply andb_true_iff in Hv as [?%Z.leb_le ?%Z.leb_le]. lia.
  - by apply gen_name_ok.
  - destruct args as [|a [|]]; try discriminate Ht. cbn [peval] in *.
    destruct (lookup_in (syms (sem st)) (scopes (sem st)) n) eqn:El; [done |].
    destruct (ptype (sem st) a) as [ta |] eqn:Ea; [| done]. apply Forall_cons in IH as [IH _].
    assert (forall k, is_Some (peval (sem st) (sigma k) a)) as Hka.
    { intros k. specialize (Hk k). destruct (peval (sem st) (sigma k) a); [done | by destruct Hk]. }
    destruct (IH ta Ea Hka) as [Ha Wa]. pose proof (peval_split a ta Ea Hka) as Hs.
    assert (forall k, result (builtin_value n ta (result (peval (sem st) (sigma k) a))) =
      result (match peval (sem st) (sigma k) a with Some (t, r) => builtin_value n t r | None => None end)) as E
      by (intros k; by rewrite (Hs k)).
    split.
    + refine (yields_ext _ _ _ _ _ E).
      destruct (gen_builtin_ok gen_expr l n a ta _ t Ha Wa Ht) as (ce & Ec & Ho). exists ce. split; [| done].
      cbn [gen_expr]. by rewrite (bind_ok _ _ _ _ _ (lookup_pure_ok n _ El)).
    + apply (wells_ext _ _ _ (builtin_width n ta t (proj1 Wa) Ht)) with (2 := E).
      intros k. apply (builtin_well n ta (result (peval (sem st) (sigma k) a))); [exact (wells_at _ _ k Wa) |].
      by rewrite builtin_value_split, Ht.
  - destruct (ptype (sem st) a) as [ta |] eqn:Ea; [| done]. destruct (ptype (sem st) b) as [tb |] eqn:Eb; [| done].
    cbn [peval] in *.
    assert (forall k, is_Some (peval (sem st) (sigma k) a) /\ is_Some (peval (sem st) (sigma k) b)) as Hkk.
    { intros k. specialize (Hk k). destruct (peval (sem st) (sigma k) a) as [[] |], (peval (sem st) (sigma k) b); eauto; by destruct Hk. }
    pose proof (fun k => proj1 (Hkk k)) as Hka. pose proof (fun k => proj2 (Hkk k)) as Hkb.
    destruct (IHa ta eq_refl Hka) as [(ca & Ga & Oa) Wa]. destruct (IHb tb eq_refl Hkb) as [(cb & Gb & Ob) Wb].
    pose proof (peval_split a ta Ea Hka) as Hsa. pose proof (peval_split b tb Eb Hkb) as Hsb.
    assert (forall k, result (bin_value op l ta tb (result (peval (sem st) (sigma k) a)) (result (peval (sem st) (sigma k) b))) =
      result (match peval (sem st) (sigma k) a, peval (sem st) (sigma k) b with
              | Some (t, r), Some (u, s) => bin_value op l t u r s | _, _ => None end)) as E
      by (intros k; by rewrite (Hsa k), (Hsb k)).
    split.
    + refine (yields_ext _ _ _ _ _ E).
      destruct (gen_binary_ok op l ca cb ta tb _ _ t Oa Ob Wa Wb Ht) as (ce & Ec & Ho). exists ce. split; [| done].
      cbn [gen_expr]. by rewrite (bind_ok _ _ _ _ _ Ga), (bind_ok _ _ _ _ _ Gb).
    + apply (wells_ext _ _ _ (bin_width op l ta tb t (proj1 Wa) (proj1 Wb) Ht)) with (2 := E).
      intros k. eapply bin_well; [exact (wells_at _ _ k Wa) | exact (wells_at _ _ k Wb) |].
      by rewrite bin_value_split, Ht.
  - destruct (ptype (sem st) a) as [ta |] eqn:Ea; [| done]. cbn [peval] in *.
    assert (forall k, is_Some (peval (sem st) (sigma k) a)) as Hka.
    { intros k. specialize (Hk k). destruct (peval (sem st) (sigma k) a); [done | by destruct Hk]. }
    destruct (IH ta eq_refl Hka) as [(ca & Ga & Oa) Wa]. pose proof (peval_split a ta Ea Hka) as Hs.
    assert (forall k, result (un_value op ta (result (peval (sem st) (sigma k) a))) =
      result (match peval (sem st) (sigma k) a with Some (t, r) => un_value op t r | None => None end)) as E
      by (intros k; by rewrite (Hs k)).
    split.
    + refine (yields_ext _ _ _ _ _ E).
      destruct (gen_unary_ok op l ca ta _ t Oa Wa Ht) as (ce & Ec & Ho). exists ce. split; [| done].
      cbn [gen_expr]. by rewrite (bind_ok _ _ _ _ _ Ga).
    + apply (wells_ext _ _ _ (un_width op ta t (proj1 Wa) Ht)) with (2 := E).
      intros k. eapply un_well; [exact (wells_at _ _ k Wa) |]. by rewrite un_value_split, Ht.
Qed.
End Translation.

(** C3: the C text of an expression means what the expression means. For every
    expression that has a type and a value over integers, characters, BOOLEANs
    and enumerations (constants, variables, the operators, ORD and CHR), the
    emitter succeeds and changes nothing; its text is a C primary expression of
    that type; C evaluates it, and whatever order C evaluates operands in, the
    result is that value, or the program stops where the Pascal expression stops
    (division by zero). *)
Theorem expressions_preserved st sigma rho e t r (Hb : basic (sem st)) (Ha : agree (sem st) sigma rho)
    (He : peval (sem st) sigma e = Some (t, r)) :
  exists ce c, gen_expr e st = Ok (ce, st) /\ scalar_of (sem st) (ce_ty ce) = Some t /\ Prim (ce_s ce) c /\
    (exists r', ceval rho c r') /\ (forall r', ceval rho c r' -> agrees r r') /\
    (forall v, r = Ok v -> value_of t v = true).
Proof.
  assert (idents (sem st)) as Hid by (intros n i s ty H; by apply (Ha n i s ty)).
  destruct (gen_expr_ok (K := unit) st (fun _ => sigma) (fun _ => rho) Hb (fun _ => Ha) Hid e t (peval_ptype _ _ _ _ _ He)
    (fun _ => mk_is_Some _ _ He)) as [(ce & E & Hs & c & Hp & Hm) [_ Hv]].
  destruct (Hm tt) as [Hm1 Hm2]. specialize (Hv tt). rewrite He in Hm2, Hv. by exists ce, c.
Qed.

(** ** Example *)

Definition example_var : Sym := set_var false "v_x" (set_ty t_integer (new_sym "x" SY_VAR no_loc)).
Definition example_sem : Sem :=
  match define example_var init_state with Ok (_, s) => s | Err _ => empty_sem end.
Definition example_emit : Emit := mkEmit example_sem "" "" 0 None None None false 0.
Definition example_sigma (i : symid) : option Z := if (i =? length (syms init_state))%nat then Some 5 else None.
Definition example_rho (star : bool) (x : string) : option Z :=
  if negb star && String.eqb x "v_x" then Some 5 else None.

Definition loc3 : Loc := mkLoc (Some "p.pas") 3.
(** [x * 2 DIV (x - 5) > ord('A')]: the division is by zero. *)
Definition example_stops : Expr :=
  E_BIN loc3 OP_GT
    (E_BIN loc3 OP_IDIV (E_BIN loc3 OP_MUL (E_NAME loc3 "x") (E_INT loc3 2)) (E_BIN loc3 OP_SUB (E_NAME loc3 "x") (E_INT loc3 5)))
    (E_CALL loc3 "ord" [E_CHAR loc3 65]).
(** [-x * 30000 + 7]: the product wraps at 16 bits. *)
Definition example_wraps : Expr :=
  E_BIN loc3 OP_ADD (E_BIN loc3 OP_MUL (E_UN loc3 OP_NEG (E_NAME loc3 "x")) (E_INT loc3 30000)) (E_INT loc3 7).

Lemma example_basic : basic (sem example_emit).
Proof.
  intros i d H. unfold desc_at. rewrite <- list_lookup_fmap.
  assert (t_desc <$> types (sem example_emit) = predefs) as -> by (vm_compute; reflexivity). done.
Qed.

Lemma example_agree : agree (sem example_emit) example_sigma example_rho.
Proof.
  intros n i s ty (_ & Hi & Hk & _).
  assert (syms (sem example_emit) = syms init_state ++ [example_var]) as E by (vm_compute; reflexivity).
  rewrite E in Hi. apply SemProps.Interning.snoc_lookup in Hi as [Hi | [-> <-]].
  - assert (forallb (fun s => negb (bool_decide (s_kind s = SY_VAR))) (syms init_state) = true) as Hf
      by (vm_compute; reflexivity).
    rewrite forallb_forall in Hf. apply list_elem_of_lookup_2, list_elem_of_In, Hf in Hi.
    rewrite (bool_decide_true _ Hk) in Hi. discriminate Hi.
  - unfold example_sigma. rewrite Nat.eqb_refl. split; reflexivity.
Qed.

Lemma expressions_preserved_witness :
  (exists ce c, gen_expr example_wraps example_emit = Ok (ce, example_emit) /\
     ce_s ce = "pas_add16((int16_t)pas_mul16((int16_t)pas_neg16((int16_t)v_x), (int16_t)(30000)), (int16_t)(7))" /\
     Prim (ce_s ce) c /\ forall r', ceval example_rho c r' -> r' = Ok (-18921)) /\
  (exists ce c, gen_expr example_stops example_emit = Ok (ce, example_emit) /\ Prim (ce_s ce) c /\
     forall r', ceval example_rho c r' -> exists e, r' = Err e).
Proof.
  assert (peval (sem example_emit) example_sigma example_wraps = Some (SInt 16, Ok (-18921))) as E1 by (vm_compute; reflexivity).
  assert (exists e, peval (sem example_emit) example_sigma example_stops = Some (SBool, Err e)) as [e E2]
    by (eexists; vm_compute; reflexivity).
  destruct (expressions_preserved _ _ _ _ _ _ example_basic example_agree E1) as (ce & c & G & _ & P & _ & V & _).
  destruct (expressions_preserved _ _ _ _ _ _ example_basic example_agree E2) as (ce' & c' & G' & _ & P' & _ & V' & _).
  split; [exists ce, c | exists ce', c'].
  - split; [exact G |]. split; [| split; [exact P | exact V]]. vm_compute in G. by injection G as <-.
  - split; [exact G' |]. split; [exact P' |]. intros r' Hr'. destruct (V' r' Hr') as (_ & e' & -> & _). by exists e'.
Defined.
