(* ===== verification/Stmts.v ===== *)
(** Statements: the C statements the emitter writes, their grammar and what they
    do, and what the Pascal statements over scalar variables do. Both work on a
    memory of addresses, so variables that share an address (VAR parameters and
    their arguments) are the same object on both sides. *)

From Stdlib Require Import ZArith Ascii String Lia.
From stdpp Require Import base list strings gmap.
From S2P Require Import Prelude Ast Lex Sem Emit CPrelude EmitText Preserve.
#[local] Open Scope Z_scope.

(** * Memory *)

Abbreviation addr := nat.
Abbreviation mem := (gmap addr Z).

(** * C statements *)

Module C.

(** A [while] is a loop without a step. *)
Inductive cstmt :=
  | CAssign (star : bool) (x : string) (e : cexp)
  | CDecl (t : cty) (x : string) (e : cexp)
  | CBlock (ss : list cstmt)
  | CIf (c : cexp) (th el : list cstmt)
  | CLoop (c : cexp) (step body : list cstmt)
  | CBreak
  | CContinue
  | CReturn (e : option cexp).

(** ** Grammar *)

Definition is_blank (c : ascii) : bool := ceq c " " || ceq c "010".
Definition blank (s : string) : bool := forallb is_blank (chars s).

Inductive TypeName : string -> cty -> Prop :=
  | t_fixed t : TypeName (cty_name t) t
  | t_int : TypeName "int" (CInt 32).

Definition relation (op : Op) : bool :=
  match op with OP_EQ | OP_NE | OP_LT | OP_LE | OP_GT | OP_GE => true | _ => false end.

(** A relation of unary expressions binds tighter than [&&]. *)
Inductive Cond : string -> cexp -> Prop :=
  | c_full s c : Full s c -> Cond s c
  | c_and s c op r d r' d' : Unary s c -> relation op = true -> Unary r d -> Unary r' d' ->
      Cond (infix s "&&" (infix r (op_text op) r')) (CAndAnd c (CBin (Infix op) d d')).

(** An assignment expression; its right side may be a relation without parentheses. *)
Inductive Assign : string -> cstmt -> Prop :=
  | a_assign l b x s c : Prim l (CObj b x) -> Full s c -> Assign (l +:+ " = " +:+ s) (CAssign b x c).

(** One statement, with the white space around it, and a sequence of them. *)
Inductive Item : string -> cstmt -> Prop :=
  | i_blank w s c w' : blank w = true -> blank w' = true -> Item s c -> Item (w +:+ s +:+ w') c
  | i_assign s c : Assign s c -> Item (s +:+ ";") c
  | i_decl n t x s c : TypeName n t -> c_ident x = true -> Full s c ->
      Item (n +:+ " " +:+ x +:+ " = " +:+ s +:+ ";") (CDecl t x c)
  | i_block s cs : Items s cs -> Item ("{" +:+ s +:+ "}") (CBlock cs)
  | i_if s c r th : Full s c -> Items r th -> Item ("if (" +:+ s +:+ ") {" +:+ r +:+ "}") (CIf c th [])
  | i_if_else s c r th q el : Full s c -> Items r th -> Items q el ->
      Item ("if (" +:+ s +:+ ") {" +:+ r +:+ "} else {" +:+ q +:+ "}") (CIf c th el)
  | i_while s c r b : Full s c -> Items r b -> Item ("while (" +:+ s +:+ ") {" +:+ r +:+ "}") (CLoop c [] b)
  | i_for s c p a p' a' r b : Cond s c -> Assign p a -> Assign p' a' -> Items r b ->
      Item ("for (; " +:+ s +:+ "; " +:+ p +:+ ", " +:+ p' +:+ ") {" +:+ r +:+ "}") (CLoop c [a; a'] b)
  | i_break : Item "break;" CBreak
  | i_continue : Item "continue;" CContinue
  | i_return : Item "return;" (CReturn None)
  | i_return_value s c : Full s c -> Item ("return " +:+ s +:+ ";") (CReturn (Some c))
with Items : string -> list cstmt -> Prop :=
  | i_nil w : blank w = true -> Items w []
  | i_cons s c r cs : Item s c -> Items r cs -> Items (s +:+ r) (c :: cs).

(** ** Execution *)

(** What an identifier in scope names, or what it points to: the address of an
    object and its type. *)
Definition cenv : Type := bool -> string -> option (addr * cty).

Definition declare (E : cenv) (x : string) (a : addr) (t : cty) : cenv :=
  fun star y => if String.eqb y x then (if star then None else Some (a, t)) else E star y.

Definition values (E : cenv) (m : mem) (star : bool) (x : string) : option Z :=
  match E star x with Some (a, _) => m !! a | None => None end.

Inductive cout := CNormal | CBroke | CContinued | CReturned (v : option Z) | CStopped (e : err).

#[export] Instance cout_eq_dec : EqDecision cout.
Proof. solve_decision. Defined.

(** After this outcome of its body a loop goes on with its step. *)
Definition goes_on (o : cout) : bool := match o with CNormal | CContinued => true | _ => false end.
(** What a loop's outcome is when its body's outcome ends it. *)
Definition loop_exit (o : cout) : cout := match o with CBroke => CNormal | _ => o end.

(** A store converts the value to the object's type. A declared object gets an
    address that is not in use; its scope includes its initializer and ends with
    the block. *)
Inductive cexec : cenv -> cstmt -> mem -> cout -> mem -> Prop :=
  | x_assign E b x e m v a t : ceval (values E m) e (Ok v) -> E b x = Some (a, t) -> is_Some (m !! a) ->
      cexec E (CAssign b x e) m CNormal (<[a := cast_eval t v]> m)
  | x_assign_stop E b x e m err : ceval (values E m) e (Err err) -> cexec E (CAssign b x e) m (CStopped err) m
  | x_block E ss m o m' : cexecs E ss m o m' -> cexec E (CBlock ss) m o m'
  | x_if E c th el m v o m' : ceval (values E m) c (Ok v) -> cexecs E (if v =? 0 then el else th) m o m' ->
      cexec E (CIf c th el) m o m'
  | x_if_stop E c th el m err : ceval (values E m) c (Err err) -> cexec E (CIf c th el) m (CStopped err) m
  | x_loop_end E c step b m : ceval (values E m) c (Ok 0) -> cexec E (CLoop c step b) m CNormal m
  | x_loop_stop E c step b m err : ceval (values E m) c (Err err) -> cexec E (CLoop c step b) m (CStopped err) m
  | x_loop_exit E c step b m v o m' : ceval (values E m) c (Ok v) -> v <> 0 -> cexecs E b m o m' ->
      goes_on o = false -> cexec E (CLoop c step b) m (loop_exit o) m'
  | x_loop_step_stop E c step b m v o m' err m'' : ceval (values E m) c (Ok v) -> v <> 0 -> cexecs E b m o m' ->
      goes_on o = true -> cexecs E step m' (CStopped err) m'' -> cexec E (CLoop c step b) m (CStopped err) m''
  | x_loop_again E c step b m v o m' m1 o2 m2 : ceval (values E m) c (Ok v) -> v <> 0 -> cexecs E b m o m' ->
      goes_on o = true -> cexecs E step m' CNormal m1 -> cexec E (CLoop c step b) m1 o2 m2 ->
      cexec E (CLoop c step b) m o2 m2
  | x_break E m : cexec E CBreak m CBroke m
  | x_continue E m : cexec E CContinue m CContinued m
  | x_return E m : cexec E (CReturn None) m (CReturned None) m
  | x_return_value E e m v : ceval (values E m) e (Ok v) -> cexec E (CReturn (Some e)) m (CReturned (Some v)) m
  | x_return_stop E e m err : ceval (values E m) e (Err err) -> cexec E (CReturn (Some e)) m (CStopped err) m
with cexecs : cenv -> list cstmt -> mem -> cout -> mem -> Prop :=
  | xs_nil E m : cexecs E [] m CNormal m
  | xs_decl E t x e cs m a v o m' : m !! a = None -> ceval (values (declare E x a t) m) e (Ok v) ->
      cexecs (declare E x a t) cs (<[a := cast_eval t v]> m) o m' -> cexecs E (CDecl t x e :: cs) m o m'
  | xs_decl_stop E t x e cs m a err : m !! a = None -> ceval (values (declare E x a t) m) e (Err err) ->
      cexecs E (CDecl t x e :: cs) m (CStopped err) m
  | xs_cons E c cs m m1 o m2 : cexec E c m CNormal m1 -> cexecs E cs m1 o m2 -> cexecs E (c :: cs) m o m2
  | xs_exit E c cs m o m1 : cexec E c m o m1 -> o <> CNormal -> cexecs E (c :: cs) m o m1.

End C.

(** * Pascal statements *)

(** The type of an assignment's left side decides how the value is stored. *)
Definition assign_conv (to from : sty) : option (Z -> Z) :=
  match to, from with
  | SInt w, (SInt _ | SEnum _) => Some (swrap w)
  | SBool, SBool | SChar, SChar => Some id
  | SEnum t, SEnum u => if bool_decide (t = u) then Some id else None
  | _, _ => None
  end.

Inductive outcome := ONormal | OBroke | OCycled | OReturned | OStopped (e : err) | OStuck.

#[export] Instance outcome_eq_dec : EqDecision outcome.
Proof. solve_decision. Defined.

Section Pascal.
(** The symbols in scope, the function whose body this is, whether it is the
    program's body, and where the variables and the function's result are. The
    limit of a FOR is evaluated before its control variable gets its first value;
    [late] is the other order. *)
Variables (S : Sem) (F : option symid) (M : bool) (env : symid -> option addr) (late : bool).

Definition store_of (m : mem) (i : symid) : option Z := env i ≫= fun a => m !! a.

Definition expr_result (e : Expr) (m : mem) : option (res Z) := snd <$> peval S (store_of m) e.

Definition put (i : symid) (v : Z) (m : mem) : option mem :=
  match env i with Some a => Some (<[a := v]> m) | None => None end.

Definition type_of_sym (s : Sym) : option sty :=
  match s_ty s with Some t => scalar_of S t | None => None end.

(** The variable a name stands for: its type and its C object. *)
Definition var_named (n : string) : option (symid * sty * (bool * string)) :=
  match lookup_in (syms S) (scopes S) n with
  | Some i =>
      match syms S !! i with
      | Some s =>
          match type_of_sym s, s_kind s with
          | Some ty, SY_VAR => Some (i, ty, (s_is_varparam s, s_cname s))
          | _, _ => None
          end
      | None => None
      end
  | None => None
  end.

(** What the left side of an assignment names: a variable, or the result of the
    function whose body this is. *)
Definition target (e : Expr) : option (symid * sty * (bool * string)) :=
  match e with
  | E_NAME _ n =>
      match lookup_in (syms S) (scopes S) n with
      | Some i =>
          match syms S !! i with
          | Some s =>
              match s_kind s with
              | SY_ROUTINE =>
                  if bool_decide (F = Some i) then (fun ty => (i, ty, (false, "pres"))) <$> type_of_sym s else None
              | _ => var_named n
              end
          | None => None
          end
      | None => None
      end
  | _ => None
  end.

(** Continue after a statement that ended normally. *)
Definition then_do (r : option (outcome * mem)) (k : mem -> option (outcome * mem)) : option (outcome * mem) :=
  match r with
  | Some (ONormal, m) => k m
  | _ => r
  end.

(** A loop runs [body] while [test] holds; the body's outcome decides whether it
    goes on, through [step]. [None] when the fuel is not enough. *)
Fixpoint ploop (fuel : nat) (test : mem -> option (res bool)) (body : mem -> option (outcome * mem))
    (step : mem -> outcome * mem * bool) (m : mem) : option (outcome * mem) :=
  match fuel with
  | O => None
  | Datatypes.S fuel' =>
      match test m with
      | None => Some (OStuck, m)
      | Some (Err e) => Some (OStopped e, m)
      | Some (Ok false) => Some (ONormal, m)
      | Some (Ok true) =>
          match body m with
          | Some ((ONormal | OCycled), m1) =>
              match step m1 with
              | (ONormal, m2, true) => ploop fuel' test body step m2
              | (o, m2, _) => Some (o, m2)
              end
          | Some (OBroke, m1) => Some (ONormal, m1)
          | r => r
          end
      end
  end.

Definition truth (r : res Z) : res bool := let! v := r in Ok (negb (v =? 0)).

Definition cond_test (c : Expr) (m : mem) : option (res bool) := truth <$> expr_result c m.

Definition in_reach (down : bool) (v lim : Z) : bool := if down then lim <=? v else v <=? lim.

Definition for_test (i : symid) (down : bool) (lim : Z) (m : mem) : option (res bool) :=
  (fun v => Ok (in_reach down v lim)) <$> store_of m i.

(** The control variable steps past its last value too, wrapping at its width, and
    the loop ends there. *)
Definition for_step (i : symid) (w : Z) (down : bool) (lim : Z) (m : mem) : outcome * mem * bool :=
  match store_of m i with
  | Some v =>
      match put i (swrap w (v + ForLoop.dir down)) m with
      | Some m' => (ONormal, m', negb (v =? lim))
      | None => (OStuck, m, false)
      end
  | None => (OStuck, m, false)
  end.

Fixpoint pexec (fuel : nat) (s : Stmt) (m : mem) : option (outcome * mem) :=
  match s with
  | S_EMPTY _ => Some (ONormal, m)
  | S_BLOCK _ ss =>
      (fix go (ss : list Stmt) (m : mem) : option (outcome * mem) :=
         match ss with
         | [] => Some (ONormal, m)
         | s :: ss' => then_do (pexec fuel s m) (go ss')
         end) ss m
  | S_ASSIGN _ le re =>
      match target le, ptype S re, expr_result re m with
      | Some (i, ty, _), Some u, Some r =>
          match assign_conv ty u, r with
          | Some f, Ok v => match put i (f v) m with Some m' => Some (ONormal, m') | None => Some (OStuck, m) end
          | Some _, Err e => Some (OStopped e, m)
          | None, _ => Some (OStuck, m)
          end
      | _, _, _ => Some (OStuck, m)
      end
  | S_IF _ c th el =>
      match cond_test c m with
      | Some (Ok true) => pexec fuel th m
      | Some (Ok false) => match el with Some e => pexec fuel e m | None => Some (ONormal, m) end
      | Some (Err e) => Some (OStopped e, m)
      | None => Some (OStuck, m)
      end
  | S_WHILE _ c b => ploop fuel (cond_test c) (pexec fuel b) (fun m => (ONormal, m, true)) m
  | S_FOR _ var _ from to down b =>
      match var_named var, expr_result from m with
      | Some (i, SInt w, _), Some (Ok f) =>
          match put i (swrap w f) m with
          | Some m1 =>
              match expr_result to (if late then m1 else m) with
              | Some (Ok t) =>
                  ploop fuel (for_test i down (swrap w t)) (pexec fuel b) (for_step i w down (swrap w t)) m1
              | Some (Err e) => Some (OStopped e, m)
              | None => Some (OStuck, m)
              end
          | None => Some (OStuck, m)
          end
      | Some (_, SInt _, _), Some (Err e) => Some (OStopped e, m)
      | _, _ => Some (OStuck, m)
      end
  | S_RETURN _ => Some (OReturned, m)
  | S_BREAK _ => Some (OBroke, m)
  | S_CYCLE _ => Some (OCycled, m)
  | S_CALL _ _ => Some (OStuck, m)
  end.

Definition pexecs (fuel : nat) : list Stmt -> mem -> option (outcome * mem) :=
  fix go (ss : list Stmt) (m : mem) : option (outcome * mem) :=
    match ss with
    | [] => Some (ONormal, m)
    | s :: ss' => then_do (pexec fuel s m) (go ss')
    end.

(** ** Statements this covers *)

Fixpoint names_in (e : Expr) : list string :=
  match e with
  | E_NAME _ n => [n]
  | E_UN _ _ a => names_in a
  | E_BIN _ _ a b => names_in a ++ names_in b
  | E_CALL _ _ args =>
      (fix go (es : list Expr) : list string := match es with [] => [] | e :: es' => names_in e ++ go es' end) args
  | _ => []
  end.

(** [e] does not read the object of variable [i]; the limit of a FOR has to be such
    for the order of evaluation not to matter. *)
Definition reads_not (i : symid) (e : Expr) : bool :=
  forallb (fun n =>
    match lookup_in (syms S) (scopes S) n with
    | Some j => negb (bool_decide (env j = env i))
    | None => true
    end) (names_in e).

Definition is_int_sty (t : option sty) : bool := match t with Some (SInt _) => true | _ => false end.

(** The type of the result of the function whose body this is; a procedure and the
    program have none. *)
Definition result_type : option (option sty) :=
  match F with
  | None => Some None
  | Some f =>
      match syms S !! f with
      | Some s =>
          match s_ty s with
          | None => Some None
          | Some t => Some <$> scalar_of S t
          end
      | None => None
      end
  end.

Fixpoint stmt_ok (loop : bool) (s : Stmt) : bool :=
  match s with
  | S_EMPTY _ => true
  | S_BLOCK _ ss =>
      (fix go (ss : list Stmt) : bool := match ss with [] => true | s :: ss' => stmt_ok loop s && go ss' end) ss
  | S_ASSIGN _ le re =>
      match target le, ptype S re with
      | Some (_, ty, _), Some u => bool_decide (is_Some (assign_conv ty u))
      | _, _ => false
      end
  | S_IF _ c th el =>
      bool_decide (ptype S c = Some SBool) && stmt_ok loop th &&
      match el with Some e => stmt_ok loop e | None => true end
  | S_WHILE _ c b => bool_decide (ptype S c = Some SBool) && stmt_ok true b
  | S_FOR _ var _ from to _ b =>
      match var_named var, ptype S from with
      | Some (i, SInt w, _), Some u =>
          bool_decide (is_Some (assign_conv (SInt w) u)) && is_int_sty (ptype S to) && (late || reads_not i to)
          && stmt_ok true b
      | _, _ => false
      end
  | S_RETURN _ => M || bool_decide (is_Some result_type)
  | S_BREAK _ | S_CYCLE _ => loop
  | S_CALL _ _ => false
  end.

End Pascal.
