(* ===== verification/StmtSim.v ===== *)
(** Simulation of Pascal statements by C statements: a relation between the two
    that says which C statements do the work of which Pascal statement, and the
    proof that related statements have the same terminating runs. *)

From Stdlib Require Import ZArith Ascii String Lia.
From stdpp Require Import base list strings gmap.
From S2P Require Import Prelude Ast Lex Sem Emit CPrelude SemProps EmitText Preserve Stmts.
Import Stmts.C.
#[local] Open Scope Z_scope.

Definition cty_of (t : sty) : cty := match t with SInt w => CInt w | SEnum _ => CInt 32 | _ => CByte end.

Lemma cast_of_value t v : (forall w, t = SInt w -> width_ok w = true) -> value_of t v = true -> cast_eval (cty_of t) v = v.
Proof.
  intros Hw Hv. destruct t as [w | | | u]; simpl.
  - apply swrap_small; [by apply width_op, Hw | by apply value_int].
  - by apply value_bool in Hv as [-> | ->].
  - simpl in Hv. apply andb_true_iff in Hv as [?%Z.leb_le ?%Z.leb_le]. apply Z.mod_small. lia.
  - simpl in Hv. apply andb_true_iff in Hv as [?%Z.leb_le ?%Z.leb_le]. unfold INT32_MIN, INT32_MAX in *.
    apply swrap_small; [lia |]. unfold in_srange. simpl. lia.
Qed.

(** Sequences of statements without declarations. *)
Definition is_decl (c : cstmt) : bool := match c with CDecl _ _ _ => true | _ => false end.
Definition nodecl (cs : list cstmt) : Prop := Forall (fun c => is_decl c = false) cs.

(** The runs of a sequence whose first statement declares nothing. *)
Lemma cexecs_cons E c cs m o m' : is_decl c = false ->
  cexecs E (c :: cs) m o m' <->
  (exists m1, cexec E c m CNormal m1 /\ cexecs E cs m1 o m') \/ (o <> CNormal /\ cexec E c m o m').
Proof.
  intros Hc. split.
  - intros H. inversion H; subst; try discriminate Hc; eauto.
  - intros [(m1 & H1 & H2) | [Ho H1]]; [by eapply xs_cons | by apply xs_exit].
Qed.

Lemma cexecs_nil E m o m' : cexecs E [] m o m' <-> o = CNormal /\ m' = m.
Proof. split; [intros H; by inversion H | intros [-> ->]; constructor]. Qed.

Lemma cexecs_one E c m o m' : is_decl c = false -> cexecs E [c] m o m' <-> cexec E c m o m'.
Proof.
  intros Hc. rewrite cexecs_cons by done. setoid_rewrite cexecs_nil. split.
  - intros [(m1 & H & -> & ->) | [_ H]]; done.
  - intros H. destruct (decide (o = CNormal)) as [-> | Ho]; [left; eauto | by right].
Qed.

Lemma cexecs_app E cs cs' m o m' : nodecl cs ->
  cexecs E (cs ++ cs') m o m' <->
  (exists m1, cexecs E cs m CNormal m1 /\ cexecs E cs' m1 o m') \/ (o <> CNormal /\ cexecs E cs m o m').
Proof.
  intros H. revert m. induction H as [| c cs Hc _ IH]; intros m; simpl.
  - setoid_rewrite cexecs_nil. split; [eauto | intros [(m1 & [_ ->] & H) | [? [-> _]]]; done].
  - rewrite cexecs_cons by done. setoid_rewrite IH. setoid_rewrite (fun o m' => cexecs_cons E c cs m o m' Hc).
    split.
    + intros [(m1 & H1 & [(m2 & H2 & H3) | [Ho H2]]) | [Ho H1]]; eauto 10.
    + intros [(m1 & [(m2 & H1 & H2) | [? _]] & H3) | [Ho [(m1 & H1 & H2) | [_ H1]]]]; try done; eauto 10.
Qed.

Section Simulation.
Variables (S : Sem) (F : option symid) (M : bool) (env : symid -> option addr) (late : bool).

(** * Objects *)

(** The visible variables and the function's result, with their C objects. *)
Inductive object : symid -> sty -> bool -> string -> Prop :=
  | obj_var n i ty b x : var_named S n = Some (i, ty, (b, x)) -> object i ty b x
  | obj_result f s ty : F = Some f -> syms S !! f = Some s -> type_of_sym S s = Some ty -> object f ty false "pres".

(** Names the emitter keeps for the temporaries of FOR. *)
Definition temp_name (x : string) : bool := String.prefix "lim_" x || String.prefix "done_" x.

Hypothesis Hnames : forall i ty b x, object i ty b x -> temp_name x = false.
(** Objects that share an address have one type. *)
Hypothesis Halias : forall i j ty ty' b x b' x' a, object i ty b x -> object j ty' b' x' ->
  env i = Some a -> env j = Some a -> ty = ty'.

Definition binds (E : cenv) : Prop :=
  forall i ty b x, object i ty b x -> exists a, env i = Some a /\ E b x = Some (a, cty_of ty).
Definition typed_mem (pm : mem) : Prop :=
  forall i ty b x a, object i ty b x -> env i = Some a -> exists v, pm !! a = Some v /\ value_of ty v = true.

(** The C memory holds the Pascal memory. *)
Definition good (pm cm : mem) (E : cenv) : Prop := binds E /\ typed_mem pm /\ pm ⊆ cm.

(** What is not a variable is left alone. *)
Definition frame (pm cm cm' : mem) : Prop := forall a, pm !! a = None -> is_Some (cm !! a) -> cm' !! a = cm !! a.
Definition same_dom (pm pm' : mem) : Prop := forall a, pm !! a = None <-> pm' !! a = None.

Definition return_value (pm : mem) (v : option Z) : Prop :=
  if M then v = Some 0
  else match result_type S F with
       | Some (Some _) => exists f a, F = Some f /\ env f = Some a /\ v = pm !! a
       | _ => v = None
       end.

Definition match_out (pm : mem) (o : outcome) (co : cout) : Prop :=
  match o, co with
  | ONormal, CNormal | OBroke, CBroke | OCycled, CContinued => True
  | OStopped e, CStopped e' => zero_division e /\ zero_division e'
  | OReturned, CReturned v => return_value pm v
  | _, _ => False
  end.

Definition kept (pm cm pm' cm' : mem) : Prop := typed_mem pm' /\ same_dom pm pm' /\ pm' ⊆ cm' /\ frame pm cm cm'.

Definition post (pm cm : mem) (o : outcome) (pm' : mem) (co : cout) (cm' : mem) : Prop :=
  match_out pm' o co /\ ((exists e, co = CStopped e) \/ kept pm cm pm' cm').

(** The C statements [cs] have the runs of [run], and no others. *)
Definition simulates (run : nat -> mem -> option (outcome * mem)) (cs : list cstmt) : Prop :=
  forall E pm cm, good pm cm E ->
    (forall n o pm', run n pm = Some (o, pm') -> exists co cm', cexecs E cs cm co cm' /\ post pm cm o pm' co cm') /\
    (forall co cm', cexecs E cs cm co cm' -> exists n o pm', run n pm = Some (o, pm') /\ post pm cm o pm' co cm').

(** More fuel gives the same run. *)
Definition monotone (run : nat -> mem -> option (outcome * mem)) : Prop :=
  forall n k m r, (n <= k)%nat -> run n m = Some r -> run k m = Some r.

Lemma kept_refl pm cm E : good pm cm E -> kept pm cm pm cm.
Proof using Type. intros (_ & Ht & Hs). split; [done |]. split; [done |]. split; [done |]. by intros a _ _. Qed.

Lemma kept_good pm cm E pm' cm' : good pm cm E -> kept pm cm pm' cm' -> good pm' cm' E.
Proof using Type. intros (Hb & _ & _) (Ht & _ & Hs & _). done. Qed.

Lemma kept_trans pm cm pm1 cm1 pm2 cm2 : kept pm cm pm1 cm1 -> kept pm1 cm1 pm2 cm2 -> kept pm cm pm2 cm2.
Proof using Type.
  intros (T1 & D1 & S1 & F1) (T2 & D2 & S2 & F2). split; [done |]. split; [intros a; by rewrite (D1 a), (D2 a) |].
  split; [done |]. intros a Ha Hc. rewrite (F2 a); [by apply F1 | by apply D1 |]. by rewrite F1.
Qed.

Lemma post_normal pm cm pm' cm' : kept pm cm pm' cm' -> post pm cm ONormal pm' CNormal cm'.
Proof using Type. intros H. split; [done | by right]. Qed.

Lemma post_stop pm cm e pm' e' cm' : zero_division e -> zero_division e' -> post pm cm (OStopped e) pm' (CStopped e') cm'.
Proof using Type. intros H H'. split; [done | left; by exists e']. Qed.

Lemma post_trans pm cm pm1 cm1 o pm2 co cm2 : kept pm cm pm1 cm1 -> post pm1 cm1 o pm2 co cm2 -> post pm cm o pm2 co cm2.
Proof using Type. intros H [Hm [? | Hk]]; (split; [done |]); [by left | right]. by eapply kept_trans. Qed.

(** ** Sequences *)

Lemma sim_nil : simulates (fun _ m => Some (ONormal, m)) [].
Proof using Type.
  intros E pm cm Hg. split.
  - intros n o pm' [= <- <-]. exists CNormal, cm. split; [constructor |]. by apply post_normal, (kept_refl pm cm E).
  - intros co cm' Hx. inversion Hx; subst. exists 0%nat, ONormal, pm. split; [done |].
    by apply post_normal, (kept_refl pm cm' E).
Qed.

Lemma match_normal pm o co : match_out pm o co -> o = ONormal <-> co = CNormal.
Proof using Type. destruct o, co; done. Qed.

Lemma sim_seq r1 r2 cs1 cs2 : monotone r1 -> monotone r2 -> nodecl cs1 -> simulates r1 cs1 -> simulates r2 cs2 ->
  simulates (fun n m => then_do (r1 n m) (r2 n)) (cs1 ++ cs2).
Proof using Type.
  intros M1 M2 Hn S1 S2 E pm cm Hg. destruct (S1 E pm cm Hg) as [F1 B1]. split.
  - intros n o pm' H. destruct (r1 n pm) as [[o1 pm1] |] eqn:E1; [| done].
    destruct (F1 _ _ _ E1) as (co1 & cm1 & X1 & P1). pose proof (match_normal _ _ _ (proj1 P1)) as Hno.
    destruct (decide (o1 = ONormal)) as [-> | Hne].
    + simpl in H. rewrite (proj1 Hno eq_refl) in *. destruct P1 as [_ [[? ?] | K1]]; [done |].
      destruct (S2 E pm1 cm1 (kept_good _ _ _ _ _ Hg K1)) as [F2 _]. destruct (F2 _ _ _ H) as (co2 & cm2 & X2 & P2).
      exists co2, cm2. split; [apply cexecs_app; [done |]; left; eauto | by eapply post_trans].
    + assert (then_do (Some (o1, pm1)) (r2 n) = Some (o1, pm1)) as E2 by (by destruct o1). rewrite E2 in H.
      injection H as <- <-. exists co1, cm1. split; [apply cexecs_app; [done |]; right; tauto | done].
  - intros co cm' H. apply cexecs_app in H as [(cm1 & X1 & X2) | [Hne X1]]; [| | done].
    + destruct (B1 _ _ X1) as (n1 & o1 & pm1 & E1 & P1). pose proof (proj2 (match_normal _ _ _ (proj1 P1)) eq_refl) as ->.
      destruct P1 as [_ [[? ?] | K1]]; [done |].
      destruct (S2 E pm1 cm1 (kept_good _ _ _ _ _ Hg K1)) as [_ B2]. destruct (B2 _ _ X2) as (n2 & o2 & pm2 & E2 & P2).
      exists (n1 `max` n2)%nat, o2, pm2. split; [| by eapply post_trans].
      rewrite (M1 n1 (n1 `max` n2)%nat _ _ (Nat.le_max_l _ _) E1). simpl. by apply (M2 n2); [lia |].
    + destruct (B1 _ _ X1) as (n1 & o1 & pm1 & E1 & P1). exists n1, o1, pm1. split; [| done].
      rewrite E1. pose proof (match_normal _ _ _ (proj1 P1)). destruct o1; try done. tauto.
Qed.

(** ** Single statements *)

Lemma object_width i ty b x : object i ty b x -> forall w, ty = SInt w -> width_ok w = true.
Proof using Type.
  assert (forall ty s, type_of_sym S s = Some ty -> forall w, ty = SInt w -> width_ok w = true) as H.
  { clear ty. intros ty s Hs w ->. unfold type_of_sym in Hs. destruct (s_ty s) as [t |]; [| done].
    unfold scalar_of in Hs. destruct (SemProps.Consts.desc_at S t) as [[] |]; try done.
    destruct (width_ok width) eqn:Ew; [| done]. by injection Hs as <-. }
  intros [n i' ty' b' x' Hv | f s ty' _ _ Hs]; [| by eapply H].
  unfold var_named in Hv. destruct (lookup_in _ _ n) as [j |]; [| done]. destruct (syms S !! j) as [s |]; [| done].
  destruct (type_of_sym S s) as [u |] eqn:Es; [| done]. destruct (s_kind s); try done.
  injection Hv as <- <- <- <-. by eapply H.
Qed.

Lemma target_object le i ty b x : target S F le = Some (i, ty, (b, x)) -> object i ty b x.
Proof using Type.
  destruct le as [| | | | l n | | | | | | |]; try done. simpl. destruct (lookup_in _ _ n) as [j |] eqn:El; [| done].
  destruct (syms S !! j) as [s |] eqn:Es; [| done].
  destruct (s_kind s); try (intros H; by eapply obj_var).
  case_bool_decide as Hf; [| done]. destruct (type_of_sym S s) as [u |] eqn:Et; [| done].
  intros [= <- <- <- <-]. by eapply obj_result.
Qed.

(** A typed store keeps everything in place. *)
Lemma kept_store pm cm E i ty b x a v : good pm cm E -> object i ty b x -> env i = Some a -> value_of ty v = true ->
  kept pm cm (<[a := v]> pm) (<[a := v]> cm) /\ is_Some (cm !! a).
Proof using Halias.
  intros (Hb & Ht & Hs) Ho Ha Hv. destruct (Ht _ _ _ _ _ Ho Ha) as (v0 & Hp & _).
  split; [| exists v0; by eapply lookup_weaken].
  split; [| split; [| split]].
  - intros j ty' b' x' a' Ho' Ha'. destruct (decide (a' = a)) as [-> | Hne].
    + exists v. rewrite lookup_insert_eq. split; [done |]. by rewrite (Halias _ _ _ _ _ _ _ _ _ Ho' Ho Ha' Ha).
    + rewrite lookup_insert_ne by done. by eapply Ht.
  - intros a'. destruct (decide (a' = a)) as [-> | Hne]; [| by rewrite lookup_insert_ne].
    rewrite lookup_insert_eq, Hp. done.
  - by apply insert_mono.
  - intros a' Hn _. rewrite lookup_insert_ne; [done |]. intros ->. congruence.
Qed.

Lemma assign_conv_value ty u f v : (forall w, ty = SInt w -> width_ok w = true) -> assign_conv ty u = Some f ->
  value_of u v = true -> value_of ty (f v) = true.
Proof using Type.
  intros Hw Hf Hv. destruct ty as [w | | | t], u as [w' | | | t']; try discriminate Hf; simpl in Hf;
    try (injection Hf as <-; try (by apply value_swrap, Hw); done).
  case_bool_decide; [| done]. injection Hf as <-. by subst.
Qed.

(** ** Expressions *)

(** [c] computes [f] of the expression, in every store. *)
Definition computes (e : Expr) (t : sty) (f : Z -> Z) (c : cexp) : Prop :=
  forall pm cm E, good pm cm E -> exists r, peval S (store_of env pm) e = Some (t, r) /\ well t r /\
    means1 (values E cm) c (let! v := r in Ok (f v)).

Lemma computes_run e t f c pm cm E : computes e t f c -> good pm cm E ->
  exists r, expr_result S env e pm = Some r /\
    match r with
    | Ok v => value_of t v = true /\ ceval (values E cm) c (Ok (f v)) /\ forall r', ceval (values E cm) c r' -> r' = Ok (f v)
    | Err e => zero_division e /\ (exists err, ceval (values E cm) c (Err err)) /\
        forall r', ceval (values E cm) c r' -> exists err, r' = Err err /\ zero_division err
    end.
Proof using Type.
  intros Hc Hg. destruct (Hc pm cm E Hg) as (r & Hr & [_ Hw] & (r0 & Hr0) & Hall). exists r.
  unfold expr_result. rewrite Hr. split; [done |]. destruct r as [v | err]; simpl in Hall.
  - split; [by apply Hw |]. split; [| done]. by rewrite <- (Hall _ Hr0).
  - destruct (Hall _ Hr0) as (Hz & err' & -> & _). split; [done |]. split; [eauto |]. intros r' H. by apply Hall in H as [_ H].
Qed.

Lemma sim_assign l le re i ty b x u f c : target S F le = Some (i, ty, (b, x)) -> ptype S re = Some u ->
  assign_conv ty u = Some f -> computes re u f c ->
  simulates (fun n => pexec S F env late n (S_ASSIGN l le re)) [CAssign b x c].
Proof using Halias.
  intros Ht Hu Hf Hc E pm cm Hg. pose proof (target_object _ _ _ _ _ Ht) as Ho.
  destruct (proj1 Hg _ _ _ _ Ho) as (a & Ha & HE).
  destruct (computes_run _ _ _ _ _ _ _ Hc Hg) as (r & Hr & Hrun).
  setoid_rewrite (fun co cm' => cexecs_one E (CAssign b x c) cm co cm' eq_refl).
  cbn [pexec]. rewrite Ht, Hu, Hr, Hf. unfold put. rewrite Ha. destruct r as [v | err].
  - destruct Hrun as (Hv & Hev & Hall). pose proof (object_width _ _ _ _ Ho) as Hw.
    pose proof (assign_conv_value _ _ _ _ Hw Hf Hv) as Hv'.
    destruct (kept_store _ _ _ _ _ _ _ _ _ Hg Ho Ha Hv') as [Hk Hd].
    pose proof (cast_of_value ty (f v) Hw Hv') as Hcast. split.
    + intros n o pm' [= <- <-]. exists CNormal, (<[a := f v]> cm). split; [| by apply post_normal].
      rewrite <- Hcast. by econstructor.
    + intros co cm' H. exists 0%nat, ONormal, (<[a := f v]> pm). split; [done |].
      inversion H as [? ? ? ? ? v1 a1 t1 Hev1 HE1 | ? ? ? ? ? err Hev1 | | | | | | | | | | | | |]; subst.
      * apply Hall in Hev1 as [= ->]. rewrite HE in HE1. injection HE1 as <- <-. rewrite Hcast. by apply post_normal.
      * by apply Hall in Hev1.
  - destruct Hrun as (Hz & [err' Hev] & Hall). split.
    + intros n o pm' [= <- <-]. exists (CStopped err'), cm. split; [by econstructor |]. apply Hall in Hev as (? & [= <-] & ?). by apply post_stop.
    + intros co cm' H. exists 0%nat, (OStopped err), pm. split; [done |].
      inversion H as [? ? ? ? ? v1 a1 t1 Hev1 HE1 | ? ? ? ? ? err0 Hev1 | | | | | | | | | | | | |]; subst; apply Hall in Hev1 as (? & E1 & ?); [done |].
      injection E1 as <-. by apply post_stop.
Qed.

(** ** Conditions *)

(** A test of both sides: its value in Pascal, and the values C may see. *)
Definition tests (test : mem -> option (res bool)) (c : cexp) (E : cenv) (pm cm : mem) : Prop :=
  exists r, test pm = Some r /\
    match r with
    | Ok q => exists v, (v =? 0) = negb q /\ ceval (values E cm) c (Ok v) /\
                forall r', ceval (values E cm) c r' -> r' = Ok v
    | Err e => zero_division e /\ (exists err, ceval (values E cm) c (Err err)) /\
                forall r', ceval (values E cm) c r' -> exists err, r' = Err err /\ zero_division err
    end.

Lemma cond_tests e c pm cm E : computes e SBool id c -> good pm cm E -> tests (cond_test S env e) c E pm cm.
Proof using Type.
  intros Hc Hg. destruct (computes_run _ _ _ _ _ _ _ Hc Hg) as (r & Hr & H).
  unfold tests, cond_test. rewrite Hr. eexists. split; [reflexivity |]. destruct r as [v | err]; simpl; [| done].
  destruct H as (_ & Hev & Hall). exists v. split; [by destruct (v =? 0) | done].
Qed.

Lemma sim_block run cs : simulates run cs -> simulates run [CBlock cs].
Proof using Type.
  intros H E pm cm Hg. destruct (H E pm cm Hg) as [Hf Hb].
  setoid_rewrite (fun co cm' => cexecs_one E (CBlock cs) cm co cm' eq_refl). split.
  - intros n o pm' (co & cm' & X & P)%Hf. exists co, cm'. split; [by constructor | done].
  - intros co cm' X. inversion X; subst. by apply Hb.
Qed.

Lemma sim_if e c r1 r2 cs1 cs2 : computes e SBool id c -> simulates r1 cs1 -> simulates r2 cs2 ->
  simulates (fun n m =>
    match cond_test S env e m with
    | Some (Ok true) => r1 n m
    | Some (Ok false) => r2 n m
    | Some (Err e) => Some (OStopped e, m)
    | None => Some (OStuck, m)
    end) [CIf c cs1 cs2].
Proof using Type.
  intros Hc S1 S2 E pm cm Hg. destruct (cond_tests _ _ _ _ _ Hc Hg) as (r & Hr & H). rewrite Hr.
  setoid_rewrite (fun co cm' => cexecs_one E (CIf c cs1 cs2) cm co cm' eq_refl). destruct r as [q | err].
  - destruct H as (v & Hq & Hev & Hall).
    assert (simulates (if q then r1 else r2) (if v =? 0 then cs2 else cs1)) as Hs by (rewrite Hq; by destruct q).
    destruct (Hs E pm cm Hg) as [Hf Hb]. split.
    + intros n o pm' Hx. destruct (Hf n o pm') as (co & cm' & X & P); [by destruct q |].
      exists co, cm'. split; [by econstructor | done].
    + intros co cm' X. inversion X as [| | | ? ? ? ? ? v1 ? ? Hev1 X1 | ? ? ? ? ? ? Hev1 | | | | | | | | | |]; subst;
        apply Hall in Hev1; [injection Hev1 as -> | done].
      destruct (Hb _ _ X1) as (n & o & pm' & Hx & P). exists n, o, pm'. split; [by destruct q | done].
  - destruct H as (Hz & [err' Hev] & Hall). split.
    + intros n o pm' [= <- <-]. exists (CStopped err'), cm. split; [by econstructor |]. apply Hall in Hev as (? & [= <-] & ?). by apply post_stop.
    + intros co cm' X. exists 0%nat, (OStopped err), pm. split; [done |].
      inversion X as [| | | ? ? ? ? ? v1 ? ? Hev1 X1 | ? ? ? ? ? ? Hev1 | | | | | | | | | |]; subst;
        apply Hall in Hev1 as (? & E1 & ?); [done | injection E1 as <-; by apply post_stop].
Qed.

(** ** Loops *)

Lemma ploop_mono test step b b' n : (forall m r, b m = Some r -> b' m = Some r) -> forall k m r, (n <= k)%nat ->
  ploop n test b step m = Some r -> ploop k test b' step m = Some r.
Proof using Type.
  intros Hb. induction n as [| n IH]; intros k m r Hk H; [done |]. destruct k as [| k]; [lia |].
  cbn [ploop] in *. destruct (test m) as [[[|] | err] |]; try done.
  destruct (b m) as [[o m1] |] eqn:E; [| done]. rewrite (Hb _ _ E).
  destruct o; try done; destruct (step m1) as [[[] m2] [|]]; try done; apply IH; (lia || done).
Qed.

Section Loop.
Variables (E : cenv) (pm0 cm0 : mem) (I : mem -> mem -> Prop).
Variables (test : mem -> option (res bool)) (run : nat -> mem -> option (outcome * mem)).
Variables (step : mem -> outcome * mem * bool) (c : cexp) (scs bcs : list cstmt).

Hypothesis Hmono : monotone run.
Hypothesis Hgood : forall pm cm, I pm cm -> good pm cm E /\ kept pm0 cm0 pm cm.
Hypothesis Hkeep : forall pm cm pm' cm', I pm cm -> kept pm cm pm' cm' -> I pm' cm'.
Hypothesis Htest : forall pm cm, I pm cm -> tests test c E pm cm.
Hypothesis Hbody : simulates run bcs.
(** A step either goes on, or leaves a memory in which the C test fails. *)
Hypothesis Hstep : forall pm cm, I pm cm -> exists pm' go cm', step pm = (ONormal, pm', go) /\
  cexecs E scs cm CNormal cm' /\ (forall co cm'', cexecs E scs cm co cm'' -> co = CNormal /\ cm'' = cm') /\
  if (go : bool) then I pm' cm'
  else kept pm0 cm0 pm' cm' /\ ceval (values E cm') c (Ok 0) /\ forall r, ceval (values E cm') c r -> r = Ok 0.

Lemma post_from pm cm o pm' co cm' : I pm cm -> post pm cm o pm' co cm' -> post pm0 cm0 o pm' co cm'.
Proof using Hgood. intros HI H. eapply post_trans; [by apply Hgood | done]. Qed.

Lemma loop_forward k n : forall pm cm o pm', I pm cm -> ploop n test (run k) step pm = Some (o, pm') ->
  exists co cm', cexec E (CLoop c scs bcs) cm co cm' /\ post pm0 cm0 o pm' co cm'.
Proof using Hgood Hkeep Htest Hbody Hstep.
  induction n as [| n IH]; intros pm cm o pm' HI H; [done |]. cbn [ploop] in H.
  destruct (Htest _ _ HI) as (r & Hr & Ht). rewrite Hr in H. destruct (Hgood _ _ HI) as [Hg Hk].
  destruct r as [[|] | err].
  - destruct Ht as (v & Hv & Hev & _). assert (v <> 0) as Hv0 by (intros ->; done).
    destruct (run k pm) as [[o1 pm1] |] eqn:Er; [| done].
    destruct (proj1 (Hbody _ _ _ Hg) _ _ _ Er) as (co1 & cm1 & X1 & P1).
    assert (goes_on co1 = true -> kept pm cm pm1 cm1) as Hk1.
    { destruct P1 as [_ [[e ->] | ?]]; [discriminate 1 | done]. }
    assert (forall o', goes_on co1 = false -> match_out pm1 o' (loop_exit co1) ->
      exists co cm', cexec E (CLoop c scs bcs) cm co cm' /\ post pm0 cm0 o' pm1 co cm') as Hexit.
    { intros o' Hgo Hm. exists (loop_exit co1), cm1. split; [by eapply x_loop_exit |]. apply (post_from pm cm); [done |].
      split; [done |]. destruct (proj2 P1) as [[e ->] | ?]; [left; by exists e | by right]. }
    destruct P1 as [M1 _]. destruct o1, co1; try done; try (injection H as <- <-; by apply Hexit).
    all: destruct (Hstep _ _ (Hkeep _ _ _ _ HI (Hk1 eq_refl))) as (pm2 & go & cm2 & Es & X2 & _ & Hgo); rewrite Es in H;
      destruct go;
      [ destruct (IH _ _ _ _ Hgo H) as (co & cm' & X3 & P3); exists co, cm'; split; [by eapply x_loop_again | done]
      | injection H as <- <-; destruct Hgo as (Hk2 & Hz & _); exists CNormal, cm2;
        split; [eapply x_loop_again; [done | done | done | done | done | by apply x_loop_end] | by apply post_normal] ].
  - destruct Ht as (v & Hv & Hev & _). apply Z.eqb_eq in Hv as ->. injection H as <- <-.
    exists CNormal, cm. split; [by apply x_loop_end | by apply post_normal].
  - destruct Ht as (Hz & [err' Hev] & Hall). injection H as <- <-. exists (CStopped err'), cm. split; [by eapply x_loop_stop |].
    apply Hall in Hev as (? & [= <-] & ?). by apply post_stop.
Qed.

Lemma body_run pm cm v co cm' : I pm cm -> ceval (values E cm) c (Ok v) -> v <> 0 -> cexecs E bcs cm co cm' ->
  exists n o pm', run n pm = Some (o, pm') /\ post pm cm o pm' co cm' /\ test pm = Some (Ok true).
Proof using Hgood Htest Hbody.
  intros HI Hev Hv X. destruct (Hbody _ _ _ (proj1 (Hgood _ _ HI))) as [_ Hb].
  destruct (Hb _ _ X) as (n & o & pm' & Er & P). exists n, o, pm'. split; [done |]. split; [done |].
  destruct (Htest _ _ HI) as ([q | err] & Hr & Ht); [| by destruct (proj2 (proj2 Ht) _ Hev) as (? & ? & _)].
  destruct Ht as (v' & Hq & _ & Hall). apply Hall in Hev as [= <-]. rewrite (proj2 (Z.eqb_neq v 0)) in Hq by done.
  by destruct q.
Qed.

Lemma loop_backward pm cm co cm' : I pm cm -> cexec E (CLoop c scs bcs) cm co cm' ->
  exists n o pm', ploop n test (run n) step pm = Some (o, pm') /\ post pm0 cm0 o pm' co cm'.
Proof using Hmono Hgood Hkeep Htest Hbody Hstep.
  intros HI H.
  assert (forall E' s, cexec E' s cm co cm' -> s = CLoop c scs bcs -> E' = E -> forall pm, I pm cm ->
    exists n o pm', ploop n test (run n) step pm = Some (o, pm') /\ post pm0 cm0 o pm' co cm') as Hgen; [| by eapply Hgen].
  clear pm HI H. induction 1 as [| | | | | E' c' st' b' m Hev | E' c' st' b' m err Hev | E' c' st' b' m v o m' Hev Hv X Hgo
    | E' c' st' b' m v o m' err m'' Hev Hv X Hgo X2 | E' c' st' b' m v o m' m1 o2 m2 Hev Hv X Hgo X2 X3 IH | | | | | ];
    intros Es EE; try discriminate Es; injection Es as -> -> ->; subst E'; intros pm HI;
    destruct (Htest _ _ HI) as (r & Hr & Ht); destruct (Hgood _ _ HI) as [Hg Hk].
  - destruct r as [q | err]; [| by destruct (proj2 (proj2 Ht) _ Hev) as (? & ? & _)]. destruct Ht as (v & Hv & _ & Hall).
    apply Hall in Hev as [= <-]. destruct q; [done |]. exists 1%nat, ONormal, pm. cbn [ploop]. rewrite Hr.
    split; [done | by apply post_normal].
  - destruct r as [q | err0]; [destruct Ht as (v & _ & _ & Hall); by apply Hall in Hev |].
    exists 1%nat, (OStopped err0), pm. cbn [ploop]. rewrite Hr. split; [done |]. destruct Ht as (Hz & _ & Hall).
    apply Hall in Hev as (? & [= <-] & ?). by apply post_stop.
  - destruct (body_run _ _ _ _ _ HI Hev Hv X) as (n & o1 & pm1 & E1 & P1 & Hp).
    exists (Datatypes.S n), (match o1 with OBroke => ONormal | _ => o1 end), pm1. split.
    + cbn [ploop]. rewrite Hp, (Hmono n (Datatypes.S n) _ _ ltac:(lia) E1). destruct P1 as [M1 _]. by destruct o1, o.
    + apply (post_from pm m); [done |]. destruct P1 as [M1 K1].
      split; [by destruct o1, o | destruct K1 as [[e ->] | K1]; [left; by exists e | by right]].
  - destruct (body_run _ _ _ _ _ HI Hev Hv X) as (n & o1 & pm1 & E1 & P1 & Hp).
    destruct P1 as [M1 [[e ->] | K1]]; [done |].
    destruct (Hstep _ _ (Hkeep _ _ _ _ HI K1)) as (pm2 & go & cm2 & _ & _ & Hu & _).
    by destruct (Hu _ _ X2).
  - destruct (body_run _ _ _ _ _ HI Hev Hv X) as (n & o1 & pm1 & E1 & P1 & Hp).
    destruct P1 as [M1 [[e ->] | K1]]; [done |].
    destruct (Hstep _ _ (Hkeep _ _ _ _ HI K1)) as (pm2 & go & cm2 & Est & _ & Hu & Hgo2).
    destruct (Hu _ _ X2) as [_ ->]. destruct go.
    + destruct (IH eq_refl eq_refl _ Hgo2) as (n3 & o3 & pm3 & E3 & P3).
      exists (Datatypes.S (n `max` n3))%nat, o3, pm3. split; [| done]. cbn [ploop].
      rewrite Hp, (Hmono n (Datatypes.S (n `max` n3)) _ _ ltac:(lia) E1).
      assert (ploop (n `max` n3) test (run (Datatypes.S (n `max` n3))) step pm2 = Some (o3, pm3)) as E4.
      { apply (ploop_mono _ _ (run n3) _ n3); [| lia | done]. intros m3 r3. apply Hmono. lia. }
      destruct o1, o; try done; by rewrite Est.
    + destruct Hgo2 as (K2 & _ & Hz). exists (Datatypes.S n), ONormal, pm2. split.
      * cbn [ploop]. rewrite Hp, (Hmono n (Datatypes.S n) _ _ ltac:(lia) E1). destruct o1, o; try done; by rewrite Est.
      * inversion X3; subst; try (match goal with H : ceval _ _ _ |- _ => apply Hz in H; congruence end).
        by apply post_normal.
Qed.
End Loop.

Lemma sim_while e c run cs : monotone run -> computes e SBool id c -> simulates run cs ->
  simulates (fun n => ploop n (cond_test S env e) (run n) (fun m => (ONormal, m, true))) [CLoop c [] cs].
Proof using Type.
  intros Hm Hc Hs E pm cm Hg.
  setoid_rewrite (fun co cm' => cexecs_one E (CLoop c [] cs) cm co cm' eq_refl).
  set (I := fun pm' cm' => good pm' cm' E /\ kept pm cm pm' cm').
  assert (I pm cm) as HI by (split; [done | by apply (kept_refl pm cm E)]).
  assert (forall pm1 cm1 pm2 cm2, I pm1 cm1 -> kept pm1 cm1 pm2 cm2 -> I pm2 cm2) as Hkeep.
  { intros pm1 cm1 pm2 cm2 [G1 K1] K2. split; [by eapply kept_good | by eapply kept_trans]. }
  assert (forall pm1 cm1, I pm1 cm1 -> tests (cond_test S env e) c E pm1 cm1) as Ht.
  { intros pm1 cm1 [G1 _]. by apply cond_tests. }
  assert (forall pm1 cm1, I pm1 cm1 -> exists pm' go cm', (ONormal, pm1, true) = (ONormal, pm', go) /\
    cexecs E [] cm1 CNormal cm' /\ (forall co cm'', cexecs E [] cm1 co cm'' -> co = CNormal /\ cm'' = cm') /\
    if (go : bool) then I pm' cm' else kept pm cm pm' cm' /\ ceval (values E cm') c (Ok 0) /\
      forall r, ceval (values E cm') c r -> r = Ok 0) as Hstep.
  { intros pm1 cm1 H1. exists pm1, true, cm1. setoid_rewrite cexecs_nil. done. }
  split.
  - intros n o pm' H. by eapply (loop_forward E pm cm I (cond_test S env e) run (fun m => (ONormal, m, true))).
  - intros co cm' H. by eapply (loop_backward E pm cm I (cond_test S env e) run (fun m => (ONormal, m, true))).
Qed.

(** ** FOR *)

Lemma means1_num rho z : means1 rho (CNum z) (Ok z).
Proof using Type. split; [eexists; constructor |]. intros r' H. by inversion H. Qed.
Lemma means1_obj rho b x v : rho b x = Some v -> means1 rho (CObj b x) (Ok v).
Proof using Type. intros H. split; [eexists; by constructor |]. intros r' H'. inversion H'; subst. simpl. congruence. Qed.
Lemma means1_ok rho c v : means1 rho c (Ok v) -> ceval rho c (Ok v) /\ forall r, ceval rho c r -> r = Ok v.
Proof using Type. intros [[r Hr] Hall]. split; [| done]. by rewrite <- (Hall r Hr). Qed.

(** An assignment and a declaration whose expression has a value. *)
Lemma assign_value E b x e m v a t : means1 (values E m) e (Ok v) -> E b x = Some (a, t) -> is_Some (m !! a) ->
  forall o m', cexec E (CAssign b x e) m o m' <-> o = CNormal /\ m' = <[a := cast_eval t v]> m.
Proof using Type.
  intros [He Hall]%means1_ok HE Hm o m'. split; [| intros [-> ->]; by econstructor].
  intros H. inversion H as [? ? ? ? ? v1 a1 t1 Hev1 HE1 | ? ? ? ? ? err Hev1 | | | | | | | | | | | | |]; subst;
    apply Hall in Hev1; [| done]. injection Hev1 as ->. rewrite HE in HE1. by injection HE1 as <- <-.
Qed.

Lemma decl_runs E t x e cs m o m' : cexecs E (CDecl t x e :: cs) m o m' <->
  exists a, m !! a = None /\
    ((exists v, ceval (values (declare E x a t) m) e (Ok v) /\
        cexecs (declare E x a t) cs (<[a := cast_eval t v]> m) o m') \/
     (exists err, ceval (values (declare E x a t) m) e (Err err) /\ o = CStopped err /\ m' = m)).
Proof using Type.
  split.
  - intros H. inversion H as [| ? ? ? ? ? ? a v ? ? Ha Hev X | ? ? ? ? ? ? a err Ha Hev | ? ? ? ? ? ? ? X |
      ? ? ? ? ? ? X]; subst; [eauto 10 | eauto 10 | by inversion X | by inversion X].
  - intros (a & Ha & [(v & Hev & X) | (err & Hev & -> & ->)]); [by eapply xs_decl | by eapply xs_decl_stop].
Qed.

Lemma temp_unbound i ty b x y : object i ty b x -> temp_name y = true -> String.eqb x y = false.
Proof using Hnames. intros Ho Hy. apply String.eqb_neq. intros ->. by rewrite (Hnames _ _ _ _ Ho) in Hy. Qed.

Lemma binds_declare E x a t : binds E -> temp_name x = true -> binds (declare E x a t).
Proof using Hnames.
  intros Hb Hx i ty b y Ho. destruct (Hb _ _ _ _ Ho) as (a' & Ha & HE). exists a'. split; [done |].
  unfold declare. by rewrite (temp_unbound _ _ _ _ _ Ho Hx).
Qed.

Lemma declare_same E x a t : declare E x a t false x = Some (a, t).
Proof using Type. unfold declare. by rewrite String.eqb_refl. Qed.

Lemma declare_other E x y a t b : x <> y -> declare E y a t b x = E b x.
Proof using Type. intros H. unfold declare. by rewrite (proj2 (String.eqb_neq x y) H). Qed.

(** The value of an expression depends only on the objects it reads. *)
Lemma peval_frame sigma sigma' e :
  (forall n j, n ∈ names_in e -> lookup_in (syms S) (scopes S) n = Some j -> sigma j = sigma' j) ->
  peval S sigma e = peval S sigma' e.
Proof using Type.
  induction e as [l v | | | l v | l n | l n args IH | | | | l op a b IHa IHb | l op a IH |] using Expr_nested_ind;
    intros H; try done; cbn [peval].
  - unfold name_value. destruct (lookup_in _ _ n) as [i |] eqn:El; [| done].
    destruct (syms S !! i) as [s |]; [| done]. rewrite (H n i); [done | apply list_elem_of_singleton; done | done].
  - destruct args as [| a [| ]]; try done. apply Forall_cons in IH as [IH _]. rewrite IH; [done |].
    intros m j Hm. apply H. simpl. rewrite app_nil_r. done.
  - rewrite IHa, IHb; [done | |]; intros m j Hm; apply H; simpl; rewrite elem_of_app; auto.
  - rewrite IH; [done |]. intros m j Hm. by apply H.
Qed.

Lemma reads_not_eval i a v e pm : env i = Some a -> reads_not S env i e = true ->
  expr_result S env e (<[a := v]> pm) = expr_result S env e pm.
Proof using Type.
  intros Ha Hr. unfold expr_result. f_equal. apply peval_frame. intros n j Hn Hj. unfold store_of.
  unfold reads_not in Hr. rewrite forallb_forall in Hr. apply list_elem_of_In in Hn.
  specialize (Hr n Hn). rewrite Hj in Hr. destruct (env j) as [a' |]; [| done]. simpl.
  rewrite lookup_insert_ne; [done |]. intros <-. rewrite Ha, bool_decide_true in Hr by done. done.
Qed.

Definition for_cond (b : bool) (x xl xd : string) (down : bool) : cexp :=
  CAndAnd (CUn LogNot (CObj false xd)) (CBin (Infix (if down then OP_GE else OP_LE)) (CObj b x) (CObj false xl)).
Definition for_steps (b : bool) (x xl xd : string) (down : bool) (w : Z) : list cstmt :=
  [CAssign false xd (CBin (Infix OP_EQ) (CObj b x) (CObj false xl));
   CAssign b x (CBin (CallOp (if down then OP_SUB else OP_ADD) w) (CObj b x) (CNum 1))].

Section For.
Variables (E : cenv) (i : symid) (w : Z) (b : bool) (x xl xd : string) (a al ad : addr) (down : bool) (lim : Z).
Hypothesis Ho : object i (SInt w) b x.
Hypothesis Ha : env i = Some a.
Hypothesis HE : E b x = Some (a, CInt w).
Hypothesis HEl : E false xl = Some (al, CInt w).
Hypothesis HEd : E false xd = Some (ad, CInt 32).
Hypothesis Had : al <> ad.
Variables (pm0 cm0 : mem).

(** The memory in the loop: the limit and the flag are cells of their own. *)
Definition for_inv (done : Z) (pm cm : mem) : Prop :=
  good pm cm E /\ kept pm0 cm0 pm cm /\ pm !! al = None /\ pm !! ad = None /\
  cm !! al = Some lim /\ cm !! ad = Some done /\ cm0 !! ad = None.

Lemma for_var done pm cm : for_inv done pm cm -> exists v, pm !! a = Some v /\ cm !! a = Some v /\ in_srange w v /\
  values E cm b x = Some v /\ values E cm false xl = Some lim /\ values E cm false xd = Some done /\
  store_of env pm i = Some v /\ a <> al /\ a <> ad.
Proof using Ho Ha HE HEl HEd Had.
  intros ((_ & Ht & Hs) & _ & Hl & Hd & Cl & Cd & _). destruct (Ht _ _ _ _ _ Ho Ha) as (v & Hv & Hr).
  exists v. unfold values, store_of. rewrite HE, HEl, HEd, Ha.
  assert (cm !! a = Some v) as Hc by (by eapply lookup_weaken).
  repeat split; try done; try (by apply value_int in Hr as []); intros <-; congruence.
Qed.

Lemma for_cond_value pm cm done : for_inv done pm cm -> done = 0 \/ done = 1 -> exists v, store_of env pm i = Some v /\
  means1 (values E cm) (for_cond b x xl xd down) (Ok (b2z ((done =? 0) && in_reach down v lim))).
Proof using Ho Ha HE HEl HEd Had.
  intros HI Hd. destruct (for_var _ _ _ HI) as (v & _ & _ & _ & Hv & Hl & Hdv & Hst & _). exists v. split; [done |].
  assert (Ok (b2z ((done =? 0) && in_reach down v lim)) =
    let! q := (let! z := Ok done in Ok (b2z (z =? 0))) in if q =? 0 then Ok 0
    else both (Ok v) (Ok lim) (fun y z => Ok (b2z (in_reach down y z)))) as ->
    by (destruct Hd as [-> | ->]; reflexivity).
  apply means1_andand.
  - apply means1_un; [by apply means1_obj | done].
  - apply means1_bin; [by apply means1_obj | by apply means1_obj |]. intros y z _ _. by destruct down.
  - intros q [= <-]. apply value_b2z.
  - intros y [= <-]. apply value_b2z.
Qed.

Lemma for_tests pm cm : for_inv 0 pm cm -> tests (for_test env i down lim) (for_cond b x xl xd down) E pm cm.
Proof using Ho Ha HE HEl HEd Had.
  intros HI. destruct (for_cond_value pm cm 0 HI ltac:(by left)) as (v & Hst & Hm).
  apply means1_ok in Hm as [Hev Hall]. exists (Ok (in_reach down v lim)). unfold for_test. rewrite Hst. split; [done |].
  eexists. split; [| done]. by destruct (in_reach down v lim).
Qed.

Lemma for_keep done pm cm pm' cm' : for_inv done pm cm -> kept pm cm pm' cm' -> for_inv done pm' cm'.
Proof using Type.
  intros (G & K & Hl & Hd & Cl & Cd & C0) K'. split; [by eapply kept_good |]. split; [by eapply kept_trans |].
  destruct K' as (_ & D & _ & Fr). split; [by apply D |]. split; [by apply D |].
  rewrite (Fr al), (Fr ad); eauto.
Qed.

(** The step sets the flag and moves the control variable. *)
Lemma for_steps_run pm cm : for_inv 0 pm cm -> exists v pm' cm', store_of env pm i = Some v /\
  for_step env i w down lim pm = (ONormal, pm', negb (v =? lim)) /\
  cexecs E (for_steps b x xl xd down w) cm CNormal cm' /\
  (forall co cm'', cexecs E (for_steps b x xl xd down w) cm co cm'' -> co = CNormal /\ cm'' = cm') /\
  for_inv (b2z (v =? lim)) pm' cm'.
Proof using Ho Ha HE HEl HEd Had Halias.
  intros HI. destruct (for_var _ _ _ HI) as (v & Hp & Hc & Hr & Hv & Hl & Hdv & Hst & Nal & Nad).
  pose proof (object_width _ _ _ _ Ho w eq_refl) as Hw. destruct (width_op w Hw) as [How Hpos].
  set (nv := swrap w (v + ForLoop.dir down)). set (cm1 := <[ad := b2z (v =? lim)]> cm).
  set (cm2 := <[a := nv]> cm1).
  assert (values E cm1 b x = Some v) as Hv1 by (unfold values, cm1; rewrite HE; by rewrite lookup_insert_ne).
  assert (forall o m', cexec E (CAssign false xd (CBin (Infix OP_EQ) (CObj b x) (CObj false xl))) cm o m' <->
    o = CNormal /\ m' = cm1) as X1.
  { intros o m'. rewrite (assign_value E false xd _ cm (b2z (v =? lim)) ad (CInt 32)); [| | done |].
    - assert (cast_eval (CInt 32) (b2z (v =? lim)) = b2z (v =? lim)) as -> by (by destruct (v =? lim)). done.
    - change (Ok (b2z (v =? lim))) with (both (Ok v) (Ok lim) (fun y z => Ok (b2z (y =? z)))).
      apply means1_bin; [by apply means1_obj | by apply means1_obj | done].
    - destruct HI as (_ & _ & _ & _ & _ & Cd & _). eauto. }
  assert (forall o m', cexec E (CAssign b x (CBin (CallOp (if down then OP_SUB else OP_ADD) w) (CObj b x) (CNum 1))) cm1 o m' <->
    o = CNormal /\ m' = cm2) as X2.
  { intros o m'. rewrite (assign_value E b x _ cm1 nv a (CInt w)); [| | done |].
    - simpl. rewrite (swrap_small w nv); [done | done | by apply swrap_range].
    - change (Ok nv) with (both (Ok v) (Ok 1) (fun _ _ => Ok nv)).
      apply means1_bin; [by apply means1_obj | apply means1_num |]. intros y z [= <-] [= <-]. simpl. unfold nv, ForLoop.dir.
      assert (in_srange w 1) as H1 by (destruct (width_ok_cases w Hw) as [-> | [-> | ->]]; unfold in_srange; simpl; lia).
      destruct down; rewrite (swrap_small w v), (swrap_small w 1) by done;
        [by rewrite Arith.pas_sub_eq | by rewrite Arith.pas_add_eq].
    - unfold cm1. rewrite lookup_insert_ne by done. eauto. }
  exists v, (<[a := nv]> pm), cm2. split; [done |]. split; [| split; [| split]].
  - unfold for_step, put. by rewrite Hst, Ha.
  - apply xs_cons with cm1; [by apply X1 |]. apply cexecs_one; [done |]. by apply X2.
  - intros co cm'' H. apply cexecs_cons in H as [(m1 & [_ ->]%X1 & H) | [? [? _]%X1]]; [| done | done].
    apply cexecs_one in H; [| done]. by apply X2.
  - destruct HI as ((HB & HT & HS) & (_ & D0 & _ & F0) & Pl & Pd & Cl & Cd & C0).
    assert (pm ⊆ cm1) as HS1 by (by apply insert_subseteq_r).
    assert (kept pm0 cm0 pm cm1) as K1.
    { split; [done |]. split; [done |]. split; [done |]. intros a' Hn Hs. unfold cm1.
      rewrite lookup_insert_ne; [by apply F0 | intros <-; rewrite C0 in Hs; by destruct Hs]. }
    destruct (kept_store pm cm1 E i (SInt w) b x a nv (conj HB (conj HT HS1)) Ho Ha ltac:(by apply value_swrap)) as [K2 _].
    split; [by eapply (kept_good pm cm1) |]. split; [by eapply kept_trans |].
    unfold cm2, cm1. rewrite !(lookup_insert_ne _ a) by done. rewrite (lookup_insert_ne _ ad al) by done.
    by rewrite lookup_insert_eq.
Qed.
End For.

Lemma for_run_sim E i w b x xl xd a al ad down lim pm0 cm0 run cs pm cm :
  object i (SInt w) b x -> env i = Some a -> E b x = Some (a, CInt w) -> E false xl = Some (al, CInt w) ->
  E false xd = Some (ad, CInt 32) -> al <> ad -> monotone run -> simulates run cs ->
  for_inv E al ad lim pm0 cm0 0 pm cm ->
  let loop := CLoop (for_cond b x xl xd down) (for_steps b x xl xd down w) cs in
  (forall n o pm', ploop n (for_test env i down lim) (run n) (for_step env i w down lim) pm = Some (o, pm') ->
     exists co cm', cexec E loop cm co cm' /\ post pm0 cm0 o pm' co cm') /\
  (forall co cm', cexec E loop cm co cm' ->
     exists n o pm', ploop n (for_test env i down lim) (run n) (for_step env i w down lim) pm = Some (o, pm') /\
       post pm0 cm0 o pm' co cm').
Proof using Halias.
  intros Ho Ha HE HEl HEd Had Hm Hs HI loop.
  set (I := for_inv E al ad lim pm0 cm0 0).
  assert (forall pm cm, I pm cm -> good pm cm E /\ kept pm0 cm0 pm cm) as H1 by (intros ? ? (? & ? & _); done).
  assert (forall pm cm pm' cm', I pm cm -> kept pm cm pm' cm' -> I pm' cm') as H2 by (intros *; apply for_keep).
  assert (forall pm cm, I pm cm -> tests (for_test env i down lim) (for_cond b x xl xd down) E pm cm) as H3
    by (intros *; by eapply for_tests).
  assert (forall pm cm, I pm cm -> exists pm' go cm', for_step env i w down lim pm = (ONormal, pm', go) /\
    cexecs E (for_steps b x xl xd down w) cm CNormal cm' /\
    (forall co cm'', cexecs E (for_steps b x xl xd down w) cm co cm'' -> co = CNormal /\ cm'' = cm') /\
    if (go : bool) then I pm' cm'
    else kept pm0 cm0 pm' cm' /\ ceval (values E cm') (for_cond b x xl xd down) (Ok 0) /\
      forall r, ceval (values E cm') (for_cond b x xl xd down) r -> r = Ok 0) as H4.
  { intros pm1 cm1 I1.
    destruct (for_steps_run E i w b x xl xd a al ad down lim Ho Ha HE HEl HEd Had pm0 cm0 pm1 cm1 I1)
      as (v & pm' & cm' & _ & Es & X & Hu & I2).
    exists pm', (negb (v =? lim)), cm'. split; [done |]. split; [done |]. split; [done |].
    destruct (v =? lim); [| done]. cbn [negb]. split; [apply I2 |].
    destruct (for_cond_value E i w b x xl xd a al ad down lim Ho Ha HE HEl HEd Had pm0 cm0 pm' cm' 1 I2 ltac:(by right))
      as (v' & _ & Hmean). by apply means1_ok in Hmean. }
  split.
  - intros n o pm' H. by eapply (loop_forward E pm0 cm0 I (for_test env i down lim) run (for_step env i w down lim)).
  - intros co cm' H. by eapply (loop_backward E pm0 cm0 I (for_test env i down lim) run (for_step env i w down lim)).
Qed.

(** The loop after the two declarations, at any addresses not in use. *)
Lemma for_declared_sim E i w b x xl xd a al ad down t pm0 cm0 run cs pm cm :
  object i (SInt w) b x -> env i = Some a -> temp_name xl = true -> temp_name xd = true -> xl <> xd ->
  monotone run -> simulates run cs -> good pm cm E -> kept pm0 cm0 pm cm ->
  cm !! al = None -> <[al := swrap w t]> cm !! ad = None ->
  let E2 := declare (declare E xl al (CInt w)) xd ad (CInt 32) in
  let cm2 := <[ad := 0]> (<[al := swrap w t]> cm) in
  let loop := [CLoop (for_cond b x xl xd down) (for_steps b x xl xd down w) cs] in
  let prun n := ploop n (for_test env i down (swrap w t)) (run n) (for_step env i w down (swrap w t)) pm in
  (forall n o pm', prun n = Some (o, pm') -> exists co cm', cexecs E2 loop cm2 co cm' /\ post pm0 cm0 o pm' co cm') /\
  (forall co cm', cexecs E2 loop cm2 co cm' -> exists n o pm', prun n = Some (o, pm') /\ post pm0 cm0 o pm' co cm').
Proof using Halias Hnames.
  intros Ho Ha Tl Td Hne Hm Hs (HB & HT & HS) Hk Hal Had E2 cm2 loop prun. unfold loop.
  setoid_rewrite (fun co cm' => cexecs_one E2 (CLoop _ _ cs) cm2 co cm' eq_refl).
  assert (al <> ad) as Hne2 by (intros ->; by rewrite lookup_insert_eq in Had).
  rewrite lookup_insert_ne in Had by done.
  destruct (HB _ _ _ _ Ho) as (a' & Ha' & HEx). rewrite Ha in Ha'. injection Ha' as <-.
  pose proof (temp_unbound _ _ _ _ _ Ho Tl) as Nl. pose proof (temp_unbound _ _ _ _ _ Ho Td) as Nd.
  apply String.eqb_neq in Nl, Nd.
  assert (pm !! al = None) as Pl by (by eapply lookup_weaken_None).
  assert (pm !! ad = None) as Pd by (by eapply lookup_weaken_None).
  destruct Hk as (_ & D0 & _ & F0).
  assert (forall a', cm !! a' = None -> cm0 !! a' = None) as H0.
  { intros a' Hc. destruct (cm0 !! a') eqn:E0; [| done]. rewrite <- E0, <- Hc. symmetry. apply F0; [| by rewrite E0].
    apply D0. by eapply lookup_weaken_None. }
  assert (pm ⊆ cm2) as HS2 by (apply insert_subseteq_r; [done | by apply insert_subseteq_r]).
  apply (for_run_sim E2 i w b x xl xd a al ad down (swrap w t) pm0 cm0 run cs pm cm2); try done.
  - unfold E2. by rewrite !declare_other by done.
  - unfold E2. rewrite declare_other by done. apply declare_same.
  - apply declare_same.
  - split; [split; [apply binds_declare; [by apply binds_declare | done] | done] |]. split.
    + split; [done |]. split; [done |]. split; [done |]. intros a' Hn Hc. unfold cm2.
      rewrite !lookup_insert_ne; [by apply F0 | |]; intros <-; rewrite H0 in Hc by done; by destruct Hc.
    + split; [done |]. split; [done |]. unfold cm2. rewrite lookup_insert_eq, lookup_insert_ne, lookup_insert_eq by done.
      split; [done |]. split; [done | by apply H0].
Qed.

(** The declarations in front of the loop. *)
Lemma for_decls_sim E i w b x xl xd a down to t' ct pm0 cm0 run cs pm cm r :
  object i (SInt w) b x -> env i = Some a -> temp_name xl = true -> temp_name xd = true -> xl <> xd ->
  computes to t' (swrap w) ct -> monotone run -> simulates run cs -> good pm cm E -> kept pm0 cm0 pm cm ->
  expr_result S env to pm = Some r ->
  let prun n := match r with
    | Ok t => ploop n (for_test env i down (swrap w t)) (run n) (for_step env i w down (swrap w t)) pm
    | Err e => Some (OStopped e, pm) end in
  let code := [CDecl (CInt w) xl ct; CDecl (CInt 32) xd (CNum 0);
               CLoop (for_cond b x xl xd down) (for_steps b x xl xd down w) cs] in
  (forall n o pm', prun n = Some (o, pm') -> exists co cm', cexecs E code cm co cm' /\ post pm0 cm0 o pm' co cm') /\
  (forall co cm', cexecs E code cm co cm' -> exists n o pm', prun n = Some (o, pm') /\ post pm0 cm0 o pm' co cm').
Proof using Halias Hnames.
  intros Ho Ha Tl Td Hne Hto Hm Hs Hg Hk Hr prun code. pose proof (object_width _ _ _ _ Ho w eq_refl) as Hw.
  pose proof (proj2 (width_op w Hw)) as Hpos.
  pose proof (fun al ad t => for_declared_sim E i w b x xl xd a al ad down t pm0 cm0 run cs pm cm
    Ho Ha Tl Td Hne Hm Hs Hg Hk) as Hloop.
  assert (forall al, cm !! al = None -> means1 (values (declare E xl al (CInt w)) cm) ct (let! v := r in Ok (swrap w v))) as Hmean.
  { intros al Hal. assert (good pm cm (declare E xl al (CInt w))) as Hg1.
    { destruct Hg as (HB & HT & HS). split; [by apply binds_declare | done]. }
    destruct (Hto _ _ _ Hg1) as (r' & Hr' & _ & Hmn). unfold expr_result in Hr. rewrite Hr' in Hr.
    by injection Hr as ->. }
  assert (forall t, cast_eval (CInt w) (swrap w t) = swrap w t) as Hcast
    by (intros t; simpl; apply swrap_small; [done | by apply swrap_range]).
  set (al0 := fresh (dom cm)). assert (cm !! al0 = None) as Hal0 by (apply not_elem_of_dom, is_fresh).
  destruct r as [t | err]; simpl in Hmean.
  - split.
    + intros n o pm' H. set (cm1 := <[al0 := swrap w t]> cm). set (ad0 := fresh (dom cm1)).
      assert (cm1 !! ad0 = None) as Had0 by (apply not_elem_of_dom, is_fresh).
      destruct (proj1 (Hloop al0 ad0 t Hal0 Had0) n o pm' H) as (co & cm' & X & P). exists co, cm'. split; [| done].
      apply decl_runs. exists al0. split; [done |]. left. exists (swrap w t). split; [by apply means1_ok, Hmean |].
      rewrite Hcast. apply decl_runs. exists ad0. split; [done |]. left. exists 0. split; [constructor | done].
    + intros co cm' X. apply decl_runs in X as (al & Hal & X). destruct (means1_ok _ _ _ (Hmean al Hal)) as [_ Hall].
      destruct X as [(v & Hev & X) | (err & Hev & _)]; apply Hall in Hev; [injection Hev as -> | done].
      rewrite Hcast in X. apply decl_runs in X as (ad & Had & X).
      destruct X as [(v0 & Hev0 & X) | (err & Hev0 & _)]; inversion Hev0; subst.
      by apply (proj2 (Hloop al ad t Hal Had)).
  - split.
    + intros n o pm' [= <- <-]. destruct (Hmean al0 Hal0) as [[r' Hr'] Hall]. destruct (Hall _ Hr') as (Hz & e & -> & He).
      exists (CStopped e), cm. split; [| by apply post_stop]. apply decl_runs. eauto 10.
    + intros co cm' X. apply decl_runs in X as (al & Hal & X). destruct (Hmean al Hal) as [_ Hall].
      exists 0%nat, (OStopped err), pm. split; [done |].
      destruct X as [(v & Hev & X) | (e & Hev & -> & ->)]; apply Hall in Hev as (Hz & e' & Hev & He); [done |].
      injection Hev as <-. by apply post_stop.
Qed.

Lemma sim_for_loop l var vl from to down bd i w b x u f t' cf ct xl xd cs :
  var_named S var = Some (i, SInt w, (b, x)) -> assign_conv (SInt w) u = Some f -> computes from u f cf ->
  computes to t' (swrap w) ct -> late || reads_not S env i to = true -> temp_name xl = true -> temp_name xd = true -> xl <> xd ->
  monotone (fun n => pexec S F env late n bd) -> simulates (fun n => pexec S F env late n bd) cs ->
  simulates (fun n => pexec S F env late n (S_FOR l var vl from to down bd))
    [CBlock [CAssign b x cf; CDecl (CInt w) xl ct; CDecl (CInt 32) xd (CNum 0);
             CLoop (for_cond b x xl xd down) (for_steps b x xl xd down w) cs]].
Proof using Halias Hnames.
  intros Hv Hf Hfrom Hto Hrd Tl Td Hne Hm Hs. apply sim_block. intros E pm cm Hg.
  pose proof (obj_var _ _ _ _ _ Hv) as Ho. destruct (proj1 Hg _ _ _ _ Ho) as (a & Ha & HE).
  destruct (computes_run _ _ _ _ _ _ _ Hfrom Hg) as (r & Hr & Hrun).
  assert (f = swrap w) as -> by (destruct u; try discriminate Hf; by injection Hf as <-).
  setoid_rewrite (fun co cm' => cexecs_cons E (CAssign b x cf) _ cm co cm' eq_refl).
  cbn [pexec]. rewrite Hv, Hr. unfold put. rewrite Ha. destruct r as [fv | err].
  - destruct Hrun as (Hfv & Hev & Hall). pose proof (object_width _ _ _ _ Ho w eq_refl) as Hw.
    assert (value_of (SInt w) (swrap w fv) = true) as Hval by (by apply value_swrap).
    destruct (kept_store _ _ _ _ _ _ _ _ _ Hg Ho Ha Hval) as [Hk Hd].
    assert (means1 (values E cm) cf (Ok (swrap w fv))) as Hmn by (split; [eauto | done]).
    pose proof (assign_value E b x cf cm (swrap w fv) a (CInt w) Hmn HE Hd) as Xa.
    assert (cast_eval (CInt w) (swrap w fv) = swrap w fv) as Hcast
      by (apply (cast_of_value (SInt w)); [by intros ? [= <-] | done]). rewrite Hcast in Xa.
    pose proof (kept_good _ _ _ _ _ Hg Hk) as Hg1.
    destruct (computes_run _ _ _ _ _ _ _ Hto Hg1) as (r2 & Hr3 & _).
    assert (expr_result S env to (if late then <[a := swrap w fv]> pm else pm) = Some r2) as ->
      by (destruct late; [done | by rewrite <- (reads_not_eval i a (swrap w fv))]).
    destruct (for_decls_sim E i w b x xl xd a down to t' ct pm cm (fun n => pexec S F env late n bd) cs
      (<[a := swrap w fv]> pm) (<[a := swrap w fv]> cm) r2 Ho Ha Tl Td Hne Hto Hm Hs Hg1 Hk Hr3) as [Hfw Hbw].
    split.
    + intros n o pm' H. destruct r2 as [t | err].
      * destruct (Hfw n o pm' H) as (co & cm' & X & P). exists co, cm'. split; [| done]. left. eexists. split; [by apply Xa | done].
      * injection H as <- <-. destruct (Hfw 0%nat _ _ eq_refl) as (co & cm' & X & P). exists co, cm'.
        split; [left; eexists; split; [by apply Xa | done] |].
        destruct P as [Pm _]. destruct co; try done. by apply post_stop; apply Pm.
    + intros co cm' [(m1 & [_ ->]%Xa & X) | [? [? _]%Xa]]; [| done].
      destruct (Hbw _ _ X) as (n & o & pm' & H & P). destruct r2 as [t | err]; [by exists n, o, pm' |].
      injection H as <- <-. exists 0%nat, (OStopped err), pm. split; [done |]. destruct P as [Pm _].
      destruct co; try done. by apply post_stop; apply Pm.
  - destruct Hrun as (Hz & [err' Hev] & Hall). split.
    + intros n o pm' [= <- <-]. exists (CStopped err'), cm.
      split; [right; split; [done | by econstructor] |]. apply Hall in Hev as (? & [= <-] & ?). by apply post_stop.
    + intros co cm' X. exists 0%nat, (OStopped err), pm. split; [done |].
      assert (forall o m', cexec E (CAssign b x cf) cm o m' -> exists e, o = CStopped e /\ zero_division e) as Xs.
      { intros o m' H. inversion H as [? ? ? ? ? v1 a1 t1 Hev1 HE1 | ? ? ? ? ? e1 Hev1 | | | | | | | | | | | | |]; subst;
          apply Hall in Hev1 as (? & E1 & ?); [done |]. injection E1 as <-. eauto. }
      destruct X as [(m1 & X & _) | [_ X]]; apply Xs in X as (e & X & He); [done | subst co; by apply post_stop].
Qed.

(** ** Jumps *)

Lemma sim_jump run c o co : is_decl c = false -> (forall n m, run n m = Some (o, m)) ->
  (forall E m co' m', cexec E c m co' m' <-> co' = co /\ m' = m) -> (forall pm, match_out pm o co) -> simulates run [c].
Proof using Type.
  intros Hd Hr Hx Hm E pm cm Hg. setoid_rewrite (fun co cm' => cexecs_one E c cm co cm' Hd). split.
  - intros n o' pm' H. rewrite Hr in H. injection H as <- <-. exists co, cm. split; [by apply Hx |].
    split; [done | right; by apply (kept_refl pm cm E)].
  - intros co' cm' [-> ->]%Hx. exists 0%nat, o, pm. split; [done | split; [done | right; by apply (kept_refl pm cm E)]].
Qed.

Definition return_stmt : cstmt :=
  if M then CReturn (Some (CNum 0))
  else match result_type S F with
       | Some (Some _) => CReturn (Some (CObj false "pres"))
       | _ => CReturn None
       end.

Lemma sim_return l : M || bool_decide (is_Some (result_type S F)) = true ->
  simulates (fun n => pexec S F env late n (S_RETURN l)) [return_stmt].
Proof using Type.
  intros Hok. unfold return_stmt.
  assert (M = true -> forall E m co' m', cexec E (CReturn (Some (CNum 0))) m co' m' <-> co' = CReturned (Some 0) /\ m' = m) as H0.
  { intros _ E m co' m'. split; [| intros [-> ->]; repeat constructor].
    intros H. inversion H as [| | | | | | | | | | | | | ? ? ? v Hev | ? ? ? err Hev]; subst; by inversion Hev. }
  destruct M eqn:EM; [eapply (sim_jump _ _ OReturned (CReturned (Some 0))); [done | done | by apply H0 |] |].
  { intros pm. unfold match_out, return_value. by rewrite EM. }
  unfold result_type in *. destruct F as [f |] eqn:EF.
  - destruct (syms S !! f) as [s |] eqn:Es; [| done]. destruct (s_ty s) as [t |] eqn:Et.
    + destruct (scalar_of S t) as [ty |] eqn:Ety; [| done]. simpl. intros E pm cm Hg.
      assert (object f ty false "pres") as Ho.
      { eapply (obj_result f s ty); [done | done |]. unfold type_of_sym. by rewrite Et. }
      destruct (proj1 Hg _ _ _ _ Ho) as (a & Ha & HE). destruct Hg as (HB & HT & HS).
      destruct (HT _ _ _ _ _ Ho Ha) as (v & Hv & _). assert (cm !! a = Some v) as Hc by (by eapply lookup_weaken).
      assert (means1 (values E cm) (CObj false "pres") (Ok v)) as [Hev Hall]%means1_ok.
      { apply means1_obj. unfold values. by rewrite HE. }
      assert (post pm cm OReturned pm (CReturned (Some v)) cm) as Hpost.
      { split; [| right; by apply (kept_refl pm cm E)]. unfold match_out, return_value, result_type.
        rewrite EM, EF, Es, Et, Ety. simpl. exists f, a. by rewrite Hv. }
      setoid_rewrite (fun co cm' => cexecs_one E (CReturn (Some (CObj false "pres"))) cm co cm' eq_refl). split.
      * intros n o pm' [= <- <-]. exists (CReturned (Some v)), cm. split; [by constructor | done].
      * intros co cm' H. exists 0%nat, OReturned, pm. split; [done |].
        inversion H as [| | | | | | | | | | | | | ? ? ? v' Hev' | ? ? ? err Hev']; subst; apply Hall in Hev'; [| done].
        by injection Hev' as ->.
    + eapply (sim_jump _ _ OReturned (CReturned None)); [done | done | |].
      * intros E m co' m'. split; [intros H; by inversion H | intros [-> ->]; constructor].
      * intros pm. unfold match_out, return_value, result_type. by rewrite EM, EF, Es, Et.
  - eapply (sim_jump _ _ OReturned (CReturned None)); [done | done | |].
    + intros E m co' m'. split; [intros H; by inversion H | intros [-> ->]; constructor].
    + intros pm. unfold match_out, return_value, result_type. by rewrite EM, EF.
Qed.

Lemma sim_break l : simulates (fun n => pexec S F env late n (S_BREAK l)) [CBreak].
Proof using Type.
  eapply (sim_jump _ _ OBroke CBroke); [done | done | | done].
  intros E m co' m'. split; [intros H; by inversion H | intros [-> ->]; constructor].
Qed.

Lemma sim_cycle l : simulates (fun n => pexec S F env late n (S_CYCLE l)) [CContinue].
Proof using Type.
  eapply (sim_jump _ _ OCycled CContinued); [done | done | | done].
  intros E m co' m'. split; [intros H; by inversion H | intros [-> ->]; constructor].
Qed.

(** ** More fuel *)

Lemma pexecs_mono ss : Forall (fun s => monotone (fun n => pexec S F env late n s)) ss ->
  monotone (fun n => pexecs S F env late n ss).
Proof using Type.
  intros H n k m r Hk. revert m r. induction H as [| s ss Hs _ IH]; intros m r Hr; [done |]. cbn [pexecs] in *.
  destruct (pexec S F env late n s m) as [[o m1] |] eqn:E; [| done]. rewrite (Hs n k _ _ Hk E). simpl in *.
  destruct o; try done. by apply IH.
Qed.

Lemma pexec_mono s : monotone (fun n => pexec S F env late n s).
Proof using Type.
  induction s as [| | | l c th el IHt IHe | l c b IH | l v vl from to down b IH | l ss IH | | |] using Stmt_nested_ind;
    intros n k m r Hk H; try done; cbn [pexec] in *.
  - destruct (cond_test S env c m) as [[[|] |] |]; try done; [by apply (IHt n) |].
    destruct el as [e |]; [by apply (IHe n) | done].
  - eapply ploop_mono; [| done | done]. intros m1 r1. by apply (IH n).
  - destruct (var_named S v) as [[[i []] ?] |]; try done.
    destruct (expr_result S env from m) as [[f |] |]; try done. destruct (put env i (swrap w f) m) as [m1' |]; [| done].
    destruct (expr_result S env to (if late then m1' else m)) as [[t |] |]; try done. eapply ploop_mono; [| done | done]. intros m1 r1. by apply (IH n).
  - by apply (pexecs_mono ss IH n k).
Qed.
End Simulation.
