(* ===== verification/StmtPreserve.v ===== *)
(** What the C text of a statement does: the statements over scalar variables are
    translated to C statements with the same terminating runs. *)

From Stdlib Require Import ZArith Ascii String SpecFloat Lia.
From stdpp Require Import base list strings gmap.
From S2P Require Import Prelude Real Ast Lex Sem Emit CPrelude LexProps SemProps EmitText EmitFrame Preserve Stmts StmtSim.
Import SemProps.Consts EmitText.Strings EmitText.Ints Stmts Stmts.C.
#[local] Open Scope Z_scope.

(** * Text of statements *)

Lemma string_app_nil_r s : s +:+ EmptyString = s.
Proof. induction s as [| c s IH]; [done | exact (f_equal (String c) IH)]. Qed.

Lemma blank_app s r : blank (s +:+ r) = blank s && blank r.
Proof. unfold blank. by rewrite chars_app, forallb_app. Qed.

Lemma blank_spaces n : blank (spaces n) = true.
Proof. induction n as [| n IH]; [done |]. cbn [spaces]. rewrite blank_app, IH. done. Qed.

Lemma items_lead w s cs : blank w = true -> Items s cs -> Items (w +:+ s) cs.
Proof.
  intros Hw H. destruct H as [w' Hw' | s c r cs Hi Hs].
  - apply i_nil. by rewrite blank_app, Hw, Hw'.
  - rewrite <- string_app_assoc. apply i_cons; [| done]. rewrite <- (string_app_nil_r (w +:+ s)), string_app_assoc.
    by apply i_blank.
Qed.

Lemma items_app s cs r ds : Items s cs -> Items r ds -> Items (s +:+ r) (cs ++ ds).
Proof.
  intros H. revert r ds. induction H as [w Hw | s c q cs Hi Hs IH]; intros r ds Hr; simpl.
  - by apply items_lead.
  - rewrite string_app_assoc. apply i_cons; [done | by apply IH].
Qed.

(** The lines between two lines of a construct, with the space the next line starts with. *)
Lemma items_inner s cs n : Items s cs -> Items (nl +:+ s +:+ spaces n) cs.
Proof.
  intros H. apply items_lead; [done |]. rewrite <- (app_nil_r cs). apply items_app; [done |]. apply i_nil, blank_spaces.
Qed.

Lemma item_line n s c : Item s c -> Items (spaces n +:+ s +:+ nl) [c].
Proof.
  intros H. rewrite <- (string_app_nil_r (spaces n +:+ s +:+ nl)). apply i_cons; [| by apply i_nil].
  apply i_blank; [apply blank_spaces | done | done].
Qed.

(** * What a generator writes *)

(** [m] writes [text] and leaves the counter of FORs at [k]. *)
Definition emits (m : EM unit) (st : Emit) (text : string) (k : Z) : Prop :=
  m st = Ok (tt, with_for_count k (with_body (body st +:+ text) st)).

Lemma emits_nil st : emits (ret tt) st EmptyString (for_count st).
Proof. unfold emits, ret. rewrite string_app_nil_r. by destruct st. Qed.

Lemma emits_line s st : emits (line s) st (spaces (indent st) +:+ s +:+ nl) (for_count st).
Proof. by destruct st. Qed.

Lemma emits_line_at s st n k : indent st = n -> for_count st = k -> emits (line s) st (spaces n +:+ s +:+ nl) k.
Proof. intros <- <-. apply emits_line. Qed.

Lemma emits_seq m m' st t k t' k' : emits m st t k ->
  emits m' (with_for_count k (with_body (body st +:+ t) st)) t' k' -> emits (do* m in m') st (t +:+ t') k'.
Proof.
  unfold emits. intros H H'. rewrite (bind_ok _ _ _ _ _ H), H'. cbn. by rewrite string_app_assoc.
Qed.

Lemma emits_bind {A} (m : EM A) k st a t j : m st = Ok (a, st) -> emits (k a) st t j -> emits (bind m k) st t j.
Proof. unfold emits. intros H H'. by rewrite (bind_ok _ _ _ _ _ H). Qed.

Lemma emits_line_as s s' st n k : indent st = n -> for_count st = k -> s = s' -> emits (line s) st (spaces n +:+ s' +:+ nl) k.
Proof. intros H1 H2 <-. by apply emits_line_at. Qed.

Lemma emits_indented m st t k : emits m (with_indent (S (indent st)) st) t k -> emits (indented m) st t k.
Proof.
  unfold emits, indented. intros H. rewrite (bind_ok _ _ _ tt (with_indent (S (indent st)) st)) by done.
  rewrite (bind_ok _ _ _ _ _ H). by destruct st.
Qed.

(** The state a statement is translated in, but for the text and the counter. *)
Definition context (S : Sem) (F : option symid) (M : bool) (st : Emit) : Prop :=
  sem st = S /\ cur_func st = F /\ in_main st = M /\ 0 <= for_count st.

Section Translation.
Variables (S : Sem) (F : option symid) (M : bool) (env : symid -> option addr) (late : bool).
Hypothesis Hbasic : SemProps.Consts.basic S.
Hypothesis Hident : forall i ty b x, object S F i ty b x -> c_ident x = true /\ temp_name x = false.
Hypothesis Halias : forall i j ty ty' b x b' x' a, object S F i ty b x -> object S F j ty' b' x' ->
  env i = Some a -> env j = Some a -> ty = ty'.

Abbreviation good := (StmtSim.good S F env).
Abbreviation simulates := (StmtSim.simulates S F M env).
Abbreviation computes := (StmtSim.computes S F env).

Lemma context_after st t k : context S F M st -> for_count st <= k -> context S F M (with_for_count k (with_body t st)).
Proof using Type. intros (H1 & H2 & H3 & H4) Hk. repeat split; try done. simpl. lia. Qed.

Lemma context_indent st n : context S F M st -> context S F M (with_indent n st).
Proof using Type. done. Qed.

Lemma scalar_var_object n i s ty : scalar_var S n i s ty -> object S F i ty (s_is_varparam s) (s_cname s).
Proof using Type.
  intros (Hl & Hi & Hk & t & Ht & Hs). apply (obj_var _ _ n). unfold var_named, type_of_sym.
  by rewrite Hl, Hi, Ht, Hs, Hk.
Qed.

(** ** Expressions *)

(** A typed expression has a value in a typed memory. *)
Lemma peval_total pm cm E e : good pm cm E -> forall t, ptype S e = Some t -> is_Some (peval S (store_of env pm) e).
Proof using Type.
  intros (HB & HT & _).
  induction e as [l v | | | l v | l n | l n args IH | | | | l op a b IHa IHb | l op a IH |] using Expr_nested_ind;
    intros t H; try discriminate H; cbn [ptype peval] in *.
  - destruct (fits64 v); [eauto | done].
  - destruct (typed SChar v); [eauto | done].
  - revert H. unfold name_type, name_value. destruct (lookup_in _ _ n) as [i |] eqn:El; [| done].
    destruct (syms S !! i) as [s |] eqn:Ei; [| done]. destruct (s_ty s) as [u |] eqn:Eu; [| done].
    destruct (scalar_of S u) as [ty |] eqn:Es; [| done]. destruct (s_kind s) eqn:Ek; try done.
    + destruct (typed ty (s_ival s)); [eauto | done].
    + assert (object S F i ty (s_is_varparam s) (s_cname s)) as Ho by (eapply (scalar_var_object n); repeat split; eauto).
      destruct (HB _ _ _ _ Ho) as (a & Ha & _). destruct (HT _ _ _ _ _ Ho Ha) as (v & Hv & Hval).
      unfold store_of. rewrite Ha. simpl. rewrite Hv. unfold typed. rewrite Hval. eauto.
  - destruct args as [|a [|]]; try discriminate H. apply Forall_cons in IH as [IH _].
    destruct (lookup_in _ _ n); [done |]. destruct (ptype S a) as [ta |] eqn:Ea; [| done].
    destruct (IH ta eq_refl) as [[t' r] E']. rewrite E'. apply peval_ptype in E'. rewrite E' in Ea. injection Ea as ->.
    rewrite builtin_value_split, H. by eexists.
  - destruct (ptype S a) as [ta |] eqn:Ea; [| done]. destruct (ptype S b) as [tb |] eqn:Eb; [| done].
    destruct (IHa ta eq_refl) as [[t1 r1] E1]. destruct (IHb tb eq_refl) as [[t2 r2] E2]. rewrite E1, E2.
    apply peval_ptype in E1, E2. rewrite E1 in Ea. rewrite E2 in Eb. injection Ea as ->. injection Eb as ->.
    rewrite bin_value_split, H. by eexists.
  - destruct (ptype S a) as [ta |] eqn:Ea; [| done]. destruct (IH ta eq_refl) as [[t1 r1] E1]. rewrite E1.
    apply peval_ptype in E1. rewrite E1 in Ea. injection Ea as ->. rewrite un_value_split, H. by eexists.
Qed.

(** The stores a statement may run in. *)
Definition config : Type := {k : mem * mem * cenv | good k.1.1 k.1.2 k.2}.

Lemma expr_text st e t : context S F M st -> ptype S e = Some t ->
  exists ce c, gen_expr e st = Ok (ce, st) /\ scalar_of S (ce_ty ce) = Some t /\ Prim (ce_s ce) c /\ computes e t id c.
Proof using Hbasic Hident.
  intros (Es & _) Ht. rewrite <- Es in Hbasic.
  assert (forall k : config, agree (sem st) (store_of env (`k).1.1) (values (`k).2 (`k).1.2)) as Hagree.
  { intros [[[pm cm] E] (HB & HT & HS)] n i s ty Hv. simpl in *. rewrite Es in Hv. apply scalar_var_object in Hv as Ho.
    destruct (HB _ _ _ _ Ho) as (a & Ha & HE). destruct (HT _ _ _ _ _ Ho Ha) as (v & Hv' & _).
    split; [by apply (Hident _ _ _ _ Ho) |]. unfold values, store_of. rewrite HE, Ha. simpl. rewrite Hv'.
    by eapply lookup_weaken. }
  assert (idents (sem st)) as Hid.
  { intros n i s ty Hv. rewrite Es in Hv. apply scalar_var_object in Hv. by apply (Hident _ _ _ _ Hv). }
  destruct (gen_expr_ok st _ _ Hbasic Hagree Hid e t) as [(ce & Ec & Hs & c & Hp & Hm) Hw].
  - by rewrite Es.
  - intros [[[pm cm] E] Hg]. simpl. rewrite Es. by eapply peval_total.
  - exists ce, c. rewrite Es in Hs. repeat split; try done. intros pm cm E Hg.
    destruct (peval_total _ _ _ _ Hg _ Ht) as [[t' r] Hr]. pose proof (peval_ptype _ _ _ _ _ Hr) as Ht'.
    rewrite Ht in Ht'. injection Ht' as <-. exists r. split; [done |].
    specialize (Hm (exist _ (pm, cm, E) Hg)). pose proof (wells_at _ _ (exist _ (pm, cm, E) Hg) Hw) as Hw1. simpl in Hm, Hw1.
    rewrite Es, Hr in Hm, Hw1. split; [done |]. simpl in Hm. unfold id. by rewrite rbind_id.
Qed.

Lemma ctype_int st t w : context S F M st -> scalar_of S t = Some (SInt w) -> in_sem (ctype t) st = Ok (int_ctype w, st).
Proof using Type.
  intros (Es & _) Hs. apply in_sem_pure. rewrite Es. unfold scalar_of, SemProps.Consts.desc_at in Hs.
  unfold ctype, type_fuel. rewrite (bind_ok get _ S S S eq_refl). cbn [ctype_ref]. unfold get_type, bind.
  destruct (types S !! t) as [ty |]; [| done]. simpl in Hs. destruct (t_desc ty) as [w' n | | | | | | | | | | | |]; try done.
  destruct (width_ok w') eqn:Ew; [| done]. injection Hs as <-. unfold int_ctype.
  by destruct (width_ok_cases w' Ew) as [-> | [-> | ->]].
Qed.

Lemma desc_text st t ty : context S F M st -> scalar_of S t = Some ty ->
  exists d, in_sem (desc_of t) st = Ok (d, st) /\ desc_of_sty ty d /\ match ty with SEnum v => v = t | _ => True end.
Proof using Type.
  intros (Es & _) Hs. rewrite <- Es in Hs. destruct (scalar_desc st t ty Hs) as (d & Hd & H).
  exists d. split; [apply in_sem_pure; by apply SemProps.Consts.desc_of_ok | done].
Qed.

(** A conversion for storage. *)
Lemma conv_text st ce to l e u ty f c : context S F M st -> scalar_of S (ce_ty ce) = Some u -> scalar_of S to = Some ty ->
  assign_conv ty u = Some f -> Prim (ce_s ce) c -> computes e u id c ->
  exists text c', conv ce to l st = Ok (text, st) /\ Prim text c' /\ computes e u f c'.
Proof using Type.
  intros Hc Hu Hty Hf Hp Hm.
  destruct (desc_text st _ _ Hc Hu) as (du & Eu & Du & Xu). destruct (desc_text st _ _ Hc Hty) as (dt & Et & Dt & Xt).
  assert (forall t g, (forall v, value_of u v = true -> cast_eval t v = g v) -> computes e u g (CUn (Cast t) c)) as Hcast.
  { intros t g Hg pm cm E HG. destruct (Hm pm cm E HG) as (r & Hr & Hw & Hmn). exists r. split; [done |]. split; [done |].
    rewrite rbind_id in Hmn. apply means1_un; [done |]. intros v ->. by apply Hg, (proj2 Hw). }
  unfold conv, ty_desc. rewrite (bind_ok _ _ _ _ _ Eu), (bind_ok _ _ _ _ _ Et).
  destruct ty as [w | | | t]; simpl in Dt.
  - destruct Dt as [n ->]. assert (d_is_int du || d_is_enum du = true) as ->.
    { destruct u; try discriminate Hf; [by destruct Du as [? ->] | by destruct Du as (? & ? & ->)]. }
    assert (f = swrap w) as -> by (destruct u; try discriminate Hf; by injection Hf as <-).
    unfold cast_to. rewrite (bind_ok _ _ _ _ _ (ctype_int st to w Hc Hty)).
    eexists _, _. split; [reflexivity |]. split; [| by apply (Hcast (CInt w))].
    as_text ("(" +:+ ("(" +:+ cty_name (CInt w) +:+ ")" +:+ ce_s ce) +:+ ")"). by apply p_paren, f_unary, u_cast, u_prim.
  - subst dt. destruct u; try discriminate Hf. injection Hf as <-. rewrite Du. eexists _, _. split; [reflexivity |].
    split; [| apply (Hcast CByte); intros v Hv; by apply value_bool in Hv as [-> | ->]].
    as_text ("(" +:+ ("(" +:+ cty_name CByte +:+ ")" +:+ ce_s ce) +:+ ")"). by apply p_paren, f_unary, u_cast, u_prim.
  - subst dt. destruct u; try discriminate Hf. injection Hf as <-. rewrite Du. by exists (ce_s ce), c.
  - destruct Dt as (lo & hi & ->). destruct u as [| | | u]; try discriminate Hf. simpl in Hf. case_bool_decide as Ee; [| done].
    injection Hf as <-. subst. rewrite Nat.eqb_refl. by exists (ce_s ce), c.
Qed.

(** ** Variables *)

Lemma var_named_sym n i ty b x : var_named S n = Some (i, ty, (b, x)) ->
  exists s t, lookup_in (syms S) (scopes S) n = Some i /\ syms S !! i = Some s /\ s_kind s = SY_VAR /\
    s_ty s = Some t /\ scalar_of S t = Some ty /\ b = s_is_varparam s /\ x = s_cname s.
Proof using Type.
  unfold var_named, type_of_sym. destruct (lookup_in _ _ n) as [j |]; [| done].
  destruct (syms S !! j) as [s |] eqn:Es; [| done]. destruct (s_ty s) as [t |] eqn:Et; [| done].
  destruct (scalar_of S t) as [u |] eqn:Eu; [| done]. destruct (s_kind s) eqn:Ek; try done. intros [= <- <- <- <-].
  by exists s, t.
Qed.

Lemma lookup_text st n i s : context S F M st -> lookup_in (syms S) (scopes S) n = Some i -> syms S !! i = Some s ->
  in_sem (lookup n) st = Ok (Some (i, s), st).
Proof using Type. intros (Es & _) Hl Hs. rewrite <- Es in Hl, Hs. by apply (lookup_pure_ok st n _ Hl). Qed.

Lemma object_prim i ty b x : object S F i ty b x -> Prim (if b then "(*" +:+ x +:+ ")" else x) (CObj b x).
Proof using Hident.
  intros Ho. destruct (Hident _ _ _ _ Ho) as [Hid _]. destruct b; [| by apply p_obj].
  as_text ("(" +:+ ("*" +:+ x) +:+ ")"). by apply p_paren, f_unary, u_star.
Qed.

Lemma var_text st s t : s_ty s = Some t ->
  var_ce s st = Ok (mk (if s_is_varparam s then "(*" +:+ s_cname s +:+ ")" else s_cname s) t true, st).
Proof using Type. intros Ht. unfold var_ce. rewrite Ht. by destruct (s_is_varparam s). Qed.

Lemma target_text st le i ty b x : context S F M st -> target S F le = Some (i, ty, (b, x)) ->
  exists t, gen_target le st = Ok (mk (if b then "(*" +:+ x +:+ ")" else x) t true, st) /\ scalar_of S t = Some ty.
Proof using Type.
  intros Hc Ht. destruct le as [| | | | l n | | | | | | |]; try discriminate Ht. cbn [target] in Ht.
  destruct (lookup_in (syms S) (scopes S) n) as [j |] eqn:El; [| done].
  destruct (syms S !! j) as [s |] eqn:Es; [| done].
  unfold gen_target. rewrite (bind_ok _ _ _ _ _ (lookup_text st n j s Hc El Es)).
  destruct (s_kind s) eqn:Ek;
    try (apply var_named_sym in Ht as (s' & t & El' & Es' & Ek' & Et & Hty & -> & ->); congruence).
  - apply var_named_sym in Ht as (s' & t & El' & Es' & Ek' & Et & Hty & -> & ->).
    rewrite El in El'. injection El' as <-. rewrite Es in Es'. injection Es' as <-.
    exists t. split; [| done]. cbn [gen_expr]. unfold gen_name.
    rewrite (bind_ok _ _ _ _ _ (lookup_text st n j s Hc El Es)), Ek. by apply var_text.
  - case_bool_decide as Hf; [| done]. unfold type_of_sym in Ht. destruct (s_ty s) as [t |] eqn:Et; [| done].
    destruct (scalar_of S t) as [u |] eqn:Eu; [| done]. injection Ht as <- <- <- <-. exists t. split; [| done].
    rewrite (bind_ok get _ st st st eq_refl). destruct Hc as (_ & Hcf & _).
    by rewrite bool_decide_true by (by rewrite Hcf).
Qed.

(** ** Statements *)

(** [m] writes statements that have the runs of [run]. *)
Definition translates (m : EM unit) (run : nat -> mem -> option (outcome * mem)) : Prop :=
  forall st, context S F M st -> exists text k cs, emits m st text k /\ for_count st <= k /\ Items text cs /\ nodecl cs /\ simulates run cs.

Lemma translates_assign l le re : stmt_ok S F M env late false (S_ASSIGN l le re) = true ->
  translates (gen_assign l le re) (fun n => pexec S F env late n (S_ASSIGN l le re)).
Proof using Hbasic Hident Halias.
  cbn [stmt_ok]. destruct (target S F le) as [[[i ty] [b x]] |] eqn:Et; [| done].
  destruct (ptype S re) as [u |] eqn:Eu; [| done]. intros [f Hf]%bool_decide_eq_true st Hc.
  destruct (target_text st le i ty b x Hc Et) as (t & Eg & Hty).
  destruct (expr_text st re u Hc Eu) as (ce & c & Ee & Hs & Hp & Hm).
  destruct (conv_text st ce t l re u ty f c Hc Hs Hty Hf Hp Hm) as (text & c' & Ec & Hp' & Hm').
  exists (spaces (indent st) +:+ ((if b then "(*" +:+ x +:+ ")" else x) +:+ " = " +:+ text +:+ ";") +:+ nl), (for_count st),
    [CAssign b x c'].
  split; [| split; [| split; [| split]]].
  - unfold emits, gen_assign. rewrite (bind_ok _ _ _ _ _ Eg). cbn [mk ce_lval negb].
    rewrite (bind_ok _ _ _ _ _ Ee). cbn [ce_ty]. rewrite (bind_ok _ _ _ _ _ Ec). apply emits_line.
  - done.
  - apply item_line. as_text (((if b then "(*" +:+ x +:+ ")" else x) +:+ " = " +:+ text) +:+ ";").
    apply i_assign, a_assign; [by eapply object_prim, target_object | by apply f_unary, u_prim].
  - by repeat constructor.
  - by eapply sim_assign.
Qed.

Lemma translates_seq m m' run run' : monotone run -> monotone run' -> translates m run -> translates m' run' ->
  translates (do* m in m') (fun n pm => then_do (run n pm) (run' n)).
Proof using Type.
  intros Hm Hm' H H' st Hc. destruct (H st Hc) as (t & k & cs & E1 & K1 & I1 & N1 & S1).
  destruct (H' _ (context_after st (body st +:+ t) k Hc K1)) as (t' & k' & cs' & E2 & K2 & I2 & N2 & S2).
  exists (t +:+ t'), k', (cs ++ cs'). split; [by eapply emits_seq |]. split; [simpl in K2; lia |].
  split; [by apply items_app |]. split; [by apply Forall_app | by apply sim_seq].
Qed.

Lemma translates_nil : translates (ret tt) (fun _ pm => Some (ONormal, pm)).
Proof using Type.
  intros st Hc. exists EmptyString, (for_count st), []. split; [apply emits_nil |]. split; [done |].
  split; [by apply i_nil |]. split; [constructor | apply sim_nil].
Qed.

Lemma translates_each ss : Forall (fun s => translates (gen_stmt s) (fun n => pexec S F env late n s)) ss ->
  translates (gen_each gen_stmt ss) (fun n => pexecs S F env late n ss).
Proof using Type.
  induction 1 as [| s ss Hs _ IH]; [apply translates_nil |].
  apply (translates_seq _ _ (fun n => pexec S F env late n s) (fun n => pexecs S F env late n ss));
    [apply pexec_mono | apply pexecs_mono, List.Forall_forall; intros; apply pexec_mono | done | done].
Qed.

Lemma translates_indented m run : translates m run -> translates (indented m) run.
Proof using Type.
  intros H st Hc. destruct (H _ (context_indent st (Datatypes.S (indent st)) Hc)) as (t & k & cs & E & R).
  exists t, k, cs. split; [by apply emits_indented | done].
Qed.

Lemma translates_block ss l : translates (gen_each gen_stmt ss) (fun n => pexecs S F env late n ss) ->
  translates (gen_stmt (S_BLOCK l ss)) (fun n => pexec S F env late n (S_BLOCK l ss)).
Proof using Type.
  intros H st Hc. destruct (translates_indented _ _ H _ (context_after st (body st +:+ (spaces (indent st) +:+ "{" +:+ nl)) (for_count st) Hc (Z.le_refl _)))
    as (t & k & cs & E & K & I & N & Hs).
  exists (spaces (indent st) +:+ ("{" +:+ (nl +:+ t +:+ spaces (indent st)) +:+ "}") +:+ nl), k, [CBlock cs].
  split; [| split; [exact K | split; [| split; [by repeat constructor | by apply sim_block]]]].
  - cbn [gen_stmt]. unfold emits.
    replace (spaces (indent st) +:+ ("{" +:+ (nl +:+ t +:+ spaces (indent st)) +:+ "}") +:+ nl)
      with ((spaces (indent st) +:+ "{" +:+ nl) +:+ (t +:+ (spaces (indent st) +:+ "}" +:+ nl)))
      by (rewrite !string_app_assoc; reflexivity).
    eapply emits_seq; [by apply emits_line_at |]. eapply emits_seq; [exact E | by apply emits_line_at].
  - apply item_line, i_block, items_inner, I.
Qed.

(** A statement as the body of another. *)
Definition body_ok (s : Stmt) : Prop :=
  translates (gen_stmt s) (fun n => pexec S F env late n s) /\
  translates (gen_block_body gen_stmt s) (fun n => pexec S F env late n s).

Lemma body_of s : (forall l ss, s <> S_BLOCK l ss) -> translates (gen_stmt s) (fun n => pexec S F env late n s) -> body_ok s.
Proof using Type.
  intros Hs H. split; [done |]. unfold gen_block_body. destruct s; try (by apply translates_indented). by destruct (Hs l stmts).
Qed.

Lemma cond_text st what e : context S F M st -> ptype S e = Some SBool ->
  exists s c, gen_cond what e st = Ok (s, st) /\ Full s c /\ computes e SBool id c.
Proof using Hbasic Hident.
  intros Hc Ht. destruct (expr_text st e SBool Hc Ht) as (ce & c & E & Hs & Hp & Hm).
  destruct (desc_text st _ _ Hc Hs) as (d & Ed & -> & _). exists (ce_s ce), c.
  split; [| split; [by apply f_unary, u_prim | done]].
  unfold gen_cond, ty_desc. by rewrite (bind_ok _ _ _ _ _ E), (bind_ok _ _ _ _ _ Ed).
Qed.

Lemma translates_while l e s : ptype S e = Some SBool -> body_ok s ->
  translates (gen_stmt (S_WHILE l e s)) (fun n => pexec S F env late n (S_WHILE l e s)).
Proof using Hbasic Hident.
  intros Ht [_ Hb] st Hc. destruct (cond_text st "WHILE" e Hc Ht) as (x & c & Ex & Hf & Hm).
  destruct (Hb _ (context_after st (body st +:+ (spaces (indent st) +:+ ("while (" +:+ x +:+ ") {") +:+ nl)) (for_count st) Hc (Z.le_refl _)))
    as (t & k & cs & E & K & I & N & Hs).
  exists (spaces (indent st) +:+ ("while (" +:+ x +:+ ") {" +:+ (nl +:+ t +:+ spaces (indent st)) +:+ "}") +:+ nl), k, [CLoop c [] cs].
  split; [| split; [exact K | split; [| split; [by repeat constructor | apply sim_while; [apply pexec_mono | done | done]]]]].
  - cbn [gen_stmt]. unfold emits. rewrite (bind_ok _ _ _ _ _ Ex).
    replace (spaces (indent st) +:+ ("while (" +:+ x +:+ ") {" +:+ (nl +:+ t +:+ spaces (indent st)) +:+ "}") +:+ nl)
      with ((spaces (indent st) +:+ ("while (" +:+ x +:+ ") {") +:+ nl) +:+ (t +:+ (spaces (indent st) +:+ "}" +:+ nl)))
      by (rewrite !string_app_assoc; reflexivity).
    eapply emits_seq; [by apply emits_line_at |]. eapply emits_seq; [exact E | by apply emits_line_at].
  - apply item_line, i_while; [done |]. apply items_inner, I.
Qed.

Lemma translates_if l e th el : ptype S e = Some SBool -> body_ok th -> match el with Some s => body_ok s | None => True end ->
  translates (gen_stmt (S_IF l e th el)) (fun n => pexec S F env late n (S_IF l e th el)).
Proof using Hbasic Hident.
  intros Ht [_ Hth] Hel st Hc. destruct (cond_text st "IF" e Hc Ht) as (x & c & Ex & Hf & Hm).
  destruct (Hth _ (context_after st (body st +:+ (spaces (indent st) +:+ ("if (" +:+ x +:+ ") {") +:+ nl)) (for_count st) Hc (Z.le_refl _)))
    as (t & k & cs & E & K & I & N & Hs).
  set (sp := spaces (indent st)). destruct el as [s |].
  - destruct Hel as [_ Hel].
    set (st2 := with_for_count k (with_body (((body st +:+ (sp +:+ ("if (" +:+ x +:+ ") {") +:+ nl)) +:+ t) +:+ (sp +:+ "} else {" +:+ nl)) st)).
    destruct (Hel st2) as (t2 & k2 & cs2 & E2 & K2 & I2 & N2 & Hs2); [by apply context_after |].
    exists (sp +:+ ("if (" +:+ x +:+ ") {" +:+ (nl +:+ t +:+ sp) +:+ "} else {" +:+ (nl +:+ t2 +:+ sp) +:+ "}") +:+ nl), k2, [CIf c cs cs2].
    split; [| split; [etransitivity; [exact K | exact K2] | split; [| split; [by repeat constructor |]]]].
    + cbn [gen_stmt]. unfold emits. rewrite (bind_ok _ _ _ _ _ Ex).
      replace (sp +:+ ("if (" +:+ x +:+ ") {" +:+ (nl +:+ t +:+ sp) +:+ "} else {" +:+ (nl +:+ t2 +:+ sp) +:+ "}") +:+ nl)
        with ((sp +:+ ("if (" +:+ x +:+ ") {") +:+ nl) +:+ (t +:+ (((sp +:+ "} else {" +:+ nl) +:+ t2) +:+ (sp +:+ "}" +:+ nl))))
        by (rewrite !string_app_assoc; reflexivity).
      eapply emits_seq; [by apply emits_line_at |]. eapply emits_seq; [exact E |]. eapply emits_seq; [| by apply emits_line_at].
      eapply emits_seq; [by apply emits_line_at |]. unfold st2 in E2. exact E2.
    + apply item_line, i_if_else; [done | by apply items_inner | by apply items_inner].
    + by apply (sim_if S F M env e c (fun n => pexec S F env late n th) (fun n => pexec S F env late n s)).
  - exists (sp +:+ ("if (" +:+ x +:+ ") {" +:+ (nl +:+ t +:+ sp) +:+ "}") +:+ nl), k, [CIf c cs []].
    split; [| split; [exact K | split; [| split; [by repeat constructor |]]]].
    + cbn [gen_stmt]. unfold emits. rewrite (bind_ok _ _ _ _ _ Ex).
      replace (sp +:+ ("if (" +:+ x +:+ ") {" +:+ (nl +:+ t +:+ sp) +:+ "}") +:+ nl)
        with ((sp +:+ ("if (" +:+ x +:+ ") {") +:+ nl) +:+ (t +:+ (EmptyString +:+ (sp +:+ "}" +:+ nl))))
        by (rewrite !string_app_assoc; reflexivity).
      eapply emits_seq; [by apply emits_line_at |]. eapply emits_seq; [exact E |].
      eapply emits_seq; [exact (emits_nil _) | by apply emits_line_at].
    + apply item_line, i_if; [done | by apply items_inner].
    + by apply (sim_if S F M env e c (fun n => pexec S F env late n th) (fun _ m => Some (ONormal, m)) cs []); [| | apply sim_nil].
Qed.

(** ** FOR *)

Lemma temp_idents n : 0 <= n -> c_ident ("lim_" +:+ Zs n) = true /\ c_ident ("done_" +:+ Zs n) = true /\
  temp_name ("lim_" +:+ Zs n) = true /\ temp_name ("done_" +:+ Zs n) = true.
Proof using Type.
  intros Hn.
  assert (forallb (fun c => isalnum c || ceq c "_") (chars (Zs n)) = true) as Hd.
  { rewrite chars_Zs, (proj2 (Z.ltb_ge n 0)) by done. destruct (dec_bytes_value n Hn) as [Hd _].
    rewrite forallb_forall in Hd |- *. intros c Hc. unfold isalnum. rewrite (Hd c Hc). by rewrite orb_true_r. }
  split; [unfold c_ident; rewrite chars_app; simpl; exact Hd |].
  split; [unfold c_ident; rewrite chars_app; simpl; exact Hd |].
  generalize (Zs n). intros z. split; by destruct z.
Qed.

(** The head of the C loop. *)
Definition for_head (v xl xd w : string) (down : bool) : string :=
  "for (; !" +:+ xd +:+ " && " +:+ v +:+ (if down then " >= " else " <= ") +:+ xl +:+ "; " +:+ xd +:+ " = " +:+ v
  +:+ " == " +:+ xl +:+ ", " +:+ v +:+ " = pas_" +:+ (if down then "sub" else "add") +:+ w +:+ "(" +:+ v +:+ ", 1)) {".

Lemma for_item v b x xl xd w down r cs : Prim v (CObj b x) -> c_ident xl = true -> c_ident xd = true -> Items r cs ->
  Item (for_head v xl xd (Zs w) down +:+ r +:+ "}") (CLoop (for_cond b x xl xd down) (for_steps b x xl xd down w) cs).
Proof using Type.
  intros Hv Hl Hd Hr. set (op := if down then OP_GE else OP_LE).
  as_text ("for (; " +:+ infix ("!" +:+ xd) "&&" (infix v (op_text op) xl) +:+ "; "
    +:+ (xd +:+ " = " +:+ infix v (op_text OP_EQ) xl) +:+ ", "
    +:+ (v +:+ " = " +:+ ((if down then "pas_sub" else "pas_add") +:+ Zs w +:+ "(" +:+ v +:+ ", " +:+ "1" +:+ ")"))
    +:+ ") {" +:+ r +:+ "}").
  { unfold for_head, op. destruct down; text_eq. }
  apply i_for; [| | | done].
  - apply c_and; [by apply u_lognot, u_prim, p_obj | by unfold op; destruct down | by apply u_prim | by apply u_prim, p_obj].
  - apply a_assign; [by apply p_obj |]. apply f_infix; [done | by apply u_prim | by apply u_prim, p_obj].
  - apply a_assign; [done |]. apply f_unary, u_prim.
    apply (p_call (if down then OP_SUB else OP_ADD)); [by destruct down | by apply u_prim |]. by apply u_const.
Qed.

Lemma translates_for l var vl from to down s : stmt_ok S F M env late false (S_FOR l var vl from to down s) = true -> body_ok s ->
  translates (gen_stmt (S_FOR l var vl from to down s)) (fun n => pexec S F env late n (S_FOR l var vl from to down s)).
Proof using Hbasic Hident Halias.
  cbn [stmt_ok]. destruct (var_named S var) as [[[i [w | | |]] [b x]] |] eqn:Ev; try done.
  destruct (ptype S from) as [u |] eqn:Eu; [| done]. intros Hok [_ Hbody] st Hc.
  apply andb_true_iff in Hok as [[[[f Hf]%bool_decide_eq_true Hto]%andb_true_iff Hrd]%andb_true_iff _].
  destruct (ptype S to) as [[w' | | |] |] eqn:Eto; try done.
  destruct (var_named_sym _ _ _ _ _ Ev) as (sy & vt & El & Es & Ek & Et & Hty & -> & ->).
  pose proof (obj_var S F _ _ _ _ _ Ev) as Ho. pose proof (object_prim _ _ _ _ Ho) as Hpv.
  destruct (desc_text st _ _ Hc Hty) as (dv & Edv & [nv ->] & _).
  destruct (expr_text st from u Hc Eu) as (cf & c & Ef & Hs & Hp & Hm).
  destruct (expr_text st to (SInt w') Hc Eto) as (ct & c2 & Et2 & Hs2 & Hp2 & Hm2).
  destruct (desc_text st _ _ Hc Hs2) as (dt & Edt & [nt ->] & _).
  set (v := if s_is_varparam sy then "(*" +:+ s_cname sy +:+ ")" else s_cname sy) in *.
  set (k0 := for_count st + 1). set (xl := "lim_" +:+ Zs k0). set (xd := "done_" +:+ Zs k0).
  assert (0 <= k0) as Hk0 by (destruct Hc as (_ & _ & _ & ?); unfold k0; lia).
  destruct (temp_idents k0 Hk0) as (Il & Id & Tl & Td). fold xl xd in Il, Id, Tl, Td.
  set (sp := spaces (indent st)). set (sp1 := spaces (Datatypes.S (indent st))).
  set (t0 := sp +:+ "{" +:+ nl).
  set (st1 := with_indent (Datatypes.S (indent st)) (with_for_count k0 (with_body (body st +:+ t0) st))).
  assert (context S F M st1) as Hc1 by (destruct Hc as (? & ? & ? & ?); done).
  destruct (conv_text st1 cf vt (expr_loc from) from u (SInt w) f c Hc1 Hs Hty Hf Hp Hm) as (tf & cf' & Ecv & Hpf & Hmf).
  set (t1 := sp1 +:+ (v +:+ " = " +:+ tf +:+ ";") +:+ nl).
  set (t2 := sp1 +:+ (int_ctype w +:+ " " +:+ xl +:+ " = " +:+ ("(" +:+ int_ctype w +:+ ")" +:+ ce_s ct) +:+ ";") +:+ nl).
  set (t3 := sp1 +:+ ("int" +:+ " " +:+ xd +:+ " = " +:+ "0" +:+ ";") +:+ nl).
  set (t4 := sp1 +:+ for_head v xl xd (Zs w) down +:+ nl).
  set (st5 := with_for_count k0 (with_body ((((body st1 +:+ t1) +:+ t2) +:+ t3) +:+ t4) st1)).
  destruct (Hbody st5) as (tb & k & cs & E & K & I & N & Hsim); [by apply context_after |].
  set (t5 := sp1 +:+ "}" +:+ nl). set (t6 := sp +:+ "}" +:+ nl).
  exists (t0 +:+ ((t1 +:+ (t2 +:+ (t3 +:+ (t4 +:+ (tb +:+ t5))))) +:+ t6)), k.
  eexists. split; [| split; [change (k0 <= k) in K; unfold k0 in K; lia | split; [| split]]].
  - cbn [gen_stmt]. unfold gen_for. unfold emits.
    rewrite (bind_ok _ _ _ _ _ (lookup_text st var i sy Hc El Es)), Ek, Et, (bind_ok _ _ _ _ _ Edv).
    rewrite (bind_ok _ _ _ _ _ (var_text st sy vt Et)), (bind_ok _ _ _ _ _ Ef), (bind_ok _ _ _ _ _ Et2).
    unfold ty_desc. rewrite (bind_ok _ _ _ _ _ Edt). cbn [d_is_int negb].
    rewrite (bind_ok _ _ _ _ _ (ctype_int st vt w Hc Hty)), (bind_ok get _ st st st eq_refl).
    rewrite (bind_ok _ _ _ tt (with_for_count k0 st)) by done.
    change (emits (do* line "{" in do* indented (
        let* cf0 := conv cf vt (expr_loc from) in
        do* line (v +:+ " = " +:+ cf0 +:+ ";") in
        do* line (int_ctype w +:+ " lim_" +:+ Zs k0 +:+ " = (" +:+ int_ctype w +:+ ")" +:+ ce_s ct +:+ ";") in
        do* line ("int done_" +:+ Zs k0 +:+ " = 0;") in
        do* line ("for (; !done_" +:+ Zs k0 +:+ " && " +:+ v +:+ (if down then " >= " else " <= ")
                  +:+ "lim_" +:+ Zs k0 +:+ "; done_" +:+ Zs k0 +:+ " = " +:+ v +:+ " == lim_" +:+ Zs k0
                  +:+ ", " +:+ v +:+ " = pas_" +:+ (if down then "sub" else "add") +:+ Zs w
                  +:+ "(" +:+ v +:+ ", 1)) {") in
        do* gen_block_body gen_stmt s in line "}") in line "}")
      (with_for_count k0 st) (t0 +:+ ((t1 +:+ (t2 +:+ (t3 +:+ (t4 +:+ (tb +:+ t5))))) +:+ t6)) k).
    eapply emits_seq; [by apply emits_line_at |]. eapply emits_seq; [| by apply emits_line_at].
    apply emits_indented. change (with_indent _ _) with st1. eapply emits_bind; [exact Ecv |].
    eapply emits_seq; [by apply emits_line_at |]. eapply emits_seq; [apply emits_line_as; [done | done | unfold xl; text_eq] |].
    eapply emits_seq; [apply emits_line_as; [done | done | unfold xd; text_eq] |].
    eapply emits_seq; [apply emits_line_as; [done | done | unfold for_head, xl, xd; destruct down; text_eq] |].
    eapply emits_seq; [exact E | by apply emits_line_at].
  - replace (t0 +:+ ((t1 +:+ (t2 +:+ (t3 +:+ (t4 +:+ (tb +:+ t5))))) +:+ t6))
      with (sp +:+ ("{" +:+ (nl +:+ (t1 +:+ (t2 +:+ (t3 +:+ (t4 +:+ (tb +:+ t5))))) +:+ sp) +:+ "}") +:+ nl)
      by (unfold t0, t6; rewrite !string_app_assoc; reflexivity).
    apply item_line, i_block, items_inner.
    apply (items_app t1 [CAssign (s_is_varparam sy) (s_cname sy) cf']).
    { apply item_line. as_text ((v +:+ " = " +:+ tf) +:+ ";"). apply i_assign, a_assign; [done | by apply f_unary, u_prim]. }
    apply (items_app t2 [CDecl (CInt w) xl (CUn (Cast (CInt w)) c2)]).
    { apply item_line, (i_decl (cty_name (CInt w)) (CInt w)); [constructor | done | by apply f_unary, (u_cast (CInt w)), u_prim]. }
    apply (items_app t3 [CDecl (CInt 32) xd (CNum 0)]).
    { apply item_line, i_decl; [constructor | done | by apply f_unary, u_const]. }
    replace (t4 +:+ tb +:+ t5) with (sp1 +:+ (for_head v xl xd (Zs w) down +:+ (nl +:+ tb +:+ sp1) +:+ "}") +:+ nl)
      by (unfold t4, t5; rewrite !string_app_assoc; reflexivity).
    apply item_line, for_item; [exact Hpv | done | done |]. apply items_inner, I.
  - by repeat constructor.
  - assert (f = swrap w) as Ef' by (destruct u; try discriminate Hf; by injection Hf as <-).
    apply (sim_for_loop S F M env late (fun i ty b x H => proj2 (Hident i ty b x H)) Halias) with (i := i) (u := u) (f := f) (t' := SInt w');
      try done; [| apply pexec_mono].
    intros pm cm E' HG. destruct (Hm2 pm cm E' HG) as (r & Hr & Hw & Hmn). exists r. split; [done |]. split; [done |].
    rewrite rbind_id in Hmn. by apply means1_un.
Qed.

(** ** All statements *)

Lemma translates_line text c run : nodecl [c] -> Item text c -> simulates run [c] -> translates (line text) run.
Proof using Type.
  intros Hn Hi Hs st Hc. exists (spaces (indent st) +:+ text +:+ nl), (for_count st), [c].
  split; [apply emits_line |]. split; [done |]. split; [by apply item_line | done].
Qed.

Lemma translates_return l : M || bool_decide (is_Some (result_type S F)) = true ->
  translates gen_return (fun n => pexec S F env late n (S_RETURN l)).
Proof using Type.
  clear Hident Halias. intros Hok st Hc. pose proof (sim_return S F M env late l Hok) as Hs. unfold return_stmt in Hs.
  assert (forall text c, gen_return st = line text st -> nodecl [c] -> Item text c -> simulates (fun n => pexec S F env late n (S_RETURN l)) [c] ->
    exists text k cs, emits gen_return st text k /\ for_count st <= k /\ Items text cs /\ nodecl cs /\
      simulates (fun n => pexec S F env late n (S_RETURN l)) cs) as Hline.
  { intros text c Eg Hn Hi Hsim. destruct (translates_line text c _ Hn Hi Hsim st Hc) as (t & k & cs & E & R).
    exists t, k, cs. split; [by unfold emits; rewrite Eg | done]. }
  destruct Hc as (Es & Ef & Em & _). unfold gen_return in Hline. rewrite (bind_ok get _ st st st eq_refl), Em, Ef in Hline.
  destruct M.
  { apply (Hline "return 0;" (CReturn (Some (CNum 0)))); [done | by repeat constructor | | done].
    apply (i_return_value "0"). by apply f_unary, u_const. }
  unfold result_type in Hok, Hs. destruct F as [f |].
  - destruct (syms S !! f) as [s |] eqn:Esy; [| done].
    assert (in_sem (get_sym f) st = Ok (s, st)) as Eget by (apply in_sem_pure; unfold get_sym; by rewrite Es, Esy).
    rewrite (bind_ok _ _ _ _ _ Eget) in Hline. destruct (s_ty s) as [t |].
    + destruct (scalar_of S t) as [ty |]; [| done]. simpl in Hs.
      apply (Hline "return pres;" (CReturn (Some (CObj false "pres")))); [done | by repeat constructor | | done].
      apply (i_return_value "pres"). by apply f_unary, u_prim, p_obj.
    + apply (Hline "return;" (CReturn None)); [done | by repeat constructor | constructor | done].
  - apply (Hline "return;" (CReturn None)); [done | by repeat constructor | constructor | done].
Qed.

Lemma translates_stmt s : forall loop, stmt_ok S F M env late loop s = true -> body_ok s.
Proof using Hbasic Hident Halias.
  induction s as [| l le re | | l c th el IHt IHe | l c b IH | l v vl from to down b IH | l ss IH | l | l | l]
    using Stmt_nested_ind; intros loop Hok; try discriminate Hok; try (apply body_of; [done |]).
  - apply translates_nil.
  - by apply translates_assign.
  - cbn [stmt_ok] in Hok. apply andb_true_iff in Hok as [[Hc%bool_decide_eq_true Hth]%andb_true_iff Hel].
    apply translates_if; [done | by eapply IHt |]. destruct el as [e |]; [by eapply IHe | done].
  - cbn [stmt_ok] in Hok. apply andb_true_iff in Hok as [Hc%bool_decide_eq_true Hb].
    apply translates_while; [done | by eapply IH].
  - pose proof Hok as Hok'. cbn [stmt_ok] in Hok'. destruct (var_named S v) as [[[i [] ] ?] |]; try discriminate Hok'.
    destruct (ptype S from); [| discriminate Hok']. apply andb_true_iff in Hok' as [_ Hb].
    apply translates_for; [exact Hok | by eapply IH].
  - assert (translates (gen_each gen_stmt ss) (fun n => pexecs S F env late n ss)) as H.
    { apply translates_each. cbn [stmt_ok] in Hok. induction IH as [| s ss Hs _ IHss]; [constructor |].
      apply andb_true_iff in Hok as [H1 H2]. constructor; [by eapply Hs | by apply IHss]. }
    split; [by apply translates_block | by apply (translates_indented _ _ H)].
  - by apply translates_return.
  - apply (translates_line "break;" CBreak); [by repeat constructor | constructor | apply sim_break].
  - apply (translates_line "continue;" CContinue); [by repeat constructor | constructor | apply sim_cycle].
Qed.
End Translation.

(** C1: the C text of a sequence of statements does what the statements do. For
    assignments to scalar variables and to the function's result, blocks, IF, WHILE,
    FOR, BREAK, CYCLE and RETURN over well-typed scalar expressions, where no limit of
    a FOR reads the object of its control variable (otherwise the order in which the
    emitted text evaluates them matters, see [for_limit_after_start]), the emitter
    succeeds, and its text reads as C statements that, in every C memory that holds the
    variables, have a run for every terminating run of the Pascal statements, and no
    other runs. Both stop at a division by zero (which one of an expression with
    several is left open, and the memory of a stopped program is not compared), or both
    end with the same kind of jump, the same values in all variables, shared objects of
    VAR parameters included, and the same value returned, and nothing but the variables
    and new objects of the C blocks has changed. So one side terminates exactly when the
    other does. *)
Theorem statements_preserved S F M env st ss
    (Hb : SemProps.Consts.basic S)
    (Hn : forall i ty b x, object S F i ty b x -> c_ident x = true /\ temp_name x = false)
    (Ha : forall i j ty ty' b x b' x' a, object S F i ty b x -> object S F j ty' b' x' ->
       env i = Some a -> env j = Some a -> ty = ty')
    (Hc : context S F M st) (Hok : forallb (stmt_ok S F M env false false) ss = true) :
  exists text k cs,
    gen_each gen_stmt ss st = Ok (tt, with_for_count k (with_body (body st +:+ text) st)) /\ Items text cs /\
    forall E pm cm, good S F env pm cm E ->
      (forall n o pm', pexecs S F env false n ss pm = Some (o, pm') ->
         exists co cm', cexecs E cs cm co cm' /\ post S F M env pm cm o pm' co cm') /\
      (forall co cm', cexecs E cs cm co cm' ->
         exists n o pm', pexecs S F env false n ss pm = Some (o, pm') /\ post S F M env pm cm o pm' co cm').
Proof.
  destruct (translates_each S F M env false ss) with (st := st) as (text & k & cs & E & _ & I & _ & Hs); [| done |].
  - apply Forall_forall. intros s Hin. rewrite forallb_forall in Hok. apply list_elem_of_In, Hok in Hin.
    by apply (translates_stmt S F M env false Hb Hn Ha s false).
  - by exists text, k, cs.
Qed.

(** ** Example *)

Definition example_vars : Sem :=
  match (do* define example_var in define (set_var true "a_y" (set_ty t_integer (new_sym "y" SY_VAR no_loc)))) init_state with
  | Ok (_, s) => s | Err _ => empty_sem end.
Definition x_id : symid := length (syms init_state).
Definition example_env (i : symid) : option addr :=
  if (i =? x_id)%nat then Some 0%nat else if (i =? Datatypes.S x_id)%nat then Some 1%nat else None.
Definition example_cenv : cenv := fun star x =>
  if star then (if String.eqb x "a_y" then Some (1%nat, CInt 16) else None)
  else (if String.eqb x "v_x" then Some (0%nat, CInt 16) else None).

Lemma example_object i ty b x : object example_vars None i ty b x ->
  ty = SInt 16 /\ ((i = x_id /\ b = false /\ x = "v_x") \/ (i = Datatypes.S x_id /\ b = true /\ x = "a_y")).
Proof.
  intros [n i' ty' b' x' (s & t & _ & Hi & Hk & Ht & Hty & -> & ->)%var_named_sym | f s ty' [=] _ _].
  assert (syms example_vars = syms init_state ++
    [example_var; set_var true "a_y" (set_ty t_integer (new_sym "y" SY_VAR no_loc))]) as E by (vm_compute; reflexivity).
  assert (forallb (fun s => negb (bool_decide (s_kind s = SY_VAR))) (syms init_state) = true) as Hf
    by (vm_compute; reflexivity).
  assert (scalar_of example_vars t_integer = Some (SInt 16)) as Hint by (vm_compute; reflexivity).
  rewrite E in Hi. unfold x_id. revert Hi Hf. generalize (syms init_state) as L. intros L Hi Hf.
  apply lookup_app_Some in Hi as [Hi | [Hge Hi]].
  - rewrite forallb_forall in Hf. apply list_elem_of_lookup_2, list_elem_of_In, Hf in Hi.
    rewrite (bool_decide_true _ Hk) in Hi. discriminate Hi.
  - destruct (i' - length L)%nat as [| [| j]] eqn:Ej; [| | discriminate Hi]; injection Hi as <-;
      injection Ht as <-; rewrite Hint in Hty; injection Hty as <-; (split; [reflexivity |]); [left | right];
      (split; [lia | split; reflexivity]).
Qed.

Lemma example_names i ty b x : object example_vars None i ty b x -> c_ident x = true /\ temp_name x = false.
Proof. intros [_ [(_ & _ & ->) | (_ & _ & ->)]]%example_object; done. Qed.

Lemma example_alias i j ty ty' b x b' x' a : object example_vars None i ty b x -> object example_vars None j ty' b' x' ->
  example_env i = Some a -> example_env j = Some a -> ty = ty'.
Proof. by intros [-> _]%example_object [-> _]%example_object. Qed.

Lemma example_vars_basic : SemProps.Consts.basic example_vars.
Proof.
  intros i d H. unfold SemProps.Consts.desc_at. rewrite <- list_lookup_fmap.
  assert (t_desc <$> types example_vars = SemProps.Consts.predefs) as -> by (vm_compute; reflexivity). done.
Qed.

Definition example_mem (x y : Z) : mem := {[0%nat := x; 1%nat := y]}.

Lemma example_env_x : example_env x_id = Some 0%nat.
Proof. unfold example_env. generalize x_id as n. intros n. by rewrite Nat.eqb_refl. Qed.
Lemma example_env_y : example_env (Datatypes.S x_id) = Some 1%nat.
Proof.
  unfold example_env. generalize x_id as n. intros n. rewrite Nat.eqb_refl. by rewrite (proj2 (Nat.eqb_neq (Datatypes.S n) n)) by lia.
Qed.

Lemma example_good x y cm : in_srange 16 x -> in_srange 16 y -> example_mem x y ⊆ cm ->
  good example_vars None example_env (example_mem x y) cm example_cenv.
Proof.
  intros Hx Hy Hs. split; [| split; [| exact Hs]].
  - intros i ty b z [-> [(-> & -> & ->) | (-> & -> & ->)]]%example_object;
      [exists 0%nat; split; [exact example_env_x | reflexivity] | exists 1%nat; split; [exact example_env_y | reflexivity]].
  - intros i ty b z a [-> [(-> & -> & ->) | (-> & -> & ->)]]%example_object Ha;
      [rewrite example_env_x in Ha; exists x | rewrite example_env_y in Ha; exists y]; injection Ha as <-;
      (split; [reflexivity | by apply value_int]).
Qed.

(** [FOR x := 3 DOWNTO 1 DO IF x = 2 THEN CYCLE ELSE y := y * 10 + x;
     WHILE x < 5 DO BEGIN x := x + 2; IF x > 3 THEN BREAK END]. *)
Definition example_stmts : list Stmt :=
  let nm n := E_NAME loc3 n in let int v := E_INT loc3 v in
  [S_FOR loc3 "x" loc3 (int 3) (int 1) true
     (S_IF loc3 (E_BIN loc3 OP_EQ (nm "x") (int 2)) (S_CYCLE loc3)
        (Some (S_ASSIGN loc3 (nm "y") (E_BIN loc3 OP_ADD (E_BIN loc3 OP_MUL (nm "y") (int 10)) (nm "x")))));
   S_WHILE loc3 (E_BIN loc3 OP_LT (nm "x") (int 5))
     (S_BLOCK loc3 [S_ASSIGN loc3 (nm "x") (E_BIN loc3 OP_ADD (nm "x") (int 2));
                    S_IF loc3 (E_BIN loc3 OP_GT (nm "x") (int 3)) (S_BREAK loc3) None])].

Definition example_state : Emit := mkEmit example_vars EmptyString EmptyString 1 None None None true 0.

Lemma example_context : context example_vars None true example_state.
Proof. unfold context, example_state. cbn [sem cur_func in_main for_count]. repeat split. lia. Qed.

Lemma example_stmts_ok : forallb (stmt_ok example_vars None true example_env false false) example_stmts = true.
Proof. vm_compute. reflexivity. Qed.

Lemma statements_preserved_witness : exists text k cs,
  gen_each gen_stmt example_stmts example_state =
    Ok (tt, with_for_count k (with_body (body example_state +:+ text) example_state)) /\
  Items text cs /\ forall cm, example_mem 7 0 ⊆ cm ->
    exists cm', cexecs example_cenv cs cm CNormal cm' /\ cm' !! 0%nat = Some 4 /\ cm' !! 1%nat = Some 31.
Proof.
  destruct (statements_preserved example_vars None true example_env example_state example_stmts
    example_vars_basic example_names example_alias example_context example_stmts_ok)
    as (text & k & cs & E & I & H).
  exists text, k, cs. split; [exact E |]. split; [exact I |]. intros cm Hs.
  destruct (H _ _ _ (example_good 7 0 cm ltac:(split; vm_compute; congruence) ltac:(split; vm_compute; congruence) Hs)) as [Hf _].
  destruct (Hf 10%nat ONormal (example_mem 4 31) ltac:(vm_compute; reflexivity)) as (co & cm' & X & Hm & Hk).
  exists cm'. destruct co; try (exfalso; exact Hm). split; [exact X |].
  destruct Hk as [[e Hk] | (_ & _ & Hsub & _)]; [discriminate Hk |]. split; apply (lookup_weaken (example_mem 4 31) cm'); [reflexivity | exact Hsub | reflexivity | exact Hsub].
Defined.

(** [FOR x := 1 TO x DO y := y + 1]: the limit names the control variable. The
    dialect has the limit evaluated before the control variable is assigned, and
    the loop runs [x] times; the emitted text assigns it first, and runs once. *)
Definition late_for : list Stmt :=
  [S_FOR loc3 "x" loc3 (E_INT loc3 1) (E_NAME loc3 "x") false
     (S_ASSIGN loc3 (E_NAME loc3 "y") (E_BIN loc3 OP_ADD (E_NAME loc3 "y") (E_INT loc3 1)))].

Lemma for_limit_after_start :
  pexecs example_vars None example_env false 10 late_for (example_mem 5 0) = Some (ONormal, example_mem 6 5) /\
  exists text k cs,
    gen_each gen_stmt late_for example_state =
      Ok (tt, with_for_count k (with_body (body example_state +:+ text) example_state)) /\
    Items text cs /\ forall cm, example_mem 5 0 ⊆ cm ->
      (exists cm', cexecs example_cenv cs cm CNormal cm') /\
      forall co cm', cexecs example_cenv cs cm co cm' -> co = CNormal /\ cm' !! 1%nat = Some 1.
Proof.
  split; [vm_compute; reflexivity |].
  destruct (translates_each example_vars None true example_env true late_for) with (st := example_state)
    as (text & k & cs & E & _ & I & _ & Hs); [| exact example_context |].
  { constructor; [| constructor]. apply (translates_stmt example_vars None true example_env true example_vars_basic
      example_names example_alias _ false). vm_compute. reflexivity. }
  exists text, k, cs. split; [exact E |]. split; [exact I |]. intros cm Hsub.
  destruct (Hs _ _ _ (example_good 5 0 cm ltac:(split; vm_compute; congruence) ltac:(split; vm_compute; congruence) Hsub)) as [Hf Hb].
  assert (pexecs example_vars None example_env true 10 late_for (example_mem 5 0) = Some (ONormal, example_mem 2 1)) as Hp
    by (vm_compute; reflexivity).
  split.
  - destruct (Hf _ _ _ Hp) as (co & cm' & X & Hm & _). destruct co; try (exfalso; exact Hm). exists cm'. exact X.
  - intros co cm' X. destruct (Hb _ _ X) as (n & o & pm' & Hr & Hm & Hk).
    assert ((o, pm') = (ONormal, example_mem 2 1)) as [= -> ->].
    { assert (monotone (fun n => pexecs example_vars None example_env true n late_for)) as Hmono
        by (apply pexecs_mono, List.Forall_forall; intros; apply pexec_mono).
      pose proof (Hmono n (n + 10)%nat _ _ ltac:(lia) Hr) as H1.
      pose proof (Hmono 10%nat (n + 10)%nat _ _ ltac:(lia) Hp) as H2. pose proof (eq_trans (eq_sym H1) H2) as [= -> ->]. reflexivity. }
    destruct co; try (exfalso; exact Hm). split; [reflexivity |].
    destruct Hk as [[e Hk] | (_ & _ & Hin & _)]; [discriminate Hk |]. apply (lookup_weaken (example_mem 2 1) cm'); [reflexivity | exact Hin].
Qed.
