(* ===== verification/Runtime.v ===== *)
(** The run-time library of compiled programs, runtime/: block moves and fills,
    the string scans, POSITN, the overflow tests of the IBM library, and the
    checks on SUPER ARRAY descriptors. *)

From Stdlib Require Import ZArith Ascii String Lia.
From stdpp Require Import base list strings gmap numbers.
From S2P Require Import Prelude.
#[local] Open Scope Z_scope.

(** * MOVEL, MOVER, MOVESL, MOVESR, FILLC and FILLSC *)

Module Move.

(** Memory by address; an address that is not mapped must not be touched. *)
Abbreviation mem := (gmap Z ascii).

Definition load (m : mem) (a : Z) : res ascii :=
  match m !! a with Some c => Ok c | None => Err (Undef "read outside an object") end.
Definition store (m : mem) (a : Z) (c : ascii) : res mem :=
  match m !! a with Some _ => Ok (<[a := c]> m) | None => Err (Undef "write outside an object") end.

(** The loop of [movel] and [movesl], [n] bytes from its current position. *)
Fixpoint copy_up (n : nat) (src dst : Z) (m : mem) : res mem :=
  match n with
  | O => Ok m
  | S n' =>
      let! c := load m src in
      let! m' := store m dst c in
      copy_up n' (src + 1) (dst + 1) m'
  end.

(** The loop of [mover] and [movesr], with [i] at [n]. *)
Fixpoint copy_down (n : nat) (src dst : Z) (m : mem) : res mem :=
  match n with
  | O => Ok m
  | S n' =>
      let! c := load m (src + Z.of_nat n') in
      let! m' := store m (dst + Z.of_nat n') c in
      copy_down n' src dst m'
  end.

Fixpoint fill_up (n : nat) (dst : Z) (c : ascii) (m : mem) : res mem :=
  match n with
  | O => Ok m
  | S n' => let! m' := store m dst c in fill_up n' (dst + 1) c m'
  end.

(** [unsigned short len]. *)
Definition count (len : Z) : nat := Z.to_nat (uwrap 16 len).

Definition movel (src dst len : Z) (m : mem) : res mem := copy_up (count len) src dst m.
Definition mover (src dst len : Z) (m : mem) : res mem := copy_down (count len) src dst m.
Definition fillc (loc len : Z) (val : ascii) (m : mem) : res mem := fill_up (count len) loc val m.

(** A segmented address: a flat pointer and a segment that is not used. *)
Record adsmem := mkAds { ptr : Z; seg : Z }.
Definition movesl (src dst : adsmem) (len : Z) (m : mem) : res mem := copy_up (count len) (ptr src) (ptr dst) m.
Definition movesr (src dst : adsmem) (len : Z) (m : mem) : res mem := copy_down (count len) (ptr src) (ptr dst) m.
Definition fillsc (dst : adsmem) (len : Z) (val : ascii) (m : mem) : res mem := fill_up (count len) (ptr dst) val m.

(** ** What they do *)

Definition mapped (m : mem) (a : Z) (n : nat) : Prop := forall i, 0 <= i < Z.of_nat n -> is_Some (m !! (a + i)).

(** [m'] is [m] with [n] bytes at [dst] given by [f]. *)
Definition writes (m m' : mem) (dst : Z) (n : nat) (f : Z -> option ascii) : Prop :=
  (forall a, a < dst \/ dst + Z.of_nat n <= a -> m' !! a = m !! a) /\
  (forall i, 0 <= i < Z.of_nat n -> m' !! (dst + i) = f i).

(** Where byte [i] of a forward move comes from: a destination inside the source
    is reached by bytes the move itself has written. *)
Definition up_source (src dst i : Z) : Z := if src <? dst then src + i `mod` (dst - src) else src + i.
Definition down_source (src dst n i : Z) : Z :=
  if dst <? src then src + n - 1 - (n - 1 - i) `mod` (src - dst) else src + i.

Lemma mapped_insert m a n b c : mapped m a n -> mapped (<[b := c]> m) a n.
Proof.
  intros H i Hi. destruct (decide (b = a + i)) as [-> | Hn]; [by rewrite lookup_insert_eq; eexists |].
  rewrite lookup_insert_ne by done. by apply H.
Qed.

Lemma copy_up_spec n : forall src dst m, mapped m src n -> mapped m dst n ->
  exists m', copy_up n src dst m = Ok m' /\ writes m m' dst n (fun i => m !! up_source src dst i).
Proof.
  induction n as [|n IH]; intros src dst m Hs Hd.
  { exists m. split; [done |]. split; [done |]. intros i Hi. lia. }
  destruct (Hs 0 ltac:(lia)) as [c Hc]. destruct (Hd 0 ltac:(lia)) as [c0 Hc0]. rewrite Z.add_0_r in *.
  cbn [copy_up]. unfold load, store. rewrite Hc. cbn [rbind]. rewrite Hc0. cbn [rbind].
  destruct (IH (src + 1) (dst + 1) (<[dst := c]> m)) as (m' & E & Hout & Hin).
  { apply mapped_insert. intros i Hi. replace (src + 1 + i) with (src + (1 + i)) by lia. apply Hs. lia. }
  { apply mapped_insert. intros i Hi. replace (dst + 1 + i) with (dst + (1 + i)) by lia. apply Hd. lia. }
  exists m'. split; [done |]. split.
  - intros a Ha. rewrite Hout by lia. apply lookup_insert_ne. lia.
  - intros i Hi. destruct (Z.eq_dec i 0) as [-> | Hi0].
    + rewrite Z.add_0_r, Hout by lia. rewrite lookup_insert_eq. unfold up_source.
      destruct (src <? dst); rewrite ?Zmod_0_l, Z.add_0_r; done.
    + replace (dst + i) with (dst + 1 + (i - 1)) by lia. rewrite Hin by lia.
      unfold up_source. replace (src + 1 <? dst + 1) with (src <? dst)
        by (destruct (Z.ltb_spec src dst), (Z.ltb_spec (src + 1) (dst + 1)); lia).
      destruct (Z.ltb_spec src dst) as [Hlt | Hge]; [| rewrite lookup_insert_ne by lia; f_equal; lia].
      replace (dst + 1 - (src + 1)) with (dst - src) by lia. set (d := dst - src).
      pose proof (Z.mod_pos_bound (i - 1) d ltac:(lia)) as Hb.
      pose proof (Z.div_mod (i - 1) d ltac:(lia)) as Ediv.
      destruct (Z.eq_dec ((i - 1) `mod` d) (d - 1)) as [El | El].
      * rewrite El. replace (src + 1 + (d - 1)) with dst by lia. rewrite lookup_insert_eq.
        replace (i `mod` d) with 0; [by rewrite Z.add_0_r |].
        apply (Z.mod_unique_pos _ _ ((i - 1) / d + 1)); lia.
      * replace (i `mod` d) with ((i - 1) `mod` d + 1).
        -- rewrite lookup_insert_ne by lia. f_equal. lia.
        -- apply (Z.mod_unique_pos _ _ ((i - 1) / d)); lia.
Qed.

Lemma copy_down_spec n : forall src dst m, mapped m src n -> mapped m dst n ->
  exists m', copy_down n src dst m = Ok m' /\ writes m m' dst n (fun i => m !! down_source src dst (Z.of_nat n) i).
Proof.
  induction n as [|n IH]; intros src dst m Hs Hd.
  { exists m. split; [done |]. split; [done |]. intros i Hi. lia. }
  destruct (Hs (Z.of_nat n) ltac:(lia)) as [c Hc]. destruct (Hd (Z.of_nat n) ltac:(lia)) as [c0 Hc0].
  cbn [copy_down]. unfold load, store. rewrite Hc. cbn [rbind]. rewrite Hc0. cbn [rbind].
  destruct (IH src dst (<[dst + Z.of_nat n := c]> m)) as (m' & E & Hout & Hin).
  { apply mapped_insert. intros i Hi. apply Hs. lia. }
  { apply mapped_insert. intros i Hi. apply Hd. lia. }
  exists m'. split; [done |]. split.
  - intros a Ha. rewrite Hout by lia. apply lookup_insert_ne. lia.
  - intros i Hi. destruct (Z.eq_dec i (Z.of_nat n)) as [-> | Hi0].
    + rewrite Hout by lia. rewrite lookup_insert_eq. unfold down_source.
      destruct (dst <? src); [| done]. replace (Z.of_nat (S n) - 1 - Z.of_nat n) with 0 by lia.
      rewrite Zmod_0_l. rewrite <- Hc. f_equal. lia.
    + rewrite Hin by lia. unfold down_source.
      destruct (Z.ltb_spec dst src) as [Hlt | Hge]; [| rewrite lookup_insert_ne by lia; done].
      set (d := src - dst). set (k := Z.of_nat n - 1 - i).
      pose proof (Z.mod_pos_bound k d ltac:(lia)) as Hb. pose proof (Z.div_mod k d ltac:(lia)) as Ediv.
      replace (Z.of_nat (S n) - 1 - i) with (k + 1) by lia.
      destruct (Z.eq_dec (k `mod` d) (d - 1)) as [El | El].
      * rewrite El. replace (src + Z.of_nat n - 1 - (d - 1)) with (dst + Z.of_nat n) by lia.
        rewrite lookup_insert_eq. replace ((k + 1) `mod` d) with 0; [rewrite <- Hc; f_equal; lia |].
        apply (Z.mod_unique_pos _ _ (k / d + 1)); lia.
      * replace ((k + 1) `mod` d) with (k `mod` d + 1).
        -- rewrite lookup_insert_ne by lia. f_equal. lia.
        -- apply (Z.mod_unique_pos _ _ (k / d)); lia.
Qed.

Lemma fill_up_spec n : forall dst c m, mapped m dst n ->
  exists m', fill_up n dst c m = Ok m' /\ writes m m' dst n (fun _ => Some c).
Proof.
  induction n as [|n IH]; intros dst c m Hd.
  { exists m. split; [done |]. split; [done |]. intros i Hi. lia. }
  destruct (Hd 0 ltac:(lia)) as [c0 Hc0]. rewrite Z.add_0_r in Hc0.
  cbn [fill_up]. unfold store. rewrite Hc0. cbn [rbind].
  destruct (IH (dst + 1) c (<[dst := c]> m)) as (m' & E & Hout & Hin).
  { apply mapped_insert. intros i Hi. replace (dst + 1 + i) with (dst + (1 + i)) by lia. apply Hd. lia. }
  exists m'. split; [done |]. split.
  - intros a Ha. rewrite Hout by lia. apply lookup_insert_ne. lia.
  - intros i Hi. destruct (Z.eq_dec i 0) as [-> | Hi0].
    + rewrite Z.add_0_r, Hout by lia. apply lookup_insert_eq.
    + replace (dst + i) with (dst + 1 + (i - 1)) by lia. apply Hin. lia.
Qed.

Lemma count_small len : 0 <= len <= 65535 -> Z.of_nat (count len) = len.
Proof. intros H. unfold count, uwrap. rewrite Z.mod_small by lia. lia. Qed.

(** the block moves touch nothing but their source and destination, and give
    every destination byte as the direction of the loop defines it, for
    overlapping blocks too: MOVEL and MOVESL copy the source as it was, except
    that a destination inside the source repeats the bytes before it; MOVER and
    MOVESR the same from the right end; FILLC and FILLSC write the character. *)
Theorem moves_spec m src dst len sseg dseg c (Hlen : 0 <= len <= 65535)
    (Hs : mapped m src (count len)) (Hd : mapped m dst (count len)) :
  (exists m', movel src dst len m = Ok m' /\ movesl (mkAds src sseg) (mkAds dst dseg) len m = Ok m' /\
     (forall a, a < dst \/ dst + len <= a -> m' !! a = m !! a) /\
     (forall i, 0 <= i < len -> m' !! (dst + i) =
        if (src <? dst) && (dst <? src + len) then m !! (src + i `mod` (dst - src)) else m !! (src + i))) /\
  (exists m', mover src dst len m = Ok m' /\ movesr (mkAds src sseg) (mkAds dst dseg) len m = Ok m' /\
     (forall a, a < dst \/ dst + len <= a -> m' !! a = m !! a) /\
     (forall i, 0 <= i < len -> m' !! (dst + i) =
        if (dst <? src) && (src <? dst + len) then m !! (src + len - 1 - (len - 1 - i) `mod` (src - dst))
        else m !! (src + i))) /\
  (exists m', fillc dst len c m = Ok m' /\ fillsc (mkAds dst dseg) len c m = Ok m' /\
     (forall a, a < dst \/ dst + len <= a -> m' !! a = m !! a) /\
     (forall i, 0 <= i < len -> m' !! (dst + i) = Some c)).
Proof.
  pose proof (count_small len Hlen) as Ec. split; [| split].
  - destruct (copy_up_spec _ src dst m Hs Hd) as (m' & E & Ho & Hi). rewrite Ec in *.
    exists m'. split; [done |]. split; [done |]. split; [done |]. intros i Hb. rewrite Hi by done. unfold up_source.
    destruct (Z.ltb_spec src dst); [| done]. destruct (Z.ltb_spec dst (src + len)); [done |].
    cbn [andb]. by rewrite Z.mod_small by lia.
  - destruct (copy_down_spec _ src dst m Hs Hd) as (m' & E & Ho & Hi). rewrite Ec in *.
    exists m'. split; [done |]. split; [done |]. split; [done |]. intros i Hb. rewrite Hi by done. unfold down_source.
    destruct (Z.ltb_spec dst src); [| done]. destruct (Z.ltb_spec src (dst + len)); [done |].
    cbn [andb]. rewrite Z.mod_small by lia. f_equal. lia.
  - destruct (fill_up_spec _ dst c m Hd) as (m' & E & Ho & Hi). rewrite Ec in *. by exists m'.
Qed.

Definition example_mem : mem := list_to_map (zip (seqZ 100 8) (chars "abcdefgh")).

Lemma moves_spec_witness :
  (exists m', movel 100 101 4 example_mem = Ok m' /\ forall i, 0 <= i < 4 -> m' !! (101 + i) = Some "a"%char) /\
  (exists m', mover 100 101 4 example_mem = Ok m' /\ m' !! 103 = Some "c"%char).
Proof.
  destruct (moves_spec example_mem 100 101 4 0 0 "x"%char) as ((m1 & E1 & _ & _ & H1) & (m2 & E2 & _ & _ & H2) & _).
  - lia.
  - intros i Hi. change (Z.of_nat (count 4)) with 4 in Hi.
    assert (i = 0 \/ i = 1 \/ i = 2 \/ i = 3) as [-> | [-> | [-> | ->]]] by lia; eexists; vm_compute; reflexivity.
  - intros i Hi. change (Z.of_nat (count 4)) with 4 in Hi.
    assert (i = 0 \/ i = 1 \/ i = 2 \/ i = 3) as [-> | [-> | [-> | ->]]] by lia; eexists; vm_compute; reflexivity.
  - split.
    + exists m1. split; [exact E1 |]. intros i Hi. rewrite (H1 i Hi). simpl.
      change (101 - 100) with 1. rewrite Z.mod_1_r. vm_compute. reflexivity.
    + exists m2. split; [exact E2 |]. change 103 with (101 + 2). rewrite (H2 2) by lia. vm_compute. reflexivity.
Defined.
End Move.

(** * SCANEQ and SCANNE *)

Module Scan.

(** [chars[k]]; a read past the characters is out of bounds. *)
Definition char_at (s : bytes) (k : Z) : res ascii :=
  match (if k <? 0 then None else s !! Z.to_nat k) with
  | Some c => Ok c
  | None => Err (Undef "read outside a string")
  end.

(** An [int32_t] counter moved by one: a signed overflow is undefined. *)
Definition step32 (i : Z) : res Z :=
  if (INT32_MIN <=? i) && (i <=? INT32_MAX) then Ok i else Err (Undef "signed overflow").

Definition stops (stop_on_equal : bool) (P ch : ascii) : bool :=
  (stop_on_equal && Ascii.eqb ch P) || (negb stop_on_equal && negb (Ascii.eqb ch P)).

Fixpoint scan_forward (fuel : nat) (L : Z) (P : ascii) (s : bytes) (length i skipped : Z) (eq : bool) : res Z :=
  match fuel with
  | O => Err OutOfFuel
  | S f =>
      if (i <=? length) && (skipped <? L) then
        let! ch := char_at s (i - 1) in
        if stops eq P ch then Ok skipped
        else
          let! i' := step32 (i + 1) in
          let! k' := step32 (skipped + 1) in
          scan_forward f L P s length i' k' eq
      else Ok L
  end.

Fixpoint scan_backward (fuel : nat) (L : Z) (P : ascii) (s : bytes) (i skipped : Z) (eq : bool) : res Z :=
  match fuel with
  | O => Err OutOfFuel
  | S f =>
      if (1 <=? i) && (L <? skipped) then
        let! ch := char_at s (i - 1) in
        if stops eq P ch then Ok skipped
        else
          let! i' := step32 (i - 1) in
          let! k' := step32 (skipped - 1) in
          scan_backward f L P s i' k' eq
      else Ok L
  end.

(** [s] is [None] for a null [chars]. No scan is longer than the string. *)
Definition scan_impl (L : Z) (P : ascii) (s : option bytes) (length I : Z) (eq : bool) : res Z :=
  match s with
  | None => Ok 0
  | Some s =>
      if (I <? 1) || (length <? I) || (L =? 0) then Ok 0
      else if 0 <? L then scan_forward (S (Z.to_nat length)) L P s length I 0 eq
      else scan_backward (S (Z.to_nat length)) L P s I 0 eq
  end.

Definition scaneq := scan_impl.
Definition scanne := scan_impl.

(** The number of characters before the first one that stops a scan. *)
Fixpoint before_stop (eq : bool) (P : ascii) (s : bytes) : option Z :=
  match s with
  | [] => None
  | c :: s' => if stops eq P c then Some 0 else Z.succ <$> before_stop eq P s'
  end.

Lemma char_at_drop s i c r : 1 <= i -> drop (Z.to_nat (i - 1)) s = c :: r -> char_at s (i - 1) = Ok c.
Proof.
  intros Hi E. unfold char_at. rewrite (proj2 (Z.ltb_ge _ _)) by lia.
  assert (s !! Z.to_nat (i - 1) = Some c) as ->; [| done].
  rewrite <- (Nat.add_0_r (Z.to_nat (i - 1))), <- lookup_drop, E. done.
Qed.

Lemma drop_next (s r : bytes) i c : 1 <= i -> drop (Z.to_nat (i - 1)) s = c :: r -> drop (Z.to_nat (i + 1 - 1)) s = r.
Proof.
  intros Hi E. replace (Z.to_nat (i + 1 - 1)) with (Z.to_nat (i - 1) + 1)%nat by lia.
  by rewrite <- drop_drop, E.
Qed.

Lemma step32_ok i : INT32_MIN <= i <= INT32_MAX -> step32 i = Ok i.
Proof. intros H. unfold step32. by rewrite (proj2 (Z.leb_le _ _)), (proj2 (Z.leb_le _ _)) by lia. Qed.

Lemma scan_forward_spec eq P s L : Z.of_nat (length s) < INT32_MAX -> L <= INT32_MAX ->
  forall fuel i k, 1 <= i <= Z.of_nat (length s) + 1 -> 0 <= k <= L -> Z.of_nat (length s) - i + 1 < Z.of_nat fuel ->
  scan_forward fuel L P s (Z.of_nat (length s)) i k eq =
    Ok (match before_stop eq P (take (Z.to_nat (L - k)) (drop (Z.to_nat (i - 1)) s)) with
        | Some n => k + n | None => L end).
Proof.
  intros Hs HL. induction fuel as [|f IH]; intros i k Hi Hk Hf; [lia |].
  cbn [scan_forward]. destruct (Z.leb_spec i (Z.of_nat (length s))) as [Hle | Hgt]; cbn [andb].
  2: { rewrite drop_ge by lia. by rewrite take_nil. }
  destruct (Z.ltb_spec k L) as [HkL | HkL]; [| replace (Z.to_nat (L - k)) with 0%nat by lia; done].
  destruct (drop (Z.to_nat (i - 1)) s) as [|c r] eqn:E.
  { apply (f_equal (@length ascii)) in E. rewrite length_drop in E. simpl in E. lia. }
  rewrite (char_at_drop s i c r (proj1 Hi) E). cbn [rbind].
  replace (Z.to_nat (L - k)) with (S (Z.to_nat (L - (k + 1)))) by lia. cbn [take before_stop].
  destruct (stops eq P c); [f_equal; lia |].
  rewrite !step32_ok by (unfold INT32_MIN, INT32_MAX in *; lia). cbn [rbind].
  rewrite IH by lia. rewrite (drop_next s r i c (proj1 Hi) E). do 2 f_equal.
  destruct (before_stop eq P (take _ r)); simpl; [lia | done].
Qed.

Lemma take_snoc_lookup (s : bytes) i c : (Z.to_nat (i - 1) < length s)%nat -> 1 <= i ->
  s !! Z.to_nat (i - 1) = Some c -> take (Z.to_nat i) s = take (Z.to_nat (i - 1)) s ++ [c].
Proof.
  intros Hl Hi Hc. replace (Z.to_nat i) with (S (Z.to_nat (i - 1))) by lia. by apply take_S_r.
Qed.

Lemma scan_backward_spec eq P s L : Z.of_nat (length s) < INT32_MAX -> INT32_MIN <= L ->
  forall fuel i k, 0 <= i <= Z.of_nat (length s) -> L <= k <= 0 -> i < Z.of_nat fuel ->
  scan_backward fuel L P s i k eq =
    Ok (match before_stop eq P (take (Z.to_nat (k - L)) (rev (take (Z.to_nat i) s))) with
        | Some n => k - n | None => L end).
Proof.
  intros Hs HL. induction fuel as [|f IH]; intros i k Hi Hk Hf; [lia |].
  cbn [scan_backward]. destruct (Z.leb_spec 1 i) as [Hge | Hlt]; cbn [andb].
  2: { assert (i = 0) as -> by lia. change (Z.to_nat 0) with 0%nat. rewrite take_0. cbn [rev]. by rewrite firstn_nil. }
  destruct (Z.ltb_spec L k) as [HkL | HkL]; [| replace (Z.to_nat (k - L)) with 0%nat by lia; done].
  destruct (lookup_lt_is_Some_2 s (Z.to_nat (i - 1))) as [c Hc]; [lia |].
  unfold char_at. rewrite (proj2 (Z.ltb_ge _ _)) by lia. rewrite Hc. cbn [rbind].
  rewrite (take_snoc_lookup s i c) by (done || lia). rewrite rev_app_distr. cbn [rev app].
  replace (Z.to_nat (k - L)) with (S (Z.to_nat (k - 1 - L))) by lia. cbn [take before_stop].
  destruct (stops eq P c); [f_equal; lia |].
  rewrite !step32_ok by (unfold INT32_MIN, INT32_MAX in *; lia). cbn [rbind].
  rewrite IH by lia. do 2 f_equal.
  destruct (before_stop eq P (take _ _)); simpl; [lia | done].
Qed.

(** SCANEQ and SCANNE return the signed number of characters between the start
    and the first character that stops the scan, going right for a positive
    count and left for a negative one, or the count itself when none does; a
    start outside the string, a null string or a zero count gives 0. No read
    leaves the string and no counter overflows. *)
Theorem scan_spec (L : Z) (P : ascii) (s : bytes) (I : Z) (eq : bool)
    (Hs : Z.of_nat (length s) < INT32_MAX) (HL : INT32_MIN <= L <= INT32_MAX) :
  scaneq L P None (Z.of_nat (length s)) I eq = Ok 0 /\
  scaneq L P (Some s) (Z.of_nat (length s)) I eq = scanne L P (Some s) (Z.of_nat (length s)) I eq /\
  scaneq L P (Some s) (Z.of_nat (length s)) I eq =
    Ok (if (I <? 1) || (Z.of_nat (length s) <? I) || (L =? 0) then 0
        else if 0 <? L then default L (before_stop eq P (take (Z.to_nat L) (drop (Z.to_nat (I - 1)) s)))
        else default L (Z.opp <$> before_stop eq P (take (Z.to_nat (- L)) (rev (take (Z.to_nat I) s))))).
Proof.
  split; [done |]. split; [done |]. unfold scaneq, scan_impl.
  destruct ((I <? 1) || (Z.of_nat (length s) <? I) || (L =? 0)) eqn:E; [done |].
  rewrite !orb_false_iff, !Z.ltb_ge, Z.eqb_neq in E. destruct E as [[H1 H2] H3].
  destruct (Z.ltb_spec 0 L).
  - rewrite scan_forward_spec by lia. by rewrite Z.sub_0_r.
  - rewrite scan_backward_spec by lia. rewrite Z.sub_0_l. f_equal.
    destruct (before_stop eq P _); simpl; lia.
Qed.

Lemma scan_spec_witness :
  scaneq 10 "c" (Some (chars "abcabc")) 6 1 true = Ok 2 /\ scaneq (-10) "a" (Some (chars "abcabc")) 6 3 true = Ok (-2) /\
  scanne 10 "a" (Some (chars "aaaa")) 4 2 false = Ok 10.
Proof.
  assert (INT32_MIN <= 10 <= INT32_MAX) as H10 by (unfold INT32_MIN, INT32_MAX; lia).
  assert (INT32_MIN <= -10 <= INT32_MAX) as H10' by (unfold INT32_MIN, INT32_MAX; lia).
  split; [| split].
  - destruct (scan_spec 10 "c" (chars "abcabc") 1 true ltac:(vm_compute; reflexivity) H10) as (_ & _ & H).
    etrans; [exact H |]. vm_compute. reflexivity.
  - destruct (scan_spec (-10) "a" (chars "abcabc") 3 true ltac:(vm_compute; reflexivity) H10') as (_ & _ & H).
    etrans; [exact H |]. vm_compute. reflexivity.
  - destruct (scan_spec 10 "a" (chars "aaaa") 2 false ltac:(vm_compute; reflexivity) H10) as (_ & E & H).
    etrans; [symmetry; exact E |]. etrans; [exact H |]. vm_compute. reflexivity.
Defined.
End Scan.

(** * POSITN *)

Module Positn.
Import Scan.

(** The inner loop, [n] characters from position [j] of the pattern on. *)
Fixpoint match_from (n : nat) (hay needle : bytes) (i j : Z) : res bool :=
  match n with
  | O => Ok true
  | S n' =>
      let! h := char_at hay (i + j) in
      let! c := char_at needle j in
      if Ascii.eqb h c then match_from n' hay needle i (j + 1) else Ok false
  end.

Fixpoint find_from (fuel : nat) (hay needle : bytes) (haylen needlelen i : Z) : res Z :=
  match fuel with
  | O => Err OutOfFuel
  | S f =>
      if i <=? haylen - needlelen then
        let! b := match_from (Z.to_nat needlelen) hay needle i 0 in
        if (b : bool) then Ok (i + 1)
        else let! i' := step32 (i + 1) in find_from f hay needle haylen needlelen i'
      else Ok 0
  end.

(** [None] is a null pointer. *)
Definition positn_from (hay : option bytes) (haylen : Z) (needle : option bytes) (needlelen start : Z) : res Z :=
  match hay, needle with
  | Some hay, Some needle =>
      if (needlelen <? 0) || (haylen <? 0) then Ok 0
      else if needlelen =? 0 then Ok 1
      else if (start <? 1) || (haylen <? start) || (haylen <? needlelen) then Ok 0
      else find_from (S (Z.to_nat haylen)) hay needle haylen needlelen (start - 1)
  | _, _ => Ok 0
  end.

Definition positn (hay : option bytes) (haylen : Z) (needle : option bytes) (needlelen : Z) : res Z :=
  positn_from hay haylen needle needlelen 1.

(** The pattern stands at position [p]. *)
Definition occurs (hay needle : bytes) (p : Z) : Prop :=
  1 <= p /\ take (length needle) (drop (Z.to_nat (p - 1)) hay) = needle.

Lemma match_from_spec hay needle i : 0 <= i -> i + Z.of_nat (length needle) <= Z.of_nat (length hay) ->
  forall n j, 0 <= j -> j + Z.of_nat n = Z.of_nat (length needle) ->
  match_from n hay needle i j =
    Ok (bool_decide (take n (drop (Z.to_nat (i + j)) hay) = drop (Z.to_nat j) needle)).
Proof.
  intros Hi Hl. induction n as [|n IH]; intros j Hj Hn; cbn [match_from].
  - rewrite (drop_ge needle) by lia. by rewrite take_0, bool_decide_true.
  - unfold char_at. rewrite !(proj2 (Z.ltb_ge _ _)) by lia.
    destruct (lookup_lt_is_Some_2 hay (Z.to_nat (i + j))) as [h Hh]; [lia |].
    destruct (lookup_lt_is_Some_2 needle (Z.to_nat j)) as [c Hc]; [lia |].
    rewrite Hh, Hc. cbn [rbind]. rewrite (drop_S _ _ _ Hh), (drop_S _ _ _ Hc). cbn [take].
    destruct (Ascii.eqb_spec h c) as [-> | Hne]; [| rewrite bool_decide_false; [done | congruence]].
    rewrite IH by lia. replace (Z.to_nat (i + (j + 1))) with (S (Z.to_nat (i + j))) by lia.
    replace (Z.to_nat (j + 1)) with (S (Z.to_nat j)) by lia. f_equal.
    apply bool_decide_ext. split; congruence.
Qed.

Lemma occurs_bound hay needle p : needle <> [] -> occurs hay needle p ->
  p - 1 <= Z.of_nat (length hay) - Z.of_nat (length needle).
Proof.
  intros Hn [Hp E]. apply (f_equal (@length ascii)) in E. rewrite length_take, length_drop in E.
  assert (length needle <> 0%nat) by (by destruct needle). lia.
Qed.

Lemma find_from_spec hay needle : needle <> [] -> Z.of_nat (length hay) <= INT32_MAX ->
  forall fuel i, 0 <= i <= Z.of_nat (length hay) -> Z.of_nat (length hay) - i < Z.of_nat fuel ->
  exists r, find_from fuel hay needle (Z.of_nat (length hay)) (Z.of_nat (length needle)) i = Ok r /\
    ((r = 0 /\ forall p, i < p -> ~ occurs hay needle p) \/
     (i < r /\ occurs hay needle r /\ forall p, i < p < r -> ~ occurs hay needle p)).
Proof.
  intros Hne Hmax. assert (1 <= Z.of_nat (length needle)) by (destruct needle; [done | simpl; lia]).
  induction fuel as [|f IH]; intros i Hi Hf; [lia |]. cbn [find_from].
  destruct (Z.leb_spec i (Z.of_nat (length hay) - Z.of_nat (length needle))) as [Hle | Hgt].
  2: { exists 0. split; [done |]. left. split; [done |]. intros p Hp Ho. apply occurs_bound in Ho; [lia | done]. }
  rewrite Nat2Z.id, match_from_spec by lia. cbn [rbind]. rewrite Z.add_0_r, drop_0.
  assert (occurs hay needle (i + 1) <-> take (length needle) (drop (Z.to_nat i) hay) = needle) as Hocc.
  { unfold occurs. replace (i + 1 - 1) with i by lia. split; [by intros [_ ?] | intros; split; [lia | done]]. }
  case_bool_decide as Hm.
  - exists (i + 1). split; [done |]. right. split; [lia |]. split; [by apply Hocc |]. intros p Hp. lia.
  - rewrite step32_ok by (unfold INT32_MIN; lia). cbn [rbind].
    destruct (IH (i + 1) ltac:(lia) ltac:(lia)) as (r & E & Hr). exists r. split; [done |].
    assert (~ occurs hay needle (i + 1)) as Hno by (by rewrite Hocc).
    assert (forall p, i < p -> p = i + 1 \/ i + 1 < p) as Hp by lia.
    destruct Hr as [[-> Hr] | (H1 & H2 & Hr)]; [left | right].
    + split; [done |]. intros p H1. destruct (Hp p H1) as [-> |]; auto.
    + split; [lia |]. split; [done |]. intros p [H3 H4]. destruct (Hp p H3) as [-> |]; auto.
Qed.

(** POSITN returns the first position at or after [start] where the pattern
    stands, counted from the beginning of the string, and 0 when there is none or
    [start] is outside the string; the empty pattern gives 1. It returns on every
    input, and no read leaves either string. *)
Theorem positn_first_match (hay needle : bytes) (start : Z) (Hmax : Z.of_nat (length hay) <= INT32_MAX) :
  exists r, positn_from (Some hay) (Z.of_nat (length hay)) (Some needle) (Z.of_nat (length needle)) start = Ok r /\
    if bool_decide (needle = []) then r = 1
    else if (1 <=? start) && (start <=? Z.of_nat (length hay)) then
      (r = 0 /\ forall p, start <= p -> ~ occurs hay needle p) \/
      (start <= r /\ occurs hay needle r /\ forall p, start <= p < r -> ~ occurs hay needle p)
    else r = 0.
Proof.
  unfold positn_from. rewrite !(proj2 (Z.ltb_ge _ 0)) by lia. cbn [orb].
  case_bool_decide as Hn; [exists 1; by rewrite Hn |].
  assert (1 <= Z.of_nat (length needle)) by (destruct needle; [done | simpl; lia]).
  rewrite (proj2 (Z.eqb_neq _ 0)) by lia.
  destruct (Z.ltb_spec start 1) as [H1 | H1]; [exists 0; by rewrite (proj2 (Z.leb_gt _ _)) by lia |].
  rewrite (proj2 (Z.leb_le 1 start)) by lia.
  destruct (Z.ltb_spec (Z.of_nat (length hay)) start) as [H2 | H2]; [exists 0; by rewrite (proj2 (Z.leb_gt _ _)) by lia |].
  rewrite (proj2 (Z.leb_le start _)) by lia. cbn [orb andb].
  destruct (Z.ltb_spec (Z.of_nat (length hay)) (Z.of_nat (length needle))) as [H3 | H3].
  - exists 0. split; [done |]. left. split; [done |]. intros p Hp Ho. apply occurs_bound in Ho; [lia | done].
  - destruct (find_from_spec hay needle Hn Hmax (S (Z.to_nat (Z.of_nat (length hay)))) (start - 1))
      as (r & E & Hr); [lia | lia |]. exists r. split; [done |].
    destruct Hr as [[-> Hr] | (H4 & H5 & Hr)]; [left | right].
    + split; [done |]. intros p Hp. apply Hr. lia.
    + split; [lia |]. split; [done |]. intros p Hp. apply Hr. lia.
Qed.

Lemma positn_first_match_witness :
  positn_from (Some (chars "abcabc")) 6 (Some (chars "ca")) 2 2 = Ok 3 /\
  exists r, positn_from (Some (chars "abcabc")) 6 (Some (chars "abc")) 3 2 = Ok r /\ 2 <= r /\
    occurs (chars "abcabc") (chars "abc") r.
Proof.
  split; [vm_compute; reflexivity |].
  destruct (positn_first_match (chars "abcabc") (chars "abc") 2) as (r & E & H); [vm_compute; discriminate |].
  exists r. split; [exact E |]. change (bool_decide (chars "abc" = [])) with false in H. cbn in H.
  destruct H as [[-> _] | (H1 & H2 & _)]; [| done]. vm_compute in E. discriminate E.
Defined.
End Positn.

(** * SADDOK, SMULOK, UADDOK and UMULOK *)

Module Ok16.

Definition low_signed (v : Z) : Z := swrap 16 (uwrap 16 v).

(** An [int32_t] result. *)
Definition in_int32 (r : Z) : res Z :=
  if (INT32_MIN <=? r) && (r <=? INT32_MAX) then Ok r else Err (Undef "signed overflow").

(** The value stored through [c], and the result. *)
Definition signed_ok (r : Z) : Z * bool := (swrap 16 (uwrap 16 r), (-32768 <=? r) && (r <=? 32767)).
Definition SADDOK (a b : Z) : res (Z * bool) := let! r := in_int32 (low_signed a + low_signed b) in Ok (signed_ok r).
Definition SMULOK (a b : Z) : res (Z * bool) := let! r := in_int32 (low_signed a * low_signed b) in Ok (signed_ok r).

Definition unsigned_ok (r : Z) : Z * bool := (uwrap 16 r, r <=? 65535).
Definition UADDOK (a b : Z) : Z * bool := unsigned_ok (uwrap 32 (Z.land a 65535 + Z.land b 65535)).
Definition UMULOK (a b : Z) : Z * bool := unsigned_ok (uwrap 32 (Z.land a 65535 * Z.land b 65535)).

Lemma swrap_uwrap16 z : swrap 16 (uwrap 16 z) = swrap 16 z.
Proof. unfold swrap, uwrap. simpl Z.sub. by rewrite Zplus_mod_idemp_l. Qed.

Lemma land_low z : Z.land z 65535 = uwrap 16 z.
Proof. change 65535 with (Z.ones 16). by apply Z.land_ones. Qed.

Lemma uwrap16_range z : 0 <= uwrap 16 z <= 65535.
Proof. unfold uwrap. pose proof (Z.mod_pos_bound z (2 ^ 16) ltac:(lia)). lia. Qed.

(** each test stores the low 16 bits of the exact sum or product of the low 16
    bits of its arguments, signed or unsigned, whatever the upper bits are, and
    returns true exactly when that is the exact result; the intermediate 32-bit
    result never overflows. *)
Theorem overflow_ok_exact (a b : Z) :
  let x := swrap 16 a in let y := swrap 16 b in
  let u := uwrap 16 a in let v := uwrap 16 b in
  (exists ok, SADDOK a b = Ok (swrap 16 (x + y), ok) /\ (ok = true <-> swrap 16 (x + y) = x + y)) /\
  (exists ok, SMULOK a b = Ok (swrap 16 (x * y), ok) /\ (ok = true <-> swrap 16 (x * y) = x * y)) /\
  (exists ok, UADDOK a b = (uwrap 16 (u + v), ok) /\ (ok = true <-> uwrap 16 (u + v) = u + v)) /\
  (exists ok, UMULOK a b = (uwrap 16 (u * v), ok) /\ (ok = true <-> uwrap 16 (u * v) = u * v)).
Proof.
  assert (forall r, INT32_MIN <= r <= INT32_MAX -> exists ok,
    (let! r := in_int32 r in Ok (signed_ok r)) = Ok (swrap 16 r, ok) /\ (ok = true <-> swrap 16 r = r)) as Hs.
  { intros r Hr. unfold in_int32. rewrite !(proj2 (Z.leb_le _ _)) by lia. cbn [andb rbind]. unfold signed_ok.
    rewrite swrap_uwrap16. eexists. split; [reflexivity |]. rewrite andb_true_iff, !Z.leb_le. split.
    - intros H. apply swrap_small; [lia |]. unfold in_srange. simpl. lia.
    - intros H. pose proof (swrap_range 16 r ltac:(lia)) as Hw. unfold in_srange in Hw. simpl in Hw. lia. }
  assert (forall r, 0 <= r < 2 ^ 32 -> exists ok,
    unsigned_ok (uwrap 32 r) = (uwrap 16 r, ok) /\ (ok = true <-> uwrap 16 r = r)) as Hu.
  { intros r Hr. unfold unsigned_ok. replace (uwrap 32 r) with r by (unfold uwrap; by rewrite Z.mod_small).
    eexists. split; [reflexivity |]. rewrite Z.leb_le. split.
    - intros H. unfold uwrap. apply Z.mod_small. lia.
    - intros H. pose proof (uwrap16_range r). lia. }
  pose proof (swrap_range 16 a ltac:(lia)) as Hx. pose proof (swrap_range 16 b ltac:(lia)) as Hy.
  unfold in_srange in Hx, Hy. simpl in Hx, Hy.
  pose proof (uwrap16_range a). pose proof (uwrap16_range b).
  unfold SADDOK, SMULOK, UADDOK, UMULOK, low_signed. rewrite !swrap_uwrap16, !land_low.
  unfold INT32_MIN, INT32_MAX in Hs. cbv zeta. repeat split; [apply Hs | apply Hs | apply Hu | apply Hu]; nia.
Qed.
End Ok16.

(** * SUPER ARRAY descriptors *)

Module Super.

Definition UINT64_MAX : Z := 18446744073709551615.

(** A bound as the compiler passes it: 64 bits and their signedness. *)
Definition bound (bits : Z) (is_unsigned : bool) : Z := if is_unsigned then uwrap 64 bits else bits.

Definition new_error {A} (reason : string) : res A := Err (RtAbort ("runtime error: NEW SUPER ARRAY " +:+ reason +:+ nl)).
Definition import_error {A} (reason : string) : res A := Err (RtAbort ("runtime error: UNSAFESUPER " +:+ reason +:+ nl)).

Definition bad_alignment (alignment : Z) : bool :=
  (alignment =? 0) || negb (Z.land alignment (alignment - 1) =? 0).

Section Alloc.
(** [malloc]: the address of a block of a size, if there is one. *)
Variable malloc : Z -> option Z.

Definition pas_super_new (upper_bits : Z) (upper_unsigned : bool) (lower domain_low domain_high stride alignment : Z)
    : res Z :=
  let upper := bound upper_bits upper_unsigned in
  if INT64_MAX <? upper then new_error "upper bound is not representable"
  else if upper <? lower then new_error "upper bound is below declared lower"
  else if (lower <? domain_low) || (domain_high <? lower) || (upper <? domain_low) || (domain_high <? upper)
  then new_error "upper bound is outside declared index domain"
  else if (stride =? 0) || bad_alignment alignment || (16 <? alignment)
  then new_error "element size or alignment is unsupported"
  else
    let count := uwrap 128 (upper - lower + 1) in
    if UINT64_MAX <? count then new_error "element count overflows"
    else
      let bytes := uwrap 128 (count * stride) in
      if (UINT64_MAX <? bytes) || (INT64_MAX <? bytes) then new_error "byte size overflows"
      else match malloc (uwrap 64 bytes) with
           | Some data => Ok data
           | None => new_error "allocation failed"
           end.
End Alloc.

(** [raw] is 0 for a null pointer. *)
Definition pas_super_import_check (raw lower_bits : Z) (lower_unsigned : bool) (upper_bits : Z) (upper_unsigned : bool)
    (declared_lower domain_low domain_high stride alignment : Z) : res unit :=
  let lower := bound lower_bits lower_unsigned in
  let upper := bound upper_bits upper_unsigned in
  if negb (lower =? declared_lower) then import_error "lower bound does not match declared lower"
  else if (upper <? domain_low) || (domain_high <? upper) || (INT64_MAX <? upper) || (upper <? lower)
  then import_error "upper bound is outside declared index domain"
  else if raw =? 0 then import_error "requires non-NIL data"
  else if bad_alignment alignment || negb (raw `mod` alignment =? 0)
  then import_error "data is not correctly aligned"
  else
    let bytes := uwrap 128 (uwrap 128 (upper - lower + 1) * stride) in
    if (stride =? 0) || (UINT64_MAX <? bytes) || (INT64_MAX <? bytes) || (UINT64_MAX <? uwrap 128 (raw + bytes))
    then import_error "byte span or address arithmetic overflows"
    else Ok tt.

Definition is_int64 (z : Z) : Prop := in_srange 64 z.
Definition is_uint64 (z : Z) : Prop := 0 <= z <= UINT64_MAX.

Lemma bound_range bits u : is_int64 bits -> INT64_MIN <= bound bits u <= UINT64_MAX.
Proof.
  unfold is_int64, in_srange, bound, INT64_MIN, UINT64_MAX. simpl. intros H. destruct u; [| lia].
  unfold uwrap. pose proof (Z.mod_pos_bound bits (2 ^ 64) ltac:(lia)). lia.
Qed.

Lemma uwrap128_small z : 0 <= z < 2 ^ 128 -> uwrap 128 z = z.
Proof. intros H. unfold uwrap. by apply Z.mod_small. Qed.

Lemma span_small count stride : 0 < count <= 2 ^ 64 -> is_uint64 stride -> uwrap 128 (count * stride) = count * stride.
Proof. intros Hc Hs. unfold is_uint64, UINT64_MAX in Hs. apply uwrap128_small. nia. Qed.

(** The alignments [malloc] can promise. *)
Lemma alignment_ok a : is_uint64 a -> a <= 16 -> bad_alignment a = false <-> In a [1; 2; 4; 8; 16].
Proof.
  intros [H0 _] H. assert (forallb (fun a => Bool.eqb (negb (bad_alignment a)) (existsb (Z.eqb a) [1; 2; 4; 8; 16]))
    (seqZ 0 17) = true) as Hall by (vm_compute; reflexivity).
  rewrite forallb_forall in Hall. specialize (Hall a). rewrite <- list_elem_of_In, elem_of_seqZ in Hall.
  specialize (Hall ltac:(lia)). apply Bool.eqb_prop in Hall.
  rewrite <- negb_true_iff, Hall, existsb_exists. split; [by intros (x & Hx & ->%Z.eqb_eq) | intros Ha; exists a].
  split; [done | apply Z.eqb_refl].
Qed.

Ltac bools :=
  repeat rewrite ?orb_true_iff, ?orb_false_iff, ?Z.ltb_lt, ?Z.ltb_ge, ?Z.eqb_eq, ?Z.eqb_neq,
    ?negb_true_iff, ?negb_false_iff in *.

(** NEW of a SUPER ARRAY returns a block exactly when the bounds are ordered
    and inside the declared index domain, the element size and alignment are
    supported, and the array's size in bytes, computed without overflow, is one
    C can address and [malloc] has; then the block has exactly that size.
    Otherwise it stops with a message. *)
Theorem super_new_safe malloc upper_bits upper_unsigned lower domain_low domain_high stride alignment
    (Hu : is_int64 upper_bits) (Hl : is_int64 lower) (Hlo : is_int64 domain_low) (Hhi : is_int64 domain_high)
    (Hst : is_uint64 stride) (Hal : is_uint64 alignment) :
  let upper := bound upper_bits upper_unsigned in
  let new := pas_super_new malloc upper_bits upper_unsigned lower domain_low domain_high stride alignment in
  (forall p, new = Ok p <->
     lower <= upper /\ domain_low <= lower /\ upper <= domain_high /\ 0 < stride /\ In alignment [1; 2; 4; 8; 16] /\
     (upper - lower + 1) * stride <= INT64_MAX /\ malloc ((upper - lower + 1) * stride) = Some p) /\
  (forall e, new = Err e -> exists reason, e = RtAbort ("runtime error: NEW SUPER ARRAY " +:+ reason +:+ nl)).
Proof.
  cbv zeta. pose proof (bound_range upper_bits upper_unsigned Hu) as Hb.
  set (upper := bound upper_bits upper_unsigned) in *. unfold pas_super_new. fold upper.
  unfold is_int64, in_srange in Hl, Hlo, Hhi. simpl in Hl, Hlo, Hhi. pose proof Hst as [Hs0 Hs1].
  assert (forall m, (forall p, @new_error Z m = Ok p <-> False) /\
    (forall e, @new_error Z m = Err e -> exists r, e = RtAbort ("runtime error: NEW SUPER ARRAY " +:+ r +:+ nl))) as Hstop.
  { intros m. split; [done |]. intros e [= <-]. eauto. }
  unfold INT64_MIN, INT64_MAX, UINT64_MAX in *.
  destruct (Z.ltb_spec 9223372036854775807 upper).
  { split; [| apply Hstop]. intros p. split; [done | lia]. }
  destruct (Z.ltb_spec upper lower).
  { split; [| apply Hstop]. intros p. split; [done | lia]. }
  destruct ((lower <? domain_low) || _ || _ || _) eqn:Ed.
  { split; [| apply Hstop]. intros p. bools. split; [done | lia]. }
  destruct ((stride =? 0) || bad_alignment alignment || (16 <? alignment)) eqn:Ea.
  { split; [| apply Hstop]. intros p. split; [done |]. intros (_ & _ & _ & Hp & Hin & _).
    assert (alignment <= 16) as H16 by (simpl in Hin; lia).
    apply (alignment_ok alignment Hal H16) in Hin. bools. destruct Ea as [[|] |]; [lia | congruence | lia]. }
  bools. destruct Ea as [[Es Eal] E16]. apply (alignment_ok alignment Hal E16) in Eal.
  rewrite uwrap128_small by lia. set (count := upper - lower + 1) in *.
  destruct (Z.ltb_spec 18446744073709551615 count) as [Hc | Hc].
  { split; [| apply Hstop]. intros p. split; [done |]. nia. }
  rewrite span_small by (done || lia).
  destruct (_ || _) eqn:Eb.
  { split; [| apply Hstop]. intros p. bools. split; [done |]. lia. }
  bools. replace (uwrap 64 (count * stride)) with (count * stride)
    by (unfold uwrap; symmetry; apply Z.mod_small; nia).
  destruct (malloc (count * stride)) as [q |].
  - split; [| done]. intros p. split; [intros [= <-]; repeat split; try done; lia | by intros (_ & _ & _ & _ & _ & _ & [= <-])].
  - split; [| apply Hstop]. intros p. split; [done | by intros (_ & _ & _ & _ & _ & _ & ?)].
Qed.

Lemma super_new_safe_witness :
  pas_super_new (fun n => if n =? 40 then Some 4096 else None) 10 false 1 0 100 4 4 = Ok 4096.
Proof.
  apply (super_new_safe (fun n => if n =? 40 then Some 4096 else None) 10 false 1 0 100 4 4);
    unfold is_int64, is_uint64, in_srange, UINT64_MAX; simpl;
    repeat split; first [lia | reflexivity | tauto | discriminate].
Defined.

(** the check of an imported SUPER ARRAY accepts a descriptor exactly when its
    lower bound is the declared one, its upper bound is in the index domain and
    not below, its data is not NIL and aligned to a power of two, and the whole
    array lies in the address space without overflow. *)
Theorem super_import_exact raw lower_bits lower_unsigned upper_bits upper_unsigned declared_lower
    domain_low domain_high stride alignment
    (Hr : is_uint64 raw) (Hlb : is_int64 lower_bits) (Hub : is_int64 upper_bits) (Hdl : is_int64 declared_lower)
    (Hlo : is_int64 domain_low) (Hhi : is_int64 domain_high) (Hst : is_uint64 stride) (Hal : is_uint64 alignment) :
  let lower := bound lower_bits lower_unsigned in
  let upper := bound upper_bits upper_unsigned in
  let bytes := (upper - lower + 1) * stride in
  let check := pas_super_import_check raw lower_bits lower_unsigned upper_bits upper_unsigned
                 declared_lower domain_low domain_high stride alignment in
  (check = Ok tt <->
     lower = declared_lower /\ lower <= upper /\ domain_low <= upper <= domain_high /\ raw <> 0 /\
     bad_alignment alignment = false /\ raw `mod` alignment = 0 /\ 0 < stride /\ bytes <= INT64_MAX /\
     raw + bytes <= UINT64_MAX) /\
  (forall e, check = Err e -> exists reason, e = RtAbort ("runtime error: UNSAFESUPER " +:+ reason +:+ nl)).
Proof.
  cbv zeta. set (lower := bound lower_bits lower_unsigned). set (upper := bound upper_bits upper_unsigned).
  unfold pas_super_import_check. fold lower upper.
  unfold is_int64, in_srange in *. simpl in *. pose proof Hst as [Hs0 Hs1]. destruct Hr as [Hr0 Hr1].
  assert (forall m, @import_error unit m <> Ok tt) as Hne by done.
  assert (forall m e, @import_error unit m = Err e -> exists r, e = RtAbort ("runtime error: UNSAFESUPER " +:+ r +:+ nl)) as Hstop
    by (intros m e [= <-]; eauto).
  unfold INT64_MAX, UINT64_MAX in *.
  destruct (Z.eqb_spec lower declared_lower) as [El | El]; cbn [negb]; [| split; [split; [done | lia] | apply Hstop]].
  destruct ((upper <? domain_low) || _ || _ || _) eqn:Eu; bools; [split; [split; [done | lia] | apply Hstop] |].
  destruct (Z.eqb_spec raw 0) as [E0 | E0]; [split; [split; [done | lia] | apply Hstop] |].
  destruct (bad_alignment alignment || _) eqn:Ea; bools.
  { split; [split; [done |] | apply Hstop]. intros (_ & _ & _ & _ & Hb & Hm & _). destruct Ea as [|]; [congruence | done]. }
  rewrite (uwrap128_small (upper - lower + 1)) by lia. rewrite span_small by (done || lia).
  set (bytes := (upper - lower + 1) * stride) in *.
  destruct (Z.eqb_spec stride 0) as [E1 | E1]; cbn [orb]; [split; [split; [done | lia] | apply Hstop] |].
  destruct (Z.ltb_spec 18446744073709551615 bytes); cbn [orb]; [split; [split; [done | lia] | apply Hstop] |].
  destruct (Z.ltb_spec 9223372036854775807 bytes); cbn [orb]; [split; [split; [done | lia] | apply Hstop] |].
  assert (0 <= bytes) by (unfold bytes; nia). rewrite (uwrap128_small (raw + bytes)) by lia.
  destruct (Z.ltb_spec 18446744073709551615 (raw + bytes)); [split; [split; [done | lia] | apply Hstop] |].
  split; [| done]. split; [intros _ | done]. destruct Ea. repeat split; try done; lia.
Qed.

Lemma super_import_exact_witness : pas_super_import_check 4096 1 false 10 true 1 0 100 4 8 = Ok tt.
Proof.
  apply (super_import_exact 4096 1 false 10 true 1 0 100 4 8);
    unfold is_int64, is_uint64, in_srange, UINT64_MAX, INT64_MAX; vm_compute; repeat split; discriminate.
Defined.
End Super.
