(* ===== verification/InitHeap.v ===== *)
(** initck.c and initck_heap.c of runtime/: which leaves of the variables a program
    keeps on the heap have been initialized. The state of a referent is a block of
    one byte per scalar leaf; an open-addressing hash table with tombstones maps
    the address of the referent to its block. The table refines a finite map from
    addresses to leaves under every sequence of calls, whatever allocations fail;
    under the spin lock, concurrent calls take effect in the order in which they
    got the lock, and some call always gets through. *)

From Stdlib Require Import ZArith Ascii String Lia.
From stdpp Require Import base list strings gmap numbers.
From S2P Require Import Prelude.
#[local] Open Scope Z_scope.

(** * The state *)

(** [struct heap_entry]; [shadow] is the number of a block, or [None] for NULL. *)
Record heap_entry := mkEntry { key : Z; shadow : option nat; nleaves : Z; released : bool }.

Definition TOMBSTONE : Z := 1.
(** What [calloc] gives. *)
Definition empty_entry : heap_entry := mkEntry 0 None 0 false.
(** [key && key != TOMBSTONE]. *)
Definition live (e : heap_entry) : bool := negb (key e =? 0) && negb (key e =? TOMBSTONE).

(** The globals of the file, the blocks of bytes that are allocated, and the number
    of allocations asked for so far. *)
Record heap := mkHeap {
  table : list heap_entry;
  capacity : Z;
  occupied : Z;
  blocks : gmap nat (list Z);
  requests : nat;
  scratch : option nat;
  scratch_n : Z
}.

Definition heap0 : heap := mkHeap [] 0 0 ∅ 0 None 0.

Definition set_table (h : heap) (t : list heap_entry) (cap occ : Z) : heap :=
  mkHeap t cap occ (blocks h) (requests h) (scratch h) (scratch_n h).
Definition set_blocks (h : heap) (b : gmap nat (list Z)) : heap :=
  mkHeap (table h) (capacity h) (occupied h) b (requests h) (scratch h) (scratch_n h).
Definition set_scratch (h : heap) (b : option nat) (n : Z) : heap :=
  mkHeap (table h) (capacity h) (occupied h) (blocks h) (requests h) b n.

(** A pointer into a block. *)
Record bptr := mkPtr { block : nat; offs : Z }.

Definition heap_error {A} (reason : string) : ST heap A := fail (RtAbort ("runtime error: INITCK heap state " +:+ reason)).

(** * Blocks *)

Section Code.

(** Whether the host grants request number [i], of [size] bytes. *)
Context (grants : nat -> Z -> bool).

(** [malloc] and [calloc] of bytes, with what the block holds at first. *)
Definition alloc (size : Z) (init : Z) : ST heap (option nat) := fun h =>
  let i := requests h in
  if grants i size
  then Ok (Some i, mkHeap (table h) (capacity h) (occupied h) (<[i := replicate (Z.to_nat size) init]> (blocks h))
                          (S i) (scratch h) (scratch_n h))
  else Ok (None, mkHeap (table h) (capacity h) (occupied h) (blocks h) (S i) (scratch h) (scratch_n h)).

(** [calloc] of a table: only whether it is granted; the table itself is the list. *)
Definition alloc_table (cap : Z) : ST heap bool := fun h =>
  Ok (grants (requests h) (cap * 32),
      mkHeap (table h) (capacity h) (occupied h) (blocks h) (S (requests h)) (scratch h) (scratch_n h)).

Definition free (b : option nat) : ST heap unit := fun h =>
  match b with
  | None => Ok (tt, h)
  | Some i => match blocks h !! i with
              | Some _ => Ok (tt, set_blocks h (delete i (blocks h)))
              | None => Err (Undef "free of a block that is not allocated")
              end
  end.

(** [memset(p, v, n)]. *)
Definition memset (p : bptr) (v : Z) (n : Z) : ST heap unit := fun h =>
  match blocks h !! block p with
  | Some bs =>
      if (0 <=? offs p) && (0 <=? n) && (offs p + n <=? Z.of_nat (length bs))
      then Ok (tt, set_blocks h (<[block p := take (Z.to_nat (offs p)) bs ++ replicate (Z.to_nat n) v
                                              ++ drop (Z.to_nat (offs p + n)) bs]> (blocks h)))
      else Err (Undef "memset outside a block")
  | None => Err (Undef "memset of a block that is not allocated")
  end.

(** * The hash table *)

Definition slot_of (k cap : Z) : Z :=
  let h := uwrap 64 k in
  let h := Z.lxor h (Z.shiftr h 33) in
  let h := uwrap 64 (h * 0xff51afd7ed558ccd) in
  let h := Z.lxor h (Z.shiftr h 33) in
  Z.land h (cap - 1).

(** The loops over the table: from [i] on, around the end, to the first cell that
    satisfies [stop]. *)
Fixpoint probe (stop : heap_entry -> bool) (fuel : nat) (t : list heap_entry) (cap i : Z) : res Z :=
  match fuel with
  | O => Err OutOfFuel
  | S f =>
      match t !! Z.to_nat i with
      | None => Err (Undef "read outside the table")
      | Some e => if stop e then Ok i else probe stop f t cap (Z.land (i + 1) (cap - 1))
      end
  end.

Definition is_empty (e : heap_entry) : bool := key e =? 0.
Definition is_free (e : heap_entry) : bool := negb (live e).
Definition is_key_or_empty (k : Z) (e : heap_entry) : bool := (key e =? k) || (key e =? 0).

(** [find]: the index of the entry. *)
Definition find (k : Z) : ST heap (option Z) := fun h =>
  if (capacity h =? 0) || (k =? 0) || (k =? TOMBSTONE) then Ok (None, h)
  else
    let! i := probe (is_key_or_empty k) (length (table h)) (table h) (capacity h) (slot_of k (capacity h)) in
    match table h !! Z.to_nat i with
    | Some e => Ok (if key e =? k then Some i else None, h)
    | None => Err (Undef "read outside the table")
    end.

Fixpoint count_live (t : list heap_entry) : Z :=
  match t with [] => 0 | e :: t' => (if live e then 1 else 0) + count_live t' end.

(** [while ((live + 1) * 2 > cap) cap *= 2;] *)
Fixpoint grow_cap (fuel : nat) (nlive cap : Z) : res Z :=
  if uwrap 64 ((nlive + 1) * 2) <=? cap then Ok cap
  else match fuel with O => Err OutOfFuel | S f => grow_cap f nlive (uwrap 64 (cap * 2)) end.

(** The loop that moves the live entries to the fresh table. *)
Fixpoint rehash (old fresh : list heap_entry) (cap : Z) : res (list heap_entry) :=
  match old with
  | [] => Ok fresh
  | e :: old' =>
      if live e then
        let! j := probe is_empty (length fresh) fresh cap (slot_of (key e) cap) in
        rehash old' (<[Z.to_nat j := e]> fresh) cap
      else rehash old' fresh cap
  end.

Definition reserve : ST heap bool :=
  let* h := get in
  if uwrap 64 ((occupied h + 1) * 4) <=? uwrap 64 (capacity h * 3) then ret true
  else
    let nlive := count_live (table h) in
    let* cap := lift (grow_cap 64 nlive (if capacity h =? 0 then 64 else capacity h)) in
    let* ok := alloc_table cap in
    if negb ok then ret false
    else
      let* fresh := lift (rehash (table h) (replicate (Z.to_nat cap) empty_entry) cap) in
      do* modify (fun h => set_table h fresh cap nlive) in
      ret true.

(** The entry at index [i]. *)
Definition entry (i : Z) : ST heap heap_entry := fun h =>
  match table h !! Z.to_nat i with Some e => Ok (e, h) | None => Err (Undef "read outside the table") end.
Definition set_entry (i : Z) (e : heap_entry) : ST heap unit :=
  modify (fun h => set_table h (<[Z.to_nat i := e]> (table h)) (capacity h) (occupied h)).

(** * The calls of compiled programs *)

Definition pas_initck_heap_new (data n : Z) : ST heap unit :=
  if (data =? 0) || (n <=? 0) then ret tt
  else
    let* b := alloc n 0 in
    match b with
    | None => heap_error "allocation failed"
    | Some b =>
        let* e := find data in
        let* i :=
          match e with
          | Some i => let* e := entry i in do* free (shadow e) in ret i
          | None =>
              let* ok := reserve in
              if negb ok then heap_error "allocation failed"
              else
                let* h := get in
                let* i := lift (probe is_free (length (table h)) (table h) (capacity h) (slot_of data (capacity h))) in
                let* e := entry i in
                do* modify (fun h => set_table h (table h) (capacity h)
                                               (if key e =? 0 then occupied h + 1 else occupied h)) in
                ret i
          end in
        set_entry i (mkEntry data (Some b) n false)
    end.

(** [untracked]: the scratch block, with [n] initialized leaves. *)
Definition untracked (n : Z) : ST heap bptr :=
  let n := if n <? 0 then 0 else n in
  let* h := get in
  let* b :=
    match scratch h with
    | Some b => if n <=? scratch_n h then ret (Some b) else ret None
    | None => ret None
    end in
  let* b :=
    match b with
    | Some b => ret b
    | None =>
        if negb (2 * scratch_n h <=? INT64_MAX) then fail (Undef "signed overflow")
        else
          let want := if 2 * scratch_n h <? n then n else 2 * scratch_n h in
          let want := if want <? 64 then 64 else want in
          let* f := alloc want 0 in
          match f with
          | None => heap_error "allocation failed"
          | Some f => do* modify (fun h => set_scratch h (Some f) want) in ret f
          end
    end in
  do* memset (mkPtr b 0) 1 n in
  ret (mkPtr b 0).

(** [untracked_at]; [fallback] is [None] for NULL. *)
Definition untracked_at (fallback : option bptr) (n : Z) : ST heap bptr :=
  match fallback with
  | None => untracked n
  | Some p => do* (if 0 <? n then memset p 1 n else ret tt) in ret p
  end.

(** The shadow of the entry at [i], with an offset, when the registration agrees. *)
Definition shadow_at (data : Z) (agrees : heap_entry -> bool) (offset : Z) : ST heap (option bptr) :=
  let* e := find data in
  match e with
  | None => ret None
  | Some i =>
      let* e := entry i in
      if negb (released e) && agrees e
      then ret (option_map (fun b => mkPtr b offset) (shadow e)) else ret None
  end.

Definition pas_initck_heap_at (data n : Z) (fallback : option bptr) : ST heap bptr :=
  let* sh := shadow_at data (fun e => nleaves e =? n) 0 in
  match sh with Some p => ret p | None => untracked_at fallback n end.

Definition pas_initck_heap (data n : Z) : ST heap bptr := pas_initck_heap_at data n None.

Definition pas_initck_heap_part_at (data n offset count : Z) (fallback : option bptr) : ST heap bptr :=
  let* sh := shadow_at data (fun e => (nleaves e =? n) && (0 <=? offset) && (0 <=? count)
                                      && (offset <=? n - count)) offset in
  match sh with Some p => ret p | None => untracked_at fallback count end.

Definition pas_initck_heap_part (data n offset count : Z) : ST heap bptr :=
  pas_initck_heap_part_at data n offset count None.

Definition pas_initck_heap_dispose (data : Z) : ST heap unit :=
  let* e := find data in
  let* sh :=
    match e with
    | None => ret None
    | Some i => let* e := entry i in do* set_entry i (mkEntry TOMBSTONE None 0 false) in ret (shadow e)
    end in
  free sh.

Definition pas_initck_heap_release (data : Z) : ST heap unit :=
  let* e := find data in
  match e with
  | None => ret tt
  | Some i =>
      let* e := entry i in
      if negb (released e) then
        do* match shadow e with
            | Some b => memset (mkPtr b 0) 1 (nleaves e)
            | None => fail (Undef "memset of NULL")
            end in
        set_entry i (mkEntry (key e) (shadow e) (nleaves e) true)
      else ret tt
  end.

End Code.

(** * initck.c: the state of aggregates *)

Definition load (p : bptr) : ST heap Z := fun h =>
  match blocks h !! block p with
  | Some bs => if 0 <=? offs p then
                 match bs !! Z.to_nat (offs p) with Some v => Ok (v, h) | None => Err (Undef "read outside a block") end
               else Err (Undef "read outside a block")
  | None => Err (Undef "read of a block that is not allocated")
  end.

(** The loop of [pas_initck_all], with [n] leaves left. *)
Fixpoint all_from (n : nat) (s : bptr) : ST heap bool :=
  match n with
  | O => ret true
  | S n' =>
      let* v := load s in
      if v =? 0 then ret false else all_from n' (mkPtr (block s) (offs s + 1))
  end.
Definition pas_initck_all (s : bptr) (n : Z) : ST heap bool := all_from (Z.to_nat n) s.

(** [memmove(dst, src, n)]. *)
Definition memmove (dst src : bptr) (n : Z) : ST heap unit := fun h =>
  match blocks h !! block src, blocks h !! block dst with
  | Some bs, Some bd =>
      if (0 <=? n) && (0 <=? offs src) && (offs src + n <=? Z.of_nat (length bs))
         && (0 <=? offs dst) && (offs dst + n <=? Z.of_nat (length bd))
      then Ok (tt, set_blocks h (<[block dst := take (Z.to_nat (offs dst)) bd
                                                ++ take (Z.to_nat n) (drop (Z.to_nat (offs src)) bs)
                                                ++ drop (Z.to_nat (offs dst + n)) bd]> (blocks h)))
      else Err (Undef "memmove outside a block")
  | _, _ => Err (Undef "memmove of a block that is not allocated")
  end.

Definition pas_initck_copy (dst src : bptr) (n : Z) (ok : bool) : ST heap unit :=
  if ok then memmove dst src n else memset dst 0 n.
Definition pas_initck_fill (dst : bptr) (n : Z) (ok : bool) : ST heap unit :=
  memset dst (if ok then 1 else 0) n.
Definition pas_initck_release_unacked (dst : bptr) (n : Z) (acked : bool) : ST heap unit :=
  if acked then ret tt else memset dst 1 n.
Definition pas_initck_receive (own : bptr) (p : option bptr) (n : Z) : ST heap unit :=
  match p with
  | Some p =>
      if Nat.eqb (block own) (block p) && (Z.abs (offs own - offs p) <? n)
      then fail (Undef "memcpy of overlapping leaves") else memmove own p n
  | None => memset own 1 n
  end.

(** * Programs that use the table *)

(** A buffer of [n] bytes in the frame of the caller. *)
Definition frame (n : Z) : ST heap bptr := fun h =>
  Ok (mkPtr (requests h) 0,
      mkHeap (table h) (capacity h) (occupied h) (<[requests h := replicate (Z.to_nat n) 0]> (blocks h))
             (S (requests h)) (scratch h) (scratch_n h)).

(** What a compiled program does with a referent: NEW, DISPOSE, an escape, a check
    that [count] leaves from [offset] are initialized, and the same leaves set or
    unset. [own] tells whether the site has a fallback buffer of its own. *)
Inductive op :=
  | New (data n : Z)
  | Dispose (data : Z)
  | Release (data : Z)
  | Check_at (data n : Z) (own : bool)
  | Check_part (data n offset count : Z) (own : bool)
  | Fill_at (data n : Z) (ok own : bool)
  | Fill_part (data n offset count : Z) (ok own : bool).

Section Client.
Context (grants : nat -> Z -> bool).

Definition at_site {A} (own : bool) (count : Z) (lookup : option bptr -> ST heap bptr) (use : bptr -> ST heap A) : ST heap A :=
  if own then
    let* f := frame count in
    let* p := lookup (Some f) in
    let* a := use p in
    do* free (Some (block f)) in
    ret a
  else let* p := lookup None in use p.

Definition exec (o : op) : ST heap (option bool) :=
  match o with
  | New data n => do* pas_initck_heap_new grants data n in ret None
  | Dispose data => do* pas_initck_heap_dispose data in ret None
  | Release data => do* pas_initck_heap_release data in ret None
  | Check_at data n own =>
      at_site own n (pas_initck_heap_at grants data n) (fun p => let* b := pas_initck_all p n in ret (Some b))
  | Check_part data n offset count own =>
      at_site own count (pas_initck_heap_part_at grants data n offset count)
        (fun p => let* b := pas_initck_all p count in ret (Some b))
  | Fill_at data n ok own =>
      at_site own n (pas_initck_heap_at grants data n) (fun p => do* pas_initck_fill p n ok in ret None)
  | Fill_part data n offset count ok own =>
      at_site own count (pas_initck_heap_part_at grants data n offset count)
        (fun p => do* pas_initck_fill p count ok in ret None)
  end.

Fixpoint exec_all (os : list op) : ST heap (list (option bool)) :=
  match os with
  | [] => ret []
  | o :: os' => let* r := exec o in let* rs := exec_all os' in ret (r :: rs)
  end.
End Client.

(** ** What the table promises *)

(** Addresses of tracked referents, with their leaves and whether they escaped. *)
Abbreviation leafmap := (gmap Z (list Z * bool)).

Definition tracked (m : leafmap) (data n offset count : Z) : option (list Z) :=
  match m !! data with
  | Some (bs, false) =>
      if (Z.of_nat (length bs) =? n) && (0 <=? offset) && (0 <=? count) && (offset <=? n - count) then Some bs else None
  | _ => None
  end.

Definition spec_check (m : leafmap) (data n offset count : Z) : bool :=
  match tracked m data n offset count with
  | Some bs => forallb (fun v => negb (v =? 0)) (take (Z.to_nat count) (drop (Z.to_nat offset) bs))
  | None => true
  end.

Definition splice (bs : list Z) (offset count v : Z) : list Z :=
  take (Z.to_nat offset) bs ++ replicate (Z.to_nat count) v ++ drop (Z.to_nat (offset + count)) bs.

Definition spec_fill (m : leafmap) (data n offset count : Z) (ok : bool) : leafmap :=
  match tracked m data n offset count with
  | Some bs => <[data := (splice bs offset count (if ok then 1 else 0), false)]> m
  | None => m
  end.

Definition spec (o : op) (m : leafmap) : option bool * leafmap :=
  match o with
  | New data n =>
      (None, if (data =? 0) || (data =? 1) || (n <=? 0) then m else <[data := (replicate (Z.to_nat n) 0, false)]> m)
  | Dispose data => (None, delete data m)
  | Release data =>
      (None, match m !! data with
             | Some (bs, false) => <[data := (replicate (length bs) 1, true)]> m
             | _ => m
             end)
  | Check_at data n _ => (Some (spec_check m data n 0 n), m)
  | Check_part data n offset count _ => (Some (spec_check m data n offset count), m)
  | Fill_at data n ok _ => (None, spec_fill m data n 0 n ok)
  | Fill_part data n offset count ok _ => (None, spec_fill m data n offset count ok)
  end.

Fixpoint spec_all (os : list op) (m : leafmap) : list (option bool) :=
  match os with [] => [] | o :: os' => (spec o m).1 :: spec_all os' (spec o m).2 end.

(** * Probing *)

Lemma land_pow2 x cap k : 0 <= k -> cap = 2 ^ k -> Z.land x (cap - 1) = x `mod` cap.
Proof.
  intros Hk ->. rewrite <- Z.land_ones by done. f_equal. rewrite Z.ones_equiv. lia.
Qed.

Definition pow2 (cap : Z) : Prop := exists k, 0 <= k /\ cap = 2 ^ k.

Lemma pow2_pos cap : pow2 cap -> 0 < cap.
Proof. intros (k & Hk & ->). by apply Z.pow_pos_nonneg. Qed.

Lemma slot_of_range k cap : pow2 cap -> 0 <= slot_of k cap < cap.
Proof.
  intros Hp. pose proof (pow2_pos _ Hp). destruct Hp as (e & He & Ec). unfold slot_of.
  rewrite (land_pow2 _ _ e) by done. by apply Z.mod_pos_bound.
Qed.

Section Probing.
Context (t : list heap_entry) (cap : Z).
Hypothesis Hpow : pow2 cap.
Hypothesis Hlen : Z.of_nat (length t) = cap.

(** The cell [d] steps after [s]. *)
Definition cell (s d : Z) : option heap_entry := t !! Z.to_nat ((s + d) `mod` cap).

Lemma cell_Some s d : exists e, cell s d = Some e.
Proof using Hpow Hlen.
  apply lookup_lt_is_Some. pose proof (pow2_pos _ Hpow).
  pose proof (Z.mod_pos_bound (s + d) cap ltac:(done)). lia.
Qed.

(** How far index [j] is from [s]. *)
Lemma cell_dist s j : 0 <= j < cap -> cell s ((j - s) `mod` cap) = t !! Z.to_nat j.
Proof using Hpow.
  intros Hj. unfold cell. rewrite Zplus_mod_idemp_r. replace (s + (j - s)) with j by lia.
  by rewrite Z.mod_small.
Qed.

Lemma probe_from stop s fuel : forall d D,
  0 <= d <= D -> (Z.to_nat (D - d) < fuel)%nat ->
  (exists e, cell s D = Some e /\ stop e = true) ->
  exists d' e, d <= d' <= D /\ probe stop fuel t cap ((s + d) `mod` cap) = Ok ((s + d') `mod` cap) /\
    cell s d' = Some e /\ stop e = true /\
    forall x, d <= x < d' -> exists e', cell s x = Some e' /\ stop e' = false.
Proof using Hpow Hlen.
  induction fuel as [|f IH]; intros d D Hd Hf HD; [lia |].
  destruct (cell_Some s d) as [e He]. cbn [probe]. fold (cell s d). rewrite He.
  destruct (stop e) eqn:Es.
  - exists d, e. repeat split; try lia; try done.
  - destruct HD as (eD & HeD & HsD).
    assert (d <> D) by (intros ->; congruence).
    destruct (IH (d + 1) D ltac:(lia) ltac:(lia) (ex_intro _ eD (conj HeD HsD))) as (d' & e' & H1 & H2 & H3 & H4 & H5).
    exists d', e'. split; [lia |]. split.
    + destruct Hpow as (k & Hk & Ek). rewrite (land_pow2 _ _ k) by done.
      rewrite Zplus_mod_idemp_l. by replace (s + d + 1) with (s + (d + 1)) by lia.
    + repeat split; try done. intros x Hx. destruct (Z.eq_dec x d) as [-> | Hn]; [eauto |]. apply H5. lia.
Qed.

(** A probe ends, at the first cell that satisfies its condition. *)
Lemma probe_first stop s j e0 : 0 <= s < cap -> t !! j = Some e0 -> stop e0 = true ->
  exists d e, 0 <= d < cap /\ probe stop (length t) t cap s = Ok ((s + d) `mod` cap) /\
    cell s d = Some e /\ stop e = true /\
    forall x, 0 <= x < d -> exists e', cell s x = Some e' /\ stop e' = false.
Proof using Hpow Hlen.
  intros Hs Hj Hst. pose proof (lookup_lt_Some _ _ _ Hj) as Hlt. pose proof (pow2_pos _ Hpow).
  pose proof (Z.mod_pos_bound (Z.of_nat j - s) cap ltac:(done)) as HD.
  destruct (probe_from stop s (length t) 0 ((Z.of_nat j - s) `mod` cap)) as (d & e & H1 & H2 & H3 & H4 & H5); [lia.. | |].
  - exists e0. split; [| done]. rewrite cell_dist by lia. by rewrite Nat2Z.id.
  - exists d, e. rewrite Z.add_0_r, (Z.mod_small s) in H2 by done. repeat split; try lia; try done.
Qed.
End Probing.

(** * The invariant of the table *)

(** No two cells hold a key, and no empty cell comes between the slot of a key and
    the cell that holds it. *)
Record table_wf (t : list heap_entry) (cap : Z) : Prop := {
  wf_pow2 : pow2 cap;
  wf_len : Z.of_nat (length t) = cap;
  wf_uniq : forall i j e e', t !! i = Some e -> t !! j = Some e' -> live e = true -> key e = key e' -> i = j;
  wf_reach : forall i e, t !! i = Some e -> live e = true ->
    forall d, 0 <= d < (Z.of_nat i - slot_of (key e) cap) `mod` cap ->
    exists e', cell t cap (slot_of (key e) cap) d = Some e' /\ key e' <> 0
}.

(** The finite map a table stands for. *)
Definition represents (t : list heap_entry) (m : gmap Z heap_entry) : Prop :=
  forall k e, m !! k = Some e <-> (exists i : nat, t !! i = Some e) /\ live e = true /\ key e = k.

Lemma live_iff e : live e = true <-> key e <> 0 /\ key e <> 1.
Proof. unfold live, TOMBSTONE. destruct (Z.eqb_spec (key e) 0), (Z.eqb_spec (key e) 1); simpl; intuition congruence. Qed.

Lemma not_live_iff e : live e = false <-> key e = 0 \/ key e = 1.
Proof. unfold live, TOMBSTONE. destruct (Z.eqb_spec (key e) 0), (Z.eqb_spec (key e) 1); simpl; intuition congruence. Qed.

Lemma represents_reserved t m k : represents t m -> k = 0 \/ k = 1 -> m !! k = None.
Proof.
  intros HR Hk. destruct (m !! k) as [e|] eqn:E; [| done]. apply HR in E as (_ & Hl & <-).
  apply live_iff in Hl. lia.
Qed.

Lemma probe_find t cap m k j e0 : table_wf t cap -> represents t m -> k <> 0 -> k <> 1 ->
  t !! j = Some e0 -> key e0 = 0 ->
  exists i e, probe (is_key_or_empty k) (length t) t cap (slot_of k cap) = Ok i /\ 0 <= i < cap /\
    t !! Z.to_nat i = Some e /\ (if key e =? k then m !! k = Some e else m !! k = None).
Proof.
  intros Hw HR Hk0 Hk1 Hj He0. pose proof (wf_pow2 _ _ Hw) as Hp. pose proof (wf_len _ _ Hw) as Hlen.
  pose proof (slot_of_range k cap Hp) as Hs. pose proof (pow2_pos _ Hp).
  destruct (probe_first t cap Hp Hlen (is_key_or_empty k) (slot_of k cap) j e0 Hs Hj) as (d & e & Hd & Hpr & Hc & Hst & Hbefore).
  { unfold is_key_or_empty. rewrite He0. simpl. by rewrite orb_true_r. }
  exists ((slot_of k cap + d) `mod` cap), e. split; [done |]. split; [by apply Z.mod_pos_bound |]. split; [done |].
  destruct (Z.eqb_spec (key e) k) as [Ek | Ek].
  { apply HR. split; [by eexists |]. split; [apply live_iff; lia | done]. }
  assert (key e = 0) as Ez.
  { unfold is_key_or_empty in Hst. apply orb_true_iff in Hst as [?%Z.eqb_eq | ?%Z.eqb_eq]; lia. }
  destruct (m !! k) as [e1|] eqn:E; [exfalso | done]. apply HR in E as ((j1 & Hj1) & Hl & Hk).
  pose proof (lookup_lt_Some _ _ _ Hj1).
  set (D := (Z.of_nat j1 - slot_of k cap) `mod` cap).
  assert (0 <= D < cap) by (by apply Z.mod_pos_bound).
  assert (cell t cap (slot_of k cap) D = Some e1) as HcD.
  { unfold D. rewrite (cell_dist t cap Hp) by lia. by rewrite Nat2Z.id. }
  destruct (Z.lt_trichotomy d D) as [Hlt | [-> | Hgt]]; [| congruence |].
  - destruct (wf_reach _ _ Hw j1 e1 Hj1 Hl d) as (e' & He' & Hne); [rewrite Hk; unfold D in *; lia |].
    rewrite Hk in He'. congruence.
  - destruct (Hbefore D ltac:(lia)) as (e' & He' & Hf). assert (e' = e1) as -> by congruence.
    unfold is_key_or_empty in Hf. rewrite Hk, Z.eqb_refl in Hf. done.
Qed.

Lemma cell_insert t cap i e s d : 0 <= i < cap -> Z.of_nat (length t) = cap ->
  cell (<[Z.to_nat i := e]> t) cap s d = if decide ((s + d) `mod` cap = i) then Some e else cell t cap s d.
Proof.
  intros Hi Hlen. unfold cell. pose proof (Z.mod_pos_bound (s + d) cap ltac:(lia)). destruct (decide _) as [-> | Hn].
  - rewrite list_lookup_insert_eq by lia. done.
  - rewrite list_lookup_insert_ne by lia. done.
Qed.

(** Cells are only ever overwritten with a key or a tombstone, so what was
    reachable stays reachable. *)
Lemma reach_insert t cap i e s d e0 : 0 <= i < cap -> Z.of_nat (length t) = cap -> key e <> 0 ->
  cell t cap s d = Some e0 -> key e0 <> 0 ->
  exists e', cell (<[Z.to_nat i := e]> t) cap s d = Some e' /\ key e' <> 0.
Proof. intros Hi Hlen He Hc H0. rewrite cell_insert by done. destruct (decide _); eauto. Qed.

Lemma insert_cases (t : list heap_entry) (i j : nat) e e' : <[i := e]> t !! j = Some e' ->
  (j = i /\ e' = e) \/ (j <> i /\ t !! j = Some e').
Proof.
  intros H. destruct (decide (i = j)) as [-> | Hn].
  - left. split; [done |]. pose proof (lookup_lt_Some _ _ _ H) as Hl. rewrite length_insert in Hl.
    rewrite list_lookup_insert_eq in H by done. congruence.
  - right. rewrite list_lookup_insert_ne in H by done. done.
Qed.

(** Overwriting a cell with a tombstone. *)
Lemma wf_bury t cap i e : table_wf t cap -> 0 <= i < cap -> key e = 1 -> table_wf (<[Z.to_nat i := e]> t) cap.
Proof.
  intros [Hp Hlen Hu Hr] Hi He. assert (live e = false) by (apply not_live_iff; lia).
  split; [done | by rewrite length_insert | |].
  - intros a b x y Ha Hb Hl Hk.
    apply insert_cases in Ha as [[-> ->] | [Hna Ha]]; [congruence |].
    apply insert_cases in Hb as [[-> ->] | [Hnb Hb]]; [apply live_iff in Hl; lia |]. by eapply Hu.
  - intros a x Ha Hl d Hd. apply insert_cases in Ha as [[-> ->] | [Hna Ha]]; [congruence |].
    destruct (Hr a x Ha Hl d Hd) as (e' & Hc & Hne). eapply reach_insert; eauto; lia.
Qed.

(** Overwriting the cell of a key with another entry of this key. *)
Lemma wf_replace t cap i e e0 : table_wf t cap -> 0 <= i < cap -> t !! Z.to_nat i = Some e0 -> live e0 = true ->
  key e = key e0 -> table_wf (<[Z.to_nat i := e]> t) cap.
Proof.
  intros [Hp Hlen Hu Hr] Hi H0 Hl0 He. pose proof (proj1 (live_iff e0) Hl0).
  split; [done | by rewrite length_insert | |].
  - intros a b x y Ha Hb Hl Hk.
    apply insert_cases in Ha as [[-> ->] | [Hna Ha]]; apply insert_cases in Hb as [[-> ->] | [Hnb Hb]].
    + done.
    + eapply (Hu _ _ e0 y); eauto. congruence.
    + eapply (Hu _ _ x e0); eauto. congruence.
    + by eapply Hu.
  - intros a x Ha Hl d Hd. assert (exists y, t !! a = Some y /\ live y = true /\ key y = key x) as (y & Hy & Hly & Ey).
    { apply insert_cases in Ha as [[-> ->] | [Hna Ha]]; eauto. }
    rewrite <- Ey in *. destruct (Hr a y Hy Hly d Hd) as (e' & Hc & Hne). eapply reach_insert; eauto; lia.
Qed.

(** Entering a new key in the first cell from its slot that is not live, when the
    cells before it are not empty. *)
Lemma wf_enter t cap m e d e0 : table_wf t cap -> represents t m -> m !! key e = None -> live e = true ->
  0 <= d < cap -> cell t cap (slot_of (key e) cap) d = Some e0 -> live e0 = false ->
  (forall x, 0 <= x < d -> exists e', cell t cap (slot_of (key e) cap) x = Some e' /\ key e' <> 0) ->
  table_wf (<[Z.to_nat ((slot_of (key e) cap + d) `mod` cap) := e]> t) cap.
Proof.
  intros Hw HR Hm Hle Hd Hc Hl0 Hbefore. destruct Hw as [Hp Hlen Hu Hr] eqn:E; clear E.
  pose proof (pow2_pos _ Hp). pose proof (slot_of_range (key e) cap Hp) as Hs.
  set (i := (slot_of (key e) cap + d) `mod` cap). assert (0 <= i < cap) as Hi by (by apply Z.mod_pos_bound).
  pose proof (proj1 (live_iff e) Hle).
  assert (forall j x, t !! j = Some x -> key x <> key e) as Habs.
  { intros j x Hj Hx. assert (m !! key e = Some x); [| congruence]. apply HR. split; [by eexists |].
    split; [apply live_iff; lia | done]. }
  split; [done | by rewrite length_insert | |].
  - intros a b x y Ha Hb Hl Hk.
    apply insert_cases in Ha as [[-> ->] | [Hna Ha]]; apply insert_cases in Hb as [[-> ->] | [Hnb Hb]].
    + done.
    + by edestruct (Habs b y).
    + by edestruct (Habs a x).
    + by eapply Hu.
  - intros a x Ha Hl x0 Hx0. apply insert_cases in Ha as [[-> ->] | [Hna Ha]].
    + rewrite Z2Nat.id in Hx0 by lia. unfold i in Hx0. rewrite Zminus_mod_idemp_l in Hx0.
      replace (slot_of (key e) cap + d - slot_of (key e) cap) with d in Hx0 by lia.
      rewrite Z.mod_small in Hx0 by done. destruct (Hbefore x0 Hx0) as (e' & Hc' & Hne).
      eapply reach_insert; eauto; lia.
    + destruct (Hr a x Ha Hl x0 Hx0) as (e' & Hc' & Hne). eapply reach_insert; eauto; lia.
Qed.

Lemma represents_set t cap m i e e0 : table_wf t cap -> represents t m -> t !! i = Some e0 -> live e = true -> (live e0 = true -> key e0 = key e) ->
  (live e0 = false -> m !! key e = None) -> represents (<[i := e]> t) (<[key e := e]> m).
Proof.
  intros Hw HR Hi Hle Hk0 Hd0 k x. pose proof (lookup_lt_Some _ _ _ Hi).
  destruct (decide (k = key e)) as [-> | Hn].
  - rewrite lookup_insert_eq. split.
    + intros [= ->]. split; [exists i; by apply list_lookup_insert_eq | done].
    + intros ((j & Hj) & Hl & Hk). apply insert_cases in Hj as [[-> ->] | [Hne Hj]]; [done |].
      exfalso. destruct (live e0) eqn:El0.
      * apply Hne. by eapply (wf_uniq _ _ Hw j i x e0); eauto; rewrite Hk0.
      * specialize (Hd0 eq_refl). assert (m !! key e = Some x) by (apply HR; split; [by eexists | done]). congruence.
  - rewrite lookup_insert_ne by done. rewrite (HR k x). split; intros ((j & Hj) & Hl & Hk); split; try done.
    + exists j. destruct (decide (i = j)) as [-> | Hne]; [| by rewrite list_lookup_insert_ne].
      assert (x = e0) as -> by congruence. specialize (Hk0 Hl). congruence.
    + apply insert_cases in Hj as [[-> ->] | [Hne Hj]]; [congruence | eauto].
Qed.

Lemma represents_bury t cap m i e e0 : table_wf t cap -> represents t m -> t !! i = Some e0 ->
  live e = false -> represents (<[i := e]> t) (if live e0 then delete (key e0) m else m).
Proof.
  intros Hw HR Hi Hle k x. pose proof (lookup_lt_Some _ _ _ Hi).
  destruct (live e0) eqn:El0.
  - destruct (decide (k = key e0)) as [-> | Hn].
    + rewrite lookup_delete_eq. split; [done |]. intros ((j & Hj) & Hl & Hk).
      apply insert_cases in Hj as [[-> ->] | [Hne Hj]]; [congruence |].
      exfalso. apply Hne. by eapply (wf_uniq _ _ Hw j i x e0).
    + rewrite lookup_delete_ne by done. rewrite (HR k x). split; intros ((j & Hj) & Hl & Hk); split; try done.
      * exists j. rewrite list_lookup_insert_ne; [done |]. intros ->. congruence.
      * apply insert_cases in Hj as [[-> ->] | [Hne Hj]]; [congruence | eauto].
  - rewrite (HR k x). split; intros ((j & Hj) & Hl & Hk); split; try done.
    + exists j. rewrite list_lookup_insert_ne; [done |]. intros ->. congruence.
    + apply insert_cases in Hj as [[-> ->] | [Hne Hj]]; [congruence | eauto].
Qed.

(** ** Counting *)

(** Cells that are not empty: what [occupied] counts. *)
Fixpoint count_used (t : list heap_entry) : Z :=
  match t with [] => 0 | e :: t' => (if key e =? 0 then 0 else 1) + count_used t' end.

Lemma count_used_bounds t : 0 <= count_used t <= Z.of_nat (length t).
Proof. induction t as [|e t IH]; simpl; [lia |]. destruct (key e =? 0); lia. Qed.

Lemma count_live_bounds t : 0 <= count_live t <= Z.of_nat (length t).
Proof. induction t as [|e t IH]; simpl; [lia |]. destruct (live e); lia. Qed.

Lemma count_used_room t : count_used t < Z.of_nat (length t) -> exists j e, t !! j = Some e /\ key e = 0.
Proof.
  induction t as [|e t IH]; cbn [count_used length]; [lia |]. intros H.
  destruct (Z.eqb_spec (key e) 0) as [E | E]; [exists O, e; done |].
  destruct IH as (j & e' & Hj & He'); [lia |]. by exists (S j), e'.
Qed.

Lemma count_used_insert t : forall i e e0, t !! i = Some e0 -> key e <> 0 ->
  count_used (<[i := e]> t) = count_used t + (if key e0 =? 0 then 1 else 0).
Proof.
  induction t as [|x t IH]; intros [|i] e e0 Hi He; simpl in *; try done.
  - injection Hi as ->. destruct (Z.eqb_spec (key e) 0); [lia |]. destruct (key e0 =? 0); lia.
  - rewrite (IH i e e0) by done. lia.
Qed.

(** ** The fresh table *)

Lemma fresh_wf cap : pow2 cap -> table_wf (replicate (Z.to_nat cap) empty_entry) cap.
Proof.
  intros Hp. pose proof (pow2_pos _ Hp). split; [done | rewrite length_replicate; lia | |].
  - intros i j e e' [-> _]%lookup_replicate _ Hl. done.
  - intros i e [-> _]%lookup_replicate Hl. done.
Qed.

Lemma fresh_represents n : represents (replicate n empty_entry) ∅.
Proof. intros k e. rewrite lookup_empty. split; [done |]. by intros ((i & [-> _]%lookup_replicate) & Hl & _). Qed.

Lemma fresh_used n : count_used (replicate n empty_entry) = 0.
Proof. induction n; simpl; lia. Qed.

(** Entering a key by a probe that stops at a cell of which [stop] holds. *)
Lemma enter_spec stop t cap m e : table_wf t cap -> represents t m -> m !! key e = None -> live e = true ->
  count_used t < cap ->
  (forall x, stop x = true -> live x = false) -> (forall x, stop x = false -> key x <> 0) ->
  exists i e0, probe stop (length t) t cap (slot_of (key e) cap) = Ok i /\ 0 <= i < cap /\
    t !! Z.to_nat i = Some e0 /\ stop e0 = true /\
    table_wf (<[Z.to_nat i := e]> t) cap /\ represents (<[Z.to_nat i := e]> t) (<[key e := e]> m).
Proof.
  intros Hw HR Hm Hl Hroom Hstop Hgo. pose proof (wf_pow2 _ _ Hw) as Hp. pose proof (wf_len _ _ Hw) as Hlen.
  pose proof (slot_of_range (key e) cap Hp) as Hs. pose proof (pow2_pos _ Hp).
  destruct (count_used_room t) as (j & ej & Hj & Hej); [lia |].
  destruct (probe_first t cap Hp Hlen stop (slot_of (key e) cap) j ej Hs Hj) as (d & e0 & Hd & Hpr & Hc & Hst & Hb).
  { destruct (stop ej) eqn:Es; [done |]. by apply Hgo in Es. }
  exists ((slot_of (key e) cap + d) `mod` cap), e0. split; [done |].
  split; [by apply Z.mod_pos_bound |]. split; [done |]. split; [done |].
  assert (table_wf (<[Z.to_nat ((slot_of (key e) cap + d) `mod` cap):=e]> t) cap) as Hw'.
  { eapply (wf_enter t cap m); eauto. intros x Hx. destruct (Hb x Hx) as (e' & ? & ?). eauto. }
  split; [done |]. eapply (represents_set t cap m _ e e0); eauto. specialize (Hstop _ Hst). congruence.
Qed.

Lemma rehash_spec cap : forall old fresh m, table_wf fresh cap -> represents fresh m ->
  (forall i j e e', old !! i = Some e -> old !! j = Some e' -> live e = true -> key e = key e' -> i = j) ->
  (forall i e, old !! i = Some e -> live e = true -> m !! key e = None) ->
  count_used fresh + count_live old < cap ->
  exists t m', rehash old fresh cap = Ok t /\ table_wf t cap /\ represents t m' /\
    count_used t = count_used fresh + count_live old /\
    forall k e, m' !! k = Some e <-> m !! k = Some e \/ (exists i : nat, old !! i = Some e) /\ live e = true /\ key e = k.
Proof.
  induction old as [|x old IH]; intros fresh m Hw HR Hu Hm Hroom; cbn [rehash count_live] in *.
  { exists fresh, m. split; [done |]. split; [done |]. split; [done |]. split; [lia |].
    intros k e. split; [by left | intros [? | ((i & Hi) & _)]; done]. }
  pose proof (count_live_bounds old).
  assert (forall i j e e', old !! i = Some e -> old !! j = Some e' -> live e = true -> key e = key e' -> i = j) as Hu'.
  { intros i j e e' Hi Hj Hl Hk. injection (Hu (S i) (S j) e e' Hi Hj Hl Hk). done. }
  destruct (live x) eqn:El.
  - destruct (enter_spec is_empty fresh cap m x) as (i & e0 & Hpr & Hi & He0 & Hst & Hw' & HR'); try done.
    { by apply (Hm O). } { lia. }
    { intros y Hy%Z.eqb_eq. apply not_live_iff. by left. } { by intros y Hy%Z.eqb_neq. }
    rewrite Hpr. cbn [rbind].
    apply Z.eqb_eq in Hst as Ez.
    pose proof (proj1 (live_iff x) El).
    pose proof (count_used_insert fresh _ x e0 He0 ltac:(lia)) as Ec. rewrite Ez in Ec. simpl in Ec.
    destruct (IH _ _ Hw' HR' Hu') as (t & m' & E & H1 & H2 & H3 & H4).
    { intros j e Hj Hle. destruct (decide (key e = key x)) as [Ek | Ek].
      - exfalso. by assert (S j = O) by (eapply (Hu (S j) O e x); eauto).
      - rewrite lookup_insert_ne by done. by apply (Hm (S j)). }
    { lia. }
    exists t, m'. split; [done |]. split; [done |]. split; [done |]. split; [lia |].
    intros k e. rewrite H4. destruct (decide (k = key x)) as [-> | Hk].
    + rewrite lookup_insert_eq. split.
      * intros [[= ->] | ((j & Hj) & Hl & Hk)]; right; [by split; [exists O |] | by split; [exists (S j) |]].
      * intros [Hc | (([|j] & Hj) & Hl & Hk)]; [rewrite (Hm O x) in Hc by done; done | simpl in Hj; left; congruence |].
        right. split; [by eexists | done].
    + rewrite lookup_insert_ne by done. split.
      * intros [? | ((j & Hj) & Hl & Hk')]; [by left | right; by split; [exists (S j) |]].
      * intros [? | (([|j] & Hj) & Hl & Hk')]; [by left | simpl in Hj; congruence | right; by split; [exists j |]].
  - destruct (IH fresh m Hw HR Hu') as (t & m' & E & H1 & H2 & H3 & H4); [by intros j e Hj; apply (Hm (S j)) | lia |].
    exists t, m'. split; [done |]. split; [done |]. split; [done |]. split; [lia |].
    intros k e. rewrite H4. split; (intros [? | ((j & Hj) & Hl & Hk')]; [by left | right; split; [| done]]).
    + by exists (S j).
    + destruct j as [|j]; simpl in Hj; [congruence | by exists j].
Qed.

(** * The table of a heap *)

Record tab_inv (h : heap) (m : gmap Z heap_entry) : Prop := {
  ti_shape : capacity h = 0 /\ table h = [] \/ table_wf (table h) (capacity h);
  ti_repr : represents (table h) m;
  ti_occ : occupied h = count_used (table h);
  ti_load : occupied h * 4 <= capacity h * 3;
  ti_cap : 0 <= capacity h < 2 ^ 57
}.

Lemma tab_inv_ext h h' m : table h' = table h -> capacity h' = capacity h -> occupied h' = occupied h ->
  tab_inv h m -> tab_inv h' m.
Proof. intros E1 E2 E3 [? ? ? ? ?]. split; rewrite ?E1, ?E2, ?E3; done. Qed.

(** What [find] tells of the map. *)
Definition found (h : heap) (m : gmap Z heap_entry) (k : Z) (r : option Z) : Prop :=
  match r with
  | Some i => 0 <= i < capacity h /\ exists e, table h !! Z.to_nat i = Some e /\ m !! k = Some e
  | None => m !! k = None
  end.

Lemma find_spec h m k : tab_inv h m -> exists r, find k h = Ok (r, h) /\ found h m k r.
Proof.
  intros [Hs HR Ho Hl Hc]. unfold find, TOMBSTONE.
  destruct (Z.eqb_spec (capacity h) 0) as [Ec | Ec].
  { exists None. split; [done |]. destruct Hs as [[_ Et] | Hw]; [| pose proof (pow2_pos _ (wf_pow2 _ _ Hw)); lia].
    destruct (m !! k) as [e|] eqn:E; [| by rewrite E || done]. apply HR in E as ((i & Hi) & _). by rewrite Et in Hi. }
  destruct (Z.eqb_spec k 0) as [-> | H0]; [exists None; split; [done | by eapply represents_reserved; eauto] |].
  destruct (Z.eqb_spec k 1) as [-> | H1]; [exists None; split; [done | by eapply represents_reserved; eauto] |].
  destruct Hs as [[? _] | Hw]; [lia |]. cbn [orb].
  destruct (count_used_room (table h)) as (j & e0 & Hj & He0); [rewrite (wf_len _ _ Hw); lia |].
  destruct (probe_find _ _ m k j e0 Hw HR H0 H1 Hj He0) as (i & e & Hpr & Hi & He & Hm).
  rewrite Hpr. cbn [rbind]. rewrite He. destruct (key e =? k).
  - exists (Some i). split; [done |]. simpl. eauto.
  - by exists None.
Qed.

Lemma found_wf h m k i : tab_inv h m -> found h m k (Some i) -> table_wf (table h) (capacity h).
Proof. intros [[[Ec _] | Hw] _ _ _ _] [Hi _]; [lia | done]. Qed.

Lemma found_key h m k e : tab_inv h m -> m !! k = Some e -> live e = true /\ key e = k.
Proof. intros Hti Hm. by apply (ti_repr _ _ Hti) in Hm as (_ & ? & ?). Qed.

(** Writing the entry that [find] gave. *)
Lemma set_entry_spec h m k i e : tab_inv h m -> found h m k (Some i) -> key e = k ->
  tab_inv (set_table h (<[Z.to_nat i := e]> (table h)) (capacity h) (occupied h)) (<[k := e]> m).
Proof.
  intros Hti Hf Hk. pose proof (found_wf _ _ _ _ Hti Hf) as Hw. destruct Hf as [Hi (e0 & He0 & Hm)].
  destruct (found_key _ _ _ _ Hti Hm) as [Hl0 Hk0]. destruct Hti as [Hs HR Ho Hl Hc].
  pose proof (proj1 (live_iff e0) Hl0). assert (live e = true) by (apply live_iff; lia).
  split; cbn [table capacity occupied set_table]; try done.
  - right. eapply wf_replace; eauto; congruence.
  - subst k. eapply represents_set; eauto; congruence.
  - rewrite (count_used_insert _ _ _ e0) by (done || lia). destruct (Z.eqb_spec (key e0) 0); lia.
Qed.

Lemma bury_entry_spec h m k i e : tab_inv h m -> found h m k (Some i) -> key e = 1 ->
  tab_inv (set_table h (<[Z.to_nat i := e]> (table h)) (capacity h) (occupied h)) (delete k m).
Proof.
  intros Hti Hf Hk. pose proof (found_wf _ _ _ _ Hti Hf) as Hw. destruct Hf as [Hi (e0 & He0 & Hm)].
  destruct (found_key _ _ _ _ Hti Hm) as [Hl0 Hk0]. destruct Hti as [Hs HR Ho Hl Hc].
  pose proof (proj1 (live_iff e0) Hl0). assert (live e = false) by (apply not_live_iff; lia).
  split; cbn [table capacity occupied set_table]; try done.
  - right. by apply wf_bury.
  - pose proof (represents_bury _ _ m _ e e0 Hw HR He0 ltac:(done)) as Hb. rewrite Hl0, Hk0 in Hb. done.
  - rewrite (count_used_insert _ _ _ e0) by (done || lia). destruct (Z.eqb_spec (key e0) 0); lia.
Qed.

(** ** Growth *)

Lemma uwrap_small w z : 0 <= z < 2 ^ w -> uwrap w z = z.
Proof. intros H. by apply Z.mod_small. Qed.

Lemma grow_cap_spec nlive fuel : forall (f : nat) cap, (f <= fuel)%nat -> 0 <= nlive ->
  pow2 cap -> (nlive + 1) * 2 <= cap * 2 ^ Z.of_nat f -> cap * 2 ^ Z.of_nat f < 2 ^ 64 ->
  exists cap', grow_cap fuel nlive cap = Ok cap' /\ pow2 cap' /\ (nlive + 1) * 2 <= cap'.
Proof.
  induction fuel as [|g IH]; intros f cap Hf Hn Hp Hle Hlt; cbn [grow_cap];
    rewrite uwrap_small by lia; destruct (Z.leb_spec ((nlive + 1) * 2) cap) as [H | H]; eauto.
  - assert (f = O) as -> by lia. simpl in Hle. lia.
  - destruct f as [|f]; [simpl in Hle; lia |]. rewrite Nat2Z.inj_succ, Z.pow_succ_r in Hle, Hlt by lia.
    pose proof (pow2_pos _ Hp). pose proof (Z.pow_pos_nonneg 2 (Z.of_nat f) ltac:(lia) ltac:(lia)).
    rewrite uwrap_small by nia. apply (IH f); try lia.
    destruct Hp as (k & Hk & ->). exists (k + 1). split; [lia |]. rewrite Z.pow_add_r by lia. lia.
Qed.

Section Host.
Context (grants : nat -> Z -> bool).

(** No host grants [2 ^ 62] bytes. *)
Hypothesis host_limit : forall i size, grants i size = true -> size < 2 ^ 62.

(** [h'] is [h] but for the table and the number of requests. *)
Definition same_blocks (h h' : heap) : Prop :=
  blocks h' = blocks h /\ scratch h' = scratch h /\ scratch_n h' = scratch_n h /\ (requests h <= requests h')%nat.

Lemma reserve_spec h m : tab_inv h m -> exists ok h', reserve grants h = Ok (ok, h') /\ same_blocks h h' /\
  (if ok then tab_inv h' m /\ table_wf (table h') (capacity h') /\ (occupied h' + 1) * 4 <= capacity h' * 3
   else exists i size, grants i size = false).
Proof using host_limit.
  intros Hti. pose proof Hti as [Hs HR Ho Hl Hc]. unfold reserve, get, ret, bind.
  pose proof (count_used_bounds (table h)).
  rewrite !uwrap_small by lia. destruct (Z.leb_spec ((occupied h + 1) * 4) (capacity h * 3)) as [Hroom | Hfull].
  { exists true, h. split; [done |]. split; [done |]. split; [done |]. split; [| done].
    destruct Hs as [[? ?] | ?]; [lia | done]. }
  set (c0 := if capacity h =? 0 then 64 else capacity h).
  pose proof (count_live_bounds (table h)) as Hlive.
  assert (pow2 c0 /\ Z.of_nat (length (table h)) <= c0 /\ 64 <= c0 + 63 /\ c0 < 2 ^ 57) as (Hp0 & Hlen0 & Hc0 & Hc0').
  { unfold c0. destruct Hs as [[-> ->] | Hw].
    - cbn. repeat split; try lia. exists 6. done.
    - pose proof (pow2_pos _ (wf_pow2 _ _ Hw)). destruct (Z.eqb_spec (capacity h) 0); [lia |].
      rewrite (wf_len _ _ Hw). repeat split; try lia. apply (wf_pow2 _ _ Hw). }
  destruct (grow_cap_spec (count_live (table h)) 64 2 c0) as (cap & Eg & Hp & Hcap); [lia | lia | done | simpl; lia.. |].
  unfold lift. rewrite Eg. unfold alloc_table.
  destruct (grants (requests h) (cap * 32)) eqn:Egr; cbn [negb].
  2:{ exists false. eexists. split; [reflexivity |]. split; [| by eexists _, _]. split; [done |]. simpl. split; [done |]. split; [done | lia]. }
  apply host_limit in Egr. pose proof (pow2_pos _ Hp).
  destruct (rehash_spec cap (table h) (replicate (Z.to_nat cap) empty_entry) ∅ (fresh_wf cap Hp) (fresh_represents _))
    as (t & m' & Er & Hw & HR' & Hcu & Heq).
  { destruct Hs as [[_ ->] | Hw]; [done | apply (wf_uniq _ _ Hw)]. }
  { intros. by rewrite lookup_empty. }
  { rewrite fresh_used. lia. }
  rewrite Er. unfold modify. exists true. eexists. split; [reflexivity |].
  split; [split; [done |]; simpl; split; [done |]; split; [done | lia] |].
  assert (m' = m) as ->.
  { apply map_eq. intros k. apply option_eq. intros e. rewrite Heq, lookup_empty, (HR k e). split; [by intros [? | ?] | by right]. }
  cbn [table capacity occupied set_table]. rewrite fresh_used in Hcu.
  split; [| split; [done | lia]]. split; cbn [table capacity occupied set_table]; try done; try lia. by right.
Qed.

(** ** Entering a key *)

Lemma enter_heap h m e : tab_inv h m -> table_wf (table h) (capacity h) -> (occupied h + 1) * 4 <= capacity h * 3 ->
  key e <> 0 -> m !! key e = None ->
  exists i e0, probe is_free (length (table h)) (table h) (capacity h) (slot_of (key e) (capacity h)) = Ok i /\
    table h !! Z.to_nat i = Some e0 /\
    tab_inv (set_table h (<[Z.to_nat i := e]> (table h)) (capacity h)
                       (if key e0 =? 0 then occupied h + 1 else occupied h))
            (if live e then <[key e := e]> m else m).
Proof using Type.
  intros [Hs HR Ho Hl Hc] Hw Hroom Hk Hm. pose proof (wf_pow2 _ _ Hw) as Hp. pose proof (pow2_pos _ Hp).
  assert (count_used (table h) < capacity h) by lia.
  assert (exists i e0, probe is_free (length (table h)) (table h) (capacity h) (slot_of (key e) (capacity h)) = Ok i /\
    0 <= i < capacity h /\ table h !! Z.to_nat i = Some e0 /\ table_wf (<[Z.to_nat i := e]> (table h)) (capacity h) /\
    represents (<[Z.to_nat i := e]> (table h)) (if live e then <[key e := e]> m else m))
    as (i & e0 & Hpr & Hi & He0 & Hw' & HR').
  { destruct (live e) eqn:El.
    - destruct (enter_spec is_free (table h) (capacity h) m e) as (i & e0 & ? & ? & ? & ? & ? & ?); try done.
      + by intros x ?%negb_true_iff.
      + intros x Hx%negb_false_iff%live_iff. lia.
      + eauto 10.
    - apply not_live_iff in El as El'. destruct (count_used_room (table h)) as (j & ej & Hj & Hej); [rewrite (wf_len _ _ Hw); lia |].
      destruct (probe_first _ _ Hp (wf_len _ _ Hw) is_free (slot_of (key e) (capacity h)) j ej) as (d & e0 & Hd & Hpr & Hce & Hst & _).
      { by apply slot_of_range. } { done. } { unfold is_free. apply negb_true_iff, not_live_iff. lia. }
      exists ((slot_of (key e) (capacity h) + d) `mod` capacity h), e0. split; [done |].
      assert (0 <= (slot_of (key e) (capacity h) + d) `mod` capacity h < capacity h) by (by apply Z.mod_pos_bound).
      split; [done |]. split; [done |]. split; [apply wf_bury; [done | done | lia] |].
      pose proof (represents_bury _ _ m _ e e0 Hw HR Hce El) as Hb. apply negb_true_iff in Hst. by rewrite Hst in Hb. }
  exists i, e0. split; [done |]. split; [done |].
  split; cbn [table capacity occupied set_table]; try done; [by right | | destruct (key e0 =? 0); lia].
  rewrite (count_used_insert _ _ _ e0) by done. destruct (key e0 =? 0); lia.
Qed.

(** * The blocks of leaves *)

(** The leaves of an entry. *)
Definition leaves (blk : gmap nat (list Z)) (e : heap_entry) : option (list Z * bool) :=
  match shadow e with
  | Some b => match blk !! b with Some bs => Some (bs, released e) | None => None end
  | None => None
  end.

(** Every entry has a block of its own, of its size; the scratch block is none of
    them; blocks that are allocated next are new. *)
Record owns (blk : gmap nat (list Z)) (scr : option nat) (scrn : Z) (req : nat)
            (tm : gmap Z heap_entry) (m : leafmap) : Prop := {
  o_map : forall k, m !! k = tm !! k ≫= leaves blk;
  o_blk : forall k e, tm !! k = Some e ->
    exists b bs, shadow e = Some b /\ blk !! b = Some bs /\ Z.of_nat (length bs) = nleaves e;
  o_inj : forall k k' e e' b, tm !! k = Some e -> tm !! k' = Some e' -> shadow e = Some b -> shadow e' = Some b -> k = k';
  o_scr : match scr with
          | Some b => (exists bs, blk !! b = Some bs /\ Z.of_nat (length bs) = scrn) /\
                      forall k e, tm !! k = Some e -> shadow e <> Some b
          | None => scrn = 0
          end;
  o_scrn : 0 <= scrn < 2 ^ 62;
  o_req : forall b, is_Some (blk !! b) -> (b < req)%nat
}.

Definition heap_inv (h : heap) (m : leafmap) : Prop :=
  exists tm, tab_inv h tm /\ owns (blocks h) (scratch h) (scratch_n h) (requests h) tm m.

(** A block that neither an entry nor the scratch has. *)
Definition unowned (tm : gmap Z heap_entry) (scr : option nat) (b : nat) : Prop :=
  (forall k e, tm !! k = Some e -> shadow e <> Some b) /\ scr <> Some b.

Section Owns.
Context (blk : gmap nat (list Z)) (scr : option nat) (scrn : Z) (req : nat) (tm : gmap Z heap_entry) (m : leafmap).
Hypothesis Ho : owns blk scr scrn req tm m.

Lemma owns_lookup k e : tm !! k = Some e -> exists b bs, shadow e = Some b /\ blk !! b = Some bs /\
  Z.of_nat (length bs) = nleaves e /\ m !! k = Some (bs, released e) /\ scr <> Some b.
Proof using Ho.
  intros Hk. destruct (o_blk _ _ _ _ _ _ Ho k e Hk) as (b & bs & Hb & Hbs & Hl). exists b, bs.
  split; [done |]. split; [done |]. split; [done |]. split.
  - rewrite (o_map _ _ _ _ _ _ Ho k), Hk. simpl. unfold leaves. by rewrite Hb, Hbs.
  - intros E. pose proof (o_scr _ _ _ _ _ _ Ho) as Hs. rewrite E in Hs. by destruct (proj2 Hs k e Hk).
Qed.

Lemma owns_None k : tm !! k = None -> m !! k = None.
Proof using Ho. intros Hk. by rewrite (o_map _ _ _ _ _ _ Ho k), Hk. Qed.

Lemma fresh_unowned : unowned tm scr req.
Proof using Ho.
  assert (blk !! req = None) as Hn.
  { apply eq_None_not_Some. intros Hs%(o_req _ _ _ _ _ _ Ho). lia. }
  split.
  - intros k e Hk Hb. destruct (o_blk _ _ _ _ _ _ Ho k e Hk) as (b & bs & Hb' & Hbs & _). congruence.
  - intros E. pose proof (o_scr _ _ _ _ _ _ Ho) as Hs. rewrite E in Hs. destruct Hs as [(bs & Hbs & _) _]. congruence.
Qed.

(** Changes of a block nobody has: writing, allocating or freeing it. *)
Lemma owns_other b v req' : unowned tm scr b -> (req <= req')%nat -> (is_Some v -> (b < req')%nat) ->
  owns (partial_alter (fun _ => v) b blk) scr scrn req' tm m.
Proof using Ho.
  intros [Hu Hs] Hr Hv. destruct Ho as [H1 H2 H3 H4 H5 H6].
  assert (forall k e, tm !! k = Some e -> forall b', shadow e = Some b' -> partial_alter (fun _ => v) b blk !! b' = blk !! b') as Hsame.
  { intros k e Hk b' Hb'. apply lookup_partial_alter_ne. intros ->. by destruct (Hu k e Hk). }
  split; try done.
  - intros k. rewrite H1. destruct (tm !! k) as [e|] eqn:E; [| done]. simpl. unfold leaves.
    destruct (shadow e) as [b'|] eqn:Eb; [| done]. by rewrite (Hsame k e E b' Eb).
  - intros k e Hk. destruct (H2 k e Hk) as (b' & bs & Hb' & Hbs & Hl). exists b', bs. by rewrite (Hsame k e Hk b' Hb').
  - destruct scr as [b'|]; [| done]. destruct H4 as [(bs & Hbs & Hl) Hx]. split; [| done].
    exists bs. rewrite lookup_partial_alter_ne by congruence. done.
  - intros b' Hb'. destruct (decide (b = b')) as [-> | Hn].
    + rewrite lookup_partial_alter_eq in Hb'. by apply Hv.
    + rewrite lookup_partial_alter_ne in Hb' by done. apply H6 in Hb'. lia.
Qed.

Lemma owns_forget k : owns blk scr scrn req (delete k tm) (delete k m).
Proof using Ho.
  destruct Ho as [H1 H2 H3 H4 H5 H6].
  assert (forall k' e, delete k tm !! k' = Some e -> tm !! k' = Some e) as Hd by (by intros k' e [_ ?]%lookup_delete_Some).
  split; eauto.
  - intros k'. destruct (decide (k = k')) as [-> | Hn]; [by rewrite !lookup_delete_eq |]. by rewrite !lookup_delete_ne.
  - destruct scr; [| done]. destruct H4 as [? Hx]. eauto.
Qed.

Lemma owns_record k e b bs : m !! k = None -> unowned tm scr b -> shadow e = Some b -> blk !! b = Some bs ->
  Z.of_nat (length bs) = nleaves e -> owns blk scr scrn req (<[k := e]> tm) (<[k := (bs, released e)]> m).
Proof using Ho.
  intros Hk [Hu Hs] Hb Hbs Hl. destruct Ho as [H1 H2 H3 H4 H5 H6]. split; try done.
  - intros k'. destruct (decide (k = k')) as [-> | Hn].
    + rewrite !lookup_insert_eq. simpl. unfold leaves. by rewrite Hb, Hbs.
    + by rewrite !lookup_insert_ne.
  - intros k' e' [[<- <-] | [Hn He']]%lookup_insert_Some; [by exists b, bs | by apply (H2 k' e')].
  - intros k1 k2 e1 e2 b' [[<- <-] | [Hn1 He1]]%lookup_insert_Some [[<- <-] | [Hn2 He2]]%lookup_insert_Some E1 E2; try done.
    + exfalso. apply (Hu k2 e2 He2). congruence.
    + exfalso. apply (Hu k1 e1 He1). congruence.
    + by eapply H3.
  - destruct scr as [b'|]; [| done]. destruct H4 as [? Hx]. split; [done |].
    intros k' e' [[<- <-] | [Hn He']]%lookup_insert_Some; [congruence | eauto].
Qed.
End Owns.

Lemma insert_delete_tm {A} (k : Z) (x : A) (tm : gmap Z A) : <[k := x]> (delete k tm) = <[k := x]> tm.
Proof using Type. apply insert_delete_eq. Qed.

Lemma others_unowned blk scr scrn req tm m k e b : owns blk scr scrn req tm m -> tm !! k = Some e ->
  shadow e = Some b -> unowned (delete k tm) scr b.
Proof using Type.
  intros Ho Hk Hb. split.
  - intros k' e' [Hn He']%lookup_delete_Some Hb'. apply Hn. by eapply (o_inj _ _ _ _ _ _ Ho).
  - intros E. destruct (owns_lookup _ _ _ _ _ _ Ho k e Hk) as (b' & ? & ? & _ & _ & _ & Hs). congruence.
Qed.

(** New leaves, or a new flag, for an entry that keeps its block. *)
Lemma owns_rewrite blk scr scrn req tm m k e e' b bs' : owns blk scr scrn req tm m -> tm !! k = Some e ->
  shadow e = Some b -> shadow e' = Some b -> Z.of_nat (length bs') = nleaves e' ->
  owns (<[b := bs']> blk) scr scrn req (<[k := e']> tm) (<[k := (bs', released e')]> m).
Proof using Type.
  intros Ho Hk Hb Hb' Hl. destruct (owns_lookup _ _ _ _ _ _ Ho k e Hk) as (b0 & bs & E0 & Hbs & _ & _ & Hs).
  assert (b0 = b) as -> by congruence.
  rewrite <- insert_delete_tm, <- (insert_delete_tm k _ m).
  pose proof (others_unowned _ _ _ _ _ _ _ _ _ Ho Hk Hb) as Hu.
  apply (owns_record _ _ _ _ _ _ (owns_other _ _ _ _ _ _ (owns_forget _ _ _ _ _ _ Ho k) b (Some bs') req Hu (le_n _)
           ltac:(intros _; eapply (o_req _ _ _ _ _ _ Ho); by eexists)) k e' b bs').
  - apply lookup_delete_eq.
  - done.
  - done.
  - by rewrite lookup_partial_alter_eq.
  - done.
Qed.

(** * Every call keeps the promise *)

(** The call stops because the host refused an allocation. *)
Definition aborted {A} (r : res A) : Prop :=
  r = Err (RtAbort "runtime error: INITCK heap state allocation failed") /\ exists i size, grants i size = false.

(** The call returns [a] in a heap that stands for [m], or is aborted. *)
Definition gives {A} (r : res (A * heap)) (a : A) (m : leafmap) : Prop :=
  (exists h, r = Ok (a, h) /\ heap_inv h m) \/ aborted r.

Lemma new_spec h m data n : heap_inv h m -> gives (pas_initck_heap_new grants data n h) tt (spec (New data n) m).2.
Proof using host_limit.
  intros (tm & Hti & Ho). cbn [spec snd]. unfold pas_initck_heap_new.
  destruct (Z.eqb_spec data 0) as [-> | Hd]; [left; by exists h; split; [| exists tm] |].
  destruct (Z.leb_spec n 0) as [Hn | Hn]; [left; exists h; rewrite ?orb_true_r; by split; [| exists tm] |].
  rewrite orb_false_r. cbn [orb]. unfold alloc, bind at 1.
  destruct (grants (requests h) n) eqn:Eg; [| right; split; [done | eauto]].
  set (b := requests h). set (h1 := mkHeap _ _ _ _ _ _ _). set (e := mkEntry data (Some b) n false).
  assert (tab_inv h1 tm) as Hti1 by (by apply (tab_inv_ext h)).
  assert (owns (blocks h1) (scratch h) (scratch_n h) (S b) tm m) as Ho1
    by (apply (owns_other _ _ _ _ _ _ Ho b (Some _)); [apply (fresh_unowned _ _ _ _ _ _ Ho) | lia | lia]).
  assert (blocks h1 !! b = Some (replicate (Z.to_nat n) 0)) as Hb by apply lookup_insert_eq.
  pose proof (fresh_unowned _ _ _ _ _ _ Ho) as Hfresh. fold b in Hfresh.
  destruct (find_spec h1 tm data Hti1) as (r & Ef & Hr). rewrite (bind_ok _ _ _ _ _ Ef).
  destruct r as [i|].
  - pose proof Hr as [Hi (e0 & He0 & Hm)]. destruct (found_key _ _ _ _ Hti1 Hm) as [Hl0 Hk0].
    assert (data <> 1) by (apply live_iff in Hl0; lia).
    destruct (owns_lookup _ _ _ _ _ _ Ho1 data e0 Hm) as (b0 & bs0 & Hb0 & Hbs0 & _ & _ & _).
    left. unfold bind, entry, free, ret, set_entry, modify. rewrite He0, Hb0, Hbs0.
    eexists. split; [reflexivity |]. exists (<[data := e]> tm). split.
    + apply (set_entry_spec (set_blocks h1 _) tm data i e); [by apply (tab_inv_ext h1) | done | done].
    + destruct (Z.eqb_spec data 1); [done |]. rewrite <- insert_delete_tm, <- (insert_delete_tm data _ m).
      pose proof (others_unowned _ _ _ _ _ _ _ _ _ Ho1 Hm Hb0) as Hu.
      apply (owns_record _ _ _ _ _ _ (owns_other _ _ _ _ _ _ (owns_forget _ _ _ _ _ _ Ho1 data) b0 None (S b) Hu
               (le_n _) ltac:(by intros [? ?])) data e b).
      * apply lookup_delete_eq.
      * split; [| apply Hfresh]. intros k e1 [_ He1]%lookup_delete_Some. by apply (proj1 Hfresh k).
      * done.
      * rewrite lookup_partial_alter_ne; [done |]. intros ->. destruct (proj1 Hfresh data e0); done.
      * rewrite length_replicate. cbn. lia.
  - destruct (reserve_spec h1 tm Hti1) as (ok & h2 & Er & (B1 & B2 & B3 & B4) & Hok).
    unfold bind at 1 2. rewrite Er. destruct ok; cbn [negb]; [| right; split; [done | done]].
    destruct Hok as (Hti2 & Hw2 & Hroom).
    destruct (enter_heap h2 tm e Hti2 Hw2 Hroom Hd Hr) as (i & e0 & Hpr & He0 & Hti3).
    left. unfold bind, get, lift, entry, ret, set_entry, modify. cbn [key e] in Hpr. rewrite Hpr, He0.
    eexists. split; [reflexivity |]. exists (if live e then <[data := e]> tm else tm). split; [exact Hti3 |].
    cbn [blocks scratch scratch_n requests set_table]. rewrite B1, B2, B3.
    assert (owns (blocks h1) (scratch h) (scratch_n h) (requests h2) tm m) as Ho2.
    { destruct Ho1 as [? ? ? ? ? Hreq]. split; try done. intros x Hx%Hreq. cbn in B4. fold b in B4. lia. }
    destruct (Z.eqb_spec data 1) as [-> | H1]; [done |].
    assert (live e = true) as -> by (apply live_iff; cbn; lia).
    apply (owns_record _ _ _ _ _ _ Ho2 data e b); try done.
    + by apply (owns_None _ _ _ _ _ _ Ho).
    + rewrite length_replicate. cbn. lia.
Qed.

Lemma dispose_spec h m data : heap_inv h m ->
  exists h', pas_initck_heap_dispose data h = Ok (tt, h') /\ heap_inv h' (delete data m).
Proof using Type.
  intros (tm & Hti & Ho). unfold pas_initck_heap_dispose.
  destruct (find_spec h tm data Hti) as (r & Ef & Hr). rewrite (bind_ok _ _ _ _ _ Ef). destruct r as [i|].
  - pose proof Hr as [Hi (e0 & He0 & Hm)].
    destruct (owns_lookup _ _ _ _ _ _ Ho data e0 Hm) as (b0 & bs0 & Hb0 & Hbs0 & _).
    unfold bind, entry, ret, set_entry, modify, free. rewrite He0, Hb0. cbn [blocks set_table]. rewrite Hbs0.
    eexists. split; [reflexivity |]. exists (delete data tm). split.
    + apply (tab_inv_ext (set_table h (<[Z.to_nat i := mkEntry TOMBSTONE None 0 false]> (table h)) (capacity h) (occupied h)));
        [done.. | by eapply bury_entry_spec].
    + apply (owns_other _ _ _ _ _ _ (owns_forget _ _ _ _ _ _ Ho data) b0 None); [by eapply others_unowned | done | by intros [? ?]].
  - exists h. split; [done |]. exists tm. split; [done |]. rewrite delete_id; [done |]. by apply (owns_None _ _ _ _ _ _ Ho).
Qed.

Lemma release_spec h m data : heap_inv h m ->
  exists h', pas_initck_heap_release data h = Ok (tt, h') /\ heap_inv h' (spec (Release data) m).2.
Proof using Type.
  intros (tm & Hti & Ho). unfold pas_initck_heap_release. cbn [spec snd].
  destruct (find_spec h tm data Hti) as (r & Ef & Hr). rewrite (bind_ok _ _ _ _ _ Ef). destruct r as [i|].
  2:{ exists h. split; [done |]. rewrite (owns_None _ _ _ _ _ _ Ho data Hr). by exists tm. }
  pose proof Hr as [Hi (e0 & He0 & Hm)]. destruct (found_key _ _ _ _ Hti Hm) as [_ Hk0].
  destruct (owns_lookup _ _ _ _ _ _ Ho data e0 Hm) as (b0 & bs0 & Hb0 & Hbs0 & Hl0 & Em & _).
  unfold bind, entry. rewrite He0, Em. destruct (released e0) eqn:Erel; cbn [negb].
  { exists h. split; [done |]. by exists tm. }
  unfold memset, set_entry, modify. rewrite Hb0. cbn [block offs]. rewrite Hbs0. cbn [Z.leb Z.compare andb].
  rewrite Hl0. destruct (Z.leb_spec 0 (nleaves e0)); [| lia]. rewrite Z.add_0_l, Z.leb_refl. cbn [andb].
  eexists. split; [reflexivity |]. set (e' := mkEntry (key e0) (Some b0) (nleaves e0) true).
  exists (<[data := e']> tm). split; [apply set_entry_spec; [by apply (tab_inv_ext h) | done | done] |].
  cbn [take Z.to_nat app]. rewrite drop_ge by lia. rewrite app_nil_r, <- Hl0, Nat2Z.id.
  apply (owns_rewrite _ _ _ _ _ _ data e0 e' b0); try done. rewrite length_replicate. done.
Qed.

(** ** The leaves a site sees *)

Lemma owns_write blk scr scrn req tm m b bs bs' : owns blk scr scrn req tm m ->
  (forall k e, tm !! k = Some e -> shadow e <> Some b) -> blk !! b = Some bs -> length bs' = length bs ->
  owns (<[b := bs']> blk) scr scrn req tm m.
Proof using Type.
  intros Ho Hu Hb Hl. destruct (decide (scr = Some b)) as [-> | Hn].
  - destruct Ho as [H1 H2 H3 H4 H5 H6].
    assert (forall k e, tm !! k = Some e -> forall b', shadow e = Some b' -> <[b := bs']> blk !! b' = blk !! b') as Hsame.
    { intros k e Hk b' Hb'. apply lookup_insert_ne. intros ->. by destruct (Hu k e Hk). }
    split; try done.
    + intros k. rewrite H1. destruct (tm !! k) as [e|] eqn:E; [| done]. simpl. unfold leaves.
      destruct (shadow e) as [b'|] eqn:Eb; [| done]. by rewrite (Hsame k e E b' Eb).
    + intros k e Hk. destruct (H2 k e Hk) as (b' & bs0 & Hb' & Hbs & Hl0). exists b', bs0. by rewrite (Hsame k e Hk b' Hb').
    + destruct H4 as [(bs0 & Hbs0 & Hl0) Hx]. split; [| done]. exists bs'. rewrite lookup_insert_eq. split; [done |]. congruence.
    + intros b' Hb'. apply H6. destruct (decide (b = b')) as [-> | Hne]; [by eexists |]. by rewrite lookup_insert_ne in Hb'.
  - apply (owns_other _ _ _ _ _ _ Ho b (Some bs')); [done | done |]. intros _. eapply (o_req _ _ _ _ _ _ Ho). by eexists.
Qed.

(** The [count] leaves at [p] are those of the referent, or initialized leaves that
    belong to no referent. *)
Definition view (h : heap) (tm : gmap Z heap_entry) (m : leafmap) (data n offset count : Z) (p : bptr) : Prop :=
  exists bs, blocks h !! block p = Some bs /\ 0 <= offs p /\ offs p + count <= Z.of_nat (length bs) /\
  match tracked m data n offset count with
  | Some ls => bs = ls /\ offs p = offset /\ exists e, tm !! data = Some e /\ shadow e = Some (block p) /\ released e = false
  | None => take (Z.to_nat count) (drop (Z.to_nat (offs p)) bs) = replicate (Z.to_nat count) 1 /\
            forall k e, tm !! k = Some e -> shadow e <> Some (block p)
  end.

(** The state of a heap whose table stands for [tm] and whose leaves are [m]. *)
Definition state (h : heap) (tm : gmap Z heap_entry) (m : leafmap) : Prop :=
  tab_inv h tm /\ owns (blocks h) (scratch h) (scratch_n h) (requests h) tm m.

Lemma memset_ok h p v n bs : blocks h !! block p = Some bs -> 0 <= offs p -> 0 <= n ->
  offs p + n <= Z.of_nat (length bs) ->
  memset p v n h = Ok (tt, set_blocks h (<[block p := splice bs (offs p) n v]> (blocks h))).
Proof using Type.
  intros Hb Ho Hn Hl. unfold memset. rewrite Hb. destruct (Z.leb_spec 0 (offs p)); [| lia].
  destruct (Z.leb_spec 0 n); [| lia]. destruct (Z.leb_spec (offs p + n) (Z.of_nat (length bs))); [| lia]. done.
Qed.

Lemma splice_length bs o n v : 0 <= o -> 0 <= n -> o + n <= Z.of_nat (length bs) -> length (splice bs o n v) = length bs.
Proof using Type. intros. unfold splice. rewrite !length_app, length_take, length_replicate, length_drop. lia. Qed.

Lemma splice_inside bs o n v : 0 <= o -> 0 <= n -> o + n <= Z.of_nat (length bs) ->
  take (Z.to_nat n) (drop (Z.to_nat o) (splice bs o n v)) = replicate (Z.to_nat n) v.
Proof using Type.
  intros. unfold splice. rewrite drop_app_ge by (rewrite length_take; lia). rewrite length_take.
  replace (Z.to_nat o - _)%nat with O by lia. rewrite drop_0, take_app_le by (rewrite length_replicate; lia).
  by rewrite take_ge by (rewrite length_replicate; lia).
Qed.

(** Initializing leaves that no entry has. *)
Lemma memset_state h tm m p n bs v : state h tm m -> (forall k e, tm !! k = Some e -> shadow e <> Some (block p)) ->
  blocks h !! block p = Some bs -> 0 <= offs p -> 0 <= n -> offs p + n <= Z.of_nat (length bs) ->
  exists h', memset p v n h = Ok (tt, h') /\ state h' tm m /\ scratch h' = scratch h /\
    blocks h' = <[block p := splice bs (offs p) n v]> (blocks h).
Proof using Type.
  intros [Hti Ho] Hu Hb Hp Hn Hl. rewrite (memset_ok _ _ _ _ bs) by done. eexists. split; [reflexivity |].
  split; [| done]. split; [by apply (tab_inv_ext h) |]. apply (owns_write _ _ _ _ _ _ _ bs); try done.
  by apply splice_length.
Qed.

(** A pointer to [n] initialized leaves that no entry has. *)
Definition spare (h : heap) (tm : gmap Z heap_entry) (n : Z) (p : bptr) : Prop :=
  exists bs, blocks h !! block p = Some bs /\ offs p = 0 /\ n <= Z.of_nat (length bs) /\
    take (Z.to_nat n) bs = replicate (Z.to_nat n) 1 /\ forall k e, tm !! k = Some e -> shadow e <> Some (block p).

Lemma spare_memset h tm m b n bs : state h tm m -> (forall k e, tm !! k = Some e -> shadow e <> Some b) ->
  blocks h !! b = Some bs -> 0 <= n -> n <= Z.of_nat (length bs) ->
  exists h', memset (mkPtr b 0) 1 n h = Ok (tt, h') /\ state h' tm m /\ scratch h' = scratch h /\
    (forall b', is_Some (blocks h !! b') -> is_Some (blocks h' !! b')) /\ spare h' tm n (mkPtr b 0).
Proof using Type.
  intros Hst Hu Hb Hn Hl. destruct (memset_state h tm m (mkPtr b 0) n bs 1) as (h' & E & Hst' & Hs & Hb'); try done.
  exists h'. rewrite Hb'. cbn [block offs]. split; [done |]. split; [done |]. split; [done |]. split.
  - intros b' Hsome. destruct (decide (b = b')) as [-> | Hne]; [by rewrite lookup_insert_eq | by rewrite lookup_insert_ne].
  - exists (splice bs 0 n 1). rewrite Hb'. cbn [block offs]. rewrite lookup_insert_eq. split; [done |]. split; [done |].
    rewrite splice_length by lia. split; [done |]. split; [| done].
    pose proof (splice_inside bs 0 n 1 ltac:(lia) Hn ltac:(lia)) as Hi. by rewrite drop_0 in Hi.
Qed.

Lemma alloc_state h tm m size : state h tm m -> grants (requests h) size = true ->
  exists h', alloc grants size 0 h = Ok (Some (requests h), h') /\ state h' tm m /\ unowned tm (scratch h) (requests h) /\
    blocks h' !! requests h = Some (replicate (Z.to_nat size) 0) /\
    scratch h' = scratch h /\ scratch_n h' = scratch_n h.
Proof using Type.
  intros [Hti Ho] Hg. unfold alloc. rewrite Hg. eexists. split; [reflexivity |].
  pose proof (fresh_unowned _ _ _ _ _ _ Ho) as Hf. split; [split; [by apply (tab_inv_ext h) |] |].
  - apply (owns_other _ _ _ _ _ _ Ho _ (Some _)); [done | cbn; lia | cbn; lia].
  - cbn [blocks scratch scratch_n]. rewrite lookup_insert_eq. done.
Qed.

Lemma untracked_spec h tm m n : state h tm m -> 0 <= n ->
  (exists p h', untracked grants n h = Ok (p, h') /\ state h' tm m /\ spare h' tm n p) \/ aborted (untracked grants n h).
Proof using host_limit.
  intros Hst Hn. generalize (eq_refl (untracked grants n h)). generalize (untracked grants n h) at 1 3 4. intros R ER.
  unfold untracked in ER. destruct (Z.ltb_spec n 0); [lia |]. unfold bind at 1, get in ER.
  pose proof (proj2 Hst) as Ho. pose proof (o_scr _ _ _ _ _ _ Ho) as Hscr. pose proof (o_scrn _ _ _ _ _ _ Ho) as Hsn.
  set (r := match scratch h with Some b => if n <=? scratch_n h then Some b else None | None => None end).
  assert (match scratch h with Some b => if n <=? scratch_n h then ret (Some b) else ret None | None => ret None end = @ret heap _ r) as Hr.
  { unfold r. destruct (scratch h); [| done]. by destruct (n <=? scratch_n h). }
  rewrite Hr, (bind_ok (ret r) _ h r h) in ER by done. clear Hr. destruct r as [b|] eqn:Er; unfold r in Er.
  - destruct (scratch h) as [b0|] eqn:Es; [| done]. destruct (Z.leb_spec n (scratch_n h)) as [Hle | _]; [| done].
    injection Er as ->. destruct Hscr as [(bs & Hbs & Hl) Hu].
    destruct (spare_memset h tm m b n bs Hst Hu Hbs Hn ltac:(lia)) as (h' & E & Hst' & _ & _ & Hsp).
    left. exists (mkPtr b 0), h'. unfold bind, ret in ER. by rewrite E in ER.
  - unfold INT64_MAX in ER. destruct (Z.leb_spec (2 * scratch_n h) 9223372036854775807); [| lia]. cbn [negb] in ER.
    set (w0 := if 2 * scratch_n h <? n then n else 2 * scratch_n h). set (want := if w0 <? 64 then 64 else w0).
    assert (n <= want /\ 64 <= want) as [Hw Hw64].
    { unfold want, w0. destruct (Z.ltb_spec (2 * scratch_n h) n).
      - destruct (Z.ltb_spec n 64); lia.
      - destruct (Z.ltb_spec (2 * scratch_n h) 64); lia. }
    cbv zeta in ER. fold w0 want in ER. destruct (grants (requests h) want) eqn:Eg.
    + destruct (alloc_state h tm m want Hst Eg) as (h1 & Ea & [Hti1 Ho1] & [Hu Hs] & Hb & Es1 & Esn1). apply host_limit in Eg.
      assert (state (set_scratch h1 (Some (requests h)) want) tm m) as Hst2.
      { split; [by apply (tab_inv_ext h1) |]. destruct Ho1 as [? ? ? ? ? ?]. split; try done; [| cbn; lia].
        cbn. split; [eexists; split; [exact Hb |] | done]. rewrite length_replicate. lia. }
      destruct (spare_memset _ tm m (requests h) n (replicate (Z.to_nat want) 0) Hst2 Hu Hb Hn) as (h' & E & Hst' & _ & _ & Hsp).
      { rewrite length_replicate. lia. }
      left. exists (mkPtr (requests h) 0), h'. unfold bind, modify, ret in ER. rewrite Ea, E in ER. done.
    + right. split; [| by eexists _, _]. unfold bind, alloc in ER. rewrite Eg in ER. done.
Qed.

Lemma shadow_at_spec h tm m data agrees offset : state h tm m -> exists r,
  shadow_at data agrees offset h = Ok (r, h) /\
  r = match tm !! data with
      | Some e => if negb (released e) && agrees e then option_map (fun b => mkPtr b offset) (shadow e) else None
      | None => None
      end.
Proof using Type.
  intros [Hti Ho]. unfold shadow_at. destruct (find_spec h tm data Hti) as (r & Ef & Hr). rewrite (bind_ok _ _ _ _ _ Ef).
  destruct r as [i|].
  - destruct Hr as [Hi (e0 & He0 & Hm)]. rewrite Hm. unfold bind, entry. rewrite He0.
    destruct (negb (released e0) && agrees e0); eauto.
  - rewrite Hr. eauto.
Qed.

(** What a lookup gives, whether it looks for a whole referent or for a part. *)
Lemma lookup_spec h tm m data n offset count fb agrees : state h tm m -> 0 <= count ->
  (forall e, nleaves e <> n -> agrees e = false) ->
  (forall e, nleaves e = n -> 0 <= n -> agrees e = (0 <=? offset) && (0 <=? count) && (offset <=? n - count)) ->
  (forall f, fb = Some f -> offs f = 0 /\ unowned tm (scratch h) (block f) /\
             exists bs, blocks h !! block f = Some bs /\ Z.of_nat (length bs) = count) ->
  let look := let* sh := shadow_at data agrees offset in
              match sh with Some p => ret p | None => untracked_at grants fb count end in
  (exists p h', look h = Ok (p, h') /\ state h' tm m /\ view h' tm m data n offset count p /\
     forall f, fb = Some f -> scratch h' = scratch h /\ is_Some (blocks h' !! block f))
  \/ aborted (look h).
Proof using host_limit.
  intros Hst Hc Hag1 Hag2 Hfb look. pose proof (proj2 Hst) as Ho.
  destruct (shadow_at_spec h tm m data agrees offset Hst) as (r & Esh & Er). unfold look. rewrite (bind_ok _ _ _ _ _ Esh).
  assert (match r with
          | Some p => exists e, tm !! data = Some e /\ released e = false /\ shadow e = Some (block p) /\ offs p = offset /\
                      exists bs, tracked m data n offset count = Some bs /\ blocks h !! block p = Some bs /\
                                 0 <= offset /\ offset + count <= Z.of_nat (length bs)
          | None => tracked m data n offset count = None
          end) as Hr.
  { unfold tracked. destruct (tm !! data) as [e|] eqn:Etm.
    - destruct (owns_lookup _ _ _ _ _ _ Ho data e Etm) as (b & bs & Hb & Hbs & Hl & Hm & _). rewrite Hm.
      destruct (released e) eqn:Erel; cbn [negb andb] in Er; [by subst r |]. rewrite Hl.
      destruct (Z.eqb_spec (nleaves e) n) as [En | En].
      + rewrite Hag2 in Er by lia. cbn [andb]. rewrite Hb in Er. cbn [option_map] in Er.
        destruct (_ && _) eqn:Ec; subst r; [| done]. apply andb_true_iff in Ec as [[Ho0 _]%andb_true_iff Hle].
        apply Z.leb_le in Ho0, Hle. exists e. do 4 (split; [done |]). exists bs. cbn [block]. repeat split; try done. lia.
      + rewrite Hag1 in Er by done. by subst r.
    - subst r. by rewrite (owns_None _ _ _ _ _ _ Ho data Etm). }
  destruct r as [p|].
  - left. destruct Hr as (e & Htm & Hrel & Hsh & Hoff & bs & Htr & Hb & Ho0 & Hle). exists p, h. split; [done |].
    split; [done |]. split.
    + exists bs. rewrite Htr, Hoff. repeat split; try done. eauto.
    + intros f Hf. destruct (Hfb f Hf) as (_ & _ & bs' & Hbs' & _). by split; [| eexists].
  - unfold view. rewrite Hr. destruct fb as [f|]; cbn [untracked_at].
    + left. destruct (Hfb f eq_refl) as (Hf0 & [Hu Hus] & bs & Hbs & Hl). exists f.
      destruct (Z.ltb_spec 0 count) as [Hpos | Hz].
      * destruct (spare_memset h tm m (block f) count bs Hst Hu Hbs Hc ltac:(lia)) as (h' & E & Hst' & Hs' & Hk & bs' & Hb' & _ & Hl' & Ht' & Hu').
        exists h'. destruct f as [b o]. cbn in Hf0. subst o. unfold bind, ret. cbn [block] in E. rewrite E. split; [done |]. split; [done |]. split.
        -- exists bs'. cbn. rewrite drop_0. done.
        -- intros f [= <-]. split; [done |]. apply Hk. by eexists.
      * assert (count = 0) as -> by lia. exists h. unfold bind, ret. split; [done |]. split; [done |]. split.
        -- exists bs. rewrite Hf0. repeat split; try done. lia.
        -- intros f' [= <-]. by split; [| eexists].
    + destruct (untracked_spec h tm m count Hst Hc) as [(p & h' & E & Hst' & bs & Hb & Hp0 & Hl & Ht & Hu) | Hab]; [left | right; done].
      exists p, h'. split; [done |]. split; [done |]. split; [| done]. exists bs. rewrite Hp0, drop_0. repeat split; try done; lia.
Qed.

Lemma all_from_spec h b bs : blocks h !! b = Some bs -> forall n o, 0 <= o -> o + Z.of_nat n <= Z.of_nat (length bs) ->
  all_from n (mkPtr b o) h = Ok (forallb (fun v => negb (v =? 0)) (take n (drop (Z.to_nat o) bs)), h).
Proof using Type.
  intros Hb. induction n as [|n IH]; intros o Ho Hl; [done |]. cbn [all_from]. unfold bind, load. cbn [block offs]. rewrite Hb.
  destruct (Z.leb_spec 0 o); [| lia]. destruct (lookup_lt_is_Some_2 bs (Z.to_nat o)) as [v Hv]; [lia |]. rewrite Hv.
  rewrite (drop_S _ _ _ Hv). cbn [take forallb]. destruct (v =? 0); [done |]. rewrite IH by lia.
  by replace (Z.to_nat (o + 1)) with (S (Z.to_nat o)) by lia.
Qed.

Lemma forallb_ones n : forallb (fun v => negb (v =? 0)) (replicate n 1) = true.
Proof using Type. by induction n. Qed.

(** What a use of the leaves must do to keep the promise: give [a] and the leaves [m']. *)
Definition uses {A} (use : bptr -> ST heap A) (tm : gmap Z heap_entry) (m : leafmap) (data n offset count : Z) (a : A) (m' : leafmap) : Prop :=
  forall p h, state h tm m -> view h tm m data n offset count p ->
  exists h', use p h = Ok (a, h') /\ state h' tm m' /\ scratch h' = scratch h /\
    forall b, is_Some (blocks h !! b) -> is_Some (blocks h' !! b).

Lemma check_uses tm m data n offset count : 0 <= count ->
  uses (fun p => let* b := pas_initck_all p count in ret (Some b)) tm m data n offset count
       (Some (spec_check m data n offset count)) m.
Proof using Type.
  intros Hc [b o] h Hst (bs & Hb & Ho & Hl & Hv). cbn [block offs] in *. exists h. unfold bind, pas_initck_all, spec_check.
  rewrite (all_from_spec h b bs Hb) by lia. split; [| done].
  destruct (tracked m data n offset count) as [ls|]; [by destruct Hv as (-> & -> & _) |].
  rewrite (proj1 Hv), forallb_ones. done.
Qed.

Lemma fill_uses tm m data n offset count ok : 0 <= count ->
  uses (fun p => do* pas_initck_fill p count ok in ret (@None bool)) tm m data n offset count None
       (spec_fill m data n offset count ok).
Proof using Type.
  intros Hc p h Hst (bs & Hb & Ho & Hl & Hv). unfold bind, pas_initck_fill, spec_fill, ret.
  rewrite (memset_ok _ _ _ _ bs) by done. eexists. split; [reflexivity |]. cbn [scratch blocks set_blocks].
  split; [| split; [done |]].
  - destruct Hst as [Hti Hown]. split; [by apply (tab_inv_ext h) |].
    pose proof (splice_length bs (offs p) count (if ok then 1 else 0) Ho Hc Hl) as Hlen.
    destruct (tracked m data n offset count) as [ls|].
    + destruct Hv as (-> & Hoff & e & Htm & Hsh & Hrel). rewrite Hoff in *.
      destruct (owns_lookup _ _ _ _ _ _ Hown data e Htm) as (b' & bs' & Hb' & Hbs' & Hn & _).
      rewrite <- (insert_id tm data e Htm). cbn [blocks scratch scratch_n requests set_blocks].
      rewrite <- Hrel. eapply (owns_rewrite _ _ _ _ _ _ data e e); eauto. congruence.
    + destruct Hv as [_ Hu]. by apply (owns_write _ _ _ _ _ _ _ bs).
  - intros b Hsome. destruct (decide (block p = b)) as [<- | Hne]; [by rewrite lookup_insert_eq | by rewrite lookup_insert_ne].
Qed.

Lemma at_site_spec {A} own h tm m data n offset count agrees (use : bptr -> ST heap A) a m' : state h tm m -> 0 <= count ->
  (forall e, nleaves e <> n -> agrees e = false) ->
  (forall e, nleaves e = n -> 0 <= n -> agrees e = (0 <=? offset) && (0 <=? count) && (offset <=? n - count)) ->
  uses use tm m data n offset count a m' ->
  gives (at_site own count (fun fb => let* sh := shadow_at data agrees offset in
                                      match sh with Some p => ret p | None => untracked_at grants fb count end) use h) a m'.
Proof using host_limit.
  intros Hst Hc Hag1 Hag2 Huse. destruct own; cbn [at_site].
  - unfold frame, bind at 1. set (h1 := mkHeap _ _ _ _ _ _ _). set (f := mkPtr (requests h) 0).
    pose proof (fresh_unowned _ _ _ _ _ _ (proj2 Hst)) as Hf.
    assert (state h1 tm m) as Hst1.
    { destruct Hst as [Hti Ho]. split; [by apply (tab_inv_ext h) |]. apply (owns_other _ _ _ _ _ _ Ho _ (Some _)); [done | cbn; lia.. ]. }
    destruct (lookup_spec h1 tm m data n offset count (Some f) agrees Hst1 Hc Hag1 Hag2) as [(p & h2 & E & Hst2 & Hv & Hk) | [Hab Hg]].
    { intros f' [= <-]. split; [done |]. split; [done |]. exists (replicate (Z.to_nat count) 0).
      split; [apply lookup_insert_eq | rewrite length_replicate; lia]. }
    2:{ right. split; [by apply bind_err | done]. }
    destruct (Hk f eq_refl) as [Hs2 Hb2]. destruct (Huse p h2 Hst2 Hv) as (h3 & E3 & Hst3 & Hs3 & Hb3).
    destruct (Hb3 _ Hb2) as [bs Hbs]. left. rewrite (bind_ok _ _ _ _ _ E), (bind_ok _ _ _ _ _ E3).
    unfold bind, free, ret. rewrite Hbs. eexists. split; [reflexivity |]. exists tm. destruct Hst3 as [Hti3 Ho3].
    split; [by apply (tab_inv_ext h3) |]. apply (owns_other _ _ _ _ _ _ Ho3 _ None); [| done | by intros [? ?]].
    rewrite Hs3, Hs2. done.
  - destruct (lookup_spec h tm m data n offset count None agrees Hst Hc Hag1 Hag2) as [(p & h2 & E & Hst2 & Hv & _) | [Hab Hg]].
    { done. } 2:{ right. split; [by apply bind_err | done]. }
    destruct (Huse p h2 Hst2 Hv) as (h3 & E3 & Hst3 & _). left. exists h3. rewrite (bind_ok _ _ _ _ _ E). split; [done |]. by exists tm.
Qed.

(** Sizes are not negative. *)
Definition op_wf (o : op) : Prop :=
  match o with
  | Check_at _ n _ | Fill_at _ n _ _ => 0 <= n
  | Check_part _ _ _ count _ | Fill_part _ _ _ count _ _ => 0 <= count
  | _ => True
  end.

Lemma exec_spec o h m : op_wf o -> heap_inv h m -> gives (exec grants o h) (spec o m).1 (spec o m).2.
Proof using host_limit.
  intros Hwf Hinv.
  assert (forall e n, nleaves e = n -> 0 <= n -> (nleaves e =? n) = (0 <=? 0) && (0 <=? n) && (0 <=? n - n)) as Hwhole.
  { intros e n -> Hn. rewrite Z.eqb_refl, Z.sub_diag. destruct (Z.leb_spec 0 n); [done | lia]. }
  destruct o as [data n | data | data | data n own | data n off cnt own | data n ok own | data n off cnt ok own]; cbn [exec].
  - destruct (new_spec h m data n Hinv) as [(h' & E & Hinv') | [E Hg]]; [left | right; split; [by apply bind_err | done]].
    exists h'. by rewrite (bind_ok _ _ _ _ _ E).
  - destruct (dispose_spec h m data Hinv) as (h' & E & Hinv'). left. exists h'. by rewrite (bind_ok _ _ _ _ _ E).
  - destruct (release_spec h m data Hinv) as (h' & E & Hinv'). left. exists h'. by rewrite (bind_ok _ _ _ _ _ E).
  - destruct Hinv as (tm & Hst). apply (at_site_spec own h tm m data n 0 n (fun e => nleaves e =? n)); try done.
    + by intros e ?%Z.eqb_neq.
    + intros. by apply Hwhole.
    + by apply check_uses.
  - destruct Hinv as (tm & Hst). eapply (at_site_spec own h tm m data n off cnt); try done.
    + intros e ->%Z.eqb_neq. done.
    + intros e -> _. by rewrite Z.eqb_refl.
    + by apply check_uses.
  - destruct Hinv as (tm & Hst). apply (at_site_spec own h tm m data n 0 n (fun e => nleaves e =? n)); try done.
    + by intros e ?%Z.eqb_neq.
    + intros. by apply Hwhole.
    + by apply fill_uses.
  - destruct Hinv as (tm & Hst). eapply (at_site_spec own h tm m data n off cnt); try done.
    + intros e ->%Z.eqb_neq. done.
    + intros e -> _. by rewrite Z.eqb_refl.
    + by apply fill_uses.
Qed.

Lemma heap0_inv : heap_inv heap0 ∅.
Proof using Type.
  exists ∅. split.
  - split; cbn; try lia; [by left |].
    intros k e. rewrite lookup_empty. split; [done |]. intros [[i Hi] _]. by rewrite lookup_nil in Hi.
  - split; cbn; try done; try lia. intros b [? ?]. done.
Qed.

Lemma exec_all_spec os : forall h m, Forall op_wf os -> heap_inv h m ->
  (exists h', exec_all grants os h = Ok (spec_all os m, h')) \/ aborted (exec_all grants os h).
Proof using host_limit.
  induction os as [|o os IH]; intros h m Hwf Hinv; [left; by eexists |].
  apply Forall_cons_1 in Hwf as [Ho Hos]. cbn [exec_all spec_all].
  destruct (exec_spec o h m Ho Hinv) as [(h' & E & Hinv') | [E Hg]]; [| right; split; [by apply bind_err | done]].
  rewrite (bind_ok _ _ _ _ _ E). destruct (IH h' _ Hos Hinv') as [(h'' & E') | [E' Hg]].
  - left. exists h''. by rewrite (bind_ok _ _ _ _ _ E').
  - right. split; [by apply bind_err | done].
Qed.

(** C6: Every program of NEW, DISPOSE, escapes, checks and initializations, started on
    the empty table, gives exactly the answers of a finite map from addresses to
    leaves: the hash table, its tombstones, its growth, the shared scratch run
    and the fallback buffers are not visible. No probe runs for ever, no block is
    freed twice, no byte outside a block is touched. The only other outcome is the
    message of [heap_error], and then the host refused an allocation. *)
Theorem heap_state_refines os : Forall op_wf os ->
  (exists h, exec_all grants os heap0 = Ok (spec_all os ∅, h)) \/
  (exec_all grants os heap0 = Err (RtAbort "runtime error: INITCK heap state allocation failed") /\
   exists i size, grants i size = false).
Proof using host_limit. intros Hwf. apply exec_all_spec; [done | apply heap0_inv]. Qed.
End Host.

(** A host with room, and a program that makes the table grow twice, reuses a
    tombstone and looks at a referent that escaped. *)
Definition roomy (i : nat) (size : Z) : bool := size <? 2 ^ 62.
Definition demo : list op :=
  map (fun i => New (16 * Z.of_nat i) 3) (seq 1 100) ++
  [Fill_part 32 3 1 2 true true; Check_part 32 3 1 2 true; Check_at 32 3 false; Dispose 32; Check_at 32 3 false;
   New 32 3; Check_at 32 3 true; Release 32; Check_at 32 3 true; Check_at 999 5 false].

Lemma heap_state_refines_witness : Forall op_wf demo /\
  ((exists h, exec_all roomy demo heap0 = Ok (spec_all demo ∅, h)) \/
   (exec_all roomy demo heap0 = Err (RtAbort "runtime error: INITCK heap state allocation failed") /\
    exists i size, roomy i size = false)) /\
  drop 100 (spec_all demo ∅) = [None; Some true; Some false; None; Some true; None; Some false; None; Some true; Some true].
Proof.
  assert (Forall op_wf demo) as Hwf.
  { apply Forall_app. split; [apply Forall_map, Forall_forall; done | repeat constructor; cbn; lia]. }
  split; [done |]. split; [| vm_compute; reflexivity].
  apply (heap_state_refines roomy); [| done]. intros i size H. apply Z.ltb_lt. exact H.
Defined.
