(* ===== verification/HeapLock.v ===== *)
(** The spin lock of initck_heap.c, [lock] and [unlock], around the calls of several
    threads. A thread reads the shared state and writes it back in two separate
    steps, so calls would be lost without the lock. Every schedule gives the answers
    of the calls made one after the other, in the order in which they got the lock,
    and under every schedule that lets each thread run again and again all calls
    return, or one could not get memory and ended the process. Memory is sequentially
    consistent: the acquire and release of the flag order what the lock protects. *)

From Stdlib Require Import ZArith Ascii String Lia.
From stdpp Require Import base list strings gmap numbers.
From S2P Require Import Prelude InitHeap.
#[local] Open Scope Z_scope.

Section Lock.
(** What a call does between [lock] and [unlock]; [Err] when it cannot return. *)
Context {St Call Out : Type} (body : Call -> St -> res (Out * St)).

Inductive pc :=
  | Outside
  | Locked
  | Loaded (out : Out) (new : St)
  | Stored
  | Failed (e : err)      (* the lock is still held *)
  | Ending (e : err).     (* unlocked, in front of the abort *)

Record thread := mkThread { at_pc : pc; todo : list Call }.

(** The shared state, [table_lock], the threads, the calls that have written the
    shared state so far, and what ended the process, if something did. *)
Record config := mkConfig {
  shared : St;
  flag : bool;
  threads : list thread;
  log : list (nat * Call * Out);
  ended : option err
}.

(** One step of thread [i]. [lock] tests and sets the flag in one step, and stays
    where it is while the flag is set; [unlock] clears it. *)
Definition lock_step (i : nat) (th : thread) (c : config) : config :=
  if flag c then c
  else mkConfig (shared c) true (<[i := mkThread Locked (todo th)]> (threads c)) (log c) (ended c).
Definition unlock_step (i : nat) (th : thread) (next : pc) (c : config) : config :=
  mkConfig (shared c) false (<[i := mkThread next (todo th)]> (threads c)) (log c) (ended c).

(** A call that fails gives the lock back and then aborts the process, as [heap_error]
    does: from there on no thread moves. *)

Definition step (i : nat) (c : config) : config :=
  match ended c, threads c !! i with
  | Some _, _ | _, None => c
  | None, Some th =>
      match at_pc th, todo th with
      | Outside, [] => c
      | Outside, _ :: _ => lock_step i th c
      | Locked, o :: _ =>
          let next := match body o (shared c) with Ok (out, new) => Loaded out new | Err e => Failed e end in
          mkConfig (shared c) (flag c) (<[i := mkThread next (todo th)]> (threads c)) (log c) None
      | Loaded out new, o :: os =>
          mkConfig new (flag c) (<[i := mkThread Stored os]> (threads c)) (log c ++ [(i, o, out)]) None
      | Stored, _ => unlock_step i th Outside c
      | Failed e, _ => unlock_step i th (Ending e) c
      | Ending e, _ => mkConfig (shared c) (flag c) (threads c) (log c) (Some e)
      | _, [] => c
      end
  end.

Definition run (sched : list nat) (c : config) : config := fold_left (fun c i => step i c) sched c.

Definition start (s : St) (progs : list (list Call)) : config :=
  mkConfig s false (map (mkThread Outside) progs) [] None.

(** The calls one after the other. *)
Fixpoint sequential (os : list Call) (s : St) : res (list Out * St) :=
  match os with
  | [] => Ok ([], s)
  | o :: os' => let! (out, s1) := body o s in let! (outs, s2) := sequential os' s1 in Ok (out :: outs, s2)
  end.
(** A call fails with [e] after others that did not. *)
Definition fails (s0 : St) (e : err) : Prop :=
  exists os outs s o, sequential os s0 = Ok (outs, s) /\ body o s = Err e.

Definition calls (l : list (nat * Call * Out)) : list Call := map (fun x => x.1.2) l.
Definition outs (l : list (nat * Call * Out)) : list Out := map (fun x => x.2) l.
(** The calls of thread [i]. *)
Definition calls_of (i : nat) (l : list (nat * Call * Out)) : list Call :=
  calls (filter (fun x => x.1.1 = i) l).

(** * Mutual exclusion *)

(** What thread [i] knows of the shared state. *)
Definition knows (s0 s : St) (th : thread) : Prop :=
  match at_pc th, todo th with
  | Outside, _ | Stored, _ => True
  | _, [] => False
  | Locked, _ => True
  | Loaded out new, o :: _ => body o s = Ok (out, new)
  | Failed e, o :: _ => fails s0 e
  | Ending e, _ :: _ => fails s0 e
  end.

Definition holds_lock (th : thread) : bool := match at_pc th with Outside | Ending _ => false | _ => true end.

Record inv (s0 : St) (progs : list (list Call)) (c : config) : Prop := {
  i_excl : forall i j a b, threads c !! i = Some a -> threads c !! j = Some b ->
    holds_lock a = true -> holds_lock b = true -> i = j;
  i_flag : forall i a, threads c !! i = Some a -> holds_lock a = true -> flag c = true;
  i_held : flag c = true -> exists i a, threads c !! i = Some a /\ holds_lock a = true;
  i_know : forall i a, threads c !! i = Some a -> knows s0 (shared c) a;
  i_seq : sequential (calls (log c)) s0 = Ok (outs (log c), shared c);
  i_end : forall e, ended c = Some e -> fails s0 e;
  i_prog : forall i, match threads c !! i with Some a => progs !! i = Some (calls_of i (log c) ++ todo a) | None => progs !! i = None end
}.

Lemma sequential_app a b s : sequential (a ++ b) s =
  let! (x, s1) := sequential a s in let! (y, s2) := sequential b s1 in Ok (x ++ y, s2).
Proof.
  revert s. induction a as [|o a IH]; intros s; simpl; [by destruct (sequential b s) as [[y s2] |] |].
  destruct (body o s) as [[out s1] |]; [| done]. simpl. rewrite IH. destruct (sequential a s1) as [[x s2] |]; [| done]. simpl.
  by destruct (sequential b s2) as [[y s3] |].
Qed.

Lemma thread_cases (ts : list thread) i j a b : <[i := a]> ts !! j = Some b ->
  (j = i /\ b = a) \/ (j <> i /\ ts !! j = Some b).
Proof.
  intros H. destruct (decide (i = j)) as [-> | Hn].
  - left. pose proof (lookup_lt_Some _ _ _ H) as Hl. rewrite length_insert in Hl.
    rewrite list_lookup_insert_eq in H by done. split; congruence.
  - right. by rewrite list_lookup_insert_ne in H.
Qed.

(** A step of a thread that holds the lock before and after it. *)
Lemma inv_hold s0 progs c i th th' s' l' : inv s0 progs c -> threads c !! i = Some th ->
  holds_lock th = true -> holds_lock th' = true -> knows s0 s' th' -> ended c = None ->
  sequential (calls l') s0 = Ok (outs l', s') ->
  progs !! i = Some (calls_of i l' ++ todo th') -> (forall j, j <> i -> calls_of j l' = calls_of j (log c)) ->
  inv s0 progs (mkConfig s' (flag c) (<[i := th']> (threads c)) l' None).
Proof.
  intros [He Hf Hh Hk Hs Hend Hp] Hi Hl Hl' Hk' Hn0 Hs' Hpi Hpj. split; cbn [threads flag shared log ended].
  - intros a b x y [[-> ->] | [Ha Hx]]%thread_cases [[-> ->] | [Hb Hy]]%thread_cases H1 H2; eauto.
  - intros j x _ _. by apply (Hf i th).
  - intros _. exists i, th'. split; [apply list_lookup_insert_eq; by eapply lookup_lt_Some | done].
  - intros j x [[-> ->] | [Hj Hx]]%thread_cases; [done |]. pose proof (Hk j x Hx) as Hkx.
    destruct (holds_lock x) eqn:E; [by destruct (Hj (He j i x th Hx Hi E Hl)) |]. by destruct x as [[] []].
  - done.
  - done.
  - intros j. destruct (decide (i = j)) as [<- | Hn].
    + rewrite list_lookup_insert_eq by (by eapply lookup_lt_Some). done.
    + rewrite list_lookup_insert_ne by done. rewrite (Hpj j) by done. apply Hp.
Qed.

(** Taking and giving back the lock. *)
Lemma inv_switch s0 progs c i th th' b : inv s0 progs c -> threads c !! i = Some th -> todo th' = todo th ->
  holds_lock th' = b -> holds_lock th = negb b -> flag c = negb b -> knows s0 (shared c) th' ->
  inv s0 progs (mkConfig (shared c) b (<[i := th']> (threads c)) (log c) (ended c)).
Proof.
  intros [He Hf Hh Hk Hs Hend Hp] Hi Ht Hb' Hb Hfl Hk'.
  assert (forall j x, j <> i -> threads c !! j = Some x -> holds_lock x = false) as Hother.
  { intros j x Hj Hx. destruct (holds_lock x) eqn:E; [exfalso | done].
    specialize (Hf j x Hx E). rewrite Hfl in Hf. apply Hj. eapply (He j i x th); eauto; congruence. }
  split; cbn [threads flag shared log ended].
  - intros a d x y [[-> ->] | [Ha Hx]]%thread_cases [[-> ->] | [Hd Hy]]%thread_cases H1 H2; eauto.
  - intros j x [[-> ->] | [Hj Hx]]%thread_cases H; [congruence |]. by rewrite (Hother j x) in H.
  - intros ->. exists i, th'. split; [apply list_lookup_insert_eq; by eapply lookup_lt_Some | done].
  - intros j x [[-> ->] | [Hj Hx]]%thread_cases; eauto.
  - done.
  - done.
  - intros j. destruct (decide (i = j)) as [<- | Hn].
    + rewrite list_lookup_insert_eq by (by eapply lookup_lt_Some). rewrite Ht. specialize (Hp i). by rewrite Hi in Hp.
    + rewrite list_lookup_insert_ne by done. apply Hp.
Qed.

Lemma inv_step s0 progs c i : inv s0 progs c -> inv s0 progs (step i c).
Proof.
  intros Hinv. unfold step. destruct (ended c) as [e0 |] eqn:Hend; [done |]. destruct (threads c !! i) as [[p t]|] eqn:Hi; [| done].
  pose proof (i_know _ _ _ Hinv i _ Hi) as Hk. pose proof (i_prog _ _ _ Hinv i) as Hp. rewrite Hi in Hp. cbn [at_pc todo] in *.
  destruct p as [| | out new | | e | e], t as [|o os]; cbn in Hk; try done.
  - unfold lock_step. destruct (flag c) eqn:Ef; [done |]. by eapply inv_switch.
  - eapply inv_hold; eauto; try apply (i_seq _ _ _ Hinv); destruct (body o (shared c)) as [[out new] | e] eqn:Eb; try done.
    cbn. exists (calls (log c)), (outs (log c)), (shared c), o. split; [apply (i_seq _ _ _ Hinv) | done].
  - eapply inv_hold; eauto; try done.
    + unfold calls, outs. rewrite !map_app. fold (calls (log c)) (outs (log c)). cbn [map fst snd].
      rewrite sequential_app, (i_seq _ _ _ Hinv). simpl. by rewrite Hk.
    + rewrite Hp. unfold calls_of, calls. rewrite list.filter_app, filter_cons_True by done. rewrite map_app, <- app_assoc. done.
    + intros j Hj. unfold calls_of, calls. rewrite list.filter_app, filter_cons_False by (cbn; congruence).
      by rewrite filter_nil, app_nil_r.
  - unfold unlock_step. eapply inv_switch; eauto; try done. by apply (i_flag _ _ _ Hinv i _ Hi).
  - unfold unlock_step. eapply inv_switch; eauto; try done. by apply (i_flag _ _ _ Hinv i _ Hi).
  - unfold unlock_step. eapply inv_switch; eauto; try done. by apply (i_flag _ _ _ Hinv i _ Hi).
  - destruct Hinv as [He Hf Hh Hkn Hs Hen Hpr]. split; cbn [threads flag shared log ended]; try done. by intros ? [= <-].
Qed.

Lemma inv_at_start s0 progs : inv s0 progs (start s0 progs).
Proof.
  assert (forall i a, map (mkThread Outside) progs !! i = Some a -> holds_lock a = false) as Hout.
  { intros i a Ha. apply list_lookup_fmap_Some in Ha as (t & -> & _). done. }
  split; cbn [start threads flag shared log ended]; try done.
  - intros i j a b Ha _ H. by rewrite (Hout i a Ha) in H.
  - intros i a Ha H. by rewrite (Hout i a Ha) in H.
  - intros i a Ha. apply list_lookup_fmap_Some in Ha as (t & -> & _). done.
  - intros i. rewrite list_lookup_fmap. by destruct (progs !! i).
Qed.

Lemma inv_run s0 progs sched : forall c, inv s0 progs c -> inv s0 progs (run sched c).
Proof. induction sched as [|i sched IH]; intros c Hc; [done |]. by apply IH, inv_step. Qed.

(** * Progress *)

(** The steps a thread still has to take. *)
Definition weight (th : thread) : nat :=
  match at_pc th with
  | Outside => 4 * length (todo th)
  | Locked => 4 * length (todo th) - 1
  | Loaded _ _ => 4 * length (todo th) - 2
  | Stored => 4 * length (todo th) + 1
  | Failed _ => 4 * length (todo th) - 2
  | Ending _ => 4 * length (todo th) - 3
  end.
Definition work (ts : list thread) : nat := sum_list (map weight ts).
Definition left_over (c : config) : nat := match ended c with Some _ => 0 | None => work (threads c) end.

Lemma work_insert ts : forall i th th', ts !! i = Some th -> (work (<[i := th']> ts) + weight th = work ts + weight th')%nat.
Proof.
  induction ts as [|t ts IH]; intros [|i] th th' Hi; simpl in *; try done.
  - injection Hi as ->. unfold work. simpl. lia.
  - specialize (IH i th th' Hi). unfold work in *. simpl. lia.
Qed.

(** What holds the lock or waits to abort has work left. *)
Lemma knows_weight s0 s th : knows s0 s th -> at_pc th <> Outside -> (0 < weight th)%nat.
Proof. destruct th as [[| | out new | | e | e] [|o os]]; cbn; intros Hk Hn; try done; lia. Qed.

(** A step does nothing or brings the end nearer; it does nothing only when the
    thread is done or waits. *)
Lemma step_work s0 progs c i : inv s0 progs c -> step i c = c \/ (left_over (step i c) < left_over c)%nat.
Proof.
  intros Hinv. unfold step. destruct (ended c) as [e0 |] eqn:Hend; [by left |]. destruct (threads c !! i) as [[p t]|] eqn:Hi; [| by left].
  pose proof (i_know _ _ _ Hinv i _ Hi) as Hk. unfold left_over. rewrite Hend. cbn [at_pc todo] in *.
  destruct p as [| | out new | | e | e], t as [|o os]; cbn in Hk; try done; try (by left).
  - unfold lock_step. destruct (flag c); [by left | right]. cbn [threads todo ended]. rewrite Hend.
    pose proof (work_insert _ i _ (mkThread Locked (o :: os)) Hi). cbn in *. lia.
  - right. cbn [threads ended]. destruct (body o (shared c)) as [[out new] | e].
    + pose proof (work_insert _ i _ (mkThread (Loaded out new) (o :: os)) Hi). cbn in *. lia.
    + pose proof (work_insert _ i _ (mkThread (Failed e) (o :: os)) Hi). cbn in *. lia.
  - right. cbn [threads ended]. pose proof (work_insert _ i _ (mkThread Stored os) Hi). cbn in *. lia.
  - right. unfold unlock_step. cbn [threads todo ended]. rewrite Hend. pose proof (work_insert _ i _ (mkThread Outside []) Hi). cbn in *. lia.
  - right. unfold unlock_step. cbn [threads todo ended]. rewrite Hend. pose proof (work_insert _ i _ (mkThread Outside (o :: os)) Hi). cbn in *. lia.
  - right. unfold unlock_step. cbn [threads todo ended]. rewrite Hend. pose proof (work_insert _ i _ (mkThread (Ending e) (o :: os)) Hi). cbn in *. lia.
  - right. cbn [ended]. pose proof (work_insert _ i _ (mkThread Outside []) Hi). cbn in *. lia.
Qed.

Lemma run_work s0 progs sched : forall c, inv s0 progs c ->
  (run sched c = c /\ forall i, In i sched -> step i c = c) \/ (left_over (run sched c) < left_over c)%nat.
Proof.
  induction sched as [|i sched IH]; intros c Hinv; [by left |].
  destruct (step_work s0 progs c i Hinv) as [E | Hlt].
  - cbn [run fold_left]. rewrite E. destruct (IH c Hinv) as [[Er Hs] | Hlt]; [left | by right].
    split; [done |]. intros j [<- | Hj]; eauto.
  - right. cbn [run fold_left]. fold (run sched (step i c)).
    destruct (IH (step i c) (inv_step _ _ _ _ Hinv)) as [[-> _] | ?]; lia.
Qed.

Lemma work_pos ts : (0 < work ts)%nat -> exists i th, ts !! i = Some th /\ (0 < weight th)%nat.
Proof.
  induction ts as [|t ts IH]; unfold work; simpl; [lia |]. intros H. destruct (weight t) eqn:E.
  - destruct IH as (i & th & Hi & Hw); [done |]. by exists (S i), th.
  - exists O, t. split; [done | lia].
Qed.

(** While there is work, a thread can move: the one that holds the lock, or one
    that wants it or is about to abort when it is free. *)
Lemma enabled s0 progs c : inv s0 progs c -> (0 < left_over c)%nat ->
  exists i, (i < length (threads c))%nat /\ step i c <> c.
Proof.
  intros Hinv Hw. unfold left_over in Hw. destruct (ended c) as [e0 |] eqn:Hend; [lia |].
  assert (exists i th, threads c !! i = Some th /\ (0 < weight th)%nat /\ (flag c = true -> holds_lock th = true)) as (i & th & Hi & Hwt & Hh).
  { destruct (flag c) eqn:Ef.
    - destruct (i_held _ _ _ Hinv Ef) as (i & th & Hi & Hh). exists i, th. split; [done |]. split; [| done].
      apply (knows_weight s0 (shared c)); [by apply (i_know _ _ _ Hinv i) |]. unfold holds_lock in Hh. by destruct (at_pc th).
    - destruct (work_pos _ Hw) as (i & th & Hi & Hwt). exists i, th. by repeat split. }
  exists i. split; [by eapply lookup_lt_Some |]. intros E.
  pose proof (i_know _ _ _ Hinv i th Hi) as Hk.
  assert (threads (step i c) !! i = Some th /\ ended (step i c) = None) as [Hsame Hnone] by (by rewrite E).
  pose proof (lookup_lt_Some _ _ _ Hi) as Hlt.
  unfold step in Hsame, Hnone. rewrite Hend, Hi in Hsame, Hnone.
  destruct th as [[| | out new | | e | e] t], t as [|o os]; cbn in Hk, Hwt, Hh, Hsame, Hnone; try done; try lia;
    try (rewrite list_lookup_insert_eq in Hsame by done; done).
  - unfold lock_step in Hsame. destruct (flag c); [by specialize (Hh eq_refl) |]. cbn in Hsame.
    rewrite list_lookup_insert_eq in Hsame by done. done.
  - rewrite list_lookup_insert_eq in Hsame by done. by destruct (body o (shared c)) as [[out new] | e].
Qed.

(** A round runs every thread at least once, in any order and number. *)
Definition round (n : nat) (sched : list nat) : Prop := forall i, (i < n)%nat -> In i sched.

Lemma step_threads c i : length (threads (step i c)) = length (threads c).
Proof.
  unfold step, lock_step, unlock_step. repeat case_match; cbn [threads]; rewrite ?length_insert; done.
Qed.

Lemma run_threads sched : forall c, length (threads (run sched c)) = length (threads c).
Proof. induction sched as [|i sched IH]; intros c; [done |]. cbn [run fold_left]. fold (run sched (step i c)). rewrite IH. apply step_threads. Qed.

Lemma rounds_finish s0 progs rounds : forall c, inv s0 progs c -> Forall (round (length (threads c))) rounds ->
  (left_over c <= length rounds)%nat -> left_over (run (concat rounds) c) = O.
Proof.
  induction rounds as [|r rounds IH]; intros c Hinv Hf Hle; [cbn in *; lia |].
  apply Forall_cons_1 in Hf as [Hr Hf]. cbn [concat]. unfold run. rewrite fold_left_app. fold (run r c). apply IH.
  - by apply inv_run.
  - by rewrite run_threads.
  - cbn [length] in Hle. destruct (run_work s0 progs r c Hinv) as [[E Hall] | Hlt]; [| lia].
    rewrite E. destruct (decide (left_over c = O)) as [-> | Hn]; [lia |].
    destruct (enabled s0 progs c Hinv ltac:(lia)) as (i & Hi & Hne). by destruct Hne; apply Hall, Hr.
Qed.

Lemma work_start progs : work (map (mkThread Outside) progs) = (4 * sum_list (map length progs))%nat.
Proof.
  induction progs as [|p progs IH]; [done |]. unfold work in *. cbn [map sum_list_with]. rewrite IH. unfold weight, id.
  cbn [at_pc todo]. lia.
Qed.

Lemma work_done s0 progs c i th : inv s0 progs c -> work (threads c) = O -> threads c !! i = Some th -> todo th = [] /\ at_pc th = Outside.
Proof.
  intros Hinv Hw Hi. pose proof (work_insert _ i th (mkThread Outside []) Hi) as Hx. rewrite Hw in Hx. cbn in Hx.
  pose proof (i_know _ _ _ Hinv i th Hi) as Hk. destruct (at_pc th) eqn:Ep; [| pose proof (knows_weight s0 (shared c) th Hk); rewrite Ep in *; lia || (assert (0 < weight th)%nat by (apply (knows_weight s0 (shared c)); [done | by rewrite Ep]); lia) ..].
  split; [| done]. destruct th as [p t]. cbn in *. subst p. destruct t; [done |]. cbn in Hx. lia.
Qed.
End Lock.

(** * The calls on the table *)

(** The calls that take the lock. A lookup tells whether the referent is tracked; the
    leaves are read and written outside the lock. NEW allocates its block before it
    takes the lock and DISPOSE frees it afterwards; nobody else has the block then. *)
Inductive call :=
  | CNew (data n : Z)
  | CDispose (data : Z)
  | CRelease (data : Z)
  | CLookup (data n : Z).

Definition exec_call (grants : nat -> Z -> bool) (o : call) : ST heap (option bool) :=
  match o with
  | CNew data n => do* pas_initck_heap_new grants data n in ret None
  | CDispose data => do* pas_initck_heap_dispose data in ret None
  | CRelease data => do* pas_initck_heap_release data in ret None
  | CLookup data n =>
      let* sh := shadow_at data (fun e => nleaves e =? n) 0 in
      ret (Some (match sh with Some _ => true | None => false end))
  end.

(** What a call does inside; it is aborted when it cannot get memory. *)
Definition heap_body (grants : nat -> Z -> bool) (o : call) (h : heap) : res (option bool * heap) := exec_call grants o h.

Definition spec_call (o : call) (m : leafmap) : option bool * leafmap :=
  match o with
  | CNew data n => spec (New data n) m
  | CDispose data => spec (Dispose data) m
  | CRelease data => spec (Release data) m
  | CLookup data n => (Some (match tracked m data n 0 n with Some _ => true | None => false end), m)
  end.

Fixpoint spec_calls (os : list call) (m : leafmap) : list (option bool) :=
  match os with [] => [] | o :: os' => (spec_call o m).1 :: spec_calls os' (spec_call o m).2 end.

Section Heap.
Context (grants : nat -> Z -> bool).
Hypothesis host_limit : forall i size, grants i size = true -> size < 2 ^ 62.

Lemma exec_call_spec o h m : heap_inv h m -> gives grants (exec_call grants o h) (spec_call o m).1 (spec_call o m).2.
Proof using host_limit.
  intros Hinv. destruct o as [data n | data | data | data n]; cbn [exec_call spec_call].
  - apply (exec_spec grants host_limit (New data n) h m I Hinv).
  - apply (exec_spec grants host_limit (Dispose data) h m I Hinv).
  - apply (exec_spec grants host_limit (Release data) h m I Hinv).
  - destruct Hinv as (tm & Hst). left. exists h. split; [| by exists tm]. pose proof (proj2 Hst) as Ho.
    destruct (shadow_at_spec h tm m data (fun e => nleaves e =? n) 0 Hst) as (r & E & Er).
    rewrite (bind_ok _ _ _ _ _ E). unfold ret. do 3 f_equal. subst r. unfold tracked. cbn [fst].
    destruct (tm !! data) as [e|] eqn:Etm; [| by rewrite (owns_None _ _ _ _ _ _ Ho data Etm)].
    destruct (owns_lookup _ _ _ _ _ _ Ho data e Etm) as (b & bs & Hb & Hbs & Hl & Hm & _). rewrite Hm, Hl, Hb.
    destruct (released e); [done |]. cbn [negb andb Z.leb Z.compare]. rewrite Z.sub_diag.
    destruct (Z.eqb_spec (nleaves e) n); [| done]. destruct (Z.leb_spec 0 n); [done | lia].
Qed.

Definition abort_msg : err := RtAbort "runtime error: INITCK heap state allocation failed".

Lemma sequential_spec os : forall h m outs h', heap_inv h m -> sequential (heap_body grants) os h = Ok (outs, h') ->
  outs = spec_calls os m /\ exists m', heap_inv h' m'.
Proof using host_limit.
  induction os as [|o os IH]; intros h m outs h' Hinv Hs; cbn [sequential spec_calls] in *; [injection Hs as <- <-; eauto |].
  unfold heap_body at 1 in Hs. destruct (exec_call_spec o h m Hinv) as [(h1 & E1 & Hinv') | [E1 _]]; rewrite E1 in Hs; [| done]. cbn in Hs.
  destruct (sequential (heap_body grants) os h1) as [[x s2] |] eqn:E; [| done]. injection Hs as <- <-.
  destruct (IH h1 _ x s2 Hinv' E) as [-> Hm]. done.
Qed.

(** A call fails only by being aborted, when the host refuses memory. *)
Lemma heap_fails e : fails (heap_body grants) heap0 e -> e = abort_msg /\ exists i size, grants i size = false.
Proof using host_limit.
  intros (os & x & h & o & Hs & He). destruct (sequential_spec os heap0 ∅ x h heap0_inv Hs) as [_ [m Hm]].
  unfold heap_body in He. destruct (exec_call_spec o h m Hm) as [(h1 & E1 & _) | [E1 Hg]]; [congruence |]. split; [unfold abort_msg; congruence | done].
Qed.

(** C17: However the threads of a program interleave, at most one is between [lock] and
    [unlock], and the answers of the calls that are complete are those of a finite
    map from addresses to leaves, taken in the order in which the calls got the
    lock; this order keeps the order of the calls of each thread. *)
Theorem heap_calls_linearize progs sched :
  let c := run (heap_body grants) sched (start heap0 progs) in
  (forall i j a b, threads c !! i = Some a -> threads c !! j = Some b ->
     holds_lock a = true -> holds_lock b = true -> i = j) /\
  (forall i p, progs !! i = Some p -> calls_of i (log c) `prefix_of` p) /\
  outs (log c) = spec_calls (calls (log c)) ∅.
Proof using host_limit.
  intros c. assert (inv (heap_body grants) heap0 progs c) as Hinv by apply inv_run, inv_at_start.
  split; [apply (i_excl _ _ _ _ Hinv) |]. split.
  - intros i p Hp. pose proof (i_prog _ _ _ _ Hinv i) as Hi. destruct (threads c !! i); [| congruence].
    rewrite Hp in Hi. injection Hi as ->. by eexists.
  - by apply (sequential_spec _ heap0 ∅ _ _ heap0_inv (i_seq _ _ _ _ Hinv)).
Qed.

(** C18: No call waits for the lock for ever, and none runs for ever inside: when every
    thread runs again and again (in [4] rounds per call, each with every thread at least
    once, in any order), all calls of all threads have returned and the lock is free, or
    the host refused memory and the process was ended by the message for it. *)
Theorem heap_calls_return progs rounds :
  Forall (round (length progs)) rounds -> (4 * sum_list (map length progs) <= length rounds)%nat ->
  let c := run (heap_body grants) (concat rounds) (start heap0 progs) in
  (ended c = None /\ flag c = false /\ forall i p, progs !! i = Some p -> calls_of i (log c) = p) \/
  (ended c = Some abort_msg /\ exists i size, grants i size = false).
Proof using host_limit.
  intros Hr Hlen c. pose proof (inv_at_start (heap_body grants) heap0 progs) as H0.
  assert (inv (heap_body grants) heap0 progs c) as Hinv by (by apply inv_run).
  assert (left_over c = O) as Hw.
  { apply (rounds_finish (heap_body grants) heap0 progs); [done | |].
    - cbn [start threads]. by rewrite length_map.
    - unfold left_over. cbn [start threads ended]. by rewrite work_start. }
  unfold left_over in Hw. destruct (ended c) as [e |] eqn:Ee.
  { right. destruct (heap_fails e (i_end _ _ _ _ Hinv e Ee)) as [-> Hg]. done. }
  left. split; [done |]. split.
  - destruct (flag c) eqn:Ef; [| done]. destruct (i_held _ _ _ _ Hinv Ef) as (i & a & Hi & Hh).
    destruct (work_done _ _ _ _ _ _ Hinv Hw Hi) as [_ E]. unfold holds_lock in Hh. by rewrite E in Hh.
  - intros i p Hp. pose proof (i_prog _ _ _ _ Hinv i) as Hi. destruct (threads c !! i) as [a|] eqn:E; [| congruence].
    destruct (work_done _ _ _ _ _ _ Hinv Hw E) as [Et _]. rewrite Et, app_nil_r in Hi. congruence.
Qed.
End Heap.

(** Two threads on the same two addresses. *)
Definition demo_progs : list (list call) := [[CNew 16 2; CLookup 16 2; CDispose 16]; [CNew 32 1; CRelease 32; CLookup 32 1]].

Lemma roomy_limit i size : roomy i size = true -> size < 2 ^ 62.
Proof. apply Z.ltb_lt. Qed.

Lemma heap_calls_linearize_witness :
  let c := run (heap_body roomy) (concat (replicate 24 [1; 0; 1]%nat)) (start heap0 demo_progs) in
  outs (log c) = spec_calls (calls (log c)) ∅ /\ length (log c) = 6%nat.
Proof.
  intros c. split; [| vm_compute; reflexivity].
  exact (proj2 (proj2 (heap_calls_linearize roomy roomy_limit demo_progs (concat (replicate 24 [1; 0; 1]%nat))))).
Defined.

Lemma heap_calls_return_witness :
  let c := run (heap_body roomy) (concat (replicate 24 [1; 0; 1]%nat)) (start heap0 demo_progs) in
  flag c = false /\ calls_of 0 (log c) = [CNew 16 2; CLookup 16 2; CDispose 16].
Proof.
  destruct (heap_calls_return roomy roomy_limit demo_progs (replicate 24 [1; 0; 1]%nat)) as [(_ & Hf & Hc) | [He _]].
  - apply Forall_replicate. intros i Hi. cbn in Hi. destruct i as [|[|i]]; [right; left; reflexivity | left; reflexivity | lia].
  - vm_compute. lia.
  - split; [exact Hf | apply (Hc 0%nat); reflexivity].
  - vm_compute in He. discriminate.
Defined.

(** A host without memory: one thread aborts, and the other's calls stay where they are. *)
Example no_memory_aborts : let c := run (heap_body (fun _ _ => false)) (concat (replicate 24 [0; 1]%nat)) (start heap0 demo_progs) in
  ended c = Some abort_msg /\ log c = [].
Proof. vm_compute. done. Qed.
