(* ===== verification/Files.v ===== *)
(** fileops.c of runtime/: Pascal files. A world holds the disk, the streams of the
    C library and the file control blocks (FCBs) of the program; every operation
    of the code is a function on it. The formatted readers are in [Readers]. *)

From Stdlib Require Import ZArith Ascii String Lia.
From stdpp Require Import base list strings gmap numbers.
From S2P Require Import Prelude.
#[local] Open Scope Z_scope.

(** * Streams of the C library *)

(** Bytes are their codes; [EOF] is the [int] that is none. *)
Definition EOF : Z := -1.

(** A stream: the file it is open on, its position, the characters pushed back, and
    its end-of-file and error indicators. *)
Record stream := mkStream { s_ino : nat; s_pos : nat; s_back : list Z; s_eof : bool; s_err : bool }.

(** What the host allows. [pushback] is the number of characters [ungetc] can push
    back; C promises one. *)
Record host := mkHost {
  openable : list Z -> bool;
  creatable : list Z -> bool;
  tmp_ok : bool;
  read_ok : nat -> nat -> bool;
  write_ok : nat -> nat -> bool;
  flush_ok : nat -> bool;
  pushback : nat
}.

(** ** File control blocks *)

Definition MODE_CLOSED : Z := 0.
Definition MODE_READ : Z := 1.
Definition MODE_WRITE : Z := 2.
Definition MODE_BITS : Z := 3.
Definition MODE_EOF : Z := 4.
Definition MODE_STD : Z := 8.
Definition MODE_PENDING : Z := 16.
Definition MODE_EOLN : Z := 32.
Definition MODE_OWNS_HANDLE : Z := 64.
Definition MODE_TEMP : Z := 128.
Definition STRUCT_BINARY : Z := 0.
Definition STRUCT_TEXT : Z := 1.

(** [struct pas_file_fcb]. The buffer and the INITCK bytes belong to the FCB; a handle
    is the number of a stream. *)
Record fcb := mkFcb {
  elem_size_ : Z;
  structure : Z;
  touched : bool;
  mode : Z;
  buffer : option (list Z);
  handle : option nat;
  name : option (list Z);
  trap : Z;
  errs : Z;
  initck_state : option (list Z);
  initck_n : Z
}.

Definition set_touched (b : bool) (f : fcb) : fcb :=
  mkFcb (elem_size_ f) (structure f) b (mode f) (buffer f) (handle f) (name f) (trap f) (errs f) (initck_state f) (initck_n f).
Definition set_mode (m : Z) (f : fcb) : fcb :=
  mkFcb (elem_size_ f) (structure f) (touched f) m (buffer f) (handle f) (name f) (trap f) (errs f) (initck_state f) (initck_n f).
Definition set_buffer (b : option (list Z)) (f : fcb) : fcb :=
  mkFcb (elem_size_ f) (structure f) (touched f) (mode f) b (handle f) (name f) (trap f) (errs f) (initck_state f) (initck_n f).
Definition set_handle (h : option nat) (f : fcb) : fcb :=
  mkFcb (elem_size_ f) (structure f) (touched f) (mode f) (buffer f) h (name f) (trap f) (errs f) (initck_state f) (initck_n f).
Definition set_name (n : option (list Z)) (f : fcb) : fcb :=
  mkFcb (elem_size_ f) (structure f) (touched f) (mode f) (buffer f) (handle f) n (trap f) (errs f) (initck_state f) (initck_n f).
Definition set_errs (e : Z) (f : fcb) : fcb :=
  mkFcb (elem_size_ f) (structure f) (touched f) (mode f) (buffer f) (handle f) (name f) (trap f) e (initck_state f) (initck_n f).
Definition set_initck (s : option (list Z)) (f : fcb) : fcb :=
  mkFcb (elem_size_ f) (structure f) (touched f) (mode f) (buffer f) (handle f) (name f) (trap f) (errs f) s (initck_n f).

(** * The world *)

Record world := mkWorld {
  inodes : gmap nat (list Z);
  dir : gmap (list Z) nat;
  streams : gmap nat stream;
  fcbs : gmap nat fcb;
  std_input_fcb : option nat;
  fresh_id : nat
}.

Definition put_inode (i : nat) (c : list Z) (w : world) : world :=
  mkWorld (<[i := c]> (inodes w)) (dir w) (streams w) (fcbs w) (std_input_fcb w) (fresh_id w).
Definition put_stream (h : nat) (s : stream) (w : world) : world :=
  mkWorld (inodes w) (dir w) (<[h := s]> (streams w)) (fcbs w) (std_input_fcb w) (fresh_id w).
Definition put_fcb (f : nat) (fc : fcb) (w : world) : world :=
  mkWorld (inodes w) (dir w) (streams w) (<[f := fc]> (fcbs w)) (std_input_fcb w) (fresh_id w).

(** [stdin] and [stdout] are the streams [0] and [1]. *)
Definition stdin : nat := 0.
Definition stdout : nat := 1.

Definition die {A} (msg : string) : ST world A := fail (RtAbort msg).
Definition undef {A} (msg : string) : ST world A := fail (Undef msg).

Definition stream_of (h : nat) : ST world stream := fun w =>
  match streams w !! h with Some s => Ok (s, w) | None => Err (Undef "stream that is not open") end.
Definition content_of (i : nat) : ST world (list Z) := fun w =>
  Ok (default [] (inodes w !! i), w).

(** A pointer to an FCB; reading through NULL is undefined. *)
Definition deref (f : option nat) : ST world fcb := fun w =>
  match f with
  | None => Err (Undef "NULL file control block")
  | Some i => match fcbs w !! i with Some fc => Ok (fc, w) | None => Err (Undef "dangling file control block") end
  end.
Definition upd (f : option nat) (g : fcb -> fcb) : ST world unit :=
  let* fc := deref f in
  match f with Some i => modify (put_fcb i (g fc)) | None => undef "NULL file control block" end.

Section Code.
Context (H : host).

(** ** stdio *)

Definition fgetc (h : nat) : ST world Z :=
  let* s := stream_of h in
  match s_back s with
  | c :: b => do* modify (put_stream h (mkStream (s_ino s) (s_pos s) b (s_eof s) (s_err s))) in ret c
  | [] =>
      let* c := content_of (s_ino s) in
      if negb (read_ok H (s_ino s) (s_pos s))
      then do* modify (put_stream h (mkStream (s_ino s) (s_pos s) [] (s_eof s) true)) in ret EOF
      else
        match c !! s_pos s with
        | Some v => do* modify (put_stream h (mkStream (s_ino s) (S (s_pos s)) [] (s_eof s) (s_err s))) in ret v
        | None => do* modify (put_stream h (mkStream (s_ino s) (s_pos s) [] true (s_err s))) in ret EOF
        end
  end.

Definition ungetc (c : Z) (h : nat) : ST world unit :=
  let* s := stream_of h in
  if (length (s_back s) <? pushback H)%nat
  then modify (put_stream h (mkStream (s_ino s) (s_pos s) (uwrap 8 c :: s_back s) false (s_err s)))
  else ret tt.

Definition feof (h : nat) : ST world bool := let* s := stream_of h in ret (s_eof s).

(** [fread(buf, 1, n, h)]: the bytes it could read. *)
Fixpoint fread (n : nat) (h : nat) : ST world (list Z) :=
  match n with
  | O => ret []
  | S n' =>
      let* c := fgetc h in
      if c =? EOF then ret []
      else let* r := fread n' h in ret (c :: r)
  end.

(** One byte written at a position; a gap reads as zeros. *)
Definition put_byte (content : list Z) (pos : nat) (v : Z) : list Z :=
  take pos (content ++ replicate (pos - length content) 0) ++ [v] ++ drop (S pos) content.

(** [fwrite(buf, 1, n, h)]: how many bytes it could write. *)
Fixpoint fwrite (bs : list Z) (h : nat) : ST world nat :=
  match bs with
  | [] => ret O
  | v :: bs' =>
      let* s := stream_of h in
      let* c := content_of (s_ino s) in
      if negb (write_ok H (s_ino s) (s_pos s))
      then do* modify (put_stream h (mkStream (s_ino s) (s_pos s) [] (s_eof s) true)) in ret O
      else
        do* modify (put_inode (s_ino s) (put_byte c (s_pos s) v)) in
        do* modify (put_stream h (mkStream (s_ino s) (S (s_pos s)) [] (s_eof s) (s_err s))) in
        let* n := fwrite bs' h in ret (S n)
  end.

Definition fflush (h : nat) : ST world bool := let* _ := stream_of h in ret (flush_ok H h).

Definition rewind (h : nat) : ST world unit :=
  let* s := stream_of h in modify (put_stream h (mkStream (s_ino s) O [] false false)).

(** [fseek(h, -back, SEEK_END)]; fails before the start. *)
Definition fseek_end (h : nat) (back : nat) : ST world bool :=
  let* s := stream_of h in
  let* c := content_of (s_ino s) in
  if (length c <? back)%nat then ret false
  else do* modify (put_stream h (mkStream (s_ino s) (length c - back) [] false (s_err s))) in ret true.

Definition ftell (h : nat) : ST world Z :=
  let* s := stream_of h in ret (Z.of_nat (s_pos s) - Z.of_nat (length (s_back s))).

Definition fclose (h : nat) : ST world unit := fun w =>
  match streams w !! h with
  | Some _ => Ok (tt, mkWorld (inodes w) (dir w) (delete h (streams w)) (fcbs w) (std_input_fcb w) (fresh_id w))
  | None => Err (Undef "fclose of a stream that is not open")
  end.

(** The name as the C library sees it: up to the first NUL. *)
Fixpoint cstr (n : list Z) : list Z :=
  match n with [] => [] | c :: n' => if c =? 0 then [] else c :: cstr n' end.

Definition open_on (i : nat) : ST world nat := fun w =>
  Ok (fresh_id w, mkWorld (inodes w) (dir w) (<[fresh_id w := mkStream i O [] false false]> (streams w))
                          (fcbs w) (std_input_fcb w) (S (fresh_id w))).

(** [fopen(name, "r+b")]. *)
Definition fopen_rplus (n : list Z) : ST world (option nat) := fun w =>
  match dir w !! cstr n with
  | Some i => if openable H (cstr n) then (let* h := open_on i in ret (Some h)) w else Ok (None, w)
  | None => Ok (None, w)
  end.

(** [fopen(name, "w+b")]. *)
Definition fopen_wplus (n : list Z) : ST world (option nat) := fun w =>
  if negb (creatable H (cstr n)) then Ok (None, w)
  else
    match dir w !! cstr n with
    | Some i => (do* modify (put_inode i []) in let* h := open_on i in ret (Some h)) w
    | None =>
        let i := fresh_id w in
        let w' := mkWorld (<[i := []]> (inodes w)) (<[cstr n := i]> (dir w)) (streams w) (fcbs w) (std_input_fcb w) (S i) in
        (let* h := open_on i in ret (Some h)) w'
    end.

(** [pas_project_tmpfile()]: a new file without a name. *)
Definition pas_project_tmpfile : ST world (option nat) := fun w =>
  if negb (tmp_ok H) then Ok (None, w)
  else
    let i := fresh_id w in
    let w' := mkWorld (<[i := []]> (inodes w)) (dir w) (streams w) (fcbs w) (std_input_fcb w) (S i) in
    (let* h := open_on i in ret (Some h)) w'.

Definition remove (n : list Z) : ST world unit :=
  modify (fun w => mkWorld (inodes w) (delete (cstr n) (dir w)) (streams w) (fcbs w) (std_input_fcb w) (fresh_id w)).

(** * The operations of fileops.c *)

(** Whether the error was trapped. *)
Definition io_error (f : option nat) (code : Z) (msg : string) : ST world bool :=
  match f with
  | None => die msg
  | Some _ =>
      let* fc := deref f in
      if negb (trap fc =? 0) then do* upd f (set_errs code) in ret true else die msg
  end.

Definition elem_size (fc : fcb) : Z := if 0 <? elem_size_ fc then elem_size_ fc else 1.
Definition current_mode (fc : fcb) : Z := Z.land (mode fc) MODE_BITS.
Definition is_eof (fc : fcb) : bool := negb (Z.land (mode fc) MODE_EOF =? 0).
Definition is_pending (fc : fcb) : bool := negb (Z.land (mode fc) MODE_PENDING =? 0).
Definition is_eoln (fc : fcb) : bool := negb (Z.land (mode fc) MODE_EOLN =? 0).
Definition has (bit : Z) (fc : fcb) : bool := negb (Z.land (mode fc) bit =? 0).

Definition bit (b : bool) (m : Z) : Z := if b then m else 0.

(** [set_mode_flags] on the FCB itself. *)
Definition with_flags (m : Z) (eof eoln pending : bool) (fc : fcb) : fcb :=
  let keep := Z.land (mode fc) (Z.lor MODE_STD (Z.lor MODE_OWNS_HANDLE MODE_TEMP)) in
  let fc := set_mode (Z.lor keep (Z.lor m (Z.lor (bit eof MODE_EOF) (Z.lor (bit eoln MODE_EOLN) (bit pending MODE_PENDING))))) fc in
  match initck_state fc with
  | None => fc
  | Some _ =>
      set_initck (Some (replicate (Z.to_nat (initck_n fc)) (if (m =? MODE_READ) && negb eof && negb pending then 1 else 0))) fc
  end.
Definition set_mode_flags (f : option nat) (m : Z) (eof eoln pending : bool) : ST world unit :=
  upd f (with_flags m eof eoln pending).

Definition or_mode (b : Z) (fc : fcb) : fcb := set_mode (Z.lor (mode fc) b) fc.
Definition clear_mode (b : Z) (fc : fcb) : fcb := set_mode (Z.ldiff (mode fc) b) fc.

Definition ensure_handle (f : option nat) : ST world nat :=
  match f with
  | None => die "file runtime: null fcb"
  | Some _ =>
      let* fc := deref f in
      match handle fc with
      | Some h => ret h
      | None =>
          let* h :=
            match name fc with
            | Some n =>
                let* h := fopen_rplus n in
                match h with Some h => ret h | None => die "file runtime: open failed" end
            | None =>
                let* h := pas_project_tmpfile in
                match h with
                | Some h => do* upd f (or_mode MODE_TEMP) in ret h
                | None => die "file runtime: temporary file failed"
                end
            end in
          do* upd f (fun fc => or_mode MODE_OWNS_HANDLE (set_handle (Some h) fc)) in
          ret h
      end
  end.

Definition checked_buffer (f : option nat) : ST world unit :=
  match f with
  | None => die "file runtime: null buffer"
  | Some _ =>
      let* fc := deref f in
      match buffer fc with Some _ => ret tt | None => die "file runtime: null buffer" end
  end.

Definition CR : Z := 13.
Definition LF : Z := 10.
Definition BLANK : Z := 32.

Definition text_getc (h : nat) : ST world Z :=
  let* ch := fgetc h in
  if negb (ch =? CR) then ret ch
  else
    let* next := fgetc h in
    if next =? LF then ret LF
    else
      do* (if negb (next =? EOF) then ungetc next h else ret tt) in
      ret CR.

(** The first byte of the buffer is set. *)
Definition store_first (ch : Z) (fc : fcb) : fcb :=
  match buffer fc with Some (_ :: r) => set_buffer (Some (uwrap 8 ch :: r)) fc | _ => fc end.
(** The bytes that [fread] put in the buffer. *)
Definition store_bytes (bs : list Z) (fc : fcb) : fcb :=
  match buffer fc with Some b => set_buffer (Some (bs ++ drop (length bs) b)) fc | None => fc end.
(** The first byte of the buffer. *)
Definition first_byte (fc : fcb) : ST world Z :=
  match buffer fc with Some (c :: _) => ret c | _ => undef "read of an empty buffer" end.

Definition raw_get (f : option nat) (allow_eof : bool) : ST world unit :=
  let* h := ensure_handle f in
  do* checked_buffer f in
  let* fc := deref f in
  if negb (current_mode fc =? MODE_READ) then do* io_error f 2 "file runtime: GET requires RESET/read mode" in ret tt
  else if negb allow_eof && is_eof fc then do* io_error f 3 "file runtime: GET past eof" in ret tt
  else if structure fc =? STRUCT_TEXT then
    let* ch := text_getc h in
    let* at_end := (if ch =? EOF then feof h else ret false) in
    if (ch =? EOF) && at_end then
      do* set_mode_flags f MODE_READ true false false in
      upd f (set_touched false)
    else if ch =? EOF then
      do* io_error f 4 "file runtime: read failed" in
      set_mode_flags f MODE_READ true false false
    else
      let eoln := ch =? LF in
      do* upd f (store_first (if eoln then BLANK else ch)) in
      do* set_mode_flags f MODE_READ false eoln false in
      upd f (set_touched false)
  else
    let n := Z.to_nat (elem_size fc) in
    let* got := fread n h in
    do* upd f (store_bytes got) in
    if Nat.eqb (length got) n then
      do* set_mode_flags f MODE_READ false false false in
      upd f (set_touched false)
    else
      let* at_end := feof h in
      if at_end then
        do* set_mode_flags f MODE_READ true false false in
        upd f (set_touched false)
      else
        do* io_error f 4 "file runtime: read failed" in
        set_mode_flags f MODE_READ true false false.

Definition force_fill (f : option nat) : ST world unit :=
  match f with
  | None => ret tt
  | Some _ => let* fc := deref f in if is_pending fc then raw_get f true else ret tt
  end.

(** [!f || !f->buffer || current_mode(f) != MODE_READ] is false. *)
Definition reads_buffer (fc : fcb) : bool :=
  (match buffer fc with Some _ => true | None => false end) && (current_mode fc =? MODE_READ).

Definition fcb_next_char (f : option nat) (h : nat) : ST world Z :=
  match f with
  | None => fgetc h
  | Some _ =>
      let* fc := deref f in
      if negb (reads_buffer fc) then fgetc h
      else if is_eof fc then ret EOF
      else if negb (is_pending fc) then
        let* ch := first_byte fc in
        let ch := if (structure fc =? STRUCT_TEXT) && is_eoln fc then LF else ch in
        do* set_mode_flags f MODE_READ false false true in
        do* upd f (set_touched false) in
        ret ch
      else
        let* ch := (if structure fc =? STRUCT_TEXT then text_getc h else fgetc h) in
        do* (if ch =? EOF then set_mode_flags f MODE_READ true false false else ret tt) in
        ret ch
  end.

Definition fcb_unget_char (f : option nat) (h : nat) (ch : Z) : ST world unit :=
  if ch =? EOF then ret tt
  else
    match f with
    | None => ungetc ch h
    | Some _ =>
        let* fc := deref f in
        if negb (reads_buffer fc) then ungetc ch h
        else
          let eoln := (structure fc =? STRUCT_TEXT) && (ch =? LF) in
          do* upd f (store_first (if eoln then BLANK else ch)) in
          do* set_mode_flags f MODE_READ false eoln false in
          upd f (set_touched false)
    end.

Definition set_std_input (f : option nat) : ST world unit :=
  modify (fun w => mkWorld (inodes w) (dir w) (streams w) (fcbs w) f (fresh_id w)).

Definition pas_file_attach_std (in_ out : option nat) : ST world unit :=
  do* match in_ with
      | None => ret tt
      | Some _ =>
          let* fc := deref in_ in
          if has MODE_STD fc then ret tt
          else
            do* upd in_ (set_handle (Some stdin)) in
            do* set_mode_flags in_ MODE_READ false false true in
            do* upd in_ (or_mode MODE_STD) in
            set_std_input in_
      end in
  match out with
  | None => ret tt
  | Some _ =>
      let* fc := deref out in
      if has MODE_STD fc then ret tt
      else
        do* upd out (set_handle (Some stdout)) in
        do* set_mode_flags out MODE_WRITE true false false in
        upd out (or_mode MODE_STD)
  end.

Definition pas_std_input_sync : ST world unit :=
  let* w := get in
  match std_input_fcb w with
  | None => ret tt
  | Some _ as f =>
      let* fc := deref f in
      match has MODE_STD fc, handle fc, buffer fc with
      | true, Some h, Some _ =>
          if negb (current_mode fc =? MODE_READ) || is_eof fc || is_pending fc then ret tt
          else
            let* ch := first_byte fc in
            let ch := if is_eoln fc then LF else ch in
            do* ungetc ch h in
            do* set_mode_flags f MODE_READ false false true in
            upd f (set_touched false)
      | _, _, _ => ret tt
      end
  end.

(** The address of the buffer, as the FCB whose buffer it is. *)
Definition pas_file_buffer (f : option nat) : ST world (option nat) :=
  do* force_fill f in
  match f with
  | None => ret None
  | Some _ => let* fc := deref f in ret (match buffer fc with Some _ => f | None => None end)
  end.

Definition pas_file_touch_buffer (f : option nat) : ST world unit :=
  match f with None => ret tt | Some _ => upd f (set_touched true) end.

Definition pas_file_get (f : option nat) : ST world unit :=
  do* force_fill f in raw_get f false.

(** [RESET] from [FILE *h = ensure_handle(f)] on. *)
Definition reset_open (f : option nat) : ST world unit :=
  let* h := ensure_handle f in
  let* fc := deref f in
  let* ok := (if current_mode fc =? MODE_WRITE then fflush h else ret true) in
  if negb ok then die "file runtime: flush failed"
  else
    do* rewind h in
    set_mode_flags f MODE_READ false false true.

Definition pas_file_reset (f : option nat) : ST world unit :=
  match f with
  | None => die "file runtime: null fcb"
  | Some _ =>
      let* fc := deref f in
      match handle fc, name fc with
      | None, Some n =>
          let* h := fopen_rplus n in
          match h with
          | None => do* io_error f 10 "file runtime: open failed" in ret tt
          | Some h =>
              do* upd f (fun fc => or_mode MODE_OWNS_HANDLE (set_handle (Some h) fc)) in
              reset_open f
          end
      | _, _ => reset_open f
      end
  end.

Definition pas_file_rewrite (f : option nat) : ST world unit :=
  match f with
  | None => die "file runtime: null fcb"
  | Some _ =>
      let* fc := deref f in
      if has MODE_STD fc then
        let* ok := match handle fc with Some h => fflush h | None => ret true end in
        if negb ok then die "file runtime: flush failed"
        else set_mode_flags f MODE_WRITE true false false
      else
        do* match handle fc with
            | Some h => if has MODE_OWNS_HANDLE fc then fclose h else ret tt
            | None => ret tt
            end in
        do* upd f (fun fc => clear_mode MODE_OWNS_HANDLE (set_handle None fc)) in
        let opened h :=
          do* upd f (fun fc => or_mode MODE_OWNS_HANDLE (set_handle (Some h) fc)) in
          do* set_mode_flags f MODE_WRITE true false false in
          upd f (set_touched false) in
        match name fc with
        | Some n =>
            let* h := fopen_wplus n in
            match h with
            | None => do* io_error f 1 "file runtime: create failed" in ret tt
            | Some h => do* upd f (clear_mode MODE_TEMP) in opened h
            end
        | None =>
            let* h := pas_project_tmpfile in
            match h with
            | None => die "file runtime: temporary file failed"
            | Some h => do* upd f (or_mode MODE_TEMP) in opened h
            end
        end
  end.

Definition pas_file_put (f : option nat) : ST world unit :=
  let* h := ensure_handle f in
  do* checked_buffer f in
  let* fc := deref f in
  if negb (current_mode fc =? MODE_WRITE) then do* io_error f 2 "file runtime: PUT requires REWRITE/write mode" in ret tt
  else
    let n := Z.to_nat (if structure fc =? STRUCT_TEXT then 1 else elem_size fc) in
    let bs := match buffer fc with Some b => take n b | None => [] end in
    if negb (Nat.eqb (length bs) n) then undef "write from outside the buffer"
    else
      let* put := fwrite bs h in
      if negb (Nat.eqb put n) then do* io_error f 5 "file runtime: write failed" in ret tt
      else
        let* c := first_byte fc in
        do* set_mode_flags f MODE_WRITE true ((structure fc =? STRUCT_TEXT) && (c =? LF)) false in
        upd f (set_touched false).

Definition append_final_text_marker_if_needed (f : option nat) : ST world unit :=
  match f with
  | None => ret tt
  | Some _ =>
      let* fc := deref f in
      match handle fc with
      | None => ret tt
      | Some h =>
          if negb (structure fc =? STRUCT_TEXT) || negb (current_mode fc =? MODE_WRITE) || has MODE_STD fc then ret tt
          else
            let* ok := fflush h in
            if negb ok then die "file runtime: flush failed"
            else
              let* pos := ftell h in
              if pos <=? 0 then ret tt
              else
                let* ok := fseek_end h 1 in
                if negb ok then die "file runtime: seek failed"
                else
                  let* ch := fgetc h in
                  do* (if negb (ch =? LF) then
                         let* ok := fseek_end h 0 in
                         if negb ok then die "file runtime: seek failed"
                         else
                           let* put := fwrite [LF] h in
                           if Nat.eqb put 0 then die "file runtime: final line marker write failed" else ret tt
                       else ret tt) in
                  do* fflush h in ret tt
      end
  end.

Definition pas_file_close (f : option nat) : ST world unit :=
  match f with
  | None => die "file runtime: null fcb"
  | Some _ =>
      do* append_final_text_marker_if_needed f in
      let* fc := deref f in
      do* match handle fc with
          | Some h => if has MODE_OWNS_HANDLE fc then fclose h else ret tt
          | None => ret tt
          end in
      do* upd f (fun fc => clear_mode (Z.lor MODE_OWNS_HANDLE (Z.lor MODE_PENDING (Z.lor MODE_EOF MODE_EOLN)))
                                      (set_handle None fc)) in
      set_mode_flags f MODE_CLOSED false false false
  end.

Definition pas_file_discard (f : option nat) : ST world unit :=
  match f with
  | None => die "file runtime: null fcb"
  | Some _ =>
      let* fc := deref f in
      do* pas_file_close f in
      match name fc with Some n => remove n | None => ret tt end
  end.

(** [while (len > 0 && name[len - 1] == ' ') len--;] *)
Fixpoint trim_blanks (r : list Z) : list Z :=
  match r with c :: r' => if c =? BLANK then trim_blanks r' else r | [] => [] end.

(** The name and its length as the list of its [len] bytes; [None] for a NULL name or a
    negative length. *)
Definition assign_name_closed (f : option nat) (n : option (list Z)) : ST world unit :=
  match f with
  | None => die "file runtime: null fcb"
  | Some _ =>
      let* fc := deref f in
      if negb (current_mode fc =? MODE_CLOSED) || (match handle fc with Some _ => true | None => false end)
      then die "file runtime: ASSIGN on open file"
      else
        match n with
        | None => die "file runtime: bad ASSIGN name"
        | Some n =>
            match reverse (trim_blanks (reverse n)) with
            | [] => die "file runtime: empty filename in ASSIGN"
            | n =>
                do* upd f (fun fc => clear_mode MODE_TEMP (set_name None fc)) in
                if decide (n = [0]) then upd f (or_mode MODE_TEMP)
                else upd f (set_name (Some n))
            end
        end
  end.

Definition pas_file_assign (f : option nat) (n : option (list Z)) : ST world unit := assign_name_closed f n.

Definition pas_file_eof (f : option nat) : ST world bool :=
  match f with
  | None => die "file runtime: EOF null file"
  | Some _ =>
      do* force_fill f in
      let* fc := deref f in
      ret ((current_mode fc =? MODE_WRITE) || is_eof fc)
  end.

Definition pas_file_eoln (f : option nat) : ST world bool :=
  match f with
  | None => die "file runtime: EOLN null file"
  | Some _ =>
      do* force_fill f in
      let* e := pas_file_eof f in
      if e then die "file runtime: EOLN at eof"
      else
        let* fc := deref f in
        if negb (structure fc =? STRUCT_TEXT) then die "file runtime: EOLN requires TEXT file"
        else ret (is_eoln fc)
  end.

Definition stream_for (f : option nat) (writing : bool) : ST world nat :=
  match f with
  | None => ret (if writing then stdout else stdin)
  | Some _ =>
      let* fc := deref f in
      if writing then
        if current_mode fc =? MODE_READ then die "file runtime: WRITE requires REWRITE/write mode"
        else if current_mode fc =? MODE_CLOSED then die "file runtime: WRITE to closed file requires REWRITE"
        else ensure_handle f
      else
        if current_mode fc =? MODE_WRITE then die "file runtime: READ requires RESET/read mode"
        else
          do* (if current_mode fc =? MODE_CLOSED then pas_file_reset f else ret tt) in
          ensure_handle f
  end.

Definition require_text_read (f : option nat) : ST world unit :=
  match f with
  | None => die "file runtime: null fcb"
  | Some _ =>
      let* fc := deref f in
      if negb (structure fc =? STRUCT_TEXT) then die "file runtime: TEXT file required"
      else
        do* (if current_mode fc =? MODE_CLOSED then pas_file_reset f else ret tt) in
        let* fc := deref f in
        if negb (current_mode fc =? MODE_READ) then die "file runtime: read requires RESET/read mode" else ret tt
  end.

(** [pas_write_fmt]: the text is what [vfprintf] makes of its arguments; the result
    is the number of characters, or a negative number when a write fails. *)
Definition pas_write_fmt (f : option nat) (text : list Z) : ST world Z :=
  let* h := stream_for f true in
  let* n := fwrite text h in
  ret (if Nat.eqb n (length text) then Z.of_nat n else -1).

End Code.
