(* ===== verification/Readers.v ===== *)
(** The formatted readers of runtime/: readq.c on standard input and the readers of
    fileops.c on a file. Both take characters from a source, a pair of a function
    that gives the next one and a function that takes one back; the scanners are
    written, and proved correct, once for every source that behaves as a sequence. *)

From Stdlib Require Import ZArith Ascii String Lia.
From stdpp Require Import base list strings gmap numbers.
From S2P Require Import Prelude Files.
#[local] Open Scope Z_scope.

(** * Characters by their code *)

Definition is_space (c : Z) : bool := (c =? 32) || ((9 <=? c) && (c <=? 13)).
Definition is_digit (c : Z) : bool := (48 <=? c) && (c <=? 57).
Definition is_alpha (c : Z) : bool := ((65 <=? c) && (c <=? 90)) || ((97 <=? c) && (c <=? 122)).
Definition is_xdigit (c : Z) : bool := is_digit c || ((65 <=? c) && (c <=? 70)) || ((97 <=? c) && (c <=? 102)).
Definition to_upper (c : Z) : Z := if (97 <=? c) && (c <=? 122) then c - 32 else c.
Definition to_lower (c : Z) : Z := if (65 <=? c) && (c <=? 90) then c + 32 else c.

(** The value of a digit, in any base up to 16. *)
Definition digit_val (c : Z) : Z :=
  if is_digit c then c - 48 else if (97 <=? c) && (c <=? 102) then c - 87 else c - 55.
Definition num (base : Z) (ds : list Z) : Z := fold_left (fun v c => v * base + digit_val c) ds 0.

(** [strtoll(token, NULL, 10)] of a sign and digits: the value at 64 bits, and whether
    [errno] is [ERANGE]. *)
Definition strtoll (neg : bool) (ds : list Z) : Z * bool :=
  let v := if neg then - num 10 ds else num 10 ds in
  if v <? INT64_MIN then (INT64_MIN, true) else if INT64_MAX <? v then (INT64_MAX, true) else (v, false).
(** [strtoull(token, NULL, base)] of digits. *)
Definition strtoull (base : Z) (ds : list Z) : Z * bool :=
  let v := num base ds in if 2 ^ 64 <=? v then (2 ^ 64 - 1, true) else (v, false).

(** * Sources *)

Record source (S : Type) := mkSource { next : ST S Z; unget : Z -> ST S unit }.
Arguments next {S} _.
Arguments unget {S} _ _.

Section Scanners.
Context {S : Type} (src : source S).

(** [do ch = next(); while (ch != EOF && p(ch));] *)
Fixpoint skip_while (p : Z -> bool) (fuel : nat) : ST S Z :=
  match fuel with
  | O => fail OutOfFuel
  | Datatypes.S f =>
      let* ch := next src in
      if negb (ch =? EOF) && p ch then skip_while p f else ret ch
  end.

(** [skip_ws_except_nl], [fcb_skip_ws_except_nl]. *)
Definition skip_ws_except_nl (fuel : nat) : ST S Z := skip_while (fun c => is_space c && negb (c =? LF)) fuel.

(** ** Decimal integers *)

Inductive decimal := DecEof | DecMalformed | DecRange | DecValue (v : Z).

(** The do-while loop over the digits, [ch] the one at hand: the digits kept in
    [token], of which [room] are free, whether more came, and the character after
    them. *)
Fixpoint digits (fuel : nat) (room : nat) (tok : list Z) (over : bool) (ch : Z) : ST S (list Z * bool * Z) :=
  match fuel with
  | O => fail OutOfFuel
  | Datatypes.S f =>
      let '(tok, over) :=
        if (match tok with [] => true | _ => false end) && (ch =? 48) then (tok, over)
        else if (length tok <? room)%nat then (tok ++ [ch], over) else (tok, true) in
      let* ch := next src in
      if negb (ch =? EOF) && is_digit ch then digits f room tok over ch else ret (tok, over, ch)
  end.

Definition in_bits (bits v : Z) : bool :=
  if bits =? 32 then (INT32_MIN <=? v) && (v <=? INT32_MAX)
  else if bits =? 16 then (-32768 <=? v) && (v <=? 32767) else true.

(** What [read_wide_decimal] and [fread_wide_decimal] do with their characters. *)
Definition scan_decimal (fuel : nat) (bits : Z) : ST S decimal :=
  let* ch := skip_while is_space fuel in
  if ch =? EOF then ret DecEof
  else
    let signed := (ch =? 43) || (ch =? 45) in
    let* ch1 := (if signed then next src else ret ch) in
    if (ch1 =? EOF) || negb (is_digit ch1) then do* unget src ch1 in ret DecMalformed
    else
      let room := (if signed then 30 else 31)%nat in
      let* (tok, over, ch2) := digits fuel room [] false ch1 in
      do* unget src ch2 in
      let '(v, erange) := strtoll (ch =? 45) (match tok with [] => [48] | _ => tok end) in
      ret (if over || erange || negb (in_bits bits v) then DecRange else DecValue v).

(** ** Pointers *)

Inductive ptr_scan := PAS_PTR_SCAN_OK (v : Z) | PAS_PTR_SCAN_EOF | PAS_PTR_SCAN_MALFORMED | PAS_PTR_SCAN_RANGE.

Definition is_base_digit (ch base : Z) : bool :=
  if ch =? EOF then false
  else if base =? 16 then is_xdigit ch
  else if base =? 8 then (48 <=? ch) && (ch <=? 55)
  else is_digit ch.

(** [while (is_base_digit(ch, base)) ...]. *)
Fixpoint base_token (fuel : nat) (base : Z) (tok : list Z) (over : bool) (ch : Z) : ST S (list Z * bool * Z) :=
  match fuel with
  | O => fail OutOfFuel
  | Datatypes.S f =>
      if is_base_digit ch base then
        let '(tok, over) := if (length tok <? 31)%nat then (tok ++ [ch], over) else (tok, true) in
        let* ch := next src in
        base_token f base tok over ch
      else ret (tok, over, ch)
  end.

(** [while (ch == '0') { seen = 1; ch = next(src); }] *)
Fixpoint skip_zeros (fuel : nat) (seen : bool) (ch : Z) : ST S (bool * Z) :=
  match fuel with
  | O => fail OutOfFuel
  | Datatypes.S f => if ch =? 48 then let* ch := next src in skip_zeros f true ch else ret (seen, ch)
  end.

Definition pas_scan_ptr_token (fuel : nat) : ST S ptr_scan :=
  let* ch := skip_while is_space fuel in
  if ch =? EOF then ret PAS_PTR_SCAN_EOF
  else
    let negative := ch =? 45 in
    let* ch := (if (ch =? 43) || (ch =? 45) then next src else ret ch) in
    let* (seen, base, ch) :=
      (if ch =? 48 then
         let* ch := next src in
         if (ch =? 120) || (ch =? 88) then let* ch := next src in ret (true, 16, ch) else ret (true, 8, ch)
       else ret (false, 10, ch)) in
    let* (seen, ch) := skip_zeros fuel seen ch in
    let seen := seen || is_base_digit ch base in
    let* (tok, over, ch) := base_token fuel base [] false ch in
    do* unget src ch in
    if negb seen then ret PAS_PTR_SCAN_MALFORMED
    else
      let '(v, erange) := match tok with [] => (0, false) | _ => strtoull base tok end in
      if over || erange then ret PAS_PTR_SCAN_RANGE
      else ret (PAS_PTR_SCAN_OK (if negative then uwrap 64 (- v) else v)).

(** ** Words, strings and lines *)

(** The do-while loop over a name of at most 255 characters. *)
Fixpoint ident_token (fuel : nat) (tok : list Z) (ch : Z) : ST S (list Z * Z) :=
  match fuel with
  | O => fail OutOfFuel
  | Datatypes.S f =>
      let tok := if (Datatypes.S (length tok) <? 256)%nat then tok ++ [to_upper ch] else tok in
      let* ch := next src in
      if negb (ch =? EOF) && (is_alpha ch || is_digit ch) then ident_token f tok ch else ret (tok, ch)
  end.

(** The characters up to the line marker: those that fit, how many there were, and
    what ended them. *)
Fixpoint line_chars (fuel : nat) (cap : Z) (got : list Z) (n : Z) : ST S (list Z * Z * Z) :=
  match fuel with
  | O => fail OutOfFuel
  | Datatypes.S f =>
      let* ch := next src in
      if negb (ch =? EOF) && negb (ch =? LF)
      then line_chars f cap (if n <? cap then got ++ [ch] else got) (n + 1)
      else ret (got, n, ch)
  end.

(** [while (n < cap && (ch = next()) != EOF && ch != '\n')] with [room] places left;
    the last character, if one stopped the loop. *)
Fixpoint fixed_chars (room : nat) (got : list Z) : ST S (list Z * option Z) :=
  match room with
  | O => ret (got, None)
  | Datatypes.S r =>
      let* ch := next src in
      if negb (ch =? EOF) && negb (ch =? LF) then fixed_chars r (got ++ [ch]) else ret (got, Some ch)
  end.

(** READLN: the rest of the line and its marker. *)
Definition line_skip (fuel : nat) : ST S unit :=
  let* _ := skip_while (fun c => negb (c =? LF)) fuel in ret tt.

(** The members of a set, up to the capacity, before anything else. *)
Fixpoint member_chars (fuel : nat) (cap : Z) (member : Z -> bool) (got : list Z) (ch : Z) : ST S (list Z * Z) :=
  match fuel with
  | O => fail OutOfFuel
  | Datatypes.S f =>
      if negb (ch =? EOF) && negb (ch =? LF) && (Z.of_nat (length got) <? cap) && member ch
      then let* c := next src in member_chars f cap member (got ++ [ch]) c
      else ret (got, ch)
  end.

End Scanners.

(** [strcasecmp(a, b) == 0] of NUL-terminated strings. *)
Definition same_word (a b : list Z) : bool := bool_decide (map to_lower (cstr a) = map to_lower (cstr b)).

(** [for (int i = lo; i <= hi; i++)] over the names of an enumeration; an index that
    [names] does not have must not be read. *)
Fixpoint find_name (fuel : nat) (names : list (option (list Z))) (i hi : Z) (tok : list Z) : res (option Z) :=
  match fuel with
  | O => Ok None
  | S f =>
      if hi <? i then Ok None
      else if i <? 0 then Err (Undef "read outside the names")
      else match names !! Z.to_nat i with
           | None => Err (Undef "read outside the names")
           | Some (Some n) => if same_word tok n then Ok (Some i) else find_name f names (i + 1) hi tok
           | Some None => find_name f names (i + 1) hi tok
           end
  end.
Definition lookup_name (names : option (list (option (list Z)))) (lo hi : Z) (tok : list Z) : res (option Z) :=
  match names with None => Ok None | Some ns => find_name (Z.to_nat (hi - lo + 1)) ns lo hi tok end.

(** * Standard input: readq.c *)

Section Std.
Context (H : host).

Definition std_getchar : ST world Z := do* pas_std_input_sync H in fgetc H stdin.
Definition unread (ch : Z) : ST world unit := if ch =? EOF then ret tt else ungetc H ch stdin.
Definition std_source : source world := mkSource world std_getchar unread.

(** As many steps as a stream can make characters, and a few more. *)
Definition fuel_for (h : nat) : ST world nat :=
  let* s := stream_of h in
  let* c := content_of (s_ino s) in
  ret (4 + length (s_back s) + length c)%nat.

(** [die] of readq.c. *)
Definition qdie {A} (msg : string) : ST world A := die ("runtime error: " +:+ msg).

Definition read_wide_decimal (bits : Z) : ST world Z :=
  let* fuel := fuel_for stdin in
  let* r := scan_decimal std_source fuel bits in
  match r with
  | DecEof => qdie "unexpected EOF while reading integer"
  | DecMalformed => qdie "malformed integer input"
  | DecRange => qdie "integer out of range"
  | DecValue v => ret v
  end.

Definition pas_read_enum_ord (lo hi : Z) : ST world Z :=
  let* v := read_wide_decimal 64 in
  if (v <? lo) || (hi <? v) then qdie "enum value out of range" else ret (swrap 32 v).

Definition read_identifier_token : ST world (list Z) :=
  let* fuel := fuel_for stdin in
  let* ch := skip_ws_except_nl std_source fuel in
  if ch =? EOF then qdie "unexpected EOF while reading enum"
  else if negb (is_alpha ch) then do* unread ch in qdie "malformed enum input"
  else
    let* (tok, ch) := ident_token std_source fuel [] ch in
    do* unread ch in
    ret tok.

Definition pas_read_enum_name (names : option (list (option (list Z)))) (lo hi : Z) : ST world Z :=
  let* fuel := fuel_for stdin in
  let* ch := skip_ws_except_nl std_source fuel in
  if ch =? EOF then qdie "unexpected EOF while reading enum"
  else if is_digit ch || (ch =? 45) || (ch =? 43) then do* unread ch in pas_read_enum_ord lo hi
  else
    do* unread ch in
    let* tok := read_identifier_token in
    let* r := lift (lookup_name names lo hi tok) in
    match r with Some i => ret i | None => qdie "malformed enum input" end.

Definition pas_read_int16 : ST world Z := let* v := read_wide_decimal 16 in ret (swrap 16 v).
Definition pas_read_int32 : ST world Z := let* v := read_wide_decimal 32 in ret (swrap 32 v).
Definition pas_read_int64 : ST world Z := read_wide_decimal 64.
Definition pas_read_word : ST world Z :=
  let* v := read_wide_decimal 64 in
  if (v <? 0) || (65535 <? v) then qdie "word out of range" else ret (uwrap 16 v).

Definition pas_read_ptr : ST world Z :=
  let* fuel := fuel_for stdin in
  let* r := pas_scan_ptr_token std_source fuel in
  match r with
  | PAS_PTR_SCAN_EOF => qdie "unexpected EOF while reading pointer"
  | PAS_PTR_SCAN_MALFORMED => qdie "malformed pointer input"
  | PAS_PTR_SCAN_RANGE => qdie "pointer out of range"
  | PAS_PTR_SCAN_OK v => ret v
  end.

Definition pas_read_char : ST world Z :=
  let* ch := std_getchar in
  if ch =? EOF then qdie "unexpected EOF while reading char" else ret (if ch =? LF then BLANK else ch).

(** The bytes after the length, and the length byte. *)
Definition pas_read_lstring (cap : Z) : ST world (list Z * Z) :=
  let* fuel := fuel_for stdin in
  let* (got, n, ch) := line_chars std_source fuel cap [] 0 in
  if ch =? EOF then qdie "unexpected EOF while reading string"
  else
    do* (if ch =? LF then unread ch else ret tt) in
    let cap := if cap <? 0 then 0 else cap in
    ret (got, uwrap 8 (if n <? cap then n else cap)).

Definition pas_read_string (cap : Z) : ST world (list Z) :=
  let* (got, stop) := fixed_chars std_source (Z.to_nat cap) [] in
  do* match stop with
      | None => ret tt
      | Some ch => if ch =? EOF then qdie "unexpected EOF while reading string" else unread ch
      end in
  ret (got ++ replicate (Z.to_nat cap - length got) BLANK).

Definition pas_read_eof : ST world bool :=
  let* ch := std_getchar in
  if ch =? EOF then ret true else do* unread ch in ret false.

Definition pas_read_eoln : ST world bool :=
  let* ch := std_getchar in
  if ch =? EOF then qdie "EOLN at end of file" else do* unread ch in ret (ch =? LF).

Definition pas_readln_skip : ST world unit :=
  let* fuel := fuel_for stdin in line_skip std_source fuel.

(** * Files: the readers of fileops.c *)

Definition fcb_source (f : option nat) (h : nat) : source world := mkSource world (fcb_next_char H f h) (fcb_unget_char H f h).

(** A value, or a trapped error. *)
Definition trapped {A} (f : option nat) (msg : string) : ST world (option A) := do* io_error f 14 msg in ret None.

Definition fread_wide_decimal (f : option nat) (bits : Z) : ST world (option Z) :=
  let* h := stream_for H f false in
  let* fuel := fuel_for h in
  let* r := scan_decimal (fcb_source f h) fuel bits in
  match r with
  | DecEof => die "runtime error: unexpected EOF while reading integer"
  | DecMalformed => trapped f "runtime error: malformed integer input"
  | DecRange => trapped f "runtime error: integer out of range"
  | DecValue v => ret (Some v)
  end.

Definition pas_fread_int16 (f : option nat) : ST world (option Z) :=
  let* v := fread_wide_decimal f 16 in ret (option_map (swrap 16) v).
Definition pas_fread_int32 (f : option nat) : ST world (option Z) :=
  let* v := fread_wide_decimal f 32 in ret (option_map (swrap 32) v).
Definition pas_fread_int64 (f : option nat) : ST world (option Z) := fread_wide_decimal f 64.

Definition pas_fread_enum_ord (f : option nat) (lo hi : Z) : ST world (option Z) :=
  let* v := fread_wide_decimal f 64 in
  match v with
  | None => ret None
  | Some v => if (v <? lo) || (hi <? v) then trapped f "runtime error: enum value out of range" else ret (Some (swrap 32 v))
  end.

Definition pas_fread_word (f : option nat) : ST world (option Z) :=
  let* v := fread_wide_decimal f 64 in
  match v with
  | None => ret None
  | Some v => if (v <? 0) || (65535 <? v) then die "runtime error: word out of range" else ret (Some (uwrap 16 v))
  end.

Definition pas_fread_ptr (f : option nat) : ST world (option Z) :=
  let* h := stream_for H f false in
  let* fuel := fuel_for h in
  let* r := pas_scan_ptr_token (fcb_source f h) fuel in
  match r with
  | PAS_PTR_SCAN_EOF => die "runtime error: unexpected EOF while reading pointer"
  | PAS_PTR_SCAN_MALFORMED => trapped f "runtime error: malformed pointer input"
  | PAS_PTR_SCAN_RANGE => trapped f "runtime error: pointer out of range"
  | PAS_PTR_SCAN_OK v => ret (Some v)
  end.

Definition pas_fread_enum_name (f : option nat) (names : option (list (option (list Z)))) (lo hi : Z) : ST world (option Z) :=
  let* h := stream_for H f false in
  let* fuel := fuel_for h in
  let src := fcb_source f h in
  let* ch := skip_ws_except_nl src fuel in
  if ch =? EOF then die "runtime error: unexpected EOF while reading enum"
  else if is_digit ch || (ch =? 45) || (ch =? 43) then do* unget src ch in pas_fread_enum_ord f lo hi
  else if negb (is_alpha ch) then do* unget src ch in trapped f "runtime error: malformed enum input"
  else
    let* (tok, ch) := ident_token src fuel [] ch in
    do* unget src ch in
    let* r := lift (lookup_name names lo hi tok) in
    match r with Some i => ret (Some i) | None => trapped f "runtime error: malformed enum input" end.

Definition pas_fread_char (f : option nat) : ST world Z :=
  let* h := stream_for H f false in
  let* ch := fcb_next_char H f h in
  if ch =? EOF then die "runtime error: unexpected EOF while reading char" else ret (if ch =? LF then BLANK else ch).

Definition pas_fread_lstring (f : option nat) (cap : Z) : ST world (list Z * Z) :=
  let* h := stream_for H f false in
  let* fuel := fuel_for h in
  let* (got, n, ch) := line_chars (fcb_source f h) fuel cap [] 0 in
  if ch =? EOF then die "runtime error: unexpected EOF while reading string"
  else
    do* fcb_unget_char H f h ch in
    let cap := if cap <? 0 then 0 else cap in
    ret (got, uwrap 8 (if n <? cap then n else cap)).

Definition pas_fread_string (f : option nat) (cap : Z) : ST world (list Z) :=
  let* h := stream_for H f false in
  let* (got, stop) := fixed_chars (fcb_source f h) (Z.to_nat cap) [] in
  do* match stop with
      | None => ret tt
      | Some ch => if ch =? EOF then die "runtime error: unexpected EOF while reading string" else fcb_unget_char H f h ch
      end in
  ret (got ++ replicate (Z.to_nat cap - length got) BLANK).

Definition pas_freadln_skip (f : option nat) : ST world unit :=
  let* h := stream_for H f false in
  let* fuel := fuel_for h in line_skip (fcb_source f h) fuel.

Definition is_leading_skip (ch : Z) : bool := (ch =? 32) || (ch =? 9) || (ch =? 12) || (ch =? 10).

(** Membership in the four words of a set of characters. *)
Definition set_contains (set_words : list Z) (ch : Z) : bool :=
  if (ch <? 0) || (255 <? ch) then false
  else Z.testbit (default 0 (set_words !! Z.to_nat (ch / 64))) (ch `mod` 64).

Definition pas_freadset (f : option nat) (capacity : Z) (set_words : list Z) : ST world (list Z * Z) :=
  if capacity <? 0 then die "file runtime: bad READSET argument"
  else
    do* require_text_read H f in
    let* h := ensure_handle H f in
    let* fuel := fuel_for h in
    let src := fcb_source f h in
    let* ch := skip_while src is_leading_skip fuel in
    let* (got, ch) := member_chars src fuel capacity (set_contains set_words) [] ch in
    do* (if ch =? EOF then set_mode_flags f MODE_READ true false false else fcb_unget_char H f h ch) in
    ret (got, uwrap 8 (Z.of_nat (length got))).

Definition pas_fread_filename (f target : option nat) : ST world unit :=
  match target with
  | None => die "file runtime: null target fcb"
  | Some _ =>
      do* require_text_read H f in
      let* h := ensure_handle H f in
      let* fuel := fuel_for h in
      let src := fcb_source f h in
      let* ch := skip_while src is_leading_skip fuel in
      let* (got, ch) := member_chars src fuel 260 (fun c => negb (is_leading_skip c)) [] ch in
      do* (if ch =? EOF then set_mode_flags f MODE_READ true false false else fcb_unget_char H f h ch) in
      assign_name_closed target (Some got)
  end.

End Std.
