(* ===== verification/ReaderProps.v ===== *)
(** What the readers do: the scanners read exactly the numbers and words their text
    holds, on every source that behaves as a sequence of characters; standard input
    and files are such sources. *)

From Stdlib Require Import ZArith Ascii String Lia.
From stdpp Require Import base list strings gmap numbers.
From S2P Require Import Prelude Files Readers.
#[local] Open Scope Z_scope.

(** * The interface of a source *)

(** The character a scanner has at hand, with the characters from it on. *)
Definition at_char {S} (V P : S -> list Z -> Prop) (s : S) (ch : Z) (r : list Z) : Prop :=
  match r with [] => ch = EOF /\ V s [] | c :: r' => ch = c /\ 0 <= c < 256 /\ P s r' end.

(** A source behaves as a sequence: [V s r] when [r] is what is left to read, [P s r]
    when moreover the last character read can be taken back. *)
Class CharSource {S} (src : source S) (V P : S -> list Z -> Prop) : Prop := {
  src_next : forall s r, V s r -> exists ch s', next src s = Ok (ch, s') /\ at_char V P s' ch r;
  src_unget : forall s ch r, at_char V P s ch r -> exists s', unget src ch s = Ok (tt, s') /\ V s' r;
  src_room : forall s r, P s r -> V s r
}.

(** * Texts *)

Section Span.
Context (p : Z -> bool).
Fixpoint span_of (l : list Z) : list Z := match l with c :: l' => if p c then c :: span_of l' else [] | [] => [] end.
Fixpoint after (l : list Z) : list Z := match l with c :: l' => if p c then after l' else l | [] => [] end.
End Span.

Lemma span_after p l : span_of p l ++ after p l = l.
Proof. induction l as [|c l IH]; [done |]. simpl. destruct (p c); [| done]. simpl. by rewrite IH. Qed.

Lemma span_all p l : Forall (fun c => p c = true) (span_of p l).
Proof. induction l as [|c l IH]; simpl; [done |]. destruct (p c) eqn:E; by constructor. Qed.

Lemma after_stop p l : match after p l with c :: _ => p c = false | [] => True end.
Proof. induction l as [|c l IH]; simpl; [done |]. destruct (p c) eqn:E; done. Qed.

Lemma after_length p l : (length (after p l) <= length l)%nat.
Proof. induction l as [|c l IH]; simpl; [done |]. destruct (p c); simpl; lia. Qed.

(** ** Numbers *)

Lemma num_acc base ds v : fold_left (fun v c => v * base + digit_val c) ds v = v * base ^ Z.of_nat (length ds) + num base ds.
Proof.
  unfold num. revert v. induction ds as [|c ds IH]; intros v; [simpl; lia |].
  cbn [fold_left length]. rewrite IH, (IH (0 * base + _)), Nat2Z.inj_succ, Z.pow_succ_r by lia. lia.
Qed.

Lemma num_cons base c ds : num base (c :: ds) = digit_val c * base ^ Z.of_nat (length ds) + num base ds.
Proof. unfold num at 1. cbn [fold_left]. rewrite num_acc. lia. Qed.

Lemma num_nonneg base ds : 0 <= base -> Forall (fun c => 0 <= digit_val c) ds -> 0 <= num base ds.
Proof.
  intros Hb. induction 1 as [|c ds Hc _ IH]; [unfold num; simpl; lia |]. rewrite num_cons.
  pose proof (Z.pow_nonneg base (Z.of_nat (length ds)) Hb). nia.
Qed.

Lemma num_lower base c ds : 0 <= base -> Forall (fun c => 0 <= digit_val c) (c :: ds) -> 1 <= digit_val c ->
  base ^ Z.of_nat (length ds) <= num base (c :: ds).
Proof.
  intros Hb Hf Hc. apply Forall_cons_1 in Hf as [_ Hf]. rewrite num_cons. pose proof (num_nonneg base ds Hb Hf).
  pose proof (Z.pow_nonneg base (Z.of_nat (length ds)) Hb). nia.
Qed.

(** The digits without the zeros before them. *)
Definition significant : list Z -> list Z := after (fun c => c =? 48).

Lemma num_significant base ds : num base (significant ds) = num base ds.
Proof.
  unfold significant. induction ds as [|c ds IH]; [done |]. simpl. destruct (Z.eqb_spec c 48) as [-> | _]; [| done].
  rewrite IH, num_cons. replace (digit_val 48) with 0 by reflexivity. lia.
Qed.

(** The rule by which a token of [room] places takes digits. *)
Definition take_digit (room : nat) (st : list Z * bool) (ch : Z) : list Z * bool :=
  let (tok, over) := st in
  if (match tok with [] => true | _ => false end) && (ch =? 48) then (tok, over)
  else if (length tok <? room)%nat then (tok ++ [ch], over) else (tok, true).

Lemma take_digits_more room ds : forall tok over, tok <> [] -> (length tok <= room)%nat ->
  fold_left (take_digit room) ds (tok, over) = (take room (tok ++ ds), over || (room <? length tok + length ds)%nat).
Proof.
  induction ds as [|c ds IH]; intros tok over Hne Hl; cbn [fold_left length].
  - rewrite app_nil_r, take_ge, Nat.add_0_r by lia. destruct (Nat.ltb_spec room (length tok)); [lia |]. by rewrite orb_false_r.
  - unfold take_digit at 2. destruct tok as [|t tok]; [done |]. cbn [andb].
    destruct (Nat.ltb_spec (length (t :: tok)) room) as [Hlt | Hge].
    + rewrite IH; [| by destruct tok | rewrite length_app; simpl in *; lia]. rewrite <- app_assoc, length_app. cbn [app length] in *.
      f_equal. f_equal. f_equal. lia.
    + rewrite IH by done. cbn [length] in *. rewrite !take_app_le by (cbn; lia). f_equal.
      rewrite orb_true_l. symmetry. apply orb_true_intro. right. apply Nat.ltb_lt. lia.
Qed.

Lemma take_digits room ds : (0 < room)%nat ->
  fold_left (take_digit room) ds ([], false) = (take room (significant ds), (room <? length (significant ds))%nat).
Proof.
  intros Hr. unfold significant. induction ds as [|c ds IH]; cbn [fold_left after].
  - rewrite take_nil. by destruct room.
  - unfold take_digit at 2. cbn [andb]. destruct (c =? 48) eqn:E; [done |]. cbn [length].
    destruct (Nat.ltb_spec 0 room); [| lia]. cbn [app]. rewrite take_digits_more by (done || simpl; lia). done.
Qed.

(** ** What the scanners should read *)

Definition dec_fits (bits v : Z) : bool := fits64 v && in_bits bits v.

Definition decimal_spec (bits : Z) (r : list Z) : decimal * list Z :=
  match after is_space r with
  | [] => (DecEof, [])
  | c :: r1 =>
      let body := if (c =? 43) || (c =? 45) then r1 else c :: r1 in
      match span_of is_digit body with
      | [] => (DecMalformed, body)
      | ds =>
          let v := if c =? 45 then - num 10 ds else num 10 ds in
          (if dec_fits bits v then DecValue v else DecRange, after is_digit body)
      end
  end.

Lemma digit_val_dec c : is_digit c = true -> 0 <= digit_val c <= 9 /\ digit_val c = c - 48.
Proof. intros H. unfold digit_val. rewrite H. apply andb_true_iff in H as [?%Z.leb_le ?%Z.leb_le]. lia. Qed.

Lemma strtoll_spec (neg : bool) ds : let v := if neg then - num 10 ds else num 10 ds in
  (strtoll neg ds).2 = negb (fits64 v) /\ (fits64 v = true -> (strtoll neg ds).1 = v).
Proof.
  intros v. unfold strtoll. fold v. unfold fits64.
  destruct (Z.ltb_spec v INT64_MIN), (Z.leb_spec INT64_MIN v); try lia; [done |].
  destruct (Z.ltb_spec INT64_MAX v), (Z.leb_spec v INT64_MAX); try lia; done.
Qed.

(** Digits that do not fit in the token do not fit in 64 bits either. *)
Lemma overlong_digits room ds (neg : bool) : (30 <= room)%nat -> Forall (fun c => is_digit c = true) ds ->
  (room < length (significant ds))%nat -> fits64 (if neg then - num 10 ds else num 10 ds) = false.
Proof.
  intros Hr Hd Hl. rewrite <- num_significant.
  assert (Forall (fun c => is_digit c = true) (significant ds)) as Hd'.
  { rewrite <- (span_after (fun c => c =? 48) ds) in Hd. by apply Forall_app in Hd as [_ ?]. }
  pose proof (after_stop (fun c => c =? 48) ds) as Hz. fold (significant ds) in Hz.
  destruct (significant ds) as [|c l]; [simpl in Hl; lia |].
  assert (10 ^ Z.of_nat (length l) <= num 10 (c :: l)) as Hlow.
  { apply num_lower; [lia | |].
    - eapply Forall_impl; [| exact Hd']. intros x Hx%digit_val_dec. cbn. lia.
    - apply Forall_cons_1 in Hd' as [Hc%digit_val_dec _]. apply Z.eqb_neq in Hz. lia. }
  assert (10 ^ 30 <= 10 ^ Z.of_nat (length l)) by (apply Z.pow_le_mono_r; simpl in Hl; lia).
  assert (INT64_MAX < num 10 (c :: l)) by (unfold INT64_MAX; lia).
  unfold fits64, INT64_MIN, INT64_MAX in *. destruct neg.
  - destruct (Z.leb_spec (-9223372036854775808) (- num 10 (c :: l))); [lia | done].
  - rewrite andb_comm. destruct (Z.leb_spec (num 10 (c :: l)) 9223372036854775807); [lia | done].
Qed.

(** The verdict of the code on a token is the verdict on all the digits. *)
Lemma token_verdict bits (neg : bool) room ds : (30 <= room)%nat -> Forall (fun c => is_digit c = true) ds ->
  let st := fold_left (take_digit room) ds ([], false) in
  let v := if neg then - num 10 ds else num 10 ds in
  let '(x, erange) := strtoll neg (match st.1 with [] => [48] | _ => st.1 end) in
  (if st.2 || erange || negb (in_bits bits x) then DecRange else DecValue x)
  = (if dec_fits bits v then DecValue v else DecRange).
Proof.
  intros Hr Hd st v. unfold st. rewrite take_digits by lia. cbn [fst snd]. unfold dec_fits.
  destruct (Nat.ltb_spec room (length (significant ds))) as [Hlt | Hge].
  - unfold v. rewrite (overlong_digits room ds neg) by done. destruct (strtoll _ _). done.
  - rewrite take_ge by done.
    set (tok := match significant ds with [] => [48] | _ => significant ds end).
    assert (num 10 tok = num 10 ds) as En.
    { rewrite <- (num_significant 10 ds). unfold tok. by destruct (significant ds). }
    pose proof (strtoll_spec neg tok) as [H2 H1]. rewrite En in H1, H2. fold v in H1, H2.
    destruct (strtoll neg tok) as [x erange]. cbn [fst snd] in *. subst erange. cbn [orb].
    destruct (fits64 v); [| done]. rewrite H1 by done. by destruct (in_bits bits v).
Qed.

Lemma decimal_spec_range bits r v r' : decimal_spec bits r = (DecValue v, r') -> dec_fits bits v = true.
Proof.
  unfold decimal_spec. destruct (after is_space r) as [|c r1]; [done |].
  set (body := if _ || _ then r1 else _). destruct (span_of is_digit body) as [|d ds]; [done |].
  destruct (dec_fits bits _) eqn:E; [| done]. intros [= <- _]. done.
Qed.

Lemma dec_fits_swrap w v : w = 16 \/ w = 32 -> dec_fits w v = true -> swrap w v = v.
Proof.
  intros Hw H. apply swrap_small; [lia |]. unfold dec_fits, in_bits in H. apply andb_true_iff in H as [_ H].
  unfold in_srange. destruct Hw as [-> | ->]; cbn in H; apply andb_true_iff in H as [?%Z.leb_le ?%Z.leb_le];
    unfold INT32_MIN, INT32_MAX in *; cbn; lia.
Qed.

Lemma decimal_spec_64 bits r : bits <> 16 -> bits <> 32 -> decimal_spec bits r = decimal_spec 64 r.
Proof.
  intros H1 H2. unfold decimal_spec, dec_fits, in_bits. destruct (Z.eqb_spec bits 32), (Z.eqb_spec bits 16); try done.
Qed.

(** ** Pointers *)

Definition ptr_spec (r : list Z) : ptr_scan * list Z :=
  match after is_space r with
  | [] => (PAS_PTR_SCAN_EOF, [])
  | c :: r1 =>
      let body := if (c =? 43) || (c =? 45) then r1 else c :: r1 in
      let '(zero, base, text) :=
        match body with
        | d :: b1 =>
            if d =? 48 then
              match b1 with
              | x :: b2 => if (x =? 120) || (x =? 88) then (true, 16, b2) else (true, 8, b1)
              | [] => (true, 8, [])
              end
            else (false, 10, body)
        | [] => (false, 10, [])
        end in
      let ds := span_of (fun c => is_base_digit c base) text in
      let rest := after (fun c => is_base_digit c base) text in
      if negb zero && (match ds with [] => true | _ => false end) then (PAS_PTR_SCAN_MALFORMED, rest)
      else if 2 ^ 64 <=? num base ds then (PAS_PTR_SCAN_RANGE, rest)
      else (PAS_PTR_SCAN_OK (if c =? 45 then uwrap 64 (- num base ds) else num base ds), rest)
  end.

Definition take_any (room : nat) (st : list Z * bool) (ch : Z) : list Z * bool :=
  let (tok, over) := st in if (length tok <? room)%nat then (tok ++ [ch], over) else (tok, true).

Lemma take_anys room ds : forall tok over, (length tok <= room)%nat ->
  fold_left (take_any room) ds (tok, over) = (take room (tok ++ ds), over || (room <? length tok + length ds)%nat).
Proof.
  induction ds as [|c ds IH]; intros tok over Hl; cbn [fold_left length].
  - rewrite app_nil_r, take_ge, Nat.add_0_r by lia. destruct (Nat.ltb_spec room (length tok)); [lia |]. by rewrite orb_false_r.
  - unfold take_any at 2. destruct (Nat.ltb_spec (length tok) room) as [Hlt | Hge].
    + rewrite IH by (rewrite length_app; simpl; lia). rewrite <- app_assoc, length_app. cbn [app length]. do 3 f_equal. lia.
    + rewrite IH by done. rewrite !take_app_le by lia. f_equal.
      rewrite orb_true_l. symmetry. apply orb_true_intro. right. apply Nat.ltb_lt. lia.
Qed.

Lemma base_digit_val c base : is_base_digit c base = true -> 0 <= digit_val c /\ (c <> 48 -> 1 <= digit_val c).
Proof.
  unfold is_base_digit. destruct (c =? EOF); [done |].
  destruct (base =? 16); [| destruct (base =? 8)]; unfold is_xdigit, digit_val, is_digit; intros H.
  - destruct (Z.leb_spec 48 c), (Z.leb_spec c 57), (Z.leb_spec 65 c), (Z.leb_spec c 70), (Z.leb_spec 97 c), (Z.leb_spec c 102);
      cbn in *; try done; lia.
  - apply andb_true_iff in H as [H1%Z.leb_le H2%Z.leb_le]. destruct (Z.leb_spec 48 c), (Z.leb_spec c 57); cbn; lia.
  - apply andb_true_iff in H as [H1%Z.leb_le H2%Z.leb_le]. destruct (Z.leb_spec 48 c), (Z.leb_spec c 57); cbn; lia.
Qed.

Lemma is_base_zero base : is_base_digit 48 base = true.
Proof. unfold is_base_digit. cbn. by destruct (base =? 16), (base =? 8). Qed.

(** A token of more than [31] digits, the first of them not zero, is out of range. *)
Lemma overlong_ptr base ds : 8 <= base -> Forall (fun c => is_base_digit c base = true) ds ->
  match ds with c :: _ => c <> 48 | [] => True end -> (31 < length ds)%nat -> 2 ^ 64 <= num base ds.
Proof.
  intros Hb Hd Hz Hl. destruct ds as [|c l]; [simpl in Hl; lia |].
  assert (base ^ Z.of_nat (length l) <= num base (c :: l)).
  { apply num_lower; [lia | |].
    - eapply Forall_impl; [| exact Hd]. intros x Hx%base_digit_val. cbn. lia.
    - apply Forall_cons_1 in Hd as [Hc%base_digit_val _]. by apply Hc. }
  assert (base ^ 31 <= base ^ Z.of_nat (length l)) by (apply Z.pow_le_mono_r; simpl in Hl; lia).
  assert (8 ^ 31 <= base ^ 31) by (apply Z.pow_le_mono_l; lia). lia.
Qed.

Lemma span_zeros base l :
  span_of (fun c => is_base_digit c base) (after (fun c => c =? 48) l)
    = significant (span_of (fun c => is_base_digit c base) l) /\
  after (fun c => is_base_digit c base) (after (fun c => c =? 48) l) = after (fun c => is_base_digit c base) l.
Proof.
  induction l as [|c l IH]; [done |]. cbn [after span_of]. destruct (Z.eqb_spec c 48) as [-> | Hn].
  - rewrite is_base_zero. unfold significant. cbn [after]. done.
  - cbn [after span_of]. destruct (is_base_digit c base); [| done]. unfold significant. cbn [after].
    destruct (Z.eqb_spec c 48); done.
Qed.

(** ** Texts that were written *)

Lemma after_all p a l : Forall (fun c => p c = true) a -> after p (a ++ l) = after p l.
Proof. induction 1 as [|c a Hc _ IH]; [done |]. cbn. by rewrite Hc. Qed.

Lemma span_all_app p a l : Forall (fun c => p c = true) a -> match l with c :: _ => p c = false | [] => True end ->
  span_of p (a ++ l) = a /\ after p (a ++ l) = l.
Proof.
  intros Ha Hl. induction Ha as [|c a Hc _ [IH1 IH2]]; cbn.
  - destruct l as [|c l]; [done |]. cbn. by rewrite Hl.
  - rewrite Hc. by rewrite IH1, IH2.
Qed.

Lemma digit_not_space c : is_digit c = true -> is_space c = false /\ c <> 43 /\ c <> 45.
Proof.
  unfold is_digit, is_space. intros [?%Z.leb_le ?%Z.leb_le]%andb_true_iff.
  destruct (Z.eqb_spec c 32), (Z.leb_spec 9 c), (Z.leb_spec c 13); cbn; lia.
Qed.

(** A decimal number as text: a sign or none, and digits. *)
Definition number_text (neg plus : bool) (ds : list Z) : list Z :=
  (if neg then [45] else if plus then [43] else []) ++ ds.

Lemma decimal_spec_text bits sp neg plus d ds rest :
  Forall (fun c => is_space c = true) sp -> Forall (fun c => is_digit c = true) (d :: ds) ->
  match rest with c :: _ => is_digit c = false | [] => True end ->
  let v := if (neg : bool) then - num 10 (d :: ds) else num 10 (d :: ds) in
  decimal_spec bits (sp ++ number_text neg plus (d :: ds) ++ rest) = (if dec_fits bits v then DecValue v else DecRange, rest).
Proof.
  intros Hsp Hds Hrest v. unfold decimal_spec. rewrite after_all by done.
  destruct (span_all_app is_digit (d :: ds) rest Hds Hrest) as [E1 E2].
  pose proof (Forall_cons_1 _ _ _ Hds) as [Hd _]. destruct (digit_not_space d Hd) as (Hds1 & H43 & H45).
  unfold number_text. destruct neg; [| destruct plus].
  - cbn [app after]. change (is_space 45) with false. cbn match. cbn [Z.eqb Pos.eqb orb]. cbn [app] in E1, E2. rewrite E1, E2. done.
  - cbn [app after]. change (is_space 43) with false. cbn match. cbn [Z.eqb Pos.eqb orb]. cbn [app] in E1, E2. rewrite E1, E2. done.
  - cbn [app after]. rewrite Hds1. destruct (Z.eqb_spec d 43), (Z.eqb_spec d 45); try done. cbn [orb]. cbn [app] in E1, E2. rewrite E1, E2. done.
Qed.

(** ** Unsigned decimals, as WRITE prints them *)

Definition codes (b : bytes) : list Z := map code b.

Lemma base_aux_head fuel : forall n acc, 0 < n < 2 ^ Z.of_nat (S fuel) ->
  exists c l, base_aux 10 (S fuel) n acc = c :: l /\ c <> "0"%char.
Proof.
  induction fuel as [|f IH]; intros n acc Hn; cbn [base_aux].
  - assert (n = 1) as -> by (change (2 ^ Z.of_nat 1) with 2 in Hn; lia). by eexists _, _.
  - destruct (Z.eqb_spec (n / 10) 0) as [E | E].
    + eexists _, _. split; [done |]. intros Hz%(f_equal code). pose proof (Z.mod_pos_bound n 10 ltac:(lia)).
      rewrite code_digit_char in Hz by lia. change (code "0") with 48 in Hz. pose proof (Z.div_mod n 10 ltac:(lia)). lia.
    + apply (IH (n / 10)). rewrite Nat2Z.inj_succ, Z.pow_succ_r in Hn by lia.
      pose proof (Z.div_pos n 10 ltac:(lia) ltac:(lia)). split; [lia |]. apply Z.div_lt_upper_bound; lia.
Qed.

Lemma dec_bytes_first v : 0 < v -> exists c l, dec_bytes v = c :: l /\ c <> "0"%char.
Proof.
  intros Hv. unfold dec_bytes, base_digits. apply base_aux_head. split; [done |].
  rewrite Nat2Z.inj_succ, Z2Nat.id by apply Z.log2_nonneg. apply Z.log2_spec. lia.
Qed.

Lemma is_digit_code c : is_digit (code c) = isdigit c.
Proof. done. Qed.

Lemma codes_dec v : 0 <= v -> Forall (fun c => is_digit c = true) (codes (dec_bytes v)) /\ num 10 (codes (dec_bytes v)) = v.
Proof.
  intros Hv. pose proof (base_digits_digits 10 ltac:(lia) v Hv) as Hd. pose proof (base_digits_value 10 ltac:(lia) v Hv) as Hval.
  fold (dec_bytes v) in Hd, Hval. split.
  - apply Forall_map. eapply Forall_impl; [| exact Hd]. done.
  - rewrite <- Hval at 2. unfold num, base_value, codes.
    assert (forall a, fold_left (fun v c => v * 10 + digit_val c) (map code (dec_bytes v)) a
                      = fold_left (fun v c => v * 10 + (code c - code "0")) (dec_bytes v) a) as Hall; [| apply Hall].
    clear Hval. induction Hd as [|c l Hc _ IH]; intros a; [done |].
    cbn [map fold_left]. rewrite IH. f_equal. f_equal. by apply (digit_val_dec (code c)).
Qed.

(** Blanks, the decimal digits of [v], and something that is no letter or digit. *)
Lemma ptr_spec_written v k rest : 0 <= v < 2 ^ 64 ->
  match rest with c :: _ => is_digit c = false /\ is_alpha c = false | [] => True end ->
  ptr_spec (replicate k 32 ++ codes (dec_bytes v) ++ rest) = (PAS_PTR_SCAN_OK v, rest).
Proof.
  intros Hv Hrest. unfold ptr_spec. rewrite after_all by (by apply Forall_replicate).
  destruct (codes_dec v ltac:(lia)) as [Hd Hn].
  destruct (Z.eq_dec v 0) as [-> | Hz].
  - change (codes (dec_bytes 0)) with [48]. cbn [app after]. change (is_space 48) with false. cbn [Z.eqb Pos.eqb orb].
    destruct rest as [|x rest]; [done |]. destruct Hrest as [Hx Ha].
    destruct (Z.eqb_spec x 120) as [-> | _]; [done |]. destruct (Z.eqb_spec x 88) as [-> | _]; [done |]. cbn [orb].
    cbn [span_of after]. assert (is_base_digit x 8 = false) as ->; [| done].
    unfold is_base_digit. destruct (x =? EOF); [done |]. cbn. unfold is_digit in Hx.
    destruct (Z.leb_spec 48 x), (Z.leb_spec x 57), (Z.leb_spec x 55); cbn in *; try done; lia.
  - destruct (dec_bytes_first v ltac:(lia)) as (c & l & El & Hc). rewrite El in *. cbn [codes map app after] in *.
    pose proof (Forall_cons_1 _ _ _ Hd) as [Hdc _]. destruct (digit_not_space (code c) Hdc) as (Hs & H43 & H45). rewrite Hs.
    destruct (Z.eqb_spec (code c) 43), (Z.eqb_spec (code c) 45); try done. cbn [orb].
    destruct (Z.eqb_spec (code c) 48) as [E | _]; [exfalso; apply Hc, code_inj; exact E |].
    assert (forall x, 0 <= x -> is_base_digit x 10 = is_digit x) as Hb10.
    { intros x Hx. unfold is_base_digit. destruct (Z.eqb_spec x EOF); [unfold EOF in *; lia | done]. }
    destruct (span_all_app (fun x => is_base_digit x 10) (code c :: map code l) rest) as [E1 E2].
    + eapply Forall_impl; [| exact Hd]. intros x Hx. cbn in *. rewrite Hb10; [done |]. unfold is_digit in Hx. apply andb_true_iff in Hx as [?%Z.leb_le _]. lia.
    + destruct rest as [|x rest]; [done |]. destruct Hrest as [Hx _]. unfold is_base_digit. by destruct (x =? EOF).
    + cbn [app] in E1, E2. rewrite E1, E2. unfold codes in Hn. rewrite Hn. cbn [negb andb].
      destruct (Z.leb_spec (2 ^ 64) v); [lia | done].
Qed.

Section Generic.
Context {S : Type} (src : source S) (V P : S -> list Z -> Prop) {Hsrc : CharSource src V P}.

Lemma at_char_view s ch r : at_char V P s ch r -> match r with [] => V s [] | _ :: r' => V s r' end.
Proof using Hsrc. destruct r as [|c r]; [by intros [_ ?] | intros (_ & _ & HP); by apply src_room]. Qed.

Lemma skip_while_spec p fuel : forall s r, V s r -> (length r < fuel)%nat ->
  exists ch s', skip_while src p fuel s = Ok (ch, s') /\ at_char V P s' ch (after p r).
Proof using Hsrc.
  induction fuel as [|f IH]; intros s r Hv Hl; [lia |]. cbn [skip_while].
  destruct (src_next s r Hv) as (ch & s1 & En & Hat). rewrite (bind_ok _ _ _ _ _ En). destruct r as [|c r]; cbn [after].
  - destruct Hat as [-> Hv1]. exists EOF, s1. done.
  - destruct Hat as (-> & Hc & HP). destruct (Z.eqb_spec c EOF) as [E | _]; [unfold EOF in E; lia |]. cbn [negb andb].
    destruct (p c); [| by exists c, s1]. apply IH; [by apply src_room | simpl in Hl; lia].
Qed.

Lemma digits_spec room fuel : forall s ch r tok over, P s r -> is_digit ch = true -> (length r < fuel)%nat ->
  exists ch' s', digits src fuel room tok over ch s
    = Ok (fst (fold_left (take_digit room) (span_of is_digit (ch :: r)) (tok, over)),
          snd (fold_left (take_digit room) (span_of is_digit (ch :: r)) (tok, over)), ch', s') /\
    at_char V P s' ch' (after is_digit (ch :: r)).
Proof using Hsrc.
  induction fuel as [|f IH]; intros s ch r tok over HP Hd Hl; [lia |]. cbn [digits span_of after fold_left]. rewrite Hd.
  cbn [fold_left]. fold (take_digit room (tok, over) ch). destruct (take_digit room (tok, over) ch) as [tok' over'].
  destruct (src_next s r (src_room _ _ HP)) as (c1 & s1 & En & Hat). rewrite (bind_ok _ _ _ _ _ En).
  destruct r as [|c r]; cbn [span_of after].
  - destruct Hat as [-> Hv1]. exists EOF, s1. done.
  - destruct Hat as (-> & Hc & HP1). destruct (Z.eqb_spec c EOF) as [E | _]; [unfold EOF in E; lia |]. cbn [negb andb].
    destruct (is_digit c) eqn:Ed; [| by exists c, s1].
    destruct (IH s1 c r tok' over' HP1 Ed ltac:(simpl in Hl; lia)) as (ch' & s' & E & Hat'). cbn [span_of after] in E, Hat'. rewrite Ed in E, Hat'.
    exists ch', s'. done.
Qed.

(** Every text is read as [decimal_spec] says. *)
Lemma scan_decimal_spec s r fuel bits : V s r -> (length r < fuel)%nat ->
  exists s', scan_decimal src fuel bits s = Ok ((decimal_spec bits r).1, s') /\ V s' (decimal_spec bits r).2.
Proof using Hsrc.
  intros Hv Hl. unfold scan_decimal, decimal_spec.
  destruct (skip_while_spec is_space fuel s r Hv Hl) as (ch & s1 & E1 & Hat1). rewrite (bind_ok _ _ _ _ _ E1).
  pose proof (after_length is_space r) as Hal. destruct (after is_space r) as [|c r1]; cbn [length] in Hal.
  { destruct Hat1 as [-> Hv1]. by exists s1. }
  destruct Hat1 as (-> & Hc & HP1). destruct (Z.eqb_spec c EOF) as [E | _]; [unfold EOF in E; lia |].
  set (signed := (c =? 43) || (c =? 45)). set (body := if signed then r1 else c :: r1).
  assert (exists ch1 s2, (if signed then next src else ret c) s1 = Ok (ch1, s2) /\ at_char V P s2 ch1 body) as (ch1 & s2 & E2 & Hat2).
  { unfold body. destruct signed; [apply src_next; by apply src_room | by exists c, s1]. }
  rewrite (bind_ok _ _ _ _ _ E2).
  assert (length body <= 1 + length r1)%nat as Hbl by (unfold body; destruct signed; simpl; lia).
  assert (forall s' ch', at_char V P s' ch' body -> (ch' =? EOF) || negb (is_digit ch') = true -> span_of is_digit body = []) as Hbad.
  { intros s' ch' Hat Hb. destruct body as [|d body']; [done |]. destruct Hat as (-> & Hd & _). cbn [span_of].
    destruct (Z.eqb_spec d EOF) as [E | _]; [unfold EOF in E; lia |]. apply negb_true_iff in Hb. by rewrite Hb. }
  destruct ((ch1 =? EOF) || negb (is_digit ch1)) eqn:Em.
  { rewrite (Hbad s2 ch1 Hat2 Em). destruct (src_unget s2 ch1 body Hat2) as (s3 & E3 & Hv3). rewrite (bind_ok _ _ _ _ _ E3). by exists s3. }
  apply orb_false_iff in Em as [Hne Hd%negb_false_iff].
  destruct body as [|d body'] eqn:Eb; [destruct Hat2 as [-> _]; done |]. destruct Hat2 as (-> & Hdr & HP2).
  destruct (digits_spec (if signed then 30 else 31)%nat fuel s2 d body' [] false HP2 Hd ltac:(simpl in Hbl; lia)) as (ch2 & s3 & E3 & Hat3).
  rewrite (bind_ok _ _ _ _ _ E3). destruct (src_unget s3 ch2 _ Hat3) as (s4 & E4 & Hv4). rewrite (bind_ok _ _ _ _ _ E4).
  pose proof (token_verdict bits (c =? 45) (if signed then 30 else 31)%nat (span_of is_digit (d :: body'))
                ltac:(destruct signed; lia) (span_all _ _)) as Ht. cbv zeta in Ht.
  destruct (span_of is_digit (d :: body')) as [|d0 ds] eqn:Esp; [cbn in Esp; rewrite Hd in Esp; done |].
  destruct (strtoll _ _) as [x erange]. exists s4. split; [| done]. unfold ret. by rewrite Ht.
Qed.

Lemma skip_zeros_spec fuel : forall s ch r seen, at_char V P s ch r -> (length r < fuel)%nat ->
  exists ch' s', skip_zeros src fuel seen ch s
    = Ok (seen || (match r with c :: _ => c =? 48 | [] => false end), ch', s') /\ at_char V P s' ch' (after (fun c => c =? 48) r).
Proof using Hsrc.
  induction fuel as [|f IH]; intros s ch r seen Hat Hl; [lia |]. cbn [skip_zeros]. destruct r as [|c r]; cbn [after].
  - pose proof Hat as [-> Hv]. exists EOF, s. rewrite orb_false_r. done.
  - pose proof Hat as (-> & Hc & HP). destruct (Z.eqb_spec c 48) as [-> | Hn]; [| exists c, s; by rewrite orb_false_r].
    destruct (src_next s r (src_room _ _ HP)) as (c1 & s1 & En & Hat1). rewrite (bind_ok _ _ _ _ _ En).
    destruct (IH s1 c1 r true Hat1 ltac:(simpl in Hl; lia)) as (ch' & s' & E & Hat'). exists ch', s'. rewrite orb_true_r. done.
Qed.

Lemma base_token_spec base fuel : forall s ch r tok over, at_char V P s ch r -> (length r < fuel)%nat ->
  exists ch' s', base_token src fuel base tok over ch s
    = Ok (fold_left (take_any 31) (span_of (fun c => is_base_digit c base) r) (tok, over), ch', s') /\
    at_char V P s' ch' (after (fun c => is_base_digit c base) r).
Proof using Hsrc.
  induction fuel as [|f IH]; intros s ch r tok over Hat Hl; [lia |]. cbn [base_token]. destruct r as [|c r]; cbn [after span_of].
  - pose proof Hat as [-> Hv]. exists EOF, s. done.
  - pose proof Hat as (-> & Hc & HP). destruct (is_base_digit c base) eqn:Ed; [| by exists c, s].
    cbn [fold_left]. fold (take_any 31 (tok, over) c). destruct (take_any 31 (tok, over) c) as [tok' over'].
    destruct (src_next s r (src_room _ _ HP)) as (c1 & s1 & En & Hat1). rewrite (bind_ok _ _ _ _ _ En).
    apply IH; [done | simpl in Hl; lia].
Qed.

Lemma scan_ptr_spec s r fuel : V s r -> (length r < fuel)%nat ->
  exists s', pas_scan_ptr_token src fuel s = Ok ((ptr_spec r).1, s') /\ V s' (ptr_spec r).2.
Proof using Hsrc.
  intros Hv Hl. unfold pas_scan_ptr_token, ptr_spec.
  destruct (skip_while_spec is_space fuel s r Hv Hl) as (ch & s1 & E1 & Hat1). rewrite (bind_ok _ _ _ _ _ E1).
  pose proof (after_length is_space r) as Hal. destruct (after is_space r) as [|c r1]; cbn [length] in Hal.
  { destruct Hat1 as [-> Hv1]. by exists s1. }
  destruct Hat1 as (-> & Hc & HP1). destruct (Z.eqb_spec c EOF) as [E | _]; [unfold EOF in E; lia |].
  set (signed := (c =? 43) || (c =? 45)). set (body := if signed then r1 else c :: r1).
  assert (exists ch1 s2, (if signed then next src else ret c) s1 = Ok (ch1, s2) /\ at_char V P s2 ch1 body) as (ch1 & s2 & E2 & Hat2).
  { unfold body. destruct signed; [apply src_next; by apply src_room | by exists c, s1]. }
  rewrite (bind_ok _ _ _ _ _ E2).
  assert (length body <= 1 + length r1)%nat as Hbl by (unfold body; destruct signed; simpl; lia). clearbody body.
  set (pre := match body with d :: b1 => if d =? 48 then match b1 with x :: b2 => if (x =? 120) || (x =? 88) then (true, 16, b2) else (true, 8, b1) | [] => (true, 8, []) end else (false, 10, body) | [] => (false, 10, []) end).
  assert (exists ch2 s3, (if ch1 =? 48 then let* ch := next src in
            if (ch =? 120) || (ch =? 88) then let* ch := next src in ret (true, 16, ch) else ret (true, 8, ch)
            else ret (false, 10, ch1)) s2 = Ok (pre.1.1, pre.1.2, ch2, s3) /\ at_char V P s3 ch2 pre.2 /\
          (length pre.2 <= length body)%nat /\ 8 <= pre.1.2) as (ch2 & s3 & E3 & Hat3 & Hpl & Hpb).
  { unfold pre. destruct body as [|d b1].
    - pose proof Hat2 as [-> _]. exists EOF, s2. split; [done |]. split; [done |]. simpl. lia.
    - pose proof Hat2 as (-> & Hd & HP2). destruct (d =? 48); [| exists d, s2; split; [done |]; split; [done |]; simpl; lia].
      destruct (src_next s2 b1 (src_room _ _ HP2)) as (c3 & s3 & En & Hat3). rewrite (bind_ok _ _ _ _ _ En).
      destruct b1 as [|x b2].
      + pose proof Hat3 as [-> _]. exists EOF, s3. split; [done |]. split; [done |]. simpl. lia.
      + pose proof Hat3 as (-> & Hx & HP3). destruct ((x =? 120) || (x =? 88)).
        * destruct (src_next s3 b2 (src_room _ _ HP3)) as (c4 & s4 & En4 & Hat4). rewrite (bind_ok _ _ _ _ _ En4).
          exists c4, s4. split; [done |]. split; [done |]. simpl. lia.
        * exists x, s3. split; [done |]. split; [done |]. simpl. lia. }
  rewrite (bind_ok _ _ _ _ _ E3). destruct pre as [[zero base] text]. cbn [fst snd] in *.
  destruct (skip_zeros_spec fuel s3 ch2 text zero Hat3 ltac:(lia)) as (ch3 & s4 & E4 & Hat4). rewrite (bind_ok _ _ _ _ _ E4).
  pose proof (after_length (fun c => c =? 48) text) as Hal4.
  destruct (base_token_spec base fuel s4 ch3 _ [] false Hat4 ltac:(lia)) as (ch4 & s5 & E5 & Hat5). rewrite (bind_ok _ _ _ _ _ E5).
  destruct (span_zeros base text) as [Hsp Hafter]. rewrite Hsp in *. rewrite Hafter in Hat5.
  destruct (src_unget s5 ch4 _ Hat5) as (s6 & E6 & Hv6).
  set (ds := span_of (fun c => is_base_digit c base) text) in *. set (rest := after (fun c => is_base_digit c base) text) in *.
  rewrite take_anys by (simpl; lia). rewrite (bind_ok _ _ _ _ _ E6). exists s6. cbn [app length Nat.add].
  set (seen := (zero || (match text with c :: _ => c =? 48 | [] => false end)) || is_base_digit ch3 base).
  assert (seen = negb (negb zero && (match ds with [] => true | _ => false end))) as ->.
  { unfold seen, ds. destruct zero; [done |]. cbn [orb negb andb]. destruct text as [|x text']; cbn [span_of after].
    - pose proof Hat4 as [-> _]. done.
    - destruct (Z.eqb_spec x 48) as [-> | Hx]; [by rewrite is_base_zero |]. cbn [after] in Hat4.
      destruct (Z.eqb_spec x 48); [done |]. pose proof Hat4 as (-> & _). by destruct (is_base_digit x base). }
  rewrite negb_involutive. destruct (negb zero && _); [done |].
  destruct (Nat.ltb_spec 31 (length (significant ds))) as [Hlt | Hge]; cbn [orb].
  - assert (2 ^ 64 <= num base ds) as Hbig.
    { rewrite <- num_significant. apply overlong_ptr; [done | | | done].
      - pose proof (span_all (fun c => is_base_digit c base) text) as Ha. fold ds in Ha.
        rewrite <- (span_after (fun c => c =? 48) ds) in Ha. by apply Forall_app in Ha as [_ ?].
      - pose proof (after_stop (fun c => c =? 48) ds) as Hs. unfold significant.
        destruct (after (fun c => c =? 48) ds); [done |]. by apply Z.eqb_neq. }
    destruct (Z.leb_spec (2 ^ 64) (num base ds)); [| lia]. by destruct (match take 31 _ with [] => _ | _ => _ end).
  - rewrite take_ge by done.
    assert (match significant ds with [] => (0, false) | _ => strtoull base (significant ds) end
            = if 2 ^ 64 <=? num base ds then (2 ^ 64 - 1, true) else (num base ds, false)) as ->.
    { rewrite <- (num_significant base ds). unfold strtoull. by destruct (significant ds). }
    by destruct (2 ^ 64 <=? num base ds).
Qed.

(** ** Lines *)

Definition not_lf (c : Z) : bool := negb (c =? LF).

Lemma line_chars_spec cap fuel : forall s r got n, V s r -> (length r < fuel)%nat -> Z.of_nat (length got) = Z.min n (Z.max cap 0) ->
  exists ch s', line_chars src fuel cap got n s
    = Ok (got ++ take (Z.to_nat (cap - n)) (span_of not_lf r), n + Z.of_nat (length (span_of not_lf r)), ch, s') /\
    at_char V P s' ch (after not_lf r).
Proof using Hsrc.
  induction fuel as [|f IH]; intros s r got n Hv Hl Hg; [lia |]. cbn [line_chars].
  destruct (src_next s r Hv) as (ch & s1 & En & Hat). rewrite (bind_ok _ _ _ _ _ En). destruct r as [|c r]; cbn [span_of after].
  - destruct Hat as [-> Hv1]. exists EOF, s1. rewrite take_nil, app_nil_r, Z.add_0_r. done.
  - destruct Hat as (-> & Hc & HP). destruct (Z.eqb_spec c EOF) as [E | _]; [unfold EOF in E; lia |]. cbn [negb andb].
    fold (not_lf c). destruct (not_lf c); [| exists c, s1; by rewrite take_nil, app_nil_r, Z.add_0_r].
    destruct (IH s1 r (if n <? cap then got ++ [c] else got) (n + 1) (src_room _ _ HP) ltac:(simpl in Hl; lia)) as (ch' & s' & E & Hat').
    { destruct (Z.ltb_spec n cap); rewrite ?length_app; cbn [length]; lia. }
    exists ch', s'. split; [| done]. rewrite E.
    replace (n + 1 + Z.of_nat (length (span_of not_lf r))) with (n + Z.of_nat (length (c :: span_of not_lf r))) by (cbn [length]; lia).
    destruct (Z.ltb_spec n cap).
    + rewrite <- app_assoc. cbn [app]. replace (Z.to_nat (cap - n)) with (Datatypes.S (Z.to_nat (cap - (n + 1)))) by lia. done.
    + replace (Z.to_nat (cap - n)) with O by lia. replace (Z.to_nat (cap - (n + 1))) with O by lia. done.
Qed.

Lemma line_skip_spec s r fuel : V s r -> (length r < fuel)%nat ->
  exists s', line_skip src fuel s = Ok (tt, s') /\ V s' (tail (after not_lf r)).
Proof using Hsrc.
  intros Hv Hl. unfold line_skip. destruct (skip_while_spec not_lf fuel s r Hv Hl) as (ch & s' & E & Hat).
  exists s'. rewrite (bind_ok _ _ _ _ _ E). split; [done |]. pose proof (at_char_view _ _ _ Hat). by destruct (after not_lf r).
Qed.
End Generic.
