(* ===== verification/FileProps.v ===== *)
(** Pascal files are sequences: whatever is buffered, pending or pushed back, the
    operations of fileops.c on a TEXT file in reading read one sequence of
    characters, in which CR LF is one line marker; and what PUT wrote, GET reads
    back. *)

From Stdlib Require Import ZArith Ascii String Lia.
From stdpp Require Import base list strings gmap numbers.
From S2P Require Import Prelude Files Readers ReaderProps.
#[local] Open Scope Z_scope.

(** * Flags *)

Definition KEEP : Z := 200.

Lemma land_keep x k b : Z.land (Z.lor (Z.land x KEEP) k) b = Z.lor (Z.land x (Z.land KEEP b)) (Z.land k b).
Proof. by rewrite Z.land_lor_distr_l, <- Z.land_assoc. Qed.

Lemma with_flags_mode m eof eoln pending fc :
  mode (with_flags m eof eoln pending fc) =
  Z.lor (Z.land (mode fc) KEEP) (Z.lor m (Z.lor (bit eof MODE_EOF) (Z.lor (bit eoln MODE_EOLN) (bit pending MODE_PENDING)))).
Proof. unfold with_flags. by destruct (initck_state _). Qed.

(** The three modes a file can be in. *)
Definition a_mode (m : Z) : Prop := m = MODE_CLOSED \/ m = MODE_READ \/ m = MODE_WRITE.

Lemma flags_mode m eof eoln pending fc : a_mode m -> current_mode (with_flags m eof eoln pending fc) = m.
Proof.
  intros Hm. unfold current_mode. rewrite with_flags_mode, land_keep. change (Z.land KEEP MODE_BITS) with 0.
  rewrite Z.land_0_r, Z.lor_0_l. by destruct Hm as [-> | [-> | ->]], eof, eoln, pending.
Qed.
Lemma flags_eof m eof eoln pending fc : a_mode m -> is_eof (with_flags m eof eoln pending fc) = eof.
Proof.
  intros Hm. unfold is_eof. rewrite with_flags_mode, land_keep. change (Z.land KEEP MODE_EOF) with 0.
  rewrite Z.land_0_r, Z.lor_0_l. by destruct Hm as [-> | [-> | ->]], eof, eoln, pending.
Qed.
Lemma flags_pending m eof eoln pending fc : a_mode m -> is_pending (with_flags m eof eoln pending fc) = pending.
Proof.
  intros Hm. unfold is_pending. rewrite with_flags_mode, land_keep. change (Z.land KEEP MODE_PENDING) with 0.
  rewrite Z.land_0_r, Z.lor_0_l. by destruct Hm as [-> | [-> | ->]], eof, eoln, pending.
Qed.
Lemma flags_eoln m eof eoln pending fc : a_mode m -> is_eoln (with_flags m eof eoln pending fc) = eoln.
Proof.
  intros Hm. unfold is_eoln. rewrite with_flags_mode, land_keep. change (Z.land KEEP MODE_EOLN) with 0.
  rewrite Z.land_0_r, Z.lor_0_l. by destruct Hm as [-> | [-> | ->]], eof, eoln, pending.
Qed.
(** The flags of the handle stay. *)
Lemma flags_has m eof eoln pending fc b : a_mode m -> b = MODE_STD \/ b = MODE_OWNS_HANDLE \/ b = MODE_TEMP ->
  has b (with_flags m eof eoln pending fc) = has b fc.
Proof.
  intros Hm Hb. unfold has. rewrite with_flags_mode, land_keep.
  assert (Z.land KEEP b = b) as -> by (by destruct Hb as [-> | [-> | ->]]).
  assert (Z.land (Z.lor m (Z.lor (bit eof MODE_EOF) (Z.lor (bit eoln MODE_EOLN) (bit pending MODE_PENDING)))) b = 0) as ->.
  { by destruct Hb as [-> | [-> | ->]], Hm as [-> | [-> | ->]], eof, eoln, pending. }
  by rewrite Z.lor_0_r.
Qed.

Lemma flags_rest m eof eoln pending fc :
  buffer (with_flags m eof eoln pending fc) = buffer fc /\ handle (with_flags m eof eoln pending fc) = handle fc /\
  structure (with_flags m eof eoln pending fc) = structure fc /\ name (with_flags m eof eoln pending fc) = name fc /\
  elem_size_ (with_flags m eof eoln pending fc) = elem_size_ fc /\ trap (with_flags m eof eoln pending fc) = trap fc.
Proof. unfold with_flags. by destruct (initck_state _). Qed.

Lemma a_read : a_mode MODE_READ.
Proof. by right; left. Qed.
Lemma a_write : a_mode MODE_WRITE.
Proof. by right; right. Qed.
#[export] Hint Resolve a_read a_write : pas.

(** * FCBs and streams in the world *)

Lemma deref_ok w f fc : fcbs w !! f = Some fc -> deref (Some f) w = Ok (fc, w).
Proof. intros Hf. unfold deref. by rewrite Hf. Qed.

Lemma upd_ok w f fc g : fcbs w !! f = Some fc -> upd (Some f) g w = Ok (tt, put_fcb f (g fc) w).
Proof. intros Hf. unfold upd. by rewrite (bind_ok _ _ _ _ _ (deref_ok w f fc Hf)). Qed.

Lemma set_flags_ok w f fc m eof eoln pending : fcbs w !! f = Some fc ->
  set_mode_flags (Some f) m eof eoln pending w = Ok (tt, put_fcb f (with_flags m eof eoln pending fc) w).
Proof. apply upd_ok. Qed.

Lemma run_deref {B} w f fc (k : fcb -> ST world B) : fcbs w !! f = Some fc -> bind (deref (Some f)) k w = k fc w.
Proof. intros Hf. apply bind_ok. by apply deref_ok. Qed.
Lemma run_upd {B} w f fc g (k : unit -> ST world B) : fcbs w !! f = Some fc ->
  bind (upd (Some f) g) k w = k tt (put_fcb f (g fc) w).
Proof. intros Hf. apply bind_ok. by apply upd_ok. Qed.
Lemma fcb_put f fc w : fcbs (put_fcb f fc w) !! f = Some fc.
Proof. apply lookup_insert_eq. Qed.

Lemma stream_ok w h s : streams w !! h = Some s -> stream_of h w = Ok (s, w).
Proof. intros Hs. unfold stream_of. by rewrite Hs. Qed.

Lemma put_fcb_twice f a b w : put_fcb f a (put_fcb f b w) = put_fcb f a w.
Proof. unfold put_fcb. cbn. by rewrite insert_insert_eq. Qed.
Lemma put_stream_twice h a b w : put_stream h a (put_stream h b w) = put_stream h a w.
Proof. unfold put_stream. cbn. by rewrite insert_insert_eq. Qed.
Lemma put_swap f a h b w : put_fcb f a (put_stream h b w) = put_stream h b (put_fcb f a w).
Proof. done. Qed.
Lemma put_fcb_same w f fc : fcbs w !! f = Some fc -> put_fcb f fc w = w.
Proof. intros Hf. unfold put_fcb. rewrite insert_id by done. by destruct w. Qed.

Definition byte (c : Z) : Prop := 0 <= c < 256.

(** What is left to read of a stream. *)
Definition avail (w : world) (s : stream) : list Z := s_back s ++ drop (s_pos s) (default [] (inodes w !! s_ino s)).

(** CR LF is one line marker. *)
Fixpoint fold_crlf (l : list Z) : list Z :=
  match l with
  | [] => []
  | c :: r => if c =? CR then match r with d :: r' => if d =? LF then LF :: fold_crlf r' else CR :: fold_crlf r | [] => [CR] end
              else c :: fold_crlf r
  end.

Definition front (l : list Z) : Z := match l with [] => EOF | c :: _ => c end.

Lemma fold_nil l : fold_crlf l = [] -> l = [].
Proof. destruct l as [|c [|d l]]; cbn; [done | by destruct (c =? CR) | destruct (c =? CR); [by destruct (d =? LF) | done]]. Qed.

Lemma fold_facts n : forall l, (length l <= n)%nat -> Forall byte l -> Forall byte (fold_crlf l) /\ (length (fold_crlf l) <= length l)%nat.
Proof.
  induction n as [|n IH]; intros [|c l] Hl Hb; cbn [fold_crlf length] in *; try (split; [done | cbn; lia]); try lia.
  apply Forall_cons_1 in Hb as [Hc Hb]. destruct (IH l ltac:(lia) Hb) as [H1 H2].
  destruct (Z.eqb_spec c CR) as [-> | _]; [| cbn [length]; split; [by constructor | lia]].
  destruct l as [|d l]; [split; [by constructor | done] |]. apply Forall_cons_1 in Hb as [Hd Hb]. cbn [length] in *.
  destruct (Z.eqb_spec d LF) as [-> | _]; [| cbn [length]; split; [by constructor | lia]].
  destruct (IH l ltac:(lia) Hb) as [H3 H4]. cbn [length]. split; [by constructor | lia].
Qed.

Lemma fold_bytes l : Forall byte l -> Forall byte (fold_crlf l).
Proof. intros Hb. by apply (fold_facts (length l) l). Qed.

Lemma front_eof l : Forall byte l -> (front l =? EOF) = match l with [] => true | _ => false end.
Proof. destruct l as [|c l]; [done |]. intros [Hc _]%Forall_cons_1. cbn. destruct (Z.eqb_spec c EOF); [unfold EOF, byte in *; lia | done]. Qed.

(** ** Programs that read a TEXT file *)

(** What a program does with a TEXT file it reads. A program reads F^ only where EOF(F)
    is false. *)
Inductive text_op :=
  | TEof | TEoln | TPeek | TGet | TChar | TInt (bits : Z) | TPtr | TLstring (cap : Z) | TReadln.

Inductive obs := ONone | OBool (b : bool) | OChar (c : Z) | ONum (v : option Z) | OStr (s : list Z) (n : Z).

Definition exec_text (H : host) (f : nat) (o : text_op) : ST world obs :=
  let F := Some f in
  match o with
  | TEof => let* b := pas_file_eof H F in ret (OBool b)
  | TEoln => let* b := pas_file_eoln H F in ret (OBool b)
  | TPeek =>
      let* b := pas_file_eof H F in
      if b then ret ONone
      else do* pas_file_buffer H F in let* fc := deref F in let* c := first_byte fc in ret (OChar c)
  | TGet => do* pas_file_get H F in ret ONone
  | TChar => let* c := pas_fread_char H F in ret (OChar c)
  | TInt bits =>
      let* v := (if bits =? 16 then pas_fread_int16 H F else if bits =? 32 then pas_fread_int32 H F else pas_fread_int64 H F) in
      ret (ONum v)
  | TPtr => let* v := pas_fread_ptr H F in ret (ONum v)
  | TLstring cap => let* (s, n) := pas_fread_lstring H F cap in ret (OStr s n)
  | TReadln => do* pas_freadln_skip H F in ret ONone
  end.

Fixpoint exec_texts (H : host) (f : nat) (os : list text_op) : ST world (list obs) :=
  match os with
  | [] => ret []
  | o :: os' => let* a := exec_text H f o in let* r := exec_texts H f os' in ret (a :: r)
  end.

(** The same on the sequence [r] of the characters left; [t] is the trap flag of the
    file. *)
Definition blank (c : Z) : Z := if c =? LF then BLANK else c.
Definition spec_trap {A} (t : Z) (msg : string) (a : A) (r : list Z) : res (A * list Z) :=
  if t =? 0 then Err (RtAbort msg) else Ok (a, r).

Definition spec_text (t : Z) (o : text_op) (r : list Z) : res (obs * list Z) :=
  match o with
  | TEof => Ok (OBool (match r with [] => true | _ => false end), r)
  | TEoln => match r with [] => Err (RtAbort "file runtime: EOLN at eof") | c :: _ => Ok (OBool (c =? LF), r) end
  | TPeek => Ok (match r with [] => ONone | c :: _ => OChar (blank c) end, r)
  | TGet => match r with [] => spec_trap t "file runtime: GET past eof" ONone [] | _ :: r' => Ok (ONone, r') end
  | TChar =>
      match r with [] => Err (RtAbort "runtime error: unexpected EOF while reading char") | c :: r' => Ok (OChar (blank c), r') end
  | TInt bits =>
      let (d, r') := decimal_spec bits r in
      match d with
      | DecEof => Err (RtAbort "runtime error: unexpected EOF while reading integer")
      | DecMalformed => spec_trap t "runtime error: malformed integer input" (ONum None) r'
      | DecRange => spec_trap t "runtime error: integer out of range" (ONum None) r'
      | DecValue v => Ok (ONum (Some v), r')
      end
  | TPtr =>
      let (d, r') := ptr_spec r in
      match d with
      | PAS_PTR_SCAN_EOF => Err (RtAbort "runtime error: unexpected EOF while reading pointer")
      | PAS_PTR_SCAN_MALFORMED => spec_trap t "runtime error: malformed pointer input" (ONum None) r'
      | PAS_PTR_SCAN_RANGE => spec_trap t "runtime error: pointer out of range" (ONum None) r'
      | PAS_PTR_SCAN_OK v => Ok (ONum (Some v), r')
      end
  | TLstring cap =>
      let line := span_of not_lf r in
      match after not_lf r with
      | [] => Err (RtAbort "runtime error: unexpected EOF while reading string")
      | r' => Ok (OStr (take (Z.to_nat cap) line) (uwrap 8 (Z.min (Z.of_nat (length line)) (Z.max cap 0))), r')
      end
  | TReadln => Ok (ONone, tail (after not_lf r))
  end.

Fixpoint spec_texts (t : Z) (os : list text_op) (r : list Z) : res (list obs) :=
  match os with
  | [] => Ok []
  | o :: os' => let! (a, r') := spec_text t o r in let! l := spec_texts t os' r' in Ok (a :: l)
  end.

(** Forgets the world a run ends in. *)
Definition answers {A S} (x : res (A * S)) : res A := match x with Ok (a, _) => Ok a | Err e => Err e end.

(** How a character is kept in the buffer. *)
Lemma marker_ok c : (c =? LF) = ((if c =? LF then LF else if c =? LF then BLANK else c) =? LF) /\
  (if c =? LF then BLANK else c) = blank (if c =? LF then LF else if c =? LF then BLANK else c).
Proof. destruct (Z.eqb_spec c LF) as [-> | E%Z.eqb_neq]; [done |]. unfold blank. by rewrite E. Qed.

Section Streams.
Context (H : host).
Hypothesis Hread : forall i p, read_ok H i p = true.
Hypothesis Hpush : (0 < pushback H)%nat.

Lemma fgetc_spec w h s : streams w !! h = Some s ->
  exists s', s_ino s' = s_ino s /\ length (s_back s') = pred (length (s_back s)) /\
  match avail w s with
  | [] => fgetc H h w = Ok (EOF, put_stream h s' w) /\ avail w s' = [] /\ s_eof s' = true
  | c :: l => fgetc H h w = Ok (c, put_stream h s' w) /\ avail w s' = l
  end.
Proof using Hread.
  intros Hs. unfold fgetc, avail. rewrite (bind_ok _ _ _ _ _ (stream_ok _ _ _ Hs)).
  destruct (s_back s) as [|c b] eqn:Eb.
  - set (ct := default [] (inodes w !! s_ino s)). rewrite (bind_ok (content_of _) _ w ct w) by done. rewrite Hread. cbn [negb app].
    destruct (ct !! s_pos s) as [v|] eqn:Ev.
    + rewrite (drop_S _ _ _ Ev). eexists. split; [| split]; [| | split; [reflexivity |]]; done.
    + apply lookup_ge_None in Ev as Hge. rewrite drop_ge by done. eexists.
      split; [| split]; [| | split; [reflexivity |]]; [done | done |]. cbn. split; [| done]. by rewrite drop_ge.
  - cbn [app]. eexists. split; [| split]; [| | split; [reflexivity |]]; done.
Qed.

Lemma ungetc_spec w h s c : streams w !! h = Some s -> (length (s_back s) < pushback H)%nat -> byte c ->
  exists s', ungetc H c h w = Ok (tt, put_stream h s' w) /\ avail w s' = c :: avail w s /\ s_ino s' = s_ino s /\
    length (s_back s') = S (length (s_back s)).
Proof using Hpush.
  intros Hs Hl Hc. unfold ungetc. rewrite (bind_ok _ _ _ _ _ (stream_ok _ _ _ Hs)).
  destruct (Nat.ltb_spec (length (s_back s)) (pushback H)); [| lia]. eexists. split; [reflexivity |].
  unfold avail, uwrap. cbn. rewrite Z.mod_small by done. done.
Qed.

Lemma text_getc_spec w h s : streams w !! h = Some s -> Forall byte (avail w s) -> (length (s_back s) <= pushback H)%nat ->
  exists s', text_getc H h w = Ok (front (fold_crlf (avail w s)), put_stream h s' w) /\
    fold_crlf (avail w s') = tail (fold_crlf (avail w s)) /\ Forall byte (avail w s') /\
    (length (s_back s') <= pushback H)%nat /\ (avail w s = [] -> s_eof s' = true) /\
    (front (fold_crlf (avail w s)) <> CR -> (length (s_back s') < pushback H)%nat).
Proof using Hread Hpush.
  intros Hs Hb Hl. unfold text_getc. destruct (fgetc_spec w h s Hs) as (s1 & Hi1 & Hl1 & Hg).
  destruct (avail w s) as [|c l] eqn:Ea.
  { destruct Hg as (E & Ha & He). rewrite (bind_ok _ _ _ _ _ E). exists s1. cbn. rewrite Ha. split; [done |]. split; [done |].
    split; [done |]. split; [lia |]. split; [done | intros; done || lia]. }
  destruct Hg as (E & Ha1). rewrite (bind_ok _ _ _ _ _ E). apply Forall_cons_1 in Hb as [Hc Hbl]. cbn [fold_crlf].
  destruct (Z.eqb_spec c CR) as [-> | Hn]; cbn [negb].
  2:{ exists s1. cbn [front tail]. rewrite Ha1. split; [done |]. split; [done |]. split; [done |]. split; [lia |]. split; [done | intros; done || lia]. }
  assert (streams (put_stream h s1 w) !! h = Some s1) as Hs1 by apply lookup_insert_eq.
  destruct (fgetc_spec (put_stream h s1 w) h s1 Hs1) as (s2 & Hi2 & Hl2 & Hg2). cbn [avail inodes put_stream] in Hg2.
  change (avail (put_stream h s1 w)) with (avail w) in Hg2. rewrite Ha1 in Hg2. rewrite put_stream_twice in Hg2.
  destruct l as [|d l].
  { destruct Hg2 as (E2 & Ha2 & He2). rewrite (bind_ok _ _ _ _ _ E2). exists s2. cbn. rewrite Ha2.
    split; [done |]. split; [done |]. split; [done |]. split; [lia |]. split; [done | intros; done || lia]. }
  destruct Hg2 as (E2 & Ha2). rewrite (bind_ok _ _ _ _ _ E2). apply Forall_cons_1 in Hbl as [Hd Hbl].
  destruct (Z.eqb_spec d LF) as [-> | Hd'].
  { exists s2. rewrite Ha2. cbn [front tail]. split; [done |]. split; [done |]. split; [done |]. split; [lia |]. split; [done | intros; done || lia]. }
  destruct (Z.eqb_spec d EOF) as [Ed | _]; [unfold EOF, byte in *; lia |]. cbn [negb].
  assert (streams (put_stream h s2 w) !! h = Some s2) as Hs2 by apply lookup_insert_eq.
  destruct (ungetc_spec (put_stream h s2 w) h s2 d Hs2 ltac:(lia) Hd) as (s3 & E3 & Ha3 & Hi3 & Hl3).
  rewrite put_stream_twice in E3. rewrite (bind_ok _ _ _ _ _ E3). exists s3.
  change (avail (put_stream h s2 w)) with (avail w) in Ha3. rewrite Ha3, Ha2. cbn [front tail].
  split; [done |]. split; [done |]. split; [by constructor |]. split; [lia |]. split; [done | intros; done || lia].
Qed.

(** * A TEXT file in reading *)

(** The component in the buffer; a line marker is stored as a blank. *)
Definition component (fc : fcb) : Z :=
  if is_eoln fc then LF else match buffer fc with Some (b :: _) => b | _ => EOF end.

(** FCB [f], with trap flag [t], reads the stream [h]. *)
Record text_at (t : Z) (w : world) (f h : nat) (fc : fcb) (s : stream) : Prop := {
  ta_fcb : fcbs w !! f = Some fc;
  ta_handle : handle fc = Some h;
  ta_stream : streams w !! h = Some s;
  ta_text : structure fc = STRUCT_TEXT;
  ta_read : current_mode fc = MODE_READ;
  ta_flags : is_eof fc = true -> is_pending fc = false;
  ta_marker : is_eof fc = false -> is_pending fc = false -> 
    is_eoln fc = (component fc =? LF) /\ exists r, buffer fc = Some (blank (component fc) :: r);
  ta_buf : exists b r, buffer fc = Some (b :: r) /\ byte b;
  ta_trap : trap fc = t;
  ta_bytes : Forall byte (avail w s);
  ta_back : (length (s_back s) <= pushback H)%nat
}.

(** The characters left to read: the one in the buffer, unless it was consumed, and
    those of the stream. *)
Definition left_of (w : world) (fc : fcb) (s : stream) : list Z :=
  if is_eof fc then []
  else if is_pending fc then fold_crlf (avail w s) else component fc :: fold_crlf (avail w s).

Definition text_view (t : Z) (f h : nat) (w : world) (r : list Z) : Prop :=
  exists fc s, text_at t w f h fc s /\ r = left_of w fc s.
(** The last character was consumed: it can be taken back. *)
Definition text_room (t : Z) (f h : nat) (w : world) (r : list Z) : Prop :=
  exists fc s, text_at t w f h fc s /\ is_eof fc = false /\ is_pending fc = true /\ r = fold_crlf (avail w s).

Lemma text_at_fcb t w f h fc s fc' : text_at t w f h fc s -> handle fc' = Some h -> structure fc' = STRUCT_TEXT ->
  current_mode fc' = MODE_READ -> (is_eof fc' = true -> is_pending fc' = false) ->
  (is_eof fc' = false -> is_pending fc' = false -> 
    is_eoln fc' = (component fc' =? LF) /\ exists r, buffer fc' = Some (blank (component fc') :: r)) ->
  (exists b r, buffer fc' = Some (b :: r) /\ byte b) -> trap fc' = t ->
  text_at t (put_fcb f fc' w) f h fc' s.
Proof using Type. intros [? ? ? ? ? ? ? ? ? ? ?]. split; try done. apply lookup_insert_eq. Qed.

Lemma text_at_stream t w f h fc s s' : text_at t w f h fc s -> Forall byte (avail w s') ->
  (length (s_back s') <= pushback H)%nat -> text_at t (put_stream h s' w) f h fc s'.
Proof using Type. intros [? ? ? ? ? ? ? ? ? ? ?]. split; try done. apply lookup_insert_eq. Qed.

(** New flags, and a buffer that may hold another byte. *)
Lemma text_at_flags t w f h fc s (eof eoln pending : bool) c : text_at t w f h fc s -> byte c -> eof && pending = false ->
  (eof || pending = false -> eoln = ((if eoln then LF else c) =? LF) /\ c = blank (if eoln then LF else c)) ->
  let fc' := set_touched false (with_flags MODE_READ eof eoln pending (store_first c fc)) in
  text_at t (put_fcb f fc' w) f h fc' s /\ is_eof fc' = eof /\ is_pending fc' = pending /\ is_eoln fc' = eoln /\
  component fc' = if eoln then LF else c.
Proof using Type.
  intros Hta Hc Hep Hmk fc'. destruct (ta_buf _ _ _ _ _ _ Hta) as (b & r & Hbuf & Hb).
  destruct (flags_rest MODE_READ eof eoln pending (store_first c fc)) as (Ebuf & Eh & Es & En & Ee & Et).
  assert (buffer (store_first c fc) = Some (c :: r)) as Hbuf'.
  { unfold store_first. rewrite Hbuf. cbn. unfold uwrap. by rewrite Z.mod_small. }
  assert (handle (store_first c fc) = handle fc /\ structure (store_first c fc) = structure fc /\ trap (store_first c fc) = trap fc) as (E1 & E2 & E3).
  { unfold store_first. by rewrite Hbuf. }
  assert (is_eoln fc' = eoln) as Hl by apply (flags_eoln MODE_READ eof eoln pending (store_first c fc) a_read).
  assert (is_eof fc' = eof) as He by apply (flags_eof MODE_READ eof eoln pending (store_first c fc) a_read).
  assert (is_pending fc' = pending) as Hp by apply (flags_pending MODE_READ eof eoln pending (store_first c fc) a_read).
  assert (component fc' = if eoln then LF else c) as Hcomp.
  { unfold component. rewrite Hl. destruct eoln; [done |].
    change (buffer fc') with (buffer (with_flags MODE_READ eof false pending (store_first c fc))). by rewrite Ebuf, Hbuf'. }
  split; [| done]. apply (text_at_fcb t w f h fc s fc' Hta).
  - change (handle fc') with (handle (with_flags MODE_READ eof eoln pending (store_first c fc))). rewrite Eh, E1. apply (ta_handle _ _ _ _ _ _ Hta).
  - change (structure fc') with (structure (with_flags MODE_READ eof eoln pending (store_first c fc))). rewrite Es, E2. apply (ta_text _ _ _ _ _ _ Hta).
  - apply (flags_mode MODE_READ eof eoln pending (store_first c fc) a_read).
  - rewrite He, Hp. intros ->. done.
  - rewrite He, Hp, Hl, Hcomp. intros -> ->. destruct (Hmk eq_refl) as [H1 H2]. split; [done |]. exists r. rewrite <- H2.
    change (buffer fc') with (buffer (with_flags MODE_READ false eoln false (store_first c fc))). by rewrite Ebuf.
  - exists c, r. split; [| done]. change (buffer fc') with (buffer (with_flags MODE_READ eof eoln pending (store_first c fc))). by rewrite Ebuf.
  - change (trap fc') with (trap (with_flags MODE_READ eof eoln pending (store_first c fc))). rewrite Et, E3. apply (ta_trap _ _ _ _ _ _ Hta).
Qed.

Lemma store_same fc b r : buffer fc = Some (b :: r) -> byte b -> store_first b fc = fc.
Proof using Type. intros Hb Hc. unfold store_first. rewrite Hb. destruct fc. cbn in *. subst. unfold set_buffer, uwrap. cbn. by rewrite Z.mod_small. Qed.

Lemma component_byte t w f h fc s : text_at t w f h fc s -> byte (component fc).
Proof using Type.
  intros Hta. destruct (ta_buf _ _ _ _ _ _ Hta) as (b & r & Hbuf & Hb). unfold component. rewrite Hbuf.
  by destruct (is_eoln fc).
Qed.

Lemma reads_ok t w f h fc s : text_at t w f h fc s -> reads_buffer fc = true.
Proof using Type.
  intros Hta. destruct (ta_buf _ _ _ _ _ _ Hta) as (b & r & Hbuf & Hb). unfold reads_buffer.
  by rewrite Hbuf, (ta_read _ _ _ _ _ _ Hta).
Qed.

Lemma text_room_view t f h w r : text_room t f h w r -> text_view t f h w r.
Proof using Type. intros (fc & s & Hta & He & Hp & ->). exists fc, s. split; [done |]. unfold left_of. by rewrite He, Hp. Qed.

(** [text_getc] of a file whose buffer is empty. *)
Lemma text_getc_at t w f h fc s : text_at t w f h fc s ->
  exists s', text_getc H h w = Ok (front (fold_crlf (avail w s)), put_stream h s' w) /\
    text_at t (put_stream h s' w) f h fc s' /\ fold_crlf (avail w s') = tail (fold_crlf (avail w s)) /\
    (avail w s = [] -> s_eof s' = true).
Proof using Hread Hpush.
  intros Hta. destruct (text_getc_spec w h s (ta_stream _ _ _ _ _ _ Hta) (ta_bytes _ _ _ _ _ _ Hta) (ta_back _ _ _ _ _ _ Hta))
    as (s' & E & Hf & Hb & Hl & He & _). exists s'. split; [done |]. split; [by eapply text_at_stream |]. done.
Qed.

(** Consuming a component, taking it back. *)
Lemma text_next t f h w r : text_view t f h w r ->
  exists ch w', fcb_next_char H (Some f) h w = Ok (ch, w') /\ at_char (text_view t f h) (text_room t f h) w' ch r.
Proof using Hread Hpush.
  intros (fc & s & Hta & ->). pose proof (ta_fcb _ _ _ _ _ _ Hta) as Hf. unfold fcb_next_char. rewrite (run_deref _ _ _ _ Hf).
  rewrite (reads_ok _ _ _ _ _ _ Hta). cbn [negb]. unfold left_of. destruct (is_eof fc) eqn:Eeof.
  { exists EOF, w. split; [done |]. split; [done |]. exists fc, s. split; [done |]. unfold left_of. by rewrite Eeof. }
  destruct (is_pending fc) eqn:Ep; cbn [negb].
  - rewrite (ta_text _ _ _ _ _ _ Hta). change (STRUCT_TEXT =? STRUCT_TEXT) with true. cbn match.
    destruct (text_getc_at t w f h fc s Hta) as (s' & E & Hta' & Hfold & _). rewrite (bind_ok _ _ _ _ _ E).
    pose proof (fold_bytes _ (ta_bytes _ _ _ _ _ _ Hta)) as Hb. rewrite (front_eof _ Hb).
    destruct (fold_crlf (avail w s)) as [|c l] eqn:El.
    + unfold set_mode_flags. rewrite (run_upd _ _ _ _ _ (ta_fcb _ _ _ _ _ _ Hta')). exists EOF. eexists. split; [reflexivity |].
      destruct (ta_buf _ _ _ _ _ _ Hta) as (b & r0 & Hbuf & Hbb).
      destruct (text_at_flags t _ f h fc s' true false false b Hta' Hbb eq_refl ltac:(done)) as (Hta2 & He2 & _). rewrite (store_same fc b r0 Hbuf Hbb) in Hta2, He2.
      split; [done |]. exists (with_flags MODE_READ true false false fc), s'. split.
      * destruct Hta2 as [? ? ? ? ? ? ? ? ? ? ?]. split; try done. apply fcb_put.
      * unfold left_of. by rewrite (flags_eof _ _ _ _ _ a_read).
    + exists c. eexists. split; [reflexivity |]. apply Forall_cons_1 in Hb as [Hc _]. split; [done |]. split; [done |].
      exists fc, s'. done.
  - destruct (ta_buf _ _ _ _ _ _ Hta) as (b & r0 & Hbuf & Hbb). unfold first_byte. rewrite Hbuf.
    rewrite (bind_ok (ret b) _ w b w) by done. rewrite (ta_text _ _ _ _ _ _ Hta). change (STRUCT_TEXT =? STRUCT_TEXT) with true. cbn [andb].
    unfold set_mode_flags. rewrite (run_upd _ _ _ _ _ Hf), (run_upd _ _ _ _ _ (fcb_put _ _ _)), put_fcb_twice.
    destruct (text_at_flags t w f h fc s false false true b Hta Hbb eq_refl ltac:(done)) as (Hta2 & He2 & Hp2 & _). rewrite (store_same fc b r0 Hbuf Hbb) in Hta2, He2, Hp2.
    eexists _, _. split; [reflexivity |]. split; [unfold component; by rewrite Hbuf |]. split; [by eapply component_byte |].
    eexists _, _. split; [exact Hta2 |]. done.
Qed.

Lemma text_unget t f h w ch r : at_char (text_view t f h) (text_room t f h) w ch r ->
  exists w', fcb_unget_char H (Some f) h ch w = Ok (tt, w') /\ text_view t f h w' r.
Proof using Hread Hpush.
  unfold fcb_unget_char. destruct r as [|c r]; cbn [at_char].
  { intros [-> Hv]. exists w. done. }
  intros (-> & Hc & fc & s & Hta & He & Hp & ->). destruct (Z.eqb_spec c EOF) as [E | _]; [unfold EOF in E; lia |].
  pose proof (ta_fcb _ _ _ _ _ _ Hta) as Hf. rewrite (run_deref _ _ _ _ Hf), (reads_ok _ _ _ _ _ _ Hta). cbn [negb].
  rewrite (ta_text _ _ _ _ _ _ Hta). change (STRUCT_TEXT =? STRUCT_TEXT) with true. cbn [andb].
  unfold set_mode_flags. rewrite (run_upd _ _ _ _ _ Hf), (run_upd _ _ _ _ _ (fcb_put _ _ _)), (upd_ok _ _ _ _ (fcb_put _ _ _)), !put_fcb_twice.
  set (b := if c =? LF then BLANK else c). assert (byte b) as Hb by (unfold b, byte, BLANK; destruct (c =? LF); lia).
  destruct (text_at_flags t w f h fc s false (c =? LF) false b Hta Hb eq_refl ltac:(intros _; apply marker_ok)) as (Hta2 & He2 & Hp2 & Hl2 & Hc2).
  eexists. split; [reflexivity |]. eexists _, _. split; [exact Hta2 |]. unfold left_of. rewrite He2, Hp2, Hc2.
  change (avail (put_fcb f _ w)) with (avail w). f_equal. unfold b. by destruct (Z.eqb_spec c LF) as [-> | _].
Qed.

(** A TEXT file in reading is a source of characters. *)
#[export] Instance text_source t f h : CharSource (fcb_source H (Some f) h) (text_view t f h) (text_room t f h).
Proof using Hread Hpush.
  split.
  - apply text_next.
  - apply text_unget.
  - apply text_room_view.
Qed.

(** ** GET, EOF and EOLN *)

Lemma ensure_ok w f fc h : fcbs w !! f = Some fc -> handle fc = Some h -> ensure_handle H (Some f) w = Ok (h, w).
Proof using Type. intros Hf Hh. unfold ensure_handle. rewrite (run_deref _ _ _ _ Hf), Hh. done. Qed.

Lemma checked_ok w f fc b : fcbs w !! f = Some fc -> buffer fc = Some b -> checked_buffer (Some f) w = Ok (tt, w).
Proof using Type. intros Hf Hb. unfold checked_buffer. by rewrite (run_deref _ _ _ _ Hf), Hb. Qed.

(** A fill puts the next character of the stream in the buffer. *)
Lemma raw_get_text t w f h fc s allow : text_at t w f h fc s -> allow = true \/ is_eof fc = false ->
  exists w' fc' s', raw_get H (Some f) allow w = Ok (tt, w') /\ text_at t w' f h fc' s' /\ is_pending fc' = false /\
    left_of w' fc' s' = fold_crlf (avail w s).
Proof using Hread Hpush.
  intros Hta Hal. pose proof (ta_fcb _ _ _ _ _ _ Hta) as Hf. destruct (ta_buf _ _ _ _ _ _ Hta) as (b & r0 & Hbuf & Hbb).
  unfold raw_get. rewrite (bind_ok _ _ _ _ _ (ensure_ok w f fc h Hf (ta_handle _ _ _ _ _ _ Hta))).
  rewrite (bind_ok _ _ _ _ _ (checked_ok w f fc _ Hf Hbuf)), (run_deref _ _ _ _ Hf), (ta_read _ _ _ _ _ _ Hta), (ta_text _ _ _ _ _ _ Hta).
  change (MODE_READ =? MODE_READ) with true. change (STRUCT_TEXT =? STRUCT_TEXT) with true. cbn [negb].
  replace (negb allow && is_eof fc) with false by (by destruct Hal as [-> | ->]; rewrite ?andb_false_r).
  destruct (text_getc_at t w f h fc s Hta) as (s' & E & Hta' & Hfold & Heof). rewrite (bind_ok _ _ _ _ _ E).
  pose proof (fold_bytes _ (ta_bytes _ _ _ _ _ _ Hta)) as Hb. rewrite (front_eof _ Hb). pose proof (ta_fcb _ _ _ _ _ _ Hta') as Hf'.
  destruct (fold_crlf (avail w s)) as [|c l] eqn:El.
  - assert (feof h (put_stream h s' w) = Ok (true, put_stream h s' w)) as Ef.
    { unfold feof. rewrite (bind_ok _ _ _ _ _ (stream_ok _ _ _ (ta_stream _ _ _ _ _ _ Hta'))). unfold ret. by rewrite Heof by (by apply fold_nil). }
    rewrite (bind_ok _ _ _ _ _ Ef). cbn [andb]. unfold set_mode_flags.
    rewrite (run_upd _ _ _ _ _ Hf'), (upd_ok _ _ _ _ (fcb_put _ _ _)), put_fcb_twice.
    destruct (text_at_flags t _ f h fc s' true false false b Hta' Hbb eq_refl ltac:(done)) as (Hta2 & He2 & Hp2 & _). rewrite (store_same fc b r0 Hbuf Hbb) in Hta2, He2, Hp2.
    eexists _, _, _. split; [reflexivity |]. split; [exact Hta2 |]. split; [done |]. unfold left_of. by rewrite He2.
  - rewrite (bind_ok (ret false) _ _ false _) by done. cbn [andb front] in *. unfold set_mode_flags.
    apply Forall_cons_1 in Hb as [Hc Hbl].
    rewrite (run_upd _ _ _ _ _ Hf'), (run_upd _ _ _ _ _ (fcb_put _ _ _)), (upd_ok _ _ _ _ (fcb_put _ _ _)), !put_fcb_twice.
    set (b' := if c =? LF then BLANK else c). assert (byte b') as Hb' by (unfold b'; by destruct (c =? LF)).
    destruct (text_at_flags t _ f h fc s' false (c =? LF) false b' Hta' Hb' eq_refl ltac:(intros _; apply marker_ok)) as (Hta2 & He2 & Hp2 & Hl2 & Hc2).
    eexists _, _, _. split; [reflexivity |]. split; [exact Hta2 |]. split; [done |]. unfold left_of. rewrite He2, Hp2, Hc2.
    change (avail (put_fcb f _ (put_stream h s' w))) with (avail w). rewrite Hfold. cbn [tail]. f_equal. unfold b'. by destruct (Z.eqb_spec c LF).
Qed.

(** The first use of a component fills the buffer and reads nothing else. *)
Lemma force_fill_text t f h w r : text_view t f h w r ->
  exists w' fc s, force_fill H (Some f) w = Ok (tt, w') /\ text_at t w' f h fc s /\ is_pending fc = false /\ left_of w' fc s = r.
Proof using Hread Hpush.
  intros (fc & s & Hta & ->). pose proof (ta_fcb _ _ _ _ _ _ Hta) as Hf. unfold force_fill. rewrite (run_deref _ _ _ _ Hf).
  destruct (is_pending fc) eqn:Ep; [| by exists w, fc, s].
  destruct (raw_get_text t w f h fc s true Hta ltac:(by left)) as (w' & fc' & s' & E & Hta' & Hp' & Hl').
  exists w', fc', s'. split; [done |]. split; [done |]. split; [done |]. rewrite Hl'. unfold left_of.
  destruct (is_eof fc) eqn:Ee; [by rewrite (ta_flags _ _ _ _ _ _ Hta Ee) in Ep | by rewrite Ep].
Qed.

(** * Every operation keeps the sequence *)

(** The run [x] gives what [y] says, and leaves the rest [y] says. *)
Definition agrees {A} (t : Z) (f h : nat) (x : res (A * world)) (y : res (A * list Z)) : Prop :=
  match y with
  | Ok (a, r) => exists w, x = Ok (a, w) /\ text_view t f h w r
  | Err e => x = Err e
  end.

Lemma agrees_bind {A B} t f h (m : ST world A) (k : A -> ST world B) w y z :
  agrees t f h (m w) y ->
  (forall a r w', y = Ok (a, r) -> text_view t f h w' r -> agrees t f h (k a w') z) ->
  (forall e, y = Err e -> z = Err e) -> agrees t f h (bind m k w) z.
Proof using Type.
  intros Hm Hk He. destruct y as [[a r]|e]; cbn in Hm.
  - destruct Hm as (w' & E & Hv). rewrite (bind_ok _ _ _ _ _ E). by eapply Hk.
  - rewrite (bind_err _ _ _ _ Hm). by rewrite (He e eq_refl).
Qed.

Lemma agrees_ret {A} t f h (a : A) w r : text_view t f h w r -> agrees t f h (ret a w) (Ok (a, r)).
Proof using Type. intros Hv. by exists w. Qed.

Lemma io_error_text t f h w r code msg : text_view t f h w r ->
  agrees t f h (io_error (Some f) code msg w) (spec_trap t msg true r).
Proof using Type.
  intros (fc & s & Hta & ->). pose proof (ta_fcb _ _ _ _ _ _ Hta) as Hf. unfold io_error, spec_trap.
  rewrite (run_deref _ _ _ _ Hf), (ta_trap _ _ _ _ _ _ Hta). destruct (t =? 0); cbn [negb]; [done |].
  rewrite (run_upd _ _ _ _ _ Hf). eexists. split; [reflexivity |]. exists (set_errs code fc), s. split; [| done].
  destruct Hta as [? ? ? ? ? ? ? ? ? ? ?]. split; try done. apply fcb_put.
Qed.

Lemma eof_text t f h w r : text_view t f h w r ->
  agrees t f h (pas_file_eof H (Some f) w) (Ok (match r with [] => true | _ => false end, r)).
Proof using Hread Hpush.
  intros Hv. destruct (force_fill_text t f h w r Hv) as (w' & fc & s & E & Hta & Hp & Hl). unfold pas_file_eof.
  rewrite (bind_ok _ _ _ _ _ E), (run_deref _ _ _ _ (ta_fcb _ _ _ _ _ _ Hta)), (ta_read _ _ _ _ _ _ Hta).
  exists w'. split; [| by exists fc, s]. change (MODE_READ =? MODE_WRITE) with false. cbn [orb]. unfold ret.
  rewrite <- Hl. unfold left_of. rewrite Hp. by destruct (is_eof fc).
Qed.

Lemma eoln_text t f h w r : text_view t f h w r ->
  agrees t f h (pas_file_eoln H (Some f) w)
    (match r with [] => Err (RtAbort "file runtime: EOLN at eof") | c :: _ => Ok (c =? LF, r) end).
Proof using Hread Hpush.
  intros Hv. destruct (force_fill_text t f h w r Hv) as (w' & fc & s & E & Hta & Hp & Hl). unfold pas_file_eoln, pas_file_eof.
  pose proof (ta_fcb _ _ _ _ _ _ Hta) as Hf. rewrite (bind_ok _ _ _ _ _ E).
  assert (force_fill H (Some f) w' = Ok (tt, w')) as E2 by (unfold force_fill; by rewrite (run_deref _ _ _ _ Hf), Hp).
  assert (pas_file_eof H (Some f) w' = Ok (is_eof fc, w')) as E3.
  { unfold pas_file_eof. rewrite (bind_ok _ _ _ _ _ E2), (run_deref _ _ _ _ Hf), (ta_read _ _ _ _ _ _ Hta). done. }
  unfold pas_file_eof in E3. rewrite (bind_ok _ _ _ _ _ E3). unfold left_of in Hl. rewrite Hp in Hl. destruct (is_eof fc) eqn:Ee; subst r; [done |].
  rewrite (run_deref _ _ _ _ Hf), (ta_text _ _ _ _ _ _ Hta). change (STRUCT_TEXT =? STRUCT_TEXT) with true. cbn [negb].
  exists w'. split; [| exists fc, s; split; [done | unfold left_of; by rewrite Ee, Hp]].
  unfold ret. by rewrite (proj1 (ta_marker _ _ _ _ _ _ Hta Ee Hp)).
Qed.

Lemma peek_text t f h w c r : text_view t f h w (c :: r) ->
  agrees t f h ((do* pas_file_buffer H (Some f) in let* fc := deref (Some f) in let* c := first_byte fc in ret (OChar c)) w)
    (Ok (OChar (blank c), c :: r)).
Proof using Hread Hpush.
  intros Hv. destruct (force_fill_text t f h w _ Hv) as (w' & fc & s & E & Hta & Hp & Hl). pose proof (ta_fcb _ _ _ _ _ _ Hta) as Hf.
  pose proof Hl as Hl'. unfold left_of in Hl'. rewrite Hp in Hl'. destruct (is_eof fc) eqn:Ee; [done |]. injection Hl' as Hc _.
  destruct (ta_marker _ _ _ _ _ _ Hta Ee Hp) as (_ & r0 & Hbuf). rewrite Hc in Hbuf.
  assert (pas_file_buffer H (Some f) w = Ok (Some f, w')) as E2.
  { unfold pas_file_buffer. by rewrite (bind_ok _ _ _ _ _ E), (run_deref _ _ _ _ Hf), Hbuf. }
  rewrite (bind_ok _ _ _ _ _ E2), (run_deref _ _ _ _ Hf). unfold first_byte. rewrite Hbuf. exists w'. split; [done | by exists fc, s].
Qed.

Lemma get_text t f h w r : text_view t f h w r ->
  agrees t f h (pas_file_get H (Some f) w)
    (match r with [] => spec_trap t "file runtime: GET past eof" tt [] | _ :: r' => Ok (tt, r') end).
Proof using Hread Hpush.
  intros Hv. destruct (force_fill_text t f h w r Hv) as (w' & fc & s & E & Hta & Hp & Hl). unfold pas_file_get.
  rewrite (bind_ok _ _ _ _ _ E). unfold left_of in Hl. rewrite Hp in Hl. destruct (is_eof fc) eqn:Ee; subst r.
  - pose proof (ta_fcb _ _ _ _ _ _ Hta) as Hf. destruct (ta_buf _ _ _ _ _ _ Hta) as (b & r0 & Hbuf & Hbb).
    unfold raw_get. rewrite (bind_ok _ _ _ _ _ (ensure_ok w' f fc h Hf (ta_handle _ _ _ _ _ _ Hta))).
    rewrite (bind_ok _ _ _ _ _ (checked_ok w' f fc _ Hf Hbuf)), (run_deref _ _ _ _ Hf), (ta_read _ _ _ _ _ _ Hta), Ee.
    change (MODE_READ =? MODE_READ) with true. cbn [negb andb].
    eapply agrees_bind; [eapply (io_error_text t f h w' []); exists fc, s; split; [done | unfold left_of; by rewrite Ee] | |].
    + intros a r w'' Hy Hv'. unfold spec_trap in *. destruct (t =? 0); [done |]. injection Hy as <- <-. by apply agrees_ret.
    + unfold spec_trap. destruct (t =? 0); congruence.
  - destruct (raw_get_text t w' f h fc s false Hta ltac:(by right)) as (w'' & fc' & s' & E' & Hta' & _ & Hl').
    exists w''. split; [done |]. by exists fc', s'.
Qed.

Lemma stream_for_text t f h w r : text_view t f h w r -> stream_for H (Some f) false w = Ok (h, w).
Proof using Type.
  intros (fc & s & Hta & _). unfold stream_for. rewrite (run_deref _ _ _ _ (ta_fcb _ _ _ _ _ _ Hta)), (ta_read _ _ _ _ _ _ Hta).
  change (MODE_READ =? MODE_WRITE) with false. change (MODE_READ =? MODE_CLOSED) with false. cbn match.
  rewrite (bind_ok (ret tt) _ w tt w) by done. apply (ensure_ok w f fc h); [apply (ta_fcb _ _ _ _ _ _ Hta) | apply (ta_handle _ _ _ _ _ _ Hta)].
Qed.

Lemma fuel_text t f h w r : text_view t f h w r -> exists n, fuel_for h w = Ok (n, w) /\ (length r < n)%nat.
Proof using Type.
  intros (fc & s & Hta & ->). unfold fuel_for. rewrite (bind_ok _ _ _ _ _ (stream_ok _ _ _ (ta_stream _ _ _ _ _ _ Hta))).
  rewrite (bind_ok (content_of _) _ w (default [] (inodes w !! s_ino s)) w) by done. eexists. split; [reflexivity |].
  destruct (fold_facts (length (avail w s)) (avail w s) (le_n _) (ta_bytes _ _ _ _ _ _ Hta)) as [_ Hl].
  unfold avail in Hl at 2. rewrite length_app, length_drop in Hl. unfold left_of. revert Hl. clear.
  destruct (is_eof fc), (is_pending fc); cbn [length]; lia.
Qed.

Lemma trapped_text {A} t f h w r msg : text_view t f h w r ->
  agrees t f h (@trapped A (Some f) msg w) (spec_trap t msg None r).
Proof using Type.
  intros Hv. unfold trapped. eapply agrees_bind; [by apply (io_error_text t f h w r 14 msg) | |].
  - intros a r' w' Hy Hv'. unfold spec_trap in *. destruct (t =? 0); [done |]. injection Hy as <- <-. by apply agrees_ret.
  - unfold spec_trap. destruct (t =? 0); congruence.
Qed.

(** What a reader of numbers gives, from the verdict of its scanner. *)
Definition dec_result (t : Z) (d : decimal) (r : list Z) : res (option Z * list Z) :=
  match d with
  | DecEof => Err (RtAbort "runtime error: unexpected EOF while reading integer")
  | DecMalformed => spec_trap t "runtime error: malformed integer input" None r
  | DecRange => spec_trap t "runtime error: integer out of range" None r
  | DecValue v => Ok (Some v, r)
  end.

Lemma wide_text t f h w r bits : text_view t f h w r ->
  agrees t f h (fread_wide_decimal H (Some f) bits w) (dec_result t (decimal_spec bits r).1 (decimal_spec bits r).2).
Proof using Hread Hpush.
  intros Hv. unfold fread_wide_decimal. rewrite (bind_ok _ _ _ _ _ (stream_for_text _ _ _ _ _ Hv)).
  destruct (fuel_text _ _ _ _ _ Hv) as (n & En & Hn). rewrite (bind_ok _ _ _ _ _ En).
  destruct (scan_decimal_spec _ _ _ w r n bits Hv Hn) as (w' & E & Hv'). rewrite (bind_ok _ _ _ _ _ E).
  destruct (decimal_spec bits r) as [[| | | v] r']; cbn [fst snd dec_result] in *; try done.
  - by apply trapped_text.
  - by apply trapped_text.
  - by apply agrees_ret.
Qed.

Lemma int_text t f h w r bits : text_view t f h w r ->
  agrees t f h ((if bits =? 16 then pas_fread_int16 H (Some f) else if bits =? 32 then pas_fread_int32 H (Some f) else pas_fread_int64 H (Some f)) w)
    (dec_result t (decimal_spec bits r).1 (decimal_spec bits r).2).
Proof using Hread Hpush.
  intros Hv.
  assert (forall b, b = 16 \/ b = 32 -> agrees t f h ((let* v := fread_wide_decimal H (Some f) b in ret (option_map (swrap b) v)) w)
            (dec_result t (decimal_spec b r).1 (decimal_spec b r).2)) as Hnarrow.
  { intros b Hb. eapply agrees_bind; [by apply wide_text | | done]. intros a r' w' Hy Hv'.
    destruct (decimal_spec b r) as [d r1] eqn:Ed. cbn [fst snd] in *. rewrite Hy.
    assert (option_map (swrap b) a = a) as Ea; [| unfold agrees; rewrite Ea; by exists w'].
    destruct a as [v|]; [| done]. cbn. destruct d as [| | | v0]; cbn in Hy; [done | unfold spec_trap in Hy; by destruct (t =? 0).. |].
    injection Hy as -> <-. apply decimal_spec_range in Ed. by rewrite (dec_fits_swrap b v Hb Ed). }
  destruct (Z.eqb_spec bits 16) as [-> | H1]; [apply Hnarrow; by left |].
  destruct (Z.eqb_spec bits 32) as [-> | H2]; [apply Hnarrow; by right |].
  rewrite (decimal_spec_64 bits r H1 H2). by apply wide_text.
Qed.

Lemma ptr_text t f h w r : text_view t f h w r ->
  agrees t f h (pas_fread_ptr H (Some f) w)
    (match (ptr_spec r).1 with
     | PAS_PTR_SCAN_EOF => Err (RtAbort "runtime error: unexpected EOF while reading pointer")
     | PAS_PTR_SCAN_MALFORMED => spec_trap t "runtime error: malformed pointer input" None (ptr_spec r).2
     | PAS_PTR_SCAN_RANGE => spec_trap t "runtime error: pointer out of range" None (ptr_spec r).2
     | PAS_PTR_SCAN_OK v => Ok (Some v, (ptr_spec r).2)
     end).
Proof using Hread Hpush.
  intros Hv. unfold pas_fread_ptr. rewrite (bind_ok _ _ _ _ _ (stream_for_text _ _ _ _ _ Hv)).
  destruct (fuel_text _ _ _ _ _ Hv) as (n & En & Hn). rewrite (bind_ok _ _ _ _ _ En).
  destruct (scan_ptr_spec _ _ _ w r n Hv Hn) as (w' & E & Hv'). rewrite (bind_ok _ _ _ _ _ E).
  destruct (ptr_spec r) as [[v | | |] r']; cbn [fst snd] in *; try done.
  - by apply agrees_ret.
  - by apply trapped_text.
  - by apply trapped_text.
Qed.

Lemma char_text t f h w r : text_view t f h w r ->
  agrees t f h (pas_fread_char H (Some f) w)
    (match r with [] => Err (RtAbort "runtime error: unexpected EOF while reading char") | c :: r' => Ok (blank c, r') end).
Proof using Hread Hpush.
  intros Hv. unfold pas_fread_char. rewrite (bind_ok _ _ _ _ _ (stream_for_text _ _ _ _ _ Hv)).
  destruct (text_next t f h w r Hv) as (ch & w' & E & Hat). rewrite (bind_ok _ _ _ _ _ E). destruct r as [|c r].
  - by destruct Hat as [-> _].
  - destruct Hat as (-> & Hc & HP). destruct (Z.eqb_spec c EOF) as [Ec | _]; [unfold EOF in Ec; lia |].
    apply agrees_ret. by apply text_room_view.
Qed.

Lemma lstring_text t f h w r cap : text_view t f h w r ->
  agrees t f h (pas_fread_lstring H (Some f) cap w)
    (match after not_lf r with
     | [] => Err (RtAbort "runtime error: unexpected EOF while reading string")
     | r' => Ok ((take (Z.to_nat cap) (span_of not_lf r), uwrap 8 (Z.min (Z.of_nat (length (span_of not_lf r))) (Z.max cap 0))), r')
     end).
Proof using Hread Hpush.
  intros Hv. unfold pas_fread_lstring. rewrite (bind_ok _ _ _ _ _ (stream_for_text _ _ _ _ _ Hv)).
  destruct (fuel_text _ _ _ _ _ Hv) as (n & En & Hn). rewrite (bind_ok _ _ _ _ _ En).
  destruct (line_chars_spec _ _ _ cap n w r [] 0 Hv Hn ltac:(cbn; lia)) as (ch & w' & E & Hat). rewrite (bind_ok _ _ _ _ _ E).
  destruct (after not_lf r) as [|c r'] eqn:Ea; [by destruct Hat as [-> _] |].
  assert ((ch =? EOF) = false) as -> by (destruct Hat as (-> & Hc & _); apply Z.eqb_neq; unfold EOF; lia).
  destruct (text_unget t f h w' ch (c :: r') Hat) as (w'' & E2 & Hv2). rewrite (bind_ok _ _ _ _ _ E2).
  exists w''. split; [| done]. rewrite Z.sub_0_r. cbn [app]. unfold ret. do 3 f_equal. f_equal.
  destruct (Z.ltb_spec cap 0), (Z.ltb_spec (0 + Z.of_nat (length (span_of not_lf r))) 0) as [?|?],
    (Z.ltb_spec (0 + Z.of_nat (length (span_of not_lf r))) cap); lia.
Qed.

Lemma readln_text t f h w r : text_view t f h w r ->
  agrees t f h (pas_freadln_skip H (Some f) w) (Ok (tt, tail (after not_lf r))).
Proof using Hread Hpush.
  intros Hv. unfold pas_freadln_skip. rewrite (bind_ok _ _ _ _ _ (stream_for_text _ _ _ _ _ Hv)).
  destruct (fuel_text _ _ _ _ _ Hv) as (n & En & Hn). rewrite (bind_ok _ _ _ _ _ En).
  apply (line_skip_spec _ _ _ w r n Hv Hn).
Qed.

(** An observation made of a result. *)
Lemma agrees_map {A} t f h (m : ST world A) (g : A -> obs) w y :
  agrees t f h (m w) y ->
  agrees t f h ((let* a := m in ret (g a)) w) (match y with Ok (a, r) => Ok (g a, r) | Err e => Err e end).
Proof using Type.
  intros Hm. eapply agrees_bind; [exact Hm | |].
  - intros a r w' -> Hv. by apply agrees_ret.
  - by intros e ->.
Qed.

Lemma exec_text_spec t f h w r o : text_view t f h w r -> agrees t f h (exec_text H f o w) (spec_text t o r).
Proof using Hread Hpush.
  intros Hv. destruct o as [| | | | | bits | | cap |]; cbn [exec_text spec_text].
  - apply (agrees_map t f h _ OBool w _ (eof_text t f h w r Hv)).
  - pose proof (agrees_map t f h _ OBool w _ (eoln_text t f h w r Hv)) as Hm. revert Hm. by destruct r.
  - eapply agrees_bind; [by apply eof_text | | done]. intros b r' w' [= <- <-] Hv'. destruct r as [|c r]; [by apply agrees_ret | by apply peek_text].
  - pose proof (agrees_map t f h _ (fun _ => ONone) w _ (get_text t f h w r Hv)) as Hm. revert Hm. unfold spec_trap. by destruct r, (t =? 0).
  - pose proof (agrees_map t f h _ OChar w _ (char_text t f h w r Hv)) as Hm. revert Hm. by destruct r.
  - pose proof (agrees_map t f h _ ONum w _ (int_text t f h w r bits Hv)) as Hm. revert Hm. destruct (decimal_spec bits r) as [[| | | v] r'];
      cbn [fst snd dec_result]; unfold spec_trap; by destruct (t =? 0).
  - pose proof (agrees_map t f h _ ONum w _ (ptr_text t f h w r Hv)) as Hm. revert Hm. destruct (ptr_spec r) as [[v | | |] r'];
      cbn [fst snd]; unfold spec_trap; by destruct (t =? 0).
  - pose proof (agrees_map t f h _ (fun x => OStr x.1 x.2) w _ (lstring_text t f h w r cap Hv)) as Hm.
    unfold bind in *. destruct (pas_fread_lstring H (Some f) cap w) as [[[s n] w']|e]; by destruct (after not_lf r).
  - apply (agrees_map t f h _ (fun _ => ONone) w _ (readln_text t f h w r Hv)).
Qed.

Lemma exec_texts_spec t f h os : forall w r, text_view t f h w r -> answers (exec_texts H f os w) = spec_texts t os r.
Proof using Hread Hpush.
  induction os as [|o os IH]; intros w r Hv; [done |]. cbn [exec_texts spec_texts].
  pose proof (exec_text_spec t f h w r o Hv) as Ho. destruct (spec_text t o r) as [[a r']|e]; cbn [agrees rbind] in *.
  - destruct Ho as (w' & E & Hv'). rewrite (bind_ok _ _ _ _ _ E). rewrite <- (IH w' r' Hv'). unfold bind, ret.
    by destruct (exec_texts H f os w') as [[l w'']|e].
  - by rewrite (bind_err _ _ _ _ Ho).
Qed.

(** ** RESET *)

(** A TEXT file that is open on a stream, in any mode. *)
Record resettable (t : Z) (w : world) (f h : nat) (fc : fcb) (s : stream) : Prop := {
  rs_fcb : fcbs w !! f = Some fc;
  rs_handle : handle fc = Some h;
  rs_stream : streams w !! h = Some s;
  rs_text : structure fc = STRUCT_TEXT;
  rs_buf : exists b r, buffer fc = Some (b :: r) /\ byte b;
  rs_trap : trap fc = t;
  rs_flush : flush_ok H h = true;
  rs_bytes : Forall byte (default [] (inodes w !! s_ino s))
}.

Lemma reset_text t w f h fc s : resettable t w f h fc s ->
  exists w', pas_file_reset H (Some f) w = Ok (tt, w') /\
    text_view t f h w' (fold_crlf (default [] (inodes w !! s_ino s))).
Proof using Type.
  intros [Hf Hh Hs Ht Hb Htr Hfl Hby]. unfold pas_file_reset. rewrite (run_deref _ _ _ _ Hf), Hh.
  assert (exists w', reset_open H (Some f) w = Ok (tt, w') /\ text_view t f h w' (fold_crlf (default [] (inodes w !! s_ino s)))) as Hopen;
    [| by destruct (name fc)].
  unfold reset_open. rewrite (bind_ok _ _ _ _ _ (ensure_ok w f fc h Hf Hh)), (run_deref _ _ _ _ Hf).
  assert ((if current_mode fc =? MODE_WRITE then fflush H h else ret true) w = Ok (true, w)) as E.
  { destruct (current_mode fc =? MODE_WRITE); [| done]. unfold fflush. rewrite (bind_ok _ _ _ _ _ (stream_ok _ _ _ Hs)). unfold ret. by rewrite Hfl. }
  rewrite (bind_ok _ _ _ _ _ E). cbn [negb].
  assert (rewind h w = Ok (tt, put_stream h (mkStream (s_ino s) 0 [] false false) w)) as Er.
  { unfold rewind. by rewrite (bind_ok _ _ _ _ _ (stream_ok _ _ _ Hs)). }
  rewrite (bind_ok _ _ _ _ _ Er). unfold set_mode_flags. rewrite (upd_ok _ f fc) by done.
  eexists. split; [reflexivity |]. exists (with_flags MODE_READ false false true fc), (mkStream (s_ino s) 0 [] false false).
  destruct (flags_rest MODE_READ false false true fc) as (Ebuf & Eh & Es & En & Ee & Et). split.
  - split; rewrite ?Ebuf, ?Eh, ?Es, ?Et; try done.
    + apply fcb_put.
    + apply lookup_insert_eq.
    + apply (flags_mode _ _ _ _ _ a_read).
    + by rewrite (flags_eof _ _ _ _ _ a_read).
    + rewrite (flags_pending _ _ _ _ _ a_read). done.
    + apply Nat.le_0_l.
  - unfold left_of. by rewrite (flags_eof _ _ _ _ _ a_read), (flags_pending _ _ _ _ _ a_read).
Qed.

(** C5: A TEXT file is one sequence of characters, whatever mixture of EOF, EOLN, F^, GET,
    READ of characters, numbers, pointers and strings, and READLN a program reads it
    with after RESET: every answer, every trapped error and every abort is the one the
    sequence of its bytes gives, with CR LF as one line marker. The pending first
    component, the buffer and the characters pushed back are not visible. *)
Theorem text_file_refines t w f h fc s os : resettable t w f h fc s ->
  answers ((do* pas_file_reset H (Some f) in exec_texts H f os) w)
  = spec_texts t os (fold_crlf (default [] (inodes w !! s_ino s))).
Proof using Hread Hpush.
  intros Hr. destruct (reset_text t w f h fc s Hr) as (w' & E & Hv). rewrite (bind_ok _ _ _ _ _ E). by apply (exec_texts_spec t f h).
Qed.
End Streams.

(** A host that refuses nothing, with the one pushback C promises, and a TEXT file with
    lines of DOS on its stream. *)
Definition easy_host : host :=
  mkHost (fun _ => true) (fun _ => true) true (fun _ _ => true) (fun _ _ => true) (fun _ => true) 1.
Definition dos_text : list Z := [32; 49; 50; 32; 45; 55; 13; 10; 97; 13; 98; 13; 10].
Definition text_fcb (t : Z) : fcb := mkFcb 1 STRUCT_TEXT false (Z.lor MODE_WRITE MODE_OWNS_HANDLE) (Some [0]) (Some 5%nat) None t 0 None 0.
Definition text_world (t : Z) : world :=
  mkWorld {[3%nat := dos_text]} ∅ {[5%nat := mkStream 3 4 [] false false]} {[0%nat := text_fcb t]} None 10.

Lemma text_file_refines_witness :
  let os := [TInt 16; TEoln; TInt 16; TEoln; TReadln; TPeek; TGet; TChar; TLstring 5; TReadln; TEof; TGet] in
  answers ((do* pas_file_reset easy_host (Some 0%nat) in exec_texts easy_host 0 os) (text_world 1))
  = spec_texts 1 os (fold_crlf dos_text) /\
  spec_texts 1 os (fold_crlf dos_text)
  = Ok [ONum (Some 12); OBool false; ONum (Some (-7)); OBool true; ONone; OChar 97; ONone; OChar 13; OStr [98] 1; ONone; OBool true; ONone].
Proof.
  intros os. split; [| vm_compute; reflexivity].
  refine (text_file_refines easy_host _ _ 1 (text_world 1) 0 5 (text_fcb 1) (mkStream 3 4 [] false false) os _).
  - intros i p. reflexivity.
  - cbn. lia.
  - split; try reflexivity.
    + exists 0, []. split; [reflexivity | unfold byte; lia].
    + vm_compute default. repeat constructor; unfold byte; lia.
Defined.
