(* ===== verification/StdInput.v ===== *)
(** The readers of standard input, readq.c: they read one sequence of characters,
    also when the program uses INPUT^ and EOF(INPUT) in between; integers are read
    exactly or refused; a pointer that was written is read back. *)

From Stdlib Require Import ZArith Ascii String Lia.
From stdpp Require Import base list strings gmap numbers.
From S2P Require Import Prelude Files Readers ReaderProps FileProps.
#[local] Open Scope Z_scope.

Section StdInput.
Context (H : host).
Hypothesis Hread : forall i p, read_ok H i p = true.
Hypothesis Hpush : (0 < pushback H)%nat.

(** The FCB of INPUT holds no component. *)
Definition quiet (w : world) : Prop :=
  match std_input_fcb w with
  | None => True
  | Some f => exists fc, fcbs w !! f = Some fc /\
      (has MODE_STD fc = false \/ handle fc = None \/ buffer fc = None \/
       current_mode fc <> MODE_READ \/ is_eof fc = true \/ is_pending fc = true)
  end.

(** It holds [c]. *)
Definition holding (w : world) (c : Z) : Prop :=
  exists f fc b r, std_input_fcb w = Some f /\ fcbs w !! f = Some fc /\ has MODE_STD fc = true /\
    handle fc = Some stdin /\ buffer fc = Some (b :: r) /\ current_mode fc = MODE_READ /\
    is_eof fc = false /\ is_pending fc = false /\ c = if is_eoln fc then LF else b.

Definition std_view (w : world) (r : list Z) : Prop :=
  exists s, streams w !! stdin = Some s /\ Forall byte (avail w s) /\
    ((quiet w /\ (length (s_back s) <= pushback H)%nat /\ r = avail w s) \/
     (exists c, holding w c /\ byte c /\ (length (s_back s) < pushback H)%nat /\ r = c :: avail w s)).
Definition std_room (w : world) (r : list Z) : Prop :=
  exists s, streams w !! stdin = Some s /\ Forall byte (avail w s) /\ quiet w /\
    (length (s_back s) < pushback H)%nat /\ r = avail w s.

Lemma quiet_sync w : quiet w -> pas_std_input_sync H w = Ok (tt, w).
Proof using Type.
  unfold quiet, pas_std_input_sync, bind at 1, get. destruct (std_input_fcb w) as [f|]; [| done].
  intros (fc & Hf & Hq). rewrite (run_deref _ _ _ _ Hf).
  destruct (has MODE_STD fc) eqn:E1; [| done]. destruct (handle fc) as [h|] eqn:E2; [| done]. destruct (buffer fc) as [b|] eqn:E3; [| done].
  assert (negb (current_mode fc =? MODE_READ) || is_eof fc || is_pending fc = true) as ->; [| done].
  destruct Hq as [? | [? | [? | [Hm%Z.eqb_neq | [-> | ->]]]]]; try done; rewrite ?Hm; [done | |]; by rewrite ?orb_true_r.
Qed.

Lemma quiet_stream w h s : quiet w -> quiet (put_stream h s w).
Proof using Type. done. Qed.

(** Handing back a component puts it in front of what is left. *)
Lemma sync_spec w r : std_view w r -> exists w' s, pas_std_input_sync H w = Ok (tt, w') /\ quiet w' /\
  streams w' !! stdin = Some s /\ Forall byte (avail w' s) /\ (length (s_back s) <= pushback H)%nat /\ r = avail w' s.
Proof using Hpush.
  intros (s & Hs & Hb & [(Hq & Hl & ->) | (c & (f & fc & b & r0 & Hstd & Hf & H1 & H2 & H3 & H4 & H5 & H6 & ->) & Hc & Hl & ->)]).
  { exists w, s. by rewrite quiet_sync. }
  unfold pas_std_input_sync, bind at 1, get. rewrite Hstd, (run_deref _ _ _ _ Hf), H1, H2, H3, H4, H5, H6.
  change (negb (MODE_READ =? MODE_READ) || false || false) with false. cbn match.
  unfold first_byte. rewrite H3, (bind_ok (ret b) _ w b w) by done.
  destruct (ungetc_spec H Hpush w stdin s _ Hs Hl Hc) as (s' & E & Ha & Hi & Hl'). rewrite (bind_ok _ _ _ _ _ E).
  unfold set_mode_flags. rewrite (run_upd _ f fc) by done. rewrite (upd_ok _ _ _ _ (fcb_put _ _ _)), put_fcb_twice.
  eexists _, s'. split; [reflexivity |].
  change (avail (put_fcb f ?x (put_stream stdin s' w))) with (avail w). rewrite Ha.
  split; [| split; [apply lookup_insert_eq |]; split; [by constructor |]; split; [lia | done]].
  unfold quiet. cbn [std_input_fcb put_fcb put_stream]. rewrite Hstd. eexists. split; [apply fcb_put |].
  do 5 right. change (is_pending (set_touched false ?x)) with (is_pending x). apply (flags_pending _ _ _ _ _ a_read).
Qed.

#[export] Instance std_is_source : CharSource (std_source H) std_view std_room.
Proof using Hread Hpush.
  split.
  - intros w r Hv. destruct (sync_spec w r Hv) as (w1 & s & E & Hq & Hs & Hb & Hl & ->). cbn [next std_source]. unfold std_getchar.
    rewrite (bind_ok _ _ _ _ _ E). destruct (fgetc_spec H Hread w1 stdin s Hs) as (s' & Hi & Hl' & Hg).
    destruct (avail w1 s) as [|c l] eqn:Ea.
    + destruct Hg as (Eg & Ha & He). exists EOF, (put_stream stdin s' w1). split; [done |]. split; [done |]. exists s'.
      split; [apply lookup_insert_eq |]. change (avail (put_stream stdin s' w1)) with (avail w1). rewrite Ha. split; [done |].
      left. split; [done |]. split; [lia | done].
    + destruct Hg as (Eg & Ha). exists c, (put_stream stdin s' w1). split; [done |]. apply Forall_cons_1 in Hb as [Hc Hb].
      split; [done |]. split; [done |]. exists s'. split; [apply lookup_insert_eq |].
      change (avail (put_stream stdin s' w1)) with (avail w1). rewrite Ha. split; [done |]. split; [done |]. split; [lia | done].
  - intros w ch r. cbn [unget std_source]. unfold unread. destruct r as [|c r]; cbn [at_char]; [intros [-> Hv]; by exists w |].
    intros (-> & Hc & s & Hs & Hb & Hq & Hl & ->). destruct (Z.eqb_spec c EOF) as [E | _]; [unfold EOF in E; lia |].
    destruct (ungetc_spec H Hpush w stdin s c Hs Hl Hc) as (s' & E & Ha & Hi & Hl'). exists (put_stream stdin s' w). split; [done |].
    exists s'. split; [apply lookup_insert_eq |]. change (avail (put_stream stdin s' w)) with (avail w). rewrite Ha. split; [by constructor |].
    left. split; [done |]. split; [lia | done].
  - intros w r (s & Hs & Hb & Hq & Hl & ->). exists s. split; [done |]. split; [done |]. left. split; [done |]. split; [lia | done].
Qed.

Lemma std_fuel w r : std_view w r -> exists n, fuel_for stdin w = Ok (n, w) /\ (length r < n)%nat.
Proof using Type.
  intros (s & Hs & _ & Hr). unfold fuel_for. rewrite (bind_ok _ _ _ _ _ (stream_ok _ _ _ Hs)).
  rewrite (bind_ok (content_of _) _ w (default [] (inodes w !! s_ino s)) w) by done. eexists. split; [reflexivity |].
  assert (length (avail w s) <= length (s_back s) + length (default [] (inodes w !! s_ino s)))%nat as Hl.
  { unfold avail. rewrite length_app, length_drop. clear. lia. }
  destruct Hr as [(_ & _ & ->) | (c & _ & _ & _ & ->)]; revert Hl; clear; cbn [length]; lia.
Qed.

(** What [read_wide_decimal] makes of the verdict on the text. *)
Definition std_decimal (d : decimal) : res Z :=
  match d with
  | DecEof => Err (RtAbort "runtime error: unexpected EOF while reading integer")
  | DecMalformed => Err (RtAbort "runtime error: malformed integer input")
  | DecRange => Err (RtAbort "runtime error: integer out of range")
  | DecValue v => Ok v
  end.

Lemma wide_std w r bits : std_view w r ->
  match std_decimal (decimal_spec bits r).1 with
  | Ok v => exists w', read_wide_decimal H bits w = Ok (v, w') /\ std_view w' (decimal_spec bits r).2
  | Err e => read_wide_decimal H bits w = Err e
  end.
Proof using Hread Hpush.
  intros Hv. unfold read_wide_decimal. destruct (std_fuel w r Hv) as (n & En & Hn). rewrite (bind_ok _ _ _ _ _ En).
  destruct (scan_decimal_spec _ _ _ w r n bits Hv Hn) as (w' & E & Hv'). rewrite (bind_ok _ _ _ _ _ E).
  destruct (decimal_spec bits r) as [[| | | v] r']; cbn [fst snd std_decimal] in *; try done. by exists w'.
Qed.

(** The reader of each width. *)
Definition std_int (bits : Z) : ST world Z :=
  if bits =? 16 then pas_read_int16 H else if bits =? 32 then pas_read_int32 H else pas_read_int64 H.

Lemma std_int_ok w r bits v r' : bits = 16 \/ bits = 32 \/ bits = 64 -> std_view w r -> decimal_spec bits r = (DecValue v, r') ->
  exists w', std_int bits w = Ok (v, w') /\ std_view w' r'.
Proof using Hread Hpush.
  intros Hbits Hv Ed. pose proof (wide_std w r bits Hv) as Hw. rewrite Ed in Hw. cbn in Hw. destruct Hw as (w' & E & Hv').
  exists w'. split; [| done]. apply decimal_spec_range in Ed. unfold std_int.
  destruct Hbits as [-> | [-> | ->]]; cbn [Z.eqb Pos.eqb]; unfold pas_read_int16, pas_read_int32, pas_read_int64; [| | done];
    rewrite (bind_ok _ _ _ _ _ E); unfold ret; rewrite dec_fits_swrap; auto.
Qed.

Lemma std_int_bad w r bits d r' e : bits = 16 \/ bits = 32 \/ bits = 64 -> std_view w r -> decimal_spec bits r = (d, r') ->
  std_decimal d = Err e -> std_int bits w = Err e.
Proof using Hread Hpush.
  intros Hbits Hv Ed He. pose proof (wide_std w r bits Hv) as Hw. rewrite Ed in Hw. cbn in Hw. rewrite He in Hw. unfold std_int.
  destruct Hbits as [-> | [-> | ->]]; cbn [Z.eqb Pos.eqb]; unfold pas_read_int16, pas_read_int32, pas_read_int64; [| | done];
    by rewrite (bind_err _ _ _ _ Hw).
Qed.

(** C26: Reading an INTEGER of 16, 32 or 64 bits from standard input is exact: blanks and
    line ends are skipped, a sign and any number of digits, leading zeros included,
    give their value when it fits the type and stop the program otherwise; the
    characters after the digits are left to be read. *)
Theorem std_integers_exact w bits sp neg plus d ds rest :
  bits = 16 \/ bits = 32 \/ bits = 64 ->
  std_view w (sp ++ number_text neg plus (d :: ds) ++ rest) ->
  Forall (fun c => is_space c = true) sp -> Forall (fun c => is_digit c = true) (d :: ds) ->
  match rest with c :: _ => is_digit c = false | [] => True end ->
  let v := if (neg : bool) then - num 10 (d :: ds) else num 10 (d :: ds) in
  (in_srange bits v /\ exists w', std_int bits w = Ok (v, w') /\ std_view w' rest) \/
  (~ in_srange bits v /\ std_int bits w = Err (RtAbort "runtime error: integer out of range")).
Proof using Hread Hpush.
  intros Hbits Hv Hsp Hds Hrest v.
  pose proof (decimal_spec_text bits sp neg plus d ds rest Hsp Hds Hrest) as Ed. cbv zeta in Ed. fold v in Ed.
  assert (dec_fits bits v = true <-> in_srange bits v) as Hfit.
  { unfold dec_fits. rewrite andb_true_iff, fits64_iff. unfold in_srange, in_bits.
    destruct Hbits as [-> | [-> | ->]]; cbn [Z.eqb Pos.eqb]; rewrite ?andb_true_iff, ?Z.leb_le; unfold INT32_MIN, INT32_MAX; cbn; lia. }
  destruct (dec_fits bits v) eqn:Ef.
  - left. split; [by apply Hfit |]. by eapply std_int_ok.
  - right. split; [intros Hr%Hfit; done |]. by eapply std_int_bad.
Qed.

(** A pointer value survives WRITE and READ: the unsigned decimal digits of any 64-bit
    value, after any number of blanks, are read back as this value. *)
Theorem pointer_roundtrip w k v rest : 0 <= v < 2 ^ 64 ->
  match rest with c :: _ => is_digit c = false /\ is_alpha c = false | [] => True end ->
  std_view w (replicate k 32 ++ codes (dec_bytes v) ++ rest) ->
  exists w', pas_read_ptr H w = Ok (v, w') /\ std_view w' rest.
Proof using Hread Hpush.
  intros Hv Hrest Hw. unfold pas_read_ptr. destruct (std_fuel _ _ Hw) as (n & En & Hn). rewrite (bind_ok _ _ _ _ _ En).
  destruct (scan_ptr_spec _ _ _ w _ n Hw Hn) as (w' & E & Hv'). rewrite (bind_ok _ _ _ _ _ E).
  rewrite ptr_spec_written in * by done. by exists w'.
Qed.
End StdInput.

(** Standard input, with and without a component in the buffer of INPUT. *)
Definition input_world (text : list Z) : world :=
  mkWorld {[7%nat := text]} ∅ {[stdin := mkStream 7 0 [] false false]} ∅ None 10.
Definition input_fcb : fcb :=
  mkFcb 1 STRUCT_TEXT false (Z.lor MODE_READ MODE_STD) (Some [45]) (Some stdin) None 0 0 None 0.
Definition held_world (text : list Z) : world :=
  mkWorld {[7%nat := text]} ∅ {[stdin := mkStream 7 0 [] false false]} {[0%nat := input_fcb]} (Some 0%nat) 10.

Lemma held_view text : Forall byte text -> std_view easy_host (held_world text) (45 :: text).
Proof.
  intros Hb. exists (mkStream 7 0 [] false false). split; [reflexivity |]. split; [exact Hb |]. right. exists 45.
  split; [| split; [unfold byte; lia | split; [cbn; lia | reflexivity]]].
  exists 0%nat, input_fcb, 45, []. repeat split; reflexivity.
Qed.

Lemma input_view text : Forall byte text -> std_view easy_host (input_world text) text.
Proof.
  intros Hb. exists (mkStream 7 0 [] false false). split; [reflexivity |]. split; [exact Hb |]. left.
  split; [exact I |]. split; [cbn; lia | reflexivity].
Qed.

(** INPUT holds the minus sign of [-00032768], which INTEGER can hold. *)
Lemma std_integers_exact_witness :
  let w := held_world [48; 48; 48; 51; 50; 55; 54; 56; 10] in
  (in_srange 16 (-32768) /\ exists w', std_int easy_host 16 w = Ok (-32768, w') /\ std_view easy_host w' [10]) \/
  (~ in_srange 16 (-32768) /\ std_int easy_host 16 w = Err (RtAbort "runtime error: integer out of range")).
Proof.
  intros w. apply (std_integers_exact easy_host (fun _ _ => eq_refl) ltac:(cbn; lia) w 16 [] true false 48 [48; 48; 51; 50; 55; 54; 56] [10]).
  - left. reflexivity.
  - apply held_view. repeat constructor; unfold byte; lia.
  - constructor.
  - repeat constructor.
  - reflexivity.
Defined.

Lemma pointer_roundtrip_witness :
  exists w', pas_read_ptr easy_host (input_world (replicate 3 32 ++ codes (dec_bytes 18446744073709551615) ++ [10])) = Ok (18446744073709551615, w') /\
    std_view easy_host w' [10].
Proof.
  apply (pointer_roundtrip easy_host (fun _ _ => eq_refl) ltac:(cbn; lia) _ 3 18446744073709551615 [10]).
  - lia.
  - split; reflexivity.
  - apply input_view. vm_compute. repeat constructor; discriminate.
Defined.

(** ** Where the two kinds of reader differ *)

Definition attached (text : list Z) : world :=
  mkWorld {[7%nat := text]} ∅ {[stdin := mkStream 7 0 [] false false]}
          {[0%nat := mkFcb 1 STRUCT_TEXT false MODE_CLOSED (Some [0]) None None 0 0 None 0]} None 10.

(** At the end of a line of DOS, EOLN(INPUT) is true and the bare EOLN is false: the
    bare readers do not fold CR LF. *)
Lemma bare_eoln_unfolded :
  answers ((do* pas_file_attach_std (Some 0%nat) None in pas_file_eoln easy_host (Some 0%nat)) (attached [13; 10])) = Ok true /\
  answers ((do* pas_file_attach_std (Some 0%nat) None in pas_read_eoln easy_host) (attached [13; 10])) = Ok false.
Proof. split; vm_compute; reflexivity. Qed.

(** After INPUT^ has looked at a CR that no LF follows, handing it back needs a second
    pushed-back character; where [ungetc] keeps one, which is all C promises, the CR is
    lost to the bare readers. *)
Lemma bare_cr_lost :
  let look := do* pas_file_attach_std (Some 0%nat) None in do* pas_file_buffer easy_host (Some 0%nat) in pas_read_char easy_host in
  let look2 := do* pas_file_attach_std (Some 0%nat) None in
               do* pas_file_buffer (mkHost (fun _ => true) (fun _ => true) true (fun _ _ => true) (fun _ _ => true) (fun _ => true) 2) (Some 0%nat) in
               pas_read_char (mkHost (fun _ => true) (fun _ => true) true (fun _ _ => true) (fun _ _ => true) (fun _ => true) 2) in
  answers (look (attached [13; 65])) = Ok 65 /\ answers (look2 (attached [13; 65])) = Ok 13.
Proof. split; vm_compute; reflexivity. Qed.
