(* ===== verification/FileRound.v ===== *)
(** What PUT wrote to a FILE OF T, GET reads back: REWRITE, any number of components,
    RESET, and the components until EOF. *)

From Stdlib Require Import ZArith Ascii String Lia.
From stdpp Require Import base list strings gmap numbers.
From S2P Require Import Prelude Files Readers ReaderProps FileProps.
#[local] Open Scope Z_scope.

Section Round.
Context (H : host).

(** * The program *)

(** F^ := c; PUT(F), for each component. *)
Fixpoint put_all (f : nat) (cs : list (list Z)) : ST world unit :=
  match cs with
  | [] => ret tt
  | c :: cs' => do* upd (Some f) (set_buffer (Some c)) in do* pas_file_put H (Some f) in put_all f cs'
  end.

(** WHILE NOT EOF(F) DO take F^ and GET(F). *)
Fixpoint get_all (fuel : nat) (f : nat) : ST world (list (option (list Z))) :=
  match fuel with
  | O => fail OutOfFuel
  | S n =>
      let* e := pas_file_eof H (Some f) in
      if e then ret []
      else
        do* pas_file_buffer H (Some f) in
        let* fc := deref (Some f) in
        do* pas_file_get H (Some f) in
        let* r := get_all n f in
        ret (buffer fc :: r)
  end.

Definition write_then_read (f : nat) (cs : list (list Z)) : ST world (list (option (list Z))) :=
  do* pas_file_rewrite H (Some f) in
  do* put_all f cs in
  do* pas_file_reset H (Some f) in
  get_all (S (length cs)) f.

Hypothesis Hread : forall i p, read_ok H i p = true.
Hypothesis Hwrite : forall i p, write_ok H i p = true.
Hypothesis Hflush : forall h, flush_ok H h = true.

(** * Writing *)

Lemma put_byte_end c v : put_byte c (length c) v = c ++ [v].
Proof using Type.
  unfold put_byte. rewrite Nat.sub_diag. cbn [replicate]. rewrite app_nil_r, take_ge by done.
  rewrite drop_ge by (apply Nat.le_succ_diag_r). done.
Qed.

Lemma fwrite_spec bs : forall w h i c, streams w !! h = Some (mkStream i (length c) [] false false) -> inodes w !! i = Some c ->
  fwrite H bs h w = Ok (length bs, put_stream h (mkStream i (length (c ++ bs)) [] false false) (put_inode i (c ++ bs) w)).
Proof using Hwrite.
  induction bs as [|v bs IH]; intros w h i c Hs Hi; cbn [fwrite].
  - rewrite app_nil_r. unfold put_stream, put_inode. cbn. rewrite !insert_id by done. by destruct w.
  - rewrite (bind_ok _ _ _ _ _ (stream_ok _ _ _ Hs)). cbn [s_ino s_pos].
    rewrite (bind_ok (content_of i) _ w c w) by (unfold content_of; by rewrite Hi). rewrite Hwrite. cbn [negb].
    rewrite (bind_ok (modify _) _ w tt (put_inode i (put_byte c (length c) v) w)) by done.
    rewrite (bind_ok (modify _) _ _ tt (put_stream h (mkStream i (S (length c)) [] false false) (put_inode i (put_byte c (length c) v) w))) by done.
    rewrite put_byte_end. set (w1 := put_stream _ _ _).
    assert (S (length c) = length (c ++ [v])) as El by (rewrite length_app; cbn; by rewrite Nat.add_1_r).
    rewrite (bind_ok (fwrite H bs h) _ w1 (length bs) (put_stream h (mkStream i (length (c ++ v :: bs)) [] false false) (put_inode i (c ++ v :: bs) w))); [done |].
    replace (c ++ v :: bs) with ((c ++ [v]) ++ bs) by (by rewrite <- app_assoc).
    rewrite (IH w1 h i (c ++ [v])).
    + f_equal. f_equal. unfold w1, put_stream, put_inode. cbn. by rewrite !insert_insert_eq.
    + unfold w1. rewrite El. apply lookup_insert_eq.
    + apply lookup_insert_eq.
Qed.

(** The file is being written: [c] is on the disk. *)
Record writing (n : nat) (w : world) (f h i : nat) (fc : fcb) (c : list Z) : Prop := {
  wr_fcb : fcbs w !! f = Some fc;
  wr_handle : handle fc = Some h;
  wr_stream : streams w !! h = Some (mkStream i (length c) [] false false);
  wr_inode : inodes w !! i = Some c;
  wr_binary : structure fc <> STRUCT_TEXT;
  wr_size : Z.to_nat (elem_size fc) = n;
  wr_mode : current_mode fc = MODE_WRITE;
  wr_buf : exists b, buffer fc = Some b /\ length b = n
}.

Lemma put_spec n w f h i fc c x : writing n w f h i fc c -> length x = n -> (0 < n)%nat ->
  exists w' fc', (do* upd (Some f) (set_buffer (Some x)) in pas_file_put H (Some f)) w = Ok (tt, w') /\
    writing n w' f h i fc' (c ++ x).
Proof using Hwrite.
  intros [Hf Hh Hs Hi Hbin Hn Hm Hb] Hx Hpos. rewrite (run_upd _ _ _ _ _ Hf). set (fc1 := set_buffer (Some x) fc).
  unfold pas_file_put. rewrite (bind_ok _ _ _ _ _ (ensure_ok H _ f fc1 h (fcb_put _ _ _) Hh)).
  rewrite (bind_ok _ _ _ _ _ (checked_ok _ f fc1 x (fcb_put _ _ _) eq_refl)), (run_deref _ _ _ _ (fcb_put _ _ _)).
  change (current_mode fc1) with (current_mode fc). change (structure fc1) with (structure fc). change (elem_size fc1) with (elem_size fc).
  rewrite Hm. change (MODE_WRITE =? MODE_WRITE) with true. cbn [negb]. apply Z.eqb_neq in Hbin as Hbin'. rewrite Hbin', Hn. cbn [buffer fc1 set_buffer].
  rewrite (take_ge x n) by lia. rewrite Hx, Nat.eqb_refl. cbn [negb].
  rewrite (bind_ok _ _ _ _ _ (fwrite_spec x (put_fcb f fc1 w) h i c Hs Hi)), Hx, Nat.eqb_refl. cbn [negb].
  destruct x as [|x0 x]; [cbn in Hx; lia |].
  set (w2 := put_stream _ _ _).
  rewrite (bind_ok (first_byte fc1) _ w2 x0 w2) by done. unfold set_mode_flags. cbn [andb].
  assert (fcbs w2 !! f = Some fc1) as Hf2 by apply lookup_insert_eq.
  rewrite (run_upd _ _ _ _ _ Hf2), (upd_ok _ _ _ _ (fcb_put _ _ _)), put_fcb_twice. eexists _, _. split; [reflexivity |].
  destruct (flags_rest MODE_WRITE true false false fc1) as (Ebuf & Eh & Es & _ & Ee & _).
  set (fc2 := with_flags MODE_WRITE true false false fc1) in *. split.
  - apply fcb_put.
  - change (handle fc2 = Some h). by rewrite Eh.
  - apply lookup_insert_eq.
  - apply lookup_insert_eq.
  - change (structure fc2 <> STRUCT_TEXT). by rewrite Es.
  - change (Z.to_nat (elem_size fc2) = n). unfold elem_size in *. by rewrite Ee.
  - apply (flags_mode _ _ _ _ _ a_write).
  - exists (x0 :: x). split; [| done]. change (buffer fc2 = Some (x0 :: x)). by rewrite Ebuf.
Qed.

Lemma put_all_spec n f h i cs : (0 < n)%nat -> forall w fc c, Forall (fun x => length x = n) cs -> writing n w f h i fc c ->
  exists w' fc', put_all f cs w = Ok (tt, w') /\ writing n w' f h i fc' (c ++ concat cs).
Proof using Hwrite.
  intros Hpos. induction cs as [|x cs IH]; intros w fc c Hl Hw; cbn [put_all concat].
  - exists w, fc. rewrite app_nil_r. done.
  - apply Forall_cons_1 in Hl as [Hx Hl]. destruct (put_spec n w f h i fc c x Hw Hx Hpos) as (w1 & fc1 & E & Hw1).
    destruct (IH w1 fc1 _ Hl Hw1) as (w2 & fc2 & E2 & Hw2). exists w2, fc2. rewrite app_assoc. split; [| done].
    rewrite <- E2. unfold bind in *. destruct (upd (Some f) (set_buffer (Some x)) w) as [[[] wu]|e]; [| done]. by rewrite E.
Qed.

(** * Reading *)

Lemma fread_spec a : forall w h s l, streams w !! h = Some s -> avail w s = a ++ l -> Forall byte a ->
  exists s', fread H (length a) h w = Ok (a, put_stream h s' w) /\ avail w s' = l.
Proof using Hread.
  induction a as [|c a IH]; intros w h s l Hs Ha Hb; cbn [length fread].
  - exists s. split; [| done]. unfold ret, put_stream. rewrite insert_id by done. by destruct w.
  - apply Forall_cons_1 in Hb as [Hc Hb]. destruct (fgetc_spec H Hread w h s Hs) as (s1 & Hi & Hl1 & Hg). rewrite Ha in Hg. cbn [app] in Hg.
    destruct Hg as (E & Ha1). rewrite (bind_ok _ _ _ _ _ E). destruct (Z.eqb_spec c EOF) as [Ec | _]; [unfold EOF, byte in *; lia |].
    assert (streams (put_stream h s1 w) !! h = Some s1) as Hs1 by apply lookup_insert_eq.
    destruct (IH (put_stream h s1 w) h s1 l Hs1 Ha1 Hb) as (s2 & E2 & Ha2). rewrite (bind_ok _ _ _ _ _ E2).
    rewrite put_stream_twice in *. exists s2. done.
Qed.

Lemma fread_end n w h s : streams w !! h = Some s -> avail w s = [] -> (0 < n)%nat ->
  exists s', fread H n h w = Ok ([], put_stream h s' w) /\ avail w s' = [] /\ s_eof s' = true.
Proof using Hread.
  intros Hs Ha Hn. destruct n as [|n]; [lia |]. cbn [fread]. destruct (fgetc_spec H Hread w h s Hs) as (s1 & _ & _ & Hg). rewrite Ha in Hg.
  destruct Hg as (E & Ha1 & He). rewrite (bind_ok _ _ _ _ _ E). by exists s1.
Qed.

(** The file is being read: [cs] are the components that are left. *)
Record reading (n : nat) (w : world) (f h : nat) (fc : fcb) (s : stream) (cs : list (list Z)) : Prop := {
  rd_fcb : fcbs w !! f = Some fc;
  rd_handle : handle fc = Some h;
  rd_stream : streams w !! h = Some s;
  rd_binary : structure fc <> STRUCT_TEXT;
  rd_size : Z.to_nat (elem_size fc) = n;
  rd_mode : current_mode fc = MODE_READ;
  rd_buf : exists b, buffer fc = Some b /\ length b = n;
  rd_comps : Forall (fun x => length x = n /\ Forall byte x) cs;
  rd_left :
    if is_eof fc then is_pending fc = false /\ cs = []
    else if is_pending fc then avail w s = concat cs
    else exists x cs', cs = x :: cs' /\ buffer fc = Some x /\ avail w s = concat cs'
}.

(** A fill from a stream that holds [cs]. *)
Lemma raw_get_binary n w f h fc s cs allow : (0 < n)%nat ->
  fcbs w !! f = Some fc -> handle fc = Some h -> streams w !! h = Some s -> structure fc <> STRUCT_TEXT ->
  Z.to_nat (elem_size fc) = n -> current_mode fc = MODE_READ -> (exists b, buffer fc = Some b /\ length b = n) ->
  Forall (fun x => length x = n /\ Forall byte x) cs -> avail w s = concat cs -> allow = true \/ is_eof fc = false ->
  exists w' fc' s', raw_get H (Some f) allow w = Ok (tt, w') /\ reading n w' f h fc' s' cs /\ is_pending fc' = false.
Proof using Hread.
  intros Hpos Hf Hh Hs Hbin Hn Hm (b & Hb & Hbl) Hcs Ha Hal. unfold raw_get.
  rewrite (bind_ok _ _ _ _ _ (ensure_ok H w f fc h Hf Hh)), (bind_ok _ _ _ _ _ (checked_ok w f fc b Hf Hb)), (run_deref _ _ _ _ Hf), Hm.
  change (MODE_READ =? MODE_READ) with true. cbn [negb].
  replace (negb allow && is_eof fc) with false by (by destruct Hal as [-> | ->]; rewrite ?andb_false_r).
  apply Z.eqb_neq in Hbin as Hbin'. rewrite Hbin', Hn.
  assert (forall got s' eof, length got = n \/ got = [] -> avail w s' = (if eof : bool then [] else concat (tail cs)) ->
            (if eof then cs = [] else exists x cs', cs = x :: cs' /\ got = x) ->
            let fc' := set_touched false (with_flags MODE_READ eof false false (store_bytes got fc)) in
            reading n (put_fcb f fc' (put_stream h s' w)) f h fc' s' cs /\ is_pending fc' = false) as Hdone.
  { intros got s' eof Hg Ha' Hc fc'. destruct (flags_rest MODE_READ eof false false (store_bytes got fc)) as (Ebuf & Eh & Es & _ & Ee & _).
    set (fc2 := with_flags MODE_READ eof false false (store_bytes got fc)) in *.
    assert (buffer (store_bytes got fc) = Some (if decide (got = []) then b else got)) as Hsb.
    { unfold store_bytes. rewrite Hb. cbn. destruct Hg as [Hg | ->]; [| done].
      rewrite drop_ge, app_nil_r by lia. destruct (decide (got = [])) as [-> | _]; [cbn in Hg; lia | done]. }
    assert (handle (store_bytes got fc) = handle fc /\ structure (store_bytes got fc) = structure fc /\ elem_size_ (store_bytes got fc) = elem_size_ fc)
      as (E1 & E2 & E3) by (unfold store_bytes; by rewrite Hb).
    assert (is_pending fc' = false) as Hp by apply (flags_pending _ _ _ _ _ a_read). split; [| done]. split; try done.
    - apply fcb_put.
    - change (handle fc') with (handle fc2). congruence.
    - apply lookup_insert_eq.
    - change (structure fc') with (structure fc2). congruence.
    - unfold elem_size in *. change (elem_size_ fc') with (elem_size_ fc2). by rewrite Ee, E3.
    - apply (flags_mode _ _ _ _ _ a_read).
    - eexists. change (buffer fc') with (buffer fc2). rewrite Ebuf, Hsb. split; [reflexivity |].
      destruct (decide (got = [])) as [-> | Hne]; [done |]. by destruct Hg.
    - assert (is_eof fc' = eof) as -> by apply (flags_eof _ _ _ _ _ a_read). rewrite Hp. destruct eof; [done |].
      destruct Hc as (x & cs' & -> & ->). exists x, cs'. split; [done |]. change (buffer fc') with (buffer fc2). rewrite Ebuf, Hsb. split; [| done].
      destruct (decide (x = [])) as [-> | _]; [| done]. apply Forall_cons_1 in Hcs as [[Hx _] _]. cbn in Hx. lia. }
  destruct cs as [|x cs].
  - destruct (fread_end n w h s Hs Ha Hpos) as (s' & E & Ha' & He). rewrite (bind_ok _ _ _ _ _ E).
    assert (fcbs (put_stream h s' w) !! f = Some fc) as Hf1 by done. rewrite (run_upd _ _ _ _ _ Hf1).
    destruct (Nat.eqb_spec (length (@nil Z)) n) as [E0 | _]; [cbn in E0; lia |].
    assert (feof h (put_fcb f (store_bytes [] fc) (put_stream h s' w)) = Ok (true, put_fcb f (store_bytes [] fc) (put_stream h s' w))) as Ef.
    { unfold feof. rewrite (bind_ok (stream_of h) _ _ s' (put_fcb f (store_bytes [] fc) (put_stream h s' w))); [unfold ret; by rewrite He |].
      apply stream_ok. apply lookup_insert_eq. }
    rewrite (bind_ok _ _ _ _ _ Ef). unfold set_mode_flags.
    rewrite (run_upd _ _ _ _ _ (fcb_put _ _ _)), (upd_ok _ _ _ _ (fcb_put _ _ _)), !put_fcb_twice.
    eexists _, _, s'. split; [reflexivity |]. apply (Hdone [] s' true); [by right | done | done].
  - apply Forall_cons_1 in Hcs as Hcs'. destruct Hcs' as [[Hx Hxb] _]. cbn [concat] in Ha.
    destruct (fread_spec x w h s (concat cs) Hs Ha Hxb) as (s' & E & Ha'). rewrite Hx in E. rewrite (bind_ok _ _ _ _ _ E).
    assert (fcbs (put_stream h s' w) !! f = Some fc) as Hf1 by done. rewrite (run_upd _ _ _ _ _ Hf1), Hx, Nat.eqb_refl.
    unfold set_mode_flags. rewrite (run_upd _ _ _ _ _ (fcb_put _ _ _)), (upd_ok _ _ _ _ (fcb_put _ _ _)), !put_fcb_twice.
    eexists _, _, s'. split; [reflexivity |]. apply (Hdone x s' false); [by left | done | by exists x, cs].
Qed.

Lemma fill_binary n w f h fc s cs : (0 < n)%nat -> reading n w f h fc s cs ->
  exists w' fc' s', force_fill H (Some f) w = Ok (tt, w') /\ reading n w' f h fc' s' cs /\ is_pending fc' = false.
Proof using Hread.
  intros Hpos Hr. pose proof Hr as [Hf Hh Hs Hbin Hn Hm Hb Hcs Hl]. unfold force_fill. rewrite (run_deref _ _ _ _ Hf).
  destruct (is_pending fc) eqn:Ep; [| by exists w, fc, s]. destruct (is_eof fc) eqn:Ee; [by destruct Hl |].
  eapply raw_get_binary; eauto.
Qed.

Lemma get_all_spec n f h cs : (0 < n)%nat -> forall w fc s, reading n w f h fc s cs ->
  exists w', get_all (S (length cs)) f w = Ok (map Some cs, w').
Proof using Hread.
  intros Hpos. induction cs as [|x cs IH]; intros w fc s Hr; cbn [get_all length].
  - destruct (fill_binary n w f h fc s [] Hpos Hr) as (w1 & fc1 & s1 & E & Hr1 & Hp). unfold pas_file_eof.
    pose proof Hr1 as [Hf1 _ _ _ _ Hm1 _ _ Hl1]. rewrite Hp in Hl1.
    assert (is_eof fc1 = true) as Ee by (destruct (is_eof fc1); [done | by destruct Hl1 as (? & ? & ? & _)]).
    rewrite (bind_ok (do* force_fill H (Some f) in _) _ w true w1); [by eexists |].
    by rewrite (bind_ok _ _ _ _ _ E), (run_deref _ _ _ _ Hf1), Hm1, Ee.
  - destruct (fill_binary n w f h fc s _ Hpos Hr) as (w1 & fc1 & s1 & E & Hr1 & Hp). unfold pas_file_eof.
    pose proof Hr1 as [Hf1 Hh1 Hs1 Hbin1 Hn1 Hm1 Hb1 Hcs1 Hl1]. rewrite Hp in Hl1.
    assert (is_eof fc1 = false) as Ee by (destruct (is_eof fc1); [by destruct Hl1 | done]). rewrite Ee in Hl1.
    destruct Hl1 as (x' & cs' & [= <- <-] & Hbuf & Hav).
    rewrite (bind_ok (do* force_fill H (Some f) in _) _ w false w1)
      by (by rewrite (bind_ok _ _ _ _ _ E), (run_deref _ _ _ _ Hf1), Hm1, Ee).
    assert (force_fill H (Some f) w1 = Ok (tt, w1)) as E2 by (unfold force_fill; by rewrite (run_deref _ _ _ _ Hf1), Hp).
    rewrite (bind_ok (pas_file_buffer H (Some f)) _ w1 (Some f) w1)
      by (unfold pas_file_buffer; by rewrite (bind_ok _ _ _ _ _ E2), (run_deref _ _ _ _ Hf1), Hbuf).
    rewrite (run_deref _ _ _ _ Hf1). apply Forall_cons_1 in Hcs1 as [_ Hcs1].
    destruct (raw_get_binary n w1 f h fc1 s1 cs false Hpos Hf1 Hh1 Hs1 Hbin1 Hn1 Hm1 Hb1 Hcs1 Hav ltac:(by right))
      as (w2 & fc2 & s2 & E3 & Hr2 & _).
    rewrite (bind_ok (pas_file_get H (Some f)) _ w1 tt w2) by (unfold pas_file_get; by rewrite (bind_ok _ _ _ _ _ E2)).
    destruct (IH w2 fc2 s2 Hr2) as (w3 & E4). rewrite (bind_ok _ _ _ _ _ E4), Hbuf. by eexists.
Qed.

(** * REWRITE and RESET *)

(** A FILE OF T that can be generated: its buffer has the size of a component, it is not
    INPUT or OUTPUT, a stream it owns is open, and the host lets its file be made. *)
Record ready (n : nat) (w : world) (f : nat) (fc : fcb) : Prop := {
  rw_fcb : fcbs w !! f = Some fc;
  rw_binary : structure fc <> STRUCT_TEXT;
  rw_size : Z.to_nat (elem_size fc) = n;
  rw_buf : exists b, buffer fc = Some b /\ length b = n;
  rw_std : has MODE_STD fc = false;
  rw_handle : match handle fc with Some h => is_Some (streams w !! h) | None => True end;
  rw_name : match name fc with Some nm => creatable H (cstr nm) = true | None => tmp_ok H = true end
}.

(** What REWRITE does once the new stream [h] on the empty file [i] is there. *)
Lemma opened_writing n w f h i fc (g : fcb -> fcb) : fcbs w !! f = Some fc ->
  streams w !! h = Some (mkStream i 0 [] false false) -> inodes w !! i = Some [] ->
  structure (g fc) <> STRUCT_TEXT -> Z.to_nat (elem_size (g fc)) = n -> (exists b, buffer (g fc) = Some b /\ length b = n) ->
  exists w' fc', (do* upd (Some f) g in
                  do* upd (Some f) (fun fc => or_mode MODE_OWNS_HANDLE (set_handle (Some h) fc)) in
                  do* set_mode_flags (Some f) MODE_WRITE true false false in
                  upd (Some f) (set_touched false)) w = Ok (tt, w') /\ writing n w' f h i fc' [].
Proof using Type.
  intros Hf Hs Hi Hbin Hn Hb. unfold set_mode_flags. rewrite (run_upd _ _ _ _ _ Hf), (run_upd _ _ _ _ _ (fcb_put _ _ _)).
  rewrite (run_upd _ _ _ _ _ (fcb_put _ _ _)), (upd_ok _ _ _ _ (fcb_put _ _ _)), !put_fcb_twice.
  set (fc1 := or_mode MODE_OWNS_HANDLE (set_handle (Some h) (g fc))).
  eexists _, (set_touched false (with_flags MODE_WRITE true false false fc1)). split; [reflexivity |].
  destruct (flags_rest MODE_WRITE true false false fc1) as (Ebuf & Eh & Es & _ & Ee & _). set (fc2 := with_flags MODE_WRITE true false false fc1) in *.
  split; try done.
  - apply fcb_put.
  - change (structure fc2 <> STRUCT_TEXT). by rewrite Es.
  - change (Z.to_nat (elem_size fc2) = n). unfold elem_size in *. by rewrite Ee.
  - apply (flags_mode _ _ _ _ _ a_write).
  - destruct Hb as (b & Hb & Hl). exists b. split; [| done]. change (buffer fc2 = Some b). by rewrite Ebuf.
Qed.

(** A new stream on an empty file. *)
Lemma fopen_wplus_spec w nm : creatable H (cstr nm) = true -> exists h i w', fopen_wplus H nm w = Ok (Some h, w') /\
  fcbs w' = fcbs w /\ streams w' !! h = Some (mkStream i 0 [] false false) /\ inodes w' !! i = Some [].
Proof using Type.
  intros Hc. unfold fopen_wplus. rewrite Hc. cbn [negb]. destruct (dir w !! cstr nm) as [i|].
  - exists (fresh_id w), i. eexists. split; [reflexivity |]. split; [done |]. split; apply lookup_insert_eq.
  - exists (S (fresh_id w)), (fresh_id w). eexists. split; [reflexivity |]. split; [done |]. split; apply lookup_insert_eq.
Qed.

Lemma tmpfile_spec w : tmp_ok H = true -> exists h i w', pas_project_tmpfile H w = Ok (Some h, w') /\
  fcbs w' = fcbs w /\ streams w' !! h = Some (mkStream i 0 [] false false) /\ inodes w' !! i = Some [].
Proof using Type.
  intros Hc. unfold pas_project_tmpfile. rewrite Hc. cbn [negb].
  exists (S (fresh_id w)), (fresh_id w). eexists. split; [reflexivity |]. split; [done |]. split; apply lookup_insert_eq.
Qed.

Lemma rewrite_spec n w f fc : ready n w f fc ->
  exists w' fc' h i, pas_file_rewrite H (Some f) w = Ok (tt, w') /\ writing n w' f h i fc' [].
Proof using Type.
  intros [Hf Hbin Hn Hb Hstd Hh Hnm]. unfold pas_file_rewrite. rewrite (run_deref _ _ _ _ Hf), Hstd.
  assert (exists w1, (match handle fc with Some h => if has MODE_OWNS_HANDLE fc then fclose h else ret tt | None => ret tt end) w = Ok (tt, w1) /\
            fcbs w1 !! f = Some fc) as (w1 & E1 & Hf1).
  { destruct (handle fc) as [h0|]; [| by exists w]. destruct (has MODE_OWNS_HANDLE fc); [| by exists w].
    unfold fclose. destruct Hh as [s ->]. by eexists. }
  rewrite (bind_ok _ _ _ _ _ E1), (run_upd _ _ _ _ _ Hf1). set (fc1 := clear_mode MODE_OWNS_HANDLE (set_handle None fc)).
  set (w2 := put_fcb f fc1 w1). assert (fcbs w2 !! f = Some fc1) as Hf2 by apply fcb_put.
  destruct (name fc) as [nm|].
  - destruct (fopen_wplus_spec w2 nm Hnm) as (h & i & w3 & E & Ef & Hs & Hi). rewrite (bind_ok _ _ _ _ _ E).
    destruct (opened_writing n w3 f h i fc1 (clear_mode MODE_TEMP)) as (w' & fc' & E' & Hw); [by rewrite Ef | done..|].
    by exists w', fc', h, i.
  - destruct (tmpfile_spec w2 Hnm) as (h & i & w3 & E & Ef & Hs & Hi). rewrite (bind_ok _ _ _ _ _ E).
    destruct (opened_writing n w3 f h i fc1 (or_mode MODE_TEMP)) as (w' & fc' & E' & Hw); [by rewrite Ef | done..|].
    by exists w', fc', h, i.
Qed.

Lemma reset_spec n w f h i fc cs : writing n w f h i fc (concat cs) -> Forall (fun x => length x = n /\ Forall byte x) cs ->
  exists w' fc' s, pas_file_reset H (Some f) w = Ok (tt, w') /\ reading n w' f h fc' s cs.
Proof using Hflush.
  intros [Hf Hh Hs Hi Hbin Hn Hm Hb] Hcs. unfold pas_file_reset. rewrite (run_deref _ _ _ _ Hf), Hh.
  assert (exists w' fc' s, reset_open H (Some f) w = Ok (tt, w') /\ reading n w' f h fc' s cs) as Hopen; [| by destruct (name fc)].
  unfold reset_open. rewrite (bind_ok _ _ _ _ _ (ensure_ok H w f fc h Hf Hh)), (run_deref _ _ _ _ Hf), Hm.
  change (MODE_WRITE =? MODE_WRITE) with true. cbn match.
  rewrite (bind_ok (fflush H h) _ w true w) by (unfold fflush; rewrite (bind_ok _ _ _ _ _ (stream_ok _ _ _ Hs)); unfold ret; by rewrite Hflush).
  cbn [negb]. rewrite (bind_ok (rewind h) _ w tt (put_stream h (mkStream i 0 [] false false) w))
    by (unfold rewind; by rewrite (bind_ok _ _ _ _ _ (stream_ok _ _ _ Hs))).
  unfold set_mode_flags. rewrite (upd_ok _ f fc) by done.
  eexists _, (with_flags MODE_READ false false true fc), (mkStream i 0 [] false false). split; [reflexivity |].
  destruct (flags_rest MODE_READ false false true fc) as (Ebuf & Eh & Es & _ & Ee & _). split; try done.
  - apply fcb_put.
  - by rewrite Eh.
  - apply lookup_insert_eq.
  - by rewrite Es.
  - unfold elem_size in *. by rewrite Ee.
  - apply (flags_mode _ _ _ _ _ a_read).
  - by rewrite Ebuf.
  - rewrite (flags_eof _ _ _ _ _ a_read), (flags_pending _ _ _ _ _ a_read). unfold avail. cbn. by rewrite Hi.
Qed.

(** C19: What a program writes with PUT to a binary FILE OF T (not TEXT, and not one of the
    standard files), it reads back with F^ and GET after RESET, as long as no read, write
    or flush of the host fails: the same components, as many, byte for byte, in a named
    file or in a temporary one, whatever the file held before. *)
Theorem put_get_roundtrip n w f fc cs : (0 < n)%nat -> ready n w f fc ->
  Forall (fun x => length x = n /\ Forall byte x) cs ->
  exists w', write_then_read f cs w = Ok (map Some cs, w').
Proof using Hread Hwrite Hflush.
  intros Hpos Hr Hcs. unfold write_then_read.
  destruct (rewrite_spec n w f fc Hr) as (w1 & fc1 & h & i & E1 & Hw1). rewrite (bind_ok _ _ _ _ _ E1).
  destruct (put_all_spec n f h i cs Hpos w1 fc1 []) as (w2 & fc2 & E2 & Hw2); [| done |].
  { eapply Forall_impl; [| exact Hcs]. by intros x [? _]. }
  rewrite (bind_ok _ _ _ _ _ E2). cbn [app] in Hw2.
  destruct (reset_spec n w2 f h i fc2 cs Hw2 Hcs) as (w3 & fc3 & s & E3 & Hr3). rewrite (bind_ok _ _ _ _ _ E3).
  by eapply get_all_spec.
Qed.
End Round.

(** A FILE OF two bytes without a name, and one with the name of a file that exists. *)
Definition pair_fcb (nm : option (list Z)) : fcb := mkFcb 2 STRUCT_BINARY false 0 (Some [0; 0]) None nm 0 0 None 0.
Definition pair_world (nm : option (list Z)) : world :=
  mkWorld {[3%nat := [1; 2; 3]]} {[[97] := 3%nat]} ∅ {[0%nat := pair_fcb nm]} None 10.

Lemma put_get_roundtrip_witness :
  exists w', write_then_read easy_host 0 [[13; 10]; [255; 0]; [26; 26]] (pair_world (Some [97]))
             = Ok ([Some [13; 10]; Some [255; 0]; Some [26; 26]], w').
Proof.
  apply (put_get_roundtrip easy_host (fun _ _ => eq_refl) (fun _ _ => eq_refl) (fun _ => eq_refl) 2 (pair_world (Some [97])) 0 (pair_fcb (Some [97]))).
  - lia.
  - split; try reflexivity.
    + discriminate.
    + exists [0; 0]. split; reflexivity.
  - repeat constructor; unfold byte; lia.
Defined.
