(* ===== verification/EncDec.v ===== *)
(** ENCODE and DECODE, encode_decode.c of runtime/: text to values and back. DECODE of
    an integer is exact for every type and subrange, and undoes ENCODE. *)

From Stdlib Require Import ZArith Ascii String Lia.
From stdpp Require Import base list strings gmap numbers.
From S2P Require Import Prelude Files Readers ReaderProps.
#[local] Open Scope Z_scope.

(** * The code *)

(** An LSTRING in memory: the length byte and the characters after it. *)
Record lstring := mkLstr { len_byte : Z; cells : list Z }.

(** [pas_encode_fmt]; [text] is what [vsnprintf] makes of the arguments. The result and
    the destination, which has [length (cells dest)] characters. *)
Definition pas_encode_fmt (dest : lstring) (dest_cap : Z) (text : list Z) : res (bool * lstring) :=
  if dest_cap <=? 0 then Ok (false, dest)
  else
    let dest_cap := if 255 <? dest_cap then 255 else dest_cap in
    let n := Z.of_nat (length text) in
    if 512 <=? n then Ok (false, dest)
    else if dest_cap <? n then Ok (false, dest)
    else if Z.of_nat (length (cells dest)) <? n then Err (Undef "write outside the LSTRING")
    else Ok (true, mkLstr (uwrap 8 n) (text ++ drop (length text) (cells dest))).

Definition is_pad (c : Z) : bool := (c =? 32) || (c =? 9).

(** [decode_trim]: the text without the blanks and tabs at its ends. *)
Definition decode_trim (s : list Z) : list Z := reverse (after is_pad (reverse (after is_pad s))).

Definition UINT64_MAX : Z := 2 ^ 64 - 1.

(** The loop over the digits. *)
Fixpoint decimal_loop (s : list Z) (v : Z) : option Z :=
  match s with
  | [] => Some v
  | c :: s' =>
      if (c <? 48) || (57 <? c) then None
      else
        let d := c - 48 in
        if (UINT64_MAX - d) / 10 <? v then None
        else decimal_loop s' (uwrap 64 (v * 10 + d))
  end.

(** The sign and the magnitude. *)
Definition decode_decimal (s : list Z) : option (bool * Z) :=
  let '(negative, s) :=
    match s with c :: s' => if (c =? 43) || (c =? 45) then (c =? 45, s') else (false, s) | [] => (false, []) end in
  match s with [] => None | _ => option_map (pair negative) (decimal_loop s 0) end.

(** The bounds of the type when none are declared. *)
Definition bounds_of (bits : Z) (is_unsigned has_bounds : bool) (lo hi : Z) : Z * Z :=
  if has_bounds then (lo, hi)
  else if is_unsigned then (0, if 64 <=? bits then INT64_MAX else swrap 64 (Z.shiftl 1 bits - 1))
  else if 64 <=? bits then (INT64_MIN, INT64_MAX)
  else let hi := swrap 64 (Z.shiftl 1 (bits - 1) - 1) in (- hi - 1, hi).

Definition pas_decode_integer (src : list Z) (bits : Z) (is_unsigned has_bounds : bool) (lo hi : Z) : option Z :=
  match decode_decimal (decode_trim src) with
  | None => None
  | Some (negative, mag) =>
      let negative := negative && negb (mag =? 0) in
      if is_unsigned && (bits =? 64) && negb has_bounds then
        if negative then None else Some (swrap 64 mag)
      else
        let value :=
          if negative then
            if INT64_MAX + 1 <? mag then None
            else Some (if mag =? INT64_MAX + 1 then INT64_MIN else - swrap 64 mag)
          else if INT64_MAX <? mag then None else Some (swrap 64 mag) in
        match value with
        | None => None
        | Some value =>
            let '(lo, hi) := bounds_of bits is_unsigned has_bounds lo hi in
            if (value <? lo) || (hi <? value) then None else Some value
        end
  end.

(** [for (int32_t i = lo; i <= hi; i++)] over the member names; [strncasecmp] of the whole
    text. *)
Fixpoint find_member (fuel : nat) (names : list (option (list Z))) (i hi : Z) (src : list Z) : res (option Z) :=
  match fuel with
  | O => Ok None
  | S f =>
      if hi <? i then Ok None
      else if i <? 0 then Err (Undef "read outside the names")
      else match names !! Z.to_nat i with
           | None => Err (Undef "read outside the names")
           | Some None => find_member f names (i + 1) hi src
           | Some (Some n) =>
               if Nat.eqb (length n) (length src) && bool_decide (map to_lower n = map to_lower src)
               then Ok (Some i) else find_member f names (i + 1) hi src
           end
  end.

Definition pas_decode_enum (src : list Z) (names : option (list (option (list Z)))) (lo hi : Z) : res (option Z) :=
  match decode_trim src with
  | [] => Ok None
  | c :: r =>
      let src := c :: r in
      if is_digit c || (c =? 43) || (c =? 45) then Ok (option_map (swrap 32) (pas_decode_integer src 32 false true lo hi))
      else match names with
           | None => Ok None
           | Some ns => find_member (Z.to_nat (hi - lo + 1)) ns lo hi src
           end
  end.

Definition pas_decode_char (src : list Z) (lo hi : Z) : option Z :=
  match decode_trim src with
  | [ch] => if (ch <? lo) || (hi <? ch) then None else Some ch
  | _ => None
  end.

(** * What an integer text says *)

(** A sign or none and digits: the number, of any size. *)
Definition integer_text (s : list Z) : option Z :=
  let '(neg, ds) := match s with c :: s' => if (c =? 43) || (c =? 45) then (c =? 45, s') else (false, s) | [] => (false, []) end in
  match ds with
  | [] => None
  | _ => if forallb is_digit ds then Some (if neg then - num 10 ds else num 10 ds) else None
  end.

(** The range of the destination. *)
Definition dest_range (bits : Z) (is_unsigned has_bounds : bool) (lo hi : Z) : Z * Z :=
  if has_bounds then (lo, hi)
  else if is_unsigned then (0, 2 ^ bits - 1) else (- 2 ^ (bits - 1), 2 ^ (bits - 1) - 1).

(** A width of the language, and bounds of a subrange, which INTEGER64 holds. *)
Definition dest_wf (bits : Z) (has_bounds : bool) (lo hi : Z) : Prop :=
  (bits = 8 \/ bits = 16 \/ bits = 32 \/ bits = 64) /\ (has_bounds = true -> in_srange 64 lo /\ in_srange 64 hi).

Lemma num_snoc_le ds v : Forall (fun c => is_digit c = true) ds -> 0 <= v ->
  v <= fold_left (fun v c => v * 10 + digit_val c) ds v.
Proof.
  intros Hd Hv. rewrite num_acc. pose proof (num_nonneg 10 ds ltac:(lia)) as Hn.
  assert (0 <= num 10 ds). { apply Hn. eapply Forall_impl; [| exact Hd]. intros x Hx%digit_val_dec. cbn. lia. }
  assert (1 <= 10 ^ Z.of_nat (length ds)) by (pose proof (Z.pow_pos_nonneg 10 (Z.of_nat (length ds)) ltac:(lia) ltac:(lia)); lia). nia.
Qed.

(** The accumulator is exact up to [UINT64_MAX] and stops above it. *)
Lemma decimal_loop_spec s : forall v, 0 <= v <= UINT64_MAX ->
  decimal_loop s v =
  if forallb is_digit s then
    let x := fold_left (fun v c => v * 10 + digit_val c) s v in if x <=? UINT64_MAX then Some x else None
  else None.
Proof.
  induction s as [|c s IH]; intros v Hv; cbn [decimal_loop forallb fold_left].
  { destruct (Z.leb_spec v UINT64_MAX); [done | lia]. }
  unfold is_digit at 1. destruct (Z.ltb_spec c 48), (Z.ltb_spec 57 c), (Z.leb_spec 48 c), (Z.leb_spec c 57); cbn [orb andb]; try lia; try done.
  assert (is_digit c = true) as Hc by (unfold is_digit; apply andb_true_iff; rewrite !Z.leb_le; lia).
  destruct (digit_val_dec c Hc) as [Hr Hd]. rewrite Hd.
  destruct (Z.ltb_spec ((UINT64_MAX - (c - 48)) / 10) v) as [Hlt | Hge].
  - assert (UINT64_MAX < v * 10 + (c - 48)) as Hbig.
    { pose proof (Z.mul_succ_div_gt (UINT64_MAX - (c - 48)) 10 ltac:(lia)). lia. }
    destruct (forallb is_digit s) eqn:Es; [| done]. cbv zeta.
    pose proof (num_snoc_le s (v * 10 + (c - 48))) as Hle. rewrite forallb_forall in Es.
    destruct (Z.leb_spec (fold_left (fun v c => v * 10 + digit_val c) s (v * 10 + (c - 48))) UINT64_MAX) as [Hs | _]; [| done].
    exfalso. apply (Z.lt_irrefl UINT64_MAX). eapply Z.lt_le_trans; [exact Hbig |]. etrans; [apply Hle; [| lia] | exact Hs].
    apply Forall_forall. intros x Hx. by apply Es.
  - assert (v * 10 + (c - 48) <= UINT64_MAX) as Hok.
    { pose proof (Z.mul_div_le (UINT64_MAX - (c - 48)) 10 ltac:(lia)). lia. }
    unfold uwrap. rewrite Z.mod_small by (unfold UINT64_MAX in *; lia). apply IH. lia.
Qed.

Lemma decode_decimal_spec s : decode_decimal s =
  match integer_text s with
  | None => None
  | Some v =>
      if Z.abs v <=? UINT64_MAX
      then Some (match s with c :: _ => c =? 45 | [] => false end, Z.abs v) else None
  end.
Proof.
  unfold decode_decimal, integer_text.
  assert (forall neg ds, (match ds with [] => None | _ => option_map (pair neg) (decimal_loop ds 0) end : option (bool * Z)) =
    match (match ds with [] => None | _ => if forallb is_digit ds then Some (if (neg : bool) then - num 10 ds else num 10 ds) else None end) with
    | None => None | Some v => if Z.abs v <=? UINT64_MAX then Some (neg, Z.abs v) else None end) as Hall.
  { intros neg ds. destruct ds as [|d ds]; [done |]. rewrite decimal_loop_spec by (unfold UINT64_MAX; lia).
    destruct (forallb is_digit (d :: ds)) eqn:Ef; [| done]. cbv zeta. fold (num 10 (d :: ds)).
    assert (0 <= num 10 (d :: ds)) as Hn.
    { apply num_nonneg; [lia |]. rewrite forallb_forall in Ef. apply Forall_forall. intros x Hx.
      assert (is_digit x = true) as Hd by (by apply Ef). apply digit_val_dec in Hd. lia. }
    assert (Z.abs (if neg then - num 10 (d :: ds) else num 10 (d :: ds)) = num 10 (d :: ds)) as -> by (destruct neg; lia).
    by destruct (num 10 (d :: ds) <=? UINT64_MAX). }
  destruct s as [|c s]; [done |]. destruct ((c =? 43) || (c =? 45)) eqn:Es; [apply Hall |].
  apply orb_false_iff in Es as [_ E45]. rewrite E45. apply (Hall false (c :: s)).
Qed.

(** A negative text begins with the minus sign, and a text with one is not positive. *)
Lemma integer_text_sign s v : integer_text s = Some v ->
  (v < 0 -> match s with c :: _ => c =? 45 | [] => false end = true) /\
  (0 < v -> match s with c :: _ => c =? 45 | [] => false end = false).
Proof.
  unfold integer_text. destruct s as [|c s]; [done |].
  assert (forall ds, forallb is_digit ds = true -> 0 <= num 10 ds) as Hn.
  { intros ds Ef. apply num_nonneg; [lia |]. rewrite forallb_forall in Ef. apply Forall_forall. intros x Hx.
    assert (is_digit x = true) as Hd by (by apply Ef). apply digit_val_dec in Hd. lia. }
  destruct ((c =? 43) || (c =? 45)) eqn:Es.
  - destruct s as [|d s]; [done |]. destruct (forallb is_digit (d :: s)) eqn:Ef; [| done]. specialize (Hn _ Ef).
    intros [= <-]. destruct (c =? 45); split; try done; lia.
  - destruct (forallb is_digit (c :: s)) eqn:Ef; [| done]. specialize (Hn _ Ef). apply orb_false_iff in Es as [_ E45].
    intros [= <-]. split; [lia | done].
Qed.

Lemma swrap64_pos x : 0 <= x <= INT64_MAX -> swrap 64 x = x.
Proof. intros Hx. apply swrap_small; [lia |]. unfold in_srange, INT64_MAX in *. cbn. lia. Qed.

Lemma hi_unsigned bits : bits = 8 \/ bits = 16 \/ bits = 32 -> swrap 64 (Z.shiftl 1 bits - 1) = 2 ^ bits - 1.
Proof. by intros [-> | [-> | ->]]. Qed.
Lemma hi_signed bits : bits = 8 \/ bits = 16 \/ bits = 32 -> swrap 64 (Z.shiftl 1 (bits - 1) - 1) = 2 ^ (bits - 1) - 1.
Proof. by intros [-> | [-> | ->]]. Qed.

(** The bounds the code computes are those of the type. *)
Lemma bounds_of_range bits is_unsigned has_bounds lo hi : dest_wf bits has_bounds lo hi ->
  is_unsigned && (bits =? 64) && negb has_bounds = false ->
  bounds_of bits is_unsigned has_bounds lo hi = dest_range bits is_unsigned has_bounds lo hi.
Proof.
  intros [Hb _] Hc. unfold bounds_of, dest_range. destruct has_bounds; [done |].
  assert (bits = 64 \/ bits = 8 \/ bits = 16 \/ bits = 32) as [-> | Hs] by tauto.
  - destruct is_unsigned; [done |]. done.
  - assert ((64 <=? bits) = false) as -> by (by destruct Hs as [-> | [-> | ->]]). cbv zeta. rewrite hi_unsigned, hi_signed by done.
    destruct is_unsigned; [done |]. f_equal. lia.
Qed.

Lemma range_in64 bits is_unsigned has_bounds lo hi v : dest_wf bits has_bounds lo hi ->
  is_unsigned && (bits =? 64) && negb has_bounds = false ->
  (dest_range bits is_unsigned has_bounds lo hi).1 <= v <= (dest_range bits is_unsigned has_bounds lo hi).2 ->
  INT64_MIN <= v <= INT64_MAX.
Proof.
  intros [Hb Hlh] Hc. unfold dest_range, INT64_MIN, INT64_MAX. destruct has_bounds; cbn [fst snd].
  - destruct (Hlh eq_refl) as [[Hl1 Hl2] [Hh1 Hh2]]. cbn in *. lia.
  - destruct is_unsigned; cbn [fst snd].
    + destruct Hb as [-> | [-> | [-> | ->]]]; [| | | done]; cbn; lia.
    + destruct Hb as [-> | [-> | [-> | ->]]]; cbn; lia.
Qed.

Lemma decode_integer_exact_eq src bits is_unsigned has_bounds lo hi : dest_wf bits has_bounds lo hi ->
  pas_decode_integer src bits is_unsigned has_bounds lo hi =
  match integer_text (decode_trim src) with
  | Some v => let (l, h) := dest_range bits is_unsigned has_bounds lo hi in
              if (l <=? v) && (v <=? h) then Some (swrap 64 v) else None
  | None => None
  end.
Proof.
  intros Hwf. unfold pas_decode_integer. rewrite decode_decimal_spec.
  destruct (integer_text (decode_trim src)) as [v|] eqn:Ei; [| done].
  destruct (integer_text_sign _ _ Ei) as [Hneg Hpos]. set (sg := match decode_trim src with c :: _ => c =? 45 | [] => false end) in *.
  destruct (is_unsigned && (bits =? 64) && negb has_bounds) eqn:Ec.
  - apply andb_true_iff in Ec as [[-> ->%Z.eqb_eq]%andb_true_iff ->%negb_true_iff]. cbn [dest_range]. change (2 ^ 64 - 1) with UINT64_MAX.
    destruct (Z.leb_spec (Z.abs v) UINT64_MAX) as [Hle | Hgt].
    + destruct (Z.leb_spec 0 v) as [H0 | H0].
      * assert (sg && negb (Z.abs v =? 0) = false) as ->.
        { destruct (Z.eqb_spec (Z.abs v) 0); [by rewrite andb_false_r |]. rewrite Hpos by lia. done. }
        rewrite Z.abs_eq in * by done. destruct (Z.leb_spec v UINT64_MAX); [done | lia].
      * rewrite Hneg by done. destruct (Z.eqb_spec (Z.abs v) 0); [lia | done].
    + destruct (Z.leb_spec 0 v), (Z.leb_spec v UINT64_MAX); try done; lia.
  - rewrite (bounds_of_range _ _ _ _ _ Hwf Ec). destruct (dest_range bits is_unsigned has_bounds lo hi) as [l h] eqn:Er.
    assert (l <= v <= h -> INT64_MIN <= v <= INT64_MAX) as Hin.
    { intros Hv. apply (range_in64 bits is_unsigned has_bounds lo hi v Hwf Ec). by rewrite Er. }
    assert ((if (l <=? v) && (v <=? h) then Some (swrap 64 v) else None)
            = if fits64 v then if (v <? l) || (h <? v) then None else Some v else None) as ->.
    { destruct (fits64 v) eqn:Ef.
      - apply fits64_iff in Ef. rewrite (swrap_small 64 v) by (done || lia).
        destruct (Z.leb_spec l v), (Z.leb_spec v h), (Z.ltb_spec v l), (Z.ltb_spec h v); cbn; try lia; done.
      - destruct (Z.leb_spec l v), (Z.leb_spec v h); cbn; try done. unfold fits64 in Ef.
        destruct (Hin ltac:(lia)). destruct (Z.leb_spec INT64_MIN v), (Z.leb_spec v INT64_MAX); cbn in Ef; try done; lia. }
    unfold fits64. destruct (Z.leb_spec (Z.abs v) UINT64_MAX) as [Hle | Hgt].
    2:{ unfold UINT64_MAX, INT64_MIN, INT64_MAX in *.
        destruct (Z.leb_spec (-9223372036854775808) v), (Z.leb_spec v 9223372036854775807); cbn; try done; lia. }
    destruct (Z.ltb_spec v 0) as [Hv | Hv].
    + rewrite Hneg by done. destruct (Z.eqb_spec (Z.abs v) 0); [lia |]. cbn [andb negb].
      destruct (Z.ltb_spec (INT64_MAX + 1) (Z.abs v)), (Z.leb_spec INT64_MIN v); unfold INT64_MAX, INT64_MIN in *; try lia; [done |].
      destruct (Z.leb_spec v 9223372036854775807); [| lia]. cbn [andb].
      destruct (Z.eqb_spec (Z.abs v) (9223372036854775807 + 1)).
      * replace v with (-9223372036854775808) by lia. done.
      * rewrite swrap64_pos by (unfold INT64_MAX; lia). replace (- Z.abs v) with v by lia. done.
    + assert (sg && negb (Z.abs v =? 0) = false) as ->.
      { destruct (Z.eqb_spec (Z.abs v) 0); [by rewrite andb_false_r |]. rewrite Hpos by lia. done. }
      rewrite Z.abs_eq in * by done. unfold INT64_MIN, INT64_MAX in *. destruct (Z.leb_spec (-9223372036854775808) v); [| lia]. cbn [andb].
      destruct (Z.ltb_spec 9223372036854775807 v), (Z.leb_spec v 9223372036854775807); try lia; [done |].
      rewrite swrap64_pos by (unfold INT64_MAX; lia). done.
Qed.

(** C34: DECODE of an integer is exact, for every width, signed or unsigned, and every
    subrange: it gives the value of a text that is, but for blanks and tabs around it,
    a sign or none and digits, when that value, however long the text, is in the range
    of the destination, and reports failure for every other text. *)
Theorem decode_integer_exact src bits is_unsigned has_bounds lo hi : dest_wf bits has_bounds lo hi ->
  pas_decode_integer src bits is_unsigned has_bounds lo hi =
  match integer_text (decode_trim src) with
  | Some v => let (l, h) := dest_range bits is_unsigned has_bounds lo hi in
              if (l <=? v) && (v <=? h) then Some (swrap 64 v) else None
  | None => None
  end.
Proof. apply decode_integer_exact_eq. Qed.

(** A text that DECODE accepts: blanks, one more digit than INTEGER32 has, and a tab. *)
Lemma decode_integer_exact_witness :
  dest_wf 32 false 0 0 /\
  pas_decode_integer [32; 45; 48; 50; 49; 52; 55; 52; 56; 51; 54; 52; 56; 9] 32 false false 0 0 = Some (-2147483648).
Proof.
  assert (dest_wf 32 false 0 0) as Hwf by (split; [right; right; left; reflexivity | intros Hf; discriminate Hf]).
  split; [exact Hwf |]. rewrite (decode_integer_exact _ 32 false false 0 0 Hwf). vm_compute. reflexivity.
Defined.

(** ** DECODE undoes ENCODE *)

(** The text WRITE prints for [v] in a field: blanks and the decimal digits. *)
Definition printed (k : nat) (v : Z) : list Z := replicate k 32 ++ codes (chars (Zs v)).

Lemma codes_app a b : codes (a ++ b) = codes a ++ codes b.
Proof. apply map_app. Qed.

Lemma Zs_codes v : codes (chars (Zs v)) = (if v <? 0 then [45] else []) ++ codes (dec_bytes (Z.abs v)).
Proof.
  unfold Zs. destruct (Z.ltb_spec v 0).
  - replace (Z.abs v) with (- v) by lia. change (chars (String "-" (str (dec_bytes (- v))))) with ("-"%char :: chars (str (dec_bytes (- v)))).
    by rewrite chars_str.
  - replace (Z.abs v) with v by lia. by rewrite chars_str.
Qed.

Lemma digits_forallb ds : Forall (fun c => is_digit c = true) ds -> forallb is_digit ds = true.
Proof. intros Hd. apply forallb_forall. by apply Forall_forall. Qed.

Lemma integer_text_printed v : integer_text (codes (chars (Zs v))) = Some v.
Proof.
  rewrite Zs_codes. destruct (codes_dec (Z.abs v) ltac:(lia)) as [Hd Hn].
  destruct (codes (dec_bytes (Z.abs v))) as [|d ds] eqn:Ec.
  { unfold codes in Ec. apply map_eq_nil in Ec. by destruct (base_digits_nonempty 10 ltac:(lia) (Z.abs v)). }
  pose proof (digits_forallb _ Hd) as Hf. unfold integer_text. destruct (Z.ltb_spec v 0); cbn [app].
  - cbn [Z.eqb Pos.eqb orb]. rewrite Hf, Hn; f_equal; lia.
  - destruct (digit_not_space d) as (_ & H43 & H45); [by apply Forall_cons_1 in Hd as [? _] |].
    destruct (Z.eqb_spec d 43), (Z.eqb_spec d 45); try done. cbn [orb]. rewrite Hf, Hn; f_equal; lia.
Qed.

(** Only digits and the minus sign are printed. *)
Lemma printed_chars v : Forall (fun c => is_pad c = false) (codes (chars (Zs v))) /\ codes (chars (Zs v)) <> [].
Proof.
  rewrite Zs_codes. destruct (codes_dec (Z.abs v) ltac:(lia)) as [Hd _]. split.
  - apply Forall_app. split; [destruct (v <? 0); repeat constructor |]. eapply Forall_impl; [| exact Hd].
    intros c Hc. cbn in *. unfold is_digit in Hc. apply andb_true_iff in Hc as [?%Z.leb_le ?%Z.leb_le].
    unfold is_pad. destruct (Z.eqb_spec c 32), (Z.eqb_spec c 9); first [lia | done].
  - intros E%app_nil. destruct E as [_ E]. unfold codes in E. apply map_eq_nil in E.
    by destruct (base_digits_nonempty 10 ltac:(lia) (Z.abs v)).
Qed.

Lemma after_none p l : match l with c :: _ => p c = false | [] => True end -> after p l = l.
Proof. destruct l as [|c l]; [done |]. cbn. by intros ->. Qed.

Lemma trim_printed k v : decode_trim (printed k v) = codes (chars (Zs v)).
Proof.
  destruct (printed_chars v) as [Hp Hne]. unfold decode_trim, printed. rewrite after_all by (by apply Forall_replicate).
  rewrite (after_none is_pad (codes (chars (Zs v)))) by (destruct (codes (chars (Zs v))); [done | by apply Forall_cons_1 in Hp as [? _]]).
  rewrite after_none; [by rewrite reverse_involutive |].
  destruct (reverse (codes (chars (Zs v)))) as [|c l] eqn:Er; [done |].
  assert (Forall (fun c => is_pad c = false) (c :: l)) as Hr by (rewrite <- Er; by apply Forall_reverse).
  by apply Forall_cons_1 in Hr as [? _].
Qed.

(** A value survives ENCODE and DECODE: the decimal text of any value of the type, in
    a field of any width that the LSTRING has room for, is decoded to the same value. *)
Theorem encode_decode_roundtrip dest cap k v bits is_unsigned has_bounds lo hi :
  dest_wf bits has_bounds lo hi ->
  (dest_range bits is_unsigned has_bounds lo hi).1 <= v <= (dest_range bits is_unsigned has_bounds lo hi).2 ->
  (length (printed k v) <= Z.to_nat cap)%nat -> cap <= 255 -> cap <= Z.of_nat (length (cells dest)) ->
  exists d, pas_encode_fmt dest cap (printed k v) = Ok (true, d) /\
    pas_decode_integer (take (Z.to_nat (len_byte d)) (cells d)) bits is_unsigned has_bounds lo hi = Some (swrap 64 v).
Proof.
  intros Hwf Hv Hlen Hcap Hcells. set (t := printed k v) in *.
  assert (0 < length t)%nat as Hpos.
  { unfold t, printed. rewrite length_app. destruct (printed_chars v) as [_ Hne]. destruct (codes (chars (Zs v))); [done | cbn; lia]. }
  exists (mkLstr (uwrap 8 (Z.of_nat (length t))) (t ++ drop (length t) (cells dest))). split.
  - unfold pas_encode_fmt. destruct (Z.leb_spec cap 0); [lia |]. destruct (Z.ltb_spec 255 cap); [lia |].
    destruct (Z.leb_spec 512 (Z.of_nat (length t))); [lia |]. destruct (Z.ltb_spec cap (Z.of_nat (length t))); [lia |].
    destruct (Z.ltb_spec (Z.of_nat (length (cells dest))) (Z.of_nat (length t))); [lia | done].
  - cbn [len_byte cells]. unfold uwrap. rewrite Z.mod_small by lia. rewrite Nat2Z.id, take_app_length.
    rewrite (decode_integer_exact_eq t bits is_unsigned has_bounds lo hi Hwf). unfold t. rewrite trim_printed, integer_text_printed.
    destruct (dest_range bits is_unsigned has_bounds lo hi) as [l h]. cbn [fst snd] in Hv.
    destruct (Z.leb_spec l v), (Z.leb_spec v h); try lia. done.
Qed.

Lemma encode_decode_roundtrip_witness :
  exists d, pas_encode_fmt (mkLstr 0 (replicate 20 0)) 20 (printed 3 (-32768)) = Ok (true, d) /\
    pas_decode_integer (take (Z.to_nat (len_byte d)) (cells d)) 16 false false 0 0 = Some (swrap 64 (-32768)).
Proof.
  apply (encode_decode_roundtrip (mkLstr 0 (replicate 20 0)) 20 3 (-32768) 16 false false 0 0).
  - split; [right; left; reflexivity | intros Hf; discriminate Hf].
  - cbn. lia.
  - vm_compute. lia.
  - lia.
  - vm_compute. discriminate.
Defined.
