(* ===== verification/Device.v ===== *)
(** cpu_device_shim.c of runtime/: the host CPU as the device of a Pascal program.
    Device memory is ordinary memory, a module is the registry the compiler emits, and
    a launch calls the kernel once per thread of the grid, with the index registers set
    for that thread. The six nested loops of a launch are one loop over the linear
    number of the thread; a program that copies an array to the device, launches an
    elementwise kernel over it and copies the array back gets the mapped array. *)

From Stdlib Require Import ZArith Ascii String Lia.
From stdpp Require Import base list strings gmap numbers.
From S2P Require Import Prelude Runtime.
Import Move.
#[local] Open Scope Z_scope.

(** * The state *)

Record dim3 := mkDim { dx : Z; dy : Z; dz : Z }.

(** The thread-local registers: [__pas_tid_*], [__pas_ctaid_*], [__pas_ntid_*] and
    [__pas_nctaid_*]. *)
Record regs := mkRegs { tid : dim3; ctaid : dim3; ntid : dim3; nctaid : dim3 }.

(** Their initial values: the first thread of a grid of one thread. *)
Definition regs0 : regs := mkRegs (mkDim 0 0 0) (mkDim 0 0 0) (mkDim 1 1 1) (mkDim 1 1 1).

Record dev := mkDev { registers : regs; memory : mem }.

(** A pointer that is passed or returned: [None] is NULL. *)
Abbreviation ptr := (option Z).

(** * Memory *)

(** [memcpy]: the objects must not overlap. *)
Definition memcpy (dst src n : Z) (m : mem) : res mem :=
  if (dst <? src + n) && (src <? dst + n) then Err (Undef "memcpy of overlapping objects")
  else copy_up (Z.to_nat n) src dst m.

Definition set_memory (d : dev) (m : mem) : dev := mkDev (registers d) m.

Section Memory.

(** The allocator of the C library. *)
Context (malloc : mem -> Z -> ptr * mem) (free : mem -> ptr -> res mem).

Definition pas_dev_alloc (nbytes : Z) : ST dev ptr := fun d =>
  if nbytes <=? 0 then Ok (None, d)
  else let '(p, m) := malloc (memory d) nbytes in Ok (p, set_memory d m).

Definition pas_dev_copy_to (dev_dst host_src : ptr) (nbytes : Z) : ST dev unit := fun d =>
  match dev_dst, host_src with
  | Some dst, Some src =>
      if 0 <? nbytes then let! m := memcpy dst src nbytes (memory d) in Ok (tt, set_memory d m) else Ok (tt, d)
  | _, _ => Ok (tt, d)
  end.

Definition pas_dev_copy_from (host_dst dev_src : ptr) (nbytes : Z) : ST dev unit := fun d =>
  match host_dst, dev_src with
  | Some dst, Some src =>
      if 0 <? nbytes then let! m := memcpy dst src nbytes (memory d) in Ok (tt, set_memory d m) else Ok (tt, d)
  | _, _ => Ok (tt, d)
  end.

Definition pas_dev_free (dev_ptr : ptr) : ST dev unit := fun d =>
  let! m := free (memory d) dev_ptr in Ok (tt, set_memory d m).

End Memory.

(** * Kernels *)

(** A dispatch thunk: code the compiler emits, called with the argument vector. *)
Abbreviation thunk := (list Z -> ST dev unit).

(** [pas_dev_registry]: the two tables are parallel. *)
Record pas_dev_registry := mkRegistry { names : list (option string); entries : list (option thunk); count : Z }.

Definition pas_dev_module_load (registry : option pas_dev_registry) (ptx : string) : option pas_dev_registry := registry.

(** The search from entry [i], [n] entries before [count]. *)
Fixpoint find_kernel (n : nat) (r : pas_dev_registry) (i : nat) (name : string) : res (option thunk) :=
  match n with
  | O => Ok None
  | S n' =>
      match names r !! i with
      | None => Err (Undef "read outside the registry")
      | Some None => find_kernel n' r (S i) name
      | Some (Some s) =>
          if bool_decide (s = name)
          then match entries r !! i with Some e => Ok e | None => Err (Undef "read outside the registry") end
          else find_kernel n' r (S i) name
      end
  end.

Definition pas_dev_module_get_function (module : option pas_dev_registry) (name : option string) : res (option thunk) :=
  match module, name with
  | Some r, Some s => find_kernel (Z.to_nat (count r)) r 0 s
  | _, _ => Ok None
  end.

(** * A launch *)

(** [for (long long i = 0; i < n; i++)], from [i], with [n] turns left. *)
Fixpoint for_up {S} (n : nat) (i : Z) (body : Z -> ST S unit) : ST S unit :=
  match n with
  | O => ret tt
  | Datatypes.S n' => do* body i in for_up n' (i + 1) body
  end.
Definition upto {S} (n : Z) (body : Z -> ST S unit) : ST S unit := for_up (Z.to_nat n) 0 body.

(** [(int32_t) v]. *)
Definition i32 (v : Z) : Z := swrap 32 v.
Definition dim_i32 (x y z : Z) : dim3 := mkDim (i32 x) (i32 y) (i32 z).

Definition set_dims (b g : dim3) : ST dev unit := fun d =>
  Ok (tt, mkDev (mkRegs (tid (registers d)) (ctaid (registers d)) b g) (memory d)).
Definition set_ctaid (c : dim3) : ST dev unit := fun d =>
  Ok (tt, mkDev (mkRegs (tid (registers d)) c (ntid (registers d)) (nctaid (registers d))) (memory d)).
Definition set_tid (t : dim3) : ST dev unit := fun d =>
  Ok (tt, mkDev (mkRegs t (ctaid (registers d)) (ntid (registers d)) (nctaid (registers d))) (memory d)).

(** The loops over the threads of one block. *)
Definition run_block (fn : thunk) (bx by_ bz : Z) (argv : list Z) : ST dev unit :=
  upto bz (fun bz_i => upto by_ (fun by_i => upto bx (fun bx_i =>
    do* set_tid (dim_i32 bx_i by_i bz_i) in fn argv))).

Definition pas_dev_launch (entry : option thunk) (gx gy gz bx by_ bz : Z) (argv : list Z) : ST dev unit :=
  match entry with
  | None => ret tt
  | Some fn =>
      do* set_dims (dim_i32 bx by_ bz) (dim_i32 gx gy gz) in
      upto gz (fun gz_i => upto gy (fun gy_i => upto gx (fun gx_i =>
        do* set_ctaid (dim_i32 gx_i gy_i gz_i) in run_block fn bx by_ bz argv)))
  end.

(** * One loop over the threads *)

(** What thread number [k] of the launch sees: x varies fastest, the threads of a block
    come before the next block. *)
Definition thread_regs (g b : dim3) (k : Z) : regs :=
  let j := k / dx b in
  let i := j / dy b in
  let h := i / dz b in
  let l := h / dx g in
  mkRegs (mkDim (k `mod` dx b) (j `mod` dy b) (i `mod` dz b))
         (mkDim (h `mod` dx g) (l `mod` dy g) (l / dy g)) b g.

(** The number of threads: none when a dimension is not positive. *)
Definition volume (d : dim3) : Z := Z.max 0 (dz d) * Z.max 0 (dy d) * Z.max 0 (dx d).
Definition threads (g b : dim3) : Z := volume g * volume b.

Definition set_regs (r : regs) : ST dev unit := fun d => Ok (tt, mkDev r (memory d)).

Definition each_thread (fn : thunk) (g b : dim3) (argv : list Z) : ST dev unit :=
  upto (threads g b) (fun k => do* set_regs (thread_regs g b k) in fn argv).

(** ** Loops *)

Section Loops.
Context {S : Type}.

Lemma bind_assoc {A B C} (m : ST S A) (f : A -> ST S B) (g : B -> ST S C) s :
  bind (bind m f) g s = bind m (fun a => bind (f a) g) s.
Proof. unfold bind. destruct (m s) as [[a s'] | e]; done. Qed.

Lemma bind_ext {A B} (m : ST S A) (f g : A -> ST S B) s : (forall a s', f a s' = g a s') -> bind m f s = bind m g s.
Proof. intros H. unfold bind. destruct (m s) as [[a s'] | e]; [apply H | done]. Qed.

Lemma for_up_ext n : forall i (f g : Z -> ST S unit) s,
  (forall k s', i <= k < i + Z.of_nat n -> f k s' = g k s') -> for_up n i f s = for_up n i g s.
Proof.
  induction n as [|n IH]; intros i f g s H; [done |]. cbn [for_up]. unfold bind. rewrite H by lia.
  destruct (g i s) as [[a s'] | e]; [| done]. apply IH. intros k s'' Hk. apply H. lia.
Qed.

Lemma for_up_app n : forall m i (f : Z -> ST S unit) s,
  for_up (n + m) i f s = bind (for_up n i f) (fun _ => for_up m (i + Z.of_nat n) f) s.
Proof.
  induction n as [|n IH]; intros m i f s; [by rewrite Z.add_0_r |].
  cbn [for_up Nat.add]. rewrite bind_assoc. apply bind_ext. intros _ s'. rewrite IH.
  apply bind_ext. intros _ s''. by replace (i + 1 + Z.of_nat n) with (i + Z.of_nat (Datatypes.S n)) by lia.
Qed.

Lemma for_up_shift n : forall i j (f : Z -> ST S unit) s, for_up n (i + j) f s = for_up n i (fun k => f (k + j)) s.
Proof.
  induction n as [|n IH]; intros i j f s; [done |]. cbn [for_up]. apply bind_ext. intros _ s'.
  replace (i + j + 1) with (i + 1 + j) by lia. apply IH.
Qed.

(** Two nested loops are one loop over the product. *)
Lemma for_up_nest (n : Z) (f : Z -> Z -> ST S unit) : 0 < n -> forall m i s, 0 <= i ->
  for_up m i (fun k => upto n (f k)) s =
  for_up (m * Z.to_nat n) (i * n) (fun k => f (k / n) (k `mod` n)) s.
Proof.
  intros Hn. induction m as [|m IH]; intros i s Hi; [done |].
  cbn [for_up Nat.mul]. rewrite for_up_app, Z2Nat.id by lia. replace (i * n + n) with ((i + 1) * n) by lia.
  unfold bind. unfold upto. replace (i * n) with (0 + i * n) at 1 by lia. rewrite for_up_shift.
  rewrite (for_up_ext (Z.to_nat n) 0 (f i) (fun k => f ((k + i * n) / n) ((k + i * n) `mod` n))).
  2:{ intros k s' Hk. rewrite Z.div_add, Z.mod_add by lia. rewrite Z.div_small, Z.mod_small by lia. done. }
  destruct (for_up (Z.to_nat n) 0 _ s) as [[[] s'] | e]; [| done]. apply (IH (i + 1)). lia.
Qed.

Lemma upto_nil n (f : Z -> ST S unit) s : n <= 0 -> upto n f s = Ok (tt, s).
Proof. intros Hn. unfold upto. by replace (Z.to_nat n) with O by lia. Qed.

Lemma upto_ext n (f g : Z -> ST S unit) s :
  (forall k s', 0 <= k < n -> f k s' = g k s') -> upto n f s = upto n g s.
Proof. intros H. apply for_up_ext. intros k s' Hk. apply H. lia. Qed.

Lemma for_up_skip n : forall i s, for_up (S := S) n i (fun _ => ret tt) s = Ok (tt, s).
Proof. induction n as [|n IH]; intros i s; [done |]. apply IH. Qed.

Lemma upto_nest m n (f : Z -> Z -> ST S unit) s :
  upto m (fun i => upto n (f i)) s = upto (Z.max 0 m * Z.max 0 n) (fun k => f (k / n) (k `mod` n)) s.
Proof.
  destruct (Z.leb_spec n 0) as [Hn | Hn].
  - rewrite (upto_nil (_ * _)) by lia.
    rewrite (upto_ext m _ (fun _ => ret tt)) by (intros k s' _; by rewrite upto_nil). apply for_up_skip.
  - unfold upto at 1. rewrite for_up_nest by lia. unfold upto. f_equal. lia.
Qed.

End Loops.

(** Six nested loops. *)
Lemma upto_threads (g b : dim3) (F : Z -> Z -> Z -> Z -> Z -> Z -> ST dev unit) s :
  upto (dz g) (fun z => upto (dy g) (fun y => upto (dx g) (fun x =>
    upto (dz b) (fun w => upto (dy b) (fun v => upto (dx b) (fun u => F z y x w v u)))))) s =
  upto (threads g b) (fun k =>
    let r := thread_regs g b k in
    F (dz (ctaid r)) (dy (ctaid r)) (dx (ctaid r)) (dz (tid r)) (dy (tid r)) (dx (tid r))) s.
Proof.
  rewrite (upto_nest (dz g)), (upto_nest _ (dx g)), (upto_nest _ (dz b)), (upto_nest _ (dy b)), (upto_nest _ (dx b)).
  replace (Z.max 0 _ * Z.max 0 (dx b)) with (threads g b); [done |]. unfold threads, volume.
  repeat match goal with |- context [Z.max 0 (?x * ?y)] => rewrite (Z.max_r 0 (x * y)) by lia end. lia.
Qed.

(** ** The registers *)

(** [m1] run where the registers satisfy [P] does to the memory what [m2] does
    whatever the registers are. *)
Definition sim (P : regs -> Prop) (m1 m2 : ST dev unit) : Prop := forall d1 d2,
  memory d1 = memory d2 -> P (registers d1) ->
  match m1 d1, m2 d2 with
  | Ok (_, d1'), Ok (_, d2') => memory d1' = memory d2' /\ P (registers d1')
  | Err e, Err e' => e = e'
  | _, _ => False
  end.

Lemma sim_for P n : forall i f g, (forall k, i <= k < i + Z.of_nat n -> sim P (f k) (g k)) ->
  sim P (for_up n i f) (for_up n i g).
Proof.
  induction n as [|n IH]; intros i f g H d1 d2 Hm HP; [done |].
  cbn [for_up]. unfold bind. pose proof (H i ltac:(lia) d1 d2 Hm HP) as Hi.
  destruct (f i d1) as [[u d1'] | e], (g i d2) as [[v d2'] | e']; try done. destruct Hi as [Hm' HP'].
  apply IH; [| done | done]. intros k Hk. apply H. lia.
Qed.

Lemma sim_upto P n f g : (forall k, 0 <= k < n -> sim P (f k) (g k)) -> sim P (upto n f) (upto n g).
Proof. intros H. apply sim_for. intros k Hk. apply H. lia. Qed.

Lemma sim_congr P m1 m2 m2' : (forall d, m2 d = m2' d) -> sim P m1 m2 -> sim P m1 m2'.
Proof. intros E H d1 d2 Hm HP. rewrite <- E. by apply H. Qed.

(** A kernel only loads the index registers. *)
Definition loads_registers (fn : thunk) (argv : list Z) : Prop :=
  forall d u d', fn argv d = Ok (u, d') -> registers d' = registers d.

Section Launch.
Context (fn : thunk) (argv : list Z) (Hfn : loads_registers fn argv).

Lemma sim_thread t c b g :
  sim (fun r => ctaid r = c /\ ntid r = b /\ nctaid r = g)
    (bind (set_tid t) (fun _ => fn argv)) (bind (set_regs (mkRegs t c b g)) (fun _ => fn argv)).
Proof using Hfn.
  intros d1 d2 Hm (Ec & Eb & Eg). unfold bind, set_tid, set_regs. rewrite Ec, Eb, Eg, Hm.
  destruct (fn argv _) as [[u d'] | e] eqn:E; [| done]. split; [done |]. by rewrite (Hfn _ _ _ E).
Qed.

Lemma sim_ctaid c b g m1 m2 :
  sim (fun r => ctaid r = c /\ ntid r = b /\ nctaid r = g) m1 m2 ->
  sim (fun r => ntid r = b /\ nctaid r = g) (bind (set_ctaid c) (fun _ => m1)) m2.
Proof using.
  intros H d1 d2 Hm (Eb & Eg). unfold bind, set_ctaid.
  pose proof (H (mkDev (mkRegs (tid (registers d1)) c (ntid (registers d1)) (nctaid (registers d1))) (memory d1)) d2 Hm
                (conj eq_refl (conj Eb Eg))) as Hs.
  destruct (m1 _) as [[u d'] | e], (m2 d2) as [[v d2'] | e']; try done. by destruct Hs as (? & _ & ?).
Qed.

(** The launch, with the casts of the counters still in place. *)
Lemma sim_launch g b :
  sim (fun r => ntid r = dim_i32 (dx b) (dy b) (dz b) /\ nctaid r = dim_i32 (dx g) (dy g) (dz g))
    (upto (dz g) (fun z => upto (dy g) (fun y => upto (dx g) (fun x =>
       bind (set_ctaid (dim_i32 x y z)) (fun _ => run_block fn (dx b) (dy b) (dz b) argv)))))
    (upto (threads g b) (fun k =>
       let r := thread_regs g b k in
       bind (set_regs (mkRegs (dim_i32 (dx (tid r)) (dy (tid r)) (dz (tid r)))
                              (dim_i32 (dx (ctaid r)) (dy (ctaid r)) (dz (ctaid r)))
                              (dim_i32 (dx b) (dy b) (dz b)) (dim_i32 (dx g) (dy g) (dz g))))
            (fun _ => fn argv))).
Proof using Hfn.
  set (F := fun z y x w v u =>
    bind (set_regs (mkRegs (dim_i32 u v w) (dim_i32 x y z) (dim_i32 (dx b) (dy b) (dz b)) (dim_i32 (dx g) (dy g) (dz g))))
         (fun _ => fn argv)).
  apply (sim_congr _ _ _ _ (upto_threads g b F)). unfold F.
  do 3 (apply sim_upto; intros ? _). apply sim_ctaid.
  unfold run_block. do 3 (apply sim_upto; intros ? _). apply sim_thread.
Qed.

End Launch.

(** ** The launch is one loop *)

Definition outcome (r : res (unit * dev)) : res mem := let! x := r in Ok (memory x.2).

(** Dimensions that the 32-bit registers hold. *)
Definition dim_fits (d : dim3) : Prop := in_srange 32 (dx d) /\ in_srange 32 (dy d) /\ in_srange 32 (dz d).
Definition inside (i d : dim3) : Prop := 0 <= dx i < dx d /\ 0 <= dy i < dy d /\ 0 <= dz i < dz d.

Lemma dim_i32_fits d : dim_fits d -> dim_i32 (dx d) (dy d) (dz d) = d.
Proof. intros (Hx & Hy & Hz). unfold dim_i32, i32. rewrite !swrap_small by (lia || done). by destruct d. Qed.

Lemma inside_fits i d : dim_fits d -> inside i d -> dim_fits i.
Proof. unfold dim_fits, inside, in_srange. lia. Qed.

Lemma volume_zero d : dx d <= 0 \/ dy d <= 0 \/ dz d <= 0 -> volume d = 0.
Proof. unfold volume. intros [H | [H | H]]; rewrite (Z.max_l _ _ H); lia. Qed.

Lemma volume_pos d : 0 < volume d -> 0 < dx d /\ 0 < dy d /\ 0 < dz d /\ volume d = dz d * dy d * dx d.
Proof.
  intros H. destruct (Z.leb_spec (dx d) 0), (Z.leb_spec (dy d) 0), (Z.leb_spec (dz d) 0);
    try (rewrite volume_zero in H by lia; lia).
  unfold volume. rewrite !Z.max_r by lia. done.
Qed.

Lemma threads_pos g b : 0 < threads g b -> 0 < volume g /\ 0 < volume b.
Proof. unfold threads, volume. intros H. assert (0 <= Z.max 0 (dz g) * Z.max 0 (dy g) * Z.max 0 (dx g)) by lia. nia. Qed.

Lemma thread_inside g b k : 0 <= k < threads g b ->
  inside (tid (thread_regs g b k)) b /\ inside (ctaid (thread_regs g b k)) g.
Proof.
  intros Hk. destruct (threads_pos g b ltac:(lia)) as [Hg Hb].
  destruct (volume_pos g Hg) as (? & ? & ? & Eg), (volume_pos b Hb) as (? & ? & ? & Eb).
  unfold threads in Hk. rewrite Eg, Eb in Hk. unfold inside, thread_regs. cbn [tid ctaid dx dy dz].
  repeat split; try (apply Z.mod_pos_bound; lia);
    [repeat (apply Z.div_pos; [| lia]); lia |].
  repeat (apply Z.div_lt_upper_bound; [lia |]). lia.
Qed.

(** The number of a thread. *)
Definition thread_number (g b c t : dim3) : Z :=
  ((((dz c * dy g + dy c) * dx g + dx c) * dz b + dz t) * dy b + dy t) * dx b + dx t.

Lemma digit q n r : 0 <= r < n -> (q * n + r) / n = q /\ (q * n + r) `mod` n = r.
Proof. intros Hr. rewrite Z.add_comm, Z.div_add, Z.mod_add by lia. by rewrite Z.div_small, Z.mod_small by lia. Qed.

Lemma thread_of_number g b c t : inside c g -> inside t b ->
  0 <= thread_number g b c t < threads g b /\ thread_regs g b (thread_number g b c t) = mkRegs t c b g.
Proof.
  intros (Hcx & Hcy & Hcz) (Htx & Hty & Htz). split.
  - unfold threads, volume, thread_number. rewrite !Z.max_r by lia.
    set (i1 := dz c * dy g + dy c). assert (0 <= i1 < dz g * dy g) by nia.
    set (i2 := i1 * dx g + dx c). assert (0 <= i2 < dz g * dy g * dx g) by nia.
    set (G := dz g * dy g * dx g) in *.
    set (i3 := i2 * dz b + dz t). assert (0 <= i3 < G * dz b) by nia.
    set (i4 := i3 * dy b + dy t). assert (0 <= i4 < G * dz b * dy b) by nia. nia.
  - unfold thread_regs, thread_number. cbv zeta.
    repeat match goal with |- context [(?q * ?n + ?r) / ?n] => destruct (digit q n r ltac:(lia)) as [-> ->] end.
    by destruct c, t.
Qed.

(** Every thread has one number. *)
Lemma thread_number_unique g b k : 0 <= k < threads g b ->
  thread_number g b (ctaid (thread_regs g b k)) (tid (thread_regs g b k)) = k.
Proof.
  intros Hk. destruct (threads_pos g b ltac:(lia)) as [Hg Hb].
  destruct (volume_pos g Hg) as (? & ? & ? & Eg), (volume_pos b Hb) as (? & ? & ? & Eb).
  unfold thread_number, thread_regs. cbn [tid ctaid dx dy dz].
  rewrite !(Z.mul_comm _ (dy g)), !(Z.mul_comm _ (dx g)), !(Z.mul_comm _ (dz b)), !(Z.mul_comm _ (dy b)), !(Z.mul_comm _ (dx b)).
  rewrite <- !Z.div_mod by lia. done.
Qed.

Lemma launch_outcome fn argv g b d : loads_registers fn argv -> dim_fits g -> dim_fits b ->
  outcome (pas_dev_launch (Some fn) (dx g) (dy g) (dz g) (dx b) (dy b) (dz b) argv d) =
  outcome (each_thread fn g b argv d).
Proof.
  intros Hfn Hg Hb. cbn [pas_dev_launch]. unfold bind at 1, set_dims.
  pose proof (sim_launch fn argv Hfn g b
    (mkDev (mkRegs (tid (registers d)) (ctaid (registers d)) (dim_i32 (dx b) (dy b) (dz b)) (dim_i32 (dx g) (dy g) (dz g))) (memory d))
    d eq_refl (conj eq_refl eq_refl)) as H.
  unfold each_thread.
  rewrite (upto_ext (threads g b) (fun k => bind (set_regs (thread_regs g b k)) (fun _ => fn argv))
    (fun k => let r := thread_regs g b k in
       bind (set_regs (mkRegs (dim_i32 (dx (tid r)) (dy (tid r)) (dz (tid r)))
                              (dim_i32 (dx (ctaid r)) (dy (ctaid r)) (dz (ctaid r)))
                              (dim_i32 (dx b) (dy b) (dz b)) (dim_i32 (dx g) (dy g) (dz g))))
            (fun _ => fn argv))).
  2:{ intros k s' Hk. cbv zeta. destruct (thread_inside g b k Hk) as [Ht Hc].
      rewrite !dim_i32_fits; eauto using inside_fits. }
  destruct (upto (dz g) _ _) as [[u d1] | e], (upto (threads g b) _ d) as [[v d2] | e']; try done; cbn; [| by rewrite H].
  by destruct H as [-> _].
Qed.

(** C24: A launch calls the kernel once for every thread of the grid, in the order of the
    thread numbers (x fastest, a block before the next), with the index and dimension
    registers of that thread: the nested loops do what one loop over the numbers does,
    to the memory and to the first error, and the numbers are in bijection with the
    pairs of a block and a thread index. *)
Theorem launch_linear fn argv g b d : loads_registers fn argv -> dim_fits g -> dim_fits b ->
  outcome (pas_dev_launch (Some fn) (dx g) (dy g) (dz g) (dx b) (dy b) (dz b) argv d) =
    outcome (each_thread fn g b argv d) /\
  (forall c t, inside c g -> inside t b ->
     exists k, 0 <= k < threads g b /\ thread_regs g b k = mkRegs t c b g /\
       forall k', 0 <= k' < threads g b -> thread_regs g b k' = mkRegs t c b g -> k' = k) /\
  (forall k, 0 <= k < threads g b -> inside (ctaid (thread_regs g b k)) g /\ inside (tid (thread_regs g b k)) b).
Proof.
  intros Hfn Hg Hb. split; [by apply launch_outcome |]. split.
  - intros c t Hc Ht. destruct (thread_of_number g b c t Hc Ht) as [Hr E].
    exists (thread_number g b c t). split; [done |]. split; [done |]. intros k' Hk' E'.
    pose proof (thread_number_unique g b k' Hk') as Eu. rewrite E' in Eu. done.
  - intros k Hk. by destruct (thread_inside g b k Hk).
Qed.

(** A kernel that writes its thread number to the memory. *)
Definition probe_kernel : thunk := fun _ d =>
  let r := registers d in
  let! m := store (memory d) (100 * dz (ctaid r) + 10 * dy (tid r) + dx (tid r)) "x" in Ok (tt, set_memory d m).

Lemma launch_linear_witness :
  outcome (pas_dev_launch (Some probe_kernel) 1 1 2 3 2 1 [] (mkDev regs0 (list_to_map [(111, "a"%char)]))) =
  outcome (each_thread probe_kernel (mkDim 1 1 2) (mkDim 3 2 1) [] (mkDev regs0 (list_to_map [(111, "a"%char)]))).
Proof.
  assert (loads_registers probe_kernel []) as Hl.
  { intros d u d' E. unfold probe_kernel, store in E. destruct (memory d !! _); [| discriminate E]. injection E as _ <-. reflexivity. }
  assert (dim_fits (mkDim 1 1 2) /\ dim_fits (mkDim 3 2 1)) as [H1 H2] by (unfold dim_fits, in_srange; cbn; lia).
  apply (launch_linear probe_kernel [] (mkDim 1 1 2) (mkDim 3 2 1) (mkDev regs0 (list_to_map [(111, "a"%char)])) Hl H1 H2).
Defined.

(** * An elementwise kernel *)

(** The kernel works on element [blockIdx.x * blockDim.x + threadIdx.x] of the [n] bytes
    at its argument. *)
Definition elementwise (fn : thunk) (a n : Z) (f : ascii -> ascii) : Prop := forall d,
  let i := dx (ctaid (registers d)) * dx (ntid (registers d)) + dx (tid (registers d)) in
  fn [a] d = if i <? n then let! c := load (memory d) (a + i) in
                            let! m := store (memory d) (a + i) (f c) in Ok (tt, set_memory d m)
             else Ok (tt, d).

Lemma elementwise_loads fn a n f : elementwise fn a n f -> loads_registers fn [a].
Proof.
  intros H d u d' E. rewrite H in E. destruct (_ <? n); [| by injection E as _ <-].
  unfold load, store in E. destruct (memory d !! _); [| done]. cbn [rbind] in E.
  by injection E as _ <-.
Qed.

(** [m'] is [m] with [f] applied to the bytes from [a + k] to [a + n]. *)
Definition maps_to (f : ascii -> ascii) (a k n : Z) (m m' : mem) : Prop := forall x,
  m' !! x = if (a + k <=? x) && (x <? a + n) then f <$> m !! x else m !! x.

Section Elementwise.
Context (fn : thunk) (a n gx bx : Z) (f : ascii -> ascii).
Context (Hfn : elementwise fn a n f) (Hbx : 0 < bx) (Hgx : 0 < gx).
#[local] Abbreviation g := (mkDim gx 1 1).
#[local] Abbreviation b := (mkDim bx 1 1).

Lemma thread_index k : 0 <= k < gx * bx ->
  dx (ctaid (thread_regs g b k)) * bx + dx (tid (thread_regs g b k)) = k.
Proof using Hbx Hgx.
  intros Hk. cbn. rewrite !Z.div_1_r, (Z.mod_small (k / bx)).
  - pose proof (Z.div_mod k bx ltac:(lia)). lia.
  - split; [apply Z.div_pos; lia | apply Z.div_lt_upper_bound; lia].
Qed.

Lemma thread_step k d : 0 <= k < gx * bx -> (k < n -> is_Some (memory d !! (a + k))) ->
  exists d', bind (set_regs (thread_regs g b k)) (fun _ => fn [a]) d = Ok (tt, d') /\
    maps_to f a k (Z.min n (k + 1)) (memory d) (memory d').
Proof using Hbx Hfn Hgx.
  intros Hk Hm. unfold bind, set_regs. rewrite Hfn. cbn [registers memory].
  change (dx (ntid (thread_regs g b k))) with bx. rewrite thread_index by done.
  destruct (Z.ltb_spec k n) as [Hlt | Hge].
  - destruct (Hm Hlt) as [c Hc]. unfold load, store. rewrite Hc. cbn [rbind].
    eexists. split; [done |]. intros x. cbn [memory set_memory]. rewrite Z.min_r by lia.
    destruct (Z.leb_spec (a + k) x), (Z.ltb_spec x (a + (k + 1))); cbn [andb]; try (rewrite lookup_insert_ne by lia; done).
    replace x with (a + k) by lia. by rewrite lookup_insert_eq, Hc.
  - eexists. split; [done |]. intros x. cbn [memory]. rewrite Z.min_l by lia.
    destruct (Z.leb_spec (a + k) x), (Z.ltb_spec x (a + n)); cbn [andb]; try done; lia.
Qed.

Lemma threads_map j : forall k d, 0 <= k -> k + Z.of_nat j = gx * bx -> n <= gx * bx ->
  (forall i, k <= i < n -> is_Some (memory d !! (a + i))) ->
  exists d', for_up j k (fun k => bind (set_regs (thread_regs g b k)) (fun _ => fn [a])) d = Ok (tt, d') /\
    maps_to f a k n (memory d) (memory d').
Proof using Hbx Hfn Hgx.
  induction j as [|j IH]; intros k d Hk Hj Hn Hm; cbn [for_up].
  - exists d. split; [done |]. intros x. destruct (Z.leb_spec (a + k) x), (Z.ltb_spec x (a + n)); cbn [andb]; try done; lia.
  - destruct (thread_step k d) as (d1 & E1 & M1); [lia | intros; apply Hm; lia |]. rewrite (bind_ok _ _ _ _ _ E1).
    destruct (IH (k + 1) d1) as (d2 & E2 & M2); [lia | lia | done | |].
    { intros i Hi. rewrite M1. destruct (_ && _); [apply fmap_is_Some |]; apply Hm; lia. }
    exists d2. split; [done |]. intros x. rewrite M2, M1.
    destruct (Z.leb_spec (a + k) x), (Z.ltb_spec x (a + n)), (Z.leb_spec (a + (k + 1)) x), (Z.ltb_spec x (a + Z.min n (k + 1)));
      cbn [andb]; try done; lia.
Qed.

End Elementwise.

(** ** Allocate, copy, launch, copy back *)

(** [malloc(n)] gives [a], a block that was not mapped. *)
Definition grants (malloc : mem -> Z -> ptr * mem) (m : mem) (n a : Z) : Prop :=
  exists m', malloc m n = (Some a, m') /\
    (forall i, 0 <= i < n -> m !! (a + i) = None /\ is_Some (m' !! (a + i))) /\
    (forall x, x < a \/ a + n <= x -> m' !! x = m !! x).

(** What a host program does with an array of [n] bytes at [h]. *)
Definition on_device (malloc : mem -> Z -> ptr * mem) (r : option pas_dev_registry) (name : string) (gx bx h n : Z) :
  ST dev unit :=
  let* p := pas_dev_alloc malloc n in
  do* pas_dev_copy_to p (Some h) n in
  let* entry := lift (pas_dev_module_get_function (pas_dev_module_load r EmptyString) (Some name)) in
  do* pas_dev_launch entry gx 1 1 bx 1 1 (match p with Some a => [a] | None => [] end) in
  pas_dev_copy_from (Some h) p n.

(** [name] is the name of an entry of the registry, before it only other names. *)
Definition registered (r : pas_dev_registry) (name : string) (i : nat) (fn : thunk) : Prop :=
  Z.of_nat i < count r /\ names r !! i = Some (Some name) /\ entries r !! i = Some (Some fn) /\
  (forall j, (j < i)%nat -> exists s, names r !! j = Some s /\ s <> Some name).

Lemma find_registered r name i fn : registered r name i fn ->
  pas_dev_module_get_function (Some r) (Some name) = Ok (Some fn).
Proof.
  intros (Hi & Hn & He & Hb). unfold pas_dev_module_get_function.
  assert (forall n j, (j <= i)%nat -> (i < j + n)%nat -> find_kernel n r j name = Ok (Some fn)) as H; [| apply H; lia].
  induction n as [|n IH]; intros j Hj Hjn; [lia |]. cbn [find_kernel].
  destruct (decide (j = i)) as [-> | Hne]; [by rewrite Hn, bool_decide_eq_true_2, He |].
  destruct (Hb j ltac:(lia)) as (s & -> & Hs). destruct s as [s |]; [| apply IH; lia].
  rewrite bool_decide_eq_false_2 by congruence. apply IH; lia.
Qed.

Lemma memcpy_spec dst src n m : 0 < n -> (dst + n <= src \/ src + n <= dst) ->
  mapped m src (Z.to_nat n) -> mapped m dst (Z.to_nat n) ->
  exists m', memcpy dst src n m = Ok m' /\
    forall x, m' !! x = if (dst <=? x) && (x <? dst + n) then m !! (src + (x - dst)) else m !! x.
Proof.
  intros Hn Hd Hs Ht. unfold memcpy.
  replace ((dst <? src + n) && (src <? dst + n)) with false
    by (destruct (Z.ltb_spec dst (src + n)), (Z.ltb_spec src (dst + n)); cbn; lia).
  destruct (copy_up_spec _ _ _ _ Hs Ht) as (m' & E & Hout & Hin). exists m'. split; [done |]. intros x.
  rewrite Z2Nat.id in * by lia. destruct (Z.leb_spec dst x), (Z.ltb_spec x (dst + n)); cbn [andb]; try (apply Hout; lia).
  replace x with (dst + (x - dst)) at 1 by lia. rewrite Hin by lia. unfold up_source.
  destruct (Z.ltb_spec src dst); [rewrite Z.mod_small by lia |]; done.
Qed.

Section OnDevice.
Context (malloc : mem -> Z -> ptr * mem) (r : pas_dev_registry) (name : string) (fn : thunk) (gx bx h n a : Z) (f : ascii -> ascii).
Context (Hn : 0 < n <= gx * bx) (Hgx : 0 < gx < 2 ^ 31) (Hbx : 0 < bx < 2 ^ 31) (Hfn : elementwise fn a n f).

Lemma launch_maps d : mapped (memory d) a (Z.to_nat n) ->
  exists d', pas_dev_launch (Some fn) gx 1 1 bx 1 1 [a] d = Ok (tt, d') /\ maps_to f a 0 n (memory d) (memory d').
Proof using Hbx Hfn Hgx Hn.
  intros Hm. pose proof (launch_outcome fn [a] (mkDim gx 1 1) (mkDim bx 1 1) d (elementwise_loads _ _ _ _ Hfn)) as E.
  cbn [dx dy dz] in E. unfold each_thread, upto in E.
  replace (Z.to_nat (threads (mkDim gx 1 1) (mkDim bx 1 1))) with (Z.to_nat (gx * bx)) in E
    by (unfold threads, volume; cbn [dx dy dz]; rewrite !Z.max_r by lia; f_equal; lia).
  destruct (threads_map fn a n gx bx f Hfn ltac:(lia) ltac:(lia) (Z.to_nat (gx * bx)) 0 d) as (d' & E' & M); [lia | lia | lia | |].
  { intros i Hi. apply Hm. lia. }
  rewrite E' in E. cbn [outcome rbind snd] in E.
  destruct (pas_dev_launch _ _ _ _ _ _ _ _ d) as [[[] d1] | e].
  - exists d1. split; [done |]. assert (Ok (memory d1) = Ok (memory d')) as Em by (apply E; unfold dim_fits, in_srange; cbn; lia).
    by injection Em as ->.
  - discriminate E; unfold dim_fits, in_srange; cbn; lia.
Qed.

Lemma copy_ok p q d : mapped (memory d) p (Z.to_nat n) -> mapped (memory d) q (Z.to_nat n) ->
  (p + n <= q \/ q + n <= p) ->
  exists d', pas_dev_copy_to (Some p) (Some q) n d = Ok (tt, d') /\ pas_dev_copy_from (Some p) (Some q) n d = Ok (tt, d') /\
    forall x, memory d' !! x = if (p <=? x) && (x <? p + n) then memory d !! (q + (x - p)) else memory d !! x.
Proof using Hn.
  intros Hp Hq Hd. unfold pas_dev_copy_to, pas_dev_copy_from. destruct (Z.ltb_spec 0 n); [| lia].
  destruct (memcpy_spec p q n (memory d) ltac:(lia) Hd Hq Hp) as (m' & -> & M). eexists. split; [done |]. split; [done |]. exact M.
Qed.

Lemma on_device_maps i d : grants malloc (memory d) n a -> registered r name i fn -> mapped (memory d) h (Z.to_nat n) ->
  exists d', on_device malloc (Some r) name gx bx h n d = Ok (tt, d') /\
    forall x, x < a \/ a + n <= x ->
      memory d' !! x = if (h <=? x) && (x <? h + n) then f <$> memory d !! x else memory d !! x.
Proof using All.
  intros (m1 & Em & Hnew & Hold) Hr Hh. unfold on_device, pas_dev_module_load.
  assert (h + n <= a \/ a + n <= h) as Hd.
  { destruct (Z_lt_dec a (h + n)); [| lia]. destruct (Z_lt_dec h (a + n)); [| lia]. exfalso.
    destruct (Hh (Z.max a h - h) ltac:(lia)) as [c Hc]. destruct (Hnew (Z.max a h - a) ltac:(lia)) as [Hx _].
    replace (a + (Z.max a h - a)) with (h + (Z.max a h - h)) in Hx by lia. congruence. }
  assert (mapped m1 a (Z.to_nat n)) as Ha1 by (intros j Hj; apply Hnew; lia).
  assert (mapped m1 h (Z.to_nat n)) as Hh1 by (intros j Hj; rewrite Hold by lia; by apply Hh).
  assert (pas_dev_alloc malloc n d = Ok (Some a, set_memory d m1)) as E0.
  { unfold pas_dev_alloc. rewrite Em. by destruct (Z.leb_spec n 0); [lia |]. }
  rewrite (bind_ok _ _ _ _ _ E0).
  destruct (copy_ok a h (set_memory d m1) Ha1 Hh1 ltac:(lia)) as (d2 & E2 & _ & M2). rewrite (bind_ok _ _ _ _ _ E2).
  cbn [memory set_memory] in M2. rewrite (find_registered _ _ _ _ Hr). rewrite (bind_ok _ _ _ (Some fn) d2 eq_refl).
  assert (mapped (memory d2) a (Z.to_nat n)) as Ha2.
  { intros j Hj. rewrite M2. destruct (_ && _) eqn:Ec; [| by apply Ha1].
    replace (h + (a + j - a)) with (h + j) by lia. by apply Hh1. }
  destruct (launch_maps d2 Ha2) as (d3 & E3 & M3). rewrite (bind_ok _ _ _ _ _ E3).
  assert (mapped (memory d3) a (Z.to_nat n)) as Ha3 by (intros j Hj; rewrite M3; destruct (_ && _); [apply fmap_is_Some |]; by apply Ha2).
  assert (forall x, x < a \/ a + n <= x -> memory d3 !! x = memory d !! x) as Hsame.
  { intros x Hx. rewrite M3, M2, <- Hold by lia.
    destruct (Z.leb_spec (a + 0) x), (Z.leb_spec a x), (Z.ltb_spec x (a + n)); cbn [andb]; try done; lia. }
  assert (mapped (memory d3) h (Z.to_nat n)) as Hh3 by (intros j Hj; rewrite Hsame by lia; by apply Hh).
  destruct (copy_ok h a d3 Hh3 Ha3 ltac:(lia)) as (d4 & _ & E4 & M4). exists d4. split; [done |]. intros x Hx. rewrite M4.
  destruct (Z.leb_spec h x), (Z.ltb_spec x (h + n)); cbn [andb]; try (by apply Hsame).
  rewrite M3, M2. replace ((a + 0 <=? a + (x - h)) && (a + (x - h) <? a + n)) with true by lia.
  replace ((a <=? a + (x - h)) && (a + (x - h) <? a + n)) with true by lia.
  replace (h + (a + (x - h) - a)) with x by lia. by rewrite Hold.
Qed.

End OnDevice.

(** A program that allocates a device block, copies an array of the host to it,
    looks the kernel up by its name, launches it over at least as many threads as the
    array has elements and copies the block back, leaves in the array what the kernel
    computes for each element, and no other byte of the host changed. *)
Theorem device_map malloc r name i fn gx bx h n a f d :
  0 < n <= gx * bx -> 0 < gx < 2 ^ 31 -> 0 < bx < 2 ^ 31 ->
  grants malloc (memory d) n a -> registered r name i fn -> elementwise fn a n f -> mapped (memory d) h (Z.to_nat n) ->
  exists d', on_device malloc (Some r) name gx bx h n d = Ok (tt, d') /\
    forall x, x < a \/ a + n <= x ->
      memory d' !! x = if (h <=? x) && (x <? h + n) then f <$> memory d !! x else memory d !! x.
Proof. intros Hn Hg Hb Hm Hr Hf Hh. exact (on_device_maps malloc r name fn gx bx h n a f Hn Hg Hb Hf i d Hm Hr Hh). Qed.

(** A kernel that makes letters upper case, and an allocator. *)
Definition upcase_kernel (n : Z) : thunk := fun argv d =>
  let a := List.hd 0 argv in
  let i := dx (ctaid (registers d)) * dx (ntid (registers d)) + dx (tid (registers d)) in
  if i <? n then let! c := load (memory d) (a + i) in
                 let! m := store (memory d) (a + i) (toupper c) in Ok (tt, set_memory d m)
  else Ok (tt, d).
Definition malloc_100 (m : mem) (n : Z) : ptr * mem :=
  (Some 100, list_to_map (map (fun i => (100 + Z.of_nat i, "?"%char)) (seq 0 (Z.to_nat n))) ∪ m).

Lemma device_map_witness :
  let d := mkDev regs0 (list_to_map [(10, "a"%char); (11, "b"%char); (12, "c"%char)]) in
  let r := mkRegistry [None; Some "UPCASE"] [None; Some (upcase_kernel 3)] 2 in
  exists d', on_device malloc_100 (Some r) "UPCASE" 2 2 10 3 d = Ok (tt, d') /\
    forall x, x < 100 \/ 100 + 3 <= x ->
      memory d' !! x = if (10 <=? x) && (x <? 10 + 3) then toupper <$> memory d !! x else memory d !! x.
Proof.
  intros d r.
  assert (forall i, 0 <= i < 3 -> i = 0 \/ i = 1 \/ i = 2) as H3 by lia.
  apply (device_map malloc_100 r "UPCASE" 1 (upcase_kernel 3) 2 2 10 3 100 toupper d); try lia.
  - eexists. split; [reflexivity |]. split.
    + intros i Hi. destruct (H3 i Hi) as [-> | [-> | ->]]; split; vm_compute; eauto.
    + intros x Hx. apply lookup_union_r. apply not_elem_of_list_to_map. intros Hin%list_elem_of_In. destruct Hin as [E | [E | [E | []]]]; cbn in E; lia.
  - split; [cbn; lia |]. split; [reflexivity |]. split; [reflexivity |].
    intros j Hj. assert (j = 0)%nat as -> by lia. exists None. split; [reflexivity | discriminate].
  - intros d'. reflexivity.
  - intros i Hi. change (Z.of_nat (Z.to_nat 3)) with 3 in Hi. destruct (H3 i Hi) as [-> | [-> | ->]]; vm_compute; eauto.
Defined.
