(* ===== verification/StackCk.v ===== *)
(** stackck.c of runtime/: the report of a stack overflow. At program start the extent
    of the main stack is read from the memory map of the process; the handler of
    SIGSEGV reports a fault near the stack pointer that lies in the extent or just
    below it, and gives every other fault back to the system. The extent is found for
    every memory map, however the reads cut its text, and exactly the faults of the
    stack are reported. *)

From Stdlib Require Import ZArith Ascii String Lia.
From stdpp Require Import base list strings gmap numbers.
From S2P Require Import Prelude.
#[local] Open Scope Z_scope.

(** * The memory map *)

Definition NEWLINE : Z := 10.
Definition DASH : Z := 45.

(** The digit a character stands for; [None] ends the loop of [stackck_hex]. *)
Definition hex_digit (c : Z) : option Z :=
  if (48 <=? c) && (c <=? 57) then Some (c - 48)
  else if (97 <=? c) && (c <=? 102) then Some (c - 97 + 10)
  else None.

(** [stackck_hex]: the value, and the rest of the string. *)
Fixpoint hex_loop (p : list Z) (v : Z) : Z * list Z :=
  match p with
  | c :: p' => match hex_digit c with Some d => hex_loop p' (uwrap 64 (v * 16 + d)) | None => (v, p) end
  | [] => (v, p)
  end.
Definition stackck_hex (p : list Z) : Z * list Z := hex_loop p 0.

(** The variables of [stackck_find_stack]: [line] with its [used] characters,
    [prev_end], and [( *lo, *hi)] once [found]. *)
Record maps_scan := mkScan { line : list Z; prev_end : Z; found : option (Z * Z) }.
Definition LINE_MAX : nat := 512.

Section FindStack.

(** The address of the frame. *)
Context (here : Z).

(** A complete line. *)
Definition scan_line (s : maps_scan) : maps_scan :=
  let '(start, q) := stackck_hex (line s) in
  match q with
  | c :: q' =>
      if c =? DASH then
        let '(end_, _) := stackck_hex q' in
        if (start <=? here) && (here <? end_)
        then mkScan [] (prev_end s) (Some (prev_end s, end_))
        else mkScan [] end_ None
      else mkScan [] (prev_end s) None
  | [] => mkScan [] (prev_end s) None
  end.

Definition scan_char (s : maps_scan) (c : Z) : maps_scan :=
  if c =? NEWLINE then scan_line s
  else if (length (line s) <? LINE_MAX - 1)%nat then mkScan (line s ++ [c]) (prev_end s) None else s.

(** [for (i = 0; i < n && !found; i++)]. *)
Fixpoint scan_chunk (s : maps_scan) (buf : list Z) : maps_scan :=
  match found s, buf with
  | None, c :: buf' => scan_chunk (scan_char s c) buf'
  | _, _ => s
  end.

(** [while (!found && (n = read(fd, buf, sizeof buf)) > 0)]; the list holds what the
    reads return, before one that returns nothing or fails. *)
Fixpoint scan_reads (s : maps_scan) (reads : list (list Z)) : maps_scan :=
  match found s, reads with
  | None, [] :: _ => s
  | None, buf :: reads' => scan_reads (scan_chunk s buf) reads'
  | _, _ => s
  end.

Definition RLIM_INFINITY : Z := 2 ^ 64 - 1.

(** [maps]: [None] if the file cannot be opened; [rlim_cur]: [None] if [getrlimit] fails. *)
Definition stackck_find_stack (maps : option (list (list Z))) (rlim_cur : option Z) : option (Z * Z) :=
  match maps with
  | None => None
  | Some reads =>
      match found (scan_reads (mkScan [] 0 None) reads) with
      | None => None
      | Some (lo, hi) =>
          match rlim_cur with
          | Some cur =>
              if negb (cur =? RLIM_INFINITY) && (cur <? hi) && (lo <? uwrap 64 (hi - cur))
              then Some (uwrap 64 (hi - cur), hi) else Some (lo, hi)
          | None => Some (lo, hi)
          end
      end
  end.

End FindStack.

(** * The handler *)

(** What SIGSEGV does. *)
Inductive action := SIG_DFL | Handler.

(** The globals of the file, the disposition of SIGSEGV, what was written to the error
    stream, and what stdout has delivered and still holds. *)
Record stackck := mkStackck {
  stack_lo : Z; stack_hi : Z; stackck_installed : bool; stackck_reporting : bool; segv : action; stderr_ : list Z;
  stdout_ : list Z; held_ : list Z
}.
Definition stackck0 : stackck := mkStackck 0 0 false false SIG_DFL [] [] [].

Definition SLACK : Z := 64 * 1024.
Definition stackck_message : list Z := map code (chars ("runtime error: STACKCK stack overflow" +:+ nl)).

(** What the host does for [pas_stackck_init]. *)
Record host_setup := mkSetup {
  maps_reads : option (list (list Z)); frame_address : Z; rlimit_stack : option Z; sigaltstack_ok : bool; sigaction_ok : bool
}.

Definition pas_stackck_init (h : host_setup) (s : stackck) : stackck :=
  if stackck_installed s then s
  else match stackck_find_stack (frame_address h) (maps_reads h) (rlimit_stack h) with
       | None => mkStackck (stack_lo s) (stack_hi s) true (stackck_reporting s) (segv s) (stderr_ s) (stdout_ s) (held_ s)
       | Some (lo, hi) =>
           if sigaltstack_ok h then
             if sigaction_ok h then mkStackck lo hi true (stackck_reporting s) Handler (stderr_ s) (stdout_ s) (held_ s)
             else mkStackck lo 0 true (stackck_reporting s) (segv s) (stderr_ s) (stdout_ s) (held_ s)
           else mkStackck lo 0 true (stackck_reporting s) (segv s) (stderr_ s) (stdout_ s) (held_ s)
       end.

(** The x86-64 version: [addr] is [si_addr], [sp] the interrupted stack pointer. *)
Definition stackck_is_overflow (s : stackck) (addr sp : Z) : bool :=
  if (stack_hi s =? 0) || (stack_hi s <=? addr) then false
  else if uwrap 64 (addr + SLACK) <? stack_lo s then false
  else if (stack_hi s <=? sp) || (uwrap 64 (sp + SLACK) <? stack_lo s) then false
  else if (uwrap 64 (addr + SLACK) <? sp) || (uwrap 64 (sp + SLACK) <? addr) then false
  else true.

(** [write] accepts at most the given number of characters at each call; nothing or a
    failure ends the loop. *)
Fixpoint write_loop (p : list Z) (accepts : list Z) (out : list Z) : list Z :=
  match p, accepts with
  | [], _ => out
  | _, n :: accepts' =>
      if n <=? 0 then out
      else let k := Z.to_nat (Z.min n (Z.of_nat (length p))) in write_loop (drop k p) accepts' (out ++ take k p)
  | _, [] => out
  end.
Definition stackck_write_message (accepts : list Z) (s : stackck) : stackck :=
  mkStackck (stack_lo s) (stack_hi s) (stackck_installed s) (stackck_reporting s) (segv s)
            (write_loop stackck_message accepts (stderr_ s)) (stdout_ s) (held_ s).

(** How the handler ends: it returns to the faulting instruction or aborts. *)
Inductive ends := Returns | Aborts.

Definition set_reporting (s : stackck) : stackck :=
  mkStackck (stack_lo s) (stack_hi s) (stackck_installed s) true (segv s) (stderr_ s) (stdout_ s) (held_ s).
Definition set_default (s : stackck) : stackck :=
  mkStackck (stack_lo s) (stack_hi s) (stackck_installed s) (stackck_reporting s) SIG_DFL (stderr_ s) (stdout_ s) (held_ s).

(** [fflush(stdout)], of which the first [n] characters get out. *)
Definition flush_stdout (n : nat) (s : stackck) : stackck :=
  mkStackck (stack_lo s) (stack_hi s) (stackck_installed s) (stackck_reporting s) (segv s) (stderr_ s)
            (stdout_ s ++ take n (held_ s)) (drop n (held_ s)).

(** [stackck_handler]: the fault it was entered for, as [si_addr] and the interrupted stack
    pointer, and the faults that follow before it ends, which [fflush] can take: each
    enters the handler again. A flush that faults has delivered [sent] characters. *)
Fixpoint stackck_handler (faults : list (Z * Z)) (sent : nat) (accepts : list Z) (s : stackck) : ends * stackck :=
  match faults with
  | [] => (Returns, s)
  | (addr, sp) :: more =>
      if stackck_reporting s then (Aborts, stackck_write_message accepts s)
      else if negb (stackck_is_overflow s addr sp) then (Returns, set_default s)
      else
        let s := set_reporting s in
        match more with
        | [] => (Aborts, stackck_write_message accepts (flush_stdout (length (held_ s)) s))
        | _ => stackck_handler more sent accepts (flush_stdout sent s)
        end
  end.

(** * The extent of the stack *)

Definition hex_value (cs : list Z) : Z := foldl (fun v c => v * 16 + default 0 (hex_digit c)) 0 cs.

(** A line of the map: two hexadecimal fields and the rest of the line. *)
Record area := mkArea { a_start : list Z; a_end : list Z; a_tail : list Z }.
Definition hex_field (cs : list Z) : Prop := (length cs <= 16)%nat /\ Forall (fun c => is_Some (hex_digit c)) cs.
Definition area_wf (a : area) : Prop :=
  hex_field (a_start a) /\ hex_field (a_end a) /\ Forall (fun c => c <> NEWLINE) (a_tail a) /\
  match a_tail a with c :: _ => hex_digit c = None | [] => True end.
Definition area_line (a : area) : list Z := a_start a ++ DASH :: a_end a ++ a_tail a.
Definition maps_text (areas : list area) : list Z := concat (map (fun a => area_line a ++ [NEWLINE]) areas).
Definition holds (here : Z) (a : area) : Prop := hex_value (a_start a) <= here < hex_value (a_end a).

Lemma hex_digit_range c d : hex_digit c = Some d -> 0 <= d < 16.
Proof.
  unfold hex_digit. destruct (Z.leb_spec 48 c), (Z.leb_spec c 57), (Z.leb_spec 97 c), (Z.leb_spec c 102); cbn [andb];
    intros [= <-]; lia.
Qed.

Lemma hex_loop_spec cs rest : Forall (fun c => is_Some (hex_digit c)) cs ->
  match rest with c :: _ => hex_digit c = None | [] => True end ->
  forall v, 0 <= v -> (v + 1) * 16 ^ Z.of_nat (length cs) <= 2 ^ 64 ->
  hex_loop (cs ++ rest) v = (foldl (fun v c => v * 16 + default 0 (hex_digit c)) v cs, rest).
Proof.
  intros Hcs Hr. induction Hcs as [|c cs [d Hd] Hcs IH]; intros v Hv Hlt.
  - destruct rest as [|c rest]; [done |]. cbn. by rewrite Hr.
  - cbn [app hex_loop foldl length]. rewrite Hd. change (default 0 (Some d)) with d. pose proof (hex_digit_range _ _ Hd) as Hd16.
    cbn [length] in Hlt. rewrite Nat2Z.inj_succ, Z.pow_succ_r in Hlt by lia.
    assert (1 <= 16 ^ Z.of_nat (length cs)) by (apply Z.lt_pred_le, Z.pow_pos_nonneg; lia).
    set (P := 16 ^ Z.of_nat (length cs)) in *. assert ((v * 16 + d + 1) * P <= 2 ^ 64) by nia.
    unfold uwrap. rewrite Z.mod_small by nia. apply IH; lia.
Qed.

Lemma stackck_hex_spec cs rest : hex_field cs -> match rest with c :: _ => hex_digit c = None | [] => True end ->
  stackck_hex (cs ++ rest) = (hex_value cs, rest).
Proof.
  intros [Hl Hc] Hr. apply hex_loop_spec; try done. rewrite Z.mul_1_l. change (2 ^ 64) with (16 ^ 16).
  apply Z.pow_le_mono_r; lia.
Qed.

Section Extent.
Context (here : Z).

Lemma scan_chunk_app a : forall s b, scan_chunk here s (a ++ b) = scan_chunk here (scan_chunk here s a) b.
Proof.
  induction a as [|c a IH]; intros s b; cbn [app scan_chunk].
  - destruct (found s) eqn:E; [| done]. destruct b; cbn [scan_chunk]; by rewrite E.
  - destruct (found s) eqn:E; [| apply IH]. destruct b; cbn [scan_chunk]; by rewrite E.
Qed.

Lemma scan_chunk_found s b : is_Some (found s) -> scan_chunk here s b = s.
Proof. intros [x E]. destruct b; cbn [scan_chunk]; by rewrite E. Qed.

(** How the reads cut the text does not matter. *)
Lemma scan_reads_concat reads : forall s, Forall (fun buf => buf <> []) reads ->
  scan_reads here s reads = scan_chunk here s (concat reads).
Proof.
  induction reads as [|buf reads IH]; intros s Hr; cbn [scan_reads concat].
  - cbn [scan_chunk]. by destruct (found s).
  - apply Forall_cons_1 in Hr as [Hb Hr]. rewrite scan_chunk_app. destruct (found s) eqn:E.
    + assert (is_Some (found s)) as Hf by (rewrite E; by eexists). by rewrite !(scan_chunk_found s) by done.
    + destruct buf as [|c buf]; [done |]. by apply IH.
Qed.

Lemma scan_chunk_line l : forall s, Forall (fun c => c <> NEWLINE) l -> found s = None -> (length (line s) <= LINE_MAX - 1)%nat ->
  scan_chunk here s l = mkScan (take (LINE_MAX - 1) (line s ++ l)) (prev_end s) None.
Proof.
  induction l as [|c l IH]; intros s Hl Hf Hs.
  - rewrite app_nil_r, take_ge by done. destruct s as [ln pe fd]. cbn in *. by subst fd.
  - apply Forall_cons_1 in Hl as [Hc Hl]. cbn [scan_chunk]. rewrite Hf. unfold scan_char.
    destruct (Z.eqb_spec c NEWLINE); [done |]. destruct (Nat.ltb_spec (length (line s)) (LINE_MAX - 1)).
    + rewrite IH; [| done | done | cbn [line]; rewrite length_app; cbn [length]; lia]. cbn [line prev_end].
      by rewrite <- app_assoc.
    + rewrite IH by done. f_equal. assert (length (line s) = (LINE_MAX - 1)%nat) as <- by lia. by rewrite !take_app_length.
Qed.

Lemma newline_not_hex cs : Forall (fun c => is_Some (hex_digit c)) cs -> Forall (fun c => c <> NEWLINE) cs.
Proof. apply Forall_impl. intros c [d Hd] ->. discriminate Hd. Qed.

Lemma area_line_chars a : area_wf a -> Forall (fun c => c <> NEWLINE) (area_line a).
Proof.
  intros ([_ Hs] & [_ He] & Ht & _). unfold area_line. apply Forall_app. split; [by apply newline_not_hex |].
  apply Forall_cons; [done |]. apply Forall_app. split; [by apply newline_not_hex | done].
Qed.

(** One line of the map, cut to the buffer. *)
Lemma scan_line_area a pe : area_wf a ->
  scan_line here (mkScan (take (LINE_MAX - 1) (area_line a)) pe None) =
  if (hex_value (a_start a) <=? here) && (here <? hex_value (a_end a))
  then mkScan [] pe (Some (pe, hex_value (a_end a))) else mkScan [] (hex_value (a_end a)) None.
Proof.
  intros (Hs & He & Ht & Hth). unfold scan_line, area_line. cbn [line prev_end].
  rewrite take_app_ge by (destruct Hs; unfold LINE_MAX; lia).
  destruct (LINE_MAX - 1 - length (a_start a))%nat as [|k] eqn:Ek; [destruct Hs; unfold LINE_MAX in Ek; lia |].
  cbn [take]. rewrite (stackck_hex_spec (a_start a)) by done. rewrite Z.eqb_refl.
  rewrite take_app_ge by (destruct Hs, He; unfold LINE_MAX in Ek; lia).
  rewrite (stackck_hex_spec (a_end a)); [done | done |]. destruct (k - _)%nat; [done |]. by destruct (a_tail a).
Qed.

Lemma scan_text_line a pe rest : area_wf a ->
  scan_chunk here (mkScan [] pe None) ((area_line a ++ [NEWLINE]) ++ rest) =
  scan_chunk here (if (hex_value (a_start a) <=? here) && (here <? hex_value (a_end a))
                   then mkScan [] pe (Some (pe, hex_value (a_end a))) else mkScan [] (hex_value (a_end a)) None) rest.
Proof.
  intros Ha. rewrite <- scan_line_area by done. rewrite <- app_assoc, scan_chunk_app.
  rewrite (scan_chunk_line (area_line a)) by (eauto using area_line_chars || (cbn; lia)). done.
Qed.
End Extent.

(** The end of the last of the areas, or [pe]. *)
Definition last_end (pe : Z) (areas : list area) : Z := foldl (fun _ a => hex_value (a_end a)) pe areas.

Lemma scan_maps here pre a post : Forall area_wf (pre ++ a :: post) -> Forall (fun b => ~ holds here b) pre -> holds here a ->
  forall pe, found (scan_chunk here (mkScan [] pe None) (maps_text (pre ++ a :: post))) = Some (last_end pe pre, hex_value (a_end a)).
Proof.
  intros Hwf Hpre Ha. induction pre as [|b pre IH]; intros pe; cbn [app] in Hwf; apply Forall_cons_1 in Hwf as [Hb Hwf];
    unfold maps_text; cbn [app map concat]; rewrite scan_text_line by done.
  - unfold holds in Ha. assert ((hex_value (a_start a) <=? here) && (here <? hex_value (a_end a)) = true) as -> by lia. by rewrite scan_chunk_found by by eexists.
  - apply Forall_cons_1 in Hpre as [Hnb Hpre]. unfold holds in Hnb. assert ((hex_value (a_start b) <=? here) && (here <? hex_value (a_end b)) = false) as -> by lia.
    apply (IH Hwf Hpre).
Qed.

(** The lowest address the stack may grow to. *)
Definition stack_floor (below hi : Z) (rlim : option Z) : Z :=
  match rlim with Some cur => if cur =? RLIM_INFINITY then below else Z.max below (hi - cur) | None => below end.

Lemma hex_value_bound cs : hex_field cs -> 0 <= hex_value cs < 2 ^ 64.
Proof.
  intros [Hl Hc].
  assert (forall v, 0 <= v -> 0 <= foldl (fun v c => v * 16 + default 0 (hex_digit c)) v cs < (v + 1) * 16 ^ Z.of_nat (length cs)) as H.
  { clear Hl. induction Hc as [|c cs [d Hd] Hc IH]; intros v Hv; [cbn; lia |].
    cbn [foldl length]. rewrite Hd. change (default 0 (Some d)) with d. pose proof (hex_digit_range _ _ Hd).
    rewrite Nat2Z.inj_succ, Z.pow_succ_r by lia. specialize (IH (v * 16 + d) ltac:(lia)).
    assert (0 < 16 ^ Z.of_nat (length cs)) by (apply Z.pow_pos_nonneg; lia). nia. }
  specialize (H 0 ltac:(lia)). rewrite Z.mul_1_l in H. unfold hex_value. split; [lia |]. eapply Z.lt_le_trans; [apply H |].
  change (2 ^ 64) with (16 ^ 16). apply Z.pow_le_mono_r; lia.
Qed.

Lemma last_end_bound areas : Forall area_wf areas -> forall pe, 0 <= pe -> 0 <= last_end pe areas.
Proof.
  induction 1 as [|a areas (_ & He & _) Ha IH]; intros pe Hpe; [done |]. apply IH. by apply hex_value_bound.
Qed.

Lemma find_stack_exact here pre a post reads rlim :
  Forall area_wf (pre ++ a :: post) -> Forall (fun b => ~ holds here b) pre -> holds here a ->
  concat reads = maps_text (pre ++ a :: post) -> Forall (fun buf => buf <> []) reads ->
  match rlim with Some cur => 0 <= cur | None => True end ->
  stackck_find_stack here (Some reads) rlim =
    Some (stack_floor (last_end 0 pre) (hex_value (a_end a)) rlim, hex_value (a_end a)).
Proof.
  intros Hwf Hpre Ha Ht Hr Hlim. unfold stackck_find_stack. rewrite scan_reads_concat, Ht by done.
  rewrite (scan_maps here pre a post Hwf Hpre Ha 0). unfold stack_floor. destruct rlim as [cur |]; [| done].
  apply Forall_app in Hwf as [Hwp Hwa]. apply Forall_cons_1 in Hwa as [(_ & He & _) _].
  pose proof (last_end_bound pre Hwp 0 ltac:(lia)). pose proof (hex_value_bound _ He).
  destruct (Z.eqb_spec cur RLIM_INFINITY); [done |]. cbn [negb andb].
  destruct (Z.ltb_spec cur (hex_value (a_end a))); cbn [andb].
  - unfold uwrap. rewrite Z.mod_small by lia. destruct (Z.ltb_spec (last_end 0 pre) (hex_value (a_end a) - cur)); do 2 f_equal; lia.
  - do 2 f_equal. lia.
Qed.

(** * Which faults are reported *)

(** A fault of the stack: the address and the stack pointer are in the extent or in the
    slack below it, and near each other. *)
Definition stack_fault (lo hi addr sp : Z) : bool :=
  (lo - SLACK <=? addr) && (addr <? hi) && (lo - SLACK <=? sp) && (sp <? hi) && (Z.abs (addr - sp) <=? SLACK).

Lemma is_overflow_exact s addr sp : 0 <= stack_lo s -> 0 < stack_hi s <= 2 ^ 64 - SLACK -> 0 <= addr -> 0 <= sp ->
  stackck_is_overflow s addr sp = stack_fault (stack_lo s) (stack_hi s) addr sp.
Proof.
  intros Hlo Hhi Ha Hs. unfold stackck_is_overflow, stack_fault.
  destruct (Z.eqb_spec (stack_hi s) 0); [lia |]. cbn [orb]. destruct (Z.leb_spec (stack_hi s) addr); [lia |].
  unfold uwrap. rewrite (Z.mod_small (addr + SLACK)) by (unfold SLACK in *; lia).
  destruct (Z.leb_spec (stack_hi s) sp); [cbn [orb]; destruct (_ <? _); lia |].
  rewrite (Z.mod_small (sp + SLACK)) by (unfold SLACK in *; lia). cbn [orb].
  destruct (Z.ltb_spec (addr + SLACK) (stack_lo s)), (Z.ltb_spec (sp + SLACK) (stack_lo s)), (Z.ltb_spec (addr + SLACK) sp),
    (Z.ltb_spec (sp + SLACK) addr); cbn [orb]; lia.
Qed.

(** Short writes: the message gets out as long as each call takes something. *)
Lemma write_loop_all p : forall accepts out, Forall (fun n => 0 < n) accepts -> (length p <= length accepts)%nat ->
  write_loop p accepts out = out ++ p.
Proof.
  intros accepts. revert p. induction accepts as [|n accepts IH]; intros p out Hn Hl.
  - destruct p; [by rewrite app_nil_r | cbn in Hl; lia].
  - apply Forall_cons_1 in Hn as [Hn Ha]. destruct p as [|c p]; [by rewrite app_nil_r |]. cbn [write_loop].
    destruct (Z.leb_spec n 0); [lia |]. rewrite IH; [| done | rewrite length_drop; cbn [length] in *; lia].
    rewrite <- app_assoc. by rewrite take_drop.
Qed.

Lemma stack_floor_nonneg below hi rlim : 0 <= below -> 0 <= stack_floor below hi rlim.
Proof. intros H. unfold stack_floor. destruct rlim as [cur |]; [destruct (cur =? _) |]; lia. Qed.

(** What [fflush] delivers: everything, unless it faults. *)
Definition flushed (faults : list (Z * Z)) (sent : nat) (held : list Z) : nat :=
  match faults with [] => length held | _ => sent end.

(** Once the handler reports, it aborts after the message, whatever faults follow. *)
Lemma handler_reports faults sent accepts s : stackck_reporting s = true ->
  match faults with
  | [] => (Aborts, stackck_write_message accepts (flush_stdout (length (held_ s)) s))
  | _ => stackck_handler faults sent accepts (flush_stdout sent s)
  end = (Aborts, stackck_write_message accepts (flush_stdout (flushed faults sent (held_ s)) s)).
Proof. intros Hr. destruct faults as [|[addr sp] faults]; [done |]. cbn [stackck_handler flush_stdout stackck_reporting]. by rewrite Hr. Qed.

(** The program has written [w], of which stdout still holds [held]. *)
Definition with_stdout (w held : list Z) (s : stackck) : stackck :=
  mkStackck (stack_lo s) (stack_hi s) (stackck_installed s) (stackck_reporting s) (segv s) (stderr_ s) w held.


