(* ===== verification/TempFiles.v ===== *)
(** temporary.c of runtime/: the temporary files of the compiler driver and of Pascal
    files without a name. The driver keeps a table of the files it made; at exit and on
    a signal it removes those. Every system call may fail, other processes change the file
    system between the calls, and children of the driver end with a copy of its table:
    whatever happens, nothing but the recorded paths is removed; and when the calls of the
    clean-up succeed and other processes kept out of the private workspace, nothing of the
    driver is left. *)

From Stdlib Require Import ZArith Ascii String Lia.
From stdpp Require Import base list strings gmap numbers.
From S2P Require Import Prelude.
#[local] Open Scope Z_scope.

(** * The file system *)

(** A path is the list of its components. *)
Abbreviation path := (list string).

Record fs := mkFs { fs_files : gset path; fs_dirs : gset path }.
Definition exists_path (p : path) (f : fs) : bool := bool_decide (p ∈ fs_files f \/ p ∈ fs_dirs f).
Definition add_file (p : path) (f : fs) : fs := mkFs ({[p]} ∪ fs_files f) (fs_dirs f).
Definition add_dir (p : path) (f : fs) : fs := mkFs (fs_files f) ({[p]} ∪ fs_dirs f).

(** The directory of a path. *)
Definition parent (p : path) : path := removelast p.
(** Whether [p] is an entry of the directory [d]. *)
Definition entry_of (d p : path) : bool := bool_decide (p <> [] /\ parent p = d).
Definition is_empty_dir (d : path) (f : fs) : bool :=
  negb (existsb (entry_of d) (elements (fs_files f))) && negb (existsb (entry_of d) (elements (fs_dirs f))).

(** [ok]: whether the call succeeds, as far as the host has a say. *)
Definition unlink (ok : bool) (p : path) (f : fs) : fs := if ok then mkFs (fs_files f ∖ {[p]}) (fs_dirs f) else f.
Definition rmdir (ok : bool) (d : path) (f : fs) : fs :=
  if ok && is_empty_dir d f then mkFs (fs_files f) (fs_dirs f ∖ {[d]}) else f.

(** A name that the host chose for a template; the call fails without one, when the name
    is taken, and when the directory does not exist. *)
Definition place (p : path) (f : fs) : bool :=
  negb (exists_path p f) && bool_decide (parent p ∈ fs_dirs f).
Definition mkdtemp (base : path) (stem : string) (letters : option string) (f : fs) : option path * fs :=
  match letters with
  | Some l => let p := base ++ [stem +:+ l] in if place p f then (Some p, add_dir p f) else (None, f)
  | None => (None, f)
  end.
Definition mkstemps (base : path) (stem suffix : string) (letters : option string) (f : fs) : option path * fs :=
  match letters with
  | Some l => let p := base ++ [stem +:+ l +:+ suffix] in if place p f then (Some p, add_file p f) else (None, f)
  | None => (None, f)
  end.

(** * The code *)

Definition TEMP_ROOT : path := ["tmp"; "native-pascal-1981"].
Definition MAX_TEMP_FILES : nat := 512.

Inductive signal := SIGHUP | SIGINT | SIGTERM.

(** The globals of the file in the process [pid], and the file system; [workspace] is
    [None] for the empty string, [names] the first [file_count] entries of [files],
    [handlers] the signals [terminate] is installed for. *)
Record temps := mkTemps {
  workspace : option path; names : list path; owner : Z; pid : Z; at_exit : bool; handlers : signal -> bool; disk : fs
}.
Definition set_disk (s : temps) (f : fs) : temps :=
  mkTemps (workspace s) (names s) (owner s) (pid s) (at_exit s) (handlers s) f.

(** What the host answers to [mkdir] and [lstat] of the root; [private] is the test on the
    owner and the mode. *)
Record root_host := mkRootHost { mkdir_ok : bool; private : bool }.

Definition pas_project_temp_root (h : root_host) (f : fs) : option path * fs :=
  if exists_path TEMP_ROOT f || (mkdir_ok h && bool_decide (parent TEMP_ROOT ∈ fs_dirs f)) then
    let f := if exists_path TEMP_ROOT f then f else add_dir TEMP_ROOT f in
    if bool_decide (TEMP_ROOT ∈ fs_dirs f) && private h then (Some TEMP_ROOT, f) else (None, f)
  else (None, f).

(** What the host answers to the calls of [cleanup], which does not look at it. *)
Record clean_host := mkCleanHost { unlinks : path -> bool; rmdirs : bool }.

Definition cleanup (h : clean_host) (s : temps) : temps :=
  if negb (pid s =? owner s) then s
  else
    let f := foldl (fun f p => unlink (unlinks h p) p f) (disk s) (names s) in
    set_disk s (match workspace s with Some w => rmdir (rmdirs h) w f | None => f end).

(** [undo] answers the clean-up after [atexit] failed, [sig_ok] the three [sigaction]. *)
Record call_host := mkCallHost {
  mask_ok : bool; root_of : root_host; dir_letters : option string; atexit_ok : bool; undo : clean_host; sig_ok : signal -> bool; file_letters : option string
}.

(** The part that makes the workspace; the result says whether there is one. *)
Definition make_workspace (h : call_host) (s : temps) : bool * temps :=
  match workspace s with
  | Some _ => (true, s)
  | None =>
      let '(base, f) := pas_project_temp_root (root_of h) (disk s) in
      match base with
      | None => (false, set_disk s f)
      | Some base =>
          let '(w, f) := mkdtemp base "driver.XXXX" (dir_letters h) f in
          match w with
          | None => (false, set_disk s f)
          | Some _ =>
              let s := mkTemps w (names s) (pid s) (pid s) (at_exit s) (handlers s) f in
              if atexit_ok h
              then (true, mkTemps w (names s) (pid s) (pid s) true (fun g => handlers s g || sig_ok h g) (disk s))
              else
                let s := cleanup (undo h) s in
                (false, mkTemps None (names s) (owner s) (pid s) (at_exit s) (handlers s) (disk s))
          end
      end
  end.

(** Signals are blocked from the first to the last statement, so that the function is
    one step. *)
Definition pas_driver_temp_file (suffix : option string) (h : call_host) (s : temps) : option path * temps :=
  match suffix with
  | None => (None, s)
  | Some suffix =>
      if negb (bool_decide (suffix = ".ll" \/ suffix = ".o")) then (None, s)
      else if negb (mask_ok h) then (None, s)
      else
        let '(ok, s) := make_workspace h s in
        match workspace s with
        | Some w =>
            if negb ok then (None, s)
            else if (MAX_TEMP_FILES <=? length (names s))%nat then (None, s)
            else
              let '(p, f) := mkstemps w "artifact." suffix (file_letters h) (disk s) in
              match p with
              | None => (None, set_disk s f)
              | Some p => (Some p, mkTemps (workspace s) (names s ++ [p]) (owner s) (pid s) (at_exit s) (handlers s) f)
              end
        | None => (None, s)
        end
  end.

(** The host of [pas_project_tmpfile]; [unlink_ok] and [unlink_again]: whether the first
    [unlink], and after a failure the second, succeeds. *)
Record tmp_host := mkTmpHost {
  tmp_mask_ok : bool; tmp_root : root_host; tmp_dir : option string; tmp_data : option string; unlink_ok : bool; unlink_again : bool; rmdir_ok : bool; fdopen_ok : bool
}.

(** Whether a stream is returned. *)
Definition pas_project_tmpfile (h : tmp_host) (f : fs) : bool * fs :=
  if negb (tmp_mask_ok h) then (false, f)
  else
    let '(base, f) := pas_project_temp_root (tmp_root h) f in
    let '(fd, f) :=
      match base with
      | None => (false, f)
      | Some base =>
          let '(d, f) := mkdtemp base "file.XXXX" (tmp_dir h) f in
          match d with
          | None => (false, f)
          | Some d =>
              let '(p, f) := mkstemps d "data." EmptyString (tmp_data h) f in
              let '(fd, f) :=
                match p with
                | None => (false, f)
                | Some p => if unlink_ok h then (true, unlink true p f) else (false, unlink (unlink_again h) p f)
                end in
              (fd, rmdir (rmdir_ok h) d f)
          end
      end in
    (fd && fdopen_ok h, f).

(** * Runs *)

(** What another process does; each is a system call that can fail. *)
Inductive foreign := FCreate (p : path) | FMkdir (p : path) | FUnlink (p : path) | FRmdir (p : path).
Definition foreign_path (o : foreign) : path :=
  match o with FCreate p | FMkdir p | FUnlink p | FRmdir p => p end.
Definition do_foreign (o : foreign) (f : fs) : fs :=
  match o with
  | FCreate p => if place p f then add_file p f else f
  | FMkdir p => if place p f then add_dir p f else f
  | FUnlink p => unlink true p f
  | FRmdir p => rmdir true p f
  end.

(** A path of the driver: its workspace and what is below. *)
Definition ours (s : temps) (p : path) : Prop := exists w, workspace s = Some w /\ w `prefix_of` p.

Inductive event :=
  | ECall (suffix : option string) (h : call_host)
  | ETmpfile (h : tmp_host)
  | EForeign (o : foreign)
  | EChildEnds (child : Z).

(** The steps: calls of the driver; system calls of other processes, of any path, or when
    the workspace is [respected] of any path outside it; the end of a child, which runs
    [cleanup] on its copy of the globals. *)
Inductive step (respected : bool) : temps -> event -> temps -> Prop :=
  | step_call suffix h s : step respected s (ECall suffix h) (pas_driver_temp_file suffix h s).2
  | step_tmpfile h s : step respected s (ETmpfile h) (set_disk s (pas_project_tmpfile h (disk s)).2)
  | step_foreign o s : (respected = true -> ~ ours s (foreign_path o)) -> step respected s (EForeign o) (set_disk s (do_foreign o (disk s)))
  | step_child c h s : c <> pid s ->
      step respected s (EChildEnds c)
        (set_disk s (disk (cleanup h (mkTemps (workspace s) (names s) (owner s) c (at_exit s) (handlers s) (disk s))))).

Inductive steps (respected : bool) : temps -> temps -> Prop :=
  | steps_refl s : steps respected s s
  | steps_step s e s' s'' : steps respected s s' -> step respected s' e s'' -> steps respected s s''.

(** How the driver ends: by [exit], or by a signal; without a handler the signal ends it
    at once. *)
Inductive ending := Exits | Signalled (g : signal).
Definition cleans (how : ending) (s : temps) : bool := match how with Exits => at_exit s | Signalled g => handlers s g end.
Definition finish (how : ending) (h : clean_host) (s : temps) : temps := if cleans how s then cleanup h s else s.

(** * The invariant *)

(** Every path but the root has its directory. *)
Definition closed (f : fs) : Prop := forall p, p ∈ fs_files f \/ p ∈ fs_dirs f -> p <> [] -> parent p ∈ fs_dirs f.

(** Of the globals, whatever others do to the disk. *)
Definition temps_inv (s : temps) : Prop :=
  closed (disk s) /\
  match workspace s with
  | None => names s = []
  | Some w => owner s = pid s /\ at_exit s = true /\ (exists x, w = TEMP_ROOT ++ [x]) /\ (forall p, p ∈ names s -> parent p = w /\ p <> [])
  end.
(** Of the workspace, when others keep out: it holds the recorded files and nothing else. *)
Definition tidy (s : temps) : Prop :=
  match workspace s with
  | None => True
  | Some w => w ∈ fs_dirs (disk s) /\
      (forall p, p ∈ fs_files (disk s) -> w `prefix_of` p -> p ∈ names s) /\
      (forall p, p ∈ fs_dirs (disk s) -> w `prefix_of` p -> p = w)
  end.

Lemma parent_snoc d x : parent (d ++ [x]) = d.
Proof. apply removelast_last. Qed.

Lemma place_true p f : place p f = true -> (p ∉ fs_files f) /\ (p ∉ fs_dirs f) /\ parent p ∈ fs_dirs f.
Proof.
  unfold place, exists_path. intros [H1 H2%bool_decide_eq_true]%andb_true_iff.
  apply negb_true_iff, bool_decide_eq_false in H1. tauto.
Qed.

(** What lies below a path that does not exist does not exist. *)
Lemma closed_below f d x l : closed f -> (d ++ x :: l) ∈ fs_files f \/ (d ++ x :: l) ∈ fs_dirs f -> d ∈ fs_dirs f.
Proof.
  intros Hc. induction l as [|y l IH] using rev_ind; intros Hp.
  - rewrite <- (parent_snoc d x). apply Hc; [done |]. by destruct d.
  - apply IH. right. rewrite <- (parent_snoc (d ++ x :: l) y). rewrite <- app_assoc. apply Hc; [done |]. by destruct d.
Qed.

Lemma fresh_empty f w p : closed f -> w ∉ fs_files f -> w ∉ fs_dirs f -> p ∈ fs_files f \/ p ∈ fs_dirs f -> ~ w `prefix_of` p.
Proof.
  intros Hc Hf Hd Hp [[|x l] ->]; [rewrite app_nil_r in Hp; tauto |]. by apply Hd, (closed_below f w x l).
Qed.

Lemma closed_add_file p f : closed f -> place p f = true -> closed (add_file p f).
Proof.
  intros Hc (_ & _ & Hp)%place_true q Hq Hne. cbn in *. destruct (decide (q = p)) as [-> | ?]; [done |].
  apply Hc; [| done]. set_solver.
Qed.
Lemma closed_add_dir p f : closed f -> place p f = true -> closed (add_dir p f).
Proof.
  intros Hc (_ & _ & Hp)%place_true q Hq Hne. cbn in *. destruct (decide (q = p)) as [-> | ?]; [set_solver |].
  assert (parent q ∈ fs_dirs f) by (apply Hc; [set_solver | done]). set_solver.
Qed.
Lemma closed_unlink ok p f : closed f -> closed (unlink ok p f).
Proof. intros Hc. destruct ok; [| done]. intros q Hq Hne. cbn in *. apply Hc; [set_solver | done]. Qed.

Lemma empty_dir_spec d f : is_empty_dir d f = true <-> forall p, p ∈ fs_files f \/ p ∈ fs_dirs f -> p <> [] -> parent p <> d.
Proof.
  unfold is_empty_dir. rewrite andb_true_iff, !negb_true_iff, <- !not_true_iff_false, !existsb_exists. unfold entry_of. split.
  - intros [H1 H2] p [Hp | Hp] Hne E; [apply H1 | apply H2]; exists p; rewrite <- list_elem_of_In, elem_of_elements;
      (split; [done | by apply bool_decide_eq_true]).
  - intros H. split; intros (p & Hp%list_elem_of_In%elem_of_elements & [Hne E]%bool_decide_eq_true); apply (H p); auto.
Qed.

Lemma closed_rmdir ok d f : closed f -> closed (rmdir ok d f).
Proof.
  intros Hc. unfold rmdir. destruct ok; [| done]. destruct (is_empty_dir d f) eqn:E; [| done]. rewrite empty_dir_spec in E.
  intros q Hq Hne. cbn in *. assert (q ∈ fs_files f \/ q ∈ fs_dirs f) as Hq' by set_solver.
  pose proof (Hc q Hq' Hne). pose proof (E q Hq' Hne). set_solver.
Qed.
#[export] Hint Resolve closed_add_file closed_add_dir closed_unlink closed_rmdir : pas.

(** Undone creations. *)
Lemma unlink_add p f : p ∉ fs_files f -> unlink true p (add_file p f) = f.
Proof. intros Hp. destruct f as [fi di]. unfold unlink, add_file. cbn in *. f_equal. set_solver. Qed.

Lemma rmdir_add d f : closed f -> place d f = true -> rmdir true d (add_dir d f) = f.
Proof.
  intros Hc (Hf & Hd & Hp)%place_true. unfold rmdir.
  assert (is_empty_dir d (add_dir d f) = true) as ->.
  { apply empty_dir_spec. cbn. intros p Hq Hne E. destruct (decide (p = d)) as [-> | Hpd].
    - by rewrite E in Hp.
    - apply Hd. rewrite <- E. apply Hc; [set_solver | done]. }
  destruct f as [fi di]. cbn in *. f_equal. set_solver.
Qed.

(** The root is there afterwards, and nothing else changed. *)
Definition root_added (f f' : fs) : Prop := f' = f \/ (place TEMP_ROOT f = true /\ f' = add_dir TEMP_ROOT f).

Lemma temp_root_spec h f r f' : pas_project_temp_root h f = (r, f') ->
  root_added f f' /\ match r with Some b => b = TEMP_ROOT /\ TEMP_ROOT ∈ fs_dirs f' | None => True end.
Proof.
  unfold pas_project_temp_root, root_added, place. destruct (exists_path TEMP_ROOT f) eqn:Ee; cbn [orb negb andb].
  - destruct (bool_decide _ && private h) eqn:Ed; intros [= <- <-]; split; auto. apply andb_true_iff in Ed as [Ed%bool_decide_eq_true _]. done.
  - destruct (mkdir_ok h && _) eqn:Em; [| by intros [= <- <-]; auto]. apply andb_true_iff in Em as [_ Em].
    destruct (bool_decide _ && private h) eqn:Ed; intros [= <- <-]; split; auto. split; [done |]. cbn. set_solver.
Qed.

Lemma closed_root f f' : closed f -> root_added f f' -> closed f'.
Proof. intros Hc [-> | [Hp ->]]; auto with pas. Qed.

Lemma mkdtemp_spec base stem l f r f' : mkdtemp base stem l f = (r, f') ->
  match r with Some d => (exists x, d = base ++ [x]) /\ place d f = true /\ f' = add_dir d f | None => f' = f end.
Proof.
  unfold mkdtemp. destruct l as [l|]; [| by intros [= <- <-]]. destruct (place _ f) eqn:E; intros [= <- <-]; [| done].
  split; [by eexists | done].
Qed.
Lemma mkstemps_spec base stem suffix l f r f' : mkstemps base stem suffix l f = (r, f') ->
  match r with Some p => (exists x, p = base ++ [x]) /\ place p f = true /\ f' = add_file p f | None => f' = f end.
Proof.
  unfold mkstemps. destruct l as [l|]; [| by intros [= <- <-]]. destruct (place _ f) eqn:E; intros [= <- <-]; [| done].
  split; [by eexists | done].
Qed.

(** Nothing goes, and what comes is below the root. *)
Definition adds (f f' : fs) : Prop := forall p,
  (p ∈ fs_files f -> p ∈ fs_files f') /\ (p ∈ fs_dirs f -> p ∈ fs_dirs f') /\
  (p ∈ fs_files f' -> p ∈ fs_files f \/ TEMP_ROOT `prefix_of` p) /\ (p ∈ fs_dirs f' -> p ∈ fs_dirs f \/ TEMP_ROOT `prefix_of` p).

Lemma adds_refl f : adds f f.
Proof. intros p. tauto. Qed.
Lemma adds_trans f g h : adds f g -> adds g h -> adds f h.
Proof. intros H1 H2 p. specialize (H1 p). specialize (H2 p). tauto. Qed.
Lemma adds_dir p f : TEMP_ROOT `prefix_of` p -> adds f (add_dir p f).
Proof. intros Hp q. cbn. destruct (decide (q = p)) as [-> |]; set_solver. Qed.
Lemma adds_file p f : TEMP_ROOT `prefix_of` p -> adds f (add_file p f).
Proof. intros Hp q. cbn. destruct (decide (q = p)) as [-> |]; set_solver. Qed.
Lemma adds_root f f' : root_added f f' -> adds f f'.
Proof. intros [-> | [_ ->]]; [apply adds_refl | by apply adds_dir]. Qed.
Lemma adds_unlink ok p f f' : adds f f' -> p ∉ fs_files f -> adds f (unlink ok p f').
Proof. intros H Hp. destruct ok; [| done]. intros q. specialize (H q). cbn. set_solver. Qed.
Lemma adds_rmdir ok d f f' : adds f f' -> d ∉ fs_dirs f -> adds f (rmdir ok d f').
Proof. intros H Hp. unfold rmdir. destruct (ok && is_empty_dir d f'); [| done]. intros q. specialize (H q). cbn. set_solver. Qed.

Lemma below_root x : TEMP_ROOT `prefix_of` TEMP_ROOT ++ [x].
Proof. by exists [x]. Qed.

(** A file without a name leaves nothing, the root apart, when the calls that undo what
    was made succeed; otherwise what it leaves is new and below the root. *)
Lemma tmpfile_leaves h f : closed f -> adds f (pas_project_tmpfile h f).2 /\
  ((unlink_ok h || unlink_again h) && rmdir_ok h = true -> root_added f (pas_project_tmpfile h f).2).
Proof.
  intros Hc. unfold pas_project_tmpfile. destruct (tmp_mask_ok h); cbn [negb]; [| by split; [apply adds_refl | left]].
  destruct (pas_project_temp_root (tmp_root h) f) as [base f1] eqn:Er. apply temp_root_spec in Er as [Hr Hb].
  pose proof (adds_root _ _ Hr) as Hadd. destruct base as [b|]; [| done]. destruct Hb as [-> Hroot]. pose proof (closed_root _ _ Hc Hr) as Hc1.
  destruct (mkdtemp _ _ _ f1) as [d f2] eqn:Ed. apply mkdtemp_spec in Ed. destruct d as [d|]; [| by subst f2].
  destruct Ed as ([x ->] & Hd & ->). destruct (mkstemps _ _ _ _ _) as [p f3] eqn:Ep. apply mkstemps_spec in Ep.
  pose proof (place_true _ _ Hd) as (_ & Hdn & _). pose proof (adds_dir _ f1 (below_root x)) as Ha1.
  destruct p as [p|].
  - destruct Ep as ([y ->] & Hp & ->). apply place_true in Hp as (Hpf & _ & _).
    assert (TEMP_ROOT `prefix_of` (TEMP_ROOT ++ [x]) ++ [y]) as Hpre by (rewrite <- app_assoc; by exists [x; y]).
    pose proof (adds_file _ (add_dir (TEMP_ROOT ++ [x]) f1) Hpre) as Ha2. split.
    + eapply adds_trans; [exact Hadd |]. destruct (unlink_ok h); cbn [snd]; (apply adds_rmdir; [| done]; apply adds_unlink; [by eapply adds_trans | done]).
    + intros Hu. destruct (unlink_ok h), (unlink_again h), (rmdir_ok h); try done; cbn [fst snd]; by rewrite unlink_add, rmdir_add.
  - subst f3. cbn [snd]. split; [eapply adds_trans; [exact Hadd |]; by apply adds_rmdir |].
    intros [_ ->]%andb_true_iff. by rewrite rmdir_add.
Qed.

(** ** Preservation *)

Lemma prefix_snoc (w d : path) x : w `prefix_of` (d ++ [x]) -> w = d ++ [x] \/ w `prefix_of` d.
Proof.
  intros [l E]. destruct l as [|y l] using rev_ind; [left; by rewrite app_nil_r in E |]. right.
  rewrite app_assoc in E. apply app_inj_tail in E as [-> _]. by exists l.
Qed.

Lemma snoc_ne (d : path) x : d ++ [x] <> [].
Proof. by destruct d. Qed.

Lemma inv_set_disk s f : temps_inv s -> closed f -> temps_inv (set_disk s f).
Proof. intros [_ Hw] Hcf. by split. Qed.

Lemma tidy_set_disk s f : tidy s ->
  (forall w, workspace s = Some w -> w ∈ fs_dirs f /\
     (forall p, p ∈ fs_files f -> w `prefix_of` p -> p ∈ fs_files (disk s)) /\
     (forall p, p ∈ fs_dirs f -> w `prefix_of` p -> p ∈ fs_dirs (disk s))) ->
  tidy (set_disk s f).
Proof.
  intros Ht H. unfold tidy in *. cbn [workspace set_disk names disk]. destruct (workspace s) as [w|]; [| done].
  destruct (H w eq_refl) as (Hd & Hf & Hds). destruct Ht as (_ & Hfi & Hdi). split; [done |]. split; intros p Hp Hpre; eauto.
Qed.

(** New paths are not in a workspace that is there, unless they are put there. *)
Definition spares (w : path) (f f' : fs) : Prop :=
  (w ∈ fs_dirs f -> w ∈ fs_dirs f') /\
  (forall p, p ∈ fs_files f' -> w `prefix_of` p -> p ∈ fs_files f) /\ (forall p, p ∈ fs_dirs f' -> w `prefix_of` p -> p ∈ fs_dirs f).

Lemma spares_refl w f : spares w f f.
Proof. done. Qed.
Lemma spares_trans w f g h : spares w f g -> spares w g h -> spares w f h.
Proof. intros (H1 & H2 & H3) (H4 & H5 & H6). split; [auto |]. split; eauto. Qed.
Lemma spares_dir w p f : ~ w `prefix_of` p -> spares w f (add_dir p f).
Proof. intros Hp. split; [cbn; set_solver |]. split; [done |]. intros q Hq Hw. cbn in Hq. assert (q <> p) by (by intros ->). set_solver. Qed.
Lemma spares_file w p f : ~ w `prefix_of` p -> spares w f (add_file p f).
Proof. intros Hp. split; [done |]. split; [| done]. intros q Hq Hw. cbn in Hq. assert (q <> p) by (by intros ->). set_solver. Qed.
Lemma spares_unlink w ok p f : spares w f (unlink ok p f).
Proof. destruct ok; [| done]. split; [done |]. split; [cbn; set_solver | done]. Qed.
Lemma spares_rmdir w ok d f : w <> d -> spares w f (rmdir ok d f).
Proof. intros Hn. unfold rmdir. destruct (ok && is_empty_dir d f); [| done]. split; [cbn; set_solver |]. split; [done |]. cbn. set_solver. Qed.
Lemma tidy_spares s f : tidy s -> (forall w, workspace s = Some w -> spares w (disk s) f) -> tidy (set_disk s f).
Proof.
  intros Ht H. apply tidy_set_disk; [done |]. intros w Ew. destruct (H w Ew) as (H1 & H2 & H3). unfold tidy in Ht. rewrite Ew in Ht. tauto.
Qed.

Lemma prefix_same_length (w p : path) : w `prefix_of` p -> length w = length p -> w = p.
Proof. intros [l ->] E. rewrite length_app in E. destruct l; [by rewrite app_nil_r | cbn in E; lia]. Qed.

(** The root and other directories in it are outside a workspace. *)
Lemma spares_root x f f' : root_added f f' -> spares (TEMP_ROOT ++ [x]) f f'.
Proof. intros [-> | [_ ->]]; [done |]. apply spares_dir. intros [l E]. by destruct l. Qed.

Lemma spares_tmpfile h f w x : closed f -> w = TEMP_ROOT ++ [x] -> w ∈ fs_dirs f -> spares w f (pas_project_tmpfile h f).2.
Proof.
  intros Hc -> Hw. unfold pas_project_tmpfile. destruct (tmp_mask_ok h); cbn [negb]; [| done].
  destruct (pas_project_temp_root (tmp_root h) f) as [base f1] eqn:Er. apply temp_root_spec in Er as [Hr Hb].
  pose proof (spares_root x _ _ Hr) as Hs1. assert (TEMP_ROOT ++ [x] ∈ fs_dirs f1) as Hw1 by (by apply Hs1).
  destruct base as [b|]; [| done]. destruct Hb as [-> Hroot]. pose proof (closed_root _ _ Hc Hr) as Hc1.
  destruct (mkdtemp _ _ _ f1) as [d f2] eqn:Ed. apply mkdtemp_spec in Ed. destruct d as [d|]; [| by subst f2].
  destruct Ed as ([y ->] & Hd & ->). apply place_true in Hd as (_ & Hdn & _).
  assert (TEMP_ROOT ++ [x] <> TEMP_ROOT ++ [y]) as Hxy by (by intros E; rewrite <- E in Hdn).
  assert (forall l, ~ (TEMP_ROOT ++ [x]) `prefix_of` (TEMP_ROOT ++ [y]) ++ l) as Hno.
  { intros l [l' E]. rewrite <- !app_assoc in E. apply app_inv_head in E. cbn in E. injection E as ->. done. }
  assert (spares (TEMP_ROOT ++ [x]) f1 (add_dir (TEMP_ROOT ++ [y]) f1)) as Hs2 by (apply spares_dir; specialize (Hno []); by rewrite app_nil_r in Hno).
  destruct (mkstemps _ _ _ _ _) as [p f3] eqn:Ep. apply mkstemps_spec in Ep. destruct p as [p|].
  - destruct Ep as ([z ->] & _ & ->). eapply spares_trans; [exact Hs1 |]. eapply spares_trans; [exact Hs2 |].
    destruct (unlink_ok h); cbn [snd]; (eapply spares_trans; [| by apply spares_rmdir]; eapply spares_trans; [apply spares_file, Hno | apply spares_unlink]).
  - subst f3. cbn [snd]. eapply spares_trans; [exact Hs1 |]. eapply spares_trans; [exact Hs2 |]. by apply spares_rmdir.
Qed.

Lemma tmpfile_tidy h s : temps_inv s -> tidy s -> tidy (set_disk s (pas_project_tmpfile h (disk s)).2).
Proof.
  intros [Hc Hs] Ht. apply tidy_spares; [done |]. intros w Ew. unfold tidy in Ht. rewrite Ew in Hs, Ht. destruct Hs as (_ & _ & [x Hx] & _).
  apply (spares_tmpfile h _ w x); tauto.
Qed.

Lemma closed_tmpfile h f : closed f -> closed (pas_project_tmpfile h f).2.
Proof.
  intros Hc. unfold pas_project_tmpfile. destruct (tmp_mask_ok h); cbn [negb]; [| done].
  destruct (pas_project_temp_root (tmp_root h) f) as [base f1] eqn:Er. apply temp_root_spec in Er as [Hr Hb].
  pose proof (closed_root _ _ Hc Hr) as Hc1. destruct base as [b|]; [| done].
  destruct (mkdtemp _ _ _ f1) as [d f2] eqn:Ed. apply mkdtemp_spec in Ed. destruct d as [d|]; [| by subst f2].
  destruct Ed as (_ & Hd & ->). destruct (mkstemps _ _ _ _ _) as [p f3] eqn:Ep. apply mkstemps_spec in Ep. destruct p as [p|].
  - destruct Ep as (_ & Hp & ->). destruct (unlink_ok h); cbn [snd]; auto with pas.
  - subst f3. cbn [snd]. auto with pas.
Qed.

(** [make_workspace] from a state without one: the disk is the old one, with the root
    and perhaps the workspace; when its clean-up could not be registered, the directory
    that was made, unless its removal succeeds. *)
Definition workspace_made (h : call_host) (s s' : temps) : Prop :=
  exists f, root_added (disk s) f /\
  match workspace s' with
  | Some w => (exists x, w = TEMP_ROOT ++ [x]) /\ place w f = true /\ disk s' = add_dir w f
  | None => disk s' = f \/ (atexit_ok h = false /\ exists x, place (TEMP_ROOT ++ [x]) f = true /\
              disk s' = rmdir (rmdirs (undo h)) (TEMP_ROOT ++ [x]) (add_dir (TEMP_ROOT ++ [x]) f))
  end.

Lemma make_workspace_spec h s : temps_inv s ->
  let '(ok, s') := make_workspace h s in
  temps_inv s' /\ (ok = true -> is_Some (workspace s')) /\ names s' = names s /\
  match workspace s with Some _ => s' = s | None => workspace_made h s s' end.
Proof.
  intros Hs. unfold make_workspace. destruct (workspace s) as [w0|] eqn:Ew; [by rewrite Ew |].
  destruct (pas_project_temp_root _ _) as [base f] eqn:Er. apply temp_root_spec in Er as [Hr Hb].
  pose proof (closed_root _ _ (proj1 Hs) Hr) as Hc. pose proof (proj2 Hs) as Hn. rewrite Ew in Hn.
  assert (forall f', f' = f -> temps_inv (set_disk s f') /\ (false = true -> is_Some (workspace (set_disk s f'))) /\
    names (set_disk s f') = names s /\ workspace_made h s (set_disk s f')) as Hfail.
  { intros f' ->. split; [by apply inv_set_disk |]. split; [done |]. split; [done |]. exists f. split; [done |]. cbn. rewrite Ew. by left. }
  destruct base as [b|]; [| by apply Hfail]. destruct Hb as [-> _].
  destruct (mkdtemp _ _ _ f) as [w f1] eqn:Ed. apply mkdtemp_spec in Ed. destruct w as [w|]; [| by apply Hfail].
  destruct Ed as ([x ->] & Hp & ->). destruct (atexit_ok h) eqn:Ea.
  - split; [split; [by apply closed_add_dir |]; cbn; rewrite Hn; do 2 (split; [done |]); split; [by exists x |]; intros p Hp'; by apply not_elem_of_nil in Hp' |].
    split; [by eexists |]. split; [done |]. exists f. split; [done |]. cbn. split; [by exists x | done].
  - unfold cleanup. cbn [pid owner names workspace disk set_disk]. rewrite Z.eqb_refl. cbn [negb]. rewrite Hn. cbn [foldl set_disk names owner pid at_exit handlers disk].
    split; [split; [apply closed_rmdir; by apply closed_add_dir | done] |]. split; [done |]. split; [done |]. exists f. split; [done |]. cbn. right. split; [done |]. by exists x.
Qed.

Lemma workspace_adds h s s' : workspace_made h s s' -> adds (disk s) (disk s').
Proof.
  intros (f & Hr & Hw). pose proof (adds_root _ _ Hr) as Ha. destruct (workspace s') as [w |].
  - destruct Hw as ([x ->] & Hp & ->). eapply adds_trans; [exact Ha | apply adds_dir, below_root].
  - destruct Hw as [-> | (_ & x & Hp & ->)]; [done |]. eapply adds_trans; [exact Ha |]. apply place_true in Hp as (_ & Hd & _).
    apply adds_rmdir; [apply adds_dir, below_root | done].
Qed.

Lemma workspace_tidy h s s' : temps_inv s -> workspace_made h s s' -> tidy s'.
Proof.
  intros [Hc _] (f & Hr & Hw). unfold tidy. destruct (workspace s') as [w |]; [| done]. destruct Hw as ([x ->] & Hp & ->).
  pose proof (closed_root _ _ Hc Hr) as Hcf. apply place_true in Hp as (Hf & Hd & _). cbn. split; [set_solver |]. split.
  - intros p Hp Hpre. exfalso. apply (fresh_empty f (TEMP_ROOT ++ [x]) p); auto.
  - intros p Hp Hpre. destruct (decide (p = TEMP_ROOT ++ [x])) as [| Hne]; [done |]. exfalso. apply (fresh_empty f (TEMP_ROOT ++ [x]) p); auto. right. set_solver.
Qed.

(** Nothing outside the workspace and the root changes. *)
Definition frame (s s' : temps) : Prop := forall p, p <> TEMP_ROOT -> ~ ours s' p ->
  (p ∈ fs_files (disk s') <-> p ∈ fs_files (disk s)) /\ (p ∈ fs_dirs (disk s') <-> p ∈ fs_dirs (disk s)).

Lemma root_frame f f' p : root_added f f' -> p <> TEMP_ROOT ->
  (p ∈ fs_files f' <-> p ∈ fs_files f) /\ (p ∈ fs_dirs f' <-> p ∈ fs_dirs f).
Proof. intros [-> | [_ ->]] Hp; [done |]. cbn. set_solver. Qed.

Lemma workspace_frame h s s' : temps_inv s -> workspace_made h s s' -> atexit_ok h || rmdirs (undo h) = true -> frame s s'.
Proof.
  intros [Hc _] (f & Hr & Hw) Hu p Hp Ho. rewrite <- !(proj1 (root_frame _ _ _ Hr Hp)), <- !(proj2 (root_frame _ _ _ Hr Hp)).
  destruct (workspace s') as [w |] eqn:Ew.
  - destruct Hw as (_ & _ & ->). cbn. assert (p <> w) by (intros ->; apply Ho; by exists w). set_solver.
  - destruct Hw as [-> | (Ea & x & Hpl & ->)]; [done |]. rewrite Ea in Hu. cbn in Hu. rewrite Hu, rmdir_add; [done | by eapply closed_root | done].
Qed.

(** ** The steps *)

Definition undone (e : event) : bool :=
  match e with
  | ECall _ h => atexit_ok h || rmdirs (undo h)
  | ETmpfile h => (unlink_ok h || unlink_again h) && rmdir_ok h
  | _ => true
  end.

Lemma call_spec suffix h s : temps_inv s ->
  let s' := (pas_driver_temp_file suffix h s).2 in
  temps_inv s' /\ (tidy s -> tidy s') /\ adds (disk s) (disk s') /\ (atexit_ok h || rmdirs (undo h) = true -> frame s s').
Proof.
  intros Hs. cbv zeta. unfold pas_driver_temp_file.
  assert (temps_inv s /\ (tidy s -> tidy s) /\ adds (disk s) (disk s) /\ (atexit_ok h || rmdirs (undo h) = true -> frame s s)) as Hsame by (split; [done |]; split; [done |]; split; [apply adds_refl | done]).
  destruct suffix as [suffix|]; [| exact Hsame]. destruct (negb (bool_decide _)); [exact Hsame |]. destruct (negb (mask_ok h)); [exact Hsame |]. clear Hsame.
  pose proof (make_workspace_spec h s Hs) as H. destruct (make_workspace h s) as [ok s1]. destruct H as (Hs1 & _ & Hn1 & Hm).
  assert ((tidy s -> tidy s1) /\ adds (disk s) (disk s1) /\ (atexit_ok h || rmdirs (undo h) = true -> frame s s1)) as (Ht & Ha & Hf).
  { destruct (workspace s) as [w0 |] eqn:Ew; [subst s1; split; [done |]; split; [apply adds_refl | done] |].
    split; [intros _; exact (workspace_tidy h s s1 Hs Hm) |]. split; [exact (workspace_adds h s s1 Hm) | by apply workspace_frame]. }
  assert (temps_inv s1 /\ (tidy s -> tidy s1) /\ adds (disk s) (disk s1) /\ (atexit_ok h || rmdirs (undo h) = true -> frame s s1)) as Hsame by done.
  destruct (workspace s1) as [w|] eqn:Ew; [| exact Hsame]. destruct (negb ok); [exact Hsame |]. destruct (_ <=? _)%nat; [exact Hsame |].
  destruct (mkstemps _ _ _ _ _) as [p f] eqn:Ep. apply mkstemps_spec in Ep. destruct p as [p|]; cbn [snd].
  2:{ subst f. assert (set_disk s1 (disk s1) = s1) as -> by (by destruct s1). done. }
  destruct Ep as ([x ->] & Hp & ->). destruct Hs1 as [Hc Hw]. rewrite Ew in Hw. destruct Hw as (Hown & Hae & [y ->] & Hn). split; [| split; [| split]].
  - split; [by apply closed_add_file |]. cbn [workspace names owner pid at_exit]. do 2 (split; [done |]). split; [by exists y |].
    intros q [Hq | ->%list_elem_of_singleton]%elem_of_app; [by apply Hn |]. split; [apply parent_snoc | apply snoc_ne].
  - intros Ht0. specialize (Ht Ht0). unfold tidy in *. rewrite Ew in Ht. destruct Ht as (Hd & Hfi & Hdi). cbn [workspace names disk]. split; [done |]. split; [| done].
    intros q Hq Hpre. apply elem_of_app. destruct (decide (q = (TEMP_ROOT ++ [y]) ++ [x])) as [-> | Hne]; [right; by apply list_elem_of_singleton |].
    left. apply Hfi; [set_solver | done].
  - eapply adds_trans; [exact Ha |]. apply adds_file. rewrite <- app_assoc. by exists [y; x].
  - intros Hu q Hq Ho. cbn in Ho |- *.
    assert (~ ours s1 q) as Ho1 by (intros (w' & E & Hp'); apply Ho; exists w'; by rewrite Ew in E).
    rewrite <- (proj1 (Hf Hu q Hq Ho1)), <- (proj2 (Hf Hu q Hq Ho1)).
    assert (q <> (TEMP_ROOT ++ [y]) ++ [x]); [| set_solver]. intros ->. apply Ho. exists (TEMP_ROOT ++ [y]). split; [done |]. by exists [x].
Qed.

Lemma foreign_closed o f : closed f -> closed (do_foreign o f).
Proof. intros Hc. destruct o as [p|p|p|p]; cbn [do_foreign]; try (destruct (place p f) eqn:E); auto with pas. Qed.

Lemma foreign_tidy o s : tidy s -> ~ ours s (foreign_path o) -> tidy (set_disk s (do_foreign o (disk s))).
Proof.
  intros Ht Ho. apply tidy_spares; [done |]. intros w Ew. assert (~ w `prefix_of` foreign_path o) as Hn by (intros Hp; apply Ho; by exists w).
  destruct o as [p|p|p|p]; cbn [do_foreign foreign_path] in *; try (destruct (place p _); [| done]).
  - by apply spares_file.
  - by apply spares_dir.
  - apply (spares_unlink _ true).
  - apply spares_rmdir. intros ->. apply Hn. by exists []; rewrite app_nil_r.
Qed.

Lemma child_inv c h s : temps_inv s -> c <> pid s ->
  set_disk s (disk (cleanup h (mkTemps (workspace s) (names s) (owner s) c (at_exit s) (handlers s) (disk s)))) = s.
Proof.
  intros [_ Hs] Hc. unfold cleanup. cbn [pid owner]. destruct (workspace s) as [w|] eqn:Ew.
  - destruct Hs as (-> & _). destruct (Z.eqb_spec c (pid s)); [done |]. by destruct s.
  - rewrite Hs. destruct (c =? owner s); cbn; by destruct s.
Qed.

Lemma step_inv r s e s' : temps_inv s -> step r s e s' -> temps_inv s' /\ (r = true -> tidy s -> tidy s').
Proof.
  intros Hs Hst. inversion Hst; subst.
  - destruct (call_spec suffix0 h s Hs) as (H1 & H2 & _). auto.
  - split; [apply inv_set_disk; [done | by apply closed_tmpfile, Hs] |]. intros _ Ht. by apply tmpfile_tidy.
  - split; [apply inv_set_disk; [done | by apply foreign_closed, Hs] |]. intros Hr Ht. apply foreign_tidy; auto.
  - by rewrite child_inv.
Qed.

Lemma steps_inv r s s' : temps_inv s -> tidy s -> steps r s s' -> temps_inv s' /\ (r = true -> tidy s').
Proof.
  intros Hs Ht. induction 1 as [| s e s1 s2 _ IH Hst]; [done |]. destruct (IH Hs Ht) as [H1 H2]. destruct (step_inv _ _ _ _ H1 Hst) as [H3 H4]. auto.
Qed.

(** ** What the driver leaves *)

Lemma unlink_some h ps : forall f, foldl (fun f p => unlink (unlinks h p) p f) f ps = mkFs (fs_files f ∖ list_to_set (List.filter (unlinks h) ps)) (fs_dirs f).
Proof.
  induction ps as [|p ps IH]; intros f; cbn [foldl List.filter].
  - destruct f as [fi di]. cbn. f_equal. set_solver.
  - rewrite IH. destruct (unlinks h p); [| done]. cbn. f_equal. set_solver.
Qed.

(** Only recorded files and the workspace go. *)
Lemma finish_safe how h s : temps_inv s -> forall p,
  (p ∈ fs_files (disk (finish how h s)) -> p ∈ fs_files (disk s)) /\ (p ∈ fs_dirs (disk (finish how h s)) -> p ∈ fs_dirs (disk s)) /\
  (p ∈ fs_files (disk s) -> p ∉ fs_files (disk (finish how h s)) -> p ∈ names s) /\
  (p ∈ fs_dirs (disk s) -> p ∉ fs_dirs (disk (finish how h s)) -> workspace s = Some p).
Proof.
  intros Hs p. unfold finish. destruct (cleans how s); [| tauto]. unfold cleanup. destruct (negb _); [tauto |]. rewrite unlink_some.
  set (g := mkFs _ _). assert (forall q, (q ∈ fs_files g <-> q ∈ fs_files (disk s) /\ ~ (q ∈ names s /\ unlinks h q = true)) /\ fs_dirs g = fs_dirs (disk s)) as Hg.
  { intros q. cbn. split; [| done]. rewrite elem_of_difference, elem_of_list_to_set, list_elem_of_In, List.filter_In, <- list_elem_of_In. tauto. }
  destruct (Hg p) as [Hgf Hgd]. cbn [set_disk disk]. destruct (workspace s) as [w |].
  - unfold rmdir. destruct (rmdirs h && is_empty_dir w g); cbn [fs_files fs_dirs].
    + rewrite Hgf, Hgd, elem_of_difference, elem_of_singleton. destruct (decide (p ∈ names s)), (decide (p = w)) as [-> |]; tauto.
    + rewrite Hgf, Hgd. destruct (decide (p ∈ names s)); tauto.
  - rewrite Hgf, Hgd. destruct (decide (p ∈ names s)); tauto.
Qed.

(** Everything goes when the calls succeed and the workspace is tidy. *)
Lemma finish_complete how h s : temps_inv s -> tidy s -> cleans how s = true -> (forall p, p ∈ names s -> unlinks h p = true) -> rmdirs h = true ->
  forall p, ours s p -> p ∉ fs_files (disk (finish how h s)) /\ p ∉ fs_dirs (disk (finish how h s)).
Proof.
  intros [Hc Hs] Ht Hcl Hu Hrm p (w & Ew & Hp). unfold finish. rewrite Hcl. unfold cleanup. unfold tidy in Ht. rewrite Ew in *.
  destruct Hs as (-> & _ & [x Hx] & Hn). destruct Ht as (Hd & Hf & Hds). rewrite Z.eqb_refl. cbn [negb]. rewrite unlink_some. unfold rmdir. rewrite Hrm.
  assert (list_to_set (List.filter (unlinks h) (names s)) =@{gset path} list_to_set (names s)) as ->.
  { f_equal. clear -Hu. induction (names s) as [| a l IH]; [done |]. cbn. rewrite (Hu a) by set_solver. f_equal. apply IH. intros q Hq. apply Hu. set_solver. }
  match goal with |- context [is_empty_dir w ?g] => assert (is_empty_dir w g = true) as -> end.
  { apply empty_dir_spec. cbn. intros q Hq Hne E.
    assert (w `prefix_of` q) as Hpre by (exists [List.last q EmptyString]; rewrite <- E; unfold parent; by apply app_removelast_last).
    destruct Hq as [Hq | Hq].
    - apply elem_of_difference in Hq as [Hq Hq']. apply Hq'. apply elem_of_list_to_set. by apply Hf.
    - pose proof (Hds q Hq Hpre) as ->. rewrite Hx, parent_snoc in E. apply (f_equal length) in E. rewrite length_app in E. cbn in E. lia. }
  cbn [andb disk set_disk fs_files fs_dirs]. rewrite !elem_of_difference, elem_of_list_to_set, elem_of_singleton.
  split; intros [Hin Hno]; apply Hno; auto.
Qed.


