(* ===== verification/CmdLine.v ===== *)
(** cmdline.c of runtime/: the parameters of a program heading. A parameter that the
    command line gives is read by the readers of standard input, which is redirected to
    the token for the time of the read; a parameter that it does not give is prompted
    for and read from the keyboard. Reading parameters from the command line gives
    their exact values and leaves every stream as it was. *)

From Stdlib Require Import ZArith Ascii String Lia.
From stdpp Require Import base list strings gmap numbers.
From S2P Require Import Prelude Files Readers ReaderProps FileProps StdInput.
#[local] Open Scope Z_scope.

(** * The state *)

(** The globals of the file; [g_argv] is [None] before [pas_args_init] and NULL after the
    entries of the list, [g_buf] the file
    that stands for the buffer. A stream is named by its number, and number 0 is the
    stream [stdin] points to. *)
Record cmdline := mkCmd {
  g_argc : Z; g_argv : option (list (option (list Z)));
  g_saved_stdin : option nat; g_mem : option nat; g_buf : option nat
}.
Abbreviation state := (cmdline * world)%type.

Definition pas_args_init (argc : Z) (argv : option (list (option (list Z)))) (c : cmdline) : cmdline :=
  mkCmd argc argv (g_saved_stdin c) (g_mem c) (g_buf c).
Definition pas_arg_count (c : cmdline) : Z := g_argc c.
Definition pas_arg_value (c : cmdline) (index : Z) : option (list Z) :=
  if (index <? 0) || (g_argc c <=? index) then None
  else match g_argv c with Some av => match av !! Z.to_nat index with Some a => a | None => None end | None => None end.

(** Code that only touches the streams. *)
Definition in_world {A} (m : ST world A) : ST state A := fun s =>
  match m s.2 with Ok (a, w) => Ok (a, (s.1, w)) | Err e => Err e end.
Definition on_cmd (f : cmdline -> cmdline) : ST state unit := modify (fun s => (f s.1, s.2)).

Definition set_saved (n : option nat) (c : cmdline) : cmdline := mkCmd (g_argc c) (g_argv c) n (g_mem c) (g_buf c).
Definition set_mem (n : option nat) (c : cmdline) : cmdline := mkCmd (g_argc c) (g_argv c) (g_saved_stdin c) n (g_buf c).
Definition set_buf (n : option nat) (c : cmdline) : cmdline := mkCmd (g_argc c) (g_argv c) (g_saved_stdin c) (g_mem c) n.

(** ** The stream [stdin] points to *)

(** The number of a stream when [stdin] points to the one that had number [n]. *)
Definition renumber (n k : nat) : nat := if Nat.eqb k stdin then n else if Nat.eqb k n then stdin else k.
Definition swap_streams (n : nat) (m : gmap nat stream) : gmap nat stream :=
  partial_alter (fun _ => m !! n) stdin (partial_alter (fun _ => m !! stdin) n m).

(** [stdin = n]: the streams themselves do not change, only their numbers, here and
    wherever one is held. *)
Definition point_stdin (n : nat) : ST state unit := fun s =>
  let '(c, w) := s in
  Ok (tt,
      (mkCmd (g_argc c) (g_argv c) (renumber n <$> g_saved_stdin c) (renumber n <$> g_mem c) (g_buf c),
       mkWorld (inodes w) (dir w) (swap_streams n (streams w))
               ((fun fc => set_handle (renumber n <$> handle fc) fc) <$> fcbs w) (std_input_fcb w) (fresh_id w))).

(** [malloc] of a buffer that holds [bs]; [free] of it. *)
Definition new_buffer (bs : list Z) : ST state nat := fun s =>
  let '(c, w) := s in
  Ok (fresh_id w, (c, mkWorld (<[fresh_id w := bs]> (inodes w)) (dir w) (streams w) (fcbs w) (std_input_fcb w) (S (fresh_id w)))).
Definition free_buffer (i : nat) : ST state unit := fun s =>
  let '(c, w) := s in
  Ok (tt, (c, mkWorld (delete i (inodes w)) (dir w) (streams w) (fcbs w) (std_input_fcb w) (fresh_id w))).

Section Code.
Context (H : host).

(** Whether [malloc] and [fmemopen] succeed. *)
Context (malloc_ok fmemopen_ok : bool).

Definition prompt (name : option (list Z)) : ST world unit :=
  do* match name with
      | Some (c :: n) => do* fwrite H (c :: n) stdout in do* fwrite H [58; 32] stdout in ret tt
      | _ => ret tt
      end in
  do* fflush H stdout in ret tt.

(** The token of a parameter. *)
Definition param_token (c : cmdline) (param_index : Z) : option (list Z) :=
  let slot := param_index + 1 in
  match g_argv c with
  | Some av => if slot <? g_argc c then match av !! Z.to_nat slot with Some a => a | None => None end else None
  | None => None
  end.

Definition pas_arg_begin (param_index : Z) (name : option (list Z)) : ST state bool :=
  let* s := get in
  let keyboard : ST state bool := do* in_world (prompt name) in ret false in
  match param_token s.1 param_index with
  | None => keyboard
  | Some tok =>
      if malloc_ok then
        let* buf := new_buffer (tok ++ [LF]) in
        do* on_cmd (set_buf (Some buf)) in
        if fmemopen_ok then
          let* m := in_world (open_on buf) in
          do* on_cmd (set_mem (Some m)) in
          do* on_cmd (set_saved (Some stdin)) in
          do* point_stdin m in
          ret true
        else
          do* free_buffer buf in
          do* on_cmd (set_buf None) in
          keyboard
      else keyboard
  end.

Definition pas_arg_end : ST state unit :=
  let* s := get in
  do* match g_saved_stdin s.1 with
      | Some n => do* point_stdin n in on_cmd (set_saved None)
      | None => ret tt
      end in
  let* s := get in
  do* match g_mem s.1 with
      | Some m => do* in_world (fclose m) in on_cmd (set_mem None)
      | None => ret tt
      end in
  let* s := get in
  match g_buf s.1 with
  | Some b => do* free_buffer b in on_cmd (set_buf None)
  | None => ret tt
  end.

(** What a program does for a parameter of an integer type, and for the list of them. *)
Definition read_parameter (i : Z) (name : option (list Z)) (bits : Z) : ST state Z :=
  let* _ := pas_arg_begin i name in
  let* v := in_world (std_int H bits) in
  do* pas_arg_end in
  ret v.
Fixpoint read_parameters (i : Z) (ps : list (Z * option (list Z))) : ST state (list Z) :=
  match ps with
  | [] => ret []
  | (bits, name) :: ps' =>
      let* v := read_parameter i name bits in
      let* vs := read_parameters (i + 1) ps' in
      ret (v :: vs)
  end.

End Code.

(** ** The root of the toolchain *)

Definition SLASH : Z := 47.
Definition PATH_MAX : nat := 4096.
Definition BIN : list Z := map code (chars "/bin").

(** The text before the last slash. *)
Definition before_slash (p : list Z) : option (list Z) :=
  match after (fun c => negb (c =? SLASH)) (reverse p) with [] => None | _ :: r => Some (reverse r) end.
Definition strip_bin (p : list Z) : list Z :=
  if (4 <=? length p)%nat && bool_decide (drop (length p - 4) p = BIN) then take (length p - 4) p else p.

(** [exe] is the link /proc/self/exe, [cwd] the result of [getcwd]. *)
Definition pas_toolchain_root (c : cmdline) (exe cwd : option (list Z)) : list Z :=
  let from path :=
    match before_slash path with
    | None => [46]
    | Some p => match strip_bin p with [] => [SLASH] | q => q end
    end in
  match take (PATH_MAX - 1) (default [] exe) with
  | [] =>
      match pas_arg_value c 0 with
      | Some a => if existsb (Z.eqb SLASH) a then from (take (PATH_MAX - 1) a) else default [46] cwd
      | None => default [46] cwd
      end
  | path => from path
  end.

(** * Reading from the command line *)

Section Proofs.
Context (H : host).
Hypothesis Hread : forall i p, read_ok H i p = true.
Hypothesis Hpush : (0 < pushback H)%nat.

(** ** Nothing but the redirected stream changes *)

(** The world is [w0] but for what was read of [stdin]; [r] is left. *)
Definition only_stdin (w0 w : world) (r : list Z) : Prop :=
  exists s, w = put_stream stdin s w0 /\ Forall byte (avail w0 s) /\ (length (s_back s) <= pushback H)%nat /\ r = avail w0 s.
Definition only_room (w0 w : world) (r : list Z) : Prop :=
  exists s, w = put_stream stdin s w0 /\ Forall byte (avail w0 s) /\ (length (s_back s) < pushback H)%nat /\ r = avail w0 s.

Lemma only_is_source w0 : quiet w0 -> CharSource (std_source H) (only_stdin w0) (only_room w0).
Proof using Hread Hpush.
  intros Hq. split.
  - intros w r (s & -> & Hb & Hl & ->). cbn [next std_source]. unfold std_getchar.
    rewrite (bind_ok _ _ _ tt (put_stream stdin s w0)) by (by apply quiet_sync).
    destruct (fgetc_spec H Hread (put_stream stdin s w0) stdin s (lookup_insert_eq _ _ _)) as (s' & Hi & Hl' & Hg).
    change (avail (put_stream stdin s w0)) with (avail w0) in Hg. rewrite put_stream_twice in Hg.
    destruct (avail w0 s) as [|c l] eqn:Ea.
    + destruct Hg as (Eg & Ha & _). exists EOF, (put_stream stdin s' w0). split; [done |]. split; [done |].
      exists s'. rewrite Ha. split; [done |]. split; [done |]. split; [lia | done].
    + destruct Hg as (Eg & Ha). exists c, (put_stream stdin s' w0). split; [done |]. apply Forall_cons_1 in Hb as [Hc Hb].
      split; [done |]. split; [done |]. exists s'. rewrite Ha. split; [done |]. split; [done |]. split; [lia | done].
  - intros w ch r. cbn [unget std_source]. unfold unread. destruct r as [|c r]; cbn [at_char]; [intros [-> Hv]; by exists w |].
    intros (-> & Hc & s & -> & Hb & Hl & ->). destruct (Z.eqb_spec c EOF) as [E | _]; [unfold EOF in E; lia |].
    destruct (ungetc_spec H Hpush (put_stream stdin s w0) stdin s c (lookup_insert_eq _ _ _) Hl Hc) as (s' & E & Ha & Hi & Hl').
    rewrite put_stream_twice in E. exists (put_stream stdin s' w0). split; [done |].
    change (avail (put_stream stdin s w0)) with (avail w0) in Ha. exists s'. rewrite Ha.
    split; [done |]. split; [by constructor |]. split; [lia | done].
  - intros w r (s & -> & Hb & Hl & ->). exists s. split; [done |]. split; [done |]. split; [lia | done].
Qed.

Lemma only_fuel w0 w r : only_stdin w0 w r -> exists n, fuel_for stdin w = Ok (n, w) /\ (length r < n)%nat.
Proof using Type.
  intros (s & -> & _ & _ & ->). unfold fuel_for. rewrite (bind_ok _ _ _ _ _ (stream_ok _ _ _ (lookup_insert_eq _ _ _))).
  rewrite (bind_ok (content_of _) _ _ (default [] (inodes w0 !! s_ino s)) (put_stream stdin s w0)) by done.
  eexists. split; [reflexivity |]. unfold avail. rewrite length_app, length_drop. clear. lia.
Qed.

Lemma only_int w0 w r bits v r' : quiet w0 -> bits = 16 \/ bits = 32 \/ bits = 64 -> only_stdin w0 w r ->
  decimal_spec bits r = (DecValue v, r') -> exists w', std_int H bits w = Ok (v, w') /\ only_stdin w0 w' r'.
Proof using Hread Hpush.
  intros Hq Hbits Hv Ed. destruct (only_fuel w0 w r Hv) as (n & En & Hn).
  destruct (scan_decimal_spec _ _ _ (Hsrc := only_is_source w0 Hq) w r n bits Hv Hn) as (w' & E & Hv').
  rewrite Ed in E, Hv'. cbn [fst snd] in E, Hv'. exists w'. split; [| done].
  assert (read_wide_decimal H bits w = Ok (v, w')) as Ew.
  { unfold read_wide_decimal. rewrite (bind_ok _ _ _ _ _ En). rewrite (bind_ok _ _ _ _ _ E). done. }
  apply decimal_spec_range in Ed. unfold std_int.
  destruct Hbits as [-> | [-> | ->]]; cbn [Z.eqb Pos.eqb]; unfold pas_read_int16, pas_read_int32, pas_read_int64; [| | done];
    rewrite (bind_ok _ _ _ _ _ Ew); unfold ret; rewrite dec_fits_swrap; auto.
Qed.

(** ** The redirection *)

Lemma swap_lookup n m k : swap_streams n m !! k = m !! renumber n k.
Proof using Type.
  unfold swap_streams, renumber. destruct (Nat.eqb_spec k stdin) as [-> | Hk].
  { by rewrite lookup_partial_alter_eq. }
  rewrite lookup_partial_alter_ne by done. destruct (Nat.eqb_spec k n) as [-> | Hn].
  { by rewrite lookup_partial_alter_eq. }
  by rewrite lookup_partial_alter_ne.
Qed.

Lemma renumber_twice n k : renumber n (renumber n k) = k.
Proof using Type.
  unfold renumber. destruct (Nat.eqb_spec k stdin) as [-> | Hk].
  - rewrite Nat.eqb_refl. by destruct (Nat.eqb_spec n stdin).
  - destruct (Nat.eqb_spec k n) as [-> | Hn]; [by rewrite Nat.eqb_refl |].
    destruct (Nat.eqb_spec k stdin), (Nat.eqb_spec k n); done.
Qed.

Lemma swap_back n s m0 m : n <> stdin -> m0 !! n = None ->
  delete n (swap_streams n (<[stdin := s]> (swap_streams n (<[n := m]> m0)))) = m0.
Proof using Type.
  intros Hn Hf. apply map_eq. intros k. destruct (decide (k = n)) as [-> | Hk]; [by rewrite lookup_delete_eq |].
  rewrite lookup_delete_ne by done. rewrite swap_lookup. unfold renumber at 1.
  destruct (Nat.eqb_spec k stdin) as [-> | Hs].
  - rewrite lookup_insert_ne by done. rewrite swap_lookup. unfold renumber.
    destruct (Nat.eqb_spec n stdin); [done |]. rewrite Nat.eqb_refl. by rewrite lookup_insert_ne.
  - destruct (Nat.eqb_spec k n); [done |]. rewrite lookup_insert_ne by done. rewrite swap_lookup. unfold renumber.
    destruct (Nat.eqb_spec k stdin); [done |]. destruct (Nat.eqb_spec k n); [done |]. by rewrite lookup_insert_ne.
Qed.

Definition redirect (n : nat) (fc : fcb) : fcb := set_handle (renumber n <$> handle fc) fc.

Lemma redirect_twice n (m : gmap nat fcb) : redirect n <$> (redirect n <$> m) = m.
Proof using Type.
  apply map_eq. intros k. rewrite !lookup_fmap. destruct (m !! k) as [fc|]; [| done]. cbn. f_equal.
  destruct fc as [? ? ? ? ? [h|] ? ? ? ? ?]; unfold redirect; cbn; [by rewrite renumber_twice | done].
Qed.

Lemma redirect_quiet n w ino dr st fr : quiet w ->
  quiet (mkWorld ino dr st (redirect n <$> fcbs w) (std_input_fcb w) fr).
Proof using Type.
  unfold quiet. cbn [std_input_fcb fcbs]. destruct (std_input_fcb w) as [f|]; [| done]. intros (fc & Hf & Hq).
  exists (redirect n fc). split; [by rewrite lookup_fmap, Hf |].
  destruct Hq as [? | [Hh | Hq]]; [by left | right; left; cbn; by rewrite Hh | by do 2 right].
Qed.

(** No parameter is being read, and the next number is free. *)
Definition settled (c : cmdline) (w : world) : Prop :=
  g_saved_stdin c = None /\ g_mem c = None /\ g_buf c = None /\ quiet w /\ (stdin < fresh_id w)%nat /\
  (forall k, (fresh_id w <= k)%nat -> streams w !! k = None /\ inodes w !! k = None).

(** The same world, with some numbers used. *)
Definition same_world (w w' : world) : Prop :=
  w' = mkWorld (inodes w) (dir w) (streams w) (fcbs w) (std_input_fcb w) (fresh_id w') /\ (fresh_id w <= fresh_id w')%nat.

Lemma settled_same c w w' : settled c w -> same_world w w' -> settled c w'.
Proof using Type.
  clear Hread Hpush.
  intros (H1 & H2 & H3 & H4 & H5 & H6) [-> Hle]. cbn [fresh_id] in *. do 3 (split; [done |]). split; [done |]. cbn [fresh_id streams inodes].
  split; [lia |]. intros k Hk. apply H6. lia.
Qed.

(** The state between [pas_arg_begin] and [pas_arg_end]. *)
Definition redirected (tok : list Z) (c : cmdline) (w : world) : state :=
  let b := fresh_id w in
  let m := S b in
  (mkCmd (g_argc c) (g_argv c) (Some m) (Some stdin) (Some b),
   mkWorld (<[b := tok ++ [LF]]> (inodes w)) (dir w) (swap_streams m (<[m := mkStream b O [] false false]> (streams w)))
           (redirect m <$> fcbs w) (std_input_fcb w) (S m)).

Lemma begin_redirects i name tok c w : settled c w -> param_token c i = Some tok ->
  pas_arg_begin H true true i name (c, w) = Ok (true, redirected tok c w).
Proof using Type.
  intros _ Ht. unfold pas_arg_begin. rewrite (bind_ok get _ _ (c, w) (c, w)) by done. cbn [fst]. rewrite Ht.
  unfold bind, new_buffer, on_cmd, modify, in_world, open_on, point_stdin, ret. cbn. rewrite Nat.eqb_refl.
  destruct (Nat.eqb_spec (S (fresh_id w)) stdin); [done |]. done.
Qed.

Lemma redirected_reads tok c w : settled c w -> Forall byte tok ->
  only_stdin (redirected tok c w).2 (redirected tok c w).2 (tok ++ [LF]) /\ quiet (redirected tok c w).2.
Proof using Type.
  clear Hread Hpush. intros (_ & _ & _ & Hq & _ & _) Hb. split; [| by apply redirect_quiet].
  set (s := mkStream (fresh_id w) O [] false false).
  assert (streams (redirected tok c w).2 !! stdin = Some s) as Hs.
  { unfold redirected. cbn [snd streams]. rewrite swap_lookup. unfold renumber. rewrite Nat.eqb_refl. apply lookup_insert_eq. }
  assert (avail (redirected tok c w).2 s = tok ++ [LF]) as Ha.
  { unfold avail, redirected. cbn. by rewrite lookup_insert_eq. }
  exists s. rewrite Ha. split.
  - unfold put_stream. rewrite insert_id by done. by destruct (redirected tok c w).2.
  - split; [| split; [cbn; lia | done]]. apply Forall_app. split; [done |]. by repeat constructor.
Qed.

Lemma end_restores tok c w s : settled c w ->
  exists w', pas_arg_end ((redirected tok c w).1, put_stream stdin s (redirected tok c w).2) = Ok (tt, (c, w')) /\ same_world w w'.
Proof using Type.
  clear Hread Hpush. intros (Hs & Hm & Hb & _ & Hlt & Hf). unfold pas_arg_end. rewrite (bind_ok get _ _ _ _ eq_refl). cbn [fst redirected g_saved_stdin].
  unfold point_stdin, on_cmd, in_world, free_buffer, fclose, modify, get, bind, ret, redirected. cbn -[redirect swap_streams].
  rewrite Nat.eqb_refl. destruct (Nat.eqb_spec stdin (S (fresh_id w))) as [E | _]; [unfold stdin in E; lia |].
  rewrite swap_back by (done || apply Hf; lia).
  assert (renumber (S (fresh_id w)) (S (fresh_id w)) = stdin) as Er by (unfold renumber; rewrite Nat.eqb_refl; done).
  rewrite swap_lookup, Er, lookup_insert_eq. cbn -[redirect swap_streams].
  eexists. split.
  { f_equal. f_equal. destruct c. cbn in *. by subst. }
  split; [| cbn; lia]. cbn [fresh_id]. f_equal.
  - apply delete_insert_id. by apply Hf.
  - apply redirect_twice.
Qed.

(** A token of the command line: blanks and a decimal number. *)
Definition token_of (tok : list Z) (v : Z) : Prop := exists sp neg plus d ds,
  tok = sp ++ number_text neg plus (d :: ds) /\ Forall (fun c => is_space c = true) sp /\
  Forall (fun c => is_digit c = true) (d :: ds) /\ Forall byte tok /\
  v = if (neg : bool) then - num 10 (d :: ds) else num 10 (d :: ds).

Lemma token_decimal tok v bits : bits = 16 \/ bits = 32 \/ bits = 64 -> token_of tok v -> in_srange bits v ->
  decimal_spec bits (tok ++ [LF]) = (DecValue v, [LF]).
Proof using Type.
  intros Hb (sp & neg & plus & d & ds & -> & Hsp & Hds & _ & ->) Hr. rewrite <- app_assoc.
  rewrite decimal_spec_text by done. set (v := if neg then _ else _) in *.
  assert (dec_fits bits v = true) as ->; [| done].
  unfold dec_fits. apply andb_true_iff. split.
  - apply fits64_iff. clear - Hb Hr. unfold in_srange in *. destruct Hb as [-> | [-> | ->]]; cbn in *; lia.
  - clear - Hb Hr. unfold in_bits, in_srange, INT32_MIN, INT32_MAX in *. destruct Hb as [-> | [-> | ->]]; cbn in *; lia.
Qed.

Lemma parameter_read i name bits tok v c w : settled c w -> param_token c i = Some tok ->
  bits = 16 \/ bits = 32 \/ bits = 64 -> token_of tok v -> in_srange bits v ->
  exists w', read_parameter H true true i name bits (c, w) = Ok (v, (c, w')) /\ same_world w w'.
Proof using Hread Hpush.
  intros Hs Ht Hb Hv Hr. unfold read_parameter. rewrite (bind_ok _ _ _ _ _ (begin_redirects i name tok c w Hs Ht)).
  assert (Forall byte tok) as Hbt by (by destruct Hv as (? & ? & ? & ? & ? & _ & _ & _ & ? & _)).
  destruct (redirected_reads tok c w Hs Hbt) as [Ho Hq].
  destruct (only_int _ _ _ bits v _ Hq Hb Ho (token_decimal tok v bits Hb Hv Hr)) as (w2 & E2 & (s & -> & _)).
  rewrite (bind_ok (in_world (std_int H bits)) _ _ v ((redirected tok c w).1, put_stream stdin s (redirected tok c w).2))
    by (unfold in_world; by rewrite E2).
  destruct (end_restores tok c w s Hs) as (w3 & E3 & H3). rewrite (bind_ok _ _ _ _ _ E3). by exists w3.
Qed.

Lemma same_trans w1 w2 w3 : same_world w1 w2 -> same_world w2 w3 -> same_world w1 w3.
Proof using Type.
  clear. destruct w1, w2, w3. unfold same_world. cbn. intros [[= -> -> -> -> ->] H1] [[= -> -> -> -> ->] H2].
  split; [done | lia].
Qed.

(** Parameter [j] and the ones after it are on the command line. *)
Definition given (c : cmdline) (j : nat) (ps : list (Z * option (list Z))) (vs : list Z) : Prop :=
  length vs = length ps /\
  forall k bits name, ps !! k = Some (bits, name) -> exists tok v,
    param_token c (Z.of_nat (j + k)) = Some tok /\ vs !! k = Some v /\
    (bits = 16 \/ bits = 32 \/ bits = 64) /\ token_of tok v /\ in_srange bits v.

Lemma parameters_read c ps : forall j vs w, settled c w -> given c j ps vs ->
  exists w', read_parameters H true true (Z.of_nat j) ps (c, w) = Ok (vs, (c, w')) /\ same_world w w'.
Proof using Hread Hpush.
  induction ps as [|[bits name] ps IH]; intros j vs w Hs [Hl Hp].
  - destruct vs; [| done]. exists w. split; [done |]. split; [by destruct w | done].
  - destruct vs as [|v vs]; [done |]. destruct (Hp O bits name eq_refl) as (tok & v' & Ht & [= <-] & Hb & Hv & Hr).
    rewrite Nat.add_0_r in Ht. cbn [read_parameters].
    destruct (parameter_read (Z.of_nat j) name bits tok v c w Hs Ht Hb Hv Hr) as (w1 & E1 & H1). rewrite (bind_ok _ _ _ _ _ E1).
    replace (Z.of_nat j + 1) with (Z.of_nat (S j)) by (clear; lia).
    destruct (IH (S j) vs w1) as (w2 & E2 & H2); [by eapply settled_same | |].
    { split; [by injection Hl |]. intros k b n Hk. destruct (Hp (S k) b n Hk) as (t & x & Hpk). exists t, x.
      by replace (S j + k)%nat with (j + S k)%nat by (clear; lia). }
    rewrite (bind_ok _ _ _ _ _ E2). exists w2. split; [done |]. by eapply same_trans.
Qed.

Lemma end_settled c w : settled c w -> forall w', pas_arg_end (c, w') = Ok (tt, (c, w')).
Proof using Type. destruct c. intros (Hs & Hm & Hb & _) w'. cbn in *. by subst. Qed.

Lemma keyboard_read i name bits mok fok c w : settled c w -> param_token c i = None \/ mok = false ->
  read_parameter H mok fok i name bits (c, w) = in_world (bind (prompt H name) (fun _ => std_int H bits)) (c, w).
Proof using Type.
  intros Hs Hk. unfold read_parameter.
  assert (pas_arg_begin H mok fok i name (c, w) = bind (in_world (prompt H name)) (fun _ => ret false) (c, w)) as Eb.
  { unfold pas_arg_begin, bind at 1, get. cbn [fst]. destruct Hk as [-> | ->]; [done |]. by destruct (param_token c i). }
  unfold bind at 1. rewrite Eb. unfold bind, in_world, ret. cbn [fst snd].
  destruct (prompt H name w) as [[[] w1] | e]; [| done]. cbn [fst snd].
  destruct (std_int H bits w1) as [[v w2] | e]; [| done]. by rewrite (end_settled c w).
Qed.

(** C22: The integer parameters of a program heading that the command line gives are read
    in their order with their exact values, each from its own argument; afterwards
    standard input, every other stream, file and file control block are as before, so
    that the program reads its input from the first character. A parameter that the
    command line does not give, or for whose token there is no memory, is prompted for
    and read from standard input. *)
Theorem parameters_bound c w : settled c w ->
  (forall ps vs, given c 0 ps vs ->
     exists w', read_parameters H true true 0 ps (c, w) = Ok (vs, (c, w')) /\ same_world w w') /\
  (forall i name bits malloc_ok fmemopen_ok, param_token c i = None \/ malloc_ok = false ->
     read_parameter H malloc_ok fmemopen_ok i name bits (c, w) =
       in_world (bind (prompt H name) (fun _ => std_int H bits)) (c, w)).
Proof using Hread Hpush.
  intros Hs. split; [intros ps vs Hg; by apply (parameters_read c ps 0) |]. intros. by apply keyboard_read.
Qed.
End Proofs.

(** Two arguments for a program with parameters of 16 and 64 bits. *)
Lemma parameters_bound_witness :
  let c := mkCmd 3 (Some [Some [112]; Some [45; 48; 55]; Some [49; 50; 51]]) None None None in
  let w := mkWorld {[5%nat := [52; 10]]} ∅ {[stdin := mkStream 5 0 [] false false; stdout := mkStream 5 2 [] false false]} ∅ None 10 in
  exists w', read_parameters easy_host true true 0 [(16, None); (64, Some [110])] (c, w) = Ok ([-7; 123], (c, w')) /\ same_world w w'.
Proof.
  intros c w.
  assert (settled c w) as Hs.
  { do 3 (split; [reflexivity |]). split; [exact I |]. split; [unfold stdin; cbn; lia |]. intros k Hk. cbn in Hk.
    split; [apply lookup_insert_None; split; [| unfold stdin; lia] |]; apply lookup_singleton_None; unfold stdout; lia. }
  assert (given c 0 [(16, None); (64, Some [110])] [-7; 123]) as Hg.
  { split; [reflexivity |]. intros k bits name Hk. destruct k as [|[|k]]; cbn in Hk; [| | discriminate Hk]; injection Hk as <- <-.
    - exists [45; 48; 55], (-7). split; [reflexivity |]. split; [reflexivity |]. split; [left; reflexivity |]. split.
      + exists [], true, false, 48, [55]. split; [reflexivity |]. split; [constructor |]. split; [repeat constructor |].
        split; [repeat constructor; cbn; lia | reflexivity].
      + unfold in_srange. cbn. lia.
    - exists [49; 50; 51], 123. split; [reflexivity |]. split; [reflexivity |]. split; [right; right; reflexivity |]. split.
      + exists [], false, false, 49, [50; 51]. split; [reflexivity |]. split; [constructor |]. split; [repeat constructor |].
        split; [repeat constructor; cbn; lia | reflexivity].
      + unfold in_srange. cbn. lia. }
  apply (proj1 (parameters_bound easy_host (fun _ _ => eq_refl) ltac:(cbn; lia) c w Hs) _ _ Hg).
Defined.

(** ** The installed compiler *)

Lemma before_last_slash a b : Forall (fun c => c <> SLASH) b -> before_slash (a ++ SLASH :: b) = Some a.
Proof.
  intros Hb. unfold before_slash. rewrite reverse_app, reverse_cons, <- app_assoc.
  rewrite after_all.
  - cbn [app after]. rewrite Z.eqb_refl. cbn [negb]. by rewrite reverse_involutive.
  - apply Forall_reverse. eapply Forall_impl; [| exact Hb]. intros c Hc. cbn. by destruct (Z.eqb_spec c SLASH).
Qed.

(** A program started as ROOT/bin/NAME has the root ROOT. *)
Lemma toolchain_root_installed c cwd root name : root <> [] -> Forall (fun c => c <> SLASH) name ->
  (length (root ++ BIN ++ SLASH :: name) < PATH_MAX)%nat ->
  pas_toolchain_root c (Some (root ++ BIN ++ SLASH :: name)) cwd = root.
Proof.
  intros Hr Hn Hl. unfold pas_toolchain_root. cbn [default from_option id]. rewrite take_ge by lia.
  destruct (root ++ BIN ++ SLASH :: name) as [|x path] eqn:Ep; [by destruct root |]. rewrite <- Ep, app_assoc.
  rewrite (before_last_slash _ _ Hn). unfold strip_bin.
  assert (length (root ++ BIN) - 4 = length root)%nat as E by (rewrite length_app; cbn; lia).
  rewrite E, drop_app_length, take_app_length, bool_decide_eq_true_2 by done.
  assert ((4 <=? length (root ++ BIN))%nat = true) as -> by (apply Nat.leb_le; rewrite length_app; cbn; lia).
  cbn [andb]. by destruct root.
Qed.
