(* ===== verification/Net.v ===== *)
(** netsock.c of runtime/: TCP sockets. What the kernel answers to each call is an
    argument: a sequence of answers for a loop that calls again. A write sends the
    whole buffer or reports a failure, whatever the kernel takes at once and however
    often it is interrupted; no descriptor is lost while a listener or a connection is
    tried on one address after the other; URLs are split into their parts. *)

From Stdlib Require Import ZArith Ascii String Lia.
From stdpp Require Import base list strings gmap numbers.
From S2P Require Import Prelude Readers ReaderProps.
#[local] Open Scope Z_scope.

(** * Transfers *)

(** An answer of [read], [write], [poll], [accept] or [connect]: a count, or a failure with its
    [errno]. *)
Inductive answer := Done (n : Z) | Eintr | Eagain | Failed.

Definition PAS_SOCK_ERROR : Z := -1.
Definition PAS_SOCK_TIMEOUT : Z := -2.

(** [do rc = call(); while (rc < 0 && errno == EINTR)]: the answer that ends the loop and
    the answers left. *)
Fixpoint retry (answers : list answer) : res (answer * list answer) :=
  match answers with
  | [] => Err OutOfFuel
  | Eintr :: l => retry l
  | a :: l => Ok (a, l)
  end.

(** [pas_sock_read] of at most [cap] characters; [polls] and [reads] are the answers of
    [poll] and [read], [data] what the peer has sent. The result and the characters. *)
Definition pas_sock_read (fd : Z) (has_buf : bool) (cap timeout_ms : Z) (polls reads : list answer) (data : list Z) :
  res (Z * list Z) :=
  if (fd <? 0) || negb has_buf || (cap <=? 0) then Ok (PAS_SOCK_ERROR, [])
  else
    let! waited :=
      (if 0 <? timeout_ms then
         let! (a, _) := retry polls in
         Ok (match a with
             | Done rc => if rc =? 0 then Some PAS_SOCK_TIMEOUT else None
             | _ => Some PAS_SOCK_ERROR
             end)
       else Ok None) in
    match waited with
    | Some r => Ok (r, [])
    | None =>
        let! (a, _) := retry reads in
        match a with
        | Done n => Ok (n, take (Z.to_nat n) data)
        | Eagain => Ok (PAS_SOCK_TIMEOUT, [])
        | _ => Ok (PAS_SOCK_ERROR, [])
        end
    end.

(** The loop of [pas_sock_write]: [buf] is what is left of the buffer, [wire] what was sent.
    One turn per answer. *)
Fixpoint send_loop (answers : list answer) (buf : list Z) (sent : Z) (wire : list Z) : res (Z * list Z) :=
  match buf with
  | [] => Ok (sent, wire)
  | _ =>
      match answers with
      | [] => Err OutOfFuel
      | Eintr :: l => send_loop l buf sent wire
      | Done n :: l =>
          if n <=? 0 then Ok (PAS_SOCK_ERROR, wire)
          else send_loop l (drop (Z.to_nat n) buf) (sent + n) (wire ++ take (Z.to_nat n) buf)
      | _ :: _ => Ok (PAS_SOCK_ERROR, wire)
      end
  end.
Definition pas_sock_write (fd : Z) (buf : option (list Z)) (len : Z) (answers : list answer) : res (Z * list Z) :=
  match buf with
  | None => Ok (PAS_SOCK_ERROR, [])
  | Some buf =>
      if (fd <? 0) || (len <? 0) then Ok (PAS_SOCK_ERROR, [])
      else if (length buf <? Z.to_nat len)%nat then Err (Undef "read outside the buffer")
      else send_loop answers (take (Z.to_nat len) buf) 0 []
  end.

(** * Connections *)

(** What happens on one address of the list [getaddrinfo] gives. *)
Record addrinfo := mkAddr { socket_ : Z; bind_ok : bool; listen_ok : bool; connect_ : list answer }.

(** The addresses of a host and a port, if the port is one. *)
Definition resolve (getaddrinfo : option (list Z) -> list Z -> bool -> option (list addrinfo)) (host : option (list Z))
  (port : Z) (passive : bool) : option (list addrinfo) :=
  if (port <? 0) || (65535 <? port) then None
  else getaddrinfo (match host with Some (c :: h) => Some (c :: h) | _ => None end) (codes (chars (Zs port))) passive.

(** [opened] is the set of open descriptors. *)
Fixpoint listen_loop (addrs : list addrinfo) (opened : gset Z) : Z * gset Z :=
  match addrs with
  | [] => (-1, opened)
  | ai :: l =>
      let fd := socket_ ai in
      if fd <? 0 then listen_loop l opened
      else
        let opened := {[fd]} ∪ opened in
        if bind_ok ai && listen_ok ai then (fd, opened) else listen_loop l (opened ∖ {[fd]})
  end.
Definition pas_tcp_listen (addrs : option (list addrinfo)) (opened : gset Z) : Z * gset Z :=
  match addrs with None => (-1, opened) | Some l => listen_loop l opened end.

Fixpoint connect_loop (addrs : list addrinfo) (opened : gset Z) : res (Z * gset Z) :=
  match addrs with
  | [] => Ok (-1, opened)
  | ai :: l =>
      let fd := socket_ ai in
      if fd <? 0 then connect_loop l opened
      else
        let opened := {[fd]} ∪ opened in
        let! (a, _) := retry (connect_ ai) in
        match a with
        | Done rc => if rc =? 0 then Ok (fd, opened) else connect_loop l (opened ∖ {[fd]})
        | _ => connect_loop l (opened ∖ {[fd]})
        end
  end.
(** The descriptor, the open descriptors, and the timeout set on the socket. *)
Definition pas_tcp_connect (addrs : option (list addrinfo)) (timeout_ms : Z) (opened : gset Z) :
  res (Z * gset Z * option (Z * Z)) :=
  match addrs with
  | None => Ok (-1, opened, None)
  | Some l =>
      let! (fd, opened) := connect_loop l opened in
      Ok (fd, opened,
          if (0 <=? fd) && (0 <? timeout_ms) then Some (Z.quot timeout_ms 1000, Z.rem timeout_ms 1000 * 1000) else None)
  end.

Definition pas_tcp_accept (listen_fd : Z) (answers : list answer) : res Z :=
  if listen_fd <? 0 then Ok (-1)
  else let! (a, _) := retry answers in Ok (match a with Done fd => fd | _ => -1 end).

(** The port a socket is bound to; [getsockname] gives the two bytes of [sin_port], in the
    order of the network. *)
Definition ntohs (bytes : Z * Z) : Z := bytes.1 * 256 + bytes.2.
Definition pas_tcp_port (fd : Z) (getsockname : option (Z * Z)) : Z :=
  if fd <? 0 then -1 else match getsockname with None => -1 | Some port => ntohs port end.

(** The sockets whose writing half is shut down. *)
Definition pas_sock_shutdown_write (fd : Z) (half_closed : gset Z) : gset Z :=
  if 0 <=? fd then {[fd]} ∪ half_closed else half_closed.

(** What the process does with signals. *)
Inductive disposition := SIG_DFL | SIG_IGN.
Record signals := mkSignals { SIGPIPE : disposition; SIGCHLD : disposition }.
Definition pas_net_init (s : signals) : signals := mkSignals SIG_IGN (SIGCHLD s).
Definition pas_net_autoreap (s : signals) : signals := mkSignals (SIGPIPE s) SIG_IGN.

Definition pas_sock_close (fd : Z) (opened : gset Z) : gset Z := if 0 <=? fd then opened ∖ {[fd]} else opened.

(** * URLs *)

Definition HTTP : list Z := codes (chars "http://").
Definition SLASH : Z := 47.
Definition COLON : Z := 58.

(** [atoi]; a number that no [int] holds has no defined result. *)
Definition atoi (s : list Z) : res Z :=
  let s := after is_space s in
  let '(neg, s) := match s with c :: s' => if c =? 45 then (true, s') else if c =? 43 then (false, s') else (false, s) | [] => (false, []) end in
  let v := num 10 (span_of is_digit s) in
  let v := if neg then - v else v in
  if (v <? INT32_MIN) || (INT32_MAX <? v) then Err (Undef "atoi of a number no int holds") else Ok v.

Definition pas_url_split (url : list Z) (hostcap pathcap : Z) : res (option (list Z * Z * list Z)) :=
  if (hostcap <=? 1) || (pathcap <=? 1) then Ok None
  else if negb (bool_decide (take 7 url = HTTP)) then Ok None
  else
    let rest := drop 7 url in
    let slash := after (fun c => negb (c =? SLASH)) rest in
    if pathcap <=? Z.of_nat (length slash) then Ok None
    else
      let path := match slash with [] => [SLASH] | _ => slash end in
      let host := span_of (fun c => negb (c =? SLASH)) rest in
      let! port :=
        match after (fun c => negb (c =? COLON)) host with
        | [] => Ok (Some 80)
        | _ :: portbuf =>
            if Nat.eqb (length portbuf) 0 || (16 <=? Z.of_nat (length portbuf)) then Ok None
            else let! p := atoi portbuf in Ok (if (p <=? 0) || (65535 <? p) then None else Some p)
        end in
      match port with
      | None => Ok None
      | Some port =>
          let host := span_of (fun c => negb (c =? COLON)) host in
          if Nat.eqb (length host) 0 || (hostcap <=? Z.of_nat (length host)) then Ok None
          else Ok (Some (host, port, path))
      end.

(** * Writing a buffer *)

(** What [write] may answer when [left] characters are left: never more than them. *)
Fixpoint legal (answers : list answer) (left : Z) : Prop :=
  match answers with
  | [] => True
  | Done n :: l => if 0 <? n then n <= left /\ legal l (left - n) else True
  | Eintr :: l => legal l left
  | _ :: _ => True
  end.
(** The answers that are not interruptions. *)
Definition calls_done (answers : list answer) : nat := length (List.filter (fun a => match a with Eintr => false | _ => true end) answers).

Lemma send_loop_spec answers : forall buf sent wire, legal answers (Z.of_nat (length buf)) ->
  match send_loop answers buf sent wire with
  | Ok (r, wire') => (r = sent + Z.of_nat (length buf) /\ wire' = wire ++ buf) \/
                     (r = PAS_SOCK_ERROR /\ exists w, wire' = wire ++ w /\ w `prefix_of` buf /\ (length w < length buf)%nat)
  | Err e => e = OutOfFuel /\ (calls_done answers < length buf)%nat
  end.
Proof.
  induction answers as [|a l IH]; intros buf sent wire Hl; destruct buf as [|c buf]; cbn [send_loop].
  1, 3: left; rewrite app_nil_r; cbn; split; [lia | done].
  - split; [done | cbn; lia].
  - assert (forall w, wire = wire ++ w -> w = []) as Hnil by (intros w E; by apply app_inv_head with (l := wire); rewrite app_nil_r).
    assert (PAS_SOCK_ERROR = PAS_SOCK_ERROR /\ exists w, wire = wire ++ w /\ w `prefix_of` (c :: buf) /\ (length w < length (c :: buf))%nat) as Herr.
    { split; [done |]. exists []. rewrite app_nil_r. split; [done |]. split; [apply prefix_nil | cbn; lia]. }
    destruct a as [n | | |]; [| | by right | by right].
    + cbn [legal] in Hl. destruct (Z.leb_spec n 0); [by right |]. destruct (Z.ltb_spec 0 n); [| lia]. destruct Hl as [Hn Hl].
      assert (Z.of_nat (length (drop (Z.to_nat n) (c :: buf))) = Z.of_nat (length (c :: buf)) - n) as Hd by (rewrite length_drop; lia).
      rewrite <- Hd in Hl. specialize (IH _ (sent + n) (wire ++ take (Z.to_nat n) (c :: buf)) Hl).
      destruct (send_loop l _ _ _) as [[r wire'] | e].
      * destruct IH as [[-> ->] | (-> & w & -> & Hp & Hlt)].
        -- left. rewrite <- app_assoc, take_drop. split; [lia | done].
        -- right. split; [done |]. exists (take (Z.to_nat n) (c :: buf) ++ w). rewrite app_assoc. split; [done |]. split.
           ++ rewrite <- (take_drop (Z.to_nat n) (c :: buf)) at 2. by apply prefix_app.
           ++ rewrite length_app, length_take. lia.
      * destruct IH as [-> Hlt]. split; [done |]. change (calls_done (Done n :: l)) with (S (calls_done l)). lia.
    + cbn [legal] in Hl. specialize (IH (c :: buf) sent wire Hl). by destruct (send_loop l (c :: buf) sent wire) as [[r w'] | e].
Qed.

(** [pas_sock_write] reports the length exactly when the whole buffer went out, in
    order and once, however the kernel cuts and interrupts the writes; a failure means
    that only a part of it, from its start, went out; and it ends as soon as [write] has
    answered without interruption as often as the buffer has characters. *)
Theorem sock_write_exact fd buf len answers :
  0 <= fd -> 0 <= len <= Z.of_nat (length buf) -> legal answers len ->
  match pas_sock_write fd (Some buf) len answers with
  | Ok (r, wire) => (r = len /\ wire = take (Z.to_nat len) buf) \/
                    (r = PAS_SOCK_ERROR /\ wire `prefix_of` take (Z.to_nat len) buf /\ Z.of_nat (length wire) < len)
  | Err e => e = OutOfFuel /\ Z.of_nat (calls_done answers) < len
  end.
Proof.
  intros Hfd Hlen Hl. unfold pas_sock_write. destruct (Z.ltb_spec fd 0), (Z.ltb_spec len 0); try lia. cbn [orb].
  destruct (Nat.ltb_spec (length buf) (Z.to_nat len)); [lia |].
  assert (Z.of_nat (length (take (Z.to_nat len) buf)) = len) as E by (rewrite length_take; lia).
  rewrite <- E in Hl. pose proof (send_loop_spec _ _ 0 [] Hl) as Hs. rewrite E in Hs.
  destruct (send_loop _ _ _ _) as [[r wire] | e]; [| destruct Hs as [-> Hs]; split; [done | lia]].
  destruct Hs as [[-> ->] | (-> & w & -> & Hp & Hlt)]; [by left | right]. split; [done |]. split; [done |]. cbn [app]. lia.
Qed.

Lemma sock_write_exact_witness :
  match pas_sock_write 3 (Some [1; 2; 3; 4; 5]) 4 [Eintr; Done 1; Eintr; Done 3] with
  | Ok (r, wire) => (r = 4 /\ wire = [1; 2; 3; 4]) \/ (r = PAS_SOCK_ERROR /\ wire `prefix_of` [1; 2; 3; 4] /\ Z.of_nat (length wire) < 4)
  | Err e => e = OutOfFuel /\ Z.of_nat (calls_done [Eintr; Done 1; Eintr; Done 3]) < 4
  end.
Proof. apply (sock_write_exact 3 [1; 2; 3; 4; 5] 4 [Eintr; Done 1; Eintr; Done 3]); cbn; lia. Defined.

(** * Descriptors *)

(** A bound port is one of the 65536; the two
    settings of signals do not touch each other. *)
Lemma port_bounds fd hi lo : 0 <= hi < 256 -> 0 <= lo < 256 -> 0 <= fd ->
  pas_tcp_port fd (Some (hi, lo)) = hi * 256 + lo /\ 0 <= pas_tcp_port fd (Some (hi, lo)) <= 65535.
Proof. intros Hh Hl Hf. unfold pas_tcp_port, ntohs. destruct (Z.ltb_spec fd 0); cbn; lia. Qed.
Lemma signals_commute s : pas_net_init (pas_net_autoreap s) = pas_net_autoreap (pas_net_init s).
Proof. reflexivity. Qed.

Definition listens (ai : addrinfo) : bool := (0 <=? socket_ ai) && bind_ok ai && listen_ok ai.

(** The socket of the first address that works, and no other descriptor more. *)
Definition first_works (works : addrinfo -> bool) (addrs : list addrinfo) (opened : gset Z) (fd : Z) (opened' : gset Z) : Prop :=
  (fd = -1 /\ opened' = opened /\ Forall (fun ai => works ai = false) addrs) \/
  (exists pre ai post, addrs = pre ++ ai :: post /\ Forall (fun ai => works ai = false) pre /\ works ai = true /\
     fd = socket_ ai /\ 0 <= fd /\ opened' = {[fd]} ∪ opened).

Lemma first_works_cons works ai l opened fd opened' : works ai = false -> first_works works l opened fd opened' ->
  first_works works (ai :: l) opened fd opened'.
Proof.
  intros Hai [(-> & -> & Hl) | (pre & a & post & -> & Hp & Ha & Hrest)]; [left; auto |].
  right. exists (ai :: pre), a, post. split; [done |]. split; [by constructor | done].
Qed.

Lemma close_again (opened : gset Z) fd : fd ∉ opened -> ({[fd]} ∪ opened) ∖ {[fd]} = opened.
Proof. set_solver. Qed.

Lemma listen_loop_spec addrs opened : Forall (fun ai => socket_ ai ∉ opened) addrs ->
  first_works listens addrs opened (listen_loop addrs opened).1 (listen_loop addrs opened).2.
Proof.
  induction addrs as [|ai l IH]; intros Hf; [by left |]. apply Forall_cons_1 in Hf as [Hn Hf]. cbn [listen_loop].
  destruct (Z.ltb_spec (socket_ ai) 0) as [Hneg | Hpos].
  { apply first_works_cons; [| by apply IH]. unfold listens. by destruct (Z.leb_spec 0 (socket_ ai)); [lia |]. }
  destruct (bind_ok ai && listen_ok ai) eqn:E.
  - right. exists [], ai, l. split; [done |]. split; [done |]. unfold listens. rewrite <- andb_assoc, E, andb_true_r. cbn. split; [lia |]. done.
  - rewrite close_again by done. apply first_works_cons; [| by apply IH]. unfold listens. by rewrite <- andb_assoc, E, andb_false_r.
Qed.

(** The [connect] calls on an address end, and how. *)
Definition connect_ends (ai : addrinfo) : bool := match retry (connect_ ai) with Ok _ => true | Err _ => false end.
Definition connects (ai : addrinfo) : bool :=
  (0 <=? socket_ ai) && match retry (connect_ ai) with Ok (Done rc, _) => rc =? 0 | _ => false end.

Lemma connect_loop_spec addrs opened : Forall (fun ai => (socket_ ai ∉ opened) /\ connect_ends ai = true) addrs ->
  exists fd opened', connect_loop addrs opened = Ok (fd, opened') /\ first_works connects addrs opened fd opened'.
Proof.
  induction addrs as [|ai l IH]; intros Hf; [eexists _, _; split; [done |]; by left |].
  apply Forall_cons_1 in Hf as [[Hn He] Hf]. destruct (IH Hf) as (fd & o & El & Hl). cbn [connect_loop].
  destruct (Z.ltb_spec (socket_ ai) 0) as [Hneg | Hpos].
  { exists fd, o. split; [done |]. apply first_works_cons; [| done]. unfold connects. by destruct (Z.leb_spec 0 (socket_ ai)); [lia |]. }
  unfold connect_ends in He. destruct (retry (connect_ ai)) as [[a l'] | e] eqn:Er; [| done]. cbn [rbind].
  rewrite close_again by done.
  assert (connects ai = match a with Done rc => rc =? 0 | _ => false end) as Hc.
  { unfold connects. rewrite Er. destruct (Z.leb_spec 0 (socket_ ai)); [| lia]. by destruct a. }
  destruct a as [rc | | |]; [| exists fd, o; split; [done |]; by apply first_works_cons ..].
  destruct (rc =? 0); [| exists fd, o; split; [done |]; by apply first_works_cons].
  eexists _, _. split; [done |]. right. by exists [], ai, l.
Qed.

(** A listener and a connection are tried on one address after the other: the result is
    the socket of the first address on which it works, or -1 when it works on none, and
    every other socket was closed again: the open descriptors are those before and the
    result. *)
Theorem tcp_descriptors addrs timeout_ms opened :
  Forall (fun ai => (socket_ ai ∉ opened) /\ connect_ends ai = true) addrs ->
  first_works listens addrs opened (pas_tcp_listen (Some addrs) opened).1 (pas_tcp_listen (Some addrs) opened).2 /\
  exists fd opened' t, pas_tcp_connect (Some addrs) timeout_ms opened = Ok (fd, opened', t) /\
    first_works connects addrs opened fd opened' /\
    (is_Some t <-> 0 <= fd /\ 0 < timeout_ms) /\
    (forall sec usec, t = Some (sec, usec) -> timeout_ms = sec * 1000 + usec / 1000 /\ 0 <= usec < 1000000).
Proof.
  intros Hf. split.
  - apply listen_loop_spec. eapply Forall_impl; [| exact Hf]. by intros ai [? _].
  - destruct (connect_loop_spec addrs opened Hf) as (fd & o & E & Hw). exists fd, o. unfold pas_tcp_connect. rewrite E. cbn [rbind].
    eexists. split; [reflexivity |]. split; [done |].
    destruct ((0 <=? fd) && (0 <? timeout_ms)) eqn:Ec.
    2:{ split; [| done]. split; [by intros [? [=]] | lia]. }
    split; [split; [lia | by eexists] |]. intros sec usec [= <- <-].
    rewrite Z.div_mul by lia. pose proof (Z.quot_rem' timeout_ms 1000). pose proof (Z.rem_bound_pos timeout_ms 1000). lia.
Qed.

Lemma tcp_descriptors_witness :
  let addrs := [mkAddr 4 false true [Failed]; mkAddr (-1) true true [Failed]; mkAddr 4 true true [Eintr; Done 0]] in
  first_works listens addrs {[0; 1; 2]} (pas_tcp_listen (Some addrs) {[0; 1; 2]}).1 (pas_tcp_listen (Some addrs) {[0; 1; 2]}).2.
Proof.
  intros addrs. apply (tcp_descriptors addrs 1500 {[0; 1; 2]}).
  repeat (apply List.Forall_cons; [split; [cbn; rewrite !not_elem_of_union, !not_elem_of_singleton; lia | reflexivity] |]). apply List.Forall_nil.
Defined.

(** * URLs *)

Definition no_char (c : Z) (l : list Z) : Prop := Forall (fun x => x <> c) l.

Lemma no_char_span c l : no_char c l -> Forall (fun x => negb (x =? c) = true) l.
Proof. apply Forall_impl. intros x Hx. cbn. by destruct (Z.eqb_spec x c). Qed.

(** A text without [c] before a text that is empty or starts with [c]. *)
Lemma split_at c a l : no_char c a -> match l with x :: _ => x = c | [] => True end ->
  span_of (fun x => negb (x =? c)) (a ++ l) = a /\ after (fun x => negb (x =? c)) (a ++ l) = l.
Proof.
  intros Ha Hl. apply span_all_app; [by apply no_char_span |]. destruct l as [|x l]; [done |]. subst x. by rewrite Z.eqb_refl.
Qed.

Lemma span_no_char c l : no_char c (span_of (fun x => negb (x =? c)) l).
Proof.
  eapply Forall_impl; [| apply (span_all (fun x => negb (x =? c)))]. intros x Hx. cbn in Hx. by destruct (Z.eqb_spec x c).
Qed.
Lemma after_char c l : match after (fun x => negb (x =? c)) l with x :: _ => x = c | [] => True end.
Proof.
  pose proof (after_stop (fun x => negb (x =? c)) l) as H. destruct (after _ l) as [|x l']; [done |].
  cbn in H. by destruct (Z.eqb_spec x c).
Qed.

(** The text of a URL: host, perhaps a port, perhaps a path. *)
Definition url_text (host : list Z) (port : option (list Z)) (path : list Z) : list Z :=
  HTTP ++ host ++ match port with Some p => COLON :: p | None => [] end ++ path.
Definition port_value (port : option (list Z)) : res Z := match port with Some p => atoi p | None => Ok 80 end.

(** What the text and the two buffers must satisfy. *)
Definition url_ok (host : list Z) (port : option (list Z)) (path : list Z) (hostcap pathcap : Z) : Prop :=
  no_char SLASH host /\ no_char COLON host /\ host <> [] /\ Z.of_nat (length host) < hostcap /\
  Z.of_nat (length path) < pathcap /\ 1 < hostcap /\ 1 < pathcap /\
  match path with x :: _ => x = SLASH | [] => True end /\
  match port with Some p => no_char SLASH p /\ p <> [] /\ Z.of_nat (length p) < 16 | None => True end.

Lemma url_split_text host port path hostcap pathcap p :
  url_ok host port path hostcap pathcap -> port_value port = Ok p -> 1 <= p <= 65535 ->
  pas_url_split (url_text host port path) hostcap pathcap = Ok (Some (host, p, match path with [] => [SLASH] | _ => path end)).
Proof.
  intros (Hs & Hc & Hne & Hhl & Hpl & H1 & H2 & Hpath & Hport) Hv Hp. unfold pas_url_split.
  destruct (Z.leb_spec hostcap 1), (Z.leb_spec pathcap 1); try lia. cbn [orb].
  unfold url_text. change 7%nat with (length HTTP). rewrite take_app_length, drop_app_length.
  rewrite bool_decide_eq_true_2 by done. cbn [negb]. set (pt := match port with Some p => COLON :: p | None => [] end).
  assert (no_char SLASH (host ++ pt)) as Hhp.
  { apply Forall_app. split; [done |]. unfold pt. destruct port as [p0|]; [| constructor]. apply List.Forall_cons; [done | apply Hport]. }
  rewrite app_assoc. destruct (split_at SLASH (host ++ pt) path Hhp Hpath) as [-> ->].
  destruct (Z.leb_spec pathcap (Z.of_nat (length path))); [lia |].
  destruct (split_at COLON host pt Hc) as [-> ->]; [unfold pt; by destruct port |].
  assert (Nat.eqb (length host) 0 || (hostcap <=? Z.of_nat (length host)) = false) as Hh.
  { destruct host; [done |]. cbn [length Nat.eqb orb] in *. by apply Z.leb_gt. }
  unfold pt. destruct port as [p0|]; cbn [port_value] in Hv.
  - destruct Hport as (_ & Hp0 & Hl0). destruct p0 as [|x p0]; [done |]. cbn [length Nat.eqb orb] in *.
    destruct (Z.leb_spec 16 (Z.of_nat (S (length p0)))); [lia |]. rewrite Hv. cbn [rbind].
    destruct (Z.leb_spec p 0), (Z.ltb_spec 65535 p); try lia. cbn [orb]. by rewrite Hh.
  - injection Hv as <-. cbn [rbind]. by rewrite Hh.
Qed.

Lemma url_split_inv url hostcap pathcap host p q : pas_url_split url hostcap pathcap = Ok (Some (host, p, q)) ->
  exists port path, url = url_text host port path /\ url_ok host port path hostcap pathcap /\ port_value port = Ok p /\
    1 <= p <= 65535 /\ q = match path with [] => [SLASH] | _ => path end.
Proof.
  unfold pas_url_split. destruct (Z.leb_spec hostcap 1), (Z.leb_spec pathcap 1); try done. cbn [orb].
  destruct (bool_decide (take 7 url = HTTP)) eqn:Eh; [| done]. apply bool_decide_eq_true in Eh. cbn [negb].
  set (rest := drop 7 url). assert (url = HTTP ++ rest) as Eu by (rewrite <- Eh; symmetry; apply take_drop).
  destruct (Z.leb_spec pathcap (Z.of_nat (length (after (fun c => negb (c =? SLASH)) rest)))); [done |].
  pose proof (span_after (fun c => negb (c =? SLASH)) rest) as Er. pose proof (span_no_char SLASH rest) as Hns.
  pose proof (after_char SLASH rest) as Hps. set (hp := span_of _ rest) in *. set (path := after _ rest) in *.
  pose proof (span_after (fun c => negb (c =? COLON)) hp) as Ehp. pose proof (span_no_char COLON hp) as Hnc.
  pose proof (after_char COLON hp) as Hpc. set (h := span_of _ hp) in *. set (pt := after _ hp) in *.
  rewrite <- Ehp in Hns. apply Forall_app in Hns as [Hns Hnp].
  assert (forall port, pt = match port with Some p => COLON :: p | None => [] end -> port_value port = Ok p -> 1 <= p <= 65535 ->
    match port with Some p => no_char SLASH p /\ p <> [] /\ Z.of_nat (length p) < 16 | None => True end ->
    (if Nat.eqb (length h) 0 || (hostcap <=? Z.of_nat (length h)) then Ok None else Ok (Some (h, p, match path with [] => [SLASH] | _ => path end)))
      = Ok (Some (host, p, q)) ->
    exists port path, url = url_text host port path /\ url_ok host port path hostcap pathcap /\ port_value port = Ok p /\
      1 <= p <= 65535 /\ q = match path with [] => [SLASH] | _ => path end) as Hfin.
  { intros port Ept Hv Hp Hport. destruct h as [|x h'] eqn:Eh'; [done |]. cbn [length Nat.eqb orb].
    destruct (Z.leb_spec hostcap (Z.of_nat (S (length h')))); [done |]. intros [= <- <-]. exists port, path.
    split; [unfold url_text; rewrite Eu, <- Er, <- Ept; f_equal; rewrite <- Ehp; by rewrite <- app_assoc |]. split; [| done].
    unfold url_ok. cbn [length]. repeat (split; [lia || done |]). done. }
  destruct pt as [|x pb] eqn:Ept; cbn [rbind].
  - intros E. assert (80 = p) as <- by (destruct (Nat.eqb (length h) 0 || _); [done | by injection E]).
    apply (Hfin None); [done | done | lia | done | done].
  - subst x. destruct (Nat.eqb (length pb) 0 || (16 <=? Z.of_nat (length pb))) eqn:El; [done |].
    destruct (atoi pb) as [v | e] eqn:Ea; [| done]. cbn [rbind].
    destruct ((v <=? 0) || (65535 <? v)) eqn:Ev; [done |]. intros E.
    assert (v = p) as -> by (destruct (Nat.eqb (length h) 0 || _); [done | by injection E]).
    apply (Hfin (Some pb)); [done | done | lia | | done]. apply Forall_cons_1 in Hnp as [_ Hnp]. split; [done |].
    apply orb_false_iff in El as [El1%Nat.eqb_neq El2%Z.leb_gt]. split; [by destruct pb | done].
Qed.

(** The port as the code takes it: white space, perhaps a plus sign, digits, and then
    anything that does not start with a digit. *)
Definition port_text (pb : list Z) (p : Z) : Prop :=
  exists blanks sign digits rest, pb = blanks ++ sign ++ digits ++ rest /\
    Forall (fun c => is_space c = true) blanks /\ sign ∈ [[]; [43]] /\
    digits <> [] /\ Forall (fun c => is_digit c = true) digits /\
    match rest with c :: _ => is_digit c = false | [] => True end /\ num 10 digits = p.

Lemma span_of_digits ds rest : Forall (fun c => is_digit c = true) ds -> match rest with c :: _ => is_digit c = false | [] => True end ->
  span_of is_digit (ds ++ rest) = ds.
Proof.
  intros H Hr. induction H as [|c ds Hc _ IH]; [| cbn; by rewrite Hc, IH]. destruct rest as [|c rest]; [done |]. cbn. by rewrite Hr.
Qed.

Lemma port_digits_nonneg ds : Forall (fun c => is_digit c = true) ds -> 0 <= num 10 ds.
Proof. intros H. apply num_nonneg; [lia |]. revert H. apply Forall_impl. intros c Hc. apply digit_val_dec in Hc. lia. Qed.

Lemma atoi_text pb p : port_text pb p -> 1 <= p <= 65535 -> atoi pb = Ok p.
Proof.
  intros (bl & sg & ds & rest & -> & Hb & Hs & Hne & Hd & Hr & <-) Hp. unfold atoi. rewrite after_all by done.
  destruct ds as [|d ds]; [done |]. pose proof (Forall_inv Hd) as Hd1. destruct (digit_not_space d Hd1) as (Hsp & H43 & H45).
  assert (forall v, v = num 10 (d :: ds) -> (if (v <? INT32_MIN) || (INT32_MAX <? v) then Err (Undef "atoi of a number no int holds") else Ok v) = Ok (num 10 (d :: ds))) as Hfin.
  { intros v ->. unfold INT32_MIN, INT32_MAX. destruct (Z.ltb_spec (num 10 (d :: ds)) (-2147483648)), (Z.ltb_spec 2147483647 (num 10 (d :: ds))); try lia; done. }
  apply list_elem_of_In in Hs as [<- | [<- | []]].
  - cbn [app after]. rewrite Hsp, (proj2 (Z.eqb_neq d 45) H45), (proj2 (Z.eqb_neq d 43) H43).
    apply Hfin. exact (f_equal (num 10) (span_of_digits (d :: ds) rest Hd Hr)).
  - cbn [app after]. change (is_space 43) with false. cbn match. change (43 =? 45) with false. change (43 =? 43) with true. cbn match.
    apply Hfin. exact (f_equal (num 10) (span_of_digits (d :: ds) rest Hd Hr)).
Qed.

Lemma atoi_port pb p : atoi pb = Ok p -> 1 <= p <= 65535 -> port_text pb p.
Proof.
  unfold atoi. intros H Hp. rewrite <- (span_after is_space pb). pose proof (span_all is_space pb) as Hb.
  set (bl := span_of is_space pb) in *. revert H. generalize (after is_space pb). clearbody bl. intros s.
  assert (forall neg r, (let v := num 10 (span_of is_digit r) in let v := if neg : bool then - v else v in
    if (v <? INT32_MIN) || (INT32_MAX <? v) then Err (Undef "atoi of a number no int holds") else Ok v) = Ok p ->
    neg = false /\ span_of is_digit r <> [] /\ num 10 (span_of is_digit r) = p) as Hv.
  { intros neg r. cbv zeta. pose proof (port_digits_nonneg _ (span_all is_digit r)) as Hn.
    destruct ((_ <? _) || _); [done |]. intros [= E]. destruct neg; [lia |]. split; [done |]. split; [| done].
    intros E0. rewrite E0 in E. cbn in E. lia. }
  assert (forall sg r, sg ∈ [[]; [43]] -> span_of is_digit r <> [] -> num 10 (span_of is_digit r) = p -> port_text (bl ++ sg ++ r) p) as Hfin.
  { intros sg r Hs Hne Hn. exists bl, sg, (span_of is_digit r), (after is_digit r). rewrite (span_after is_digit r).
    split; [done |]. split; [done |]. split; [done |]. split; [done |]. split; [apply span_all |]. split; [apply after_stop | done]. }
  destruct s as [|c s]; [intros H; destruct (Hv false [] H) as (_ & Hne & _); done |].
  destruct (Z.eqb_spec c 45); [intros H; by destruct (Hv true s H) |].
  destruct (Z.eqb_spec c 43) as [-> |]; intros H.
  - destruct (Hv false s H) as (_ & Hne & Hn). apply (Hfin [43] s); [apply list_elem_of_In; cbn; auto | done | done].
  - destruct (Hv false (c :: s) H) as (_ & Hne & Hn). apply (Hfin [] (c :: s)); [apply list_elem_of_In; cbn; auto | done | done].
Qed.


(** Ports that the comment of the code does not allow: text after the digits is ignored,
    and a number beyond [int] has no defined value. *)
Lemma url_port_suffix : pas_url_split (codes (chars "http://h:8080x/")) 10 10 = Ok (Some (codes (chars "h"), 8080, [SLASH])).
Proof. vm_compute. reflexivity. Qed.
Lemma url_port_overflow : pas_url_split (codes (chars "http://h:4294967376/")) 10 10 = Err (Undef "atoi of a number no int holds").
Proof. vm_compute. reflexivity. Qed.
