(* ===== verification/SysUtil.v ===== *)
(** sysutil.c of runtime/: files in one piece, removal of directories and child
    processes. What the kernel answers is an argument, a sequence of answers for a loop
    that calls again. A file that was written is read back whatever the kernel moves at
    once; a child gets exactly the arguments that were packed; its output is kept up to
    the size of the buffer, and the result says how it ended. *)

From Stdlib Require Import ZArith Ascii String Lia.
From stdpp Require Import base list strings gmap numbers.
From S2P Require Import Prelude Files Readers ReaderProps Net.
#[local] Open Scope Z_scope.

Definition PAS_SYS_OK : Z := 0.
Definition PAS_SYS_ERROR : Z := -1.
Definition PAS_SYS_TIMEOUT : Z := -2.
Definition PAS_SYS_SIGNAL : Z := -3.

(** * Files *)

(** The loop of [pas_sys_write_file], of which one turn is one call of [write]: the
    result and what is in the file. *)
Fixpoint write_all (answers : list answer) (data : list Z) (file : list Z) : res (bool * list Z) :=
  match data with
  | [] => Ok (true, file)
  | _ =>
      match answers with
      | [] => Err OutOfFuel
      | Eintr :: l => write_all l data file
      | Done n :: l =>
          if n <=? 0 then Ok (false, file)
          else write_all l (drop (Z.to_nat n) data) (file ++ take (Z.to_nat n) data)
      | _ :: _ => Ok (false, file)
      end
  end.

(** [open_ok] and [close_ok]: what [open] and [close] answer. The file is truncated when it
    is opened; [None] if it was not. *)
Definition pas_sys_write_file (data : option (list Z)) (len : Z) (open_ok close_ok : bool) (answers : list answer) :
  res (Z * option (list Z)) :=
  match data with
  | None => Ok (-1, None)
  | Some data =>
      if len <? 0 then Ok (-1, None)
      else if negb open_ok then Ok (-1, None)
      else if (length data <? Z.to_nat len)%nat then Err (Undef "read outside the buffer")
      else
        let! (ok, file) := write_all answers (take (Z.to_nat len) data) [] in
        Ok (if ok then if close_ok then 0 else -1 else -1, Some file)
  end.

(** The loop of [pas_sys_read_file]: [size] is [st_size], [file] what is left of the file. *)
Fixpoint read_all (answers : list answer) (size : Z) (file : list Z) (data : list Z) : res (option (list Z)) :=
  if size <=? Z.of_nat (length data) then Ok (Some data)
  else
    match answers with
    | [] => Err OutOfFuel
    | Eintr :: l => read_all l size file data
    | Done n :: l =>
        if n <=? 0 then Ok None
        else read_all l size (drop (Z.to_nat n) file) (data ++ take (Z.to_nat n) file)
    | _ :: _ => Ok None
    end.
Definition pas_sys_read_file (file : option (list Z)) (stat_ok malloc_ok : bool) (answers : list answer) : res (option (list Z * Z)) :=
  match file with
  | None => Ok None
  | Some file =>
      let size := Z.of_nat (length file) in
      if negb stat_ok || (INT32_MAX <? size) then Ok None
      else if negb malloc_ok then Ok None
      else let! data := read_all answers size file [] in
           Ok (option_map (fun d => (d, Z.of_nat (length d))) data)
  end.

(** * Child processes *)

(** ** The arguments *)

(** An entry of [argv]: the name of the program, or a pointer into the packed arguments. *)
Inductive arg := Executable | At (i : nat).

(** The first loop over [packed_args]. *)
Definition count_args (packed : list Z) : nat := S (length (List.filter (Z.eqb 0) packed)).

(** The second loop, from offset [i]; [None] if the last argument has no end. An entry
    outside the array must not be written. *)
Fixpoint fill_args (fuel : nat) (packed : list Z) (i argc : nat) (argv : list (option arg)) :
  res (option (nat * list (option arg))) :=
  match fuel with
  | O => Err OutOfFuel
  | S f =>
      if (i <? length packed)%nat then
        if (argc <? length argv)%nat then
          let argv := <[argc := Some (At i)]> argv in
          let j := (i + length (span_of (fun c => negb (c =? 0)%Z) (drop i packed)))%nat in
          if Nat.eqb j (length packed) then Ok None
          else fill_args f packed (S j) (S argc) argv
        else Err (Undef "write outside argv")
      else Ok (Some (argc, argv))
  end.
Definition unpack_args (packed : list Z) : res (option (nat * list (option arg))) :=
  let argc := count_args packed in
  fill_args (S (length packed)) packed 0 1 (Some Executable :: replicate argc None).

(** ** The output *)

(** [append_diagnostics]: what [read] gives, chunk after chunk, until there is nothing;
    [used] is the length of [out]. *)
Definition append_chunk (outcap : Z) (out chunk : list Z) : list Z :=
  let room := outcap - 1 - Z.of_nat (length out) in
  if 0 <? room then out ++ take (Z.to_nat (Z.min (Z.of_nat (length chunk)) room)) chunk else out.
Definition append_diagnostics (outcap : Z) (chunks : list (list Z)) (out : list Z) : list Z :=
  foldl (append_chunk outcap) out chunks.

(** ** Waiting *)

(** How a child ended: the status of [waitpid]. *)
Inductive status := Exited (code : Z) | Signaled (sig : Z) | OtherStatus.

(** The system calls of the parent and of the child. *)
Inductive syscall :=
  | SPipe (r w : Z) | SCloexec (fd : Z) | SFork (child : Z) | SSetpgid (pid pgid : Z) | SClose (fd : Z) | SDup2 (from to : Z)
  | SExecvp (file : list Z) (argv : list (option (list Z))) | SWriteErrno (fd e : Z) | SExit (code : Z)
  | SBlocking (fd : Z) (on : bool) | SWait (pid : Z) (hang : bool) | SKill (pid sig : Z) | SPoll (ms : Z) | SReadErrno (fd : Z).

Definition SIGKILL : Z := 9.
Definition SIGTERM : Z := 15.

(** What one turn of the loop finds: the output, whether the child ended, and the clock
    ([monotonic_ms]; negative when it fails). *)
Record turn := mkTurn { chunks : list (list Z); ended : option status; clock : Z }.

(** What the host answers when the time is up: whether the process group could be
    signalled, whether the child is gone after 200 ms, whether the group could be killed,
    how often the last [waitpid] is interrupted, and the status it stores. *)
Record kill_host := mkKill { term_group : bool; gone : bool; kill_group : bool; eintrs : nat; last_status : status }.
Definition kill_child (child : Z) (k : kill_host) : list syscall :=
  SKill (- child) SIGTERM :: (if term_group k then [] else [SKill child SIGTERM]) ++
  [SPoll 200; SWait child false] ++
  (if gone k then [SKill (- child) SIGKILL] else SKill (- child) SIGKILL :: (if kill_group k then [] else [SKill child SIGKILL])) ++
  replicate (S (eintrs k)) (SWait child true).

(** The variables of the loop when it ends: the status, whether the time was up, the
    output; and the calls that were made. *)
Fixpoint wait_loop (turns : list turn) (child outcap timeout_ms deadline : Z) (k : kill_host) (out : list Z) (log : list syscall) :
  res (status * bool * list Z * list syscall) :=
  match turns with
  | [] => Err OutOfFuel
  | t :: l =>
      let out := append_diagnostics outcap (chunks t) out in
      let log := log ++ [SWait child false] in
      match ended t with
      | Some st => Ok (st, false, out, log)
      | None =>
          if (0 <? timeout_ms) && (0 <=? clock t) then
            let deadline := if deadline <? 0 then clock t + timeout_ms else deadline in
            if deadline <=? clock t then Ok (last_status k, true, out, log ++ kill_child child k)
            else wait_loop l child outcap timeout_ms deadline k out (log ++ [SPoll 10])
          else wait_loop l child outcap timeout_ms deadline k out (log ++ [SPoll 10])
      end
  end.

(** What the host does for [pas_sys_exec]: the descriptors of the two pipes and the child's
    pid, or a failure; the turns of the loop; what it answers when the child is killed; the
    output that is drained at the end; and the [errno] of [execvp] when it fails, or 0. *)
Record exec_host := mkExec {
  calloc_ok : bool; output_pipe : option (Z * Z); exec_pipe : option (Z * Z); forked : option Z;
  turns : list turn; killing : kill_host; drained : list (list Z); exec_errno : Z
}.

(** The strings of [argv]; the last entry is NULL. *)
Definition arg_text (executable packed : list Z) (a : arg) : list Z :=
  match a with Executable => cstr executable | At i => cstr (drop i packed) end.
Definition argv_text (executable packed : list Z) (argv : list (option arg)) : list (option (list Z)) :=
  map (option_map (arg_text executable packed)) argv.

(** The child, from [fork] to [execvp], and to its end when that fails. *)
Definition child_side (e : Z) (executable : list Z) (argv : list (option (list Z))) (out exec : Z * Z) : list syscall :=
  [SSetpgid 0 0; SClose out.1; SClose exec.1; SDup2 out.2 1; SDup2 out.2 2; SClose out.2; SExecvp (cstr executable) argv] ++
  (if e =? 0 then [] else [SWriteErrno exec.2 e; SExit 127]).

(** The result; what is stored through the pointers, [None] before anything is; the calls
    of the parent; and those of the child, if there is one. *)
Record exec_out := mkOut { exit_code : Z; term_signal : Z; diagnostics : list Z }.
Record exec_result := mkResult { result : Z; stored : option exec_out; parent_calls : list syscall; child_calls : option (list syscall) }.

(** [out_ptrs]: none of the pointers the results go to is NULL. *)
Definition pas_sys_exec (h : exec_host) (executable packed : option (list Z)) (packed_len timeout_ms : Z) (out_ptrs : bool) (diagnostics_cap : Z) :
  res exec_result :=
  match executable, packed with
  | Some executable, Some packed =>
      if (packed_len <? 0) || (timeout_ms <? 0) || negb out_ptrs || (diagnostics_cap <? 1) then Ok (mkResult PAS_SYS_ERROR None [] None)
      else if (length packed <? Z.to_nat packed_len)%nat then Err (Undef "read outside the packed arguments")
      else if negb (calloc_ok h) then Ok (mkResult PAS_SYS_ERROR None [] None)
      else
        let packed := take (Z.to_nat packed_len) packed in
        let! argv := unpack_args packed in
        match argv with
        | None => Ok (mkResult PAS_SYS_ERROR None [] None)
        | Some (_, argv) =>
            let fail calls := Ok (mkResult PAS_SYS_ERROR (Some (mkOut (-1) 0 [])) calls None) in
            match output_pipe h with
            | None => fail []
            | Some out =>
                let opened := [SPipe out.1 out.2] in
                match exec_pipe h with
                | None => fail (opened ++ [SClose out.1; SClose out.2])
                | Some exec =>
                    let opened := opened ++ [SPipe exec.1 exec.2; SCloexec exec.2] in
                    match forked h with
                    | None => fail (opened ++ [SClose out.1; SClose out.2; SClose exec.1; SClose exec.2])
                    | Some child =>
                        let started := opened ++ [SFork child; SSetpgid child child; SClose out.2; SClose exec.2; SBlocking out.1 false] in
                        let! (st, timed_out, text, log) := wait_loop (turns h) child diagnostics_cap timeout_ms (-1) (killing h) [] started in
                        let log := log ++ (if timed_out : bool then [] else [SBlocking out.1 true]) in
                        let text := append_diagnostics diagnostics_cap (drained h) text in
                        let log := log ++ [SClose out.1; SReadErrno exec.1; SClose exec.1] in
                        let child := Some (child_side (exec_errno h) executable (argv_text executable packed argv) out exec) in
                        if negb (exec_errno h =? 0) then Ok (mkResult PAS_SYS_ERROR (Some (mkOut (-1) 0 text)) log child)
                        else if timed_out then Ok (mkResult PAS_SYS_TIMEOUT (Some (mkOut (-1) 0 text)) log child)
                        else Ok match st with
                                | Exited c => mkResult PAS_SYS_OK (Some (mkOut c 0 text)) log child
                                | Signaled s => mkResult PAS_SYS_SIGNAL (Some (mkOut (-1) s text)) log child
                                | OtherStatus => mkResult PAS_SYS_ERROR (Some (mkOut (-1) 0 text)) log child
                                end
                    end
                end
            end
        end
  | _, _ => Ok (mkResult PAS_SYS_ERROR None [] None)
  end.

(** * Files are read back *)

Lemma write_all_spec answers : forall data file, legal answers (Z.of_nat (length data)) ->
  match write_all answers data file with
  | Ok (true, f) => f = file ++ data
  | Ok (false, f) => exists w, f = file ++ w /\ w `prefix_of` data
  | Err e => e = OutOfFuel /\ (calls_done answers < length data)%nat
  end.
Proof.
  induction answers as [|a l IH]; intros data file Hl; destruct data as [|c data]; cbn [write_all].
  1, 3: by rewrite app_nil_r.
  - split; [done | cbn; lia].
  - assert (exists w, file = file ++ w /\ w `prefix_of` (c :: data)) as Herr.
    { exists []. rewrite app_nil_r. split; [done | apply prefix_nil]. }
    destruct a as [n | | |]; try done.
    + cbn [legal] in Hl. destruct (Z.leb_spec n 0); [done |]. destruct (Z.ltb_spec 0 n); [| lia]. destruct Hl as [Hn Hl].
      assert (Z.of_nat (length (drop (Z.to_nat n) (c :: data))) = Z.of_nat (length (c :: data)) - n) as Hd by (rewrite length_drop; lia).
      rewrite <- Hd in Hl. specialize (IH _ (file ++ take (Z.to_nat n) (c :: data)) Hl).
      destruct (write_all l _ _) as [[[] f] | e].
      * by rewrite IH, <- app_assoc, take_drop.
      * destruct IH as (w & -> & Hp). exists (take (Z.to_nat n) (c :: data) ++ w). rewrite app_assoc. split; [done |].
        rewrite <- (take_drop (Z.to_nat n) (c :: data)) at 2. by apply prefix_app.
      * destruct IH as [-> Hlt]. split; [done |]. change (calls_done (Done n :: l)) with (S (calls_done l)). lia.
    + apply (IH (c :: data) file Hl).
Qed.

Lemma read_all_spec answers : forall file data size, size = Z.of_nat (length data) + Z.of_nat (length file) ->
  legal answers (Z.of_nat (length file)) ->
  match read_all answers size file data with
  | Ok (Some d) => d = data ++ file
  | Ok None => True
  | Err e => e = OutOfFuel /\ (calls_done answers < length file)%nat
  end.
Proof.
  induction answers as [|a l IH]; intros file data size -> Hl; cbn [read_all];
    (destruct (Z.leb_spec (Z.of_nat (length data) + Z.of_nat (length file)) (Z.of_nat (length data))) as [Hle | Hgt];
      [destruct file; [by rewrite app_nil_r | cbn in Hle; lia] |]).
  - split; [done | cbn; lia].
  - destruct a as [n | | |]; try done.
    + cbn [legal] in Hl. destruct (Z.leb_spec n 0); [done |]. destruct (Z.ltb_spec 0 n); [| lia]. destruct Hl as [Hn Hl].
      assert (Z.of_nat (length (drop (Z.to_nat n) file)) = Z.of_nat (length file) - n) as Hd by (rewrite length_drop; lia).
      rewrite <- Hd in Hl.
      specialize (IH (drop (Z.to_nat n) file) (data ++ take (Z.to_nat n) file) (Z.of_nat (length data) + Z.of_nat (length file))).
      rewrite length_app, length_take in IH. specialize (IH ltac:(lia) Hl).
      destruct (read_all l _ _ _) as [[d|] | e]; [| done |].
      * by rewrite IH, <- app_assoc, take_drop.
      * destruct IH as [-> Hlt]. split; [done |]. change (calls_done (Done n :: l)) with (S (calls_done l)). lia.
    + by apply IH.
Qed.

(** A write that returns 0 has put exactly the data into the file, and a read that
    returns data returns exactly what the file holds, however the kernel cuts and
    interrupts the transfers; so data that was written is read back. A write that fails
    leaves a part of the data, from its start. *)
Theorem sys_file_roundtrip data writes reads close_ok :
  Z.of_nat (length data) <= INT32_MAX -> legal writes (Z.of_nat (length data)) ->
  match pas_sys_write_file (Some data) (Z.of_nat (length data)) true close_ok writes with
  | Ok (r, file) =>
      exists f, file = Some f /\ f `prefix_of` data /\ (r = 0 -> f = data) /\
        (legal reads (Z.of_nat (length f)) ->
         match pas_sys_read_file file true true reads with
         | Ok (Some (d, n)) => d = f /\ n = Z.of_nat (length f)
         | Ok None => True
         | Err e => e = OutOfFuel /\ (calls_done reads < length f)%nat
         end)
  | Err e => e = OutOfFuel /\ (calls_done writes < length data)%nat
  end.
Proof.
  intros Hlen Hw. unfold pas_sys_write_file. destruct (Z.ltb_spec (Z.of_nat (length data)) 0); [lia |]. cbn [negb].
  rewrite Nat2Z.id, Nat.ltb_irrefl, take_ge by done. pose proof (write_all_spec writes data [] Hw) as Hs.
  destruct (write_all writes data []) as [[ok f] | e]; [| done]. cbn [rbind]. exists f. split; [done |].
  assert (f `prefix_of` data) as Hp by (destruct ok; [by subst f | by destruct Hs as (w & -> & ?)]). split; [done |].
  split; [intros Hr; destruct ok; [done | discriminate Hr] |]. intros Hr. unfold pas_sys_read_file. cbn [negb orb].
  apply prefix_length in Hp. destruct (Z.ltb_spec INT32_MAX (Z.of_nat (length f))); [lia |].
  pose proof (read_all_spec reads f [] (Z.of_nat (length f)) eq_refl Hr) as Hrd.
  destruct (read_all _ _ _ _) as [[d|] | e]; cbn [rbind option_map]; [by subst d | done | done].
Qed.

Lemma sys_file_roundtrip_witness :
  match pas_sys_write_file (Some [65; 66; 67]) 3 true true [Eintr; Done 2; Done 1] with
  | Ok (r, file) =>
      exists f, file = Some f /\ f `prefix_of` [65; 66; 67] /\ (r = 0 -> f = [65; 66; 67]) /\
        (legal [Done 1; Eintr; Done 2] (Z.of_nat (length f)) ->
         match pas_sys_read_file file true true [Done 1; Eintr; Done 2] with
         | Ok (Some (d, n)) => d = f /\ n = Z.of_nat (length f)
         | Ok None => True
         | Err e => e = OutOfFuel /\ (calls_done [Done 1; Eintr; Done 2] < length f)%nat
         end)
  | Err e => e = OutOfFuel /\ (calls_done [Eintr; Done 2; Done 1] < 3)%nat
  end.
Proof. apply (sys_file_roundtrip [65; 66; 67] [Eintr; Done 2; Done 1] [Done 1; Eintr; Done 2] true); [unfold INT32_MAX | ]; cbn; lia. Defined.

(** * The arguments of a child *)

(** Arguments as the caller packs them: each with a NUL. *)
Definition pack (args : list (list Z)) : list Z := concat (map (fun a => a ++ [0]) args).
Lemma cstr_app a l : no_char 0 a -> cstr (a ++ 0 :: l) = a.
Proof. induction 1 as [|c a Hc _ IH]; [done |]. cbn. destruct (Z.eqb_spec c 0); [done |]. by rewrite IH. Qed.

Lemma count_pack args tail : Forall (no_char 0) args -> no_char 0 tail -> count_args (pack args ++ tail) = S (length args).
Proof.
  intros Ha Ht. unfold count_args. f_equal.
  assert (forall l, no_char 0 l -> List.filter (Z.eqb 0) l = []) as Hnone.
  { induction 1 as [|c l Hc _ IH]; [done |]. cbn. by destruct c. }
  rewrite List.filter_app, (Hnone tail Ht), app_nil_r. induction Ha as [|a args Ha _ IH]; [done |].
  unfold pack in *. cbn [map concat length]. rewrite !List.filter_app, (Hnone a Ha), !length_app. cbn. by rewrite IH.
Qed.

(** Every packed text is arguments and a rest without a NUL. *)
Lemma packed_form packed : exists args tail, packed = pack args ++ tail /\ Forall (no_char 0) args /\ no_char 0 tail.
Proof.
  induction packed as [|c l (args & tail & -> & Ha & Ht)]; [exists [], []; split; [done |]; split; apply List.Forall_nil |].
  destruct (Z.eq_dec c 0) as [-> | Hc].
  { exists ([] :: args), tail. split; [done |]. split; [| done]. by apply List.Forall_cons; [apply List.Forall_nil |]. }
  destruct args as [|a args].
  { exists [], (c :: tail). split; [done |]. split; [done |]. by apply List.Forall_cons. }
  apply Forall_cons_1 in Ha as [Ha Has]. exists ((c :: a) :: args), tail. split; [done |]. split; [| done].
  apply List.Forall_cons; [by apply List.Forall_cons | done].
Qed.

Lemma span_nul a l : no_char 0 a -> span_of (fun c => negb (c =? 0)) (a ++ 0 :: l) = a.
Proof. intros Ha. by apply (split_at 0 a (0 :: l) Ha). Qed.

(** The offsets of the arguments after [pre]. *)
Fixpoint offsets (i : nat) (args : list (list Z)) : list (option arg) :=
  match args with [] => [] | a :: l => Some (At i) :: offsets (S (i + length a)) l end.

Lemma offsets_length i args : length (offsets i args) = length args.
Proof. revert i. induction args as [|a l IH]; intros i; [done |]. cbn. by rewrite IH. Qed.

Lemma fill_args_spec args : forall fuel pre tail argc before free, Forall (no_char 0) args -> no_char 0 tail ->
  argc = length before -> (length args < fuel)%nat -> (tail <> [] -> S (length args) < fuel)%nat ->
  (length args <= free)%nat -> (tail <> [] -> length args < free)%nat ->
  fill_args fuel (pre ++ pack args ++ tail) (length pre) argc (before ++ replicate free None) =
    Ok (match tail with
        | [] => Some ((argc + length args)%nat, before ++ offsets (length pre) args ++ replicate (free - length args) None)
        | _ => None
        end).
Proof.
  induction args as [|a args IH]; intros fuel pre tail argc before free Ha Ht -> Hf Hft Hfr Hfrt.
  - destruct fuel as [|fuel]; [cbn in Hf; lia |]. cbn [pack map concat app fill_args offsets length]. rewrite Nat.sub_0_r, Nat.add_0_r.
    destruct tail as [|c tail]; [by rewrite app_nil_r, Nat.ltb_irrefl |].
    rewrite length_app. cbn [length]. destruct (Nat.ltb_spec (length pre) (length pre + S (length tail))); [| lia].
    rewrite length_app, length_replicate. specialize (Hfrt ltac:(done)). cbn in Hfrt.
    destruct (Nat.ltb_spec (length before) (length before + free)); [| lia]. rewrite drop_app_length.
    destruct (split_at 0 (c :: tail) [] Ht I) as [E _]. rewrite app_nil_r in E. rewrite E. cbn [length]. by rewrite Nat.eqb_refl.
  - apply Forall_cons_1 in Ha as [Ha Has]. destruct fuel as [|fuel]; [cbn in Hf; lia |].
    cbn [pack map concat fill_args offsets length] in *. fold (pack args). set (rest := pack args ++ tail).
    assert ((a ++ [0]) ++ pack args = a ++ 0 :: pack args) as E0 by (by rewrite <- app_assoc).
    assert (pre ++ ((a ++ [0]) ++ pack args) ++ tail = pre ++ a ++ 0 :: rest) as Ep
      by (rewrite E0; unfold rest; by rewrite <- app_assoc).
    rewrite Ep. rewrite !length_app. cbn [length].
    destruct (Nat.ltb_spec (length pre) (length pre + (length a + S (length rest)))); [| lia].
    rewrite length_replicate. destruct (Nat.ltb_spec (length before) (length before + free)); [| lia].
    rewrite drop_app_length, (span_nul a rest Ha).
    destruct (Nat.eqb_spec (length pre + length a) (length pre + (length a + S (length rest)))); [lia |].
    destruct free as [|free]; [lia |].
    replace (<[length before := Some (At (length pre))]> (before ++ replicate (S free) None))
      with ((before ++ [Some (At (length pre))]) ++ replicate free None)
      by (rewrite insert_app_r_alt by lia; rewrite Nat.sub_diag; cbn; by rewrite <- app_assoc).
    replace (pre ++ a ++ 0 :: rest) with ((pre ++ a ++ [0]) ++ pack args ++ tail) by (unfold rest; by rewrite <- !app_assoc).
    replace (S (length pre + length a)) with (length (pre ++ a ++ [0])) by (rewrite !length_app; cbn; lia).
    rewrite (IH fuel (pre ++ a ++ [0]) tail (S (length before)) (before ++ [Some (At (length pre))]) free); try done; try lia.
    + destruct tail; [| done]. do 2 f_equal. f_equal; [lia |]. by rewrite <- app_assoc.
    + rewrite length_app. cbn. lia.
    + intros Htl. specialize (Hft Htl). lia.
    + intros Htl. specialize (Hfrt Htl). lia.
Qed.

Lemma unpack_pack args tail : Forall (no_char 0) args -> no_char 0 tail ->
  unpack_args (pack args ++ tail) =
    Ok (match tail with [] => Some (S (length args), Some Executable :: offsets 0 args ++ [None]) | _ => None end).
Proof.
  intros Ha Ht. unfold unpack_args. rewrite count_pack by done.
  assert (length args <= length (pack args))%nat as Hl.
  { clear. induction args as [|a args IH]; [done |]. cbn [pack map concat length]. rewrite !length_app. unfold pack in IH. cbn. lia. }
  pose proof (fill_args_spec args (S (length (pack args ++ tail))) [] tail 1 [Some Executable] (S (length args)) Ha Ht eq_refl) as H.
  rewrite length_app in *. cbn [app length] in H. rewrite H; clear H; try lia.
  - destruct tail; [| done]. do 3 f_equal. replace (S (length args) - length args)%nat with 1%nat by lia. done.
  - intros Hne. destruct tail; [done |]. cbn. lia.
Qed.

Lemma offsets_text exe args : forall pre rest, Forall (no_char 0) args ->
  argv_text exe (pre ++ pack args ++ rest) (offsets (length pre) args) = map Some args.
Proof.
  induction args as [|a args IH]; intros pre rest Ha; [done |]. apply Forall_cons_1 in Ha as [Ha Has].
  unfold argv_text in *. cbn [offsets map option_map arg_text]. f_equal.
  - rewrite drop_app_length. unfold pack. cbn [map concat]. rewrite <- !app_assoc. cbn [app]. by rewrite cstr_app.
  - replace (pre ++ pack (a :: args) ++ rest) with ((pre ++ a ++ [0]) ++ pack args ++ rest)
      by (unfold pack; cbn [map concat]; by rewrite <- !app_assoc).
    replace (S (length pre + length a)) with (length (pre ++ a ++ [0])) by (rewrite !length_app; cbn; lia). by apply IH.
Qed.

(** * The output and the end of a child *)

Lemma take_cut n (a b : list Z) : take n (take n a ++ b) = take n (a ++ b).
Proof. rewrite !take_app, take_take, Nat.min_id, length_take. f_equal. f_equal. lia. Qed.

Lemma append_chunk_spec cap out c : Z.of_nat (length out) <= cap - 1 -> append_chunk cap out c = take (Z.to_nat (cap - 1)) (out ++ c).
Proof.
  intros Hout. unfold append_chunk. rewrite take_app, (take_ge out) by lia.
  destruct (Z.ltb_spec 0 (cap - 1 - Z.of_nat (length out))).
  - f_equal. destruct (Z.leb_spec (Z.of_nat (length c)) (cap - 1 - Z.of_nat (length out))); [rewrite !take_ge by lia; done |].
    f_equal. lia.
  - replace (Z.to_nat (cap - 1) - length out)%nat with O by lia. by rewrite app_nil_r.
Qed.

Lemma append_diagnostics_spec cap cs : 1 <= cap -> forall out,
  append_diagnostics cap cs (take (Z.to_nat (cap - 1)) out) = take (Z.to_nat (cap - 1)) (out ++ concat cs).
Proof.
  intros Hcap. unfold append_diagnostics. induction cs as [|c l IH]; intros out; cbn [foldl concat]; [by rewrite app_nil_r |].
  rewrite append_chunk_spec by (rewrite length_take; lia). by rewrite take_cut, IH, app_assoc.
Qed.

(** The clock of the first turn at which it works. *)
Definition first_clock (ts : list turn) : option Z := List.find (fun c => 0 <=? c) (map clock ts).
(** The time is up at turn [k]. *)
Definition late (timeout_ms : Z) (ts : list turn) (k : nat) : bool :=
  match ts !! k, first_clock (take (S k) ts) with
  | Some t, Some c => (0 <? timeout_ms) && (0 <=? clock t) && (c + timeout_ms <=? clock t)
  | _, _ => false
  end.
(** Neither the child nor the time has ended at a turn before [k]. *)
Definition running (timeout_ms : Z) (ts : list turn) (k : nat) : Prop :=
  forall j t, (j < k)%nat -> ts !! j = Some t -> ended t = None /\ late timeout_ms ts j = false.

Definition deadline_of (timeout_ms : Z) (c : option Z) : Z :=
  match c with Some c => if 0 <? timeout_ms then c + timeout_ms else -1 | None => -1 end.
Definition outputs (ts : list turn) : list Z := concat (map (fun t => concat (chunks t)) ts).

Lemma find_app {A} (p : A -> bool) l1 l2 :
  List.find p (l1 ++ l2) = match List.find p l1 with Some x => Some x | None => List.find p l2 end.
Proof. induction l1 as [|x l IH]; [done |]. cbn. by destruct (p x). Qed.

Lemma first_clock_snoc pre u : first_clock (pre ++ [u]) =
  match first_clock pre with Some c => Some c | None => if 0 <=? clock u then Some (clock u) else None end.
Proof. unfold first_clock. by rewrite map_app, find_app. Qed.

Lemma first_clock_nonneg ts c : first_clock ts = Some c -> 0 <= c.
Proof. intros Hc. apply List.find_some in Hc as [_ Hc]. lia. Qed.

Lemma outputs_snoc pre u : outputs (pre ++ [u]) = outputs pre ++ concat (chunks u).
Proof. unfold outputs. rewrite map_app, concat_app. cbn. by rewrite app_nil_r. Qed.

(** The calls of turns that end nothing. *)
Definition waiting (child : Z) (ts : list turn) : list syscall := concat (map (fun _ => [SWait child false; SPoll 10]) ts).

Lemma waiting_snoc child pre u : waiting child (pre ++ [u]) = (waiting child pre ++ [SWait child false]) ++ [SPoll 10].
Proof. unfold waiting. rewrite map_app, concat_app. cbn. by rewrite <- app_assoc. Qed.

Section Wait.
Context (child cap timeout_ms : Z) (killed : kill_host) (started : list syscall) (Hcap : 1 <= cap) (Htm : 0 <= timeout_ms).
#[local] Abbreviation kept ts := (take (Z.to_nat (cap - 1)) (outputs ts)).
#[local] Abbreviation waits post pre := (wait_loop post child cap timeout_ms (deadline_of timeout_ms (first_clock pre)) killed (kept pre) (started ++ waiting child pre)).
#[local] Abbreviation asked pre := (started ++ waiting child pre ++ [SWait child false]).

Lemma late_here pre u post : late timeout_ms (pre ++ u :: post) (length pre) =
  match first_clock (pre ++ [u]) with
  | Some c => (0 <? timeout_ms) && (0 <=? clock u) && (c + timeout_ms <=? clock u)
  | None => false
  end.
Proof using Type.
  unfold late. rewrite list_lookup_middle by done. replace (pre ++ u :: post) with ((pre ++ [u]) ++ post) by (by rewrite <- app_assoc).
  by rewrite take_app_length' by (rewrite length_app; cbn; lia).
Qed.

(** One turn. *)
Lemma wait_turn pre u post : waits (u :: post) pre =
  match ended u with
  | Some st => Ok (st, false, kept (pre ++ [u]), asked pre)
  | None => if late timeout_ms (pre ++ u :: post) (length pre) then Ok (last_status killed, true, kept (pre ++ [u]), asked pre ++ kill_child child killed)
            else waits post (pre ++ [u])
  end.
Proof using Hcap Htm.
  cbn [wait_loop]. rewrite waiting_snoc. replace ((started ++ waiting child pre) ++ [SWait child false]) with (asked pre) by (by rewrite app_assoc).
  replace (started ++ (waiting child pre ++ [SWait child false]) ++ [SPoll 10]) with (asked pre ++ [SPoll 10]) by (by rewrite <- !app_assoc).
  rewrite append_diagnostics_spec, <- outputs_snoc by done. destruct (ended u); [done |].
  rewrite late_here, first_clock_snoc. unfold deadline_of. pose proof (first_clock_nonneg pre) as Hc0.
  destruct (first_clock pre) as [c|]; destruct (Z.ltb_spec 0 timeout_ms), (Z.leb_spec 0 (clock u)); cbn [andb]; try done.
  - specialize (Hc0 c eq_refl). by destruct (Z.ltb_spec (c + timeout_ms) 0); [lia |].
Qed.

Lemma wait_loop_at post : forall pre k t, running timeout_ms (pre ++ post) k ->
  (length pre <= k)%nat -> (pre ++ post) !! k = Some t ->
  waits post pre =
    match ended t with
    | Some st => Ok (st, false, kept (take (S k) (pre ++ post)), asked (take k (pre ++ post)))
    | None => if late timeout_ms (pre ++ post) k then Ok (last_status killed, true, kept (take (S k) (pre ++ post)), asked (take k (pre ++ post)) ++ kill_child child killed)
              else waits (drop (S k) (pre ++ post)) (take (S k) (pre ++ post))
    end.
Proof using Hcap Htm.
  induction post as [|u post IH]; intros pre k t Hrun Hk Ht.
  { rewrite app_nil_r in Ht. apply lookup_lt_Some in Ht. lia. }
  rewrite wait_turn. assert (pre ++ u :: post = (pre ++ [u]) ++ post) as Ea by (by rewrite <- app_assoc).
  assert (length (pre ++ [u]) = S (length pre)) as El by (rewrite length_app; cbn; lia).
  destruct (decide (k = length pre)) as [-> | Hne].
  - rewrite list_lookup_middle in Ht by done. injection Ht as <-. rewrite take_app_length.
    assert (take (S (length pre)) (pre ++ u :: post) = pre ++ [u]) as -> by (rewrite Ea; by apply take_app_length').
    by assert (drop (S (length pre)) (pre ++ u :: post) = post) as -> by (rewrite Ea; by apply drop_app_length').
  - destruct (Hrun (length pre) u ltac:(lia) (list_lookup_middle _ _ _ _ eq_refl)) as [-> ->].
    rewrite Ea in *. apply IH; [done | lia | done].
Qed.

End Wait.

(** What a child that ended by itself leaves. *)
Definition ended_result (st : status) (out : list Z) : Z * exec_out :=
  match st with
  | Exited c => (PAS_SYS_OK, mkOut c 0 out)
  | Signaled s => (PAS_SYS_SIGNAL, mkOut (-1) s out)
  | OtherStatus => (PAS_SYS_ERROR, mkOut (-1) 0 out)
  end.

Definition kills (l : list syscall) : list syscall := List.filter (fun c => match c with SKill _ _ => true | _ => false end) l.
(** The descriptors that calls open and close. *)
Definition opens (l : list syscall) : list Z := flat_map (fun c => match c with SPipe r w => [r; w] | _ => [] end) l.
Definition closes (l : list syscall) : list Z := omap (fun c => match c with SClose fd => Some fd | _ => None end) l.

Lemma closes_app a b : closes (a ++ b) = closes a ++ closes b.
Proof. apply omap_app. Qed.
Lemma opens_app a b : opens (a ++ b) = opens a ++ opens b.
Proof. apply flat_map_app. Qed.
Lemma kills_app a b : kills (a ++ b) = kills a ++ kills b.
Proof. apply List.filter_app. Qed.
Lemma waiting_quiet child ts : closes (waiting child ts) = [] /\ opens (waiting child ts) = [] /\ kills (waiting child ts) = [].
Proof. induction ts as [| t ts IH]; [done |]. exact IH. Qed.
Lemma kill_quiet child k : closes (kill_child child k) = [] /\ opens (kill_child child k) = [].
Proof.
  assert (forall n, closes (replicate n (SWait child true)) = [] /\ opens (replicate n (SWait child true)) = []) as Hr by (induction n; [done | exact IHn]).
  unfold kill_child. destruct (Hr (S (eintrs k))) as [H1 H2]. destruct (term_group k), (gone k), (kill_group k); cbn [app]; by rewrite ?H1, ?H2.
Qed.

Lemma kill_order child k : exists a b, kills (kill_child child k) = SKill (- child) SIGTERM :: a ++ SKill (- child) SIGKILL :: b.
Proof.
  assert (forall n, kills (replicate n (SWait child true)) = []) as Hr by (induction n; [done | exact IHn]).
  unfold kill_child. exists (if term_group k then [] else [SKill child SIGTERM]), (if gone k || kill_group k then [] else [SKill child SIGKILL]).
  destruct (term_group k), (gone k), (kill_group k); cbn [app orb kills List.filter]; fold (kills (replicate (S (eintrs k)) (SWait child true))); by rewrite Hr.
Qed.

(** Everything that is opened is closed, whatever fails. *)
Lemma exec_descriptors h exe packed len tm ptrs cap r : pas_sys_exec h exe packed len tm ptrs cap = Ok r ->
  closes (parent_calls r) ≡ₚ opens (parent_calls r).
Proof.
  unfold pas_sys_exec. destruct exe as [exe |]; [| by intros [= <-]]. destruct packed as [packed |]; [| by intros [= <-]].
  destruct (_ || _); [by intros [= <-] |]. destruct (_ <? _)%nat; [done |]. destruct (negb (calloc_ok h)); [by intros [= <-] |].
  destruct (unpack_args _) as [[[n argv] |] |]; [| by intros [= <-] | done]. cbn [rbind].
  destruct (output_pipe h) as [[or ow] |]; [| by intros [= <-]]. destruct (exec_pipe h) as [[er ew] |]; [| by intros [= <-]].
  destruct (forked h) as [child |]; [| by intros [= <-]]. cbn [fst snd app].
  set (started := [_; _; _; _; _; _; _; _]).
  assert (forall ts dl out log st late_ out' log', wait_loop ts child cap tm dl (killing h) out log = Ok (st, late_, out', log') ->
    closes log' = closes log /\ opens log' = opens log) as Hw.
  { induction ts as [| t ts IH]; intros dl out log st late_ out' log' Hl; cbn [wait_loop] in Hl; [done |].
    assert (forall l, closes (l ++ [SWait child false]) = closes l /\ opens (l ++ [SWait child false]) = opens l) as Hs by (intros l; by rewrite closes_app, opens_app, !app_nil_r).
    assert (forall l, closes (l ++ [SPoll 10]) = closes l /\ opens (l ++ [SPoll 10]) = opens l) as Hs' by (intros l; by rewrite closes_app, opens_app, !app_nil_r).
    destruct (ended t); [injection Hl as _ _ _ <-; apply Hs |]. destruct (_ && _).
    - destruct (_ <=? _).
      + injection Hl as _ _ _ <-. destruct (kill_quiet child (killing h)) as [E1 E2]. rewrite closes_app, opens_app, E1, E2, !app_nil_r. apply Hs.
      + apply IH in Hl as [-> ->]. destruct (Hs' (log ++ [SWait child false])) as [-> ->]. apply Hs.
    - apply IH in Hl as [-> ->]. destruct (Hs' (log ++ [SWait child false])) as [-> ->]. apply Hs. }
  destruct (wait_loop _ _ _ _ _ _ _ _) as [[[[st late_] out] log] |] eqn:El; [| done]. cbn [rbind]. apply Hw in El as [Ec Eo].
  set (final := (log ++ _) ++ _). assert (closes final ≡ₚ opens final) as Hf.
  { unfold final. rewrite !closes_app, !opens_app, Ec, Eo. destruct late_; cbn; solve_Permutation. }
  destruct (negb _); [by intros [= <-] |]. destruct late_; [by intros [= <-] |]. by destruct st; intros [= <-].
Qed.

(** C23: a child process, when the two pipes, the fork and its execvp succeed. The child
    makes a process group of its own, has the pipe as standard output and standard error,
    and executes the program with exactly the packed arguments, after its name and before
    a NULL; no packed text makes the array overflow. When the child ends at a turn of the
    loop before its time is up, the result is how it ended, and nothing was killed; when
    its time is up first, counted from the first reading of the clock, its group is sent
    SIGTERM and after 200 ms SIGKILL, the child is waited for, and the result is a
    timeout, never earlier. In both cases the diagnostics are its output up to the size
    of the buffer, and all descriptors that were opened are closed. *)
Theorem exec_exact h exe args timeout_ms cap k t child out exec :
  0 <= timeout_ms -> 1 <= cap -> calloc_ok h = true -> output_pipe h = Some out -> exec_pipe h = Some exec -> forked h = Some child -> exec_errno h = 0 ->
  Forall (no_char 0) args -> running timeout_ms (turns h) k -> turns h !! k = Some t ->
  ended t <> None \/ late timeout_ms (turns h) k = true ->
  let text := take (Z.to_nat (cap - 1)) (outputs (take (S k) (turns h)) ++ concat (drained h)) in
  (forall packed, exists r, unpack_args packed = Ok r) /\
  exists r, pas_sys_exec h (Some exe) (Some (pack args)) (Z.of_nat (length (pack args))) timeout_ms true cap = Ok r /\
    child_calls r = Some [SSetpgid 0 0; SClose out.1; SClose exec.1; SDup2 out.2 1; SDup2 out.2 2; SClose out.2;
                          SExecvp (cstr exe) (Some (cstr exe) :: map Some args ++ [None])] /\
    closes (parent_calls r) ≡ₚ [out.1; out.2; exec.1; exec.2] /\
    match ended t with
    | Some st => (result r, stored r) = ((ended_result st text).1, Some (ended_result st text).2) /\ kills (parent_calls r) = []
    | None => result r = PAS_SYS_TIMEOUT /\ stored r = Some (mkOut (-1) 0 text) /\
        (exists a b, kills (parent_calls r) = SKill (- child) SIGTERM :: a ++ SKill (- child) SIGKILL :: b) /\ SWait child true ∈ parent_calls r
    end.
Proof.
  intros Htm Hcap Hc Hp Hx Hf He Ha Hrun Ht Hend text. split.
  { intros packed. destruct (packed_form packed) as (as_ & tail & -> & H1 & H2). eexists. by apply unpack_pack. }
  pose proof (unpack_pack args [] Ha (List.Forall_nil _)) as Eu. rewrite app_nil_r in Eu.
  pose proof (offsets_text exe args [] [] Ha) as Eo. cbn [app length] in Eo. rewrite app_nil_r in Eo.
  set (started := [SPipe out.1 out.2; SPipe exec.1 exec.2; SCloexec exec.2; SFork child; SSetpgid child child; SClose out.2; SClose exec.2; SBlocking out.1 false]).
  pose proof (wait_loop_at child cap timeout_ms (killing h) started Hcap Htm (turns h) [] k t Hrun ltac:(cbn; lia) Ht) as Ew.
  cbn [app first_clock map List.find deadline_of outputs waiting concat] in Ew. rewrite take_nil, app_nil_r in Ew.
  assert (forall r, pas_sys_exec h (Some exe) (Some (pack args)) (Z.of_nat (length (pack args))) timeout_ms true cap = Ok r ->
    opens (parent_calls r) = [out.1; out.2; exec.1; exec.2] -> closes (parent_calls r) ≡ₚ [out.1; out.2; exec.1; exec.2]) as Hperm.
  { intros r Er <-. by eapply exec_descriptors. }
  assert (child_side 0 exe (argv_text exe (pack args) (Some Executable :: offsets 0 args ++ [None])) out exec =
    [SSetpgid 0 0; SClose out.1; SClose exec.1; SDup2 out.2 1; SDup2 out.2 2; SClose out.2; SExecvp (cstr exe) (Some (cstr exe) :: map Some args ++ [None])]) as Hcs.
  { unfold child_side, argv_text. cbn [map option_map arg_text app Z.eqb]. rewrite map_app. unfold argv_text in Eo. by rewrite Eo. }
  destruct (waiting_quiet child (take k (turns h))) as (_ & W2 & W3). destruct (kill_quiet child (killing h)) as [_ K2].
  unfold pas_sys_exec in *. rewrite Nat2Z.id, (proj2 (Nat.ltb_ge _ _) (le_n _)), firstn_all, Hc, Hp, Hx, Hf, He, Eu in *.
  destruct (Z.ltb_spec (Z.of_nat (length (pack args))) 0), (Z.ltb_spec timeout_ms 0), (Z.ltb_spec cap 1); try lia. cbn [orb negb rbind Z.eqb app] in *. fold started in Hperm |- *.
  destruct (ended t) as [st |]; [| destruct Hend as [? | Hlate]; [done | rewrite Hlate in Ew]]; rewrite Ew in *; cbn [rbind] in *;
    rewrite append_diagnostics_spec in * by done; fold text in Hperm |- *; rewrite Hcs in *.
  - exists (mkResult (ended_result st text).1 (Some (ended_result st text).2) (((started ++ waiting child (take k (turns h)) ++ [SWait child false]) ++ [SBlocking out.1 true]) ++ [SClose out.1; SReadErrno exec.1; SClose exec.1])
      (Some [SSetpgid 0 0; SClose out.1; SClose exec.1; SDup2 out.2 1; SDup2 out.2 2; SClose out.2; SExecvp (cstr exe) (Some (cstr exe) :: map Some args ++ [None])])).
    split; [by destruct st |]. split; [done |]. split; [| split; [done |]].
    + apply Hperm; [by destruct st |]. cbn [parent_calls]. by rewrite !opens_app, W2.
    + cbn [parent_calls]. by rewrite !kills_app, W3.
  - eexists. split; [reflexivity |]. split; [done |]. split; [| split; [done |]; split; [done |]].
    + apply Hperm; [done |]. cbn [parent_calls]. by rewrite !opens_app, W2, K2.
    + cbn [parent_calls]. rewrite app_nil_r. split; [| unfold kill_child; destruct (gone (killing h)); set_solver].
      destruct (kill_order child (killing h)) as (a & b & Hk). exists a, b. by rewrite !kills_app, W3, Hk, app_nil_r.
Qed.

(** A child that writes, survives its first second of two and ends in time. *)
Definition quick_child : exec_host := mkExec true (Some (5, 6)) (Some (7, 8)) (Some 99)
  [mkTurn [[104; 105]] None (-1); mkTurn [] None 500; mkTurn [[33]] (Some (Exited 3)) 1500] (mkKill true true true 0 (Signaled 15)) [[46]] 0.

Lemma exec_exact_witness :
  exists r, pas_sys_exec quick_child (Some [115; 104; 0]) (Some (pack [[45; 99]; []])) 4 2000 true 4 = Ok r /\
    child_calls r = Some [SSetpgid 0 0; SClose 5; SClose 7; SDup2 6 1; SDup2 6 2; SClose 6; SExecvp [115; 104] [Some [115; 104]; Some [45; 99]; Some []; None]] /\
    result r = PAS_SYS_OK /\ stored r = Some (mkOut 3 0 [104; 105; 33]) /\ kills (parent_calls r) = [].
Proof.
  assert (running 2000 (turns quick_child) 2) as Hr.
  { intros j t Hj Hlk. destruct j as [|[|j]]; [| | lia]; cbn in Hlk; injection Hlk as <-; split; reflexivity. }
  assert (Forall (no_char 0) [[45; 99]; []]) as Ha.
  { apply List.Forall_cons; [| apply List.Forall_cons; apply List.Forall_nil].
    apply List.Forall_cons; [discriminate |]. apply List.Forall_cons; [discriminate | apply List.Forall_nil]. }
  destruct (proj2 (exec_exact quick_child [115; 104; 0] [[45; 99]; []] 2000 4 2 (mkTurn [[33]] (Some (Exited 3)) 1500) 99 (5, 6) (7, 8)
    ltac:(lia) ltac:(lia) eq_refl eq_refl eq_refl eq_refl eq_refl Ha Hr eq_refl ltac:(left; discriminate))) as (r & E & Hcs & _ & Hres & Hk).
  exists r. split; [exact E |]. split; [exact Hcs |]. injection Hres as H1 H2. split; [exact H1 |]. split; [exact H2 | exact Hk].
Defined.
