(* ===== verification/SysTree.v ===== *)
(** sysutil.c of runtime/, the part about directories: listing, temporary directories and
    the removal of a directory with everything in it. The file system is a set of inodes,
    the process a table of descriptors; every system call may fail. Removal touches
    nothing outside the directory, follows no symbolic link, keeps the descriptors of the
    process, says that it succeeded only when everything is gone, and succeeds when no
    call fails. *)

From Stdlib Require Import ZArith Ascii String Lia Permutation.
From stdpp Require Import base list strings gmap numbers.
From S2P Require Import Prelude Files Readers ReaderProps Net SysUtil.
#[local] Open Scope Z_scope.

(** * The file system *)

(** What an inode is; a symbolic link is modelled with the inode it leads to. *)
Inductive node := NDir (entries : list (string * nat)) | NFile | NLink (target : nat) | NOther.

(** The system calls, for the choice of those that fail. *)
Inductive syscall := SOpen | SDup | SFdopendir | SReaddir | SFstatat | SOpenat | SUnlinkat | SClosedir | SRmdir.

(** The inodes, what the descriptors of the process are open on, and the number of calls so far. *)
Record sys := mkSys { nodes : gmap nat node; fds : gmap Z nat; ncalls : nat }.

Fixpoint entry (n : string) (es : list (string * nat)) : option nat :=
  match es with
  | [] => None
  | (k, i) :: r => if String.eqb k n then Some i else entry n r
  end.
Definition without (n : string) (es : list (string * nat)) : list (string * nat) :=
  List.filter (fun e => negb (String.eqb (fst e) n)) es.

Definition is_dir (x : node) : bool := match x with NDir _ => true | _ => false end.
Definition is_dot (n : string) : bool := String.eqb n "." || String.eqb n "..".

(** An open directory: its descriptor and the names that are still to be read. *)
Abbreviation DIR := (Z * list string)%type.

Section Calls.

(** [ok c k]: whether call number [k], a [c], may succeed. [order]: the order in which a
    directory is read. *)
Context (ok : syscall -> nat -> bool) (order : list string -> list string).

Definition call (c : syscall) : ST sys bool := fun s =>
  Ok (ok c (ncalls s), mkSys (nodes s) (fds s) (S (ncalls s))).

(** A new descriptor for inode [i]. *)
Definition new_fd (i : nat) : ST sys Z := fun s =>
  let fd := fresh (dom (fds s) ∪ {[0; 1; 2]}) in
  Ok (fd, mkSys (nodes s) (<[fd := i]> (fds s)) (ncalls s)).
Definition close (fd : Z) : ST sys unit := fun s => Ok (tt, mkSys (nodes s) (delete fd (fds s)) (ncalls s)).

(** The entries of the directory that [fd] is open on. *)
Definition dir_of (s : sys) (fd : Z) : option (nat * list (string * nat)) :=
  match fds s !! fd with
  | Some i => match nodes s !! i with Some (NDir es) => Some (i, es) | _ => None end
  | None => None
  end.

(** The inode an entry names, through a symbolic link unless [nofollow]. *)
Definition walk (s : sys) (fd : Z) (name : string) (nofollow : bool) : option nat :=
  match dir_of s fd with
  | Some (_, es) =>
      match entry name es with
      | Some j => match nodes s !! j with
                  | Some (NLink t) => if nofollow then Some j else Some t
                  | _ => Some j
                  end
      | None => None
      end
  | None => None
  end.

Definition dup (fd : Z) : ST sys Z := fun s =>
  (let* b := call SDup in
   match fds s !! fd with Some i => if b then new_fd i else ret (-1) | None => ret (-1) end) s.

Definition fdopendir (fd : Z) : ST sys (option DIR) := fun s =>
  (let* b := call SFdopendir in
   match dir_of s fd with
   | Some (_, es) => ret (if b && (0 <=? fd) then Some (fd, order ("." :: ".." :: map fst es)) else None)
   | None => ret None
   end) s.
Definition closedir (d : DIR) : ST sys Z :=
  let* b := call SClosedir in do* close (fst d) in ret (if b then 0 else -1).

(** [fstatat]: whether the entry is a directory. *)
Definition fstatat (fd : Z) (name : string) (nofollow : bool) : ST sys (option node) := fun s =>
  (let* b := call SFstatat in
   match walk s fd name nofollow with Some j => ret (if b then nodes s !! j else None) | None => ret None end) s.

(** [openat] with O_DIRECTORY. *)
Definition openat (fd : Z) (name : string) (nofollow : bool) : ST sys Z := fun s =>
  (let* b := call SOpenat in
   match walk s fd name nofollow with
   | Some j => match nodes s !! j with
               | Some (NDir _) => if b then new_fd j else ret (-1)
               | _ => ret (-1)
               end
   | None => ret (-1)
   end) s.

(** [unlinkat]: a directory is removed with AT_REMOVEDIR and only when it is empty. *)
Definition unlink_entry (c : syscall) (i : nat) (es : list (string * nat)) (name : string) (removedir : bool) : ST sys Z := fun s =>
  (let* b := call c in
   match entry name es with
   | Some j =>
       let fits := match nodes s !! j with
                   | Some (NDir []) => removedir
                   | Some (NDir _) => false
                   | Some _ => negb removedir
                   | None => false
                   end in
       if b && fits then fun s => Ok (0, mkSys (<[i := NDir (without name es)]> (nodes s)) (fds s) (ncalls s)) else ret (-1)
   | None => ret (-1)
   end) s.
Definition unlinkat (fd : Z) (name : string) (removedir : bool) : ST sys Z := fun s =>
  match dir_of s fd with
  | Some (i, es) => unlink_entry SUnlinkat i es name removedir s
  | None => (do* call SUnlinkat in ret (-1)) s
  end.

(** * The removal of a tree *)

(** The loop of [remove_tree_fd]: [readdir] gives the next of [names]; when it fails the
    loop ends as at the end of the directory. *)
Fixpoint remove_entries (remove : Z -> ST sys Z) (fd : Z) (names : list string) : ST sys Z :=
  match names with
  | [] => do* call SReaddir in ret 0
  | name :: names' =>
      let* more := call SReaddir in
      if negb more then ret 0
      else if is_dot name then remove_entries remove fd names'
      else
        let* st := fstatat fd name true in
        match st with
        | None => ret (-1)
        | Some x =>
            if is_dir x then
              let* child := openat fd name true in
              if child <? 0 then ret (-1)
              else
                let* r := remove child in
                if negb (r =? 0) then do* close child in ret (-1)
                else
                  let* u := unlinkat fd name true in
                  if negb (u =? 0) then do* close child in ret (-1)
                  else do* close child in remove_entries remove fd names'
            else
              let* u := unlinkat fd name false in
              if negb (u =? 0) then ret (-1) else remove_entries remove fd names'
        end
  end.

(** [fuel] bounds the depth of the directory. *)
Fixpoint remove_tree_fd (fuel : nat) (fd : Z) : ST sys Z :=
  match fuel with
  | O => fail OutOfFuel
  | S f =>
      let* d := dup fd in
      let* dir := fdopendir d in
      match dir with
      | None => ret (-1)
      | Some dir =>
          let* result := remove_entries (remove_tree_fd f) fd (snd dir) in
          let* c := closedir dir in
          ret (if negb (c =? 0) then -1 else result)
      end
  end.

(** The path is the entry [name] of the directory [i]. *)
Definition open_path (i : nat) (name : string) : ST sys Z := fun s =>
  (let* b := call SOpen in
   match nodes s !! i with
   | Some (NDir es) =>
       match entry name es with
       | Some j => match nodes s !! j with
                   | Some (NDir _) => if b then new_fd j else ret (-1)      (* O_DIRECTORY and O_NOFOLLOW *)
                   | _ => ret (-1)
                   end
       | None => ret (-1)
       end
   | _ => ret (-1)
   end) s.
Definition rmdir (i : nat) (name : string) : ST sys Z := fun s =>
  match nodes s !! i with
  | Some (NDir es) => unlink_entry SRmdir i es name true s
  | _ => (do* call SRmdir in ret (-1)) s
  end.

Definition pas_sys_remove_tree (fuel : nat) (i : nat) (name : string) : ST sys Z :=
  let* fd := open_path i name in
  if fd <? 0 then ret (-1)
  else
    let* result := remove_tree_fd fuel fd in
    do* close fd in
    if negb (result =? 0) then ret (-1) else rmdir i name.

End Calls.

(** * Trees *)

(** A directory and what is below it; a leaf is anything else. *)
Inductive tree := Leaf (i : nat) | Sub (i : nat) (es : list (string * tree)).

Definition root (t : tree) : nat := match t with Leaf i => i | Sub i _ => i end.
Fixpoint dirs (t : tree) : list nat :=
  match t with
  | Leaf _ => []
  | Sub i es => i :: flat_map (fun e => dirs (snd e)) es
  end.
Fixpoint height (t : tree) : nat :=
  match t with
  | Leaf _ => 0
  | Sub _ es => S (list_max (map (fun e => height (snd e)) es))
  end.
(** The names of a directory are distinct and not those of the directory and its parent. *)
Fixpoint named (t : tree) : Prop :=
  match t with
  | Leaf _ => True
  | Sub _ es => NoDup (map fst es) /\ Forall (fun n => is_dot n = false) (map fst es) /\ foldr and True (map (fun e => named (snd e)) es)
  end.

Definition links (es : list (string * tree)) : list (string * nat) := map (fun e => (fst e, root (snd e))) es.
Fixpoint models (m : gmap nat node) (t : tree) : Prop :=
  match t with
  | Leaf i => exists x, m !! i = Some x /\ is_dir x = false
  | Sub i es => m !! i = Some (NDir (links es)) /\ foldr and True (map (fun e => models m (snd e)) es)
  end.

(** Everything below is gone: the directories hold nothing. *)
Definition gone (m : gmap nat node) (t : tree) : Prop := forall i, i ∈ dirs t -> m !! i = Some (NDir []).

(** Directories of a list of entries. *)
Definition subdirs (es : list (string * tree)) : list nat := flat_map (fun e => dirs (snd e)) es.

Lemma foldr_and {A} (P : A -> Prop) (l : list A) : foldr and True (map P l) <-> forall x, x ∈ l -> P x.
Proof.
  induction l as [| x l IH]; cbn; [set_solver |]. rewrite IH. split.
  - intros [Hx Hl] y Hy. apply elem_of_cons in Hy as [-> | Hy]; auto.
  - intros H. split; [apply H; set_solver | intros y Hy; apply H; set_solver].
Qed.

Lemma elem_of_subdirs i es : i ∈ subdirs es <-> exists e, e ∈ es /\ i ∈ dirs (snd e).
Proof.
  unfold subdirs. rewrite list_elem_of_In, in_flat_map.
  split; intros (e & He & Hi); exists e; split; by apply list_elem_of_In.
Qed.

Lemma height_below i es e n : e ∈ es -> (height (Sub i es) <= S n)%nat -> (height (snd e) <= n)%nat.
Proof.
  cbn. intros He Hn. assert (list_max (map (fun e => height (snd e)) es) <= n)%nat as Hm by lia.
  rewrite list_max_le, Forall_map, Forall_forall in Hm. by apply Hm, list_elem_of_In.
Qed.

(** Writing to directories elsewhere keeps a tree. *)
Lemma models_frame m m' t : models m t -> (forall i, i ∈ dirs t -> m' !! i = m !! i) ->
  (forall i x, m !! i = Some x -> is_dir x = false -> m' !! i = Some x) -> models m' t.
Proof.
  revert t. fix IH 1. intros [i | i es]; cbn; intros Hm Hd Hl.
  - destruct Hm as (x & Hx & Hn). exists x. auto.
  - destruct Hm as [Hi Hes]. split; [rewrite Hd by set_solver; done |].
    assert (forall j, j ∈ subdirs es -> m' !! j = m !! j) as Hs by (intros j Hj; apply Hd; set_solver). clear Hi Hd.
    induction es as [| [n t] es IHes]; [done |]. cbn in Hes |- *. destruct Hes as [Ht Hes].
    split; [apply IH; [done | | done] | apply IHes; [done |]]; intros j Hj; apply Hs; cbn; set_solver.
Qed.

Lemma models_dirs m t i x : models m t -> i ∈ dirs t -> m !! i = Some x -> is_dir x = true.
Proof.
  revert t i x. fix IH 1. intros [j | j es] i x; cbn; [set_solver |]. intros [Hj Hes] Hi Hx.
  apply elem_of_cons in Hi as [-> | Hi]; [rewrite Hj in Hx; by injection Hx as <- |]. clear Hj.
  induction es as [| [n t] es IHes]; cbn in Hi, Hes; [set_solver |]. destruct Hes as [Ht Hes].
  apply elem_of_app in Hi as [Hi | Hi]; [by apply (IH t i x) | by apply IHes].
Qed.

(** Entries by name. *)
Lemma entry_links es n t : NoDup (map fst es) -> (n, t) ∈ es -> entry n (links es) = Some (root t).
Proof.
  induction es as [| [k u] es IH]; cbn; [set_solver |]. intros [Hk Hn]%list.NoDup_cons Hin.
  apply elem_of_cons in Hin as [[= <- <-] | Hin]; [by rewrite String.eqb_refl |].
  destruct (String.eqb_spec k n) as [-> | Hne]; [| auto]. destruct Hk. apply list_elem_of_fmap. by exists (n, t).
Qed.

Lemma names_distinct (es : list (string * tree)) n t u : NoDup (map fst es) -> (n, t) ∈ es -> (n, u) ∈ es -> t = u.
Proof.
  induction es as [| [k v] es IH]; [set_solver |]. cbn. intros [Hk Hn]%list.NoDup_cons Ht Hu.
  assert (forall w, (k, w) ∈ es -> False) as Hno by (intros w Hw; apply Hk, list_elem_of_fmap; by exists (k, w)).
  apply elem_of_cons in Ht as [Et | Ht]; apply elem_of_cons in Hu as [Eu | Hu]; simplify_eq; [done | | | by apply IH];
    exfalso; by eapply Hno.
Qed.

Definition drop_name (n : string) (es : list (string * tree)) : list (string * tree) :=
  List.filter (fun e => negb (String.eqb (fst e) n)) es.
Lemma without_links n es : without n (links es) = links (drop_name n es).
Proof.
  unfold without, drop_name. induction es as [| [k t] es IH]; cbn [links map List.filter fst]; [done |].
  destruct (String.eqb k n); cbn; unfold links in IH; by rewrite IH.
Qed.
Lemma elem_of_drop_name e n es : e ∈ drop_name n es <-> e ∈ es /\ fst e <> n.
Proof.
  unfold drop_name. rewrite !list_elem_of_In, filter_In. destruct (String.eqb_spec (fst e) n) as [E | E]; cbn; split; naive_solver.
Qed.
Lemma drop_name_sub n es : drop_name n es `sublist_of` es.
Proof. induction es as [| [k t] es IH]; cbn; [done |]. destruct (negb _); [by apply sublist_skip | by apply sublist_cons]. Qed.

Lemma subdirs_disjoint es e e' i : NoDup (subdirs es) -> e ∈ es -> e' ∈ es -> e <> e' -> i ∈ dirs (snd e) -> i ∉ dirs (snd e').
Proof.
  induction es as [| a es IH]; [set_solver |]. intros (Ha & Hd & Hn)%list.NoDup_app He He' Hne Hi Hi'.
  apply elem_of_cons in He as [-> | He]; apply elem_of_cons in He' as [-> | He']; [done | | |].
  - apply (Hd i Hi), elem_of_subdirs. eauto.
  - apply (Hd i Hi'), elem_of_subdirs. eauto.
  - by apply (IH Hn He He').
Qed.

Lemma subdirs_drop n es : subdirs (drop_name n es) `sublist_of` subdirs es.
Proof.
  induction es as [| [k t] es IH]; cbn; [done |]. destruct (negb _); cbn; [by apply sublist_app |].
  by apply sublist_inserts_l.
Qed.

Lemma links_nil es : links es = [] -> es = [].
Proof. by destruct es. Qed.

(** The tree below entries [es] of directory [i], in a state. *)
Record below (m : gmap nat node) (i : nat) (es : list (string * tree)) (n : nat) : Prop := {
  b_here : m !! i = Some (NDir (links es));
  b_models : forall e, e ∈ es -> models m (snd e);
  b_dirs : NoDup (i :: subdirs es);
  b_names : NoDup (map fst es);
  b_dots : Forall (fun n => is_dot n = false) (map fst es);
  b_named : forall e, e ∈ es -> named (snd e);
  b_height : forall e, e ∈ es -> (height (snd e) <= n)%nat
}.

Lemma below_intro m i es n : models m (Sub i es) -> named (Sub i es) -> NoDup (dirs (Sub i es)) ->
  (height (Sub i es) <= S n)%nat -> below m i es n.
Proof.
  intros [Hi Hm] (Hn & Hd & Hns) Hdirs Hh. split; try done.
  - by apply (foldr_and (fun e => models m (snd e))).
  - by apply (foldr_and (fun e => named (snd e))).
  - intros e He. by apply (height_below i es).
Qed.

(** One entry less, and other directories written to. *)
Lemma below_drop m m' i es n name t : below m i es n -> (name, t) ∈ es ->
  (forall j, j ∉ dirs t -> j <> i -> m' !! j = m !! j) ->
  (forall j x, j ∈ dirs t -> m !! j = Some x -> is_dir x = true) ->
  m' !! i = Some (NDir (links (drop_name name es))) -> below m' i (drop_name name es) n.
Proof.
  intros [Hi Hm Hd Hn Hdots Hns Hh] Ht Hj Hdir Hi'. pose proof (drop_name_sub name es) as Hsub.
  assert (forall e, e ∈ drop_name name es -> e ∈ es) as Hin by (intros e He; by eapply elem_of_sublist).
  split; [done | | | | | auto | auto].
  - intros e He. apply (models_frame m).
    + auto.
    + intros j Hje. apply list.NoDup_cons in Hd as [Hni Hd]. apply Hj.
      * apply (subdirs_disjoint es e (name, t)); auto. apply elem_of_drop_name in He as [_ He]. by intros ->.
      * intros ->. apply Hni, elem_of_subdirs. eauto.
    + intros j x Hx Hnd. rewrite Hj; [done | |].
      * intros Hjt. rewrite (Hdir j x Hjt Hx) in Hnd. done.
      * intros ->. rewrite Hi in Hx. by injection Hx as <-.
  - eapply sublist_NoDup; [exact Hd | apply sublist_skip, subdirs_drop].
  - eapply sublist_NoDup; [exact Hn | by apply (fmap_sublist fst)].
  - rewrite list.Forall_forall in Hdots |- *. intros k Hk. apply Hdots. eapply elem_of_sublist; [exact Hk | by apply (fmap_sublist fst)].
Qed.

(** * Removal *)

Definition bump (s : sys) : sys := mkSys (nodes s) (fds s) (S (ncalls s)).
Definition with_fd (fd : Z) (i : nat) (s : sys) : sys := mkSys (nodes s) (<[fd := i]> (fds s)) (ncalls s).
Definition with_node (i : nat) (x : node) (s : sys) : sys := mkSys (<[i := x]> (nodes s)) (fds s) (ncalls s).

(** A descriptor that was not open. *)
Definition free_fd (s : sys) : Z := fresh (dom (fds s) ∪ {[0; 1; 2]}).
Lemma free_fd_None s : fds s !! free_fd s = None.
Proof. pose proof (is_fresh (dom (fds s) ∪ {[0; 1; 2]})) as H. apply not_elem_of_dom. unfold free_fd. set_solver. Qed.
Lemma free_fd_nonneg s : (free_fd s <? 0) = false.
Proof.
  apply Z.ltb_ge. unfold free_fd, fresh, set_fresh, fresh, infinite_fresh. cbn.
  induction (elements (dom (fds s) ∪ {[0; 1; 2]})) as [| x l IH]; cbn; lia.
Qed.

Section Removal.
Context (ok : syscall -> nat -> bool) (order : list string -> list string)
  (order_perm : forall l, Permutation (order l) l).

(** The calls of the loop on an entry of the directory that [fd] is open on. *)
Section Entry.
Context (s : sys) (fd : Z) (i : nat) (es : list (string * tree)) (name : string) (t : tree) (x : node).
Context (Hfd : fds s !! fd = Some i) (Hi : nodes s !! i = Some (NDir (links es))) (Hn : NoDup (map fst es))
  (Ht : (name, t) ∈ es) (Hx : nodes s !! root t = Some x).

Lemma dir_of_at : dir_of s fd = Some (i, links es).
Proof using Hfd Hi. unfold dir_of. by rewrite Hfd, Hi. Qed.

Lemma walk_at : walk s fd name true = Some (root t).
Proof using Hfd Hi Hn Ht Hx. unfold walk. rewrite dir_of_at, (entry_links es name t Hn Ht), Hx. by destruct x. Qed.

Lemma fstatat_at : fstatat ok fd name true s = Ok (if ok SFstatat (ncalls s) then Some x else None, bump s).
Proof using Hfd Hi Hn Ht Hx. unfold fstatat. rewrite walk_at. unfold bind, call, ret. by rewrite Hx. Qed.

Lemma openat_at : openat ok fd name true s =
  if is_dir x && ok SOpenat (ncalls s) then Ok (free_fd s, bump (with_fd (free_fd s) (root t) s)) else Ok (-1, bump s).
Proof using Hfd Hi Hn Ht Hx.
  unfold openat. rewrite walk_at. unfold bind, call. rewrite Hx. destruct x; try done. by destruct (ok SOpenat _).
Qed.

Lemma unlinkat_at removedir : unlinkat ok fd name removedir s =
  if ok SUnlinkat (ncalls s) && match x with NDir [] => removedir | NDir _ => false | _ => negb removedir end
  then Ok (0, bump (with_node i (NDir (links (drop_name name es))) s)) else Ok (-1, bump s).
Proof using Hfd Hi Hn Ht Hx.
  unfold unlinkat. rewrite dir_of_at. unfold unlink_entry, bind, call. rewrite (entry_links es name t Hn Ht), Hx, without_links.
  destruct (ok SUnlinkat (ncalls s)) eqn:E; cbn [andb]; [| by destruct x as [[] | | |], removedir].
  by destruct x as [[] | | |], removedir.
Qed.
End Entry.

(** What the removal of the entries of [i] does: only the directories below change; no
    descriptor of the process is lost, and none is left behind unless [fdopendir] fails;
    an entry is still there or everything below it is gone. *)
Definition all_ok : Prop := forall c k, ok c k = true.
Definition no_leak : Prop := forall k, ok SFdopendir k = true.
Definition outcome (i : nat) (es : list (string * tree)) (s s' : sys) : Prop :=
  (forall j, j <> i -> j ∉ subdirs es -> nodes s' !! j = nodes s !! j) /\
  fds s ⊆ fds s' /\ (no_leak -> fds s' = fds s).
Definition left_over (i : nat) (es es' : list (string * tree)) (s' : sys) : Prop :=
  nodes s' !! i = Some (NDir (links es')) /\ es' `sublist_of` es /\
  forall e, e ∈ es -> e ∈ es' \/ gone (nodes s') (snd e).

(** The specification of the removal below an open directory. *)
Definition removes (n : nat) (remove : Z -> ST sys Z) : Prop := forall i es fd s,
  below (nodes s) i es n -> fds s !! fd = Some i ->
  exists r s' es', remove fd s = Ok (r, s') /\ outcome i es s s' /\ left_over i es es' s' /\
    (all_ok -> r = 0 /\ es' = []).

Lemma outcome_refl i es s s' : nodes s' = nodes s -> fds s' = fds s -> outcome i es s s'.
Proof using. unfold outcome. intros -> ->. done. Qed.
Lemma left_over_refl i es s : nodes s !! i = Some (NDir (links es)) -> left_over i es es s.
Proof using. intros Hs. split; [done |]. split; [done |]. auto. Qed.

(** The rest of the loop, after the entry [name] was removed with everything below it. *)
Lemma after_entry i es name t s s1 s2 es' n : below (nodes s) i es n -> (name, t) ∈ es ->
  (forall j, j <> i -> j ∉ dirs t -> nodes s1 !! j = nodes s !! j) -> fds s ⊆ fds s1 -> (no_leak -> fds s1 = fds s) ->
  gone (nodes s1) t -> outcome i (drop_name name es) s1 s2 -> left_over i (drop_name name es) es' s2 ->
  outcome i es s s2 /\ left_over i es es' s2.
Proof using.
  intros Hb Ht Hj1 Hf1 Hl1 Hg (Hj2 & Hf2 & Hl2) (Hi' & Hsub & Hes').
  pose proof (b_dirs _ _ _ _ Hb) as Hd. apply list.NoDup_cons in Hd as [Hni Hd].
  assert (forall j, j ∈ subdirs (drop_name name es) -> j ∈ subdirs es) as Hin.
  { intros j Hj. eapply elem_of_sublist; [exact Hj | apply subdirs_drop]. }
  split; [split; [| split] | split; [| split]].
  - intros j Hji Hjd. rewrite Hj2, Hj1; [done | done | | done |].
    + intros Hjt. apply Hjd, elem_of_subdirs. eauto.
    + intros Hj. by apply Hjd, Hin.
  - by etrans.
  - intros H0. rewrite Hl2, Hl1; done.
  - done.
  - etrans; [exact Hsub | apply drop_name_sub].
  - intros e He. destruct (decide (fst e = name)) as [Hn | Hn].
    + right. assert (e = (name, t)) as ->.
      { destruct e as [k u]. cbn in Hn. subst k. f_equal. by eapply names_distinct; [apply (b_names _ _ _ _ Hb) | |]. }
      intros j Hj. rewrite Hj2; [by apply Hg | |].
      * intros ->. apply Hni, elem_of_subdirs. eauto.
      * intros (e & He' & Hje)%elem_of_subdirs. apply elem_of_drop_name in He' as [He' Hne].
        apply (subdirs_disjoint es e (name, t) j); auto. by intros ->.
    + apply Hes', elem_of_drop_name. done.
Qed.

(** A result of the loop: [names] are those that were to be removed. *)
Definition loop_result (i : nat) (es : list (string * tree)) (names : list string) (s : sys) (m : res (Z * sys)) : Prop :=
  exists r s' es', m = Ok (r, s') /\ outcome i es s s' /\ left_over i es es' s' /\
    (all_ok -> r = 0 /\ forall e, e ∈ es' -> fst e ∉ names).

(** The loop stops with what is there. *)
Lemma stops i es names s s' r n : below (nodes s) i es n -> nodes s' = nodes s -> fds s' = fds s -> ~ all_ok ->
  loop_result i es names s (Ok (r, s')).
Proof using.
  intros Hb Hn Hf Hno. exists r, s', es. split; [done |]. split; [by apply outcome_refl |].
  split; [apply left_over_refl; rewrite Hn; apply Hb | done].
Qed.

(** The loop goes on after the entry [name]. *)
Lemma goes_on i es name t names s s1 m n : below (nodes s) i es n -> (name, t) ∈ es ->
  (forall j, j <> i -> j ∉ dirs t -> nodes s1 !! j = nodes s !! j) -> fds s ⊆ fds s1 -> (no_leak -> fds s1 = fds s) ->
  gone (nodes s1) t -> loop_result i (drop_name name es) names s1 m -> loop_result i es (name :: names) s m.
Proof using.
  intros Hb Ht Hj Hf Hl Hg (r & s' & es' & -> & Ho & Hlo & Hok). exists r, s', es'. split; [done |].
  destruct (after_entry i es name t s s1 s' es' n Hb Ht Hj Hf Hl Hg Ho Hlo) as [Ho' Hlo']. split; [done |]. split; [done |].
  intros Hall. destruct (Hok Hall) as [-> Hr]. split; [done |]. intros e He Hin. apply elem_of_cons in Hin as [Hin | Hin]; [| by apply (Hr e)].
  destruct Hlo as (_ & Hsub & _). assert (e ∈ drop_name name es) as Hd by (by eapply elem_of_sublist).
  apply elem_of_drop_name in Hd. naive_solver.
Qed.

(** A file, a link or the like. *)
Lemma leaf_entry fd i es name j x names s s1 n (Hb : below (nodes s) i es n) (Ht : (name, Leaf j) ∈ es)
  (Hfd : fds s !! fd = Some i) (Hx : nodes s !! j = Some x) (Hd : is_dir x = false)
  (Hn1 : nodes s1 = nodes s) (Hf1 : fds s1 = fds s)
  (k : ST sys Z) (Hk : forall s2, below (nodes s2) i (drop_name name es) n -> fds s2 = fds s ->
     loop_result i (drop_name name es) names s2 (k s2)) :
  loop_result i es (name :: names) s ((let* u := unlinkat ok fd name false in if negb (u =? 0) then ret (-1) else k) s1).
Proof using.
  unfold bind. rewrite (unlinkat_at s1 fd i es name (Leaf j) x) by (rewrite ?Hn1, ?Hf1; first [done | apply Hb]).
  destruct (ok SUnlinkat (ncalls s1)) eqn:Eo; cbn [andb].
  2:{ eapply stops; [exact Hb | done | done |]. intros Hall. by rewrite Hall in Eo. }
  destruct x as [es0 | | |]; try done; cbn [negb Z.eqb].
  all: match goal with |- loop_result _ _ _ _ (_ ?s2) => apply (goes_on i es name (Leaf j) names s s2 _ n Hb Ht) end; [cbn; intros q Hq _; by rewrite lookup_insert_ne, Hn1 by done
    | cbn; by rewrite Hf1 | cbn; by rewrite Hf1 | by intros q Hq%elem_of_nil | apply Hk; [cbn | cbn; by rewrite Hf1]].
  all: rewrite Hn1; apply (below_drop (nodes s) _ i es n name (Leaf j)); [done | done | | by intros q y Hq%elem_of_nil | by rewrite lookup_insert_eq];
    intros q _ Hq; by rewrite lookup_insert_ne.
Qed.

(** The descriptor of a child that was opened and closed again. *)
Lemma fds_closed (child : Z) (c : nat) (f f' : gmap Z nat) : f !! child = None -> <[child := c]> f ⊆ f' ->
  f ⊆ delete child f' /\ (f' = <[child := c]> f -> delete child f' = f).
Proof using.
  intros Hc Hf. split.
  - apply map_subseteq_spec. intros k v Hk. destruct (decide (k = child)) as [-> | Hne]; [congruence |].
    rewrite lookup_delete_ne by done. eapply lookup_weaken; [| exact Hf]. by rewrite lookup_insert_ne.
  - intros ->. by apply delete_insert_id.
Qed.

Lemma dirs_distinct es e : NoDup (subdirs es) -> e ∈ es -> NoDup (dirs (snd e)).
Proof using.
  induction es as [| a es IH]; [by intros _ He%elem_of_nil |]. intros (Ha & _ & Hn)%list.NoDup_app He.
  apply elem_of_cons in He as [-> | He]; auto.
Qed.

Lemma below_child m i es n name j es2 : below m i es n -> (name, Sub j es2) ∈ es -> exists n', n = S n' /\ below m j es2 n'.
Proof using.
  intros Hb Ht. pose proof (b_height _ _ _ _ Hb _ Ht) as Hh. destruct n as [| n']; [cbn in Hh; lia |]. exists n'. split; [done |].
  apply below_intro; [apply (b_models _ _ _ _ Hb _ Ht) | apply (b_named _ _ _ _ Hb _ Ht) | | done].
  apply (dirs_distinct es (name, Sub j es2)); [| done]. pose proof (b_dirs _ _ _ _ Hb) as Hd. by apply list.NoDup_cons in Hd as [_ Hd].
Qed.

(** The removal of a child changed only what is below it. *)
Lemma child_dirs i es n m name t : below m i es n -> (name, t) ∈ es -> i ∉ dirs t /\ forall q, q ∈ dirs t -> q ∈ subdirs es.
Proof using.
  intros Hb Ht. assert (forall q, q ∈ dirs t -> q ∈ subdirs es) as Hin by (intros q Hq; apply elem_of_subdirs; eauto).
  split; [| done]. pose proof (b_dirs _ _ _ _ Hb) as Hd. apply list.NoDup_cons in Hd as [Hd _]. auto.
Qed.

(** A directory. *)
Lemma dir_entry fd i es name j es2 names s s1 n remove (Hb : below (nodes s) i es n) (Ht : (name, Sub j es2) ∈ es)
  (Hfd : fds s !! fd = Some i) (Hn1 : nodes s1 = nodes s) (Hf1 : fds s1 = fds s)
  (Hrem : forall n', n = S n' -> removes n' remove)
  (k : ST sys Z) (Hk : forall s2, below (nodes s2) i (drop_name name es) n -> fds s ⊆ fds s2 ->
     loop_result i (drop_name name es) names s2 (k s2)) :
  loop_result i es (name :: names) s
    ((let* child := openat ok fd name true in
      if child <? 0 then ret (-1)
      else let* r := remove child in
           if negb (r =? 0) then do* close child in ret (-1)
           else let* u := unlinkat ok fd name true in
                if negb (u =? 0) then do* close child in ret (-1) else do* close child in k) s1).
Proof using.
  pose proof (b_models _ _ _ _ Hb _ Ht) as Hm. cbn [snd models] in Hm. destruct Hm as [Hj Hm].
  unfold bind at 1. rewrite (openat_at s1 fd i es name (Sub j es2) (NDir (links es2))) by (rewrite ?Hn1, ?Hf1; first [done | apply Hb]).
  cbn [is_dir andb root]. destruct (ok SOpenat (ncalls s1)) eqn:Eo.
  2:{ cbn. eapply stops; [exact Hb | done | done |]. intros Hall. by rewrite Hall in Eo. }
  rewrite free_fd_nonneg. pose proof (free_fd_None s1) as Hnew. set (child := free_fd s1) in *. clearbody child. rewrite Hf1 in Hnew.
  destruct (below_child (nodes s) i es n name j es2 Hb Ht) as (n' & -> & Hb2).
  destruct (child_dirs i es (S n') (nodes s) name (Sub j es2) Hb Ht) as [Hni Hsub].
  set (s2 := bump (with_fd child j s1)).
  destruct (Hrem n' eq_refl j es2 child s2) as (r & s3 & es3 & E & (Ho1 & Ho2 & Ho3) & (Hl1 & Hl2 & Hl3) & Hok);
    [cbn; by rewrite Hn1 | cbn; by rewrite lookup_insert_eq |]. unfold bind at 1. rewrite E. cbn [s2 bump with_fd nodes fds] in Ho1, Ho2, Ho3.
  rewrite Hn1 in Ho1. rewrite Hf1 in Ho2, Ho3. destruct (fds_closed child j (fds s) (fds s3) Hnew Ho2) as [Hcl1 Hcl2].
  assert (forall q, q ∉ dirs (Sub j es2) -> nodes s3 !! q = nodes s !! q) as Hout.
  { intros q Hq. cbn in Hq. apply not_elem_of_cons in Hq as [Hq1 Hq2]. by apply Ho1. }
  assert (nodes s3 !! i = Some (NDir (links es))) as Hi3 by (rewrite Hout by done; apply Hb).
  assert (forall s', nodes s' = nodes s3 -> fds s' = delete child (fds s3) -> ~ all_ok -> loop_result i es (name :: names) s (Ok (-1, s'))) as Hstop.
  { intros s' Hn' Hf' Hno. exists (-1), s', es. split; [done |]. split; [| split; [apply left_over_refl; by rewrite Hn' | done]].
    split; [intros q _ Hq; rewrite Hn'; apply Hout; auto |]. rewrite Hf'. split; [done |]. intros Hl. apply Hcl2. by apply Ho3. }
  destruct (Z.eqb_spec r 0) as [-> | Hr]; cbn [negb].
  2:{ apply Hstop; [done | done |]. intros Hall. by destruct (Hok Hall). }
  unfold bind at 1. rewrite (unlinkat_at s3 fd i es name (Sub j es2) (NDir (links es3))); try done; [| | apply Hb].
  2:{ eapply lookup_weaken; [| exact Ho2]. rewrite lookup_insert_ne; [done | congruence]. }
  destruct (ok SUnlinkat (ncalls s3)) eqn:Eu; cbn [andb].
  2:{ cbn. apply Hstop; [done | done |]. intros Hall. by rewrite Hall in Eu. }
  destruct (links es3) as [| l0 lr] eqn:El; cbn [negb Z.eqb].
  2:{ cbn. apply Hstop; [done | done |]. intros Hall. destruct (Hok Hall) as [_ ->]. done. }
  apply links_nil in El as ->. unfold bind, close. cbn [bump with_node nodes fds ncalls].
  match goal with |- loop_result _ _ _ _ (_ ?s5) => apply (goes_on i es name (Sub j es2) names s s5 _ (S n') Hb Ht) end.
  - cbn. intros q Hq Hqd. rewrite lookup_insert_ne by done. by apply Hout.
  - done.
  - intros Hl. apply Hcl2. by apply Ho3.
  - intros q Hq. cbn. rewrite lookup_insert_ne by (intros ->; done). cbn in Hq. apply elem_of_cons in Hq as [-> | Hq]; [done |].
    apply elem_of_subdirs in Hq as (e & He & Hq). destruct (Hl3 e He) as [Hn0%elem_of_nil | Hg]; [done | by apply Hg].
  - apply Hk; [| done]. cbn. apply (below_drop (nodes s) _ i es (S n') name (Sub j es2)); [done | done | | | by rewrite lookup_insert_eq].
    + intros q Hq Hqi. rewrite lookup_insert_ne by done. by apply Hout.
    + intros q x Hq Hx. eapply models_dirs; [apply (b_models _ _ _ _ Hb _ Ht) | done | done].
Qed.
Lemma loop_result_names i es names names' s m : (forall e, e ∈ es -> fst e ∈ names' -> fst e ∈ names) ->
  loop_result i es names s m -> loop_result i es names' s m.
Proof using.
  intros Hn (r & s' & es' & -> & Ho & Hlo & Hok). exists r, s', es'. split; [done |]. split; [done |]. split; [done |].
  intros Hall. destruct (Hok Hall) as [-> Hr]. split; [done |]. intros e He Hin. apply (Hr e He), Hn; [| done].
  destruct Hlo as (_ & Hsub & _). by eapply elem_of_sublist.
Qed.

Lemma loop_result_start i es names s s1 m : nodes s1 = nodes s -> fds s1 = fds s ->
  loop_result i es names s1 m -> loop_result i es names s m.
Proof using. unfold loop_result, outcome. intros -> ->. done. Qed.

Lemma remove_entries_spec n remove fd i : (forall n', n = S n' -> removes n' remove) -> forall names s es,
  below (nodes s) i es n -> fds s !! fd = Some i -> NoDup names ->
  (forall k, k ∈ names -> is_dot k = false -> k ∈ map fst es) ->
  loop_result i es names s (remove_entries ok remove fd names s).
Proof using.
  intros Hrem. induction names as [| name names IH]; intros s es Hb Hfd Hnd Hin.
  { exists 0, (bump s), es. split; [done |]. split; [by apply outcome_refl |].
    split; [apply left_over_refl; apply Hb |]. intros _. split; [done |]. by intros e _ He%elem_of_nil. }
  cbn [remove_entries]. unfold bind at 1, call at 1. destruct (ok SReaddir (ncalls s)) eqn:Er; cbn [negb].
  2:{ eapply stops; [exact Hb | done | done |]. intros Hall. by rewrite Hall in Er. }
  apply list.NoDup_cons in Hnd as [Hname Hnd]. fold (bump s). destruct (is_dot name) eqn:Ed.
  { eapply loop_result_names; [| apply (loop_result_start i es names s (bump s)); [done | done |]; apply IH; try done].
    - intros e He Hn. apply elem_of_cons in Hn as [Hn | Hn]; [| done]. pose proof (b_dots _ _ _ _ Hb) as Hd.
      rewrite list.Forall_forall in Hd. specialize (Hd name). rewrite Ed in Hd. discriminate Hd. rewrite <- Hn. by apply list_elem_of_fmap_2.
    - intros k Hk. apply Hin. by apply elem_of_cons; right. }
  assert (exists t, (name, t) ∈ es) as [t Ht].
  { specialize (Hin name). apply list_elem_of_fmap in Hin as ([k t] & -> & Ht); [by exists t | by apply elem_of_cons; left | done]. }
  assert (forall k, k ∈ names -> is_dot k = false -> k ∈ map fst (drop_name name es)) as Hin'.
  { intros k Hk Hdk. specialize (Hin k). apply list_elem_of_fmap in Hin as (e & -> & He); [| by apply elem_of_cons; right | done].
    apply list_elem_of_fmap_2. apply elem_of_drop_name. split; [done |]. by intros E; rewrite E in Hk. }
  assert (exists x, nodes s !! root t = Some x /\ is_dir x = match t with Leaf _ => false | Sub _ _ => true end) as (x & Hx & Hdx).
  { pose proof (b_models _ _ _ _ Hb _ Ht) as Hm. destruct t as [j | j es2]; cbn in Hm |- *; [by destruct Hm as (x & ? & ?); exists x |].
    destruct Hm as [Hm _]. by eexists. }
  unfold bind at 1. rewrite (fstatat_at (bump s) fd i es name t x) by (cbn; first [done | apply Hb]).
  destruct (ok SFstatat (ncalls (bump s))) eqn:Es.
  2:{ eapply stops; [exact Hb | done | done |]. intros Hall. by rewrite Hall in Es. }
  rewrite Hdx. destruct t as [j | j es2].
  - eapply leaf_entry; try done. intros s2 Hb2 Hf2. apply IH; try done. by rewrite Hf2.
  - eapply dir_entry; try done. intros s2 Hb2 Hf2. apply IH; try done. by eapply lookup_weaken.
Qed.

Lemma names_read (es : list (string * tree)) : NoDup (map fst es) -> Forall (fun n => is_dot n = false) (map fst es) -> NoDup (order ("." :: ".." :: map fst es)).
Proof using order_perm.
  intros Hn Hd. rewrite order_perm. rewrite list.Forall_forall in Hd.
  apply list.NoDup_cons. split; [| apply list.NoDup_cons; split; [| done]].
  - intros Hin. apply elem_of_cons in Hin as [Hin | Hin]; [done |]. by specialize (Hd _ Hin).
  - intros Hin. by specialize (Hd _ Hin).
Qed.

Lemma dup_at s fd i : fds s !! fd = Some i ->
  dup ok fd s = if ok SDup (ncalls s) then Ok (free_fd s, bump (with_fd (free_fd s) i s)) else Ok (-1, bump s).
Proof using. intros Hfd. unfold dup, bind, call. rewrite Hfd. by destruct (ok SDup _). Qed.

(** One directory, given the removal of those below it. *)
Lemma open_dir_removes n remove : (forall n', n = S n' -> removes n' remove) ->
  removes n (fun fd =>
    let* d := dup ok fd in
    let* dir := fdopendir ok order d in
    match dir with
    | None => ret (-1)
    | Some dir =>
        let* result := remove_entries ok remove fd (snd dir) in
        let* c := closedir ok dir in
        ret (if negb (c =? 0) then -1 else result)
    end).
Proof using order_perm.
  intros Hrem i es fd s Hb Hfd.
  assert (forall r s', nodes s' = nodes s -> fds s ⊆ fds s' -> (no_leak -> fds s' = fds s) -> ~ all_ok ->
    exists r' s'' es', Ok (r, s') = Ok (r', s'') /\ outcome i es s s'' /\ left_over i es es' s'' /\ (all_ok -> r' = 0 /\ es' = [])) as Hstop.
  { intros r s' Hn Hf Hl Hno. exists r, s', es. split; [done |]. split; [split; [by rewrite Hn | done] |].
    split; [apply left_over_refl; rewrite Hn; apply Hb | done]. }
  unfold bind at 1. rewrite (dup_at s fd i Hfd). pose proof (free_fd_None s) as Hnew.
  destruct (ok SDup (ncalls s)) eqn:Ed.
  2:{ cbn. unfold bind, fdopendir, bind, call. rewrite andb_false_r. destruct (dir_of _ _) as [[q es0] |]; cbn.
      all: apply Hstop; [done | done | done |]; intros Hall; by rewrite Hall in Ed. }
  pose proof (free_fd_nonneg s) as Hpos. set (d := free_fd s) in *. clearbody d.
  assert (d <> fd) as Hdf by congruence.
  unfold bind at 1, fdopendir, bind at 1, call at 1. cbn [bump with_fd nodes fds ncalls].
  rewrite (dir_of_at _ d i es) by (cbn; rewrite ?lookup_insert_eq; first [done | apply Hb]).
  apply Z.ltb_ge in Hpos. rewrite (proj2 (Z.leb_le _ _) Hpos), andb_true_r.
  destruct (ok SFdopendir _) eqn:Eo; cbn [ret].
  2:{ apply Hstop; [done | cbn; by apply insert_subseteq | cbn; intros Hl; by rewrite Hl in Eo |]. intros Hall. by rewrite Hall in Eo. }
  set (s1 := mkSys _ _ _). cbn [snd fst].
  assert (map fst (links es) = map fst es) as Enames by (unfold links; rewrite map_map; done). rewrite Enames.
  unfold bind at 1. destruct (remove_entries_spec n remove fd i Hrem (order ("." :: ".." :: map fst es)) s1 es)
    as (r & s2 & es' & -> & (Ho1 & Ho2 & Ho3) & Hl & Hok); [done | by cbn; rewrite lookup_insert_ne | apply names_read; apply Hb | |].
  { intros k Hk Hdk. rewrite order_perm in Hk. apply elem_of_cons in Hk as [-> | Hk]; [done |].
    by apply elem_of_cons in Hk as [-> | Hk]. }
  unfold bind, closedir, bind, call, close, ret. cbn [fst nodes fds ncalls].
  destruct (fds_closed d i (fds s) (fds s2) Hnew Ho2) as [Hc1 Hc2].
  eexists _, _, es'. split; [reflexivity |]. split; [| split; [exact Hl |]].
  - split; [done |]. split; [done |]. intros H0. apply Hc2. by rewrite Ho3.
  - intros Hall. rewrite (Hall SClosedir). cbn [negb Z.eqb]. destruct (Hok Hall) as [-> Hr]. split; [done |].
    destruct es' as [| e es']; [done |]. exfalso. apply (Hr e); [by apply elem_of_cons; left |]. rewrite order_perm.
    do 2 (apply elem_of_cons; right). apply list_elem_of_fmap_2. destruct Hl as (_ & Hsub & _).
    eapply elem_of_sublist; [| exact Hsub]. by apply elem_of_cons; left.
Qed.

Lemma remove_tree_removes n : removes n (remove_tree_fd ok order (S n)).
Proof using order_perm.
  induction n as [| n IHn]; apply open_dir_removes; [done |]. by intros n' [= <-].
Qed.
(** C14: the removal of a directory is exact. Whatever calls fail, [pas_sys_remove_tree]
    ends; it changes no inode but the directories of the tree and the one that holds it
    (so no symbolic link is followed, and no file linked elsewhere is touched); the
    descriptors of the process stay open, and no new one is left unless [fdopendir]
    fails; it returns 0 only when every directory of the tree is empty and the entry of
    the tree is gone, and keeps that entry otherwise; and it does return 0 when no call
    fails. *)
Theorem remove_tree_exact fuel p name es0 j es s
  (Hp : nodes s !! p = Some (NDir es0)) (He : entry name es0 = Some j)
  (Hm : models (nodes s) (Sub j es)) (Hn : named (Sub j es)) (Hd : NoDup (dirs (Sub j es)))
  (Hout : p ∉ dirs (Sub j es)) (Hh : (height (Sub j es) <= fuel)%nat) :
  exists r s', pas_sys_remove_tree ok order fuel p name s = Ok (r, s') /\ (r = 0 \/ r = -1) /\
    (forall q, q <> p -> q ∉ dirs (Sub j es) -> nodes s' !! q = nodes s !! q) /\
    fds s ⊆ fds s' /\ (no_leak -> fds s' = fds s) /\
    (r = 0 -> gone (nodes s') (Sub j es) /\ nodes s' !! p = Some (NDir (without name es0))) /\
    (r <> 0 -> nodes s' !! p = nodes s !! p) /\ (all_ok -> r = 0).
Proof using order_perm.
  destruct fuel as [| n]; [cbn in Hh; lia |]. unfold pas_sys_remove_tree.
  assert (open_path ok p name s = if ok SOpen (ncalls s) then Ok (free_fd s, bump (with_fd (free_fd s) j s)) else Ok (-1, bump s)) as Eopen.
  { unfold open_path, bind, call. rewrite Hp, He, (proj1 Hm). by destruct (ok SOpen _). }
  unfold bind at 1. rewrite Eopen. clear Eopen. destruct (ok SOpen (ncalls s)) eqn:Eo.
  2:{ eexists (-1), (bump s). split; [done |]. split; [by right |]. repeat (split; [done |]). intros Hall. by rewrite Hall in Eo. }
  rewrite free_fd_nonneg. pose proof (free_fd_None s) as Hnew. set (fd := free_fd s) in *. clearbody fd.
  pose proof (below_intro _ _ _ _ Hm Hn Hd Hh) as Hb. unfold bind at 1.
  destruct (remove_tree_removes n j es fd (bump (with_fd fd j s))) as (r & s1 & es' & -> & (Ho1 & Ho2 & Ho3) & (Hl1 & Hl2 & Hl3) & Hok);
    [exact Hb | cbn; by rewrite lookup_insert_eq |]. cbn [bump with_fd nodes fds] in Ho1, Ho2, Ho3.
  destruct (fds_closed fd j (fds s) (fds s1) Hnew Ho2) as [Hc1 Hc2].
  assert (forall q, q ∉ dirs (Sub j es) -> nodes s1 !! q = nodes s !! q) as Hq.
  { intros q Hq. cbn in Hq. apply not_elem_of_cons in Hq as [Hq1 Hq2]. by apply Ho1. }
  unfold bind at 1, close. destruct (Z.eqb_spec r 0) as [-> | Hr]; cbn [negb].
  2:{ eexists (-1), _. split; [done |]. split; [by right |]. cbn [nodes fds]. split; [auto |]. split; [exact Hc1 |]. split; [auto |]. split; [done |].
      split; [auto |]. intros Hall. by destruct (Hok Hall). }
  unfold rmdir. cbn [nodes]. rewrite Hq, Hp by done. unfold unlink_entry, bind, call. cbn [nodes fds ncalls]. rewrite He, Hl1.
  destruct (ok SRmdir (ncalls s1)) eqn:Er; cbn [andb].
  2:{ eexists (-1), _. split; [done |]. split; [by right |]. cbn [nodes fds]. split; [auto |]. split; [exact Hc1 |]. split; [auto |]. split; [done |].
      split; [intros _; by rewrite Hq |]. intros Hall. by rewrite Hall in Er. }
  destruct (links es') as [| l0 lr] eqn:El.
  2:{ eexists (-1), _. split; [done |]. split; [by right |]. cbn [nodes fds]. split; [auto |]. split; [exact Hc1 |]. split; [auto |]. split; [done |].
      split; [intros _; by rewrite Hq |]. intros Hall. destruct (Hok Hall) as [_ ->]. done. }
  apply links_nil in El as ->. eexists 0, _. split; [done |]. split; [by left |]. cbn [nodes fds].
  split; [intros q Hqp Hqd; rewrite lookup_insert_ne by done; auto |]. split; [done |]. split; [auto |].
  split; [| split; [done | done]]. intros _. split; [| by rewrite lookup_insert_eq].
  intros q Hqd. rewrite lookup_insert_ne by (intros ->; done). cbn in Hqd. apply elem_of_cons in Hqd as [-> | Hqd]; [done |].
  apply elem_of_subdirs in Hqd as (e & Hein & Hqe). destruct (Hl3 e Hein) as [Hnil%elem_of_nil | Hg]; [done | by apply Hg].
Qed.
End Removal.

(** A directory d (inode 1) of the root (inode 0), with a file, a subdirectory and a symbolic
    link to the root's other directory. *)
Definition toy_tree : list (string * tree) :=
  [("f", Leaf 2%nat); ("sub", Sub 3%nat [("g", Leaf 4%nat)]); ("link", Leaf 5%nat)].
Definition toy_sys : sys :=
  mkSys (list_to_map [(0%nat, NDir [("d", 1%nat); ("other", 6%nat)]);
    (1%nat, NDir (links toy_tree)); (2%nat, NFile); (3%nat, NDir [("g", 4%nat)]); (4%nat, NFile); (5%nat, NLink 6); (6%nat, NDir [("g", 4%nat)])])
    {[7 := 0%nat]} 0.

Lemma remove_tree_exact_witness : exists s', pas_sys_remove_tree (fun _ _ => true) (@rev string) 2 0 "d" toy_sys = Ok (0, s') /\
  gone (nodes s') (Sub 1 toy_tree) /\ nodes s' !! 0%nat = Some (NDir [("other", 6%nat)]) /\
  nodes s' !! 6%nat = Some (NDir [("g", 4%nat)]) /\ fds s' = fds toy_sys.
Proof.
  destruct (remove_tree_exact (fun _ _ => true) (@rev string) (fun l => Permutation_sym (Permutation_rev l)) 2 0 "d"
      [("d", 1%nat); ("other", 6%nat)] 1 toy_tree toy_sys) as (r & s' & E & _ & Hq & _ & Hl & H0 & _ & Hall).
  - vm_compute. reflexivity.
  - reflexivity.
  - cbn. split; [vm_compute; reflexivity |]. repeat split; try (eexists; split; vm_compute; reflexivity).
  - cbn. repeat split; try done; [apply (bool_decide_unpack _); vm_compute; exact I | repeat constructor |
      apply (bool_decide_unpack _); vm_compute; exact I | repeat constructor].
  - apply (bool_decide_unpack _). vm_compute. exact I.
  - apply (bool_decide_unpack _). vm_compute. exact I.
  - cbn. lia.
  - rewrite (Hall (fun _ _ => eq_refl)) in E, H0. destruct (H0 eq_refl) as [Hg Hp].
    exists s'. split; [exact E |]. split; [exact Hg |]. split; [exact Hp |]. split; [| exact (Hl (fun _ => eq_refl))].
    rewrite Hq; [vm_compute; reflexivity | discriminate | apply (bool_decide_unpack _); vm_compute; exact I].
Defined.

(** When [fdopendir] fails, the descriptor that [dup] made is not closed. *)
Lemma fdopendir_leaks : exists s', pas_sys_remove_tree (fun c _ => match c with SFdopendir => false | _ => true end) id 2 0 "d" toy_sys
  = Ok (-1, s') /\ size (fds s') = 2%nat.
Proof. eexists. split; vm_compute; reflexivity. Qed.

(** * Reading a directory *)

Definition PAS_SYS_ENTRY_OTHER : Z := 0.
Definition PAS_SYS_ENTRY_DIR : Z := 1.
Definition PAS_SYS_ENTRY_FILE : Z := 2.

Section Reading.
Context (ok : syscall -> nat -> bool) (order : list string -> list string).

(** [opendir] follows a symbolic link. The path is the entry [name] of the directory [i]. *)
Definition pas_sys_dir_open (i : nat) (name : string) : ST sys (option DIR) := fun s =>
  (let* b := call ok SOpen in
   let target := match nodes s !! i with
                 | Some (NDir es) =>
                     match entry name es with
                     | Some j => match nodes s !! j with Some (NLink t) => Some t | _ => Some j end
                     | None => None
                     end
                 | _ => None
                 end in
   match target with
   | Some j =>
       match nodes s !! j with
       | Some (NDir es) =>
           if b then let* fd := new_fd j in ret (Some (fd, order ("." :: ".." :: map fst es))) else ret None
       | _ => ret None
       end
   | None => ret None
   end) s.

(** The result and the kind of the entry as the code returns it, the name, what is left to read. *)
Definition kind_of (st : option node) : Z :=
  match st with
  | Some (NDir _) => PAS_SYS_ENTRY_DIR + 1
  | Some NFile => PAS_SYS_ENTRY_FILE + 1
  | _ => PAS_SYS_ENTRY_OTHER + 1
  end.
Fixpoint next_entry (namecap : Z) (fd : Z) (names : list string) : ST sys (Z * option string * DIR) :=
  match names with
  | [] => let* more := call ok SReaddir in ret (if more then 0 else -1, None, (fd, []))
  | n :: names' =>
      let* more := call ok SReaddir in
      if negb more then ret (-1, None, (fd, n :: names'))
      else if is_dot n then next_entry namecap fd names'
      else if namecap <=? Z.of_nat (String.length n) then ret (-1, None, (fd, names'))
      else let* st := fstatat ok fd n true in ret (kind_of st, Some n, (fd, names'))
  end.
(** [None] for a NULL handle; [has_name]: whether the caller gave a buffer. *)
Definition pas_sys_dir_next (handle : option DIR) (has_name : bool) (namecap : Z) : ST sys (Z * option string * option DIR) :=
  match handle with
  | None => ret (-1, None, None)
  | Some (fd, names) =>
      if negb has_name || (namecap <? 2) then ret (-1, None, handle)
      else let* (r, n, d) := next_entry namecap fd names in ret (r, n, Some d)
  end.

Definition pas_sys_dir_close (handle : option DIR) : ST sys Z :=
  match handle with Some d => closedir ok d | None => ret (-1) end.

(** A program that lists a directory: it reads until the result is not positive. *)
Fixpoint list_dir (fuel : nat) (namecap : Z) (handle : option DIR) : ST sys (Z * list (string * Z)) :=
  match fuel with
  | O => fail OutOfFuel
  | S f =>
      let* (r, n, h) := pas_sys_dir_next handle true namecap in
      match n with
      | Some n => let* (e, l) := list_dir f namecap h in ret (e, (n, r) :: l)
      | None => ret (r, [])
      end
  end.
Definition read_directory (fuel : nat) (namecap : Z) (i : nat) (name : string) : ST sys (option (Z * list (string * Z))) :=
  let* h := pas_sys_dir_open i name in
  match h with
  | None => ret None
  | Some d => let* l := list_dir fuel namecap (Some d) in do* pas_sys_dir_close (Some d) in ret (Some l)
  end.

End Reading.

Section Listing.
Context (order : list string -> list string) (order_perm : forall l, Permutation (order l) l).
#[local] Abbreviation works := (fun (_ : syscall) (_ : nat) => true).

(** The entries of a directory with their kinds, links not followed. *)
Definition kinds (m : gmap nat node) (es : list (string * nat)) : list (string * Z) :=
  map (fun e => (fst e, kind_of (m !! snd e))) es.

Lemma kind_entry s fd i es n j : fds s !! fd = Some i -> nodes s !! i = Some (NDir es) -> entry n es = Some j ->
  fstatat works fd n true s = Ok (nodes s !! j, bump s).
Proof using.
  intros Hfd Hi Hj. unfold fstatat, walk, dir_of. rewrite Hfd, Hi, Hj.
  assert (match nodes s !! j with Some (NLink t) => Some j | _ => Some j end = Some j) as -> by (by destruct (nodes s !! j) as [[] |]).
  done.
Qed.

(** Reading the names [ns] of a directory. *)
Definition found (m : gmap nat node) (es : list (string * nat)) (n : string) : option (string * Z) :=
  if is_dot n then None else (fun j => (n, kind_of (m !! j))) <$> entry n es.

Lemma next_entry_spec namecap fd i es : forall ns s, fds s !! fd = Some i -> nodes s !! i = Some (NDir es) ->
  (forall n, n ∈ ns -> is_dot n = false -> Z.of_nat (String.length n) < namecap /\ is_Some (entry n es)) ->
  exists s', nodes s' = nodes s /\ fds s' = fds s /\
  ((omap (found (nodes s) es) ns = [] /\ next_entry works namecap fd ns s = Ok (0, None, (fd, []), s')) \/
   exists n k ns', omap (found (nodes s) es) ns = (n, k) :: omap (found (nodes s) es) ns' /\
     next_entry works namecap fd ns s = Ok (k, Some n, (fd, ns'), s') /\ (length ns' < length ns)%nat /\ forall x, x ∈ ns' -> x ∈ ns).
Proof using.
  induction ns as [| n ns IH]; intros s Hfd Hi Hns.
  { exists (bump s). split; [done |]. split; [done |]. by left. }
  assert (omap (found (nodes s) es) (n :: ns) = match found (nodes s) es n with Some x => x :: omap (found (nodes s) es) ns
    | None => omap (found (nodes s) es) ns end) as -> by done.
  assert (next_entry works namecap fd (n :: ns) s =
    (if is_dot n then next_entry works namecap fd ns
     else if namecap <=? Z.of_nat (String.length n) then ret (-1, None, (fd, ns))
     else let* st := fstatat works fd n true in ret (kind_of st, Some n, (fd, ns))) (bump s)) as -> by done.
  assert (found (nodes s) es n = if is_dot n then None else (fun j => (n, kind_of (nodes s !! j))) <$> entry n es) as -> by done.
  destruct (is_dot n) eqn:Ed.
  - destruct (IH (bump s)) as (s' & Hn' & Hf' & Hs'); [done | done | |].
    { intros x Hx. apply Hns. by apply elem_of_cons; right. }
    exists s'. split; [done |]. split; [done |]. destruct Hs' as [Hs' | (n' & k & ns' & Hs' & E & Hl & Hin)]; [by left |].
    right. exists n', k, ns'. split; [done |]. split; [done |]. split; [cbn; lia |]. intros x Hx. apply elem_of_cons. auto.
  - destruct (Hns n) as [Hlen [j Hj]]; [by apply elem_of_cons; left | done |].
    destruct (Z.leb_spec namecap (Z.of_nat (String.length n))); [lia |].
    unfold bind. rewrite (kind_entry (bump s) fd i es n j Hfd Hi Hj). exists (bump (bump s)). split; [done |]. split; [done |]. right.
    exists n, (kind_of (nodes s !! j)), ns. rewrite Hj. cbn. split; [done |]. split; [done |]. split; [lia |].
    intros x Hx. apply elem_of_cons. auto.
Qed.

Lemma list_dir_spec namecap fd i es : 2 <= namecap -> forall fuel ns s, (length ns < fuel)%nat ->
  fds s !! fd = Some i -> nodes s !! i = Some (NDir es) ->
  (forall n, n ∈ ns -> is_dot n = false -> Z.of_nat (String.length n) < namecap /\ is_Some (entry n es)) ->
  exists s', list_dir works fuel namecap (Some (fd, ns)) s = Ok (0, omap (found (nodes s) es) ns, s') /\
    nodes s' = nodes s /\ fds s' = fds s.
Proof using.
  intros Hcap. induction fuel as [| fuel IH]; intros ns s Hf Hfd Hi Hns; [lia |].
  destruct (next_entry_spec namecap fd i es ns s Hfd Hi Hns) as (s1 & Hn1 & Hf1 & H1).
  cbn [list_dir pas_sys_dir_next negb orb]. destruct (Z.ltb_spec namecap 2); [lia |]. unfold bind.
  destruct H1 as [[-> ->] | (n & k & ns' & -> & -> & Hl & Hin)]; [by exists s1 |]. cbn [ret].
  destruct (IH ns' s1) as (s2 & -> & Hn2 & Hf2); [lia | congruence | by rewrite Hn1 | intros x Hx; apply Hns; auto |].
  exists s2. rewrite Hn1. split; [done |]. split; congruence.
Qed.

Lemma entry_In (es : list (string * nat)) e : NoDup (map fst es) -> e ∈ es -> entry (fst e) es = Some (snd e).
Proof using.
  induction es as [| [k j] es IH]; [by intros _ He%elem_of_nil |]. cbn. intros [Hk Hn]%list.NoDup_cons He.
  apply elem_of_cons in He as [-> | He]; [by cbn; rewrite String.eqb_refl |].
  destruct (String.eqb_spec k (fst e)) as [-> | _]; [| auto]. destruct Hk. by apply list_elem_of_fmap_2.
Qed.

Lemma found_all m es : NoDup (map fst es) -> Forall (fun n => is_dot n = false) (map fst es) ->
  omap (found m es) (map fst es) = kinds m es.
Proof using.
  intros Hn Hd. assert (forall l, (forall e, e ∈ l -> e ∈ es) -> omap (found m es) (map fst l) = kinds m l) as Hl; [| by apply Hl].
  induction l as [| e l IH]; intros Hin; [done |].
  assert (e ∈ es) as He by (apply Hin; by apply elem_of_cons; left).
  assert (found m es (fst e) = Some (fst e, kind_of (m !! snd e))) as E.
  { unfold found. rewrite list.Forall_forall in Hd. rewrite (Hd (fst e)) by (by apply list_elem_of_fmap_2).
    by rewrite (entry_In es e Hn He). }
  cbn. rewrite E. unfold kinds in IH. rewrite IH; [done |]. intros x Hx. apply Hin. by apply elem_of_cons; right.
Qed.

(** C31: when none of the calls fails and every name fits the buffer (it is shorter than
    [namecap]), a program that lists a directory until there is nothing more gets every
    entry once, with the kind of the entry itself (a symbolic link is neither a directory
    nor a file), and neither the directory's own entries nor an error; it leaves the files
    and the descriptors of the process as they were. *)
Theorem directory_listed fuel namecap i name es0 j es s
  (Hi : nodes s !! i = Some (NDir es0)) (He : entry name es0 = Some j) (Hj : nodes s !! j = Some (NDir es))
  (Hn : NoDup (map fst es)) (Hd : Forall (fun n => is_dot n = false) (map fst es))
  (Hcap : 2 <= namecap) (Hlen : Forall (fun n => Z.of_nat (String.length n) < namecap) (map fst es))
  (Hfuel : (length es + 2 < fuel)%nat) :
  exists l s', read_directory works order fuel namecap i name s = Ok (Some (0, l), s') /\
    Permutation l (kinds (nodes s) es) /\ nodes s' = nodes s /\ fds s' = fds s.
Proof using order_perm.
  set (ns := order ("." :: ".." :: map fst es)). pose proof (free_fd_None s) as Hnew.
  assert (pas_sys_dir_open works order i name s = Ok (Some (free_fd s, ns), bump (with_fd (free_fd s) j s))) as Eopen.
  { unfold pas_sys_dir_open, bind, call. by rewrite Hi, He, Hj, Hj. }
  unfold read_directory, bind at 1. rewrite Eopen. clear Eopen. set (fd := free_fd s) in *. clearbody fd.
  unfold bind at 1. destruct (list_dir_spec namecap fd j es Hcap fuel ns (bump (with_fd fd j s)))
    as (s1 & -> & Hn1 & Hf1).
  - unfold ns. rewrite (Permutation_length (order_perm _)). cbn. rewrite length_map. lia.
  - cbn. by rewrite lookup_insert_eq.
  - done.
  - intros n Hin Hdot. unfold ns in Hin. rewrite order_perm in Hin.
    apply elem_of_cons in Hin as [-> | Hin]; [done |]. apply elem_of_cons in Hin as [-> | Hin]; [done |].
    rewrite list.Forall_forall in Hlen. split; [by apply Hlen |]. apply list_elem_of_fmap in Hin as (e & -> & He').
    exists (snd e). by apply entry_In.
  - cbn. eexists _, _. split; [reflexivity |]. cbn in Hn1, Hf1 |- *. split; [| split; [done |]].
    + unfold ns. rewrite order_perm. rewrite <- found_all by done. done.
    + rewrite Hf1. by apply delete_insert_id.
Qed.
End Listing.

Lemma directory_listed_witness : exists l s', read_directory (fun _ _ => true) (@rev string) 6 64 0 "d" toy_sys = Ok (Some (0, l), s') /\
  Permutation l [("f", 3); ("sub", 2); ("link", 1)] /\ fds s' = fds toy_sys.
Proof.
  destruct (directory_listed (@rev string) (fun l => Permutation_sym (Permutation_rev l)) 6 64 0 "d"
      [("d", 1%nat); ("other", 6%nat)] 1 (links toy_tree) toy_sys) as (l & s' & E & Hl & _ & Hf).
  - vm_compute. reflexivity.
  - reflexivity.
  - vm_compute. reflexivity.
  - apply (bool_decide_unpack _). vm_compute. exact I.
  - repeat constructor.
  - lia.
  - repeat constructor.
  - cbn. lia.
  - exists l, s'. split; [exact E |]. split; [| exact Hf]. exact Hl.
Defined.

(** * Temporary directories *)

(** [memcpy] into the caller's buffer. *)
Definition put_at (out : bytes) (at_ : nat) (bs : bytes) : res bytes :=
  if (at_ + length bs <=? length out)%nat then Ok (take at_ out ++ bs ++ drop (at_ + length bs) out)
  else Err (Undef "write outside the buffer").

(** The text up to the first NUL. *)
Fixpoint c_text (out : bytes) : bytes :=
  match out with
  | c :: r => if Ascii.eqb c "000" then [] else c :: c_text r
  | [] => []
  end.

(** [mkdtemp] writes six letters of its own over the Xs, or fails. *)
Definition mkdtemp (out : bytes) (letters : option bytes) : res (bool * bytes) :=
  match letters with
  | Some l => let! out := put_at out (length (c_text out) - 6) l in Ok (true, out)
  | None => Ok (false, out)
  end.

(** [tmpdir] is the variable TMPDIR, [root] what [pas_project_temp_root] returns, [out] the caller's buffer. *)
Definition pas_sys_temp_dir (prefix : option bytes) (out : option bytes) (outcap : Z) (tmpdir root : option bytes)
  (letters : option bytes) : res (Z * option bytes) :=
  match prefix, out with
  | Some prefix, Some buf =>
      if (outcap <? 16) || existsb (Ascii.eqb "/") prefix then Ok (-1, out)
      else
        match (match tmpdir with Some (c :: t) => Some (c :: t) | _ => root end) with
        | None => Ok (-1, out)
        | Some base =>
            let need := Z.of_nat (length base) + 1 + Z.of_nat (length prefix) + 6 + 1 in
            if outcap <? need then Ok (-1, out)
            else
              let! buf := put_at buf 0 base in
              let! buf := put_at buf (length base) ["/"%char] in
              let! buf := put_at buf (length base + 1) prefix in
              let! buf := put_at buf (length base + 1 + length prefix) (chars "XXXXXX" ++ ["000"%char]) in
              let! (made, buf) := mkdtemp buf letters in
              Ok (if made then 0 else -1, Some buf)
        end
  | _, _ => Ok (-1, out)
  end.

(** [CLOCK_MONOTONIC], or [None] when it cannot be read. *)
Definition monotonic_ms (ts : option (Z * Z)) : Z :=
  match ts with Some (sec, nsec) => sec * 1000 + Z.quot nsec 1000000 | None => -1 end.

Definition no_nul (s : bytes) : Prop := Forall (fun c => c <> "000"%char) s.

Lemma c_text_app s r : no_nul s -> c_text (s ++ "000"%char :: r) = s.
Proof.
  induction s as [| c s IH]; cbn; [done |]. intros [Hc Hs]%list.Forall_cons. destruct (Ascii.eqb_spec c "000"); [done |]. by rewrite IH.
Qed.

Lemma put_over a b c bs : length bs = length b -> put_at (a ++ b ++ c) (length a) bs = Ok (a ++ bs ++ c).
Proof.
  intros Hl. unfold put_at. rewrite !length_app, (proj2 (Nat.leb_le _ _)) by lia.
  rewrite take_app_length, drop_app_add, Hl, drop_app_length. done.
Qed.

(** What was written stays in front of what is written next. *)
Lemma put_next a out bs : (length (a ++ bs) <= length out)%nat ->
  put_at (a ++ drop (length a) out) (length a) bs = Ok ((a ++ bs) ++ drop (length (a ++ bs)) out).
Proof.
  intros Hl. rewrite length_app in Hl. rewrite <- (take_drop (length bs) (drop (length a) out)), drop_drop.
  rewrite put_over by (rewrite length_take, length_drop; lia). by rewrite length_app, <- (assoc_L (++)).
Qed.

(** the name of a temporary directory fits the caller's buffer. For a buffer of at
    least [outcap] bytes, nothing is written outside it; the call fails without touching
    it when the prefix has a slash, the capacity is below 16 or there is no base; on
    success the buffer holds the text base/prefixLLLLLL, with the base from TMPDIR when
    that is set and not empty, and the text with its NUL takes at most [outcap] bytes. *)
Theorem temp_dir_bounds prefix out outcap tmpdir root letters
  (Hcap : outcap <= Z.of_nat (length out)) (Hp : no_nul prefix)
  (Hb : forall b, tmpdir = Some b \/ root = Some b -> no_nul b)
  (Hl : forall l, letters = Some l -> length l = 6%nat /\ no_nul l) :
  exists r out', pas_sys_temp_dir (Some prefix) (Some out) outcap tmpdir root letters = Ok (r, Some out') /\
    length out' = length out /\ drop (Z.to_nat outcap) out' = drop (Z.to_nat outcap) out /\
    (r = 0 \/ r = -1) /\
    (r = 0 -> exists base l, (match tmpdir with Some (c :: t) => Some (c :: t) | _ => root end) = Some base /\ letters = Some l /\
       c_text out' = base ++ "/"%char :: prefix ++ l /\ Z.of_nat (length (c_text out')) + 1 <= outcap /\
       ~ In "/"%char prefix).
Proof.
  unfold pas_sys_temp_dir. destruct (Z.ltb_spec outcap 16) as [Hs | Hs]; cbn [orb].
  { eexists _, _. split; [reflexivity |]. split; [done |]. split; [done |]. split; [by right | done]. }
  destruct (existsb _ prefix) eqn:Ex.
  { eexists _, _. split; [reflexivity |]. split; [done |]. split; [done |]. split; [by right | done]. }
  destruct (match tmpdir with Some (c :: t) => Some (c :: t) | _ => root end) as [base |] eqn:Ebase.
  2:{ eexists _, _. split; [reflexivity |]. split; [done |]. split; [done |]. split; [by right | done]. }
  assert (no_nul base) as Hbase by (apply Hb; destruct tmpdir as [[| c t] |]; eauto).
  destruct (Z.ltb_spec outcap (Z.of_nat (length base) + 1 + Z.of_nat (length prefix) + 6 + 1)) as [Hn | Hn].
  { eexists _, _. split; [reflexivity |]. split; [done |]. split; [done |]. split; [by right | done]. }
  assert (put_at out 0 base = Ok (base ++ drop (length base) out)) as -> by (apply (put_next [] out base); cbn; lia). cbn [rbind].
  rewrite (put_next base out ["/"%char]) by (rewrite length_app; cbn; lia). cbn [rbind].
  replace (length base + 1)%nat with (length (base ++ ["/"%char])) by (rewrite length_app; done).
  rewrite put_next by (rewrite !length_app; cbn; lia). cbn [rbind].
  replace (length (base ++ ["/"%char]) + length prefix)%nat with (length ((base ++ ["/"%char]) ++ prefix)) by (by rewrite length_app).
  set (head := (base ++ ["/"%char]) ++ prefix).
  assert (length head = length base + 1 + length prefix)%nat as Hhead by (unfold head; rewrite !length_app; cbn; lia).
  rewrite put_next by (rewrite length_app, Hhead; cbn; lia). cbn [rbind].
  set (rest := drop (length (head ++ chars "XXXXXX" ++ ["000"%char])) out).
  assert (length rest = length out - (length head + 7))%nat as Hrest by (unfold rest; rewrite length_drop, length_app; done).
  assert (no_nul head) as Hh0 by (unfold head; apply list.Forall_app; split; [apply list.Forall_app; split; [done | by repeat constructor] | done]).
  assert (c_text ((head ++ chars "XXXXXX" ++ ["000"%char]) ++ rest) = head ++ chars "XXXXXX") as Et.
  { replace ((head ++ chars "XXXXXX" ++ ["000"%char]) ++ rest) with ((head ++ chars "XXXXXX") ++ "000"%char :: rest)
      by (by rewrite <- !(assoc_L (++))).
    apply c_text_app. apply list.Forall_app. split; [done | by repeat constructor]. }
  assert (forall six : bytes, length six = 6%nat -> drop (Z.to_nat outcap) (head ++ six ++ "000"%char :: rest) = drop (Z.to_nat outcap) out) as Hdrop.
  { intros six H6. rewrite !drop_app_ge by (rewrite ?Hhead, ?H6; lia). rewrite Hhead, H6.
    replace (Z.to_nat outcap - (length base + 1 + length prefix) - 6)%nat
      with (S (Z.to_nat outcap - (length base + 1 + length prefix) - 7)) by lia. cbn [drop]. unfold rest.
    rewrite drop_drop. f_equal. rewrite length_app, Hhead. cbn. lia. }
  assert ((head ++ chars "XXXXXX" ++ ["000"%char]) ++ rest = head ++ chars "XXXXXX" ++ "000"%char :: rest) as Eb
    by (by rewrite <- !(assoc_L (++))).
  unfold mkdtemp. destruct letters as [l |].
  - destruct (Hl l eq_refl) as [H6 Hl0]. rewrite Et, Eb, length_app. change (length (chars "XXXXXX")) with 6%nat.
    replace (length head + 6 - 6)%nat with (length head) by lia. rewrite put_over by done. cbn [rbind].
    eexists _, _. split; [reflexivity |]. split; [rewrite !length_app, H6, Hhead; cbn [length]; lia |]. split; [by apply Hdrop |].
    split; [by left |]. intros _. exists base, l. split; [done |]. split; [done |].
    assert (c_text (head ++ l ++ "000"%char :: rest) = head ++ l) as Ec.
    { rewrite (assoc_L (++)). apply c_text_app. by apply list.Forall_app. }
    rewrite Ec. split; [unfold head; by rewrite <- !(assoc_L (++)) |]. split; [rewrite length_app, H6, Hhead; lia |].
    intros Hin. assert (existsb (Ascii.eqb "/") prefix = true) as E by (apply existsb_exists; exists "/"%char; done). congruence.
  - cbn [rbind]. eexists _, _. split; [reflexivity |]. rewrite Eb.
    split; [rewrite !length_app, Hhead; cbn [length chars list_ascii_of_string]; lia |].
    split; [by apply Hdrop |]. split; [by right | done].
Qed.

Lemma temp_dir_bounds_witness : exists out',
  pas_sys_temp_dir (Some (chars "pas")) (Some (replicate 20 "z"%char)) 20 (Some (chars "/tmp")) None (Some (chars "abcdef")) = Ok (0, Some out') /\
  length out' = 20%nat /\ c_text out' = chars "/tmp/pasabcdef".
Proof.
  destruct (temp_dir_bounds (chars "pas") (replicate 20 "z"%char) 20 (Some (chars "/tmp")) None (Some (chars "abcdef")))
    as (r & out' & E & Hlen & _ & _ & Hr).
  - cbn. lia.
  - by repeat constructor.
  - intros b [[= <-] | [=]]. by repeat constructor.
  - intros l [= <-]. split; [done | by repeat constructor].
  - assert (r = 0) as -> by (vm_compute in E; congruence). exists out'. split; [exact E |]. split; [exact Hlen |].
    destruct (Hr eq_refl) as (base & l & [= <-] & [= <-] & Ht & _). exact Ht.
Defined.
