(* ===== verification/Numeric.v ===== *)
(** The conversions between doubles and integers of numeric.c: the conversion to
    INTEGER64 is defined for every double, and integers of up to 53 bits survive
    the way to a double and back. *)

From Stdlib Require Import ZArith SpecFloat Lia.
From stdpp Require Import base list.
From S2P Require Import Prelude Real CPrelude.
#[local] Open Scope Z_scope.

Definition is_nan (v : spec_float) : bool := match v with S754_nan => true | _ => false end.

(** Comparisons of a double with an integral one; all are false for a NaN. *)
Definition real_ge_Z (v : spec_float) (z : Z) : bool := negb (is_nan v) && negb (Trunc.real_lt_Z v z).
Definition real_le_Z (v : spec_float) (z : Z) : bool := negb (is_nan v) && negb (Trunc.Z_lt_real z v).

(** The constant -9223372036854775809.0 is no double: it rounds to [-2^63]. The
    conversion toward zero is reached only for a value it is defined for. *)
Definition pas_double_to_int64 (value : spec_float) : Z :=
  if is_nan value then 0
  else if real_ge_Z value (2 ^ 63) then INT64_MAX
  else if real_le_Z value (- 2 ^ 63) then INT64_MIN
  else Trunc.real_trunc value.

Definition pas_int64_to_double (value : Z) : spec_float := binary_normalize prec emax value 0 false.


(** * Clamping *)

Definition clamp (lo hi z : Z) : Z := Z.max lo (Z.min hi z).

(** Where a finite double stands against an integer, by its truncation. *)
Lemma trunc_lt s m e z : 0 < z -> Trunc.real_lt_Z (S754_finite s m e) z = (Trunc.real_trunc (S754_finite s m e) <? z).
Proof.
  intros Hz. apply eq_bool_prop_intro. unfold Trunc.real_lt_Z, Trunc.real_trunc.
  set (n := if s then Zneg m else Zpos m). rewrite !Is_true_true. split.
  - intros H. apply Z.ltb_lt. by apply Trunc.finite_abs_bound.
  - destruct (Z.leb_spec 0 e) as [He | He]; [done |]. rewrite !Z.ltb_lt. intros H.
    assert (0 < 2 ^ (- e)) as Hp by (apply Z.pow_pos_nonneg; lia).
    destruct (Z.le_gt_cases 0 n) as [Hn | Hn]; [| nia].
    rewrite Z.quot_div_nonneg in H by lia. pose proof (Z.mul_succ_div_gt n (2 ^ (- e)) Hp). nia.
Qed.

Lemma trunc_opp s m e : Trunc.real_trunc (S754_finite (negb s) m e) = - Trunc.real_trunc (S754_finite s m e).
Proof.
  unfold Trunc.real_trunc. assert ((if negb s then Zneg m else Zpos m) = - (if s then Zneg m else Zpos m)) as -> by (by destruct s).
  destruct (Z.leb_spec 0 e); [lia |]. apply Z.quot_opp_l. apply Z.pow_nonzero; lia.
Qed.

Lemma trunc_gt s m e z : z < 0 -> Trunc.Z_lt_real z (S754_finite s m e) = (z <? Trunc.real_trunc (S754_finite s m e)).
Proof.
  intros Hz. unfold Trunc.Z_lt_real. cbn [SFopp]. rewrite trunc_lt by lia. rewrite trunc_opp.
  destruct (Z.ltb_spec (- Trunc.real_trunc (S754_finite s m e)) (- z)), (Z.ltb_spec z (Trunc.real_trunc (S754_finite s m e))); lia || done.
Qed.

(** the conversion of a double to INTEGER64 is defined for every double: a NaN
    gives 0, an infinity the extreme of its sign, and any other value its
    truncation toward zero, clamped to INTEGER64. *)
Theorem double_to_int64_clamps v :
  pas_double_to_int64 v =
    match v with
    | S754_nan => 0
    | S754_infinity s => if s then INT64_MIN else INT64_MAX
    | S754_zero _ => 0
    | S754_finite s m e => clamp INT64_MIN INT64_MAX (Trunc.real_trunc (S754_finite s m e))
    end.
Proof.
  destruct v as [s | s | | s m e]; [by destruct s | by destruct s | done |].
  unfold pas_double_to_int64, real_ge_Z, real_le_Z, clamp, INT64_MIN, INT64_MAX. cbn [is_nan negb andb].
  rewrite trunc_lt, trunc_gt by lia.
  destruct (Z.ltb_spec (Trunc.real_trunc (S754_finite s m e)) (2 ^ 63)); cbn [negb]; [| lia].
  destruct (Z.ltb_spec (- 2 ^ 63) (Trunc.real_trunc (S754_finite s m e))); cbn [negb]; lia.
Qed.

(** * Exact integers *)

Lemma iter_xO_val d p : Zpos (Pos.iter xO p d) = Zpos p * 2 ^ Zpos d.
Proof.
  revert p. induction d as [| d IH] using Pos.peano_ind; intros p; [simpl; lia |].
  rewrite Pos.iter_succ, Pos2Z.inj_xO, IH, Pos2Z.inj_succ, Z.pow_succ_r by lia. lia.
Qed.

Lemma digits2_pos_val p : Zpos (digits2_pos p) = Z.log2 (Zpos p) + 1.
Proof.
  induction p as [p IH | p IH |]; [| | done]; cbn [digits2_pos]; rewrite Pos2Z.inj_succ, IH.
  - rewrite Pos2Z.inj_xI, Z.log2_succ_double by lia. lia.
  - rewrite Pos2Z.inj_xO, Z.log2_double by lia. lia.
Qed.

Lemma Zdigits2_val p : Zdigits2 (Zpos p) = Z.log2 (Zpos p) + 1.
Proof. apply digits2_pos_val. Qed.

(** A mantissa of 53 digits is already rounded. *)
Lemma round_aux_exact s p e : Z.log2 (Zpos p) = 52 -> -1074 <= e <= 971 ->
  binary_round_aux prec emax s (Zpos p) e loc_Exact = S754_finite s p e.
Proof.
  intros Hp He. unfold binary_round_aux, shr_fexp. rewrite Zdigits2_val, Hp.
  assert (fexp prec emax (52 + 1 + e) - e = 0) as Hf.
  { unfold fexp, emin, prec, emax. lia. }
  rewrite Hf. cbn [shr shr_record_of_loc shr_m loc_of_shr_record round_nearest_even]. rewrite Zdigits2_val, Hp, Hf.
  cbn [shr shr_record_of_loc shr_m]. assert ((e <=? emax - prec) = true) as -> by (apply Z.leb_le; unfold emax, prec; lia).
  done.
Qed.

Lemma round_exact s p : Z.log2 (Zpos p) < 53 ->
  exists m e, binary_round prec emax s p 0 = S754_finite s m e /\ e <= 0 /\ Zpos m = Zpos p * 2 ^ (- e).
Proof.
  intros Hp. unfold binary_round, shl_align. rewrite digits2_pos_val.
  pose proof (Z.log2_nonneg (Zpos p)) as Hn.
  assert (fexp prec emax (Z.log2 (Zpos p) + 1 + 0) - 0 = Z.log2 (Zpos p) - 52) as Hf.
  { unfold fexp, emin, prec, emax. lia. }
  rewrite Hf. assert (fexp prec emax (Z.log2 (Zpos p) + 1 + 0) = Z.log2 (Zpos p) - 52) as Hf' by lia. rewrite Hf'.
  destruct (Z.log2 (Zpos p) - 52) as [| d | d] eqn:Ed.
  - exists p, 0. rewrite round_aux_exact by lia. split; [done |]. split; [lia |]. simpl. lia.
  - lia.
  - exists (Pos.iter xO p d), (Zneg d).
    assert (Z.log2 (Zpos (Pos.iter xO p d)) = 52) as Hl.
    { rewrite iter_xO_val, Z.log2_mul_pow2 by lia. lia. }
    rewrite round_aux_exact by (done || lia). split; [done |]. split; [lia |]. rewrite iter_xO_val. done.
Qed.

Lemma int_not_nan v : - 2 ^ 53 < v < 2 ^ 53 -> is_nan (pas_int64_to_double v) = false.
Proof.
  intros H. assert (forall p, Zpos p < 2 ^ 53 -> Z.log2 (Zpos p) < 53) as Hl by (intros p Hp; apply Z.log2_lt_pow2; lia).
  unfold pas_int64_to_double, binary_normalize.
  destruct v as [| p | p]; [done | destruct (round_exact false p) as (m & e & -> & _) |
    destruct (round_exact true p) as (m & e & -> & _)]; try done; apply Hl; lia.
Qed.

(** an integer of at most 53 bits survives the conversion to a double and back. *)
Theorem int64_double_roundtrip v (H : - 2 ^ 53 < v < 2 ^ 53) : pas_double_to_int64 (pas_int64_to_double v) = v.
Proof.
  assert (forall s p, Zpos p < 2 ^ 53 -> exists m e,
    binary_round prec emax s p 0 = S754_finite s m e /\ Trunc.real_trunc (S754_finite s m e) = if s then Zneg p else Zpos p) as Hr.
  { intros s p Hp. assert (Z.log2 (Zpos p) < 53) as Hl by (apply Z.log2_lt_pow2; lia).
    destruct (round_exact s p Hl) as (m & e & E & He & Hm). exists m, e. split; [done |].
    unfold Trunc.real_trunc. destruct (Z.leb_spec 0 e).
    - replace e with 0 in * by lia. simpl in *. destruct s; lia.
    - assert (0 < 2 ^ (- e)) by (apply Z.pow_pos_nonneg; lia).
      destruct s; [change (Zneg m) with (- Zpos m) | idtac]; rewrite Hm; rewrite ?Z.quot_opp_l by lia; rewrite Z.quot_mul by lia; lia. }
  rewrite double_to_int64_clamps. unfold pas_int64_to_double, binary_normalize, clamp, INT64_MIN, INT64_MAX.
  destruct v as [| p | p]; [done | destruct (Hr false p ltac:(lia)) as (m & e & -> & ->) |
    destruct (Hr true p ltac:(lia)) as (m & e & -> & ->)]; lia.
Qed.

Lemma int64_double_roundtrip_witness : pas_double_to_int64 (pas_int64_to_double 9007199254740991) = 9007199254740991.
Proof. apply (int64_double_roundtrip 9007199254740991). split; reflexivity. Defined.
