(* ===== verification/RealProps.v ===== *)
(** Decimal and binary: [real_of_decimal], the reading of a decimal number, rounds to the
    nearest double, and 17 digits of a double are near enough to read back as that double.
    Everything is integer arithmetic: numbers are compared in units of 2 ^ (e + 1074), with
    1074 the depth of the smallest double. *)

From Stdlib Require Import ZArith Ascii String SpecFloat Lia.
From stdpp Require Import base list strings.
From S2P Require Import Prelude Real CPrelude Numeric.
#[local] Open Scope Z_scope.

(** * Rounding *)

(** [A / B] with what is below the unit: [shr_m] is the quotient, the two bits tell
    zero, less than half, half, and more than half. *)
Definition repr (A B : Z) (x : shr_record) : Prop :=
  0 < B /\ 0 <= shr_m x /\ exists R, A = shr_m x * B + R /\ 0 <= R < B /\
    match shr_r x, shr_s x with
    | false, false => R = 0
    | false, true => 0 < R /\ 2 * R < B
    | true, false => 2 * R = B
    | true, true => B < 2 * R
    end.

Lemma repr_shr_1 A B x : repr A B x -> repr A (2 * B) (shr_1 x).
Proof.
  destruct x as [m r s]. intros (HB & Hm & R & HA & HR & Hrs). cbn [shr_m shr_r shr_s] in *. split; [lia |].
  assert (forall (m2 : Z) (b : bool), 0 <= m2 -> m = 2 * m2 + Z.b2z b -> 0 <= m2 /\ exists R', A = m2 * (2 * B) + R' /\ 0 <= R' < 2 * B /\
    match b, r || s with
    | false, false => R' = 0
    | false, true => 0 < R' /\ 2 * R' < 2 * B
    | true, false => 2 * R' = 2 * B
    | true, true => 2 * B < 2 * R'
    end) as H.
  { intros m2 b H0 Hm2. split; [done |]. exists (Z.b2z b * B + R). destruct b, r, s; cbn [orb Z.b2z] in *; subst m; nia. }
  destruct m as [| [p | p |] | p]; [apply (H 0 false) | apply (H (Zpos p) true) | apply (H (Zpos p) false) | apply (H 0 true) |]; cbn [Z.b2z]; lia.
Qed.

Lemma repr_iter p : forall A B x, repr A B x -> repr A (B * 2 ^ Zpos p) (SpecFloat.iter_pos shr_1 p x).
Proof.
  induction p as [p IH | p IH |]; intros A B x Hx; cbn [SpecFloat.iter_pos].
  - replace (B * 2 ^ Zpos p~1) with ((2 * B * 2 ^ Zpos p) * 2 ^ Zpos p).
    + by apply IH, IH, repr_shr_1.
    + rewrite Pos2Z.inj_xI, Z.pow_add_r, Z.pow_twice_r by lia. lia.
  - replace (B * 2 ^ Zpos p~0) with ((B * 2 ^ Zpos p) * 2 ^ Zpos p).
    + by apply IH, IH.
    + replace (Zpos p~0) with (Zpos p + Zpos p) by lia. rewrite Z.pow_add_r by lia. lia.
  - replace (B * 2 ^ 1) with (2 * B) by lia. by apply repr_shr_1.
Qed.

Lemma div_round_unique A B q R : 0 < B -> A = q * B + R -> 0 <= R < B ->
  div_round A B = match 2 * R ?= B with Lt => q | Gt => q + 1 | Eq => if Z.even q then q else q + 1 end.
Proof.
  intros HB HA HR. unfold div_round. pose proof (Z_div_mod A B ltac:(lia)) as H. destruct (Z.div_eucl A B) as [q' r'].
  destruct H as [H1 H2]. assert (q' = q /\ r' = R) as [-> ->]; [| done].
  assert (q' = q) by nia. subst. split; [done | lia].
Qed.

(** Rounding the record is rounding the number. *)
Lemma repr_round A B x : repr A B x -> round_nearest_even (shr_m x) (loc_of_shr_record x) = div_round A B.
Proof.
  destruct x as [m r s]. intros (HB & Hm & R & HA & HR & Hrs). cbn [shr_m shr_r shr_s] in *.
  rewrite (div_round_unique A B m R HB HA HR). destruct r, s; cbn.
  - by rewrite (proj2 (Z.compare_gt_iff _ _)) by lia.
  - by rewrite (proj2 (Z.compare_eq_iff _ _)) by lia.
  - by rewrite (proj2 (Z.compare_lt_iff _ _)) by lia.
  - subst R. by rewrite (proj2 (Z.compare_lt_iff _ _)) by lia.
Qed.

(** [n] when [A / B] is nearer to [n] than a half. *)
Lemma div_round_near A B n : 0 < B -> 2 * Z.abs (A - n * B) < B -> div_round A B = n.
Proof.
  intros HB Hn. pose proof (Z_div_mod_eq_full A B) as H. pose proof (Z.mod_pos_bound A B HB) as Hm.
  rewrite (div_round_unique A B (A / B) (A `mod` B) HB ltac:(lia) Hm).
  assert (A / B = n \/ A / B = n - 1) as [E | E] by nia; rewrite E in H.
  - by rewrite (proj2 (Z.compare_lt_iff _ _)) by nia.
  - rewrite (proj2 (Z.compare_gt_iff _ _)) by nia. lia.
Qed.

Lemma div_round_error A B : 0 < B -> 2 * Z.abs (div_round A B * B - A) <= B.
Proof.
  intros HB. pose proof (Z_div_mod_eq_full A B) as H. pose proof (Z.mod_pos_bound A B HB) as Hm.
  rewrite (div_round_unique A B (A / B) (A `mod` B) HB ltac:(lia) Hm).
  destruct (Z.compare_spec (2 * (A `mod` B)) B); [destruct (Z.even _) | |]; nia.
Qed.

(** * Exponents *)

Definition T (e : Z) : Z := 2 ^ (e + 1074).

Lemma T_pos e : -1074 <= e -> 0 < T e.
Proof. intros H. apply Z.pow_pos_nonneg; lia. Qed.
Lemma T_add e n : -1074 <= e -> 0 <= n -> T (e + n) = T e * 2 ^ n.
Proof. intros H1 H2. unfold T. rewrite <- Z.pow_add_r by lia. f_equal. lia. Qed.
Lemma T_lt e f : -1074 <= f -> T e < T f -> e < f.
Proof. intros Hf H. apply Z.nle_gt. intros Hle. pose proof (Z.pow_le_mono_r 2 (f + 1074) (e + 1074) ltac:(lia) ltac:(lia)). unfold T in H. lia. Qed.

Abbreviation fexp64 := (fexp prec emax).
Lemma fexp64_eq e : fexp64 e = Z.max (e - 53) (-1074).
Proof. unfold fexp, emin, prec, emax. lia. Qed.

Lemma Zdigits2_bounds m : 0 < m -> 2 ^ (Zdigits2 m - 1) <= m < 2 ^ Zdigits2 m.
Proof.
  destruct m as [| p | p]; [lia | | lia]. intros _. rewrite Zdigits2_val.
  pose proof (Z.log2_spec (Zpos p) ltac:(lia)) as [H1 H2]. replace (Z.log2 (Zpos p) + 1 - 1) with (Z.log2 (Zpos p)) by lia.
  split; [done |]. by rewrite <- Z.add_1_r in H2.
Qed.
Lemma Zdigits2_pos m : 0 < m -> 0 < Zdigits2 m.
Proof. destruct m; done. Qed.

(** * The nearest double *)

(** A positive double. *)
Definition double (m : positive) (e : Z) : Prop := fexp64 (Zdigits2 (Zpos m) + e) = e /\ e <= 971.

(** The number [A / B], in units of 2 ^ -1074, is nearer to [m * 2 ^ e] than to any
    other double. *)
Definition nearest (A B : Z) (m : positive) (e : Z) : Prop :=
  2 * Z.abs (A - Zpos m * T e * B) < B * T e /\
  (Zpos m = 2 ^ 52 -> -1074 < e -> 4 * (Zpos m * T e * B - A) < B * T e).

(** The last step, with a mantissa that has its precision. *)
Lemma round_done m e : double m e ->
  (let '(mrs, e') := shr_fexp prec emax (Zpos m) e loc_Exact in
   match shr_m mrs with
   | Z0 => S754_zero false
   | Zpos m' => if e' <=? emax - prec then S754_finite false m' e' else S754_infinity false
   | _ => S754_nan
   end) = S754_finite false m e.
Proof.
  intros [Hf He]. unfold shr_fexp. rewrite Hf, Z.sub_diag. cbn.
  rewrite (proj2 (Z.leb_le _ _)); [done | unfold emax, prec; lia].
Qed.

(** The step that rounds: the exponent it ends with, and the mantissa. *)
Lemma shr_fexp_repr A B mx ex lx : -1074 <= ex -> repr A (B * T ex) (shr_record_of_loc mx lx) -> 0 < B ->
  ex <= fexp64 (Zdigits2 mx + ex) ->
  exists mrs, shr_fexp prec emax mx ex lx = (mrs, fexp64 (Zdigits2 mx + ex)) /\ repr A (B * T (fexp64 (Zdigits2 mx + ex))) mrs.
Proof.
  intros Hex Hr HB Hle. unfold shr_fexp, shr. destruct (fexp64 (Zdigits2 mx + ex) - ex) as [| p | p] eqn:E; [| | lia].
  - exists (shr_record_of_loc mx lx). replace (fexp64 (Zdigits2 mx + ex)) with ex by lia. done.
  - eexists. split; [f_equal; lia |]. replace (fexp64 (Zdigits2 mx + ex)) with (ex + Zpos p) by lia.
    rewrite T_add, Z.mul_assoc by lia. by apply repr_iter.
Qed.

(** A number under a power of two may have the exponent below. *)
Lemma below_power A B mx ex R m e : double m e -> nearest A B m e -> 0 < B -> 0 <= mx -> -1074 <= ex ->
  A = mx * (B * T ex) + R -> 0 <= R < B * T ex -> ex <= fexp64 (Zdigits2 mx + ex) -> fexp64 (Zdigits2 mx + ex) <> e ->
  Zpos m = 2 ^ 52 /\ -1074 < e /\ fexp64 (Zdigits2 mx + ex) = e - 1 /\ A < Zpos m * T e * B.
Proof.
  intros [Hf He] [Hn Hq] HB Hmx Hex HA HR Hle Hne. rewrite fexp64_eq in *.
  pose proof (Zdigits2_bounds (Zpos m) ltac:(lia)) as [Hm1 Hm2]. pose proof (Zdigits2_pos (Zpos m) ltac:(lia)) as Hdv.
  set (dv := Zdigits2 (Zpos m)) in *. pose proof (T_pos e ltac:(lia)) as HTe. pose proof (T_pos ex Hex) as HTx.
  assert (A < T (e + dv) * B) as Hup by (rewrite T_add by lia; nia).
  destruct (decide (mx = 0)) as [-> | Hmx0].
  { change (Zdigits2 0) with 0 in *. assert (ex = -1074) as -> by lia. change (T (-1074)) with 1 in *. exfalso.
    assert (T e < 2) as H2 by nia. assert (e < -1073) by (apply (T_lt e (-1073)); [lia | exact H2]). lia. }
  pose proof (Zdigits2_bounds mx ltac:(lia)) as [Hx1 Hx2]. pose proof (Zdigits2_pos mx ltac:(lia)) as HD. set (D := Zdigits2 mx) in *.
  assert (T (ex + (D - 1)) * B <= A) as Hlo by (rewrite T_add by lia; clear -HA HR Hx1 HB HTx; nia).
  assert (A < T (ex + D) * B) as Hhi by (rewrite T_add by lia; clear -HA HR Hx2 HB HTx; nia).
  assert (ex + (D - 1) < e + dv) as H1 by (apply T_lt; [lia | clear -Hlo Hup HB; nia]).
  assert (D + ex <> dv + e) as H2 by (intros E; apply Hne; rewrite E; exact Hf).
  assert (T (ex + D) <= T (e + (dv - 1))) as H3 by (unfold T; apply Z.pow_le_mono_r; lia).
  assert (T (e + (dv - 1)) = T e * 2 ^ (dv - 1)) as H4 by (apply T_add; lia).
  assert (2 ^ dv = 2 * 2 ^ (dv - 1)) as H5 by (replace dv with (Z.succ (dv - 1)) at 1 by lia; apply Z.pow_succ_r; lia).
  assert (Zpos m = 2 ^ (dv - 1)) as H6 by (clear -Hhi H3 H4 Hn HTe HB Hm1 H5; nia).
  assert (-1074 < e) as H7 by lia. assert (dv = 53) as H8 by lia. rewrite H8 in *. change (2 ^ (53 - 1)) with 4503599627370496 in *.
  specialize (Hq H6 H7). assert (T (e + 51) < T (ex + D)) as H9 by (rewrite T_add by lia; change (2 ^ 51) with 2251799813685248; nia).
  apply T_lt in H9; [| lia]. split; [done |]. split; [done |]. split; [lia |]. rewrite H6. nia.
Qed.

Lemma round_near A B mx ex lx m e : double m e -> nearest A B m e -> 0 < B -> 0 <= mx -> -1074 <= ex ->
  repr A (B * T ex) (shr_record_of_loc mx lx) -> ex <= fexp64 (Zdigits2 mx + ex) ->
  binary_round_aux prec emax false mx ex lx = S754_finite false m e.
Proof.
  intros Hd Hnear HB Hmx Hex Hr Hle. unfold binary_round_aux.
  destruct (shr_fexp_repr A B mx ex lx Hex Hr HB Hle) as (mrs & -> & Hrep). rewrite (repr_round _ _ _ Hrep).
  assert (-1074 <= e) as He by (destruct Hd as [Hf _]; rewrite fexp64_eq in Hf; lia).
  destruct (decide (fexp64 (Zdigits2 mx + ex) = e)) as [-> | Hne].
  { pose proof (T_pos e He). rewrite (div_round_near A (B * T e) (Zpos m)) by (destruct Hnear; nia). by apply round_done. }
  assert (shr_m (shr_record_of_loc mx lx) = mx) as Em by (by destruct lx as [| []]).
  destruct Hr as (_ & _ & R & HA & HR & _). rewrite Em in HA.
  destruct (below_power A B mx ex R m e Hd Hnear HB Hmx Hex HA HR Hle Hne) as (Hm & He' & -> & Hlt).
  destruct Hnear as [_ Hq]. specialize (Hq Hm He'). pose proof (T_pos (e - 1) ltac:(lia)) as HT.
  assert (T e = 2 * T (e - 1)) as E2 by (replace e with (e - 1 + 1) at 1 by lia; rewrite T_add by lia; lia).
  rewrite E2, Hm in *. change (2 ^ 52) with 4503599627370496 in *.
  rewrite (div_round_near A (B * T (e - 1)) (2 ^ 53)) by (change (2 ^ 53) with 9007199254740992; nia).
  unfold shr_fexp. change (Zdigits2 (2 ^ 53)) with 54. rewrite fexp64_eq. destruct Hd as [_ He2].
  replace (Z.max (54 + (e - 1) - 53) (-1074) - (e - 1)) with 1 by lia. cbn [shr SpecFloat.iter_pos].
  change (shr_m (shr_1 (shr_record_of_loc (2 ^ 53) loc_Exact))) with 4503599627370496. cbv iota.
  replace (e - 1 + 1) with e by lia. rewrite (proj2 (Z.leb_le _ _)) by (unfold emax, prec; lia). f_equal. lia.
Qed.

(** * Reading a decimal number *)

Lemma Zdigits2_mul_pow2 m n : 0 < m -> 0 <= n -> Zdigits2 (m * 2 ^ n) = Zdigits2 m + n.
Proof.
  intros Hm Hn. pose proof (Z.pow_pos_nonneg 2 n ltac:(lia) Hn).
  assert (forall z, 0 < z -> Zdigits2 z = Z.log2 z + 1) as H0 by (intros [| p | p] Hz; try lia; apply Zdigits2_val).
  rewrite !H0 by nia. rewrite Z.log2_mul_pow2 by lia. lia.
Qed.

Lemma repr_exact A B mx : 0 < B -> 0 <= mx -> A = mx * B -> repr A B (shr_record_of_loc mx loc_Exact).
Proof. intros HB Hm HA. split; [done |]. split; [done |]. exists 0. cbn. lia. Qed.

(** What [binary_round_aux] is called with: a quotient that has its digits. *)
Definition prepared (A B mx ex : Z) (lx : location) : Prop :=
  0 < B /\ 0 <= mx /\ -1074 <= ex /\ repr A (B * T ex) (shr_record_of_loc mx lx) /\ ex <= fexp64 (Zdigits2 mx + ex).

Lemma normalize_prepared a : 0 < a -> exists mx ex,
  binary_normalize prec emax a 0 false = binary_round_aux prec emax false mx ex loc_Exact /\ prepared (a * 2 ^ 1074) 1 mx ex loc_Exact.
Proof.
  intros Ha. destruct a as [| p | p]; [lia | | lia]. unfold binary_normalize, binary_round, shl_align, prepared.
  change (Zpos (digits2_pos p)) with (Zdigits2 (Zpos p)). rewrite Z.add_0_r, Z.sub_0_r.
  pose proof (fexp64_eq (Zdigits2 (Zpos p))) as Hf.
  destruct (fexp64 (Zdigits2 (Zpos p))) as [| q | q] eqn:Ef.
  - exists (Zpos p), 0. split; [done |]. split_and!; try lia; [apply repr_exact; [done | lia | done] | rewrite Z.add_0_r; lia].
  - exists (Zpos p), 0. split; [done |]. split_and!; try lia; [apply repr_exact; [done | lia | done] | rewrite Z.add_0_r; lia].
  - exists (Zpos (Pos.iter xO p q)), (Zneg q). split; [done |]. rewrite iter_xO_val. assert (0 < 2 ^ Zpos q) by (apply Z.pow_pos_nonneg; lia).
    pose proof (T_pos (Zneg q) ltac:(lia)) as HT.
    assert (2 ^ Zpos q * T (Zneg q) = 2 ^ 1074) as E by (unfold T; rewrite <- Z.pow_add_r by lia; f_equal; lia).
    split_and!; try lia.
    + apply repr_exact; [lia | lia |]. rewrite <- E. lia.
    + rewrite Zdigits2_mul_pow2 by lia. replace (Zdigits2 (Zpos p) + Zpos q + Zneg q) with (Zdigits2 (Zpos p)) by lia. lia.
Qed.

(** The quotient of the division has enough digits. *)
Lemma quotient_digits a b s q r e' : 0 < a -> 0 < b -> 0 <= s -> a * 2 ^ s = b * q + r -> 0 <= r < b -> e' = - s ->
  e' <= fexp64 (Zdigits2 a - Zdigits2 b) -> (s = 0 \/ e' = fexp64 (Zdigits2 a - Zdigits2 b)) -> e' <= fexp64 (Zdigits2 q + e').
Proof.
  intros Ha Hb Hs Hq Hr -> Hle Hor. rewrite fexp64_eq in *. pose proof (Zdigits2_bounds a Ha) as [Ha1 Ha2].
  pose proof (Zdigits2_bounds b Hb) as [Hb1 Hb2]. pose proof (Zdigits2_pos a Ha). pose proof (Zdigits2_pos b Hb).
  pose proof (Z.pow_pos_nonneg 2 s ltac:(lia) Hs) as Hp.
  assert (2 ^ (Zdigits2 a - 1 + s) <= a * 2 ^ s) as Hlo by (rewrite Z.pow_add_r by lia; nia).
  assert (0 <= q) as Hq0 by nia.
  destruct (decide (q = 0)) as [-> | Hqn].
  - assert (Zdigits2 a - 1 + s < Zdigits2 b) as Hd by (apply (Z.pow_lt_mono_r_iff 2); lia). change (Zdigits2 0) with 0. lia.
  - pose proof (Zdigits2_bounds q ltac:(lia)) as [_ Hq2]. pose proof (Zdigits2_pos q ltac:(lia)).
    assert (a * 2 ^ s < 2 ^ (Zdigits2 b + Zdigits2 q)) as Hhi by (rewrite Z.pow_add_r by lia; nia).
    assert (Zdigits2 a - 1 + s < Zdigits2 b + Zdigits2 q) as Hd by (apply (Z.pow_lt_mono_r_iff 2); lia). lia.
Qed.

Lemma divide_prepared a b : 0 < a -> 0 < b -> Z.even b = true ->
  let '(mz, ez, lz) := SFdiv_core_binary prec emax a 0 b 0 in prepared (a * 2 ^ 1074) b mz ez lz.
Proof.
  intros Ha Hb Hev. unfold SFdiv_core_binary. rewrite !Z.add_0_r, Z.sub_diag.
  set (e' := Z.min (fexp64 (Zdigits2 a - Zdigits2 b)) 0). pose proof (fexp64_eq (Zdigits2 a - Zdigits2 b)) as Hf.
  assert ((match 0 - e' with Z0 => a | Zpos _ => Z.shiftl a (0 - e') | Zneg _ => 0 end) = a * 2 ^ (- e')) as ->.
  { rewrite <- Z.shiftl_mul_pow2 by lia. destruct (0 - e') as [| p | p] eqn:E; [| | lia].
    - replace (- e') with 0 by lia. by rewrite Z.shiftl_0_r.
    - f_equal. lia. }
  pose proof (Z_div_mod (a * 2 ^ (- e')) b ltac:(lia)) as Hqr. destruct (Z.div_eucl (a * 2 ^ (- e')) b) as [q r]. destruct Hqr as [Hqr Hr].
  unfold new_location. rewrite Hev. pose proof (T_pos e' ltac:(lia)) as HT. pose proof (Z.pow_pos_nonneg 2 (- e') ltac:(lia) ltac:(lia)) as Hp.
  assert (2 ^ (- e') * T e' = 2 ^ 1074) as ET by (unfold T; rewrite <- Z.pow_add_r by lia; f_equal; lia).
  assert (a * 2 ^ 1074 = q * (b * T e') + r * T e') as EA.
  { rewrite <- ET. transitivity (a * 2 ^ (- e') * T e'); [lia |]. rewrite Hqr. lia. }
  assert (0 <= q) as Hq by nia. unfold prepared. split; [done |]. split; [done |]. split; [lia |]. split.
  - unfold new_location_even. split; [nia |]. split; [by destruct (r =? 0), (2 * r ?= b) |]. exists (r * T e').
    assert (forall l, shr_m (shr_record_of_loc q l) = q) as Em by (by intros [| []]). rewrite Em.
    split; [done |]. split; [nia |]. destruct (Z.eqb_spec r 0) as [-> | Hr0]; [cbn; lia |].
    destruct (Z.compare_spec (2 * r) b) as [E | E | E]; cbn; nia.
  - apply (quotient_digits a b (- e') q r); try lia.
Qed.

(** The number [M * 10 ^ k] as a quotient of integers. *)
Definition dnum (M k : Z) : Z := M * 10 ^ Z.max k 0.
Definition dden (k : Z) : Z := 10 ^ Z.max (- k) 0.

Lemma dden_pos k : 0 < dden k.
Proof. apply Z.pow_pos_nonneg; lia. Qed.

Lemma decimal_prepared M k : 0 < M -> exists mx ex lx,
  real_of_decimal M k = binary_round_aux prec emax false mx ex lx /\ prepared (dnum M k * 2 ^ 1074) (dden k) mx ex lx.
Proof.
  intros HM. unfold real_of_decimal, dnum, dden. destruct (Z.eqb_spec M 0); [lia |]. destruct (Z.leb_spec 0 k) as [Hk | Hk].
  - rewrite Z.max_l by lia. replace (Z.max (- k) 0) with 0 by lia. pose proof (Z.pow_pos_nonneg 10 k ltac:(lia) Hk).
    destruct (normalize_prepared (M * 10 ^ k)) as (mx & ex & E & Hp); [nia |]. by exists mx, ex, loc_Exact.
  - replace (Z.max k 0) with 0 by lia. replace (Z.max (- k) 0) with (- k) by lia. rewrite Z.mul_1_r.
    pose proof (divide_prepared M (10 ^ (- k)) HM) as Hp. destruct (SFdiv_core_binary prec emax M 0 (10 ^ (- k)) 0) as [[mz ez] lz].
    exists mz, ez, lz. split; [done |]. apply Hp; [apply Z.pow_pos_nonneg; lia |]. rewrite Z.even_pow by lia. done.
Qed.

Lemma real_of_decimal_near M k m e : 0 < M -> double m e -> nearest (dnum M k * 2 ^ 1074) (dden k) m e ->
  real_of_decimal M k = S754_finite false m e.
Proof.
  intros HM Hd Hn. destruct (decimal_prepared M k HM) as (mx & ex & lx & -> & HB & Hm & Hex & Hr & Hle).
  by apply (round_near _ _ _ _ _ m e Hd Hn).
Qed.

(** * The decimal exponent *)

Lemma pow10_pos n : 0 < 10 ^ Z.max n 0.
Proof. apply Z.pow_pos_nonneg; lia. Qed.

(** [d * 10 ^ x <= n] does not depend on how the power is split. *)
Lemma pow10_split n d a b a' b' : 0 <= a -> 0 <= b -> 0 <= a' -> 0 <= b' -> a - b = a' - b' ->
  d * 10 ^ a <= n * 10 ^ b -> d * 10 ^ a' <= n * 10 ^ b'.
Proof.
  intros Ha Hb Ha' Hb' E H. assert (10 ^ a * 10 ^ b' = 10 ^ a' * 10 ^ b) as Ep by (rewrite <- !Z.pow_add_r by lia; f_equal; lia).
  pose proof (Z.pow_pos_nonneg 10 a ltac:(lia) Ha). pose proof (Z.pow_pos_nonneg 10 b ltac:(lia) Hb).
  pose proof (Z.pow_pos_nonneg 10 a' ltac:(lia) Ha'). pose proof (Z.pow_pos_nonneg 10 b' ltac:(lia) Hb').
  apply (Z.mul_le_mono_pos_r _ _ (10 ^ b)); [done |]. rewrite <- Z.mul_assoc, <- Ep, Z.mul_assoc.
  rewrite <- (Z.mul_assoc n), (Z.mul_comm (10 ^ b')), Z.mul_assoc. apply Z.mul_le_mono_nonneg_r; lia.
Qed.

Definition at_least (n d x : Z) : Prop := d * 10 ^ Z.max x 0 <= n * 10 ^ Z.max (- x) 0.

Lemma at_least_spec n d x : at_least_pow10 n d x = true <-> at_least n d x.
Proof.
  unfold at_least_pow10, at_least. destruct (Z.leb_spec 0 x); rewrite Z.leb_le.
  - replace (Z.max x 0) with x by lia. replace (Z.max (- x) 0) with 0 by lia. lia.
  - replace (Z.max x 0) with 0 by lia. replace (Z.max (- x) 0) with (- x) by lia. lia.
Qed.
Lemma at_least_false n d x : at_least_pow10 n d x = false <-> ~ at_least n d x.
Proof. rewrite <- at_least_spec. by destruct (at_least_pow10 n d x). Qed.

Lemma at_least_lower n d x y : 0 < d -> y <= x -> at_least n d x -> at_least n d y.
Proof.
  intros Hd Hy H. unfold at_least in *.
  assert (d * 10 ^ (Z.max y 0 + (x - y)) <= n * 10 ^ Z.max (- y) 0) as H'.
  { revert H. apply pow10_split; lia. }
  rewrite Z.pow_add_r in H' by lia. pose proof (pow10_pos y). pose proof (Z.pow_pos_nonneg 10 (x - y) ltac:(lia) ltac:(lia)). nia.
Qed.

(** Powers of ten and of two, from 10 ^ 59 <= 2 ^ 196 and 2 ^ 93 <= 10 ^ 28. *)
Lemma pow10_le_pow2 y z : 0 <= y -> 0 <= z -> 196 * y <= 59 * z -> 10 ^ y <= 2 ^ z.
Proof.
  intros Hy Hz H. pose proof (Z.pow_pos_nonneg 2 z ltac:(lia) Hz).
  apply (Z.pow_le_mono_l_iff _ _ 59); [apply Z.pow_nonneg; lia | lia | lia |]. rewrite <- !Z.pow_mul_r by lia. rewrite (Z.mul_comm y), Z.pow_mul_r by lia.
  transitivity ((2 ^ 196) ^ y); [apply Z.pow_le_mono_l; split; [lia |]; vm_compute; discriminate |].
  rewrite <- Z.pow_mul_r by lia. apply Z.pow_le_mono_r; lia.
Qed.
Lemma pow2_le_pow10 z w : 0 <= z -> 0 <= w -> 28 * z <= 93 * w -> 2 ^ z <= 10 ^ w.
Proof.
  intros Hz Hw H. pose proof (Z.pow_pos_nonneg 10 w ltac:(lia) Hw).
  apply (Z.pow_le_mono_l_iff _ _ 93); [apply Z.pow_nonneg; lia | lia | lia |]. rewrite <- !Z.pow_mul_r by lia. rewrite (Z.mul_comm z), Z.pow_mul_r by lia.
  transitivity ((10 ^ 28) ^ z); [apply Z.pow_le_mono_l; split; [lia |]; vm_compute; discriminate |].
  rewrite <- Z.pow_mul_r by lia. apply Z.pow_le_mono_r; lia.
Qed.

(** The guess from the number of binary digits is at most two off. *)
Definition guess (L : Z) : Z := L * 30103 / 100000.
Definition guess_ok (L : Z) : Prop :=
  let x := guess L in
  10 ^ Z.max (x - 2) 0 * 2 ^ Z.max (1 - L) 0 <= 2 ^ Z.max (L - 1) 0 * 10 ^ Z.max (2 - x) 0 /\
  2 ^ Z.max (L + 1) 0 * 10 ^ Z.max (- (x + 2)) 0 <= 10 ^ Z.max (x + 2) 0 * 2 ^ Z.max (- (L + 1)) 0.

Lemma guesses L : -1100 <= L <= 1100 -> guess_ok L.
Proof.
  intros HL. unfold guess_ok. assert (100000 * guess L <= L * 30103 < 100000 * guess L + 100000) as Hx.
  { unfold guess. pose proof (Z.div_mod (L * 30103) 100000 ltac:(lia)). pose proof (Z.mod_pos_bound (L * 30103) 100000 ltac:(lia)). lia. }
  generalize dependent (guess L). intros x Hx. split.
  - destruct (Z.lt_ge_cases L 1).
    + rewrite (Z.max_r (x - 2)), (Z.max_l (1 - L)), (Z.max_r (L - 1)), (Z.max_l (2 - x)), Z.mul_1_l, Z.mul_1_l by lia. apply pow2_le_pow10; lia.
    + rewrite (Z.max_r (1 - L)), (Z.max_l (L - 1)) by lia. rewrite Z.mul_1_r. destruct (Z.lt_ge_cases x 2).
      * rewrite (Z.max_r (x - 2)) by lia. pose proof (Z.pow_pos_nonneg 2 (L - 1) ltac:(lia) ltac:(lia)).
        pose proof (Z.pow_pos_nonneg 10 (Z.max (2 - x) 0) ltac:(lia) ltac:(lia)). nia.
      * rewrite (Z.max_l (x - 2)), (Z.max_r (2 - x)), Z.mul_1_r by lia. apply pow10_le_pow2; lia.
  - destruct (Z.lt_ge_cases L (-1)).
    + rewrite (Z.max_r (L + 1)), (Z.max_l (- (L + 1))), Z.mul_1_l by lia. destruct (Z.lt_ge_cases x (-2)).
      * rewrite (Z.max_l (- (x + 2))), (Z.max_r (x + 2)), Z.mul_1_l by lia. apply pow10_le_pow2; lia.
      * rewrite (Z.max_r (- (x + 2))) by lia. pose proof (Z.pow_pos_nonneg 10 (Z.max (x + 2) 0) ltac:(lia) ltac:(lia)).
        pose proof (Z.pow_pos_nonneg 2 (- (L + 1)) ltac:(lia) ltac:(lia)). nia.
    + rewrite (Z.max_l (L + 1)), (Z.max_r (- (L + 1))), (Z.max_r (- (x + 2))), (Z.max_l (x + 2)), !Z.mul_1_r by lia. apply pow2_le_pow10; lia.
Qed.

Lemma cross_le d n p1 p2 t1 t2 D N : 0 <= d <= D -> 0 < N <= n -> 0 < p1 -> 0 < p2 -> 0 < t1 -> 0 < t2 ->
  p1 * t1 <= t2 * p2 -> N * t1 = D * t2 -> d * p1 <= n * p2.
Proof.
  intros Hd Hn H1 H2 H3 H4 Hle E. pose proof (Z.mul_pos_pos _ _ H1 H3) as P13. pose proof (Z.mul_pos_pos _ _ H3 H2) as P32.
  assert (d * (p1 * t1) <= D * (t2 * p2)) as A1 by (apply Z.mul_le_mono_nonneg; lia).
  assert (D * (t2 * p2) = N * (t1 * p2)) as A2 by (rewrite !Z.mul_assoc, <- E; done).
  assert (N * (t1 * p2) <= n * (t1 * p2)) as A3 by (apply Z.mul_le_mono_nonneg_r; lia).
  apply (Z.mul_le_mono_pos_r _ _ t1); [done |]. lia.
Qed.

Lemma two_pow_pos n : 0 < 2 ^ Z.max n 0.
Proof. apply Z.pow_pos_nonneg; lia. Qed.
Lemma log2_bounds n : 0 < n -> 0 < 2 ^ Z.log2 n <= n /\ n < 2 ^ (Z.log2 n + 1).
Proof.
  intros Hn. pose proof (Z.log2_spec n Hn) as [H1 H2]. rewrite <- Z.add_1_r in H2. pose proof (Z.log2_nonneg n).
  split; [| done]. split; [apply Z.pow_pos_nonneg; lia | done].
Qed.
Lemma pow2_shift a b c d x : 0 <= a -> 0 <= b -> a + Z.max (- x) 0 = b + Z.max x 0 -> c = - x -> d = x ->
  2 ^ a * 2 ^ Z.max c 0 = 2 ^ b * 2 ^ Z.max d 0.
Proof. intros Ha Hb E -> ->. rewrite <- !Z.pow_add_r by lia. by rewrite E. Qed.

Lemma guess_low n d L : 0 < n -> 0 < d -> L = Z.log2 n - Z.log2 d -> guess_ok L -> at_least n d (guess L - 2).
Proof.
  intros Hn Hd HL [H1 _].
  destruct (log2_bounds n Hn) as [Hn1 _]. destruct (log2_bounds d Hd) as [_ Hd2]. unfold at_least.
  replace (- (guess L - 2)) with (2 - guess L) by lia.
  apply (cross_le d n _ _ (2 ^ Z.max (1 - L) 0) (2 ^ Z.max (L - 1) 0) (2 ^ (Z.log2 d + 1)) (2 ^ Z.log2 n));
    [clear -Hd Hd2; lia | done | apply pow10_pos | apply pow10_pos | apply two_pow_pos | apply two_pow_pos | exact H1 |].
  pose proof (Z.log2_nonneg n). pose proof (Z.log2_nonneg d). clear H1 Hn1 Hd2. apply (pow2_shift _ _ _ _ (L - 1)); lia.
Qed.
Lemma guess_high n d L : 0 < n -> 0 < d -> L = Z.log2 n - Z.log2 d -> guess_ok L -> ~ at_least n d (guess L + 2).
Proof.
  intros Hn Hd HL [_ H2].
  destruct (log2_bounds n Hn) as [_ Hn2]. destruct (log2_bounds d Hd) as [Hd1 _]. unfold at_least.
  assert ((n + 1) * 10 ^ Z.max (- (guess L + 2)) 0 <= d * 10 ^ Z.max (guess L + 2) 0) as H.
  { apply (cross_le (n + 1) d _ _ (2 ^ Z.max (L + 1) 0) (2 ^ Z.max (- (L + 1)) 0) (2 ^ (Z.log2 n + 1)) (2 ^ Z.log2 d));
      [clear -Hn Hn2; lia | done | apply pow10_pos | apply pow10_pos | apply two_pow_pos | apply two_pow_pos | rewrite (Z.mul_comm (10 ^ _)), (Z.mul_comm (2 ^ Z.max (- (L + 1)) 0)); exact H2 |].
    pose proof (Z.log2_nonneg n). pose proof (Z.log2_nonneg d). clear H2 Hn2 Hd1. apply (pow2_shift _ _ _ _ (- (L + 1))); lia. }
  pose proof (pow10_pos (- (guess L + 2))) as P. revert H P. generalize (10 ^ Z.max (- (guess L + 2)) 0), (10 ^ Z.max (guess L + 2) 0).
  clear. intros p q H P. lia.
Qed.

Lemma guess_bounds n d : 0 < n -> 0 < d -> -1100 <= Z.log2 n - Z.log2 d <= 1100 ->
  at_least n d (guess (Z.log2 n - Z.log2 d) - 2) /\ ~ at_least n d (guess (Z.log2 n - Z.log2 d) + 2).
Proof. intros Hn Hd HL%guesses. split; [by apply guess_low | by apply guess_high]. Qed.

Lemma dec_exponent_spec n d : 0 < n -> 0 < d -> -1100 <= Z.log2 n - Z.log2 d <= 1100 ->
  at_least n d (dec_exponent n d) /\ ~ at_least n d (dec_exponent n d + 1).
Proof.
  intros Hn Hd HL. destruct (guess_bounds n d Hn Hd HL) as [Hlo Hhi]. unfold dec_exponent. fold (guess (Z.log2 n - Z.log2 d)).
  set (x := guess (Z.log2 n - Z.log2 d)) in *.
  destruct (at_least_pow10 n d x) eqn:E0.
  - rewrite E0. apply at_least_spec in E0. destruct (at_least_pow10 n d (x + 1)) eqn:E1.
    + apply at_least_spec in E1. split; [done |]. by replace (x + 1 + 1) with (x + 2) by lia.
    + apply at_least_false in E1. done.
  - destruct (at_least_pow10 n d (x - 1)) eqn:E1.
    + replace (x - 1 + 1) with x by lia. rewrite E0. apply at_least_spec in E1. apply at_least_false in E0. by replace (x - 1 + 1) with x by lia.
    + replace (x - 1 - 1 + 1) with (x - 1) by lia. rewrite E1. apply at_least_false in E1. replace (x - 1 - 1) with (x - 2) by lia.
      by replace (x - 2 + 1) with (x - 1) by lia.
Qed.

(** * Seventeen digits *)

(** The value of a double as a quotient. *)
Definition bnum (m : positive) (e : Z) : Z := Zpos m * 2 ^ Z.max e 0.
Definition bden (e : Z) : Z := 2 ^ Z.max (- e) 0.

Lemma bden_pos e : 0 < bden e.
Proof. apply Z.pow_pos_nonneg; lia. Qed.
Lemma bnum_pos m e : 0 < bnum m e.
Proof. unfold bnum. pose proof (Z.pow_pos_nonneg 2 (Z.max e 0) ltac:(lia) ltac:(lia)). nia. Qed.

Lemma bnum_units m e : -1074 <= e -> bnum m e * 2 ^ 1074 = Zpos m * T e * bden e.
Proof.
  intros He. unfold bnum, bden, T. rewrite <- !Z.mul_assoc, <- !Z.pow_add_r by lia. f_equal. f_equal. lia.
Qed.

(** A double is between 2 ^ -1074 and 2 ^ 1024. *)
Lemma double_bounds m e : double m e -> -1074 <= e <= 971 /\ 0 < Zpos m < 2 ^ 53.
Proof.
  intros [Hf He]. rewrite fexp64_eq in Hf. split; [lia |]. pose proof (Zdigits2_bounds (Zpos m) ltac:(lia)) as [_ H].
  split; [lia |]. eapply Z.lt_le_trans; [exact H |]. apply Z.pow_le_mono_r; lia.
Qed.

Lemma double_log2 m e : double m e -> -1100 <= Z.log2 (bnum m e) - Z.log2 (bden e) <= 1100.
Proof.
  intros Hd. destruct (double_bounds m e Hd) as [He Hm]. unfold bnum, bden. rewrite Z.log2_mul_pow2, Z.log2_pow2 by lia.
  pose proof (Z.log2_nonneg (Zpos m)). assert (Z.log2 (Zpos m) < 53) by (apply Z.log2_lt_pow2; lia). lia.
Qed.

(** The digits of [sci17] in front of the carry. *)
Lemma scaled_eq n d k : scaled n d (- k) = div_round (n * 10 ^ Z.max (- k) 0) (d * 10 ^ Z.max k 0).
Proof.
  unfold scaled. destruct (Z.leb_spec 0 (- k)).
  - replace (Z.max k 0) with 0 by lia. rewrite Z.max_l by lia. by rewrite Z.mul_1_r.
  - replace (Z.max (- k) 0) with 0 by lia. rewrite Z.max_l by lia. rewrite Z.mul_1_r. f_equal. f_equal. f_equal. lia.
Qed.

Lemma digits_in n d x P : 1 <= P -> 0 < n -> 0 < d -> at_least n d x -> ~ at_least n d (x + 1) ->
  let k := x - (P - 1) in
  10 ^ (P - 1) * (d * 10 ^ Z.max k 0) <= n * 10 ^ Z.max (- k) 0 < 10 ^ P * (d * 10 ^ Z.max k 0).
Proof.
  intros HP Hn Hd H1 H2 k. unfold at_least in *. split.
  - apply (pow10_split n d _ _ (P - 1 + Z.max k 0) (Z.max (- k) 0)) in H1; [| lia ..].
    rewrite Z.pow_add_r in H1 by lia. lia.
  - apply Z.nle_gt. intros Hle. apply H2. clear H1 H2.
    apply (pow10_split n d (P + Z.max k 0) (Z.max (- k) 0)); [lia .. |]. rewrite Z.pow_add_r by lia. lia.
Qed.

Lemma div_round_range A B lo hi : 0 < B -> lo * B <= A -> A <= hi * B -> lo <= div_round A B <= hi.
Proof. intros HB H1 H2. pose proof (div_round_error A B HB). nia. Qed.

(** A relative error of half of 10 ^ -16 is less than half a unit of 53 digits. *)
Lemma near_enough n d P N S m t q : 0 < d -> 0 < P -> 0 < N -> 0 < S -> 0 < t -> n * S = m * t * d ->
  10 ^ 16 * (d * P) <= n * N -> 2 * Z.abs (q * (d * P) - n * N) <= d * P ->
  2 * 10 ^ 16 * Z.abs (q * P * S - m * t * N) <= m * t * N.
Proof.
  intros Hd HP HN HS Ht HU Hdig Herr. set (X := q * P * S - m * t * N).
  assert (d * X = S * (q * (d * P) - n * N)) as EX.
  { unfold X. transitivity (S * q * (d * P) - m * t * d * N); [lia |]. rewrite <- HU. lia. }
  assert (d * Z.abs X = S * Z.abs (q * (d * P) - n * N)) as EA.
  { rewrite <- (Z.abs_eq d), <- Z.abs_mul, EX, Z.abs_mul, (Z.abs_eq S), (Z.abs_eq d) by lia. done. }
  assert (2 * (d * Z.abs X) <= S * (d * P)) as H1.
  { rewrite EA. transitivity (S * (2 * Z.abs (q * (d * P) - n * N))); [lia |]. apply Z.mul_le_mono_nonneg_l; lia. }
  assert (10 ^ 16 * (S * (d * P)) <= m * t * N * d) as H2.
  { transitivity (S * (10 ^ 16 * (d * P))); [lia |]. transitivity (S * (n * N)); [apply Z.mul_le_mono_nonneg_l; lia |].
    transitivity (n * S * N); [lia |]. rewrite HU. lia. }
  apply (Z.mul_le_mono_pos_r _ _ d); [done |]. lia.
Qed.

Lemma near17 m e x : double m e -> at_least (bnum m e) (bden e) x -> ~ at_least (bnum m e) (bden e) (x + 1) ->
  let q := scaled (bnum m e) (bden e) (16 - x) in
  10 ^ 16 <= q <= 10 ^ 17 /\ nearest (dnum q (x - 16) * 2 ^ 1074) (dden (x - 16)) m e.
Proof.
  intros Hd H1 H2. destruct (double_bounds m e Hd) as [He Hm]. pose proof (bnum_pos m e) as Hn. pose proof (bden_pos e) as Hb.
  pose proof (digits_in _ _ x 17 ltac:(lia) Hn Hb H1 H2) as Hdig. clear H1 H2. cbv zeta in *. change (17 - 1) with 16 in *. replace (16 - x) with (- (x - 16)) by lia. rewrite scaled_eq.
  pose proof (pow10_pos (x - 16)) as HP. pose proof (pow10_pos (- (x - 16))) as HN. pose proof (T_pos e ltac:(lia)) as HT.
  pose proof (Z.mul_pos_pos _ _ Hb HP) as HdP. assert (0 < 2 ^ 1074) as HS by (apply Z.pow_pos_nonneg; lia).
  split; [apply div_round_range; lia |]. unfold nearest, dnum, dden.
  pose proof (near_enough _ _ _ _ (2 ^ 1074) (Zpos m) (T e) _ Hb HP HN HS HT (bnum_units m e ltac:(lia)) (proj1 Hdig) (div_round_error _ _ HdP)) as Hnear.
  revert Hnear. generalize (div_round (bnum m e * 10 ^ Z.max (- (x - 16)) 0) (bden e * 10 ^ Z.max (x - 16) 0) * 10 ^ Z.max (x - 16) 0 * 2 ^ 1074).
  revert HN HT Hm. generalize (10 ^ Z.max (- (x - 16)) 0) (T e) (Zpos m). clear. intros N t z HN HT Hm A H.
  pose proof (Z.mul_pos_pos _ _ HT HN). change (10 ^ 16) with 10000000000000000 in *. change (2 ^ 53) with 9007199254740992 in *.
  change (2 ^ 52) with 4503599627370496. rewrite <- (Z.mul_assoc z) in *. rewrite (Z.mul_comm N). generalize dependent (t * N). intros u Hu H.
  split; [nia |]. intros -> _. lia.
Qed.

Lemma nearest_ratio A B A' B' m e : 0 < B -> 0 < B' -> A * B' = A' * B -> nearest A B m e -> nearest A' B' m e.
Proof.
  intros HB HB' E [H1 H2]. unfold nearest.
  assert (B * (A' - Zpos m * T e * B') = B' * (A - Zpos m * T e * B)) as EX by lia.
  pose proof (f_equal Z.abs EX) as EA. rewrite !Z.abs_mul, (Z.abs_eq B), (Z.abs_eq B') in EA by lia. split.
  - apply (Z.mul_lt_mono_pos_l B); [done |]. apply (Z.mul_lt_mono_pos_l B') in H1; [| done]. lia.
  - intros Hm He. specialize (H2 Hm He). apply (Z.mul_lt_mono_pos_l B); [done |]. apply (Z.mul_lt_mono_pos_l B') in H2; [| done]. lia.
Qed.

(** Two decimal numbers that are the same. *)
Definition same_number (M k M' k' : Z) : Prop := dnum M k * dden k' = dnum M' k' * dden k.

Lemma same_number_shift M k n : 0 <= n -> same_number (M * 10 ^ n) (k - n) M k.
Proof.
  intros Hn. unfold same_number, dnum, dden. rewrite <- !Z.mul_assoc, <- !Z.pow_add_r by lia. f_equal. f_equal. lia.
Qed.

(** The 17 digits of a double, however they are written, are read as that double. *)
Lemma read17 m e q x M k : double m e -> sci17 m e = (q, x) -> 0 < M -> same_number q (x - 16) M k ->
  real_of_decimal M k = S754_finite false m e.
Proof.
  intros Hd Hs HM Hsame. apply real_of_decimal_near; [done | done |].
  destruct (dec_exponent_spec (bnum m e) (bden e) (bnum_pos m e) (bden_pos e) (double_log2 m e Hd)) as [H1 H2].
  destruct (near17 m e _ Hd H1 H2) as [Hr Hn]. unfold sci17 in Hs. fold (bnum m e) (bden e) in Hs.
  set (x0 := dec_exponent (bnum m e) (bden e)) in *. set (q0 := scaled (bnum m e) (bden e) (16 - x0)) in *.
  assert (same_number q0 (x0 - 16) q (x - 16)) as Hq.
  { destruct (Z.eqb_spec q0 (10 ^ 17)) as [E | E]; injection Hs as <- <-; [| done]. rewrite E.
    replace (x0 - 16) with (x0 + 1 - 16 - 1) by lia. change (10 ^ 17) with (10 ^ 16 * 10 ^ 1). by apply same_number_shift. }
  pose proof (dden_pos (x0 - 16)). pose proof (dden_pos (x - 16)). pose proof (dden_pos k).
  apply (nearest_ratio (dnum q (x - 16) * 2 ^ 1074) (dden (x - 16))); [done | done | unfold same_number in Hsame; nia |].
  apply (nearest_ratio (dnum q0 (x0 - 16) * 2 ^ 1074) (dden (x0 - 16))); [done | done | unfold same_number in Hq; nia | done].
Qed.

Lemma dec_exponent_guess n d : guess (Z.log2 n - Z.log2 d) - 2 <= dec_exponent n d <= guess (Z.log2 n - Z.log2 d) + 1.
Proof.
  unfold dec_exponent. fold (guess (Z.log2 n - Z.log2 d)). generalize (guess (Z.log2 n - Z.log2 d)). intros x.
  repeat match goal with |- context [if ?b then _ else _] => destruct b end; lia.
Qed.

Lemma dec_exponent_range m e : double m e -> -390 < dec_exponent (bnum m e) (bden e) < 390.
Proof.
  intros Hd. pose proof (double_log2 m e Hd) as HL. pose proof (dec_exponent_guess (bnum m e) (bden e)) as Hg.
  assert (-332 <= guess (Z.log2 (bnum m e) - Z.log2 (bden e)) <= 332) as Hb; [| lia].
  unfold guess. split; [apply Z.div_le_lower_bound | apply Z.div_le_upper_bound]; lia.
Qed.

(** There are 17 of them. *)
Lemma sci17_digits m e q x : double m e -> sci17 m e = (q, x) -> 10 ^ 16 <= q < 10 ^ 17 /\ -400 < x < 400.
Proof.
  intros Hd Hs. pose proof (double_log2 m e Hd) as HL.
  destruct (dec_exponent_spec (bnum m e) (bden e) (bnum_pos m e) (bden_pos e) HL) as [H1 H2].
  destruct (near17 m e _ Hd H1 H2) as [Hr _]. unfold sci17 in Hs. fold (bnum m e) (bden e) in Hs.
  pose proof (dec_exponent_range m e Hd) as Hg.
  destruct (Z.eqb_spec (scaled (bnum m e) (bden e) (16 - dec_exponent (bnum m e) (bden e))) (10 ^ 17)) as [E | E];
    injection Hs as <- <-; lia.
Qed.

(** * The same number, however it is written *)

Lemma div_round_ratio A B A' B' : 0 < B -> 0 < B' -> A * B' = A' * B -> div_round A B = div_round A' B'.
Proof.
  intros HB HB' E. pose proof (Z_div_mod_eq_full A B) as H. pose proof (Z.mod_pos_bound A B HB) as Hm.
  set (q := A / B) in *. set (R := A `mod` B) in *. set (R' := A' - q * B').
  assert (R' * B = R * B') as ER by (unfold R'; transitivity (A' * B - q * B * B'); [lia |]; rewrite <- E, H; lia).
  assert (0 <= R' < B') as HR' by nia.
  rewrite (div_round_unique A B q R HB ltac:(lia) Hm), (div_round_unique A' B' q R' HB' ltac:(unfold R'; lia) HR').
  assert ((2 * R ?= B) = (2 * R' ?= B')) as ->; [| done].
  rewrite (Zmult_compare_compat_r (2 * R) B B'), (Zmult_compare_compat_r (2 * R') B' B) by lia. f_equal; lia.
Qed.

(** The exponent depends on the number. *)
Lemma prepared_exponent A B mx ex lx A' B' mx' ex' lx' : A * B' = A' * B ->
  prepared A B mx ex lx -> prepared A' B' mx' ex' lx' -> fexp64 (Zdigits2 mx + ex) <= fexp64 (Zdigits2 mx' + ex').
Proof.
  intros E (HB & Hm & Hex & (_ & _ & R & HA & HR & _) & Hle) (HB' & Hm' & Hex' & (_ & _ & R' & HA' & HR' & _) & Hle').
  assert (forall z l, shr_m (shr_record_of_loc z l) = z) as Em by (by intros z [| []]). rewrite Em in HA, HA'.
  rewrite !fexp64_eq in *. pose proof (T_pos ex Hex) as HT. pose proof (T_pos ex' Hex') as HT'.
  destruct (decide (mx = 0)) as [-> | Hm0]; [change (Zdigits2 0) with 0 in *; lia |].
  pose proof (Zdigits2_bounds mx ltac:(lia)) as [Hx1 _]. pose proof (Zdigits2_pos mx ltac:(lia)).
  assert (T (ex + (Zdigits2 mx - 1)) * B <= A) as Hlo by (rewrite T_add by lia; clear -HA HR Hx1 HB HT; nia).
  assert (A' < T (ex' + Zdigits2 mx') * B') as Hhi.
  { destruct (decide (mx' = 0)) as [-> | Hm0']; [change (Zdigits2 0) with 0; rewrite Z.add_0_r; lia |].
    pose proof (Zdigits2_bounds mx' ltac:(lia)) as [_ Hx2]. pose proof (Zdigits2_pos mx' ltac:(lia)).
    rewrite T_add by lia. clear -HA' HR' Hx2 HB' HT'. nia. }
  assert (0 <= Zdigits2 mx') by (destruct mx'; cbn; lia).
  assert (ex + (Zdigits2 mx - 1) < ex' + Zdigits2 mx') as Hlt; [| lia].
  apply T_lt; [lia |]. clear -E Hlo Hhi HB HB'.
  generalize dependent (T (ex + (Zdigits2 mx - 1))). generalize dependent (T (ex' + Zdigits2 mx')). intros t Hhi u Hlo.
  assert (u * B * B' <= A * B') by (apply Z.mul_le_mono_nonneg_r; lia). assert (A' * B < t * B' * B) by (apply Z.mul_lt_mono_pos_r; lia).
  apply (Z.mul_lt_mono_pos_r (B * B')); [nia | lia].
Qed.

Lemma round_same A B mx ex lx A' B' mx' ex' lx' : A * B' = A' * B ->
  prepared A B mx ex lx -> prepared A' B' mx' ex' lx' ->
  binary_round_aux prec emax false mx ex lx = binary_round_aux prec emax false mx' ex' lx'.
Proof.
  intros E Hp Hp'. pose proof (prepared_exponent _ _ _ _ _ _ _ _ _ _ E Hp Hp') as H1.
  pose proof (prepared_exponent _ _ _ _ _ _ _ _ _ _ (eq_sym E) Hp' Hp) as H2.
  destruct Hp as (HB & Hm & Hex & Hr & Hle), Hp' as (HB' & Hm' & Hex' & Hr' & Hle').
  destruct (shr_fexp_repr _ _ _ _ _ Hex Hr HB Hle) as (mrs & E1 & R1). destruct (shr_fexp_repr _ _ _ _ _ Hex' Hr' HB' Hle') as (mrs' & E1' & R1').
  unfold binary_round_aux. rewrite E1, E1', (repr_round _ _ _ R1), (repr_round _ _ _ R1').
  assert (fexp64 (Zdigits2 mx + ex) = fexp64 (Zdigits2 mx' + ex')) as Ef by lia. rewrite Ef.
  rewrite (div_round_ratio A _ A' (B' * T (fexp64 (Zdigits2 mx' + ex')))); [done | | |].
  - apply Z.mul_pos_pos; [done | apply T_pos; lia].
  - apply Z.mul_pos_pos; [done | apply T_pos; lia].
  - rewrite !Z.mul_assoc. by rewrite E.
Qed.

(** Reading a decimal number does not depend on how it is written. *)
Lemma real_of_decimal_same M k M' k' : 0 < M -> 0 < M' -> same_number M k M' k' -> real_of_decimal M k = real_of_decimal M' k'.
Proof.
  intros HM HM' Hs. destruct (decimal_prepared M k HM) as (mx & ex & lx & -> & Hp). destruct (decimal_prepared M' k' HM') as (mx' & ex' & lx' & -> & Hp').
  eapply round_same; [| exact Hp | exact Hp']. unfold same_number in Hs. nia.
Qed.

(** * What is read is a double *)

(** A mantissa at its exponent: full, or at the smallest exponent. *)
Lemma round_done_valid M e : 0 <= M <= 2 ^ 53 -> -1074 <= e -> (e = -1074 \/ 2 ^ 52 <= M) ->
  valid_binary prec emax
    (let '(mrs, e') := shr_fexp prec emax M e loc_Exact in
     match shr_m mrs with
     | Z0 => S754_zero false
     | Zpos m' => if e' <=? emax - prec then S754_finite false m' e' else S754_infinity false
     | _ => S754_nan
     end) = true.
Proof.
  intros HM He Hor. destruct (decide (M = 2 ^ 53)) as [-> | Hne].
  - unfold shr_fexp. change (Zdigits2 (2 ^ 53)) with 54. rewrite fexp64_eq. replace (Z.max (54 + e - 53) (-1074) - e) with 1 by lia.
    cbn [shr SpecFloat.iter_pos]. change (shr_m (shr_1 (shr_record_of_loc (2 ^ 53) loc_Exact))) with 4503599627370496. cbv iota.
    destruct (Z.leb_spec (e + 1) (emax - prec)); [| done]. cbn [valid_binary]. unfold bounded, canonical_mantissa.
    change (Zpos (digits2_pos 4503599627370496)) with 53. rewrite fexp64_eq. rewrite andb_true_iff, Z.eqb_eq, Z.leb_le. lia.
  - destruct M as [| m | m]; [| | lia].
    + unfold shr_fexp. change (Zdigits2 0) with 0. rewrite fexp64_eq. destruct Hor as [-> | H]; [| lia]. done.
    + pose proof (Zdigits2_bounds (Zpos m) ltac:(lia)) as [H1 H2]. pose proof (Zdigits2_pos (Zpos m) ltac:(lia)).
      assert (Zdigits2 (Zpos m) <= 53) as Hd by (apply Z.lt_succ_r, (Z.pow_lt_mono_r_iff 2); [lia | lia |];
        replace (Z.succ 53) with (53 + 1) by lia; rewrite Z.pow_add_r by lia; assert (2 ^ Zdigits2 (Zpos m) = 2 * 2 ^ (Zdigits2 (Zpos m) - 1)) by
          (rewrite <- Z.pow_succ_r by lia; f_equal; lia); lia).
      assert (fexp64 (Zdigits2 (Zpos m) + e) = e) as Hf.
      { rewrite fexp64_eq. destruct Hor as [-> | H52]; [lia |].
        assert (52 < Zdigits2 (Zpos m)) by (apply (Z.pow_lt_mono_r_iff 2); lia). lia. }
      unfold shr_fexp. rewrite Hf, Z.sub_diag. cbn [shr shr_record_of_loc shr_m].
      destruct (Z.leb_spec e (emax - prec)); [| done]. cbn [valid_binary]. unfold bounded, canonical_mantissa.
      change (Zpos (digits2_pos m)) with (Zdigits2 (Zpos m)). rewrite Hf. rewrite andb_true_iff, Z.eqb_eq, Z.leb_le. lia.
Qed.

(** The second half of the rounding: a mantissa of at most 53 digits at its exponent. *)
Lemma round_mantissa A B mx ex lx : prepared A B mx ex lx -> exists M e,
  binary_round_aux prec emax false mx ex lx =
    (let '(mrs, e') := shr_fexp prec emax M e loc_Exact in
     match shr_m mrs with
     | Z0 => S754_zero false
     | Zpos m' => if e' <=? emax - prec then S754_finite false m' e' else S754_infinity false
     | _ => S754_nan
     end) /\
  0 <= M <= 2 ^ 53 /\ e = fexp64 (Zdigits2 mx + ex) /\ (e = -1074 \/ 2 ^ 52 <= M).
Proof.
  intros (HB & Hm & Hex & Hr & Hle). unfold binary_round_aux.
  destruct (shr_fexp_repr _ _ _ _ _ Hex Hr HB Hle) as (mrs & -> & Hrep). rewrite (repr_round _ _ _ Hrep).
  destruct Hr as (_ & _ & R & HA & HR & _). assert (shr_m (shr_record_of_loc mx lx) = mx) as Em by (by destruct lx as [| []]). rewrite Em in HA.
  pose proof (T_pos ex Hex) as HT. pose proof (fexp64_eq (Zdigits2 mx + ex)) as Hf. set (e1 := fexp64 (Zdigits2 mx + ex)) in *.
  assert (0 <= Zdigits2 mx) as HD by (destruct mx; cbn; lia). pose proof (T_pos e1 ltac:(lia)) as HT1.
  pose proof (Z.mul_pos_pos _ _ HB HT1) as HBT. pose proof (Z.mul_pos_pos _ _ HB HT) as HBX.
  assert (0 <= A) as HA0 by nia.
  assert (A < T (ex + Zdigits2 mx) * B) as Hhi.
  { destruct (decide (mx = 0)) as [-> | Hm0]; [change (Zdigits2 0) with 0; rewrite Z.add_0_r; lia |].
    pose proof (Zdigits2_bounds mx ltac:(lia)) as [_ Hx2]. rewrite T_add by lia. clear -HA HR Hx2 HB HT. nia. }
  assert (T (ex + Zdigits2 mx) <= T (e1 + 53)) as Hmono by (unfold T; apply Z.pow_le_mono_r; lia).
  assert (T (e1 + 53) = T e1 * 2 ^ 53) as E53 by (apply T_add; lia).
  assert (A <= 2 ^ 53 * (B * T e1)) as Hup by (rewrite E53 in Hmono; clear -Hhi Hmono HB; nia).
  exists (div_round A (B * T e1)), e1. split; [done |]. split; [apply div_round_range; lia |]. split; [done |].
  destruct (decide (e1 = -1074)) as [| Hne]; [by left |]. right.
  assert (e1 = Zdigits2 mx + ex - 53) as E1 by lia. destruct (decide (mx = 0)) as [-> | Hm0]; [change (Zdigits2 0) with 0 in *; lia |].
  pose proof (Zdigits2_bounds mx ltac:(lia)) as [Hx1 _]. pose proof (Zdigits2_pos mx ltac:(lia)).
  assert (T (ex + (Zdigits2 mx - 1)) * B <= A) as Hlo by (rewrite T_add by lia; clear -HA HR Hx1 HB HT; nia).
  replace (ex + (Zdigits2 mx - 1)) with (e1 + 52) in Hlo by lia. rewrite T_add in Hlo by lia.
  apply (div_round_range A (B * T e1) (2 ^ 52) (2 ^ 53)); lia.
Qed.

Lemma round_valid A B mx ex lx : prepared A B mx ex lx -> valid_binary prec emax (binary_round_aux prec emax false mx ex lx) = true.
Proof.
  intros Hp. destruct (round_mantissa _ _ _ _ _ Hp) as (M & e & -> & HM & He & Hor). rewrite fexp64_eq in He.
  apply round_done_valid; [done | lia | done].
Qed.

Lemma decimal_valid M k : 0 <= M -> valid_binary prec emax (real_of_decimal M k) = true.
Proof.
  intros HM. destruct (decide (M = 0)) as [-> | Hne]; [done |].
  destruct (decimal_prepared M k ltac:(lia)) as (mx & ex & lx & -> & Hp). by eapply round_valid.
Qed.

(** [P] digits of a double. *)
Lemma scaled_digits m e P : double m e -> 1 <= P ->
  10 ^ (P - 1) <= scaled (bnum m e) (bden e) (P - 1 - dec_exponent (bnum m e) (bden e)) <= 10 ^ P.
Proof.
  intros Hd HP. pose proof (bnum_pos m e) as Hn. pose proof (bden_pos e) as Hb.
  destruct (dec_exponent_spec (bnum m e) (bden e) Hn Hb (double_log2 m e Hd)) as [H1 H2]. set (x := dec_exponent (bnum m e) (bden e)) in *.
  pose proof (digits_in _ _ x P HP Hn Hb H1 H2) as Hdig. cbv zeta in Hdig.
  replace (P - 1 - x) with (- (x - (P - 1))) by lia. rewrite scaled_eq.
  apply div_round_range; [apply Z.mul_pos_pos; [done | apply pow10_pos] | lia | lia].
Qed.
