(* ===== verification/RtErrors.v ===== *)
(** The reports of run-time failures: subrange.c, mathck.c, array_index.c,
    set_element.c, vector_bounds.c, nilck.c, new_alloc.c, pabort.c, diagnostics.c,
    the failures of initck.c, initck_heap.c and super_descriptor.c, the two [die]
    routines of fileops.c and readq.c, the conversion error of numeric.c and the
    device error channel of dev_error.c. Each
    report works on the state of the process: what its standard output has
    delivered and still holds, its standard error, and whether it has ended. *)

From Stdlib Require Import ZArith Ascii String SpecFloat Lia.
From stdpp Require Import base list strings.
From S2P Require Import Prelude Real CPrelude LexProps EmitText EmitFrame Numeric.
Import EmitText.Ints.
#[local] Open Scope Z_scope.

(** * The process *)

Record Proc := mkProc {
  p_out : string;             (* delivered by stdout *)
  p_held : string;            (* in stdout's buffer *)
  p_err : string;             (* stderr, which is not buffered *)
  p_ended : bool;             (* abort() was called *)
  diag_file : option string   (* pas_diag_file of this thread *) }.

Definition fflush_stdout (p : Proc) : Proc :=
  mkProc (p_out p +:+ p_held p) EmptyString (p_err p) (p_ended p) (diag_file p).
Definition fflush_stderr (p : Proc) : Proc := p.
Definition eput (s : string) (p : Proc) : Proc := mkProc (p_out p) (p_held p) (p_err p +:+ s) (p_ended p) (diag_file p).
(** [abort] ends the process; what stdout holds is lost. *)
Definition abort (p : Proc) : Proc := mkProc (p_out p) EmptyString (p_err p) true (diag_file p).
Definition set_diag_file (f : option string) (p : Proc) : Proc := mkProc (p_out p) (p_held p) (p_err p) (p_ended p) f.

Definition pas_eprint (message : string) (p : Proc) : Proc := fflush_stderr (eput nl (eput message p)).

(** [snprintf] into [size] bytes keeps [size - 1] of them. *)
Definition snprintf (size : nat) (s : string) : string := str (firstn (size - 1) (chars s)).

Definition pas_diag_where (p : Proc) : string :=
  match diag_file p with
  | None => EmptyString
  | Some f => if String.eqb f EmptyString then EmptyString else snprintf 300 (" of file " +:+ f)
  end.

(** %" PRIu64 " of a 64-bit value, and of an operand with its signedness. *)
Definition u64 (v : Z) : string := Zs (uwrap 64 v).
Definition operand_text (is_unsigned : bool) (v : Z) : string := if is_unsigned then u64 v else Zs v.

Definition at_place (line column : Z) (p : Proc) : string :=
  " at line " +:+ Zs line +:+ " column " +:+ Zs column +:+ pas_diag_where p.

(** * subrange.c *)

Definition pas_concat_error (length capacity line column : Z) (p : Proc) : Proc :=
  let p := fflush_stdout p in
  abort (fflush_stderr (eput ("runtime error: RANGECK CONCAT length " +:+ u64 length +:+ " exceeds capacity " +:+ Zs capacity
    +:+ at_place line column p +:+ nl) p)).

Definition pas_copylst_error (length capacity line column : Z) (p : Proc) : Proc :=
  let p := fflush_stdout p in
  abort (fflush_stderr (eput ("runtime error: RANGECK COPYLST length " +:+ u64 length +:+ " exceeds capacity " +:+ Zs capacity
    +:+ at_place line column p +:+ nl) p)).

Definition pas_copystr_error (length capacity line column : Z) (p : Proc) : Proc :=
  let p := fflush_stdout p in
  abort (fflush_stderr (eput ("runtime error: COPYSTR length " +:+ u64 length +:+ " exceeds capacity " +:+ Zs capacity
    +:+ at_place line column p +:+ nl) p)).

Definition pas_insert_error (length capacity line column : Z) (p : Proc) : Proc :=
  let p := fflush_stdout p in
  abort (fflush_stderr (eput ("runtime error: INSERT length " +:+ u64 length +:+ " exceeds capacity " +:+ Zs capacity
    +:+ at_place line column p +:+ nl) p)).

Definition pas_insert_position_error (position count length line column : Z) (p : Proc) : Proc :=
  let p := fflush_stdout p in
  abort (fflush_stderr (eput ("runtime error: INSERT position " +:+ Zs position +:+ " is outside 1.." +:+ Zs (length + 1)
    +:+ at_place line column p +:+ nl) p)).

Definition pas_delete_error (position count length line column : Z) (p : Proc) : Proc :=
  let p := fflush_stdout p in
  abort (fflush_stderr (eput ("runtime error: DELETE position " +:+ Zs position +:+ " count " +:+ Zs count
    +:+ " is outside length " +:+ Zs length +:+ at_place line column p +:+ nl) p)).

Definition pas_lstring_length_error (length capacity line column : Z) (p : Proc) : Proc :=
  let p := fflush_stdout p in
  abort (fflush_stderr (eput ("runtime error: RANGECK LSTRING length " +:+ u64 length +:+ " exceeds capacity " +:+ Zs capacity
    +:+ at_place line column p +:+ nl) p)).

Definition pas_chr_error (value : Z) (value_unsigned : bool) (line column : Z) (p : Proc) : Proc :=
  let p := fflush_stdout p in
  abort (fflush_stderr (eput ("runtime error: RANGECK CHR argument " +:+ operand_text value_unsigned value
    +:+ " is outside 0..255" +:+ at_place line column p +:+ nl) p)).

Definition pas_byword_error (value : Z) (value_unsigned : bool) (line column : Z) (p : Proc) : Proc :=
  let p := fflush_stdout p in
  abort (fflush_stderr (eput ("runtime error: RANGECK BYWORD argument " +:+ operand_text value_unsigned value
    +:+ " is outside 0..255" +:+ at_place line column p +:+ nl) p)).

Definition pas_case_error (value : Z) (value_unsigned : bool) (line column : Z) (p : Proc) : Proc :=
  let p := fflush_stdout p in
  abort (fflush_stderr (eput ("runtime error: RANGECK CASE selector " +:+ operand_text value_unsigned value
    +:+ " has no matching label" +:+ at_place line column p +:+ nl) p)).

(** A store without a source location reports none. *)
Definition pas_subrange_error (value : Z) (value_unsigned : bool) (lo hi line column : Z) (p : Proc) : Proc :=
  let p := fflush_stdout p in
  let p := eput ("runtime error: value " +:+ operand_text value_unsigned value +:+ " is outside subrange "
    +:+ Zs lo +:+ ".." +:+ Zs hi) p in
  let p := if (0 <? line) && (0 <? column) then eput (at_place line column p) p else p in
  abort (fflush_stderr (eput nl p)).

(** * Indexing, sets, vectors, pointers, the heap *)

Definition pas_array_index_error (value : Z) (value_unsigned : bool) (lo hi line column : Z) (p : Proc) : Proc :=
  let p := fflush_stdout p in
  abort (fflush_stderr (eput ("runtime error: array index " +:+ operand_text value_unsigned value
    +:+ " is outside bounds " +:+ Zs lo +:+ ".." +:+ Zs hi +:+ at_place line column p +:+ nl) p)).

Definition pas_set_element_error (value : Z) (p : Proc) : Proc :=
  abort (fflush_stderr (eput ("runtime error: set element " +:+ Zs value +:+ " is outside 0..255" +:+ nl) (fflush_stdout p))).

Definition vector_op_name (is_store : bool) : string := if is_store then "VSTORE" else "VLOAD".

Definition pas_vector_nil_error (is_store : bool) (p : Proc) : Proc :=
  abort (fflush_stderr (eput ("runtime error: " +:+ vector_op_name is_store +:+ " through a NIL pointer" +:+ nl) (fflush_stdout p))).

Definition pas_upper_nil_error (p : Proc) : Proc :=
  abort (fflush_stderr (eput ("runtime error: UPPER through NIL super-array pointer" +:+ nl) (fflush_stdout p))).

Definition pas_vector_range_error (is_store : bool) (idx : Z) (idx_unsigned : bool) (lanes lo hi : Z) (p : Proc) : Proc :=
  abort (fflush_stderr (eput ("runtime error: " +:+ vector_op_name is_store +:+ " index " +:+ operand_text idx_unsigned idx
    +:+ " with " +:+ Zs lanes +:+ " lanes is outside array bounds " +:+ Zs lo +:+ ".." +:+ Zs hi +:+ nl) (fflush_stdout p))).

Definition nilck_fail (operation : string) (line column : Z) (p : Proc) : Proc :=
  let p := fflush_stdout p in
  abort (fflush_stderr (eput ("runtime error: NILCK NIL pointer " +:+ operation +:+ at_place line column p +:+ nl) p)).
Definition pas_nilck_error (line column : Z) (p : Proc) : Proc := nilck_fail "dereference" line column p.
Definition pas_nilck_dispose_error (line column : Z) (p : Proc) : Proc := nilck_fail "passed to DISPOSE" line column p.

(** initck.c; the place is left out when it is not known. *)
Definition pas_initck_fail (what name : string) (line column : Z) (p : Proc) : Proc :=
  let p := fflush_stdout p in
  let p := eput ("runtime error: INITCK uninitialized " +:+ what +:+ " " +:+ name) p in
  let p := if (0 <? line) && (0 <? column) then eput (at_place line column p) p else p in
  abort (fflush_stderr (eput nl p)).
Definition pas_initck_error (name : string) (line column : Z) (p : Proc) : Proc := pas_initck_fail "local" name line column p.

(** super_descriptor.c. *)
Definition pas_super_index_nil_error (p : Proc) : Proc :=
  abort (fflush_stderr (eput ("runtime error: index through NIL super-array pointer" +:+ nl) (fflush_stdout p))).

Definition super_new_error (reason : string) (p : Proc) : Proc :=
  abort (fflush_stderr (eput ("runtime error: NEW SUPER ARRAY " +:+ reason +:+ nl) (fflush_stdout p))).
Definition super_import_error (reason : string) (p : Proc) : Proc :=
  abort (fflush_stderr (eput ("runtime error: UNSAFESUPER " +:+ reason +:+ nl) (fflush_stdout p))).

(** initck_heap.c. *)
Definition heap_error (reason : string) (p : Proc) : Proc :=
  abort (fflush_stderr (eput ("runtime error: INITCK heap state " +:+ reason +:+ nl) (fflush_stdout p))).

(** fileops.c and readq.c: both routines are called [die]. The text is written first,
    stdout is flushed after it. *)
Definition file_die (msg : string) (p : Proc) : Proc :=
  abort (fflush_stderr (fflush_stdout (eput (msg +:+ nl) p))).
Definition readq_die (msg : string) (p : Proc) : Proc :=
  abort (fflush_stderr (fflush_stdout (eput ("runtime error: " +:+ msg +:+ nl) p))).

Definition pas_new_error (p : Proc) : Proc :=
  abort (fflush_stderr (eput ("runtime error: NEW allocation failed" +:+ nl) (fflush_stdout p))).

(** * mathck.c *)

Definition pas_math_zero (is_unsigned is_mod : bool) (left right line column : Z) (p : Proc) : Proc :=
  let p := fflush_stdout p in
  let p := eput ("runtime error: MATHCK " +:+ (if is_unsigned then "unsigned" else "signed") +:+ " division by zero in "
    +:+ (if is_mod then "MOD" else "DIV") +:+ at_place line column p) p in
  abort (fflush_stderr (eput (" (left=" +:+ operand_text is_unsigned left +:+ ", right=" +:+ operand_text is_unsigned right
    +:+ ")" +:+ nl) p)).

Definition overflow_names : list string :=
  ["+"; "-"; "*"; "DIV"; "-"; "SUCC"; "PRED"; "ABS"; "SQR"; "VSUM"; "VPROD"].
Definition overflow_name (op : Z) : string :=
  if (0 <=? op) && (op <? 11) then default "?" (overflow_names !! Z.to_nat op) else "?".

Definition pas_math_overflow (is_unsigned : bool) (op left right line column : Z) (p : Proc) : Proc :=
  let p := fflush_stdout p in
  let p := eput ("runtime error: MATHCK " +:+ (if is_unsigned then "unsigned" else "signed") +:+ " overflow in "
    +:+ overflow_name op +:+ at_place line column p) p in
  let p := if (4 <=? op) && (op <=? 8) then eput (" (operand=" +:+ operand_text is_unsigned left +:+ ")" +:+ nl) p
           else eput (" (left=" +:+ operand_text is_unsigned left +:+ ", right=" +:+ operand_text is_unsigned right
                        +:+ ")" +:+ nl) p in
  abort (fflush_stderr p).

(** * ABORT *)

(** The message is a pointer and a length; [%.*s] stops at a NUL byte or after
    [msglen] bytes, and a negative length is no limit. *)
Fixpoint until_nul (s : bytes) : bytes :=
  match s with
  | c :: s' => if Ascii.eqb c "000" then [] else c :: until_nul s'
  | [] => []
  end.
Definition pabort_text (msg : bytes) (msglen : Z) : bytes :=
  if msglen <? 0 then until_nul msg else until_nul (firstn (Z.to_nat msglen) msg).

Definition pabort (msg : bytes) (msglen code status : Z) (p : Proc) : Proc :=
  abort (fflush_stderr (fflush_stdout (eput ("ABORT: " +:+ str (pabort_text msg msglen) +:+ " (error code " +:+ Zs (uwrap 16 code)
    +:+ ", status " +:+ Zs (uwrap 16 status) +:+ ")" +:+ nl) p))).

(** * numeric.c *)

Definition pas_conversion_error (kind : Z) (value : spec_float) (line column : Z) (p : Proc) : Proc :=
  let p := fflush_stdout p in
  let p := eput ("runtime error: " +:+ (if kind =? 0 then "TRUNC" else "ROUND") +:+ " result out of INTEGER range"
    +:+ at_place line column p) p in
  let p := if is_nan value then eput (" (value=NaN)" +:+ nl) p
           else eput (" (value=" +:+ fmt_17g value +:+ ")" +:+ nl) p in
  abort (fflush_stderr p).

(** * The device error channel *)

(** [pas_dev_error_cell]. *)
Record ErrorCell := mkCell { ec_code : Z; ec_line : Z; ec_column : Z; ec_file : Z; ec_value : spec_float }.

Definition PAS_DEV_ERROR_NONE : Z := 0.
Definition PAS_DEV_ERROR_TRUNC : Z := 1.
Definition PAS_DEV_ERROR_ROUND : Z := 2.
Definition PAS_DEV_FILE_SYMBOL : string := "__pas_dev_file_".

(** The symbol, when it fits the buffer. *)
Definition pas_dev_error_file_symbol (file : Z) (size : nat) : option string :=
  if (file <=? 0) || (size =? 0)%nat then None
  else
    let s := PAS_DEV_FILE_SYMBOL +:+ Zs file in
    if (0 <? Z.of_nat (String.length s)) && (Z.of_nat (String.length s) <? Z.of_nat size) then Some (snprintf size s) else None.

Definition pas_dev_error_report (cell : option ErrorCell) (file : option string) (p : Proc) : Proc :=
  match cell with
  | None => p
  | Some c =>
      if ec_code c =? PAS_DEV_ERROR_NONE then p
      else
        let p := set_diag_file (if 0 <? ec_file c then file else None) p in
        if ec_code c =? PAS_DEV_ERROR_TRUNC then pas_conversion_error 0 (ec_value c) (ec_line c) (ec_column c) p
        else if ec_code c =? PAS_DEV_ERROR_ROUND then pas_conversion_error 1 (ec_value c) (ec_line c) (ec_column c) p
        else
          let p := fflush_stdout p in
          abort (fflush_stderr (eput ("runtime error: device check " +:+ Zs (ec_code c) +:+ " failed"
            +:+ at_place (ec_line c) (ec_column c) p +:+ nl) p))
  end.

(** * The reports *)

Inductive report :=
  | RConcat (length capacity line column : Z) | RCopylst (length capacity line column : Z)
  | RCopystr (length capacity line column : Z) | RInsert (length capacity line column : Z)
  | RInsertPosition (position count length line column : Z) | RDelete (position count length line column : Z)
  | RLstringLength (length capacity line column : Z)
  | RChr (value : Z) (u : bool) (line column : Z) | RByword (value : Z) (u : bool) (line column : Z)
  | RCase (value : Z) (u : bool) (line column : Z) | RSubrange (value : Z) (u : bool) (lo hi line column : Z)
  | RArrayIndex (value : Z) (u : bool) (lo hi line column : Z) | RSetElement (value : Z)
  | RVectorNil (is_store : bool) | RUpperNil | RVectorRange (is_store : bool) (idx : Z) (u : bool) (lanes lo hi : Z)
  | RNilck (line column : Z) | RNilckDispose (line column : Z) | RNew
  | RMathZero (u is_mod : bool) (left right line column : Z) | RMathOverflow (u : bool) (op left right line column : Z)
  | RConversion (kind : Z) (value : spec_float) (line column : Z)
  | RDevice (c : ErrorCell) (file : option string)
  | RInitck (what name : string) (line column : Z) | RInitckLocal (name : string) (line column : Z) | RSuperNil
  | RSuperNew (reason : string) | RSuperImport (reason : string) | RHeap (reason : string)
  | RFile (msg : string) | RRead (msg : string)
  | RAbort (msg : bytes) (msglen code status : Z).

Definition run_report (r : report) : Proc -> Proc :=
  match r with
  | RConcat n c l k => pas_concat_error n c l k
  | RCopylst n c l k => pas_copylst_error n c l k
  | RCopystr n c l k => pas_copystr_error n c l k
  | RInsert n c l k => pas_insert_error n c l k
  | RInsertPosition q n m l k => pas_insert_position_error q n m l k
  | RDelete q n m l k => pas_delete_error q n m l k
  | RLstringLength n c l k => pas_lstring_length_error n c l k
  | RChr v u l k => pas_chr_error v u l k
  | RByword v u l k => pas_byword_error v u l k
  | RCase v u l k => pas_case_error v u l k
  | RSubrange v u lo hi l k => pas_subrange_error v u lo hi l k
  | RArrayIndex v u lo hi l k => pas_array_index_error v u lo hi l k
  | RSetElement v => pas_set_element_error v
  | RVectorNil s => pas_vector_nil_error s
  | RUpperNil => pas_upper_nil_error
  | RVectorRange s i u n lo hi => pas_vector_range_error s i u n lo hi
  | RNilck l k => pas_nilck_error l k
  | RNilckDispose l k => pas_nilck_dispose_error l k
  | RNew => pas_new_error
  | RMathZero u m x y l k => pas_math_zero u m x y l k
  | RMathOverflow u op x y l k => pas_math_overflow u op x y l k
  | RConversion kind v l k => pas_conversion_error kind v l k
  | RDevice c f => pas_dev_error_report (Some c) f
  | RInitck what name l k => pas_initck_fail what name l k
  | RInitckLocal name l k => pas_initck_error name l k
  | RSuperNil => pas_super_index_nil_error
  | RSuperNew reason => super_new_error reason
  | RSuperImport reason => super_import_error reason
  | RHeap reason => heap_error reason
  | RFile msg => file_die msg
  | RRead msg => readq_die msg
  | RAbort m n c s => pabort m n c s
  end.

(** Texts without a line end. *)
Definition plain (s : string) : bool := forallb (fun c => negb (Ascii.eqb c newline)) (chars s).

Lemma plain_app a b : plain (a +:+ b) = plain a && plain b.
Proof. unfold plain. by rewrite chars_app, forallb_app. Qed.

Lemma digits_plain s : forallb isdigit s = true -> forallb (fun c => negb (Ascii.eqb c newline)) s = true.
Proof.
  rewrite !forallb_forall. intros H c Hc. apply H in Hc. destruct (Ascii.eqb_spec c newline) as [-> |]; [discriminate Hc | done].
Qed.

Lemma plain_Zs z : plain (Zs z) = true.
Proof.
  unfold plain. rewrite chars_Zs. destruct (Z.ltb_spec z 0).
  - cbn [forallb]. apply (digits_plain (dec_bytes (- z))). apply dec_bytes_value. lia.
  - apply digits_plain, dec_bytes_value. lia.
Qed.

Lemma plain_u64 z : plain (u64 z) = true.
Proof. apply plain_Zs. Qed.
Lemma plain_operand u z : plain (operand_text u z) = true.
Proof. destruct u; apply plain_Zs. Qed.

Lemma forallb_sub {A} (f : A -> bool) (s r : list A) : (forall x, In x r -> In x s) -> forallb f s = true -> forallb f r = true.
Proof. rewrite !forallb_forall. auto. Qed.

Lemma plain_firstn n s : forallb (fun c => negb (Ascii.eqb c newline)) s = true ->
  forallb (fun c => negb (Ascii.eqb c newline)) (firstn n s) = true.
Proof. apply forallb_sub. intros x Hx. rewrite <- (firstn_skipn n s). apply in_or_app. by left. Qed.

Lemma plain_where p : (forall f, diag_file p = Some f -> plain f = true) -> plain (pas_diag_where p) = true.
Proof.
  intros H. unfold pas_diag_where. destruct (diag_file p) as [f |]; [| done]. destruct (String.eqb f EmptyString); [done |].
  unfold plain, snprintf. rewrite chars_str. apply plain_firstn. rewrite chars_app, forallb_app. by apply H.
Qed.

Lemma drop_zeros_in ds c : In c (drop_zeros ds) -> In c ds.
Proof. induction ds as [| d ds IH]; [done |]. simpl. destruct (Ascii.eqb d "0"); [auto | done]. Qed.

Lemma with_fraction_in ip fp c : In c (with_fraction ip fp) -> In c ip \/ c = "."%char \/ In c fp.
Proof.
  unfold with_fraction, strip_zeros. destruct (rev (drop_zeros (rev fp))) as [| d r] eqn:E; [auto |].
  rewrite in_app_iff. intros [H | [H | H]]; [auto | auto |]. right. right. apply (in_rev fp), drop_zeros_in, in_rev.
  rewrite E. done.
Qed.

Lemma digit_plain d : negb (Ascii.eqb (digit_char (d `mod` 10)) newline) = true.
Proof.
  pose proof (Z.mod_pos_bound d 10 ltac:(lia)) as H. revert H. generalize (d `mod` 10). intros z Hz.
  assert (z = 0 \/ z = 1 \/ z = 2 \/ z = 3 \/ z = 4 \/ z = 5 \/ z = 6 \/ z = 7 \/ z = 8 \/ z = 9) as H by lia.
  destruct H as [-> | [-> | [-> | [-> | [-> | [-> | [-> | [-> | [-> | ->]]]]]]]]]; done.
Qed.

Lemma base_aux_plain n : forall q acc, forallb (fun c => negb (Ascii.eqb c newline)) acc = true ->
  forallb (fun c => negb (Ascii.eqb c newline)) (base_aux 10 n q acc) = true.
Proof.
  induction n as [| n IH]; intros q acc H; [done |]. cbn [base_aux].
  assert (forallb (fun c => negb (Ascii.eqb c newline)) (digit_char (q `mod` 10) :: acc) = true) as H'
    by (cbn [forallb]; by rewrite digit_plain, H).
  destruct (q / 10 =? 0); [exact H' | by apply IH].
Qed.

(** The text of a double is one word: printf's digits, point, exponent and sign, or
    a name. *)
Lemma plain_fmt v : plain (fmt_17g v) = true.
Proof.
  destruct v as [s | s | | s m e]; [by destruct s | by destruct s | done |]. unfold fmt_17g. destruct (sci17 m e) as [q x].
  set (ok := fun c => negb (Ascii.eqb c newline)).
  assert (forall b, plain b = true -> plain (if s then String "-" b else b) = true) as Hsign by (by destruct s).
  assert (forallb ok (dec_bytes q) = true) as Hq.
  { unfold dec_bytes, base_digits. by apply base_aux_plain. }
  assert (forall n, 0 <= n -> forallb ok (two_digits n) = true) as H2.
  { intros n Hn. pose proof (digits_plain _ (proj1 (dec_bytes_value n Hn))) as Hd. unfold two_digits.
    destruct (n <? 10); [exact Hd | exact Hd]. }
  assert (forall ip fp, forallb ok ip = true -> forallb ok fp = true -> forallb ok (with_fraction ip fp) = true) as Hw.
  { intros ip fp Hi Hf. rewrite forallb_forall in Hi, Hf |- *. intros c [H | [-> | H]]%with_fraction_in; auto. }
  assert (forall n, forallb ok (skipn n (dec_bytes q)) = true) as Hs.
  { intros n. revert Hq. apply forallb_sub. intros c Hc. rewrite <- (firstn_skipn n (dec_bytes q)). apply in_or_app. by right. }
  apply Hsign. unfold plain. rewrite chars_str. fold ok. destruct (_ || _).
  - rewrite forallb_app, Hw by (by apply plain_firstn || apply Hs). cbn [forallb andb].
    rewrite H2 by lia. by destruct (x <? 0).
  - destruct (x <? 0).
    + apply Hw; [done |]. rewrite forallb_app, Hq, andb_true_r. apply forallb_forall. intros c Hc.
      apply list_elem_of_In, elem_of_replicate in Hc as [-> _]. done.
    + apply Hw; [by apply plain_firstn | apply Hs].
Qed.

(** ** What every report does *)

(** A report delivers what stdout held, writes one line to stderr, and ends the
    process. *)
Definition stops_with (head : string) (p q : Proc) : Prop :=
  p_ended q = true /\ p_out q = p_out p +:+ p_held p /\
  exists msg, p_err q = p_err p +:+ head +:+ msg +:+ nl /\ plain msg = true.

(** The message of fileops.c brings its own head. *)
Definition report_head (r : report) : string :=
  match r with RAbort _ _ _ _ => "ABORT: " | RFile _ => EmptyString | _ => "runtime error: " end.

Definition report_ok (r : report) : Prop :=
  match r with
  | RDevice c f => ec_code c <> PAS_DEV_ERROR_NONE /\ match f with Some s => plain s = true | None => True end
  | RInitck what name _ _ => plain what = true /\ plain name = true
  | RInitckLocal name _ _ => plain name = true
  | RSuperNew s | RSuperImport s | RHeap s | RFile s | RRead s => plain s = true
  | RAbort m n _ _ => plain (str (pabort_text m n)) = true
  | _ => True
  end.

Definition plain_diag (p : Proc) : Prop := forall f, diag_file p = Some f -> plain f = true.

Lemma plain_place l k p : plain_diag p -> plain (at_place l k p) = true.
Proof. intros H. unfold at_place. by rewrite !plain_app, !plain_Zs, plain_where. Qed.

Lemma plain_diag_flush p : plain_diag p -> plain_diag (fflush_stdout p).
Proof. done. Qed.
Lemma plain_diag_eput s p : plain_diag p -> plain_diag (eput s p).
Proof. done. Qed.

(** Texts that end their line. *)
Definition ends_line (s : string) : Prop := exists msg, s = msg +:+ nl /\ plain msg = true.

Lemma ends_nl : ends_line nl.
Proof. by exists EmptyString. Qed.
Lemma ends_app a b : plain a = true -> ends_line b -> ends_line (a +:+ b).
Proof. intros Ha (m & -> & Hm). exists (a +:+ m). by rewrite string_app_assoc, plain_app, Ha, Hm. Qed.
Lemma ends_char c s : negb (Ascii.eqb c newline) = true -> ends_line s -> ends_line (String c s).
Proof. intros Hc (m & -> & Hm). exists (String c m). split; [done |]. unfold plain. cbn [chars list_ascii_of_string forallb]. by rewrite Hc. Qed.

Lemma stops_intro head p q rest : p_ended q = true -> p_out q = p_out p +:+ p_held p ->
  p_err q = p_err p +:+ head +:+ rest -> ends_line rest -> stops_with head p q.
Proof. intros H1 H2 H3 (m & -> & Hm). split; [done |]. split; [done |]. exists m. by rewrite H3. Qed.

#[local] Hint Resolve plain_Zs plain_u64 plain_operand plain_fmt plain_place plain_diag_flush plain_diag_eput : pas.

(** Walk over the text of a report. *)
Ltac ends_text := repeat match goal with
  | |- ends_line nl => apply ends_nl
  | |- ends_line (String _ _) => apply ends_char; [reflexivity |]
  | |- ends_line ((if ?b then _ else _) +:+ _) => destruct b
  | |- ends_line (_ +:+ _) => first [apply ends_app; [solve [eauto with pas | reflexivity] |] | cbn [String.append]]
  end.

(** The report as one text: the writes are joined. *)
Ltac report_text := cbn [abort fflush_stderr eput fflush_stdout p_err set_diag_file]; rewrite ?string_app_assoc; f_equal.
Ltac stops_report := eapply stops_intro; [reflexivity | reflexivity | report_text; cbn [String.append]; reflexivity | ends_text].

Lemma conversion_stops kind v l k p : plain_diag p -> stops_with "runtime error: " p (pas_conversion_error kind v l k p).
Proof. intros H. unfold pas_conversion_error. destruct (kind =? 0), (is_nan v); stops_report. Qed.

Lemma device_stops c f p : ec_code c <> PAS_DEV_ERROR_NONE -> match f with Some s => plain s = true | None => True end ->
  stops_with "runtime error: " p (pas_dev_error_report (Some c) f p).
Proof.
  intros Hc Hf. unfold pas_dev_error_report. rewrite (proj2 (Z.eqb_neq _ _) Hc).
  assert (plain_diag (set_diag_file (if 0 <? ec_file c then f else None) p)) as Hp.
  { intros g. cbn. destruct (0 <? ec_file c); [intros ->; done | done]. }
  assert (forall q, stops_with "runtime error: " (set_diag_file (if 0 <? ec_file c then f else None) p) q ->
    stops_with "runtime error: " p q) as H by done.
  apply H. revert Hp. generalize (set_diag_file (if 0 <? ec_file c then f else None) p). clear H p. intros p Hp.
  destruct (ec_code c =? PAS_DEV_ERROR_TRUNC); [by apply conversion_stops |].
  destruct (ec_code c =? PAS_DEV_ERROR_ROUND); [by apply conversion_stops |]. stops_report.
Qed.

Lemma initck_stops what name l k p : plain what = true -> plain name = true -> plain_diag p ->
  stops_with "runtime error: " p (pas_initck_fail what name l k p).
Proof. intros. unfold pas_initck_fail. destruct (_ && _); stops_report. Qed.

Lemma overflow_name_plain op : plain (overflow_name op) = true.
Proof.
  unfold overflow_name. destruct (_ && _); [| done]. destruct (overflow_names !! Z.to_nat op) as [s |] eqn:E; [| done].
  assert (forallb plain overflow_names = true) as H by reflexivity. rewrite forallb_forall in H.
  apply H, list_elem_of_In. by eapply list_elem_of_lookup_2.
Qed.

(** C13: no report of the run-time library that is modelled here loses output: the
    reports of string lengths and positions, CHR, BYWORD, CASE, subranges, array
    indices, set elements, vector operations, NIL pointers, NEW, SUPER ARRAY
    allocation and import, uninitialized variables, the table of heap states, division
    by zero, overflow, TRUNC and ROUND, files, input from stdin, a device check, and
    ABORT. Given texts without a line end (the include file's name, the message or
    name each is called with), the text stdout still held is delivered, exactly one
    line goes to stderr, starting with "runtime error: " ("ABORT: " for ABORT, the
    message itself for files), and the process is ended. The handler of stack
    overflows and the driver failures of cuda_launch.c are not among them: the latter
    abort without flushing stdout. *)
Theorem reports_stop r p (Hr : report_ok r) (Hp : plain_diag p) : stops_with (report_head r) p (run_report r p).
Proof.
  destruct r; cbn [report_head run_report];
    try (unfold pas_concat_error, pas_copylst_error, pas_copystr_error, pas_insert_error, pas_insert_position_error,
      pas_delete_error, pas_lstring_length_error, pas_chr_error, pas_byword_error, pas_case_error, pas_array_index_error,
      pas_set_element_error, pas_vector_nil_error, pas_upper_nil_error, pas_vector_range_error, pas_nilck_error,
      pas_nilck_dispose_error, nilck_fail, pas_new_error, pas_super_index_nil_error, vector_op_name, super_new_error, super_import_error,
      heap_error, file_die, readq_die; cbn [report_ok] in Hr; stops_report; fail).
  - unfold pas_subrange_error. destruct (_ && _); stops_report.
  - unfold pas_math_zero. destruct u, is_mod; stops_report.
  - unfold pas_math_overflow. pose proof (overflow_name_plain op). destruct u, (_ && _); stops_report.
  - by apply conversion_stops.
  - destruct Hr. by apply device_stops.
  - destruct Hr. by apply initck_stops.
  - by apply initck_stops.
  - split; [reflexivity |]. split; [reflexivity |]. exists msg. by split.
Qed.

Lemma reports_stop_witness : report_ok (RSubrange 300 false 0 255 12 3) /\
  plain_diag (mkProc "a" "b" EmptyString false (Some "x.inc")) /\
  stops_with "runtime error: " (mkProc "a" "b" EmptyString false (Some "x.inc"))
    (run_report (RSubrange 300 false 0 255 12 3) (mkProc "a" "b" EmptyString false (Some "x.inc"))).
Proof.
  assert (plain_diag (mkProc "a" "b" EmptyString false (Some "x.inc"))) as H by (by intros f [= <-]).
  split; [exact I |]. split; [exact H |]. exact (reports_stop (RSubrange 300 false 0 255 12 3) _ I H).
Defined.
