(* ===== verification/Json.v ===== *)
(** The JSON helpers of the native stages, json_helpers.c: exact 64-bit integers and
    exact reals on their way through cJSON's doubles, and the text of a REAL
    literal. cJSON itself is a parameter: its nodes, and the functions the helpers
    call with what its documentation says of them. *)

From Stdlib Require Import ZArith Ascii String SpecFloat Lia.
From stdpp Require Import base list strings.
From S2P Require Import Prelude Real CPrelude LexProps EmitText EmitFrame Numeric RtErrors.
Import EmitText.Ints.
#[local] Open Scope Z_scope.

(** * cJSON *)

(** [struct cJSON]; the linked list of children is a list, and [next] its order. *)
Inductive item := Item {
  j_type : Z;
  j_double : spec_float;
  j_string : option string;     (* valuestring *)
  j_key : option string;        (* string *)
  j_children : list item }.

Definition cJSON_Number : Z := 8.
Definition cJSON_Raw : Z := 128.
Definition cJSON_IsReference : Z := 256.
Definition cJSON_StringIsConst : Z := 512.

Definition set_key (k : string) (it : item) : item :=
  Item (j_type it) (j_double it) (j_string it) (Some k) (j_children it).

(** Keys are compared without regard to the case of letters. *)
Definition same_key (a b : string) : bool := bool_decide (tolower <$> chars a = tolower <$> chars b).

Definition has_key (k : string) (it : item) : bool :=
  match j_key it with Some k' => same_key k' k | None => false end.

(** The functions of the library, as its documentation gives them. *)
Class CJson := {
  cJSON_IsNumber : item -> bool;
  cJSON_CreateNumber : spec_float -> item;
  cJSON_CreateString : string -> item;
  cJSON_AddItemToObject : item -> string -> item -> item;
  cJSON_GetObjectItem : item -> string -> option item;
  cJSON_GetStringValue : option item -> option string }.

Class CJsonLaws `{CJson} := {
  number_is v k : cJSON_IsNumber (set_key k (cJSON_CreateNumber v)) = true;
  number_value v : j_double (cJSON_CreateNumber v) = v;
  string_value s k : cJSON_GetStringValue (Some (set_key k (cJSON_CreateString s))) = Some s;
  no_string_value : cJSON_GetStringValue None = None;
  add_children obj k it : j_children (cJSON_AddItemToObject obj k it) = j_children obj ++ [set_key k it];
  get_first obj k : cJSON_GetObjectItem obj k = List.find (has_key k) (j_children obj) }.

(** * Children *)

Definition pas_cjson_key (it : option item) : option string :=
  match it with None => None | Some i => j_key i end.

(** The list is walked [index] steps. *)
Fixpoint walk (l : list item) (index : nat) : option item :=
  match l, index with
  | [], _ => None
  | c :: _, O => Some c
  | _ :: l', S n => walk l' n
  end.

Definition pas_cjson_child (it : option item) (index : Z) : option item :=
  match it with
  | None => None
  | Some i => if index <? 0 then None else walk (j_children i) (Z.to_nat index)
  end.

Section Helpers.
Context `{CJson}.

(** * Integers *)

(** The cast of a double within the range of the integer type; every comparison with
    a NaN is false, so one gets here, and its conversion is undefined. *)
Definition cast_double (v : spec_float) : res Z :=
  if is_nan v then Err (Undef "conversion of a NaN to an integer") else Ok (Trunc.real_trunc v).

Definition pas_cjson_int32 (it : option item) : res Z :=
  match it with
  | None => Ok 0
  | Some i =>
      if negb (cJSON_IsNumber i) then Ok 0
      else if Trunc.Z_lt_real INT32_MAX (j_double i) then Ok INT32_MAX
      else if Trunc.real_lt_Z (j_double i) INT32_MIN then Ok INT32_MIN
      else cast_double (j_double i)
  end.

Definition pas_cjson_int64 (it : option item) : res Z :=
  match it with
  | None => Ok 0
  | Some i =>
      if negb (cJSON_IsNumber i) then Ok 0
      else if real_ge_Z (j_double i) (2 ^ 63) then Ok INT64_MAX
      else if real_le_Z (j_double i) (- 2 ^ 63) then Ok INT64_MIN
      else cast_double (j_double i)
  end.

Definition PAS_INT64_EXACT_SUFFIX : string := "_int64".

(** The key of the exact text, when it fits [size] bytes. *)
Definition pas_int64_companion_key (size : Z) (key : string) : option string :=
  let k := key +:+ PAS_INT64_EXACT_SUFFIX in
  if (0 <? Z.of_nat (String.length k)) && (Z.of_nat (String.length k) <? size) then Some k else None.

Definition exact_limit : Z := 999999999999999.

Definition pas_cjson_add_int64 (obj : item) (key : string) (value : Z) : item :=
  let obj := cJSON_AddItemToObject obj key (cJSON_CreateNumber (pas_int64_to_double value)) in
  if (- exact_limit <=? value) && (value <=? exact_limit) then obj
  else
    match pas_int64_companion_key 300 key with
    | None => obj
    | Some ckey => cJSON_AddItemToObject obj ckey (cJSON_CreateString (Zs value))
    end.

(** [strtoll] in base 10: white space, a sign and digits; the value, what follows
    the number (the text itself when there is none), and whether it was in range. *)
Fixpoint skip_spaces (s : bytes) : bytes :=
  match s with c :: s' => if isspace c then skip_spaces s' else s | [] => [] end.

Definition strtoll (s : bytes) : Z * bytes * bool :=
  let t := skip_spaces s in
  let '(neg, t1) := match t with
                    | c :: t' => if Ascii.eqb c "-" then (true, t') else if Ascii.eqb c "+" then (false, t') else (false, t)
                    | [] => (false, t) end in
  let '(ds, rest) := span_digits t1 in
  match ds with
  | [] => (0, s, true)
  | _ =>
      let v := if neg : bool then - dec_value ds else dec_value ds in
      if v <? INT64_MIN then (INT64_MIN, rest, false)
      else if INT64_MAX <? v then (INT64_MAX, rest, false) else (v, rest, true)
  end.

Definition exact_text (text : option string) : option Z :=
  match text with
  | Some t =>
      match chars t with
      | [] => None
      | s => let '(v, rest, in_range) := strtoll s in
             if in_range && match rest with [] => true | _ => false end then Some v else None
      end
  | None => None
  end.

Definition pas_cjson_get_int64 (obj : option item) (key : option string) : res Z :=
  match obj, key with
  | Some o, Some k =>
      let exact :=
        match pas_int64_companion_key 300 k with
        | Some ckey => exact_text (cJSON_GetStringValue (cJSON_GetObjectItem o ckey))
        | None => None
        end in
      match exact with
      | Some v => Ok v
      | None => pas_cjson_int64 (cJSON_GetObjectItem o k)
      end
  | _, _ => Ok 0
  end.
End Helpers.

(** ** Round trip *)

Lemma cjson_int64_value `{CJson} i : cJSON_IsNumber i = true -> is_nan (j_double i) = false ->
  pas_cjson_int64 (Some i) = Ok (pas_double_to_int64 (j_double i)).
Proof.
  intros Hn Hd. unfold pas_cjson_int64, pas_double_to_int64, cast_double. rewrite Hn, Hd. cbn [negb].
  by destruct (real_ge_Z _ _); [| destruct (real_le_Z _ _)].
Qed.
(** A NaN is no integer in either width. *)
Lemma cjson_int_nan `{CJson} i : cJSON_IsNumber i = true -> j_double i = S754_nan ->
  (exists m, pas_cjson_int32 (Some i) = Err (Undef m)) /\ (exists m, pas_cjson_int64 (Some i) = Err (Undef m)).
Proof. intros Hn Hd. unfold pas_cjson_int32, pas_cjson_int64. rewrite Hn, Hd. vm_compute. eauto. Qed.

Lemma string_length_app a b : String.length (a +:+ b) = (String.length a + String.length b)%nat.
Proof. induction a as [| c a IH]; [done | exact (f_equal S IH)]. Qed.

Lemma same_key_length a b : same_key a b = true -> String.length a = String.length b.
Proof.
  intros H%bool_decide_eq_true%(f_equal length). rewrite !length_fmap in H.
  assert (forall s, length (chars s) = String.length s) as E by (induction s as [| c s IH]; [done | simpl; by rewrite IH]).
  by rewrite !E in H.
Qed.

Lemma same_key_refl a : same_key a a = true.
Proof. by apply bool_decide_eq_true. Qed.

Lemma has_set_key k k' i : has_key k (set_key k' i) = same_key k' k.
Proof. done. Qed.

Lemma companion_same key : same_key key (key +:+ PAS_INT64_EXACT_SUFFIX) = false.
Proof.
  destruct (same_key key _) eqn:E; [| done]. apply same_key_length in E. rewrite string_length_app in E. simpl in E. lia.
Qed.
Lemma companion_same' key : same_key (key +:+ PAS_INT64_EXACT_SUFFIX) key = false.
Proof.
  destruct (same_key _ key) eqn:E; [| done]. apply same_key_length in E. rewrite string_length_app in E. simpl in E. lia.
Qed.

Lemma find_app_none {A} (f : A -> bool) l l' : forallb (fun x => negb (f x)) l = true -> List.find f (l ++ l') = List.find f l'.
Proof.
  induction l as [| x l IH]; [done |]. simpl. intros [Hx Hl]%andb_true_iff. destruct (f x); [done | auto].
Qed.

Lemma span_digits_all ds : forallb isdigit ds = true -> span_digits ds = (ds, []).
Proof. induction ds as [| c ds IH]; [done |]. simpl. intros [-> Hd]%andb_true_iff. by rewrite IH. Qed.

Lemma digit_no_space c : isdigit c = true -> isspace c = false /\ Ascii.eqb c "-" = false /\ Ascii.eqb c "+" = false.
Proof.
  intros Hc. assert (48 <= code c <= 57) as H.
  { unfold isdigit, between in Hc. apply andb_true_iff in Hc as [?%Z.leb_le ?%Z.leb_le]. change (code "0") with 48 in *. change (code "9") with 57 in *. lia. }
  assert (forall d, Ascii.eqb c d = true -> code c = code d) as He by (intros d Hd; apply Ascii.eqb_eq in Hd as ->; done).
  split; [| split].
  - unfold isspace. apply orb_false_iff. split.
    + destruct (Ascii.eqb c " ") eqn:E; [apply He in E; change (code " ") with 32 in E; lia | done].
    + unfold between. change (code "009") with 9. change (code "013") with 13. apply andb_false_iff. right. apply Z.leb_gt. lia.
  - destruct (Ascii.eqb c "-") eqn:E; [apply He in E; change (code "-") with 45 in E; lia | done].
  - destruct (Ascii.eqb c "+") eqn:E; [apply He in E; change (code "+") with 43 in E; lia | done].
Qed.

(** The text [%lld] makes of a 64-bit integer reads back. *)
Lemma exact_text_Zs v : in_srange 64 v -> exact_text (Some (Zs v)) = Some v.
Proof.
  intros Hv. unfold in_srange in Hv. simpl in Hv. unfold exact_text. rewrite chars_Zs.
  assert (forall n, 0 <= n -> exists c s, dec_bytes n = c :: s /\ isdigit c = true /\ forallb isdigit (dec_bytes n) = true /\ dec_value (dec_bytes n) = n) as Hd.
  { intros n Hn. destruct (dec_bytes_head n Hn) as (c & s & E & Hc). destruct (dec_bytes_value n Hn) as [Ha _].
    exists c, s. split; [done |]. split; [done |]. split; [done |]. by apply (base_digits_value 10). }
  destruct (Z.ltb_spec v 0).
  - destruct (Hd (- v) ltac:(lia)) as (c & s & E & Hc & Ha & Hb). unfold strtoll. cbn [skip_spaces].
    change (isspace "-") with false. cbn iota. rewrite Ascii.eqb_refl, (span_digits_all _ Ha), E, <- E, Hb.
    unfold INT64_MIN, INT64_MAX. rewrite !(proj2 (Z.ltb_ge _ _)) by lia. cbn [andb]. f_equal. lia.
  - destruct (Hd v ltac:(lia)) as (c & s & E & Hc & Ha & Hb). destruct (digit_no_space c Hc) as (H1 & H2 & H3).
    rewrite E. unfold strtoll. cbn [skip_spaces]. rewrite H1, H2, H3, <- E, (span_digits_all _ Ha), E, <- E, Hb.
    unfold INT64_MIN, INT64_MAX. rewrite !(proj2 (Z.ltb_ge _ _)) by lia. done.
Qed.

(** No child of [obj] answers to [key]. *)
Definition unused (obj : item) (key : string) : Prop := forallb (fun c => negb (has_key key c)) (j_children obj) = true.

(** ** A JSON library *)

#[export] Instance model_cjson : CJson := {
  cJSON_IsNumber it := Z.land (j_type it) 255 =? cJSON_Number;
  cJSON_CreateNumber v := Item cJSON_Number v None None [];
  cJSON_CreateString s := Item 16 (S754_zero false) (Some s) None [];
  cJSON_AddItemToObject obj k it :=
    Item (j_type obj) (j_double obj) (j_string obj) (j_key obj) (j_children obj ++ [set_key k it]);
  cJSON_GetObjectItem obj k := List.find (has_key k) (j_children obj);
  cJSON_GetStringValue it := match it with Some i => if Z.land (j_type i) 255 =? 16 then j_string i else None | None => None end }.

#[export] Instance model_cjson_laws : CJsonLaws.
Proof. constructor; done. Qed.

Definition empty_object : item := Item 64 (S754_zero false) None None [].

(** * Reals *)

(** [P] significant digits of a finite double and the decimal exponent they stand for. *)
Definition sci (P : Z) (m : positive) (e : Z) : Z * Z :=
  let num := Zpos m * 2 ^ Z.max e 0 in
  let den := 2 ^ Z.max (- e) 0 in
  let x := dec_exponent num den in
  let q := scaled num den (P - 1 - x) in
  if q =? 10 ^ P then (10 ^ (P - 1), x + 1) else (q, x).

Definition signed (s : bool) (r : string) : string := if s then String "-" r else r.

Definition exponent_text (x : Z) : bytes := (if x <? 0 then "-"%char else "+"%char) :: two_digits (Z.abs x).

(** printf's %.*g. *)
Definition fmt_g (P : Z) (v : spec_float) : string :=
  match v with
  | S754_zero s => signed s "0"
  | S754_infinity s => signed s "inf"
  | S754_nan => "nan"
  | S754_finite s m e =>
      let '(q, x) := sci P m e in
      let ds := dec_bytes q in
      signed s
        (str
           (if (x <? -4) || (P <=? x) then
              with_fraction (firstn 1 ds) (skipn 1 ds) ++ "e"%char :: exponent_text x
            else if x <? 0 then
              with_fraction ["0"%char] (replicate (Z.to_nat (- x - 1)) "0"%char ++ ds)
            else with_fraction (firstn (Z.to_nat (x + 1)) ds) (skipn (Z.to_nat (x + 1)) ds)))
  end.

Lemma fmt_g_17 v : fmt_g 17 v = fmt_17g v.
Proof. by destruct v as [[] | [] | | [] m e]. Qed.

(** The text of %.*e: a digit, the others after a point, the exponent. *)
Definition sci_text (neg : bool) (ds : bytes) (x : Z) : bytes :=
  (if neg then ["-"%char] else []) ++
  match ds with
  | d :: (_ :: _) as r => firstn 1 ds ++ "."%char :: skipn 1 ds
  | _ => ds
  end ++ "e"%char :: exponent_text x.

Definition fmt_e (P : Z) (v : spec_float) : bytes :=
  match v with
  | S754_zero s => sci_text s (replicate (Z.to_nat (P + 1)) "0"%char) 0
  | S754_infinity s => chars (signed s "inf")
  | S754_nan => chars "nan"
  | S754_finite s m e => let '(q, x) := sci (P + 1) m e in sci_text s (dec_bytes q) x
  end.

(** [strtod] of a text with its sign, and C's [==] of doubles. *)
Definition strtod_signed (s : bytes) : spec_float :=
  match s with
  | c :: s' => if Ascii.eqb c "-" then SFopp (strtod s') else strtod s
  | [] => strtod s
  end.
Definition reads_as (s : bytes) (v : spec_float) : bool := SFeqb (strtod_signed s) v.

Definition isfinite (v : spec_float) : bool := match v with S754_zero _ | S754_finite _ _ _ => true | _ => false end.

Definition pas_real_is_finite (v : spec_float) : Z := if isfinite v then 1 else 0.

(** The first precision whose text reads back, of [n + 1] from [P] on; the last text
    if none does. *)
Fixpoint first_reading (fmt : Z -> bytes) (v : spec_float) (n : nat) (P : Z) : bytes :=
  if reads_as (fmt P) v then fmt P
  else match n with O => fmt P | S n' => first_reading fmt v n' (P + 1) end.

Definition pas_real_shortest_g (v : spec_float) : bytes := first_reading (fun P => chars (fmt_g P v)) v 16 1.

Definition signbit (v : spec_float) : bool :=
  match v with S754_zero s | S754_infinity s | S754_finite s _ _ => s | S754_nan => false end.

(** [v == (double)(int)v] for a value in the range of int. *)
Definition is_integral (v : spec_float) : bool := SFeqb v (pas_int64_to_double (Trunc.real_trunc v)).

Definition pas_cjson_number_prints_exactly (v : spec_float) : bool :=
  match v with
  | S754_zero s => negb s
  | _ =>
      if real_ge_Z v INT32_MIN && real_le_Z v INT32_MAX && is_integral v then true
      else reads_as (chars (fmt_g 15 v)) v
  end.

(** Number nodes that cJSON would not print exactly become raw text. [alloc n] says
    whether the [n]-th allocation succeeds. *)
Section Exact.
Context `{CJson}.
Variable alloc : nat -> bool.

Definition exact_node (it : item) (children : list item) (n : nat) : item * nat :=
  if negb (cJSON_IsNumber it) || negb (isfinite (j_double it)) || pas_cjson_number_prints_exactly (j_double it)
  then (Item (j_type it) (j_double it) (j_string it) (j_key it) children, n)
  else if alloc n then
    (Item (Z.lor cJSON_Raw (Z.land (j_type it) (Z.lor cJSON_IsReference cJSON_StringIsConst))) (j_double it)
       (Some (str (pas_real_shortest_g (j_double it)))) (j_key it) children, S n)
  else (Item (j_type it) (j_double it) (j_string it) (j_key it) children, S n).

Fixpoint pas_cjson_exact_numbers (it : item) (n : nat) : item * nat :=
  let '(cs, n) :=
    (fix go (l : list item) (n : nat) : list item * nat :=
       match l with
       | [] => ([], n)
       | c :: l' => let '(c', n) := pas_cjson_exact_numbers c n in let '(l'', n) := go l' n in (c' :: l'', n)
       end) (j_children it) n in
  exact_node it cs n.
End Exact.

(** [pas_cjson_print_exact]; the printers are cJSON's. *)
Definition pas_cjson_print_exact `{CJson} (alloc : nat -> bool) (cJSON_Print cJSON_PrintUnformatted : option item -> option string)
    (it : option item) (formatted : bool) : option string :=
  let it := match it with Some i => Some (fst (pas_cjson_exact_numbers alloc i 0)) | None => None end in
  if formatted then cJSON_Print it else cJSON_PrintUnformatted it.

(** [pas_real_literal_value] of the first [len] bytes; [room] says whether a buffer
    for a long text can be allocated. *)
Definition pas_real_literal_value (room : bool) (text : bytes) (len : Z) : spec_float :=
  let len := if len <? 0 then 0 else len in
  if (128 <=? len) && negb room then S754_infinity false else strtod (firstn (Z.to_nat len) text).

Definition pas_cjson_create_string_span `{CJson} (room : bool) (text : bytes) (len : Z) : option item :=
  let len := if len <? 0 then 0 else len in
  if room then Some (cJSON_CreateString (str (until_nul (firstn (Z.to_nat len) text)))) else None.

(** * The text of a REAL literal *)

(** [strchr(p, 'e')]: the text in front of the exponent and the one after. *)
Fixpoint split_e (s : bytes) : option (bytes * bytes) :=
  match s with
  | [] => None
  | c :: s' =>
      if Ascii.eqb c "e" then Some ([], s')
      else match split_e s' with Some (a, b) => Some (c :: a, b) | None => None end
  end.

(** [strtol] of the exponent: a sign and digits. *)
Definition exp_value (s : bytes) : Z :=
  match s with
  | c :: s' =>
      if Ascii.eqb c "-" then - dec_value (fst (span_digits s'))
      else if Ascii.eqb c "+" then dec_value (fst (span_digits s')) else dec_value (fst (span_digits s))
  | [] => 0
  end.

(** The trailing zeros go, but for the first digit. *)
Definition trim_digits (ds : bytes) : bytes :=
  match ds with
  | d :: r => d :: rev (drop_zeros (rev r))
  | [] => []
  end.

(** The digits around the point, plain for exponents from -5 to 15. *)
Definition zeros (n : Z) : bytes := replicate (Z.to_nat n) "0"%char.

Definition literal_layout (ds : bytes) (exp10 : Z) : bytes :=
  let nd := Z.of_nat (length ds) in
  if (-5 <=? exp10) && (exp10 <? 16) then
    if exp10 <? 0 then "0"%char :: "."%char :: zeros (- exp10 - 1) ++ ds
    else
      firstn (Z.to_nat (exp10 + 1)) ds ++ zeros (exp10 + 1 - nd) ++ "."%char ::
        (if exp10 + 1 <? nd then skipn (Z.to_nat (exp10 + 1)) ds else ["0"%char])
  else
    firstn 1 ds ++ "."%char :: (if 1 <? nd then skipn 1 ds else ["0"%char]) ++ "E"%char :: chars (Zs exp10).

Definition pas_real_literal_text (v : spec_float) : bytes :=
  if negb (isfinite v) then []
  else
    let sci := first_reading (fun P => fmt_e P v) v 16 0 in
    let '(sign, p) := match sci with
                      | c :: p' => if Ascii.eqb c "-" then (["-"%char], p') else ([], sci)
                      | [] => ([], sci) end in
    match split_e p with
    | None => []
    | Some (mantissa, ex) =>
        let digits := firstn 20 (List.filter (fun c => negb (Ascii.eqb c ".")) mantissa) in
        sign ++ literal_layout (trim_digits digits) (exp_value ex)
    end.

Example literal_tenth : str (pas_real_literal_text (strtod (chars "0.1"))) = "0.1".
Proof. vm_compute. reflexivity. Qed.
Example literal_max : str (pas_real_literal_text (strtod (chars "1.7976931348623157E308"))) = "1.7976931348623157E308".
Proof. vm_compute. reflexivity. Qed.
Example literal_big : str (pas_real_literal_text (SFopp (strtod (chars "1200.0")))) = "-1200.0".
Proof. vm_compute. reflexivity. Qed.
Example literal_zero : str (pas_real_literal_text (S754_zero true)) = "-0.0".
Proof. vm_compute. reflexivity. Qed.
Example literal_small : str (pas_real_literal_text (strtod (chars "4.9e-324"))) = "5.0E-324".
Proof. vm_compute. reflexivity. Qed.

(** ** What a literal's text stands for *)

(** [m * 10 ^ e] and [m' * 10 ^ e'] are the same number. *)
Definition same_decimal (m e m' e' : Z) : Prop := m * 10 ^ (e - Z.min e e') = m' * 10 ^ (e' - Z.min e e').

Lemma dec_value_app a b : dec_value (a ++ b) = dec_value a * 10 ^ Z.of_nat (length b) + dec_value b.
Proof.
  unfold dec_value. induction b as [| c b IH] using rev_ind.
  - rewrite app_nil_r. change (base_value 10 []) with 0. change (10 ^ Z.of_nat (length (@nil ascii))) with 1. lia.
  - rewrite app_assoc, !(base_value_app 10), IH, length_app. simpl length.
    replace (Z.of_nat (length b + 1)) with (Z.succ (Z.of_nat (length b))) by lia. rewrite Z.pow_succ_r by lia. lia.
Qed.

Lemma dec_value_zeros n : dec_value (zeros n) = 0.
Proof.
  unfold zeros. induction (Z.to_nat n) as [| k IH]; [done |]. rewrite replicate_S_end, dec_value_app, IH. done.
Qed.

Lemma length_zeros n : 0 <= n -> Z.of_nat (length (zeros n)) = n.
Proof. intros H. unfold zeros. rewrite length_replicate. lia. Qed.

Definition all_digits (ds : bytes) : bool := forallb isdigit ds.

Lemma all_digits_zeros n : all_digits (zeros n) = true.
Proof. apply forallb_forall. intros c Hc%list_elem_of_In. apply elem_of_replicate in Hc as [-> _]. done. Qed.

Lemma all_digits_app a b : all_digits (a ++ b) = all_digits a && all_digits b.
Proof. apply forallb_app. Qed.

Lemma all_digits_parts n ds : all_digits ds = true -> all_digits (firstn n ds) = true /\ all_digits (skipn n ds) = true.
Proof. intros H. rewrite <- (firstn_skipn n ds), all_digits_app in H. by apply andb_true_iff in H. Qed.

(** A literal of the dialect: digits, a point, digits, and maybe an exponent. *)
Definition is_literal (text ip fp ex : bytes) (x : Z) : Prop :=
  text = ip ++ "."%char :: fp ++ ex /\ ip <> [] /\ fp <> [] /\ all_digits ip = true /\ all_digits fp = true /\
  ((ex = [] /\ x = 0) \/ ex = "E"%char :: chars (Zs x)).

Lemma span_digits_stop a c r : all_digits a = true -> isdigit c = false -> span_digits (a ++ c :: r) = (a, c :: r).
Proof.
  intros Ha Hc. induction a as [| d a IH]; [simpl; by rewrite Hc |]. simpl in Ha. apply andb_true_iff in Ha as [Hd Ha].
  simpl. by rewrite Hd, IH.
Qed.

Lemma dec_value_dec n : 0 <= n -> dec_value (dec_bytes n) = n.
Proof. intros Hn. by apply (base_digits_value 10). Qed.

Lemma strtod_literal text ip fp ex x : is_literal text ip fp ex x ->
  strtod text = real_of_decimal (dec_value (ip ++ fp)) (x - Z.of_nat (length fp)).
Proof.
  intros (-> & _ & _ & Hi & Hf & Hx). unfold strtod. rewrite span_digits_stop by done. rewrite Ascii.eqb_refl.
  destruct Hx as [[-> ->] | ->].
  - rewrite app_nil_r, span_digits_all by done. done.
  - rewrite span_digits_stop by done.
    change (Ascii.eqb "E" "e" || Ascii.eqb "E" "E") with true. cbv iota. f_equal. f_equal. rewrite chars_Zs.
    destruct (Z.ltb_spec x 0).
    + rewrite Ascii.eqb_refl. rewrite span_digits_all by (apply dec_bytes_value; lia). cbn [fst].
      rewrite dec_value_dec by lia. lia.
    + destruct (dec_bytes_head x ltac:(lia)) as (c & s & E & Hc). destruct (digit_no_space c Hc) as (_ & H1 & H2).
      rewrite E, H1, H2, <- E. rewrite span_digits_all by (apply dec_bytes_value; lia). cbn [fst].
      by rewrite dec_value_dec.
Qed.

Lemma Zs_length x : -1000 < x < 1000 -> (length (chars (Zs x)) <= 4)%nat.
Proof.
  intros Hx. rewrite chars_Zs.
  assert (forall n, 0 <= n < 1000 -> (length (dec_bytes n) <= 3)%nat) as Hd.
  { intros n Hn. assert (forallb (fun k => (length (dec_bytes (Z.of_nat k)) <=? 3)%nat) (seq 0 1000) = true) as H by (vm_compute; reflexivity).
    rewrite forallb_forall in H. specialize (H (Z.to_nat n)). rewrite Z2Nat.id in H by lia. apply Nat.leb_le, H, in_seq. lia. }
  destruct (Z.ltb_spec x 0); [simpl; specialize (Hd (- x)) | specialize (Hd x)]; lia.
Qed.

Lemma same_decimal_intro m e m' k : 0 <= k -> m' = m * 10 ^ k -> same_decimal m e m' (e - k).
Proof.
  intros Hk ->. unfold same_decimal. rewrite Z.min_r by lia. rewrite Z.sub_diag. replace (e - (e - k)) with k by lia. lia.
Qed.
Lemma same_decimal_sym m e m' e' : same_decimal m e m' e' -> same_decimal m' e' m e.
Proof. unfold same_decimal. rewrite (Z.min_comm e' e). auto. Qed.

Lemma layout_small ds x : all_digits ds = true -> ds <> [] -> -5 <= x < 0 ->
  is_literal (literal_layout ds x) ["0"%char] (zeros (- x - 1) ++ ds) [] 0 /\
  same_decimal (dec_value (["0"%char] ++ zeros (- x - 1) ++ ds)) (0 - Z.of_nat (length (zeros (- x - 1) ++ ds)))
    (dec_value ds) (x - (Z.of_nat (length ds) - 1)).
Proof.
  intros Hd Hne Hx. split.
  - unfold is_literal, literal_layout. rewrite (proj2 (Z.leb_le (-5) x)), (proj2 (Z.ltb_lt x 16)), (proj2 (Z.ltb_lt x 0)) by lia.
    rewrite app_nil_r, all_digits_app, all_digits_zeros, Hd. repeat split; try done; try (by left).
    intros E. apply app_nil in E as [_ ->]. done.
  - rewrite !dec_value_app, dec_value_zeros, length_app, Nat2Z.inj_add, length_zeros by lia.
    replace (dec_value ["0"%char]) with 0 by reflexivity.
    unfold same_decimal. replace (0 - (- x - 1 + Z.of_nat (length ds))) with (x - (Z.of_nat (length ds) - 1)) by lia. reflexivity.
Qed.

Lemma layout_point ds x : all_digits ds = true -> 0 <= x < 16 -> x + 1 < Z.of_nat (length ds) ->
  is_literal (literal_layout ds x) (firstn (Z.to_nat (x + 1)) ds) (skipn (Z.to_nat (x + 1)) ds) [] 0 /\
  same_decimal (dec_value (firstn (Z.to_nat (x + 1)) ds ++ skipn (Z.to_nat (x + 1)) ds))
    (0 - Z.of_nat (length (skipn (Z.to_nat (x + 1)) ds))) (dec_value ds) (x - (Z.of_nat (length ds) - 1)).
Proof.
  intros Hd Hx Hn. destruct (all_digits_parts (Z.to_nat (x + 1)) ds Hd) as [H1 H2]. split.
  - unfold is_literal, literal_layout. rewrite (proj2 (Z.leb_le (-5) x)), (proj2 (Z.ltb_lt x 16)), (proj2 (Z.ltb_ge x 0)), (proj2 (Z.ltb_lt (x + 1) _)) by lia.
    unfold zeros. replace (Z.to_nat (x + 1 - Z.of_nat (length ds))) with 0%nat by lia.
    cbn [andb replicate app]. rewrite app_nil_r. repeat split; try done; try (by left);
      intros E%(f_equal length); revert E; rewrite ?length_firstn, ?length_skipn; simpl; lia.
  - rewrite firstn_skipn, length_skipn. unfold same_decimal.
    replace (0 - Z.of_nat (length ds - Z.to_nat (x + 1))) with (x - (Z.of_nat (length ds) - 1)) by lia. lia.
Qed.

Lemma layout_whole ds x : all_digits ds = true -> ds <> [] -> 0 <= x < 16 -> Z.of_nat (length ds) <= x + 1 ->
  is_literal (literal_layout ds x) (ds ++ zeros (x + 1 - Z.of_nat (length ds))) ["0"%char] [] 0 /\
  same_decimal (dec_value ((ds ++ zeros (x + 1 - Z.of_nat (length ds))) ++ ["0"%char])) (0 - 1)
    (dec_value ds) (x - (Z.of_nat (length ds) - 1)).
Proof.
  intros Hd Hne Hx Hn. split.
  - unfold is_literal, literal_layout. rewrite (proj2 (Z.leb_le (-5) x)), (proj2 (Z.ltb_lt x 16)), (proj2 (Z.ltb_ge x 0)), (proj2 (Z.ltb_ge (x + 1) _)) by lia.
    rewrite firstn_all2 by lia. cbn [andb]. rewrite <- app_assoc, app_nil_r, all_digits_app, all_digits_zeros, Hd.
    repeat split; try done; try (by left). intros E. apply app_nil in E as [-> _]. done.
  - rewrite !dec_value_app, dec_value_zeros, length_zeros by lia. apply same_decimal_sym.
    set (k := x + 1 - Z.of_nat (length ds)). replace (x - (Z.of_nat (length ds) - 1)) with k by lia.
    replace (0 - 1) with (k - (k + 1)) by lia. apply same_decimal_intro; [lia |].
    change (dec_value ["0"%char]) with 0. change (10 ^ Z.of_nat (length ["0"%char])) with 10. rewrite Z.pow_add_r by lia. lia.
Qed.

Lemma layout_scientific ds x : all_digits ds = true -> ds <> [] -> ~ (-5 <= x < 16) ->
  let fp := if 1 <? Z.of_nat (length ds) then skipn 1 ds else ["0"%char] in
  is_literal (literal_layout ds x) (firstn 1 ds) fp ("E"%char :: chars (Zs x)) x /\
  same_decimal (dec_value (firstn 1 ds ++ fp)) (x - Z.of_nat (length fp)) (dec_value ds) (x - (Z.of_nat (length ds) - 1)).
Proof.
  intros Hd Hne Hx fp. destruct (all_digits_parts 1 ds Hd) as [H1 H2]. split.
  - unfold is_literal, literal_layout. assert ((-5 <=? x) && (x <? 16) = false) as ->.
    { apply andb_false_iff. destruct (Z.le_gt_cases (-5) x); [right; apply Z.ltb_ge | left; apply Z.leb_gt]; lia. }
    fold fp. repeat split; try done; try (by right); try (by destruct ds); unfold fp;
      destruct (Z.ltb_spec 1 (Z.of_nat (length ds))); try done.
    intros E%(f_equal length). rewrite length_skipn in E. simpl in E. lia.
  - unfold fp. destruct (Z.ltb_spec 1 (Z.of_nat (length ds))) as [Hl | Hl].
    + rewrite firstn_skipn, length_skipn. unfold same_decimal. replace (Z.of_nat (length ds - 1)) with (Z.of_nat (length ds) - 1) by lia. lia.
    + destruct ds as [| d [| d' r]]; [done | | simpl in Hl; lia]. simpl firstn. rewrite dec_value_app. apply same_decimal_sym.
      change (dec_value ["0"%char]) with 0. change (Z.of_nat (length ["0"%char])) with 1. change (Z.of_nat (length [d])) with 1.
      replace (x - (1 - 1)) with x by lia. apply same_decimal_intro; lia.
Qed.

(** The text of a REAL literal. From the digits of the shortest scientific text
    that reads back, and its exponent, [pas_real_literal_text] lays out a literal of
    the dialect's grammar (digits, a point, digits, and an exponent outside -5..15)
    that stands for the same decimal number, so that reading it as a literal rounds
    that number; with a sign and the NUL it fits the 64 bytes of its buffer. *)
Lemma literal_reads ds x (Hd : all_digits ds = true) (Hn : (0 < length ds <= 17)%nat) (Hx : -1000 < x < 1000) :
  exists ip fp ex e, is_literal (literal_layout ds x) ip fp ex e /\
    same_decimal (dec_value (ip ++ fp)) (e - Z.of_nat (length fp)) (dec_value ds) (x - (Z.of_nat (length ds) - 1)) /\
    strtod (literal_layout ds x) = real_of_decimal (dec_value (ip ++ fp)) (e - Z.of_nat (length fp)) /\
    (length (literal_layout ds x) <= 62)%nat.
Proof.
  assert (forall ip fp ex e, is_literal (literal_layout ds x) ip fp ex e ->
    same_decimal (dec_value (ip ++ fp)) (e - Z.of_nat (length fp)) (dec_value ds) (x - (Z.of_nat (length ds) - 1)) ->
    (length (literal_layout ds x) <= 62)%nat -> exists ip fp ex e, is_literal (literal_layout ds x) ip fp ex e /\
    same_decimal (dec_value (ip ++ fp)) (e - Z.of_nat (length fp)) (dec_value ds) (x - (Z.of_nat (length ds) - 1)) /\
    strtod (literal_layout ds x) = real_of_decimal (dec_value (ip ++ fp)) (e - Z.of_nat (length fp)) /\
    (length (literal_layout ds x) <= 62)%nat) as Hpack.
  { intros ip fp ex e H1 H2 H3. exists ip, fp, ex, e. split; [done |]. split; [done |]. split; [by apply (strtod_literal _ _ _ _ _ H1) | done]. }
  assert (ds <> []) as Hne by (intros ->; simpl in Hn; lia).
  assert (forall n, (length (zeros n) <= Z.to_nat n)%nat) as Hz by (intros n; unfold zeros; rewrite length_replicate; lia).
  destruct (decide (-5 <= x < 16)) as [Hr | Hr]; [destruct (Z.lt_ge_cases x 0) as [Hs | Hs] |].
  - destruct (layout_small ds x Hd Hne ltac:(lia)) as [H1 H2]. apply (Hpack _ _ _ _ H1 H2).
    rewrite (proj1 H1). repeat (rewrite length_app || cbn [length app]). specialize (Hz (- x - 1)). lia.
  - destruct (Z.lt_ge_cases (x + 1) (Z.of_nat (length ds))) as [Hp | Hp].
    + destruct (layout_point ds x Hd ltac:(lia) Hp) as [H1 H2]. apply (Hpack _ _ _ _ H1 H2). rewrite (proj1 H1).
      repeat (rewrite length_app || cbn [length]). rewrite length_firstn, length_skipn. lia.
    + destruct (layout_whole ds x Hd Hne ltac:(lia) ltac:(lia)) as [H1 H2]. apply (Hpack _ _ _ _ H1 H2). rewrite (proj1 H1).
      repeat (rewrite length_app || cbn [length]). specialize (Hz (x + 1 - Z.of_nat (length ds))). lia.
  - destruct (layout_scientific ds x Hd Hne Hr) as [H1 H2]. apply (Hpack _ _ _ _ H1 H2). rewrite (proj1 H1).
    pose proof (Zs_length x Hx). repeat (rewrite length_app || cbn [length]). rewrite length_firstn.
    destruct (1 <? _); [rewrite length_skipn | cbn [length]]; lia.
Qed.

(** * The text of a file *)

(** The answers of the system to the calls on a stream that opened. *)
Record reading := mkReading { rd_seek_end : bool; rd_tell : Z; rd_seek_set : bool; rd_malloc : bool; rd_count : Z }.
(** Streams that are open and blocks that are allocated. *)
Record held := mkHeld { h_streams : nat; h_blocks : nat }.

(** [content] is [None] when the file does not open. *)
Definition pas_read_text_file (content : option bytes) (a : reading) (h : held) : option bytes * held :=
  match content with
  | None => (None, h)
  | Some bytes =>
      let h := mkHeld (S (h_streams h)) (h_blocks h) in
      let fclose h := mkHeld (pred (h_streams h)) (h_blocks h) in
      if negb (rd_seek_end a) then (None, fclose h)
      else
        let size := rd_tell a in
        if (size <? 0) || negb (rd_seek_set a) then (None, fclose h)
        else if negb (rd_malloc a) then (None, fclose h)
        else
          let h := mkHeld (h_streams h) (S (h_blocks h)) in
          if negb (rd_count a =? size) then (None, fclose (mkHeld (h_streams h) (pred (h_blocks h))))
          else (Some (take (Z.to_nat size) bytes ++ ["000"%char]), fclose h)
  end.

(** Every stream is closed again; a block stays only with its text, which is the file's. *)
Lemma text_file_read content a h : match pas_read_text_file content a h with
  | (Some t, h') => h' = mkHeld (h_streams h) (S (h_blocks h)) /\
      forall bytes, content = Some bytes -> rd_tell a = Z.of_nat (length bytes) -> t = bytes ++ ["000"%char]
  | (None, h') => h' = h
  end.
Proof.
  destruct h as [n b], content as [bytes |]; [| done]. unfold pas_read_text_file.
  destruct (rd_seek_end a); [| done]. destruct (_ || _); [done |]. destruct (rd_malloc a); [| done].
  destruct (_ =? _); [| done]. split; [done |]. intros bs [= <-] ->. by rewrite Nat2Z.id, firstn_all.
Qed.
