(* ===== verification/RealText.v ===== *)
(** The texts of doubles: what [fmt_17g] (printf's %.17g) prints is read back as the same
    double, so the constants of the emitted C are those of the source, the shortest text
    that json_helpers.c looks for always exists, and every REAL literal the compiler
    writes is read back exactly. *)

From Stdlib Require Import ZArith Ascii String SpecFloat Lia.
From stdpp Require Import base list strings.
From S2P Require Import Prelude Real CPrelude LexProps EmitText Ast Emit Numeric RtErrors Json RealProps.
Import EmitText.Ints.
#[local] Open Scope Z_scope.

(** * Digits *)

Lemma strip_zeros_spec ds : exists n, ds = strip_zeros ds ++ replicate n "0"%char.
Proof.
  unfold strip_zeros. assert (forall l, exists n, l = replicate n "0"%char ++ drop_zeros l) as H.
  { induction l as [| c l [n IH]]; [by exists 0%nat |]. simpl. destruct (Ascii.eqb_spec c "0") as [-> | Hc]; [| by exists 0%nat].
    exists (S n). simpl. by rewrite <- IH. }
  destruct (H (rev ds)) as [n E]. exists n. rewrite <- (rev_involutive ds) at 1. rewrite E at 1. rewrite rev_app_distr. f_equal.
  clear. induction n as [| n IH]; [done |]. simpl. rewrite IH. symmetry. apply (replicate_cons_app n).
Qed.

(** A text of digits, maybe with a fraction and an exponent. *)
Definition exponent_form (ex : bytes) (x : Z) : Prop :=
  (ex = [] /\ x = 0) \/ ex = "e"%char :: exponent_text x.

Lemma two_digits_spec n : 0 <= n -> all_digits (two_digits n) = true /\ dec_value (two_digits n) = n.
Proof.
  intros Hn. destruct (dec_bytes_value n Hn) as [Hd _]. unfold two_digits. destruct (n <? 10).
  - split; [exact Hd |]. change ("0"%char :: dec_bytes n) with (["0"%char] ++ dec_bytes n).
    rewrite dec_value_app, dec_value_dec by done. done.
  - split; [exact Hd | by apply dec_value_dec].
Qed.

Lemma strtod_exponent ip fp point ex x : all_digits ip = true -> all_digits fp = true -> exponent_form ex x ->
  (point = "."%char :: fp \/ (point = [] /\ fp = [])) ->
  strtod (ip ++ point ++ ex) = real_of_decimal (dec_value (ip ++ fp)) (x - Z.of_nat (length fp)).
Proof.
  intros Hi Hf Hx Hp.
  assert (forall r, (r = [] \/ exists c r', r = c :: r' /\ isdigit c = false) -> forall a, all_digits a = true -> span_digits (a ++ r) = (a, r)) as Hspan.
  { intros r [-> | (c & r' & -> & Hc)] a Ha; [rewrite app_nil_r; by apply span_digits_all | by apply span_digits_stop]. }
  assert (ex = [] \/ exists c r', ex = c :: r' /\ isdigit c = false) as Hex by (destruct Hx as [[-> _] | ->]; [by left | right; eauto]).
  assert (forall m k, (let ex0 := match ex with
       | c :: r' => if Ascii.eqb c "e" || Ascii.eqb c "E" then
            match r' with
            | c' :: r'' => if Ascii.eqb c' "-" then - dec_value (fst (span_digits r''))
                           else if Ascii.eqb c' "+" then dec_value (fst (span_digits r'')) else dec_value (fst (span_digits r'))
            | [] => 0
            end else 0
       | [] => 0 end in real_of_decimal m (ex0 - k)) = real_of_decimal m (x - k)) as He.
  { intros m k. destruct Hx as [[-> ->] | ->]; [done |]. cbv zeta. change (Ascii.eqb "e" "e" || Ascii.eqb "e" "E") with true. cbv iota.
    unfold exponent_text. destruct (two_digits_spec (Z.abs x) ltac:(lia)) as [Hd Hv].
    destruct (Z.ltb_spec x 0); rewrite span_digits_all, Hd || rewrite span_digits_all by exact Hd; cbn [fst].
    - change (Ascii.eqb "-" "-") with true. cbv iota. rewrite Hv. f_equal. lia.
    - change (Ascii.eqb "+" "-") with false. change (Ascii.eqb "+" "+") with true. cbv iota. rewrite Hv. f_equal. lia. }
  unfold strtod. destruct Hp as [-> | [-> ->]].
  - cbn [app]. rewrite Hspan; [| right; eauto | done]. rewrite Ascii.eqb_refl. rewrite Hspan by done. apply He.
  - cbn [app]. rewrite Hspan by done. destruct Hex as [-> | (c & r' & -> & Hc)].
    + rewrite app_nil_r. apply He.
    + destruct (Ascii.eqb_spec c ".") as [-> |]; [destruct Hx as [[? _] | ?]; discriminate |]. rewrite app_nil_r. apply He.
Qed.

Lemma dec_value_pad a n : dec_value (a ++ replicate n "0"%char) = dec_value a * 10 ^ Z.of_nat n.
Proof.
  rewrite dec_value_app, length_replicate. replace (replicate n "0"%char) with (zeros (Z.of_nat n)) by (unfold zeros; by rewrite Nat2Z.id).
  rewrite dec_value_zeros. lia.
Qed.

(** The zeros a text does without change its value by a power of ten. *)
Lemma strtod_with_fraction ip fp ex x : all_digits ip = true -> all_digits fp = true -> exponent_form ex x ->
  exists M k n, strtod (with_fraction ip fp ++ ex) = real_of_decimal M k /\ 0 <= n /\
    dec_value (ip ++ fp) = M * 10 ^ n /\ x - Z.of_nat (length fp) = k - n.
Proof.
  intros Hi Hf Hx. destruct (strip_zeros_spec fp) as [n E]. set (fp' := strip_zeros fp) in *.
  assert (all_digits fp' = true) as Hf' by (rewrite E, all_digits_app in Hf; by apply andb_true_iff in Hf as [Hf _]).
  exists (dec_value (ip ++ fp')), (x - Z.of_nat (length fp')), (Z.of_nat n). split; [| split; [lia |]].
  - unfold with_fraction. fold fp'. destruct fp' as [| c r] eqn:Ef.
    + apply (strtod_exponent ip [] [] ex x); auto.
    + rewrite <- app_assoc. apply (strtod_exponent ip (c :: r) ("."%char :: c :: r) ex x); auto.
  - rewrite E at 1 2. rewrite app_assoc, dec_value_pad. split; [done |]. rewrite length_app, length_replicate. lia.
Qed.

Lemma base_aux_count fuel : forall n acc, 0 < n < 2 ^ Z.of_nat fuel ->
  exists k, Z.of_nat (length (base_aux 10 fuel n acc)) = k + 1 + Z.of_nat (length acc) /\ 0 <= k /\ 10 ^ k <= n < 10 ^ (k + 1).
Proof.
  induction fuel as [| f IH]; intros n acc Hn; [simpl in Hn; lia |]. cbn [base_aux].
  pose proof (Z.div_mod n 10 ltac:(lia)). pose proof (Z.mod_pos_bound n 10 ltac:(lia)).
  destruct (Z.eqb_spec (n / 10) 0) as [E | E].
  - exists 0. cbn [length]. rewrite E in *. change (10 ^ 0) with 1. change (10 ^ (0 + 1)) with 10. lia.
  - destruct (IH (n / 10) (digit_char (n `mod` 10) :: acc)) as (k & Hk & Hk0 & Hb).
    { split; [lia |]. replace (Z.of_nat (S f)) with (Z.succ (Z.of_nat f)) in Hn by lia. rewrite Z.pow_succ_r in Hn by lia. lia. }
    exists (k + 1). rewrite Hk. cbn [length]. split; [lia |]. split; [lia |].
    rewrite !Z.pow_add_r in * by lia. change (10 ^ 1) with 10 in *. lia.
Qed.

(** The digits of a number that has 17. *)
Lemma dec_bytes_count q n : 0 <= n -> 10 ^ n <= q < 10 ^ (n + 1) -> Z.of_nat (length (dec_bytes q)) = n + 1.
Proof.
  intros Hn Hq. assert (0 < 10 ^ n) by (apply Z.pow_pos_nonneg; lia). unfold dec_bytes, base_digits.
  destruct (base_aux_count (S (Z.to_nat (Z.log2 q))) q []) as (k & Hk & Hk0 & Hb).
  { pose proof (Z.log2_spec q ltac:(lia)) as [_ H2]. pose proof (Z.log2_nonneg q). replace (Z.of_nat (S (Z.to_nat (Z.log2 q)))) with (Z.succ (Z.log2 q)) by lia. lia. }
  rewrite Hk. cbn [length]. assert (k = n); [| lia].
  assert (k < n + 1) by (apply (Z.pow_lt_mono_r_iff 10); lia). assert (n < k + 1) by (apply (Z.pow_lt_mono_r_iff 10); lia). lia.
Qed.

(** * printf's %.17g *)

Lemma bounded_double m e : bounded prec emax m e = true <-> double m e.
Proof.
  unfold bounded, canonical_mantissa, double. rewrite andb_true_iff, Z.eqb_eq, Z.leb_le. cbn [Zdigits2]. unfold emax at 2, prec at 2.
  change (1024 - 53) with 971. done.
Qed.

Lemma sci_digits m e P q x : double m e -> 0 <= P -> sci (P + 1) m e = (q, x) -> 10 ^ P <= q < 10 ^ (P + 1) /\ -400 < x < 400.
Proof.
  intros Hd HP Hs. pose proof (scaled_digits m e (P + 1) Hd ltac:(lia)) as Hr. pose proof (dec_exponent_range m e Hd) as Hx.
  unfold sci in Hs. fold (bnum m e) (bden e) in Hs. replace (P + 1 - 1) with P in * by lia.
  assert (10 ^ P < 10 ^ (P + 1)) by (apply Z.pow_lt_mono_r; lia).
  destruct (Z.eqb_spec (scaled (bnum m e) (bden e) (P - dec_exponent (bnum m e) (bden e))) (10 ^ (P + 1))); injection Hs as <- <-; lia.
Qed.

(** The text %.*g makes of a positive double, and with 17 digits. *)
Definition textg (P : Z) (m : positive) (e : Z) : bytes :=
  let '(q, x) := sci P m e in
  let ds := dec_bytes q in
  if (x <? -4) || (P <=? x) then with_fraction (firstn 1 ds) (skipn 1 ds) ++ "e"%char :: exponent_text x
  else if x <? 0 then with_fraction ["0"%char] (replicate (Z.to_nat (- x - 1)) "0"%char ++ ds)
  else with_fraction (firstn (Z.to_nat (x + 1)) ds) (skipn (Z.to_nat (x + 1)) ds).
Definition text17 : positive -> Z -> bytes := textg 17.

Lemma fmt_g_text P s m e : chars (fmt_g P (S754_finite s m e)) = (if s then ["-"%char] else []) ++ textg P m e.
Proof. unfold fmt_g, textg. destruct (sci P m e) as [q x]. by destruct s; simpl; rewrite chars_str. Qed.
Lemma fmt_17g_text s m e : chars (fmt_17g (S754_finite s m e)) = (if s then ["-"%char] else []) ++ text17 m e.
Proof. rewrite <- fmt_g_17. apply fmt_g_text. Qed.

(** What all three layouts have in common: the digits are those of [q], with zeros in front. *)
Lemma textg_parts P m e q x : double m e -> 0 <= P -> sci (P + 1) m e = (q, x) ->
  exists ip fp ex y, textg (P + 1) m e = with_fraction ip fp ++ ex /\ ip <> [] /\ all_digits ip = true /\ all_digits fp = true /\
    exponent_form ex y /\ dec_value (ip ++ fp) = q /\ y - Z.of_nat (length fp) = x - P.
Proof.
  intros Hd HP Hs. destruct (sci_digits m e P q x Hd HP Hs) as [Hq _]. unfold textg. rewrite Hs.
  pose proof (dec_bytes_count q P HP Hq) as Hlen. assert (0 < 10 ^ P) by (apply Z.pow_pos_nonneg; lia).
  pose proof (proj1 (dec_bytes_value q ltac:(lia))) as Hall. pose proof (dec_value_dec q ltac:(lia)) as Hval.
  set (ds := dec_bytes q) in *.
  assert (forall n, all_digits (firstn n ds) = true /\ all_digits (skipn n ds) = true) as Hparts by (intros n; by apply all_digits_parts).
  assert (forall n, (0 < n)%nat -> firstn n ds <> []) as Hne by (intros [| n] Hn; [lia |]; destruct ds; [cbn in Hlen; lia | done]).
  destruct ((x <? -4) || (P + 1 <=? x)) eqn:Ex; [| apply orb_false_iff in Ex as [H1%Z.ltb_ge H2%Z.leb_gt]; destruct (Z.ltb_spec x 0)].
  - exists (firstn 1 ds), (skipn 1 ds), ("e"%char :: exponent_text x), x. rewrite firstn_skipn, length_skipn. split; [done |].
    split; [apply Hne; lia |]. split; [apply Hparts |]. split; [apply Hparts |]. split; [by right |]. split; [done | lia].
  - exists ["0"%char], (replicate (Z.to_nat (- x - 1)) "0"%char ++ ds), [], 0. rewrite app_nil_r. split; [done |]. split; [done |].
    split; [done |]. rewrite all_digits_app. fold (zeros (- x - 1)). rewrite all_digits_zeros. split; [exact Hall |]. split; [by left |].
    rewrite !dec_value_app, dec_value_zeros, length_app, Nat2Z.inj_add, length_zeros by lia. change (dec_value ["0"%char]) with 0. split; lia.
  - exists (firstn (Z.to_nat (x + 1)) ds), (skipn (Z.to_nat (x + 1)) ds), [], 0. rewrite app_nil_r, firstn_skipn, length_skipn. split; [done |].
    split; [apply Hne; lia |]. split; [apply Hparts |]. split; [apply Hparts |]. split; [by left |]. split; [done | lia].
Qed.
Lemma text17_parts m e q x : double m e -> sci17 m e = (q, x) ->
  exists ip fp ex y, text17 m e = with_fraction ip fp ++ ex /\ ip <> [] /\ all_digits ip = true /\ all_digits fp = true /\
    exponent_form ex y /\ dec_value (ip ++ fp) = q /\ y - Z.of_nat (length fp) = x - 16.
Proof. intros Hd Hs. by apply (textg_parts 16). Qed.

Lemma strtod_text17 m e : double m e -> strtod (text17 m e) = S754_finite false m e.
Proof.
  intros Hd. destruct (sci17 m e) as [q x] eqn:Hs. destruct (sci17_digits m e q x Hd Hs) as [Hq _].
  destruct (text17_parts m e q x Hd Hs) as (ip & fp & ex & y & -> & _ & Hi & Hf & Hx & Hv & Hk).
  destruct (strtod_with_fraction ip fp ex y Hi Hf Hx) as (M & k & n & -> & Hn & HM & Hkn).
  rewrite Hv in HM. assert (0 < 10 ^ 16) by (apply Z.pow_pos_nonneg; lia). assert (0 < 10 ^ n) by (apply Z.pow_pos_nonneg; lia).
  apply (read17 m e q x); [done | done | nia |]. rewrite HM. replace (x - 16) with (k - n) by lia. by apply same_number_shift.
Qed.

(** * What is read is a double *)

Lemma dec_value_nonneg ds : all_digits ds = true -> 0 <= dec_value ds.
Proof.
  induction ds as [| c ds IH] using rev_ind; [done |]. rewrite all_digits_app, dec_value_app. intros [Hd Hc]%andb_true_iff.
  specialize (IH Hd). pose proof (Z.pow_pos_nonneg 10 (Z.of_nat (length [c])) ltac:(lia) ltac:(lia)).
  assert (0 <= dec_value [c]); [| nia]. unfold dec_value, base_value. cbn. cbn in Hc. rewrite andb_true_r in Hc. unfold isdigit in Hc.
  destruct c as [[] [] [] [] [] [] [] []]; cbn in Hc |- *; lia || discriminate.
Qed.

Lemma span_digits_digits s : all_digits (fst (span_digits s)) = true.
Proof. induction s as [| c s IH]; [done |]. simpl. destruct (isdigit c) eqn:E; [| done]. destruct (span_digits s) as [ds r]. cbn in *. by rewrite E. Qed.

Lemma strtod_valid s : valid_binary prec emax (strtod s) = true.
Proof.
  unfold strtod. pose proof (span_digits_digits s) as Hi. destruct (span_digits s) as [ip r]. cbn [fst] in Hi.
  assert (all_digits (fst (match r with c :: r' => if Ascii.eqb c "." then span_digits r' else ([], r) | [] => ([], r) end)) = true) as Hf.
  { destruct r as [| c r']; [done |]. destruct (Ascii.eqb c "."); [apply span_digits_digits | done]. }
  destruct (match r with c :: r' => if Ascii.eqb c "." then span_digits r' else ([], r) | [] => ([], r) end) as [fp r']. cbn [fst] in Hf.
  apply decimal_valid, dec_value_nonneg. by rewrite all_digits_app, Hi, Hf.
Qed.

(** * Printed and read *)

Lemma read_printed v : valid_binary prec emax v = true -> isfinite v = true -> strtod_signed (chars (fmt_17g v)) = v.
Proof.
  destruct v as [s | s | | s m e]; intros Hv Hf; try done; [by destruct s |].
  apply bounded_double in Hv. rewrite fmt_17g_text. pose proof (strtod_text17 m e Hv) as E.
  destruct s; cbn [app]; [cbn [strtod_signed]; rewrite Ascii.eqb_refl; by rewrite E |].
  destruct (sci17 m e) as [q x] eqn:Hs. destruct (text17_parts m e q x Hv Hs) as (ip & fp & ex & y & Et & Hne & Hi & _).
  assert (exists c r, text17 m e = c :: r /\ isdigit c = true) as (c & r & Ec & Hc).
  { rewrite Et. unfold with_fraction. destruct ip as [| c ip]; [done |]. cbn in Hi. apply andb_true_iff in Hi as [Hc _].
    destruct (strip_zeros fp); cbn; eauto. }
  rewrite Ec in E |- *. cbn [strtod_signed]. destruct (digit_no_space c Hc) as (_ & -> & _). exact E.
Qed.

(** ** Constants of the emitted C *)

(** A floating constant of C with a sign in front, in parentheses: digits, with a point
    or an exponent, which make it a double. *)
Definition float_char (c : ascii) : bool := isdigit c || existsb (Ascii.eqb c) ["."; "e"; "+"; "-"]%char.
Definition c_floating (s : bytes) : option spec_float :=
  match s with
  | c :: _ => if isdigit c && forallb float_char s && existsb (fun c => Ascii.eqb c "." || Ascii.eqb c "e") s then Some (strtod s) else None
  | [] => None
  end.
Definition c_real_constant (s : bytes) : option spec_float :=
  match s with
  | c :: r =>
      if Ascii.eqb c "(" then
        match rev r with
        | c' :: b =>
            if Ascii.eqb c' ")" then
              match rev b with
              | d :: b' => if Ascii.eqb d "-" then option_map SFopp (c_floating b') else c_floating (d :: b')
              | [] => None
              end
            else None
        | [] => None
        end
      else None
  | [] => None
  end.

Lemma c_real_parens neg b v : c_floating b = Some v ->
  c_real_constant (chars "(" ++ ((if neg : bool then ["-"%char] else []) ++ b) ++ chars ")") = Some (if neg then SFopp v else v).
Proof.
  intros Hb. cbn [chars list_ascii_of_string app c_real_constant]. rewrite Ascii.eqb_refl, rev_app_distr. cbn [rev app].
  rewrite Ascii.eqb_refl, rev_involutive. destruct neg; cbn [app].
  - rewrite Ascii.eqb_refl, Hb. done.
  - destruct b as [| d b']; [done |]. destruct (Ascii.eqb_spec d "-") as [-> |]; [discriminate Hb | exact Hb].
Qed.

(** The characters of a text. *)
Lemma all_digits_In s c : all_digits s = true -> In c s -> isdigit c = true.
Proof. unfold all_digits. rewrite forallb_forall. auto. Qed.

Definition plain_mark (c : ascii) : bool := Ascii.eqb c "." || Ascii.eqb c "e".

Lemma digits_unmarked s : all_digits s = true -> existsb plain_mark s = false /\ existsb real_mark s = false /\ forallb float_char s = true.
Proof.
  induction s as [| c s IH]; [done |]. cbn. intros [Hc Hs]%andb_true_iff. destruct (IH Hs) as (-> & -> & ->). rewrite !orb_false_r, andb_true_r.
  destruct c as [[] [] [] [] [] [] [] []]; (discriminate Hc || done).
Qed.

Lemma exponent_marks x : forallb float_char (exponent_text x) = true.
Proof.
  unfold exponent_text. cbn. destruct (two_digits_spec (Z.abs x) ltac:(lia)) as [Hd _]. destruct (digits_unmarked _ Hd) as (_ & _ & ->).
  by destruct (x <? 0).
Qed.

(** A text of %.17g, with .0 when it looks like an integer. *)
Definition as_real (t : bytes) : bytes := if existsb real_mark t then t else t ++ chars ".0".

Lemma real_lit_chars v : chars (real_lit v) = chars "(" ++ as_real (chars (fmt_17g v)) ++ chars ")".
Proof.
  unfold real_lit, as_real. rewrite !chars_app. f_equal. f_equal. destruct (existsb real_mark (chars (fmt_17g v))); [done |].
  by rewrite chars_app.
Qed.

Lemma as_real_minus t : as_real ("-"%char :: t) = "-"%char :: as_real t.
Proof. unfold as_real. cbn [existsb]. change (real_mark "-") with false. cbn [orb]. by destruct (existsb real_mark t). Qed.

Lemma c_floating_intro c s v : isdigit c = true -> forallb float_char s = true -> existsb plain_mark (c :: s) = true -> strtod (c :: s) = v ->
  c_floating (c :: s) = Some v.
Proof.
  intros Hc Hs He <-. cbn [c_floating]. rewrite Hc. cbn [andb]. assert (forallb float_char (c :: s) = true) as ->.
  { cbn [forallb]. rewrite Hs, andb_true_r. unfold float_char. by rewrite Hc. }
  cbn [andb]. unfold plain_mark in He. by rewrite He.
Qed.

Lemma as_real_floating m e : double m e -> c_floating (as_real (text17 m e)) = Some (S754_finite false m e).
Proof.
  intros Hd. pose proof (strtod_text17 m e Hd) as E. destruct (sci17 m e) as [q x] eqn:Hs.
  destruct (text17_parts m e q x Hd Hs) as (ip & fp & ex & y & Et & Hne & Hi & Hf & Hx & _). rewrite Et in E |- *. clear Et Hs.
  destruct (strip_zeros_spec fp) as [n Efp]. unfold with_fraction in *. set (fp' := strip_zeros fp) in *.
  assert (all_digits fp' = true) as Hf' by (rewrite Efp, all_digits_app in Hf; by apply andb_true_iff in Hf as [Hf _]). clearbody fp'. clear Efp Hf fp.
  destruct ip as [| c ip]; [done |]. pose proof Hi as Hi0. cbn in Hi0. apply andb_true_iff in Hi0 as [Hc Hi'].
  destruct (digits_unmarked _ Hi) as (_ & Hu & _). destruct (digits_unmarked _ Hi') as (_ & _ & Hfc). destruct (digits_unmarked _ Hf') as (_ & _ & Hff).
  assert (forallb float_char ex = true) as Hfe by (destruct Hx as [[-> _] | ->]; [done | apply exponent_marks]).
  set (t := (match fp' with [] => c :: ip | a :: l => (c :: ip) ++ "."%char :: a :: l end) ++ ex) in *.
  assert ((fp' = [] /\ ex = []) \/ (existsb real_mark t = true /\ exists r, t = c :: r /\ forallb float_char r = true /\ existsb plain_mark t = true)) as Hcase.
  { assert (existsb real_mark ("."%char :: fp') = true /\ existsb plain_mark ("."%char :: fp') = true) as [Hm1 Hm2] by done.
    destruct fp' as [| d fp'].
    - destruct Hx as [[-> _] | ->]; [by left |]. right. unfold t. split; [rewrite existsb_app; apply orb_true_r |].
      eexists. split; [reflexivity |]. rewrite forallb_app, Hfc. split; [exact Hfe |]. change (existsb plain_mark ((c :: ip) ++ "e"%char :: exponent_text y) = true).
      rewrite existsb_app. apply orb_true_r.
    - right. unfold t. split; [rewrite !existsb_app, Hm1, orb_true_r; done |]. eexists. split; [reflexivity |].
      rewrite !forallb_app, Hfc. cbn [forallb andb] in Hff |- *. rewrite Hff, Hfe. split; [done |].
      change (existsb plain_mark (((c :: ip) ++ "."%char :: d :: fp') ++ ex) = true). by rewrite !existsb_app, Hm2, orb_true_r. }
  destruct Hcase as [[-> ->] | (Hm & r & Er & Hr & Hp)].
  - unfold t in *. rewrite app_nil_r in *. unfold as_real. rewrite Hu. cbn [chars list_ascii_of_string].
    assert (strtod ((c :: ip) ++ ["."; "0"]%char) = S754_finite false m e) as E2.
    { pose proof (strtod_exponent (c :: ip) [] [] [] 0 Hi eq_refl ltac:(by left) ltac:(by right)) as E1. rewrite !app_nil_r in E1. rewrite E1 in E.
      pose proof (strtod_exponent (c :: ip) ["0"%char] ["."; "0"]%char [] 0 Hi eq_refl ltac:(by left) ltac:(by left)) as E3. rewrite app_nil_r in E3.
      rewrite E3, <- E. pose proof (dec_value_nonneg _ Hi). assert (dec_value (c :: ip) <> 0) as Hn0 by (intros Z0; by rewrite Z0 in E).
      pose proof (dec_value_pad (c :: ip) 1) as Ed. cbn [replicate] in Ed. rewrite Ed. apply real_of_decimal_same; [lia | lia |]. exact (same_number_shift (dec_value (c :: ip)) 0 1 ltac:(lia)). }
    apply c_floating_intro; [done | by rewrite forallb_app, Hfc | | exact E2]. cbn. by rewrite existsb_app, !orb_true_r.
  - unfold as_real. rewrite Hm, Er. apply c_floating_intro; [done | done | by rewrite <- Er | by rewrite <- Er].
Qed.

Lemma real_lit_exact v : valid_binary prec emax v = true -> isfinite v = true -> c_real_constant (chars (real_lit v)) = Some v.
Proof.
  destruct v as [s | s | | s m e]; intros Hv Hf; try done; [by destruct s |]. apply bounded_double in Hv. rewrite real_lit_chars, fmt_17g_text.
  pose proof (c_real_parens s (as_real (text17 m e)) (S754_finite false m e) (as_real_floating m e Hv)) as H.
  destruct s; cbn [app] in H |- *; [by rewrite as_real_minus |]. exact H.
Qed.

(** C4: REAL constants in range survive the translation, and no others. Whatever digits a
    REAL literal of the source has, when its value is finite, the C constant that stands
    for it (the text of printf's %.17g, with .0 added when it looks like an integer, in
    parentheses) is a floating constant of C whose value is exactly the double the literal
    was read as, and so is the constant for the negated literal; when its value is not
    finite, neither text is a constant of C. *)
Theorem real_constants_exact text :
  let v := strtod text in
  c_real_constant (chars (real_lit v)) = (if isfinite v then Some v else None) /\
  c_real_constant (chars (real_lit (real_neg v))) = (if isfinite v then Some (real_neg v) else None).
Proof.
  pose proof (strtod_valid text) as Hv. cbn zeta.
  destruct (isfinite (strtod text)) eqn:Hf; [split; apply real_lit_exact; try done; by destruct (strtod text) |].
  destruct (strtod text) as [s | s | | s m e]; [discriminate Hf | destruct s; split; vm_compute; reflexivity | split; vm_compute; reflexivity | discriminate Hf].
Qed.

Example constant_texts : real_lit (strtod (chars "6.02214076e23")) = "(6.0221407599999999e+23)" /\ real_lit (strtod (chars "100.0")) = "(100.0)".
Proof. split; vm_compute; reflexivity. Qed.

(** A literal out of range becomes the name inf, which is no constant of C. *)
Lemma real_overflow_unnamed : real_lit (strtod (chars "1E400")) = "(inf)" /\ c_real_constant (chars "(inf)") = None.
Proof. split; vm_compute; reflexivity. Qed.

(** * The shortest text *)

Lemma SFeqb_refl v : isfinite v = true -> SFeqb v v = true.
Proof.
  destruct v as [s | s | | s m e]; intros Hf; try done. unfold SFeqb, SFcompare. rewrite Z.compare_refl.
  assert (Pos.compare_cont Eq m m = Eq) as E by apply Pos.compare_refl. rewrite E. by destruct s.
Qed.
Lemma SFeqb_finite u s m e : SFeqb u (S754_finite s m e) = true -> u = S754_finite s m e.
Proof.
  unfold SFeqb, SFcompare. destruct u as [s' | s' | | s' m' e']; try done; [by destruct s | by destruct s' |].
  destruct s', s; try done; destruct (Z.compare_spec e' e) as [-> | |]; try done;
    change (Pos.compare_cont Eq m' m) with (m' ?= m)%positive; destruct (Pos.compare_spec m' m) as [-> | |]; done.
Qed.

Lemma first_reading_reads fmt v n : forall P, reads_as (fmt (P + Z.of_nat n)) v = true ->
  exists P', P <= P' <= P + Z.of_nat n /\ first_reading fmt v n P = fmt P' /\ reads_as (fmt P') v = true.
Proof.
  induction n as [| n IH]; intros P H; cbn [first_reading]; destruct (reads_as (fmt P) v) eqn:E.
  - exists P. split; [lia | done].
  - rewrite Z.add_0_r in H. congruence.
  - exists P. split; [lia | done].
  - destruct (IH (P + 1)) as (P' & HP & HE & HR); [by replace (P + 1 + Z.of_nat n) with (P + Z.of_nat (S n)) by lia |].
    exists P'. split; [lia | done].
Qed.

Lemma shortest_reads v : valid_binary prec emax v = true -> isfinite v = true -> reads_as (pas_real_shortest_g v) v = true.
Proof.
  intros Hv Hf. destruct (first_reading_reads (fun P => chars (fmt_g P v)) v 16 1) as (P' & _ & E & HR).
  - change (1 + Z.of_nat 16) with 17. rewrite fmt_g_17. unfold reads_as. rewrite read_printed by done. by apply SFeqb_refl.
  - unfold pas_real_shortest_g. by rewrite E.
Qed.

(** * REAL literals *)

(** The mantissa of a scientific text. *)
Definition mantissa_text (ds : bytes) : bytes :=
  match ds with
  | d :: d' :: r => d :: "."%char :: d' :: r
  | _ => ds
  end.
Lemma sci_text_eq neg ds x : sci_text neg ds x = (if neg : bool then ["-"%char] else []) ++ mantissa_text ds ++ "e"%char :: exponent_text x.
Proof. unfold sci_text, mantissa_text. f_equal. by destruct ds as [| d [| d' r]]. Qed.

Lemma strtod_sci ds x : all_digits ds = true -> ds <> [] ->
  strtod (mantissa_text ds ++ "e"%char :: exponent_text x) = real_of_decimal (dec_value ds) (x - (Z.of_nat (length ds) - 1)).
Proof.
  intros Hd Hne. destruct ds as [| d [| d' r]]; [done | |].
  - apply (strtod_exponent [d] [] [] ("e"%char :: exponent_text x) x); auto; by right.
  - cbn in Hd. apply andb_true_iff in Hd as [Hd Hr].
    pose proof (strtod_exponent [d] (d' :: r) ("."%char :: d' :: r) ("e"%char :: exponent_text x) x ltac:(cbn; by rewrite Hd) Hr ltac:(by right) ltac:(by left)) as E.
    etransitivity; [exact E |]. f_equal. cbn [length]. lia.
Qed.

Lemma digit_plain_char c : isdigit c = true -> Ascii.eqb c "e" = false /\ Ascii.eqb c "." = false /\ Ascii.eqb c "-" = false.
Proof. destruct c as [[] [] [] [] [] [] [] []]; intros H; (discriminate H || done). Qed.

Lemma split_e_digits a r : forallb (fun c => negb (Ascii.eqb c "e")) a = true -> split_e (a ++ "e"%char :: r) = Some (a, r).
Proof.
  induction a as [| c a IH]; [done |]. cbn. intros [Hc Ha]%andb_true_iff. destruct (Ascii.eqb c "e"); [done |]. by rewrite IH.
Qed.

Lemma mantissa_parts ds : all_digits ds = true ->
  forallb (fun c => negb (Ascii.eqb c "e")) (mantissa_text ds) = true /\ List.filter (fun c => negb (Ascii.eqb c ".")) (mantissa_text ds) = ds.
Proof.
  intros Hd. assert (forall l, all_digits l = true -> forallb (fun c => negb (Ascii.eqb c "e")) l = true /\
    List.filter (fun c => negb (Ascii.eqb c ".")) l = l) as H.
  { induction l as [| c l IH]; [done |]. cbn. intros [Hc Hl]%andb_true_iff. destruct (digit_plain_char c Hc) as (-> & -> & _).
    destruct (IH Hl) as [-> E]. cbn. by rewrite E. }
  destruct ds as [| d [| d' r]]; [done | by apply H |]. cbn in Hd. apply andb_true_iff in Hd as [Hd Hr].
  destruct (digit_plain_char d Hd) as (E1 & E2 & _). destruct (H (d' :: r) Hr) as [H1 H2]. cbn [mantissa_text].
  cbn [forallb List.filter] in H1, H2 |- *. rewrite E1, E2. cbn. rewrite H2. split; [exact H1 | done].
Qed.

Lemma exp_value_text x : exp_value (exponent_text x) = x.
Proof.
  unfold exp_value, exponent_text. destruct (two_digits_spec (Z.abs x) ltac:(lia)) as [Hd Hv]. rewrite span_digits_all by exact Hd.
  destruct (Z.ltb_spec x 0); cbn [fst]; [change (Ascii.eqb "-" "-") with true | change (Ascii.eqb "+" "-") with false; change (Ascii.eqb "+" "+") with true];
    cbv iota; rewrite Hv; lia.
Qed.

Lemma trim_digits_spec ds : ds <> [] -> exists n, ds = trim_digits ds ++ replicate n "0"%char.
Proof.
  destruct ds as [| d r]; [done |]. intros _. destruct (strip_zeros_spec r) as [n E]. exists n. cbn. unfold strip_zeros in E. by rewrite <- E.
Qed.

Lemma same_decimal_number m e m' e' : same_decimal m e m' e' -> same_number m e m' e'.
Proof.
  unfold same_decimal, same_number, dnum, dden. intros H. set (c := Z.max e 0 + Z.max (- e') 0 - (e - Z.min e e')).
  rewrite <- !Z.mul_assoc, <- !Z.pow_add_r by lia.
  replace (Z.max e 0 + Z.max (- e') 0) with (e - Z.min e e' + c) by lia.
  replace (Z.max e' 0 + Z.max (- e) 0) with (e' - Z.min e e' + c) by lia.
  rewrite !Z.pow_add_r by lia. rewrite !Z.mul_assoc. by rewrite H.
Qed.

(** The literal laid out from digits and an exponent, read back. *)
Lemma layout_reads ds x : all_digits ds = true -> (0 < length ds <= 17)%nat -> 0 < dec_value ds -> -1000 < x < 1000 ->
  exists ip fp ex e, is_literal (literal_layout (trim_digits ds) x) ip fp ex e /\
    strtod (literal_layout (trim_digits ds) x) = real_of_decimal (dec_value ds) (x - (Z.of_nat (length ds) - 1)) /\
    (length (literal_layout (trim_digits ds) x) <= 62)%nat.
Proof.
  intros Hd Hl Hpos Hx. assert (ds <> []) as Hne by (intros ->; cbn in Hl; lia). destruct (trim_digits_spec ds Hne) as [n En].
  set (tds := trim_digits ds) in *. assert (all_digits tds = true) as Ht by (rewrite En, all_digits_app in Hd; by apply andb_true_iff in Hd as [Hd _]).
  assert (length ds = length tds + n)%nat as Hlen by (rewrite En at 1; by rewrite length_app, length_replicate).
  assert (dec_value ds = dec_value tds * 10 ^ Z.of_nat n) as Hv by (rewrite En at 1; apply dec_value_pad).
  assert (0 < length tds)%nat as Hlt by (unfold tds; destruct ds; [done | cbn; lia]).
  destruct (literal_reads tds x Ht ltac:(lia) Hx) as (ip & fp & ex & e & Hlit & Hsame & Hstr & Hsize).
  exists ip, fp, ex, e. split; [done |]. split; [| done]. rewrite Hstr.
  pose proof (Z.pow_pos_nonneg 10 (Z.of_nat n) ltac:(lia) ltac:(lia)) as Hp.
  apply same_decimal_number in Hsame. assert (0 < dec_value tds) as Hpt by nia.
  assert (0 < dec_value (ip ++ fp)) as Hpi.
  { destruct Hlit as (_ & _ & _ & Hi & Hf & _). pose proof (dec_value_nonneg (ip ++ fp) ltac:(by rewrite all_digits_app, Hi, Hf)).
    assert (dec_value (ip ++ fp) <> 0); [| lia]. intros Z0. unfold same_number, dnum in Hsame. rewrite Z0 in Hsame.
    pose proof (dden_pos (e - Z.of_nat (length fp))). pose proof (pow10_pos (x - (Z.of_nat (length tds) - 1))). nia. }
  rewrite (real_of_decimal_same _ _ _ _ Hpi Hpt Hsame). symmetry. apply real_of_decimal_same; [done | done |]. rewrite Hv.
  replace (x - (Z.of_nat (length ds) - 1)) with (x - (Z.of_nat (length tds) - 1) - Z.of_nat n) by lia. apply same_number_shift. lia.
Qed.

Definition sign_text (s : bool) : bytes := if s then ["-"%char] else [].
Definition with_sign (s : bool) (v : spec_float) : spec_float := if s then SFopp v else v.

Lemma strtod_signed_digit s c r : isdigit c = true -> strtod_signed (sign_text s ++ c :: r) = with_sign s (strtod (c :: r)).
Proof.
  intros Hc. destruct (digit_plain_char c Hc) as (_ & _ & E). destruct s; cbn [sign_text app strtod_signed]; [by rewrite Ascii.eqb_refl | by rewrite E].
Qed.

Lemma mantissa_head ds : all_digits ds = true -> ds <> [] -> exists c r, mantissa_text ds = c :: r /\ isdigit c = true.
Proof.
  destruct ds as [| d [| d' r]]; [done | |]; cbn; intros [Hd _]%andb_true_iff _; eauto.
Qed.

Lemma fmt_e_parts s m e P : double m e -> 0 <= P -> exists ds x,
  fmt_e P (S754_finite s m e) = sign_text s ++ mantissa_text ds ++ "e"%char :: exponent_text x /\
  all_digits ds = true /\ Z.of_nat (length ds) = P + 1 /\ 0 < dec_value ds /\ -400 < x < 400 /\
  (P = 16 -> real_of_decimal (dec_value ds) (x - 16) = S754_finite false m e).
Proof.
  intros Hd HP. destruct (sci (P + 1) m e) as [q x] eqn:Hs. destruct (sci_digits m e P q x Hd HP Hs) as [Hq Hx].
  pose proof (Z.pow_pos_nonneg 10 P ltac:(lia) HP). exists (dec_bytes q), x. cbn [fmt_e]. rewrite Hs, dec_value_dec by lia.
  split; [apply sci_text_eq |]. split; [apply (dec_bytes_value q); lia |]. split; [by apply dec_bytes_count |]. split; [lia |]. split; [done |].
  intros ->. apply (read17 m e q x _ _ Hd); [exact Hs | lia | done].
Qed.

(** A scientific text that reads back has the digits of the number. *)
Lemma sci_reads s m e ds x : all_digits ds = true -> ds <> [] ->
  reads_as (sign_text s ++ mantissa_text ds ++ "e"%char :: exponent_text x) (S754_finite s m e) = true <->
  real_of_decimal (dec_value ds) (x - (Z.of_nat (length ds) - 1)) = S754_finite false m e.
Proof.
  intros Hd Hne. rewrite <- (strtod_sci ds x Hd Hne). destruct (mantissa_head ds Hd Hne) as (c & r & E & Hc). rewrite E. cbn [app].
  unfold reads_as. rewrite strtod_signed_digit by done. split.
  - intros Hr%SFeqb_finite. destruct s; [| exact Hr]. cbn [with_sign] in Hr. destruct (strtod (c :: r ++ "e"%char :: exponent_text x)) as [| | | [] ? ?]; try done.
    by injection Hr as -> ->.
  - intros ->. destruct s; apply (SFeqb_refl (S754_finite _ m e)); done.
Qed.

(** From the scientific text to the literal. *)
Lemma literal_from_sci s ds x : all_digits ds = true -> (0 < length ds <= 17)%nat ->
  (let sci := sign_text s ++ mantissa_text ds ++ "e"%char :: exponent_text x in
   let '(sign, p) := match sci with
                     | c :: p' => if Ascii.eqb c "-" then (["-"%char], p') else ([], sci)
                     | [] => ([], sci) end in
   match split_e p with
   | None => []
   | Some (mantissa, ex) =>
       sign ++ literal_layout (trim_digits (firstn 20 (List.filter (fun c => negb (Ascii.eqb c ".")) mantissa))) (exp_value ex)
   end) = sign_text s ++ literal_layout (trim_digits ds) x.
Proof.
  intros Hd Hl. assert (ds <> []) as Hne by (intros ->; cbn in Hl; lia). destruct (mantissa_head ds Hd Hne) as (c & r & E & Hc).
  destruct (mantissa_parts ds Hd) as [H1 H2]. cbv zeta.
  assert (forall sg, match split_e (mantissa_text ds ++ "e"%char :: exponent_text x) with
    | Some (mantissa, ex) => sg ++ literal_layout (trim_digits (firstn 20 (List.filter (fun c => negb (Ascii.eqb c ".")) mantissa))) (exp_value ex)
    | None => [] end = sg ++ literal_layout (trim_digits ds) x) as H.
  { intros sg. rewrite split_e_digits, H2, exp_value_text, firstn_all2 by (done || lia). done. }
  destruct s; cbn [sign_text app]; [rewrite Ascii.eqb_refl; apply H |].
  rewrite E in H |- *. cbn [app] in H |- *. destruct (digit_plain_char c Hc) as (_ & _ & ->). apply (H []).
Qed.

Lemma literal_head text ip fp ex x : is_literal text ip fp ex x -> exists c r, text = c :: r /\ isdigit c = true.
Proof.
  intros (-> & Hne & _ & Hi & _). destruct ip as [| c ip]; [done |]. cbn in Hi. apply andb_true_iff in Hi as [Hc _]. cbn. eauto.
Qed.

(** a REAL literal that the compiler writes into its intermediate text is read back
    as the very double. For every double that is finite, [pas_real_literal_text] gives a
    literal of the dialect (digits, a point, digits, and an exponent for large and small
    numbers, with a minus sign in front of a negative one) whose value is that double, to
    the sign of zero, in at most 63 characters. *)
Theorem real_literals_exact v (Hv : valid_binary prec emax v = true) (Hf : isfinite v = true) :
  strtod_signed (pas_real_literal_text v) = v /\ (length (pas_real_literal_text v) <= 63)%nat /\
  exists body ip fp ex x, pas_real_literal_text v = sign_text (signbit v) ++ body /\ is_literal body ip fp ex x.
Proof.
  destruct v as [s | s | | s m e]; try done.
  { assert (pas_real_literal_text (S754_zero s) = sign_text s ++ chars "0.0") as E by (destruct s; vm_compute; reflexivity).
    rewrite E. split; [destruct s; vm_compute; reflexivity |]. split; [destruct s; cbn; lia |].
    exists (chars "0.0"), ["0"%char], ["0"%char], [], 0. split; [done |]. repeat split; try done. by left. }
  apply bounded_double in Hv. clear Hf. set (v := S754_finite s m e).
  destruct (first_reading_reads (fun P => fmt_e P v) v 16 0) as (P & HP & EP & HR).
  { change (0 + Z.of_nat 16) with 16. destruct (fmt_e_parts s m e 16 Hv ltac:(lia)) as (ds & x & E & Hd & Hl & _ & _ & H16).
    unfold v. rewrite E. apply sci_reads; [done | by intros ->; cbn in Hl; lia |]. rewrite Hl. apply H16. done. }
  destruct (fmt_e_parts s m e P Hv ltac:(lia)) as (ds & x & E & Hd & Hl & Hpos & Hx & _). change (fmt_e P v = sign_text s ++ mantissa_text ds ++ "e"%char :: exponent_text x) in E.
  rewrite E in HR. assert (0 < length ds <= 17)%nat as Hl17 by lia.
  apply sci_reads in HR; [| done | intros ->; cbn in Hl17; lia].
  destruct (layout_reads ds x Hd Hl17 Hpos ltac:(lia)) as (ip & fp & ex & k & Hlit & Hstr & Hsize).
  assert (pas_real_literal_text v = sign_text s ++ literal_layout (trim_digits ds) x) as ->.
  { unfold pas_real_literal_text. change (negb (isfinite v)) with false. cbv iota. rewrite EP, E. by apply literal_from_sci. }
  destruct (literal_head _ _ _ _ _ Hlit) as (c & r & Ec & Hc). rewrite HR in Hstr. split; [| split].
  - rewrite Ec in Hstr |- *. rewrite strtod_signed_digit, Hstr by done. by destruct s.
  - rewrite length_app. destruct s; cbn; lia.
  - by exists (literal_layout (trim_digits ds) x), ip, fp, ex, k.
Qed.

Lemma real_literals_exact_witness : let v := S754_finite true 7205759403792794 (-56) in
  str (pas_real_literal_text v) = "-0.1" /\ strtod_signed (pas_real_literal_text v) = v.
Proof.
  intros v. split; [vm_compute; reflexivity |]. apply (real_literals_exact v); vm_compute; reflexivity.
Defined.
