(* ===== verification/JsonText.v ===== *)
(** JSON between the native stages: what json_helpers.c writes with cJSON and another
    stage reads back. cJSON's printer and parser are parameters, with what the library
    documents (and the comments of json_helpers.c rely on): the shape, the keys and the
    strings of a tree survive, a number is printed with "%d" or with 15 or 17 digits,
    and read with [strtod]. *)

From Stdlib Require Import ZArith Ascii String SpecFloat Lia.
From stdpp Require Import base list strings.
From S2P Require Import Prelude Real CPrelude LexProps EmitText Emit Numeric RtErrors Json RealProps RealText.
Import EmitText.Ints.
#[local] Open Scope Z_scope.

(** * Trees that are JSON *)

Definition cJSON_String : Z := 16.
Definition cJSON_Array : Z := 32.
Definition cJSON_Object : Z := 64.

(** The type of a node without its flags. *)
Definition kind (it : item) : Z := Z.land (j_type it) 255.

Definition number_char (c : ascii) : bool := isdigit c || existsb (Ascii.eqb c) ["."; "e"; "E"; "+"; "-"]%char.
Definition number_text (t : bytes) : bool :=
  match t with c :: _ => (isdigit c || Ascii.eqb c "-") && forallb number_char t | [] => false end.
Definition no_nul (s : string) : bool := forallb (fun c => negb (Ascii.eqb c "000")) (chars s).

Definition leaf (it : item) : bool := match j_children it with [] => true | _ => false end.
Definition text_of (it : item) : string := default "" (j_string it).

(** A node cJSON prints as JSON: a literal, a finite number, a string, an array, an
    object whose members have keys, or raw text that is a number. *)
Definition printable_node (it : item) : bool :=
  if kind it =? cJSON_Number then isfinite (j_double it) && leaf it
  else if kind it =? cJSON_String then bool_decide (is_Some (j_string it)) && no_nul (text_of it) && leaf it
  else if kind it =? cJSON_Raw then number_text (chars (text_of it)) && leaf it
  else if kind it =? cJSON_Array then true
  else if kind it =? cJSON_Object then forallb (fun c => match j_key c with Some k => no_nul k | None => false end) (j_children it)
  else ((kind it =? 1) || (kind it =? 2) || (kind it =? 4)) && leaf it.
Fixpoint printable (it : item) : bool := printable_node it && forallb printable (j_children it).

(** cJSON_Parse refuses trees nested 1000 deep. *)
Definition CJSON_NESTING_LIMIT : nat := 1000.
Fixpoint depth (it : item) : nat := S (foldr Nat.max 0%nat (map depth (j_children it))).

(** Two trees of one shape, with the keys of members, whose nodes are related by [R]. *)
Section Trees.
Variable R : item -> item -> Prop.
Fixpoint trees (it it' : item) : Prop :=
  R it it' /\
  (fix all (l l' : list item) : Prop :=
     match l, l' with
     | [], [] => True
     | c :: l, c' :: l' => ((kind it = cJSON_Object -> j_key c' = j_key c) /\ trees c c') /\ all l l'
     | _, _ => False
     end) (j_children it) (j_children it').
Definition members (p c c' : item) : Prop := (kind p = cJSON_Object -> j_key c' = j_key c) /\ trees c c'.

Lemma trees_unfold it it' : trees it it' <-> R it it' /\ Forall2 (members it) (j_children it) (j_children it').
Proof using.
  destruct it as [ty v s k cs], it' as [ty' v' s' k' cs']. cbn [trees j_children]. apply and_iff_compat_l.
  set (p := Item ty v s k cs). clearbody p. revert cs'. induction cs as [| c cs IH]; intros [| c' cs']; [done | | |].
  - split; [done | by inversion 1].
  - split; [done | by inversion 1].
  - rewrite Forall2_cons, IH. done.
Qed.
End Trees.

(** The same document: each node of the same kind, with the same double, to the sign of
    zero, or the same string; raw text has become the number it spells. *)
Definition same_node (it it' : item) : Prop :=
  if kind it =? cJSON_Raw then kind it' = cJSON_Number /\ j_double it' = strtod_signed (chars (text_of it))
  else kind it' = kind it /\
       (kind it = cJSON_Number -> j_double it' = j_double it) /\
       (kind it = cJSON_String -> j_string it' = j_string it).

(** A tree whose finite numbers are doubles. *)
Fixpoint doubles (it : item) : bool := valid_binary prec emax (j_double it) && forallb doubles (j_children it).

(** * cJSON's printer and parser *)

Definition int_valued (v : spec_float) : bool := real_ge_Z v INT32_MIN && real_le_Z v INT32_MAX && is_integral v.

Class CJsonText := {
  cJSON_Print : option item -> option string;
  cJSON_PrintUnformatted : option item -> option string;
  cJSON_Parse : string -> option item;
  print_number : spec_float -> bytes }.

(** What becomes of a node that is printed and read. *)
Definition reread_node `{CJsonText} (it it' : item) : Prop :=
  if kind it =? cJSON_Raw then kind it' = cJSON_Number /\ j_double it' = strtod_signed (chars (text_of it))
  else kind it' = kind it /\
       (kind it = cJSON_Number -> j_double it' = strtod_signed (print_number (j_double it))) /\
       (kind it = cJSON_String -> j_string it' = j_string it).

Definition print_as `{CJsonText} (formatted : bool) : option item -> option string :=
  if formatted then cJSON_Print else cJSON_PrintUnformatted.

Class CJsonTextLaws `{CJson} `{CJsonText} := {
  is_number it : cJSON_IsNumber it = (kind it =? cJSON_Number);
  get_string it : cJSON_GetStringValue (Some it) = if kind it =? cJSON_String then j_string it else None;
  new_number v : kind (cJSON_CreateNumber v) = cJSON_Number /\ j_double (cJSON_CreateNumber v) = v /\ j_children (cJSON_CreateNumber v) = [];
  new_string s : kind (cJSON_CreateString s) = cJSON_String /\ j_string (cJSON_CreateString s) = Some s /\
    j_double (cJSON_CreateString s) = S754_zero false /\ j_children (cJSON_CreateString s) = [];
  added obj k it : kind (cJSON_AddItemToObject obj k it) = kind obj /\ j_double (cJSON_AddItemToObject obj k it) = j_double obj;
  print_int v : int_valued v = true -> print_number v = chars (Zs (Trunc.real_trunc v));
  print_real v : int_valued v = false -> isfinite v = true ->
    print_number v = chars (fmt_g 15 v) \/ print_number v = chars (fmt_g 17 v);
  printed_parsed it formatted : printable it = true -> doubles it = true -> (depth it < CJSON_NESTING_LIMIT)%nat ->
    exists text it', print_as formatted (Some it) = Some text /\ cJSON_Parse text = Some it' /\ trees reread_node it it' }.

(** * Texts of numbers *)

Lemma digits_numeric ds : all_digits ds = true -> forallb number_char ds = true.
Proof.
  intros Hd. apply forallb_forall. intros c Hc. unfold number_char. by rewrite (all_digits_In ds c Hd Hc).
Qed.

Lemma exponent_numeric ex x : exponent_form ex x -> forallb number_char ex = true.
Proof.
  intros [[-> _] | ->]; [done |]. unfold exponent_text. cbn [forallb].
  rewrite (digits_numeric (two_digits _)) by (apply two_digits_spec; lia). by destruct (x <? 0).
Qed.

Lemma strip_digits fp : all_digits fp = true -> all_digits (strip_zeros fp) = true.
Proof.
  intros Hf. destruct (strip_zeros_spec fp) as [n E]. rewrite E, all_digits_app in Hf. by apply andb_true_iff in Hf as [? _].
Qed.

Lemma fraction_numeric ip fp : all_digits ip = true -> all_digits fp = true -> forallb number_char (with_fraction ip fp) = true.
Proof.
  intros Hi Hf%strip_digits. unfold with_fraction. destruct (strip_zeros fp) as [| c r] eqn:E; [by apply digits_numeric |].
  rewrite forallb_app, (digits_numeric ip Hi). cbn [forallb andb]. change (number_char "."%char) with true. cbn [andb].
  by apply (digits_numeric (c :: r)).
Qed.

(** A positive double's text starts with a digit and is a number. *)
Lemma textg_numeric P m e : double m e -> 1 <= P -> exists c r, textg P m e = c :: r /\ isdigit c = true /\ forallb number_char (c :: r) = true.
Proof.
  intros Hd HP. replace P with (P - 1 + 1) by lia. destruct (sci (P - 1 + 1) m e) as [q x] eqn:Hs.
  destruct (textg_parts (P - 1) m e q x Hd ltac:(lia) Hs) as (ip & fp & ex & y & -> & Hne & Hi & Hf & Hx & _).
  pose proof (fraction_numeric ip fp Hi Hf) as Hn. destruct ip as [| c ip]; [done |].
  assert (exists r, with_fraction (c :: ip) fp = c :: r) as [r Er] by (unfold with_fraction; destruct (strip_zeros fp); cbn; eauto).
  rewrite Er in Hn |- *. exists c, (r ++ ex). split; [done |]. cbn in Hi. apply andb_true_iff in Hi as [Hc _]. split; [done |].
  change (c :: r ++ ex) with ((c :: r) ++ ex). by rewrite forallb_app, Hn, (exponent_numeric ex y).
Qed.

Lemma fmt_g_numeric P v : valid_binary prec emax v = true -> isfinite v = true -> 1 <= P -> number_text (chars (fmt_g P v)) = true.
Proof.
  destruct v as [s | | | s m e]; intros Hv Hf HP; try done; [by destruct s |].
  rewrite fmt_g_text. apply bounded_double in Hv. destruct (textg_numeric P m e Hv HP) as (c & r & -> & Hc & Hn).
  destruct s; cbn [app number_text]; [exact Hn | by rewrite Hc].
Qed.

Lemma shortest_form v : valid_binary prec emax v = true -> isfinite v = true ->
  exists P, 1 <= P <= 17 /\ pas_real_shortest_g v = chars (fmt_g P v) /\ reads_as (chars (fmt_g P v)) v = true.
Proof.
  intros Hv Hf. destruct (first_reading_reads (fun P => chars (fmt_g P v)) v 16 1) as (P & HP & E & HR); [| by exists P].
  change (1 + Z.of_nat 16) with 17. rewrite fmt_g_17. unfold reads_as. rewrite read_printed by done. by apply SFeqb_refl.
Qed.

(** A text that reads back as equal reads back as the same double, zeros apart. *)
Lemma reads_exactly t s m e : reads_as t (S754_finite s m e) = true -> strtod_signed t = S754_finite s m e.
Proof. apply SFeqb_finite. Qed.

Lemma shortest_exact v : valid_binary prec emax v = true -> isfinite v = true -> strtod_signed (pas_real_shortest_g v) = v.
Proof.
  intros Hv Hf. destruct v as [s | | | s m e]; try done; [by destruct s |].
  apply reads_exactly. by apply shortest_reads.
Qed.

(** * Integers as text *)

Lemma round_opp m e : SFopp (binary_round prec emax false m e) = binary_round prec emax true m e.
Proof.
  unfold binary_round. destruct (shl_align m e _) as [mz ez]. unfold binary_round_aux.
  destruct (shr_fexp prec emax (Zpos mz) ez loc_Exact) as [r1 e1].
  destruct (shr_fexp prec emax (round_nearest_even (shr_m r1) (loc_of_shr_record r1)) e1 loc_Exact) as [r2 e2].
  destruct (shr_m r2); [done | | done]. by destruct (e2 <=? emax - prec).
Qed.

Lemma strtod_dec n : 0 <= n -> strtod (dec_bytes n) = pas_int64_to_double n.
Proof.
  intros Hn. pose proof (proj1 (dec_bytes_value n Hn)) as Ha. unfold strtod. rewrite (span_digits_all _ Ha). cbn iota.
  rewrite app_nil_r, dec_value_dec by done. cbn [length]. unfold real_of_decimal, pas_int64_to_double.
  destruct (Z.eqb_spec n 0) as [-> | ?]; [done |]. cbn [Z.leb]. by rewrite Z.mul_1_r.
Qed.

Lemma strtod_Zs n : strtod_signed (chars (Zs n)) = pas_int64_to_double n.
Proof.
  rewrite chars_Zs. destruct (Z.ltb_spec n 0).
  - cbn [strtod_signed]. rewrite Ascii.eqb_refl, strtod_dec by lia. unfold pas_int64_to_double, binary_normalize.
    destruct n as [| p | p]; try lia. apply round_opp.
  - destruct (dec_bytes_head n ltac:(lia)) as (c & r & E & Hc). rewrite <- strtod_dec by lia. rewrite E. cbn [strtod_signed].
    by destruct (digit_no_space c Hc) as (_ & -> & _).
Qed.

(** The double of an integer of less than 53 bits. *)
Lemma int_double n : 0 < Z.abs n < 2 ^ 53 -> exists m e, pas_int64_to_double n = S754_finite (n <? 0) m e /\
  double m e /\ bnum m e = Z.abs n * bden e.
Proof.
  intros Hn. assert (forall s p, Zpos p < 2 ^ 53 -> exists m e, binary_round prec emax s p 0 = S754_finite s m e /\ double m e /\ bnum m e = Zpos p * bden e) as H.
  { intros s p Hp. destruct (round_exact s p) as (m & e & E & He & Hm); [apply Z.log2_lt_pow2; lia |]. exists m, e. split; [done |].
    split; [| unfold bnum, bden; rewrite Hm, (Z.max_r e 0), (Z.max_l (- e) 0), Z.mul_1_r by lia; done].
    apply bounded_double. change (valid_binary prec emax (S754_finite false m e) = true).
    destruct s; [apply (f_equal SFopp) in E; rewrite <- round_opp in E; simpl in E;
      replace (SFopp (SFopp (binary_round prec emax false p 0))) with (binary_round prec emax false p 0) in E by (destruct (binary_round prec emax false p 0) as [[] | [] | | [] ? ?]; done) |];
      rewrite <- E; change (binary_round prec emax false p 0) with (pas_int64_to_double (Zpos p)); rewrite <- strtod_dec by lia; apply strtod_valid. }
  unfold pas_int64_to_double, binary_normalize. destruct n as [| p | p]; [lia | apply (H false p); lia | apply (H true p); lia].
Qed.

(** Every 64-bit integer has a finite double. *)
Lemma round_done_finite M e : 0 <= M <= 2 ^ 53 -> -1074 <= e < 971 ->
  isfinite (let '(mrs, e') := shr_fexp prec emax M e loc_Exact in
     match shr_m mrs with
     | Z0 => S754_zero false
     | Zpos m' => if e' <=? emax - prec then S754_finite false m' e' else S754_infinity false
     | _ => S754_nan
     end) = true.
Proof.
  intros HM He. destruct (shr_fexp prec emax M e loc_Exact) as [mrs e'] eqn:E.
  assert (e' <= e + 1 /\ 0 <= shr_m mrs) as [He' Hm].
  { unfold shr_fexp, shr in E. assert (fexp64 (Zdigits2 M + e) - e <= 1) as Hf.
    { rewrite fexp64_eq. destruct (decide (M = 0)) as [-> | Hz]; [cbn; lia |]. pose proof (Zdigits2_bounds M ltac:(lia)) as [H1 _].
      assert (Zdigits2 M - 1 <= 53); [| lia]. apply (Z.pow_le_mono_r_iff 2); lia. }
    destruct (fexp64 (Zdigits2 M + e) - e) as [| q | q]; injection E as <- <-; cbn [shr_record_of_loc shr_m]; [lia | | lia].
    split; [lia |]. replace q with 1%positive by lia. destruct M as [| [m | m |] | m]; done || lia. }
  destruct (shr_m mrs) as [| p | p]; [done | | lia]. by rewrite (proj2 (Z.leb_le _ _)) by (unfold emax, prec; lia).
Qed.

Lemma int64_finite n : in_srange 64 n -> isfinite (pas_int64_to_double n) = true.
Proof.
  intros Hn. unfold in_srange in Hn. simpl in Hn.
  assert (forall p, Zpos p <= 2 ^ 63 -> isfinite (pas_int64_to_double (Zpos p)) = true) as Hpos.
  { intros p Hp. destruct (normalize_prepared (Zpos p) ltac:(lia)) as (mx & ex & E & Hprep). unfold pas_int64_to_double. rewrite E.
    destruct (round_mantissa _ _ _ _ _ Hprep) as (M & e & -> & HM & He & _). rewrite fexp64_eq in He.
    destruct Hprep as (_ & Hm0 & Hex & (_ & _ & R & HA & HR & _) & Hle). cbn [shr_record_of_loc shr_m] in HA. rewrite !Z.mul_1_l in HA, HR.
    apply round_done_finite; [done |]. split; [lia |]. destruct (decide (mx = 0)) as [-> | Hz].
    - rewrite fexp64_eq in Hle. change (Zdigits2 0) with 0 in *. replace ex with (-1074) in HR by lia. change (T (-1074)) with 1 in HR. lia.
    - pose proof (Zdigits2_bounds mx ltac:(lia)) as [H1 _]. pose proof (Zdigits2_pos mx ltac:(lia)). pose proof (T_pos ex Hex).
      assert (T (ex + (Zdigits2 mx - 1)) <= Zpos p * 2 ^ 1074) as Hlo by (rewrite T_add by lia; nia).
      assert (T (ex + (Zdigits2 mx - 1)) < 2 ^ (64 + 1074)) as Hlt by (rewrite Z.pow_add_r by lia; nia).
      unfold T in Hlt. apply Z.pow_lt_mono_r_iff in Hlt; lia. }
  destruct n as [| p | p]; [done | apply Hpos; lia |].
  specialize (Hpos p ltac:(lia)). unfold pas_int64_to_double, binary_normalize in *. rewrite <- round_opp.
  by destruct (binary_round prec emax false p 0).
Qed.

(** The 15 digits of an integer that has no more are its own. *)
Lemma sci15_int m e N : double m e -> bnum m e = N * bden e -> 0 < N < 10 ^ 15 ->
  exists x, 0 <= x <= 14 /\ sci (14 + 1) m e = (N * 10 ^ (14 - x), x).
Proof.
  intros Hd Hb HN. pose proof (bnum_pos m e) as Hn. pose proof (bden_pos e) as Hp.
  destruct (dec_exponent_spec (bnum m e) (bden e) Hn Hp (double_log2 m e Hd)) as [H1 H2].
  unfold sci. fold (bnum m e) (bden e). set (x := dec_exponent (bnum m e) (bden e)) in *. unfold at_least in H1, H2. rewrite Hb in H1, H2.
  assert (0 <= x) as Hx.
  { apply Z.nlt_ge. intros Hx. apply H2. rewrite (Z.max_r (x + 1) 0), Z.mul_1_r by lia. pose proof (pow10_pos (- (x + 1))). nia. }
  rewrite (Z.max_r (- x) 0), (Z.max_l x 0), Z.mul_1_r in H1 by lia. rewrite (Z.max_r (- (x + 1)) 0), (Z.max_l (x + 1) 0), Z.mul_1_r in H2 by lia.
  assert (10 ^ x <= N) by nia. assert (N < 10 ^ (x + 1)) by nia.
  assert (x <= 14). { apply Z.nlt_ge. intros Hl. pose proof (Z.pow_le_mono_r 10 15 x ltac:(lia) ltac:(lia)). lia. }
  exists x. split; [lia |]. replace (14 + 1 - 1 - x) with (14 - x) by lia.
  assert (scaled (bnum m e) (bden e) (14 - x) = N * 10 ^ (14 - x)) as ->.
  { unfold scaled. rewrite (proj2 (Z.leb_le 0 (14 - x))) by lia. apply div_round_near; [done |]. rewrite Hb.
    replace (N * bden e * 10 ^ (14 - x) - N * 10 ^ (14 - x) * bden e) with 0 by ring. done. }
  assert (0 < 10 ^ (14 - x)) by (apply Z.pow_pos_nonneg; lia).
  assert (N * 10 ^ (14 - x) < 10 ^ (14 + 1)).
  { replace (14 + 1) with (x + 1 + (14 - x)) by lia. rewrite (Z.pow_add_r 10 (x + 1)) by lia. by apply Z.mul_lt_mono_pos_r. }
  by rewrite (proj2 (Z.eqb_neq _ _)) by lia.
Qed.

(** Every integer of at most 15 digits survives "%1.15g". *)
Lemma int15_survives n : 0 < Z.abs n < 10 ^ 15 -> strtod_signed (chars (fmt_g 15 (pas_int64_to_double n))) = pas_int64_to_double n.
Proof.
  intros Hn. destruct (int_double n ltac:(lia)) as (m & e & E & Hd & Hb). rewrite E at 1. rewrite fmt_g_text.
  destruct (sci15_int m e (Z.abs n) Hd Hb Hn) as (x & Hx & Hs).
  destruct (textg_numeric 15 m e Hd ltac:(lia)) as (c & r & Ec & Hc & _).
  assert (strtod (textg 15 m e) = pas_int64_to_double (Z.abs n)) as Ht.
  { destruct (textg_parts 14 m e _ x Hd ltac:(lia) Hs) as (ip & fp & ex & y & Et & _ & Hi & Hf & Hy & Hv & Hk).
    change (14 + 1) with 15 in Et. rewrite Et. destruct (strtod_with_fraction ip fp ex y Hi Hf Hy) as (M & k & j & -> & Hj & HM & Hkj).
    rewrite Hv in HM. assert (0 < 10 ^ (14 - x)) by (apply Z.pow_pos_nonneg; lia). assert (0 < 10 ^ j) by (apply Z.pow_pos_nonneg; lia).
    rewrite <- strtod_dec by lia. rewrite <- (real_of_decimal_same (Z.abs n * 10 ^ (14 - x)) (x - 14)).
    - rewrite (real_of_decimal_same _ (x - 14) (Z.abs n) 0); [| nia | lia | replace (x - 14) with (0 - (14 - x)) by lia; apply same_number_shift; lia].
      rewrite strtod_dec by lia. unfold real_of_decimal, pas_int64_to_double. rewrite (proj2 (Z.eqb_neq _ _)) by lia. cbn [Z.leb]. by rewrite Z.mul_1_r.
    - nia.
    - nia.
    - rewrite HM. replace (x - 14) with (k - j) by lia. by apply same_number_shift. }
  rewrite Ec in *. fold (sign_text (n <? 0)). rewrite strtod_signed_digit, Ht by done.
  unfold pas_int64_to_double, binary_normalize, with_sign. destruct n as [| p | p]; [done | done | apply round_opp].
Qed.

Lemma SFeqb_same s m e u : SFeqb (S754_finite s m e) u = true -> u = S754_finite s m e.
Proof.
  unfold SFeqb, SFcompare. destruct u as [s' | s' | | s' m' e']; try done; [by destruct s | by destruct s' |].
  destruct s', s; try done; destruct (Z.compare_spec e e') as [-> | |]; try done;
    change (Pos.compare_cont Eq m m') with (m ?= m')%positive; destruct (Pos.compare_spec m m') as [-> | |]; done.
Qed.

(** An integer of at most 15 digits never needs raw text. *)
Lemma int15_prints_exactly n : Z.abs n < 10 ^ 15 -> pas_cjson_number_prints_exactly (pas_int64_to_double n) = true.
Proof.
  intros Hn. destruct (decide (n = 0)) as [-> | Hz]; [done |].
  pose proof (int15_survives n ltac:(lia)) as Hr. destruct (int_double n ltac:(lia)) as (m & e & E & _). rewrite E in *.
  unfold pas_cjson_number_prints_exactly. destruct (_ && _ && _); [done |]. unfold reads_as. rewrite Hr. by apply SFeqb_refl.
Qed.

(** * The numbers of a tree *)

Section ItemInd.
Variable P : item -> Prop.
Hypothesis HP : forall it, Forall P (j_children it) -> P it.
Fixpoint item_ind' (it : item) : P it :=
  match it with
  | Item ty v s k cs =>
      HP (Item ty v s k cs)
        ((fix go (l : list item) : Forall P l :=
            match l with [] => Forall_nil_2 P | c :: l' => Forall_cons_2 P c l' (item_ind' c) (go l') end) cs)
  end.
End ItemInd.

Lemma printable_eq it : printable it = printable_node it && forallb printable (j_children it).
Proof. by destruct it. Qed.
Lemma doubles_eq it : doubles it = valid_binary prec emax (j_double it) && forallb doubles (j_children it).
Proof. by destruct it. Qed.
Lemma depth_eq it : depth it = S (foldr Nat.max 0%nat (map depth (j_children it))).
Proof. by destruct it. Qed.

(** Whether a node is printable depends on the keys of its children only. *)
Lemma printable_node_cong it it' : j_type it' = j_type it -> j_double it' = j_double it -> j_string it' = j_string it ->
  map j_key (j_children it') = map j_key (j_children it) -> printable_node it' = printable_node it.
Proof.
  intros E1 E2 E3 E4. unfold printable_node, kind, text_of. rewrite E1, E2, E3.
  assert (leaf it' = leaf it) as ->.
  { unfold leaf. destruct (j_children it), (j_children it'); done. }
  assert (forall l, forallb (fun c => match j_key c with Some k => no_nul k | None => false end) l
    = forallb (fun k => match k with Some k => no_nul k | None => false end) (map j_key l)) as Hf.
  { induction l as [| c l IH]; [done |]. cbn. by rewrite IH. }
  by rewrite !Hf, E4.
Qed.

Section Exact.
Context {CJ : CJson} {CT : CJsonText} {CL : CJsonTextLaws}.
Variable alloc : nat -> bool.
#[local] Abbreviation exact := (pas_cjson_exact_numbers alloc).

(** The children, one after the other. *)
Fixpoint exact_list (l : list item) (n : nat) : list item * nat :=
  match l with
  | [] => ([], n)
  | c :: l' => let '(c', n) := exact c n in let '(l'', n) := exact_list l' n in (c' :: l'', n)
  end.

Lemma exact_unfold it n : exact it n = let '(cs, n) := exact_list (j_children it) n in exact_node alloc it cs n.
Proof using. by destruct it. Qed.

Lemma exact_list_cons c l n : fst (exact_list (c :: l) n) = fst (exact c n) :: fst (exact_list l (snd (exact c n))).
Proof using. cbn. destruct (exact c n) as [c' n1]. cbn. by destruct (exact_list l n1). Qed.

(** What a node becomes: itself with its new children, or raw text for a number. *)
Lemma exact_node_cases it cs n :
  let it' := fst (exact_node alloc it cs n) in
  j_key it' = j_key it /\ j_children it' = cs /\
  ((j_type it' = j_type it /\ j_double it' = j_double it /\ j_string it' = j_string it /\
    (kind it = cJSON_Number -> isfinite (j_double it) = true -> pas_cjson_number_prints_exactly (j_double it) = true \/ exists n, alloc n = false)) \/
   (kind it = cJSON_Number /\ isfinite (j_double it) = true /\ pas_cjson_number_prints_exactly (j_double it) = false /\
    kind it' = cJSON_Raw /\ j_string it' = Some (str (pas_real_shortest_g (j_double it))) /\ j_double it' = j_double it)).
Proof.
  cbv zeta. unfold exact_node. rewrite is_number. destruct (Z.eqb_spec (kind it) cJSON_Number) as [Ek | Ek]; cbn [negb orb].
  - destruct (isfinite (j_double it)) eqn:Ef; cbn [negb orb]; [| by repeat (split || left)].
    destruct (pas_cjson_number_prints_exactly (j_double it)) eqn:Ex; [by repeat (split || left) |].
    destruct (alloc n) eqn:Ea; cbn; (split; [done | split; [done |]]).
    + right. repeat split; try done. unfold kind. cbn [j_type]. rewrite Z.land_lor_distr_l, <- Z.land_assoc. change (Z.land (Z.lor cJSON_IsReference cJSON_StringIsConst) 255) with 0.
      by rewrite Z.land_0_r.
    + left. repeat split; try done. intros _ _. right. by exists n.
  - cbn. split; [done |]. split; [done |]. by left.
Qed.

Lemma exact_children l n : Forall2 (fun c c' => exists n, c' = fst (exact c n)) l (fst (exact_list l n)).
Proof using.
  revert n. induction l as [| c l IH]; intros n; [constructor |]. rewrite exact_list_cons. constructor; [by exists n | apply IH].
Qed.

Lemma exact_cases it n :
  let it' := fst (exact it n) in
  j_key it' = j_key it /\ Forall2 (fun c c' => exists n, c' = fst (exact c n)) (j_children it) (j_children it') /\
  ((j_type it' = j_type it /\ j_double it' = j_double it /\ j_string it' = j_string it /\
    (kind it = cJSON_Number -> isfinite (j_double it) = true -> pas_cjson_number_prints_exactly (j_double it) = true \/ exists n, alloc n = false)) \/
   (kind it = cJSON_Number /\ isfinite (j_double it) = true /\ pas_cjson_number_prints_exactly (j_double it) = false /\
    kind it' = cJSON_Raw /\ j_string it' = Some (str (pas_real_shortest_g (j_double it))) /\ j_double it' = j_double it)).
Proof.
  cbv zeta. rewrite exact_unfold. pose proof (exact_children (j_children it) n) as Hc. destruct (exact_list (j_children it) n) as [cs n'].
  destruct (exact_node_cases it cs n') as (Hk & -> & Hcase). done.
Qed.

Lemma exact_keys l l' : Forall2 (fun c c' => exists n, c' = fst (exact c n)) l l' -> map j_key l' = map j_key l.
Proof. induction 1 as [| c c' l l' [n ->] _ IH]; [done |]. cbn. f_equal; [apply exact_cases | exact IH]. Qed.

(** The tree stays printable and as deep as it was. *)
Lemma exact_printable it : forall n, printable it = true -> doubles it = true ->
  printable (fst (exact it n)) = true /\ doubles (fst (exact it n)) = true /\ depth (fst (exact it n)) = depth it.
Proof.
  induction it as [it IH] using item_ind'. intros n Hp Hd. rewrite printable_eq in Hp. rewrite doubles_eq in Hd.
  apply andb_true_iff in Hp as [Hp Hps]. apply andb_true_iff in Hd as [Hd Hds].
  destruct (exact_cases it n) as (_ & Hc & Hcase). set (it' := fst (exact it n)) in *.
  assert (forallb printable (j_children it') = true /\ forallb doubles (j_children it') = true /\ map depth (j_children it') = map depth (j_children it)) as (Hps' & Hds' & Hdep).
  { pose proof (exact_keys _ _ Hc) as Hkeys. clear -IH Hps Hds Hc. induction Hc as [| c c' l l' [j ->] _ IHl]; [done |]. inversion IH as [| ?? H1 H2]; subst.
    cbn in Hps, Hds. apply andb_true_iff in Hps as [Hp Hps]. apply andb_true_iff in Hds as [Hd Hds].
    destruct (H1 j Hp Hd) as (E1 & E2 & E3), (IHl H2 Hps Hds) as (E4 & E5 & E6). cbn. by rewrite E1, E2, E3, E4, E5, E6. }
  rewrite printable_eq, doubles_eq, !depth_eq, Hps', Hds', Hdep, !andb_true_r. split; [| split; [| done]].
  2: { by destruct Hcase as [(_ & -> & _) | (_ & _ & _ & _ & _ & ->)]. }
  destruct Hcase as [(E1 & E2 & E3 & _) | (Ek & Ef & _ & Ek' & Es & _)].
  - rewrite <- Hp. apply printable_node_cong; [done .. | by apply exact_keys].
  - unfold printable_node in Hp |- *. rewrite Ek in Hp. rewrite Ek'. cbn -[pas_real_shortest_g] in Hp |- *.
    unfold text_of. rewrite Es. cbn [from_option]. unfold id. rewrite chars_str. destruct (shortest_form (j_double it) Hd Ef) as (P & HP & -> & _).
    rewrite (fmt_g_numeric P _ Hd Ef) by lia. apply andb_true_iff in Hp as [_ Hl]. unfold leaf in *. cbn [andb].
    destruct (j_children it); [| done]. by inversion Hc.
Qed.

(** A number that is printed with all its digits is read back. *)
Lemma printed_exactly v : valid_binary prec emax v = true -> isfinite v = true -> pas_cjson_number_prints_exactly v = true ->
  strtod_signed (print_number v) = v.
Proof.
  intros Hv Hf Hx. destruct v as [s | | | s m e]; try done.
  - destruct s; [done |]. rewrite print_int by done. rewrite strtod_Zs. done.
  - unfold pas_cjson_number_prints_exactly in Hx. fold (int_valued (S754_finite s m e)) in Hx. destruct (int_valued _) eqn:Ei.
    + rewrite print_int, strtod_Zs by done. apply andb_true_iff in Ei as [_ Ei]. by apply SFeqb_same.
    + destruct (print_real _ Ei Hf) as [-> | ->]; [by apply reads_exactly |]. rewrite fmt_g_17. by apply read_printed.
Qed.
End Exact.

Section Numbers.
Context {CJ : CJson} {CT : CJsonText} {CL : CJsonTextLaws}.

(** A node made exact, printed and read is the node it was. *)
Lemma node_survives it n it' : printable_node it = true -> valid_binary prec emax (j_double it) = true ->
  reread_node (fst (pas_cjson_exact_numbers (fun _ => true) it n)) it' -> same_node it it'.
Proof.
  intros Hp Hd. destruct (exact_cases (fun _ => true) it n) as (_ & _ & Hcase). set (it1 := fst _) in *. unfold reread_node, same_node.
  destruct Hcase as [(E1 & E2 & E3 & Hx) | (Ek & Ef & _ & Ek' & Es & _)].
  - assert (kind it1 = kind it) as -> by (unfold kind; by rewrite E1). unfold text_of. rewrite E2, E3.
    destruct (Z.eqb_spec (kind it) cJSON_Raw) as [? | Hr]; [done |]. intros (H1 & H2 & H3). split; [done |]. split; [| done].
    intros Ek. rewrite H2 by done. assert (isfinite (j_double it) = true) as Hf.
    { unfold printable_node in Hp. rewrite Ek in Hp. by apply andb_true_iff in Hp as [? _]. }
    destruct (Hx Ek Hf) as [? | [? ?]]; [by apply printed_exactly | done].
  - rewrite Ek', Ek. cbn -[pas_real_shortest_g strtod_signed]. unfold text_of. rewrite Es. cbn [from_option]. unfold id. rewrite chars_str.
    intros [-> ->]. split; [done |]. split; [| done]. intros _. by apply shortest_exact.
Qed.

Lemma tree_survives it : forall n it', printable it = true -> doubles it = true ->
  trees reread_node (fst (pas_cjson_exact_numbers (fun _ => true) it n)) it' -> trees same_node it it'.
Proof.
  induction it as [it IH] using item_ind'. intros n it' Hp Hd. rewrite printable_eq in Hp. rewrite doubles_eq in Hd.
  apply andb_true_iff in Hp as [Hp Hps]. apply andb_true_iff in Hd as [Hd Hds]. rewrite !trees_unfold. intros [Hn Hc].
  split; [by eapply node_survives |]. clear Hn.
  destruct (exact_cases (fun _ => true) it n) as (_ & Hc1 & Hcase). set (it1 := fst _) in *.
  assert (kind it = cJSON_Object -> kind it1 = cJSON_Object) as Hk.
  { destruct Hcase as [(E1 & _) | (Ek & _)]; [unfold kind; by rewrite E1 | by rewrite Ek]. }
  clear Hcase Hp Hd. revert IH Hps Hds Hc. generalize (j_children it'). induction Hc1 as [| c c1 l l1 [j ->] _ IHl]; intros l' IH Hps Hds Hc.
  - inversion Hc. constructor.
  - inversion IH as [| ?? H1 H2]; subst. cbn in Hps, Hds. apply andb_true_iff in Hps as [Hp Hps]. apply andb_true_iff in Hds as [Hd Hds].
    inversion Hc as [| ? c' ? l2 [Hkey Hc'] Hl]; subst. constructor; [| by apply IHl]. split; [| by apply (H1 j)].
    intros Ho. rewrite Hkey by auto. by destruct (exact_cases (fun _ => true) c j) as (-> & _).
Qed.

End Numbers.

(** * 64-bit fields *)

Lemma int64_valid n : valid_binary prec emax (pas_int64_to_double n) = true.
Proof.
  rewrite <- strtod_Zs, chars_Zs. destruct (n <? 0) eqn:E; cbn [strtod_signed].
  - rewrite Ascii.eqb_refl. pose proof (strtod_valid (dec_bytes (- n))) as H. by destruct (strtod (dec_bytes (- n))).
  - apply Z.ltb_ge in E. destruct (dec_bytes_head n E) as (c & r & Er & Hc). rewrite Er. cbn [strtod_signed].
    destruct (digit_no_space c Hc) as (_ & -> & _). apply strtod_valid.
Qed.

Lemma depth_pos it : (1 <= depth it)%nat.
Proof. rewrite depth_eq. lia. Qed.

Lemma has_key_same k c c' : j_key c' = j_key c -> has_key k c' = has_key k c.
Proof. unfold has_key. by intros ->. Qed.

(** Searching two lists of nodes that have the same keys. *)
Lemma find_related (R : item -> item -> Prop) k l l' : (forall c c', R c c' -> j_key c' = j_key c) -> Forall2 R l l' ->
  match List.find (has_key k) l with
  | Some c => exists c', List.find (has_key k) l' = Some c' /\ R c c'
  | None => List.find (has_key k) l' = None
  end.
Proof.
  intros HR. induction 1 as [| c c' l l' Hc _ IH]; [done |]. cbn [List.find]. rewrite (has_key_same k c c') by auto.
  destruct (has_key k c); [by exists c' | exact IH].
Qed.

Lemma digit_not_nul c : isdigit c = true -> Ascii.eqb c "000" = false.
Proof. intros Hc. destruct (Ascii.eqb_spec c "000"); [by subst | done]. Qed.

Lemma Zs_no_nul n : no_nul (Zs n) = true.
Proof.
  assert (forall k, 0 <= k -> forallb (fun c => negb (Ascii.eqb c "000")) (dec_bytes k) = true) as H.
  { intros k Hk. pose proof (proj1 (dec_bytes_value k Hk)) as Ha. apply forallb_forall. intros c Hc.
    by rewrite (digit_not_nul c) by (by apply (all_digits_In (dec_bytes k))). }
  unfold no_nul. rewrite chars_Zs. destruct (Z.ltb_spec n 0); [cbn; apply H; lia | apply H; lia].
Qed.

Section Fields.
Context {CJ : CJson} {CJL : CJsonLaws} {CT : CJsonText} {CL : CJsonTextLaws}.

(** An object that JSON can hold. *)
Definition json_object (obj : item) : Prop :=
  kind obj = cJSON_Object /\ printable obj = true /\ doubles obj = true /\ (depth obj < CJSON_NESTING_LIMIT)%nat.

(** A leaf added under a key leaves it one. *)
Lemma added_object obj key c : json_object obj -> no_nul key = true -> j_children c = [] ->
  printable_node c = true -> valid_binary prec emax (j_double c) = true -> json_object (cJSON_AddItemToObject obj key c).
Proof.
  intros (Hk & Hp & Hd & Hl) Hn Hc Hpc Hv. unfold json_object. destruct (added obj key c) as [Ek Ed].
  rewrite printable_eq in Hp. rewrite doubles_eq in Hd. rewrite depth_eq in Hl. apply andb_true_iff in Hp as [Hp Hps]. apply andb_true_iff in Hd as [Hd Hds].
  rewrite printable_eq, doubles_eq, depth_eq, Ek, Ed, Hd, add_children, !forallb_app, Hps, Hds, map_app, foldr_app. split; [done |].
  unfold printable_node in Hp |- *. rewrite Ek, add_children. rewrite Hk in *. cbn -[printable doubles depth] in Hp |- *.
  rewrite forallb_app, Hp. cbn -[printable doubles depth]. rewrite Hn. cbn [andb].
  rewrite (printable_eq (set_key key c)), (doubles_eq (set_key key c)), (depth_eq (set_key key c)). cbn [set_key j_children j_double].
  rewrite Hc, Hv. cbn [forallb map foldr andb]. rewrite andb_true_r. split; [| split; [done |]].
  - rewrite andb_true_r. rewrite <- Hpc. by apply printable_node_cong.
  - assert (foldr Nat.max (Nat.max 1 0) (map depth (j_children obj)) <= Nat.max 1 (foldr Nat.max 0 (map depth (j_children obj))))%nat; [| unfold CJSON_NESTING_LIMIT in *; lia].
    clear. induction (map depth (j_children obj)) as [| x l IH]; cbn [foldr] in *; lia.
Qed.

Lemma add_int64_object obj key v : json_object obj -> no_nul key = true -> in_srange 64 v -> json_object (pas_cjson_add_int64 obj key v).
Proof.
  intros Ho Hn Hv. unfold pas_cjson_add_int64. destruct (new_number (pas_int64_to_double v)) as (Nk & Nd & Nc).
  assert (json_object (cJSON_AddItemToObject obj key (cJSON_CreateNumber (pas_int64_to_double v)))) as H1.
  { apply added_object; [done .. | |].
    - unfold printable_node, leaf. rewrite Nk, Nd, Nc. cbn. by rewrite int64_finite.
    - rewrite Nd. apply int64_valid. }
  destruct (_ && _); [done |]. destruct (pas_int64_companion_key 300 key) as [ckey |] eqn:Ec; [| done].
  destruct (new_string (Zs v)) as (Sk & Ss & Sd & Sc). apply added_object; [done | | done | | by rewrite Sd].
  - unfold pas_int64_companion_key in Ec. destruct (_ && _); [| done]. injection Ec as <-. unfold no_nul in *. rewrite chars_app, forallb_app, Hn. done.
  - unfold printable_node, leaf, text_of. rewrite Sk, Ss, Sc. cbn -[Zs]. rewrite andb_true_r.
    apply Zs_no_nul.
Qed.
(** What becomes of a member that is made exact, printed and read. *)
Definition travelled (alloc : nat -> bool) (c c' : item) : Prop :=
  j_key c' = j_key c /\ exists n, trees reread_node (fst (pas_cjson_exact_numbers alloc c n)) c'.

Lemma object_travels alloc obj n obj' : kind obj = cJSON_Object -> trees reread_node (fst (pas_cjson_exact_numbers alloc obj n)) obj' ->
  Forall2 (travelled alloc) (j_children obj) (j_children obj').
Proof.
  intros Hk [_ Hc]%trees_unfold. destruct (exact_cases alloc obj n) as (_ & Hc1 & Hcase). set (obj1 := fst _) in *.
  assert (kind obj1 = cJSON_Object) as Hk1 by (destruct Hcase as [(E1 & _) | (Ek & _)]; [unfold kind; by rewrite E1 | by rewrite Hk in Ek]).
  clear Hcase Hk. revert Hc. generalize (j_children obj'). induction Hc1 as [| c c1 l l1 [j ->] _ IH]; intros l' Hc; inversion Hc as [| ? c' ? l2 [Hkey Ht] Hl]; subst; constructor.
  - split; [| by exists j]. rewrite Hkey by done. by destruct (exact_cases alloc c j) as (-> & _).
  - by apply IH.
Qed.

(** A number that needs no raw text and a string travel as they are. *)
Lemma number_travels alloc c c' : travelled alloc c c' -> kind c = cJSON_Number -> valid_binary prec emax (j_double c) = true ->
  isfinite (j_double c) = true -> pas_cjson_number_prints_exactly (j_double c) = true ->
  kind c' = cJSON_Number /\ j_double c' = j_double c.
Proof.
  intros [_ [n [Hr _]%trees_unfold]] Hk Hv Hf Hx. destruct (exact_cases alloc c n) as (_ & _ & Hcase). set (c1 := fst _) in *.
  destruct Hcase as [(E1 & E2 & _) | (_ & _ & E & _)]; [| congruence]. unfold reread_node in Hr.
  assert (kind c1 = cJSON_Number) as Hk1 by (unfold kind in *; by rewrite E1). rewrite Hk1, E2 in Hr. destruct Hr as (H1 & H2 & _).
  split; [done |]. rewrite H2 by done. by apply printed_exactly.
Qed.

Lemma string_travels alloc c c' : travelled alloc c c' -> kind c = cJSON_String -> kind c' = cJSON_String /\ j_string c' = j_string c.
Proof.
  intros [_ [n [Hr _]%trees_unfold]] Hk. destruct (exact_cases alloc c n) as (_ & _ & Hcase). set (c1 := fst _) in *.
  destruct Hcase as [(E1 & _ & E3 & _) | (E & _)]; [| by rewrite Hk in E]. unfold reread_node in Hr.
  assert (kind c1 = cJSON_String) as Hk1 by (unfold kind in *; by rewrite E1). rewrite Hk1, E3 in Hr. destruct Hr as (H1 & _ & H3). auto.
Qed.

Lemma field_travels alloc obj key v obj' : in_srange 64 v -> unused obj key -> unused obj (key +:+ PAS_INT64_EXACT_SUFFIX) ->
  Z.of_nat (String.length key) < 294 \/ Z.abs v < 10 ^ 15 ->
  Forall2 (travelled alloc) (j_children (pas_cjson_add_int64 obj key v)) (j_children obj') ->
  pas_cjson_get_int64 (Some obj') (Some key) = Ok v.
Proof.
  intros Hv Hk Hc Hl Ht. set (ckey := key +:+ PAS_INT64_EXACT_SUFFIX) in *.
  assert (forall k, _) as Hfind by (intros k; exact (find_related (travelled alloc) k _ _ (fun c c' H => proj1 H) Ht)). clear Ht.
  unfold pas_cjson_get_int64. unfold pas_cjson_add_int64 in Hfind. set (N := cJSON_CreateNumber (pas_int64_to_double v)) in *.
  destruct (new_number (pas_int64_to_double v)) as (Nk & Nd & _). fold N in Nk, Nd.
  destruct ((- exact_limit <=? v) && (v <=? exact_limit)) eqn:Es.
  - apply andb_true_iff in Es as [?%Z.leb_le ?%Z.leb_le]. unfold exact_limit in *.
    assert (match pas_int64_companion_key 300 key with
      | Some c => exact_text (cJSON_GetStringValue (cJSON_GetObjectItem obj' c)) | None => None end = None) as ->.
    { unfold pas_int64_companion_key. fold ckey. destruct ((0 <? Z.of_nat (String.length ckey)) && _); [| done]. cbv iota beta.
      specialize (Hfind ckey). rewrite add_children, find_app_none in Hfind by done. cbn [List.find] in Hfind. rewrite has_set_key in Hfind.
      unfold ckey in Hfind at 1. rewrite companion_same in Hfind. by rewrite get_first, Hfind, no_string_value. }
    specialize (Hfind key). rewrite add_children, find_app_none in Hfind by done. cbn [List.find] in Hfind. rewrite has_set_key, same_key_refl in Hfind.
    destruct Hfind as (c' & E & Hc'). rewrite get_first, E.
    destruct (number_travels alloc _ _ Hc') as [E1 E2]; cbn [set_key j_double]; rewrite ?Nd; [done | apply int64_valid | by apply int64_finite | apply int15_prints_exactly; lia |].
    cbn [set_key j_double] in E2. rewrite cjson_int64_value, E2, Nd; [rewrite int64_double_roundtrip by lia; done | rewrite is_number, E1; done | rewrite E2, Nd; apply int_not_nan; lia].
  - apply andb_false_iff in Es. assert (Z.of_nat (String.length key) < 294) as Hlen.
    { destruct Hl as [? | ?]; [done |]. unfold exact_limit in *. destruct Es as [?%Z.leb_gt | ?%Z.leb_gt]; lia. }
    assert (pas_int64_companion_key 300 key = Some ckey) as Eck.
    { unfold pas_int64_companion_key. fold ckey.
      assert (Z.of_nat (String.length ckey) = Z.of_nat (String.length key) + 6) as -> by (unfold ckey; rewrite string_length_app; simpl; lia).
      by rewrite !(proj2 (Z.ltb_lt _ _)) by lia. }
    rewrite Eck in Hfind |- *. specialize (Hfind ckey). rewrite !add_children, <- app_assoc, find_app_none in Hfind by done. cbn [app List.find] in Hfind.
    rewrite !has_set_key in Hfind. unfold ckey in Hfind at 1. rewrite companion_same, same_key_refl in Hfind. destruct Hfind as (c' & E & Hc').
    destruct (new_string (Zs v)) as (Sk & Ss & _). destruct (string_travels alloc _ _ Hc' Sk) as [E1 E2]. cbn [set_key j_string] in E2.
    by rewrite get_first, E, get_string, E1, E2, Ss, Z.eqb_refl, exact_text_Zs.
Qed.

End Fields.

(** * A JSON library *)

(** A printer and a parser of JSON that keep the laws: compact text, a backslash in front
    of quotes and backslashes, and never more than 15 digits of a number. *)
Module Model.

Definition quote_char : ascii := "034".
Definition backslash : ascii := "092".
Definition special (c : ascii) : bool := Ascii.eqb c quote_char || Ascii.eqb c backslash.

Definition escape (c : ascii) : bytes := if special c then [backslash; c] else [c].
Definition quote (s : bytes) : bytes := quote_char :: flat_map escape s ++ [quote_char].
Fixpoint unquote (s : bytes) : option (bytes * bytes) :=
  match s with
  | [] => None
  | c :: r =>
      if Ascii.eqb c quote_char then Some ([], r)
      else if Ascii.eqb c backslash then
        match r with
        | d :: r' => match unquote r' with Some (t, u) => Some (d :: t, u) | None => None end
        | [] => None
        end
      else match unquote r with Some (t, u) => Some (c :: t, u) | None => None end
  end.

Definition number_bytes (v : spec_float) : bytes := if int_valued v then chars (Zs (Trunc.real_trunc v)) else chars (fmt_g 15 v).

Definition literal (k : Z) : bytes := chars (if k =? 1 then "false" else if k =? 2 then "true" else "null").
Definition key_of (c : item) : bytes := chars (default "" (j_key c)).

Fixpoint commas (l : list bytes) : bytes :=
  match l with [] => [] | [t] => t | t :: l' => t ++ ","%char :: commas l' end.

Fixpoint show (it : item) : bytes :=
  let k := kind it in
  if k =? cJSON_Number then number_bytes (j_double it)
  else if k =? cJSON_String then quote (chars (text_of it))
  else if k =? cJSON_Raw then chars (text_of it)
  else if k =? cJSON_Array then "["%char :: commas (map show (j_children it)) ++ ["]"%char]
  else if k =? cJSON_Object then "{"%char :: commas (map (fun c => quote (key_of c) ++ ":"%char :: show c) (j_children it)) ++ ["}"%char]
  else literal k.

Fixpoint span_number (s : bytes) : bytes * bytes :=
  match s with
  | c :: s' => if number_char c then let '(t, r) := span_number s' in (c :: t, r) else ([], s)
  | [] => ([], [])
  end.

Definition node (k : Z) (v : spec_float) (s : option string) (cs : list item) : item := Item k v s None cs.
Definition zero : spec_float := S754_zero false.

Definition closer (keyed : bool) : ascii := if keyed then "}" else "]".

(** A value, and the elements or members up to the bracket that closes them. *)
Fixpoint value (fuel : nat) (s : bytes) : option (item * bytes) :=
  match fuel, s with
  | S f, c :: r =>
      if Ascii.eqb c quote_char then
        match unquote r with Some (t, u) => Some (node cJSON_String zero (Some (str t)) [], u) | None => None end
      else if Ascii.eqb c "[" then
        match elements f false r with Some (l, u) => Some (node cJSON_Array zero None l, u) | None => None end
      else if Ascii.eqb c "{" then
        match elements f true r with Some (l, u) => Some (node cJSON_Object zero None l, u) | None => None end
      else if isdigit c || Ascii.eqb c "-" then
        let '(t, u) := span_number s in Some (node cJSON_Number (strtod_signed t) None [], u)
      else if Ascii.eqb c "f" then Some (node 1 zero None [], skipn 4 r)
      else if Ascii.eqb c "t" then Some (node 2 zero None [], skipn 3 r)
      else if Ascii.eqb c "n" then Some (node 4 zero None [], skipn 3 r)
      else None
  | _, _ => None
  end
with elements (fuel : nat) (keyed : bool) (s : bytes) : option (list item * bytes) :=
  match fuel, s with
  | S f, c :: r =>
      if Ascii.eqb c (closer keyed) then Some ([], r)
      else
        let s := if Ascii.eqb c "," then r else s in
        match (if keyed then match s with
                             | _ :: s' => match unquote s' with Some (k, _ :: u) => Some (Some (str k), u) | _ => None end
                             | [] => None
                             end
               else Some (None, s)) with
        | Some (key, s) =>
            match value f s with
            | Some (it, u) =>
                match elements f keyed u with
                | Some (l, w) => Some (match key with Some k => set_key k it | None => it end :: l, w)
                | None => None
                end
            | None => None
            end
        | None => None
        end
  | _, _ => None
  end.

Definition parse (t : string) : option item :=
  let s := chars t in
  match value (S (2 * length s)) s with Some (it, []) => Some it | _ => None end.

Definition print (it : option item) : option string := option_map (fun i => str (show i)) it.

Example show_tree : print (Some (Item 64 zero None None [Item 8 (strtod (chars "0.1")) None (Some "x") []; Item 32 zero None (Some "y") [node 2 zero None []; node 16 zero (Some "a") []]]))
  = Some (String "{" (str (quote (chars "x")) +:+ ":0.1," +:+ str (quote (chars "y")) +:+ ":[true," +:+ str (quote (chars "a")) +:+ "]}")).
Proof. vm_compute. reflexivity. Qed.

(** What a printed node becomes. *)
Fixpoint reread (it : item) : item :=
  let k := kind it in
  if k =? cJSON_Number then node cJSON_Number (strtod_signed (number_bytes (j_double it))) None []
  else if k =? cJSON_String then node cJSON_String zero (j_string it) []
  else if k =? cJSON_Raw then node cJSON_Number (strtod_signed (chars (text_of it))) None []
  else if k =? cJSON_Array then node cJSON_Array zero None (map reread (j_children it))
  else if k =? cJSON_Object then node cJSON_Object zero None (map (fun c => set_key (default "" (j_key c)) (reread c)) (j_children it))
  else node k zero None [].

(** ** Printed and parsed *)

Lemma unquote_escaped s rest : unquote (flat_map escape s ++ quote_char :: rest) = Some (s, rest).
Proof.
  induction s as [| c s IH]; [done |]. cbn [flat_map]. unfold escape at 1, special.
  destruct (Ascii.eqb_spec c quote_char) as [-> | Hq]; cbn [orb app]; [cbn; by rewrite IH |].
  destruct (Ascii.eqb_spec c backslash) as [-> | Hb]; cbn [app]; [cbn; by rewrite IH |].
  cbn [unquote]. by rewrite (proj2 (Ascii.eqb_neq _ _) Hq), (proj2 (Ascii.eqb_neq _ _) Hb), IH.
Qed.

Definition stops (rest : bytes) : Prop := match rest with c :: _ => number_char c = false | [] => True end.

Lemma span_number_text t rest : forallb number_char t = true -> stops rest -> span_number (t ++ rest) = (t, rest).
Proof.
  induction t as [| c t IH]; intros Ht Hs; [destruct rest as [| c r]; [done |]; cbn in *; by rewrite Hs |].
  cbn in *. apply andb_true_iff in Ht as [-> Ht]. by rewrite IH.
Qed.

(** The characters a value can start with. *)
Definition starts (c : ascii) : bool := existsb (Ascii.eqb c) [quote_char; "["; "{"; "-"; "f"; "t"; "n"]%char || isdigit c.

Lemma json_number_head t : number_text t = true -> exists c r, t = c :: r /\ (isdigit c || Ascii.eqb c "-") = true /\ forallb number_char t = true.
Proof. destruct t as [| c r]; [done |]. intros [Hc Ht]%andb_true_iff. by exists c, r. Qed.

Lemma Zs_numeric n : number_text (chars (Zs n)) = true.
Proof.
  rewrite chars_Zs. destruct (Z.ltb_spec n 0).
  - cbn. apply digits_numeric. exact (proj1 (dec_bytes_value (- n) ltac:(lia))).
  - destruct (dec_bytes_head n ltac:(lia)) as (c & r & E & Hc). pose proof (digits_numeric _ (proj1 (dec_bytes_value n ltac:(lia)))) as Hd.
    rewrite E in Hd |- *. unfold number_text. by rewrite Hc.
Qed.

Lemma number_bytes_numeric v : valid_binary prec emax v = true -> isfinite v = true -> number_text (number_bytes v) = true.
Proof. intros Hv Hf. unfold number_bytes. destruct (int_valued v); [apply Zs_numeric | by apply fmt_g_numeric]. Qed.

(** A number is read up to the character that ends it. *)
Lemma value_number t rest f : number_text t = true -> stops rest ->
  value (S f) (t ++ rest) = Some (node cJSON_Number (strtod_signed t) None [], rest).
Proof.
  intros Ht Hs. destruct (json_number_head t Ht) as (c & r & -> & Hc & Hn).
  assert (Ascii.eqb c quote_char = false /\ Ascii.eqb c "[" = false /\ Ascii.eqb c "{" = false) as (E1 & E2 & E3).
  { assert (number_char c = true) as Hnc by (cbn in Hn; by apply andb_true_iff in Hn as [? _]).
    split_and!; apply not_true_is_false; intros E%Ascii.eqb_eq; subst c; discriminate. }
  cbn [app value]. rewrite E1, E2, E3, Hc. change (c :: r ++ rest) with ((c :: r) ++ rest). by rewrite span_number_text.
Qed.

Lemma json_show_head it : printable_node it = true -> valid_binary prec emax (j_double it) = true -> exists c r, show it = c :: r /\ starts c = true.
Proof.
  assert (forall t, number_text t = true -> exists c r, t = c :: r /\ starts c = true) as Hnum.
  { intros t (c & r & -> & Hc & _)%json_number_head. exists c, r. split; [done |]. unfold starts. destruct (isdigit c); [apply orb_true_r |].
    cbn in Hc. apply Ascii.eqb_eq in Hc. by subst. }
  intros Hp Hv. unfold printable_node in Hp. destruct it as [ty v s k cs]. cbn [show]. set (it := Item ty v s k cs) in *.
  destruct (Z.eqb_spec (kind it) cJSON_Number); [apply andb_true_iff in Hp as [Hf _]; apply Hnum, number_bytes_numeric; done |].
  destruct (Z.eqb_spec (kind it) cJSON_String); [cbn; eauto |].
  destruct (Z.eqb_spec (kind it) cJSON_Raw); [apply andb_true_iff in Hp as [Hf _]; by apply Hnum |].
  destruct (Z.eqb_spec (kind it) cJSON_Array); [cbn; eauto |]. destruct (Z.eqb_spec (kind it) cJSON_Object); [cbn; eauto |].
  unfold literal. destruct (kind it =? 1); [cbn; eauto |]. destruct (kind it =? 2); cbn; eauto.
Qed.

(** One element or member, after a comma or not. *)
Definition item_text (keyed : bool) (c : item) : bytes := if keyed then quote (key_of c) ++ ":"%char :: show c else show c.
Definition item_read (keyed : bool) (c : item) : item := if keyed then set_key (default "" (j_key c)) (reread c) else reread c.

Lemma elements_step f keyed pre c u : (pre = [] \/ pre = [","%char]) ->
  printable_node c = true -> valid_binary prec emax (j_double c) = true ->
  value f (show c ++ u) = Some (reread c, u) ->
  elements (S f) keyed (pre ++ item_text keyed c ++ u) =
    match elements f keyed u with Some (l, w) => Some (item_read keyed c :: l, w) | None => None end.
Proof.
  intros Hpre Hp Hd Hv. destruct (json_show_head c Hp Hd) as (a & r & E & Ha).
  assert (forall b, starts b = true -> Ascii.eqb b "," = false /\ Ascii.eqb b "]" = false) as Hst.
  { intros b Hb. split; apply not_true_is_false; intros E'%Ascii.eqb_eq; by subst b. }
  destruct keyed; unfold item_text, item_read.
  - assert (item_text true c ++ u = quote_char :: flat_map escape (key_of c) ++ quote_char :: ":"%char :: show c ++ u) as Et.
    { unfold item_text, quote. cbn [app]. by rewrite <- !app_assoc. }
    unfold item_text in Et. rewrite Et. destruct Hpre as [-> | ->]; cbn [app elements closer].
    + change (Ascii.eqb quote_char "}") with false. change (Ascii.eqb quote_char ",") with false. cbv iota.
      rewrite unquote_escaped. cbv iota beta. rewrite Hv. unfold key_of. rewrite str_chars. by destruct (elements f true u) as [[l w] |].
    + change (Ascii.eqb "," "}") with false. change (Ascii.eqb "," ",") with true. cbv iota.
      rewrite unquote_escaped. cbv iota beta. rewrite Hv. unfold key_of. rewrite str_chars. by destruct (elements f true u) as [[l w] |].
  - rewrite E in *. destruct (Hst a Ha) as [E1 E2]. destruct Hpre as [-> | ->]; cbn [app elements closer] in *.
    + rewrite E1, E2, Hv. by destruct (elements f false u) as [[l w] |].
    + change (Ascii.eqb "," "]") with false. change (Ascii.eqb "," ",") with true. cbv iota. rewrite Hv. by destruct (elements f false u) as [[l w] |].
Qed.

(** The fuel a tree takes. *)
Fixpoint cost (it : item) : nat := S (foldr (fun n acc => S (n + acc)) 1%nat (map cost (j_children it))).
Definition cost_list (l : list item) : nat := foldr (fun n acc => S (n + acc)) 1%nat (map cost l).
Lemma cost_eq it : cost it = S (cost_list (j_children it)).
Proof. by destruct it. Qed.

Lemma commas_cons t l : commas (t :: l) = t ++ flat_map (fun t => ","%char :: t) l.
Proof.
  revert t. induction l as [| t' l IH]; intros t; [cbn; by rewrite app_nil_r |].
  change (commas (t :: t' :: l)) with (t ++ ","%char :: commas (t' :: l)). by rewrite IH.
Qed.

(** A node whose text is read back, whatever follows. *)
Definition parses (it : item) : Prop :=
  forall f rest, (cost it <= f)%nat -> stops rest -> value f (show it ++ rest) = Some (reread it, rest).
Definition shown (it : item) : Prop := printable_node it = true /\ valid_binary prec emax (j_double it) = true.

Lemma closer_stops keyed rest : stops (closer keyed :: rest).
Proof. by destruct keyed. Qed.

Lemma tail_parses keyed rest l : forall f, Forall parses l -> Forall shown l -> (cost_list l <= f)%nat ->
  elements f keyed (flat_map (fun t => ","%char :: t) (map (item_text keyed) l) ++ closer keyed :: rest) = Some (map (item_read keyed) l, rest).
Proof.
  induction l as [| c l IH]; intros f Hp Hs Hf.
  - destruct f as [| f]; [cbn in Hf; lia |]. cbn [map flat_map app elements]. by rewrite Ascii.eqb_refl.
  - inversion Hp as [| ?? Hc Hl]; inversion Hs as [| ?? [Hn Hd] Hsl]; subst. destruct f as [| f]; [cbn in Hf; lia |].
    unfold cost_list in Hf. cbn in Hf. fold (cost_list l) in Hf.
    cbn [map flat_map]. rewrite <- app_assoc. change (","%char :: item_text keyed c) with ([","%char] ++ item_text keyed c). rewrite <- app_assoc.
    rewrite elements_step; [| by right | done | done | apply Hc; [lia |]].
    + by rewrite IH by (done || lia).
    + destruct l; [apply closer_stops | done].
Qed.

Lemma list_parses keyed rest l f : Forall parses l -> Forall shown l -> (cost_list l <= f)%nat ->
  elements f keyed (commas (map (item_text keyed) l) ++ closer keyed :: rest) = Some (map (item_read keyed) l, rest).
Proof.
  intros Hp Hs Hf. destruct l as [| c l]; [by apply (tail_parses keyed rest [])|].
  inversion Hp as [| ?? Hc Hl]; inversion Hs as [| ?? [Hn Hd] Hsl]; subst. destruct f as [| f]; [cbn in Hf; lia |].
  unfold cost_list in Hf. cbn in Hf. fold (cost_list l) in Hf. cbn [map]. rewrite commas_cons, <- app_assoc.
  change (item_text keyed c ++ ?u) with ([] ++ item_text keyed c ++ u). rewrite elements_step; [| by left | done | done | apply Hc; [lia |]].
  - rewrite tail_parses by (done || lia). done.
  - destruct l; [apply closer_stops | done].
Qed.

Lemma value_array f t : value (S f) ("["%char :: t) = match elements f false t with Some (l, u) => Some (node cJSON_Array zero None l, u) | None => None end.
Proof. done. Qed.
Lemma value_object f t : value (S f) ("{"%char :: t) = match elements f true t with Some (l, u) => Some (node cJSON_Object zero None l, u) | None => None end.
Proof. done. Qed.

Lemma json_show_parses it : printable it = true -> doubles it = true -> parses it.
Proof.
  induction it as [it IH] using item_ind'. intros Hp Hd. rewrite printable_eq in Hp. rewrite doubles_eq in Hd.
  apply andb_true_iff in Hp as [Hp Hps]. apply andb_true_iff in Hd as [Hd Hds].
  assert (Forall parses (j_children it) /\ Forall shown (j_children it)) as [Hcp Hcs].
  { clear Hp Hd. induction IH as [| c l Hc _ IHl]; [by split |]. cbn in Hps, Hds. apply andb_true_iff in Hps as [H1 H2]. apply andb_true_iff in Hds as [H3 H4].
    destruct (IHl H2 H4) as [Hl Hls]. split; constructor; auto. split; [rewrite printable_eq in H1 | rewrite doubles_eq in H3]; by apply andb_true_iff in H1 as [? _] || apply andb_true_iff in H3 as [? _]. }
  intros [| f] rest Hf Hr; [rewrite cost_eq in Hf; lia |]. rewrite cost_eq in Hf. apply le_S_n in Hf.
  unfold printable_node in Hp. destruct it as [ty v s k cs]. cbn [show reread]. set (it := Item ty v s k cs) in *. cbn [j_children] in *.
  destruct (Z.eqb_spec (kind it) cJSON_Number); [apply andb_true_iff in Hp as [Hfin _]; apply value_number; [by apply number_bytes_numeric | done] |].
  destruct (Z.eqb_spec (kind it) cJSON_String).
  { unfold quote. cbn [app value]. rewrite Ascii.eqb_refl, <- app_assoc. cbn [app]. rewrite unquote_escaped, str_chars.
    unfold text_of. by destruct (j_string it). }
  destruct (Z.eqb_spec (kind it) cJSON_Raw); [apply andb_true_iff in Hp as [Hfin _]; by apply value_number |].
  destruct (Z.eqb_spec (kind it) cJSON_Array).
  { cbn [app]. rewrite <- app_assoc. cbn [app]. rewrite value_array. 
    pose proof (list_parses false rest cs f Hcp Hcs Hf) as E. change (map (item_text false) cs) with (map show cs) in E. cbn [closer] in E. change (j_children it) with cs. by rewrite E. }
  destruct (Z.eqb_spec (kind it) cJSON_Object).
  { cbn [app]. rewrite <- app_assoc. cbn [app]. rewrite value_object. 
    pose proof (list_parses true rest cs f Hcp Hcs Hf) as E.
    change (map (item_text true) cs) with (map (fun c => quote (key_of c) ++ ":"%char :: show c) cs) in E. cbn [closer] in E. change (j_children it) with cs. by rewrite E. }
  apply andb_true_iff in Hp as [Hk _]. destruct (Z.eqb_spec (kind it) 1) as [-> | ?]; [done |]. destruct (Z.eqb_spec (kind it) 2) as [-> | ?]; [done |].
  cbn [orb] in Hk. apply Z.eqb_eq in Hk as ->. done.
Qed.

Lemma length_item_text keyed c : (length (show c) <= length (item_text keyed c))%nat.
Proof. destruct keyed; cbn [item_text]; [| done]. rewrite length_app. cbn [length]. lia. Qed.

Lemma cost_list_bound keyed l : Forall (fun c => cost c <= 2 * length (show c))%nat l ->
  (cost_list l <= 2 * length (commas (map (item_text keyed) l)) + 2)%nat.
Proof.
  destruct l as [| c l]; [intros _; cbn; lia |]. cbn [map]. rewrite commas_cons, length_app. intros Hl.
  enough (forall l, Forall (fun c => cost c <= 2 * length (show c))%nat l ->
    (cost_list l <= 2 * length (flat_map (fun t => ","%char :: t) (map (item_text keyed) l)) + 1)%nat) as H.
  { inversion Hl as [| ?? H1 H2]; subst. specialize (H l H2). pose proof (length_item_text keyed c). unfold cost_list in *. cbn [map foldr]. lia. }
  clear. induction 1 as [| c l Hc _ IH]; [cbn; lia |]. cbn [map flat_map]. rewrite length_app. cbn [length].
  pose proof (length_item_text keyed c). unfold cost_list in *. cbn [map foldr]. lia.
Qed.

(** A text is never shorter than half its tree's fuel. *)
Lemma cost_bound it : printable it = true -> doubles it = true -> (cost it <= 2 * length (show it))%nat.
Proof.
  induction it as [it IH] using item_ind'. intros Hp Hd. rewrite printable_eq in Hp. rewrite doubles_eq in Hd.
  apply andb_true_iff in Hp as [Hp Hps]. apply andb_true_iff in Hd as [Hd Hds].
  assert (Forall (fun c => cost c <= 2 * length (show c))%nat (j_children it)) as Hl.
  { clear Hp Hd. induction IH as [| c l Hc _ IHl]; [constructor |]. cbn in Hps, Hds. apply andb_true_iff in Hps as [? ?]. apply andb_true_iff in Hds as [? ?].
    constructor; auto. }
  destruct (json_show_head it Hp Hd) as (a & r & Es & _). assert (1 <= length (show it))%nat by (rewrite Es; cbn; lia). clear Es.
  rewrite cost_eq. destruct (j_children it) as [| c cs] eqn:Ec; [cbn; lia |].
  pose proof (cost_list_bound false _ Hl) as Bf. pose proof (cost_list_bound true _ Hl) as Bt.
  unfold printable_node, leaf in Hp. rewrite Ec, !andb_false_r in Hp. destruct it as [ty v s k cs']. cbn [j_children] in Ec. subst cs'. cbn [show j_children].
  set (it := Item ty v s k (c :: cs)) in *.
  destruct (kind it =? cJSON_Number); [done |]. destruct (kind it =? cJSON_String); [done |]. destruct (kind it =? cJSON_Raw); [done |].
  destruct (kind it =? cJSON_Array).
  { cbn [length]. rewrite length_app. cbn [length]. change (map (item_text false) (c :: cs)) with (map show (c :: cs)) in Bf. lia. }
  destruct (kind it =? cJSON_Object); [| done]. cbn [length]. rewrite length_app. cbn [length].
  change (map (item_text true) (c :: cs)) with (map (fun c => quote (key_of c) ++ ":"%char :: show c) (c :: cs)) in Bt. lia.
Qed.

Lemma parse_print it : printable it = true -> doubles it = true -> parse (str (show it)) = Some (reread it).
Proof.
  intros Hp Hd. unfold parse. rewrite chars_str. rewrite <- (app_nil_r (show it)) at 2. rewrite (json_show_parses it Hp Hd); [done | | done].
  pose proof (cost_bound it Hp Hd). lia.
Qed.

#[export] Instance model_text : CJsonText := {
  cJSON_Print := print; cJSON_PrintUnformatted := print; cJSON_Parse := parse; print_number := number_bytes }.

Lemma trees_set_key it it' k : trees reread_node it it' -> trees reread_node it (set_key k it').
Proof. rewrite !trees_unfold. by intros [H1 H2]. Qed.

Lemma reread_trees it : printable it = true -> trees reread_node it (reread it).
Proof.
  induction it as [it IH] using item_ind'. intros Hp. rewrite printable_eq in Hp. apply andb_true_iff in Hp as [Hp Hps].
  apply trees_unfold. unfold printable_node, leaf in Hp. destruct it as [ty v s k cs]. cbn [reread j_children] in *. set (it := Item ty v s k cs) in *.
  unfold reread_node. destruct (Z.eqb_spec (kind it) cJSON_Number) as [En | ?]; [rewrite En in *; apply andb_true_iff in Hp as [_ Hp]; by destruct cs |].
  destruct (Z.eqb_spec (kind it) cJSON_String) as [Es | ?]; [rewrite Es in *; apply andb_true_iff in Hp as [_ Hp]; by destruct cs |].
  destruct (Z.eqb_spec (kind it) cJSON_Raw) as [Er | ?]; [apply andb_true_iff in Hp as [_ Hp]; by destruct cs |].
  destruct (Z.eqb_spec (kind it) cJSON_Array) as [Ea | ?].
  { rewrite Ea. split; [done |]. cbn [j_children node]. clear Hp. clearbody it. induction cs as [| c cs IHc]; [constructor |].
    inversion IH as [| ?? H1 H2]; subst. cbn in Hps. apply andb_true_iff in Hps as [Hc Hcs]. constructor; [split; [intros E; by rewrite Ea in E | auto] | by apply IHc]. }
  destruct (Z.eqb_spec (kind it) cJSON_Object) as [Eo | ?].
  { rewrite Eo. split; [done |]. cbn [j_children node]. clearbody it. induction cs as [| c cs IHc]; [constructor |].
    inversion IH as [| ?? H1 H2]; subst. cbn in Hps, Hp. apply andb_true_iff in Hps as [Hc Hcs]. apply andb_true_iff in Hp as [Hk Hp].
    constructor; [| by apply IHc]. split; [intros _; cbn; by destruct (j_key c) |]. apply trees_set_key. auto. }
  apply andb_true_iff in Hp as [Hk Hl]. destruct cs; [| done].
  apply orb_true_iff in Hk as [Hk | Hk]; [apply orb_true_iff in Hk as [Hk | Hk] |]; apply Z.eqb_eq in Hk; rewrite Hk; by repeat (split || constructor).
Qed.

#[export] Instance model_text_laws : CJsonTextLaws.
Proof.
  constructor; try done.
  - intros v H. cbn. unfold number_bytes. by rewrite H.
  - intros v H _. left. cbn. unfold number_bytes. by rewrite H.
  - intros it formatted Hp Hd _. exists (str (show it)), (reread it). split; [by destruct formatted |].
    split; [by apply parse_print | by apply reread_trees].
Qed.
End Model.
#[export] Existing Instances Model.model_text Model.model_text_laws.

(** A tree with a number of 17 digits, a negative zero, the greatest double and a string. *)
Definition sample : item :=
  Item 64 (S754_zero false) None None
    [Item cJSON_Number (strtod (chars "0.33333333333333331")) None (Some "third") [];
     Item cJSON_Number (S754_zero true) None (Some "minus") [];
     Item 32 (S754_zero false) None (Some "list") [Item cJSON_Number (strtod (chars "1.7976931348623157E308")) None None []; Item 16 (S754_zero false) (Some "x") None []]].


(** Without the pass the greatest double comes back as an infinity, as the comment in
    json_helpers.c tells. *)
Example fifteen_digits_lose : match cJSON_Print (Some sample) with
  | Some t => match cJSON_Parse t with
              | Some it => map (fun c => map j_double (j_children c)) (j_children it) = [[]; []; [S754_infinity false; S754_zero false]]
              | None => False end
  | None => False end.
Proof. vm_compute. reflexivity. Qed.

