(* ===== verification/EnumTokens.v ===== *)
(** The text that WRITE prints for a value of an enumeration, [pas_enum_write_token] of
    fileops.c and readq.c: the name of the value, or, for a value without one, its digits in
    one of 16 buffers that are used in turn. It is called for each argument before
    the line is printed, so the texts have to last. *)

From Stdlib Require Import ZArith Ascii String Lia.
From stdpp Require Import base list strings.
From S2P Require Import Prelude LexProps EmitText RtErrors RealText.
Import EmitText.Ints.
#[local] Open Scope Z_scope.

Definition RING : Z := 16.
Definition WIDTH : nat := 32.

(** The buffers, which are static, and the one used last. *)
Record ring := mkRing { bufs : list string; slot : Z }.
Definition first_ring : ring := mkRing (replicate 16 EmptyString) 0.

(** The pointer that is returned: to a name, or to a buffer. *)
Inductive token := TokName (i : Z) | TokBuf (i : Z).

(** [names] is [None] for NULL. *)
Definition pas_enum_write_token (value : Z) (names : option (list string)) (count : Z) (r : ring) : token * ring :=
  if (0 <=? value) && (value <? count) && (match names with Some _ => true | None => false end) then (TokName value, r)
  else
    let s := (slot r + 1) mod RING in
    (TokBuf s, mkRing (<[Z.to_nat s := snprintf WIDTH (Zs value)]> (bufs r)) s).

(** What the pointer points to. *)
Definition token_text (names : option (list string)) (r : ring) (t : token) : option string :=
  match t with
  | TokName i => match names with Some l => l !! Z.to_nat i | None => None end
  | TokBuf i => bufs r !! Z.to_nat i
  end.

(** The calls for the arguments of one WRITE. *)
Fixpoint tokens (names : option (list string)) (count : Z) (vs : list Z) (r : ring) : list token * ring :=
  match vs with
  | [] => ([], r)
  | v :: vs =>
      let '(t, r) := pas_enum_write_token v names count r in
      let '(ts, r) := tokens names count vs r in (t :: ts, r)
  end.

(** ** The texts last *)

Definition ring_ok (r : ring) : Prop := length (bufs r) = 16%nat /\ 0 <= slot r < RING.
Definition enum_text (names : option (list string)) (count v : Z) : option string :=
  match names with
  | Some l => if (0 <=? v) && (v <? count) then l !! Z.to_nat v else Some (Zs v)
  | None => Some (Zs v)
  end.

(** The digits of an [int32_t] fit a buffer. *)
Lemma dec_bytes_short q n : 0 < n -> 0 <= q < 10 ^ n -> Z.of_nat (length (dec_bytes q)) <= n.
Proof.
  intros Hn Hq. destruct (Z.eq_dec q 0) as [-> | Hne]; [change (dec_bytes 0) with ["0"%char]; cbn [length]; lia |]. unfold dec_bytes, base_digits.
  destruct (base_aux_count (S (Z.to_nat (Z.log2 q))) q []) as (k & Hk & Hk0 & Hb).
  { pose proof (Z.log2_spec q ltac:(lia)) as [_ H2]. pose proof (Z.log2_nonneg q). replace (Z.of_nat (S (Z.to_nat (Z.log2 q)))) with (Z.succ (Z.log2 q)) by lia. lia. }
  rewrite Hk. cbn [length]. assert (k < n); [| lia]. apply (Z.pow_lt_mono_r_iff 10); lia.
Qed.

Lemma buffer_fits v : in_srange 32 v -> snprintf WIDTH (Zs v) = Zs v.
Proof.
  unfold in_srange, WIDTH, snprintf. intros Hv. rewrite firstn_all2; [apply str_chars |]. rewrite chars_Zs.
  pose proof (dec_bytes_short (Z.abs v) 10 ltac:(lia) ltac:(lia)) as H. destruct (Z.ltb_spec v 0); cbn [length].
  - replace (- v) with (Z.abs v) by lia. lia.
  - replace v with (Z.abs v) by lia. lia.
Qed.

Lemma token_ring names count v r t r' : ring_ok r -> pas_enum_write_token v names count r = (t, r') -> ring_ok r'.
Proof.
  intros [Hl Hs]. unfold pas_enum_write_token. destruct (_ && _); intros [= <- <-]; [done |].
  split; cbn; [by rewrite length_insert | apply Z.mod_pos_bound; done].
Qed.

(** A buffer used [k] uses ago keeps its text for the calls that do not come round to it. *)
Lemma buffer_kept names count vs : forall r ts r' k, tokens names count vs r = (ts, r') -> ring_ok r -> 0 <= k -> k + Z.of_nat (length vs) < RING ->
  bufs r' !! Z.to_nat ((slot r - k) mod RING) = bufs r !! Z.to_nat ((slot r - k) mod RING).
Proof.
  induction vs as [| v vs IH]; intros r ts r' k E Hr Hk Hn; cbn [tokens length] in *; [by injection E as _ <- |].
  destruct (pas_enum_write_token v names count r) as [t r1] eqn:E1. destruct (tokens names count vs r1) as [ts1 r2] eqn:E2. injection E as _ <-.
  pose proof (token_ring _ _ _ _ _ _ Hr E1) as Hr1. revert E1. unfold pas_enum_write_token. destruct (_ && _); intros [= <- <-].
  - by apply (IH _ ts1); [| | | lia].
  - specialize (IH _ ts1 r2 (k + 1) E2 Hr1 ltac:(lia) ltac:(lia)). cbn [slot bufs] in IH.
    replace (((slot r + 1) mod RING - (k + 1)) mod RING) with ((slot r - k) mod RING) in IH
      by (rewrite Zminus_mod_idemp_l; f_equal; lia). rewrite IH. apply list_lookup_insert_ne.
    destruct Hr as [_ Hs]. unfold RING in *. intros E%Z2Nat.inj; try (apply Z.mod_pos_bound; lia).
    assert ((slot r + 1 - (slot r - k)) mod 16 = 0) as Hm by (rewrite Zminus_mod, E, Z.sub_diag; done).
    replace (slot r + 1 - (slot r - k)) with (k + 1) in Hm by lia. rewrite Z.mod_small in Hm; lia.
Qed.

Lemma token_lasts names count v vs r t r1 ts r2 : ring_ok r -> in_srange 32 v -> Z.of_nat (length vs) < RING ->
  pas_enum_write_token v names count r = (t, r1) -> tokens names count vs r1 = (ts, r2) ->
  token_text names r2 t = enum_text names count v.
Proof.
  intros Hr Hv Hn E1 E2. pose proof (token_ring _ _ _ _ _ _ Hr E1) as Hr1. revert E1. unfold pas_enum_write_token, enum_text.
  assert (forall s, (TokBuf ((slot r + 1) mod RING), mkRing (<[Z.to_nat ((slot r + 1) mod RING) := snprintf WIDTH (Zs v)]> (bufs r)) ((slot r + 1) mod RING)) = (s, r1) ->
    token_text names r2 s = Some (Zs v)) as Hbuf.
  { intros s [= <- <-]. cbn [token_text]. pose proof (buffer_kept names count vs _ ts r2 0 E2 Hr1 ltac:(lia) ltac:(lia)) as Hk. cbn [slot bufs] in Hk.
    rewrite Z.sub_0_r, Zmod_mod in Hk. rewrite Hk, list_lookup_insert_eq; [by rewrite buffer_fits |].
    destruct Hr as [-> _]. pose proof (Z.mod_pos_bound (slot r + 1) RING ltac:(done)). unfold RING in *. lia. }
  destruct names as [l |]; [| rewrite andb_false_r; apply Hbuf]. rewrite andb_true_r.
  destruct ((0 <=? v) && (v <? count)); [intros [= <- <-]; done | apply Hbuf].
Qed.

(** C33: the texts of a WRITE last. When WRITE has up to 16 values of enumerations, each
    pointer that was returned still points, after all the calls, to the name of its value,
    or to its digits when the value has no name, whatever was printed before. *)
Theorem enum_tokens_last names count vs r ts r' (Hr : ring_ok r) (Hn : Z.of_nat (length vs) <= RING) (Hv : Forall (in_srange 32) vs)
    (E : tokens names count vs r = (ts, r')) :
  map (token_text names r') ts = map (enum_text names count) vs.
Proof.
  revert r ts r' Hr Hn E. induction Hv as [| v vs Hv _ IH]; intros r ts r' Hr Hn E; cbn [tokens] in E; [by injection E as <- _ |].
  destruct (pas_enum_write_token v names count r) as [t r1] eqn:E1. destruct (tokens names count vs r1) as [ts1 r2] eqn:E2. injection E as <- <-.
  cbn [length] in Hn. cbn [map]. f_equal; [eapply (token_lasts names count v vs); [done | done | lia | done | done] |].
  eapply IH; [by eapply token_ring | lia | done].
Qed.

Lemma enum_tokens_last_witness :
  map (token_text (Some ["RED"; "BLUE"]) (tokens (Some ["RED"; "BLUE"]) 2 [1; 7; -3; 0] first_ring).2)
    (tokens (Some ["RED"; "BLUE"]) 2 [1; 7; -3; 0] first_ring).1 = [Some "BLUE"; Some "7"; Some "-3"; Some "RED"].
Proof.
  rewrite (enum_tokens_last (Some ["RED"; "BLUE"]) 2 [1; 7; -3; 0] first_ring _ _); [reflexivity | split; [reflexivity | unfold RING; cbn; lia] | unfold RING; cbn; lia | | reflexivity].
  repeat constructor; unfold in_srange; cbn; lia.
Defined.

(** The seventeenth value without a name takes the buffer of the first. *)
Lemma enum_tokens_wrap :
  let '(ts, r) := tokens None 0 (map Z.of_nat (seq 100 17)) first_ring in
  map (token_text None r) (take 1 ts) = [Some "116"].
Proof. vm_compute. reflexivity. Qed.
