(* ===== verification/DecodeReal.v ===== *)
(** DECODE of a REAL, [pas_decode_real] of encode_decode.c, on the whole of C's [strtod]:
    decimal and hexadecimal numbers, infinities and NaNs. The text of any REAL, blanks
    around it, is decoded to that REAL. *)

From Stdlib Require Import ZArith Ascii String SpecFloat Lia.
From stdpp Require Import base list strings.
From S2P Require Import Prelude Real CPrelude LexProps EmitText Numeric Files Readers ReaderProps EncDec RtErrors Json RealProps RealText.
Import EmitText.Ints.
#[local] Open Scope Z_scope.

(** * strtod *)

(** The text after [p], without regard to case. *)
Fixpoint strip_prefix (p s : bytes) : option bytes :=
  match p, s with
  | [], _ => Some s
  | a :: p', b :: s' => if Ascii.eqb a (tolower b) then strip_prefix p' s' else None
  | _ :: _, [] => None
  end.

Definition is_xdigit (c : ascii) : bool := isdigit c || between "a" "f" (tolower c).
Definition xdigit_value (c : ascii) : Z := if isdigit c then code c - 48 else code (tolower c) - 87.
Definition hex_value (ds : bytes) : Z := fold_left (fun v c => v * 16 + xdigit_value c) ds 0.

Fixpoint span_by (f : ascii -> bool) (s : bytes) : bytes * bytes :=
  match s with
  | c :: s' => if f c then let '(a, r) := span_by f s' in (c :: a, r) else ([], s)
  | [] => ([], [])
  end.

(** The digits in front of a point and after it, and the rest; a point without digits
    around it is no number. *)
Definition mantissa (f : ascii -> bool) (s : bytes) : option (bytes * bytes * bytes) :=
  let '(ip, r) := span_by f s in
  let '(fp, r') := match r with
                   | c :: r' => if Ascii.eqb c "." then span_by f r' else ([], r)
                   | [] => ([], []) end in
  match ip, fp with
  | [], [] => None
  | _, _ => Some (ip, fp, r')
  end.

(** An exponent counts only when digits follow. *)
Definition exponent (mark : ascii) (s : bytes) : Z * bytes :=
  match s with
  | c :: s' =>
      if Ascii.eqb (tolower c) mark then
        let '(neg, t) := match s' with
                         | d :: t => if Ascii.eqb d "-" then (true, t) else if Ascii.eqb d "+" then (false, t) else (false, s')
                         | [] => (false, []) end in
        let '(ds, r) := span_by isdigit t in
        match ds with
        | [] => (0, s)
        | _ => (if neg : bool then - dec_value ds else dec_value ds, r)
        end
      else (0, s)
  | [] => (0, [])
  end.

Definition decimal_number (s : bytes) : option (spec_float * bytes) :=
  match mantissa isdigit s with
  | Some (ip, fp, r) =>
      let '(x, r') := exponent "e" r in
      Some (real_of_decimal (dec_value (ip ++ fp)) (x - Z.of_nat (length fp)), r')
  | None => None
  end.
Definition hex_number (s : bytes) : option (spec_float * bytes) :=
  match strip_prefix (chars "0x") s with
  | Some s' =>
      match mantissa is_xdigit s' with
      | Some (ip, fp, r) =>
          let '(x, r') := exponent "p" r in
          Some (binary_normalize prec emax (hex_value (ip ++ fp)) (x - 4 * Z.of_nat (length fp)) false, r')
      | None => None
      end
  | None => None
  end.
(** nan, with characters in parentheses. *)
Definition is_word_char (c : ascii) : bool := isdigit c || between "a" "z" (tolower c) || Ascii.eqb c "_".
Definition nan_tail (s : bytes) : bytes :=
  match s with
  | c :: s' => if Ascii.eqb c "(" then
                 match snd (span_by is_word_char s') with
                 | d :: r => if Ascii.eqb d ")" then r else s
                 | [] => s
                 end
               else s
  | [] => []
  end.

(** The number without a sign, whether it is out of range, and the rest. *)
Definition magnitude (s : bytes) : option (spec_float * bool * bytes) :=
  let number (o : option (spec_float * bytes)) :=
    match o with Some (v, r) => Some (v, negb (isfinite v), r) | None => None end in
  match strip_prefix (chars "infinity") s with
  | Some r => Some (S754_infinity false, false, r)
  | None =>
      match strip_prefix (chars "inf") s with
      | Some r => Some (S754_infinity false, false, r)
      | None =>
          match strip_prefix (chars "nan") s with
          | Some r => Some (S754_nan, false, nan_tail r)
          | None =>
              match hex_number s with
              | Some n => number (Some n)
              | None => number (decimal_number s)
              end
          end
      end
  end.

(** [strtod]: the value, overflow, what is after the number; [None] when there is none. *)
Definition c_strtod (s : bytes) : option (spec_float * bool * bytes) :=
  let s := skip_spaces s in
  let '(neg, s) := match s with
                   | c :: s' => if Ascii.eqb c "-" then (true, s') else if Ascii.eqb c "+" then (false, s') else (false, s)
                   | [] => (false, []) end in
  match magnitude s with
  | Some (v, big, r) => Some (if neg : bool then SFopp v else v, big, r)
  | None => None
  end.

(** * pas_decode_real *)

(** The buffer is a C string: what is after a NUL is not read. *)
Definition pas_decode_real (src : list Z) : option spec_float :=
  let text := decode_trim src in
  let len := Z.of_nat (length text) in
  if (len <=? 0) || (512 <=? len) then None
  else
    let buf := until_nul (map chr text) in
    if match buf with c :: _ => isspace c | [] => false end then None
    else
      match c_strtod buf with
      | None => None
      | Some (v, big, r) => if negb (match r with [] => true | _ => false end) then None else if big then None else Some v
      end.

Definition decoded (s : string) : option spec_float := pas_decode_real (codes (chars s)).
Example decode_point : decoded " .5 " = Some (strtod (chars "0.5")) /\ decoded "5." = Some (strtod (chars "5.0")).
Proof. split; vm_compute; reflexivity. Qed.
Example decode_hex : decoded "0x1.8p1" = Some (strtod (chars "3.0")) /\ decoded "0X" = None.
Proof. split; vm_compute; reflexivity. Qed.
Example decode_range : decoded "1e400" = None /\ decoded "1e-400" = Some (S754_zero false) /\ decoded "-INF" = Some (S754_infinity true).
Proof. repeat split; vm_compute; reflexivity. Qed.
Example decode_garbage : decoded "1.5x" = None /\ decoded "1e" = None /\ decoded "+-1" = None /\ decoded "nan(12)" = Some S754_nan.
Proof. repeat split; vm_compute; reflexivity. Qed.

(** * The text of a REAL *)

Lemma span_by_digits s : span_by isdigit s = span_digits s.
Proof. induction s as [| c s IH]; [done |]. cbn. destruct (isdigit c); [by rewrite IH | done]. Qed.

Lemma two_digits_some n : two_digits n <> [].
Proof. unfold two_digits. destruct (_ <? 10); [done |]. apply (base_digits_nonempty 10). lia. Qed.

Lemma exponent_form_read ex x : exponent_form ex x -> exponent "e" ex = (x, []).
Proof.
  intros [[-> ->] | ->]; [done |]. unfold exponent, exponent_text. change (Ascii.eqb (tolower "e") "e") with true. cbv iota.
  destruct (two_digits_spec (Z.abs x) ltac:(lia)) as [Hd Hv].
  assert (exists c r, two_digits (Z.abs x) = c :: r) as (c & r & E).
  { destruct (two_digits (Z.abs x)) as [| c r] eqn:E; [| eauto]. by apply two_digits_some in E. }
  destruct (Z.ltb_spec x 0).
  - change (Ascii.eqb "-" "-") with true. cbv iota. rewrite span_by_digits, span_digits_all by exact Hd. rewrite E, <- E, Hv. f_equal. lia.
  - change (Ascii.eqb "+" "-") with false. change (Ascii.eqb "+" "+") with true. cbv iota.
    rewrite span_by_digits, span_digits_all by exact Hd. rewrite E, <- E, Hv. f_equal. lia.
Qed.

Lemma decimal_number_text ip fp point ex x : ip <> [] -> all_digits ip = true -> all_digits fp = true -> exponent_form ex x ->
  (point = "."%char :: fp \/ (point = [] /\ fp = [])) ->
  decimal_number (ip ++ point ++ ex) = Some (real_of_decimal (dec_value (ip ++ fp)) (x - Z.of_nat (length fp)), []).
Proof.
  intros Hne Hi Hf Hx Hp. pose proof (exponent_form_read ex x Hx) as Ex.
  assert (ex = [] \/ exists c r, ex = c :: r /\ isdigit c = false /\ Ascii.eqb c "." = false) as Hex by (destruct Hx as [[-> _] | ->]; [by left | right; eauto]).
  assert (forall a, all_digits a = true -> span_by isdigit (a ++ ex) = (a, ex)) as Hspan.
  { intros a Ha. rewrite span_by_digits. destruct Hex as [-> | (c & r & -> & Hc & _)]; [rewrite app_nil_r; by apply span_digits_all | by apply span_digits_stop]. }
  assert (mantissa isdigit (ip ++ point ++ ex) = Some (ip, fp, ex)) as Em.
  { unfold mantissa. destruct Hp as [-> | [-> ->]]; cbn [app].
    - rewrite span_by_digits, span_digits_stop by done. rewrite Ascii.eqb_refl, Hspan by done. by destruct ip.
    - rewrite Hspan by done. destruct Hex as [-> | (c & r & -> & _ & Hc)]; [by destruct ip |]. rewrite Hc. by destruct ip. }
  unfold decimal_number. by rewrite Em, Ex.
Qed.

(** The printed text of a positive double: digits, point, sign and exponent mark only. *)
Definition number_text (t : bytes) : Prop := exists c r, t = c :: r /\ isdigit c = true /\ forallb float_char r = true.

(** Digits, a point with digits, an exponent. *)
Lemma text17_shape m e : double m e -> exists ip fp point ex x, text17 m e = ip ++ point ++ ex /\ ip <> [] /\
  all_digits ip = true /\ all_digits fp = true /\ exponent_form ex x /\ (point = "."%char :: fp \/ (point = [] /\ fp = [])).
Proof.
  intros Hd. destruct (sci17 m e) as [q x] eqn:Hs.
  destruct (text17_parts m e q x Hd Hs) as (ip & fp & ex & y & -> & Hne & Hi & Hf & Hx & _).
  destruct (strip_zeros_spec fp) as [n Efp]. unfold with_fraction. set (fp' := strip_zeros fp) in *.
  assert (all_digits fp' = true) as Hf' by (rewrite Efp, all_digits_app in Hf; by apply andb_true_iff in Hf as [Hf _]).
  exists ip, fp', (match fp' with [] => [] | _ => "."%char :: fp' end), ex, y.
  destruct fp' as [| d r]; [split; [done | eauto 8] |]. rewrite <- app_assoc. split; [done | eauto 8].
Qed.

Lemma text17_number m e : double m e -> number_text (text17 m e) /\ decimal_number (text17 m e) = Some (S754_finite false m e, []).
Proof.
  intros Hd. pose proof (strtod_text17 m e Hd) as E. destruct (text17_shape m e Hd) as (ip & fp & point & ex & x & Et & Hne & Hi & Hf & Hx & Hp).
  rewrite Et, (strtod_exponent ip fp point ex x Hi Hf Hx Hp) in E.
  rewrite Et, (decimal_number_text ip fp point ex x Hne Hi Hf Hx Hp), E. split; [| done].
  destruct ip as [| c ip]; [done |]. cbn in Hi. apply andb_true_iff in Hi as [Hc Hi]. exists c, (ip ++ point ++ ex). split; [done |]. split; [done |].
  destruct (digits_unmarked _ Hi) as (_ & _ & H1), (digits_unmarked _ Hf) as (_ & _ & H2).
  assert (forallb float_char point = true) as Hpf by (destruct Hp as [-> | [-> _]]; [cbn; by rewrite H2 | done]).
  rewrite !forallb_app, H1, Hpf. cbn. destruct Hx as [[-> _] | ->]; [done | apply exponent_marks].
Qed.

Lemma digit_letters c : isdigit c = true -> Ascii.eqb "i" (tolower c) = false /\ Ascii.eqb "n" (tolower c) = false /\ Ascii.eqb "x" (tolower c) = false
  /\ isspace c = false /\ Ascii.eqb c "-" = false /\ Ascii.eqb c "+" = false.
Proof. destruct c as [[] [] [] [] [] [] [] []]; intros H; (discriminate H || done). Qed.
Lemma float_char_facts c : float_char c = true -> Ascii.eqb "x" (tolower c) = false /\ Ascii.eqb c "000" = false /\ is_pad (code c) = false.
Proof. destruct c as [[] [] [] [] [] [] [] []]; intros H; (discriminate H || done). Qed.

Lemma magnitude_number t v : number_text t -> decimal_number t = Some (v, []) -> isfinite v = true -> magnitude t = Some (v, false, []).
Proof.
  intros (c & r & -> & Hc & Hr) Hd Hf. destruct (digit_letters c Hc) as (Hi & Hn & _). unfold magnitude.
  assert (hex_number (c :: r) = None) as Hh.
  { unfold hex_number. cbn [chars list_ascii_of_string strip_prefix]. destruct (Ascii.eqb "0" (tolower c)); [| done].
    destruct r as [| d r]; [done |]. cbn in Hr. apply andb_true_iff in Hr as [Hd' _]. destruct (float_char_facts d Hd') as (-> & _). done. }
  cbn [chars list_ascii_of_string strip_prefix]. rewrite Hi, Hn, Hh, Hd, Hf. done.
Qed.

Lemma with_fraction_length ip fp : (length (with_fraction ip fp) <= length ip + 1 + length fp)%nat.
Proof.
  unfold with_fraction. destruct (strip_zeros_spec fp) as [n E]. assert (length (strip_zeros fp) <= length fp)%nat as H.
  { rewrite E at 2. rewrite length_app. lia. }
  destruct (strip_zeros fp) as [| c r]; [lia |]. rewrite length_app. cbn [length] in *. lia.
Qed.

Lemma text17_length m e : double m e -> (length (text17 m e) <= 40)%nat.
Proof.
  intros Hd. destruct (sci17 m e) as [q x] eqn:Hs. destruct (sci17_digits m e q x Hd Hs) as [Hq Hx]. unfold text17, textg. change (sci 17 m e) with (sci17 m e). rewrite Hs.
  pose proof (dec_bytes_count q 16 ltac:(lia) Hq) as Hl.
  assert (length (two_digits (Z.abs x)) <= 5)%nat as H2.
  { pose proof (Zs_length (Z.abs x) ltac:(lia)) as H. rewrite chars_Zs in H. destruct (Z.ltb_spec (Z.abs x) 0); [lia |].
    unfold two_digits. destruct (_ <? 10); cbn [length]; lia. }
  destruct ((x <? -4) || (17 <=? x)) eqn:Ex; [| apply orb_false_iff in Ex as [H1%Z.ltb_ge H3%Z.leb_gt]; destruct (Z.ltb_spec x 0)].
  - rewrite length_app. pose proof (with_fraction_length (firstn 1 (dec_bytes q)) (skipn 1 (dec_bytes q))) as H.
    rewrite length_firstn, length_skipn in H. unfold exponent_text. cbn [length]. lia.
  - etransitivity; [apply with_fraction_length |]. rewrite length_app, length_replicate. cbn [length]. lia.
  - etransitivity; [apply with_fraction_length |]. rewrite length_firstn, length_skipn. lia.
Qed.

(** ** Blanks around it *)

Lemma after_app p a b : Forall (fun c => p c = true) a -> after p (a ++ b) = after p b.
Proof. induction 1 as [| c a Hc _ IH]; [done |]. cbn. by rewrite Hc. Qed.

Lemma trim_padded k j t : Forall (fun c => is_pad c = false) t -> t <> [] -> decode_trim (replicate k 32 ++ t ++ replicate j 32) = t.
Proof.
  intros Ht Hne. assert (forall n, Forall (fun c => is_pad c = true) (replicate n 32)) as Hp by (intros n; by apply Forall_replicate).
  assert (forall l r, Forall (fun c => is_pad c = false) l -> l <> [] -> after is_pad (l ++ r) = l ++ r) as Hs.
  { intros [| c l] r Hl Hn; [done |]. apply Forall_cons_1 in Hl as [Hc _]. cbn. by rewrite Hc. }
  unfold decode_trim. rewrite after_app, Hs, reverse_app, reverse_replicate, after_app by done.
  rewrite <- (app_nil_r (reverse t)), Hs, app_nil_r, reverse_involutive; [done | by apply Forall_reverse |].
  intros E. apply Hne. rewrite <- (reverse_involutive t), E. done.
Qed.

Lemma strtod_number s t v : number_text t -> decimal_number t = Some (v, []) -> isfinite v = true ->
  c_strtod (sign_text s ++ t) = Some (with_sign s v, false, []).
Proof.
  intros Hn Hd Hf. pose proof Hn as (c & r & Et & Hc & _). destruct (digit_letters c Hc) as (_ & _ & _ & Hsp & Hm & Hp).
  pose proof (magnitude_number t v Hn Hd Hf) as Hmag. unfold c_strtod. rewrite Et in *. destruct s; cbn [sign_text app skip_spaces].
  - change (isspace "-") with false. cbv iota. rewrite Ascii.eqb_refl, Hmag. done.
  - rewrite Hsp, Hm, Hp, Hmag. done.
Qed.

(** A text of a number with a sign. *)
Lemma decode_number k j s t v : number_text t -> (length t <= 40)%nat -> decimal_number t = Some (v, []) -> isfinite v = true ->
  pas_decode_real (replicate k 32 ++ codes (sign_text s ++ t) ++ replicate j 32) = Some (with_sign s v).
Proof.
  intros Hn Hl Hd Hf. pose proof Hn as (c & r & Et & Hc & Hr). unfold pas_decode_real.
  assert (forallb float_char (sign_text s ++ t) = true) as Hall.
  { rewrite Et, forallb_app. cbn [forallb]. rewrite Hr. unfold float_char at 2. rewrite Hc. by destruct s. }
  assert (sign_text s ++ t <> []) as Hne by (rewrite Et; by destruct s).
  rewrite trim_padded.
  2:{ unfold codes. apply Forall_map, list.Forall_forall. intros d Hin%list_elem_of_In. rewrite forallb_forall in Hall. by apply float_char_facts, Hall. }
  2:{ unfold codes. intros E%map_eq_nil. done. }
  assert (length (codes (sign_text s ++ t)) = length (sign_text s) + length t)%nat as El by (unfold codes; by rewrite length_map, length_app).
  assert (length (sign_text s) <= 1)%nat as Hs1 by (destruct s; cbn; lia). assert (0 < length t)%nat as Ht0 by (rewrite Et; cbn; lia).
  rewrite El. destruct (Z.leb_spec (Z.of_nat (length (sign_text s) + length t)) 0); [lia |].
  destruct (Z.leb_spec 512 (Z.of_nat (length (sign_text s) + length t))); [lia |]. cbn [orb].
  assert (map chr (codes (sign_text s ++ t)) = sign_text s ++ t) as ->.
  { unfold codes. rewrite map_map, (map_ext _ (fun a => a)); [apply map_id | apply chr_code]. }
  assert (until_nul (sign_text s ++ t) = sign_text s ++ t) as ->.
  { clear -Hall. induction (sign_text s ++ t) as [| a l IH]; [done |]. cbn in Hall |- *. apply andb_true_iff in Hall as [Ha Hl].
    destruct (float_char_facts a Ha) as (_ & -> & _). by rewrite IH. }
  rewrite strtod_number with (v := v) by done. destruct (digit_letters c Hc) as (_ & _ & _ & Hsp & _). rewrite Et.
  destruct s; cbn [sign_text app]; [done |]. by rewrite Hsp.
Qed.

(** C32: a REAL survives its text: the 17 digits that are printed for any finite double,
    with any blanks around them, are decoded to that double, to the sign of zero. *)
Theorem decode_real_roundtrip v k j (Hv : valid_binary prec emax v = true) (Hf : isfinite v = true) :
  pas_decode_real (replicate k 32 ++ codes (chars (fmt_17g v)) ++ replicate j 32) = Some v.
Proof.
  destruct v as [s | s | | s m e]; try done.
  - assert (chars (fmt_17g (S754_zero s)) = sign_text s ++ chars "0") as -> by (by destruct s).
    rewrite (decode_number k j s (chars "0") (S754_zero false)); [by destruct s | by exists "0"%char, [] | cbn; lia | done | done].
  - apply bounded_double in Hv. rewrite fmt_17g_text. fold (sign_text s). destruct (text17_number m e Hv) as [Hn Hd].
    rewrite (decode_number k j s (text17 m e) (S754_finite false m e)); [by destruct s | done | by apply text17_length | done | done].
Qed.

Lemma decode_real_roundtrip_witness :
  pas_decode_real ([32; 32] ++ codes (chars "-1.7976931348623157e+308") ++ [32]) = Some (S754_finite true 9007199254740991 971).
Proof.
  assert (chars "-1.7976931348623157e+308" = chars (fmt_17g (S754_finite true 9007199254740991 971))) as -> by (vm_compute; reflexivity).
  apply (decode_real_roundtrip (S754_finite true 9007199254740991 971) 2 1); reflexivity.
Defined.

(** What follows a NUL in the text is ignored. *)
Lemma decode_real_nul : pas_decode_real (codes (chars "1") ++ [0] ++ codes (chars "junk")) = Some (strtod (chars "1.0")).
Proof. vm_compute. reflexivity. Qed.
