(* ===== verification/ReadReal.v ===== *)
(** READ of a REAL: [pas_read_real] of readq.c and [pas_fread_real] of fileops.c, on
    [scanf("%lf")] as the C standard has it: the input item is the longest sequence of
    characters that is a number or the beginning of one. A REAL that was written is read
    back, from standard input and from a TEXT file, and the character after it is left. *)

From Stdlib Require Import ZArith Ascii String SpecFloat Lia.
From stdpp Require Import base list strings gmap numbers.
From S2P Require Import Prelude Real CPrelude LexProps EmitText Files Readers ReaderProps FileProps StdInput RtErrors Json RealProps RealText DecodeReal.
#[local] Open Scope Z_scope.

(** * scanf *)

(** How far into a number a text is. [RWord rest k] is a word with [rest] to come; then
    the state is [k]. *)
Inductive rstate :=
  | RStart | RSigned
  | RZero | RInt | RPoint | RFrac | RMark | RMarkSign | RExp
  | RHex | RHexInt | RHexPoint | RHexFrac | RHMark
  | RWord (rest : bytes) (k : rstate)
  | RInf | RNan | RNanOpen | RDone.

Definition is_mark (m c : ascii) : bool := Ascii.eqb (tolower c) m.

(** After digits, a point or an exponent mark may come. *)
Definition after_int (c : ascii) : option rstate :=
  if isdigit c then Some RInt else if Ascii.eqb c "." then Some RFrac else if is_mark "e" c then Some RMark else None.

Definition real_start (c : ascii) : option rstate :=
  if isdigit c then Some (if Ascii.eqb c "0" then RZero else RInt)
  else if Ascii.eqb c "." then Some RPoint
  else if is_mark "i" c then Some (RWord (chars "nf") RInf)
  else if is_mark "n" c then Some (RWord (chars "an") RNan)
  else None.

Definition is_sign (c : ascii) : bool := Ascii.eqb c "-" || Ascii.eqb c "+".

Definition real_step (st : rstate) (c : ascii) : option rstate :=
  match st with
  | RStart => if is_sign c then Some RSigned else real_start c
  | RSigned => real_start c
  | RZero => if is_mark "x" c then Some RHex else after_int c
  | RInt => after_int c
  | RPoint => if isdigit c then Some RFrac else None
  | RFrac => if isdigit c then Some RFrac else if is_mark "e" c then Some RMark else None
  | RMark | RHMark => if isdigit c then Some RExp else if is_sign c then Some RMarkSign else None
  | RMarkSign | RExp => if isdigit c then Some RExp else None
  | RHex => if is_xdigit c then Some RHexInt else if Ascii.eqb c "." then Some RHexPoint else None
  | RHexInt => if is_xdigit c then Some RHexInt else if Ascii.eqb c "." then Some RHexFrac else if is_mark "p" c then Some RHMark else None
  | RHexPoint => if is_xdigit c then Some RHexFrac else None
  | RHexFrac => if is_xdigit c then Some RHexFrac else if is_mark "p" c then Some RHMark else None
  | RWord [] k => None
  | RWord [d] k => if is_mark d c then Some k else None
  | RWord (d :: rest) k => if is_mark d c then Some (RWord rest k) else None
  | RInf => if is_mark "i" c then Some (RWord (chars "nity") RDone) else None
  | RNan => if Ascii.eqb c "(" then Some RNanOpen else None
  | RNanOpen => if is_word_char c then Some RNanOpen else if Ascii.eqb c ")" then Some RDone else None
  | RDone => None
  end.

(** The text so far is a number. *)
Definition real_accepts (st : rstate) : bool :=
  match st with RZero | RInt | RFrac | RExp | RHexInt | RHexFrac | RInf | RNan | RDone => true | _ => false end.

Section Scan.
Context {S : Type} (src : source S).

(** The input item, its state and the first character after it. *)
Fixpoint scan_item (fuel : nat) (st : rstate) (item : bytes) (ch : Z) : ST S (bytes * rstate * Z) :=
  match fuel with
  | O => fail OutOfFuel
  | Datatypes.S f =>
      match (if ch =? EOF then None else real_step st (chr ch)) with
      | Some st' => let* ch' := next src in scan_item f st' (item ++ [chr ch]) ch'
      | None => ret (item, st, ch)
      end
  end.

(** [scanf("%lf")]: the value, or [None] when it does not return 1. *)
Definition scanf_lf (fuel : nat) : ST S (option spec_float) :=
  let* ch := skip_while src is_space fuel in
  let* (item, st, ch) := scan_item fuel RStart [] ch in
  do* unget src ch in
  ret (if real_accepts st then match c_strtod item with Some (v, _, _) => Some v | None => None end else None).

End Scan.

(** * The readers *)

Section Readers.
Context (H : host).

(** The stream itself. *)
Definition raw_source (h : nat) : source world :=
  mkSource world (fgetc H h) (fun ch => if ch =? EOF then ret tt else ungetc H ch h).

Definition pas_read_real : ST world spec_float :=
  let* fuel := fuel_for stdin in
  let* ch := skip_ws_except_nl (std_source H) fuel in
  if ch =? EOF then qdie "unexpected EOF while reading real"
  else
    do* unread H ch in
    let* fuel := fuel_for stdin in
    let* r := scanf_lf (raw_source stdin) fuel in
    match r with Some v => ret v | None => qdie "malformed real input" end.

(** [None]: a trapped error. *)
Definition pas_fread_real (f : option nat) : ST world (option spec_float) :=
  let* h := stream_for H f false in
  let* fuel := fuel_for h in
  let* ch := skip_ws_except_nl (fcb_source H f h) fuel in
  if ch =? EOF then die "runtime error: unexpected EOF while reading real"
  else
    do* ungetc H ch h in
    let* fuel := fuel_for h in
    let* r := scanf_lf (raw_source h) fuel in
    match r with Some v => ret (Some v) | None => trapped f "runtime error: malformed real input" end.

End Readers.

Definition read_text (s : string) : res spec_float :=
  match pas_read_real easy_host (input_world (codes (chars s))) with Ok (v, _) => Ok v | Err e => Err e end.
Example read_some : read_text " -2.5e1 x" = Ok (SFopp (strtod (chars "25.0"))) /\ read_text ".5" = Ok (strtod (chars "0.5")).
Proof. split; vm_compute; reflexivity. Qed.
Example read_partial : read_text "1e" = Err (RtAbort "runtime error: malformed real input") /\
  read_text "0x1.8p1" = Ok (strtod (chars "3.0")) /\ read_text "x" = Err (RtAbort "runtime error: malformed real input").
Proof. repeat split; vm_compute; reflexivity. Qed.

(** * A number in the text *)

Definition run_step (st : option rstate) (c : ascii) : option rstate := match st with Some st => real_step st c | None => None end.
Definition runs (st : rstate) (t : bytes) : option rstate := fold_left run_step t (Some st).

Lemma runs_none t : fold_left run_step t None = None.
Proof. by induction t. Qed.
Lemma runs_app st t u st' : runs st t = Some st' -> runs st (t ++ u) = runs st' u.
Proof. unfold runs. rewrite fold_left_app. by intros ->. Qed.
Lemma runs_cons st c t st' : real_step st c = Some st' -> runs st (c :: t) = runs st' t.
Proof. unfold runs. cbn. by intros ->. Qed.
Lemma runs_prefix st t u st' : runs st (t ++ u) = Some st' -> exists st1, runs st t = Some st1 /\ runs st1 u = Some st'.
Proof.
  unfold runs. rewrite fold_left_app. destruct (fold_left run_step t (Some st)) as [st1 |]; [eauto | by rewrite runs_none].
Qed.

(** Digits keep these states. *)
Lemma runs_digits st t : st = RInt \/ st = RFrac \/ st = RExp -> all_digits t = true -> runs st t = Some st.
Proof.
  intros Hst. induction t as [| c t IH]; [done |]. cbn [all_digits forallb]. intros [Hc Ht]%andb_true_iff.
  rewrite (runs_cons st c t st); [by apply IH |]. destruct Hst as [-> | [-> | ->]]; cbn [real_step]; unfold after_int; by rewrite Hc.
Qed.

(** The states in which a printed number can end. *)
Definition ends_number (st : rstate) : Prop := st = RZero \/ st = RInt \/ st = RFrac \/ st = RExp.

Lemma runs_int ip : ip <> [] -> all_digits ip = true -> exists st, runs RSigned ip = Some st /\ (st = RZero \/ st = RInt).
Proof.
  destruct ip as [| c ip]; [done |]. cbn [all_digits forallb]. intros _ [Hc Hi]%andb_true_iff.
  rewrite (runs_cons RSigned c ip (if Ascii.eqb c "0" then RZero else RInt)) by (cbn; unfold real_start; by rewrite Hc).
  destruct (Ascii.eqb c "0"); [| exists RInt; split; [apply runs_digits; auto | auto]].
  destruct ip as [| d ip]; [exists RZero; auto |]. cbn [forallb] in Hi. apply andb_true_iff in Hi as [Hd Hi].
  exists RInt. split; [| auto]. rewrite (runs_cons RZero d ip RInt); [apply runs_digits; auto |].
  cbn [real_step]. unfold is_mark, after_int. destruct (digit_letters d Hd) as (_ & _ & Hx & _). rewrite Hd. by rewrite Ascii.eqb_sym, Hx.
Qed.

Lemma runs_exponent st ex x : st = RZero \/ st = RInt \/ st = RFrac -> exponent_form ex x -> exists st', runs st ex = Some st' /\ ends_number st'.
Proof.
  intros Hst [[-> ->] | ->]; [exists st; split; [done | unfold ends_number; tauto] |].
  assert (runs st ("e"%char :: exponent_text x) = runs RMark (exponent_text x)) as ->
    by (apply runs_cons; by destruct Hst as [-> | [-> | ->]]).
  unfold exponent_text. rewrite (runs_cons RMark _ _ RMarkSign) by (by destruct (x <? 0)).
  destruct (two_digits_spec (Z.abs x) ltac:(lia)) as [Hd _].
  destruct (two_digits (Z.abs x)) as [| c r] eqn:E; [exfalso; revert E; apply two_digits_some |].
  cbn [all_digits forallb] in Hd. apply andb_true_iff in Hd as [Hc Hr]. exists RExp. split; [| unfold ends_number; tauto].
  rewrite (runs_cons RMarkSign c r RExp); [apply runs_digits; auto |]. cbn. by rewrite Hc.
Qed.

Lemma runs_text17 m e : double m e -> exists st, runs RSigned (text17 m e) = Some st /\ ends_number st.
Proof.
  intros Hd. destruct (text17_shape m e Hd) as (ip & fp & point & ex & x & -> & Hne & Hi & Hf & Hx & Hp).
  destruct (runs_int ip Hne Hi) as (st & E & Hst). rewrite (runs_app _ _ _ _ E).
  destruct Hp as [-> | [-> _]]; [| cbn [app]; eapply runs_exponent; [tauto | done]]. cbn [app].
  rewrite (runs_cons st "." _ RFrac) by (by destruct Hst as [-> | ->]).
  rewrite (runs_app RFrac fp ex RFrac) by (apply runs_digits; auto). eapply runs_exponent; [tauto | done].
Qed.

(** The text of a finite double, taken apart. *)
Lemma printed_number v : valid_binary prec emax v = true -> isfinite v = true -> exists s t u st,
  chars (fmt_17g v) = sign_text s ++ t /\ number_text t /\ decimal_number t = Some (u, []) /\ isfinite u = true /\ with_sign s u = v /\
  runs RSigned t = Some st /\ ends_number st.
Proof.
  intros Hv Hf. destruct v as [s | s | | s m e]; try done.
  - exists s, (chars "0"), (S754_zero false), RZero. split; [by destruct s |]. split; [by exists "0"%char, [] |].
    split; [done |]. split; [done |]. split; [by destruct s |]. split; [done | by left].
  - apply bounded_double in Hv. destruct (text17_number m e Hv) as [Hn Hd], (runs_text17 m e Hv) as (st & Hr & Hst).
    exists s, (text17 m e), (S754_finite false m e), st. rewrite fmt_17g_text. split; [done |]. split; [done |]. split; [done |]. split; [done |].
    split; [by destruct s | done].
Qed.

(** A character that no number goes on with. *)
Definition stop_char (c : Z) : bool :=
  negb (isdigit (chr c)) && negb (Ascii.eqb (chr c) ".") && negb (is_mark "e" (chr c)) && negb (is_mark "x" (chr c)).

Lemma stop_step st c : ends_number st -> stop_char c = true -> real_step st (chr c) = None.
Proof.
  unfold stop_char. intros Hst [[[Hd%negb_true_iff Hp%negb_true_iff]%andb_true_iff He%negb_true_iff]%andb_true_iff Hx%negb_true_iff]%andb_true_iff.
  destruct Hst as [-> | [-> | [-> | ->]]]; cbn [real_step]; unfold after_int; by rewrite ?Hx, Hd, ?Hp, ?He.
Qed.

Lemma number_head s t : number_text t -> exists c r, sign_text s ++ t = c :: r /\ is_space (code c) = false.
Proof.
  intros (c & r & -> & Hc & _). destruct s; [by exists "-"%char, (c :: r) |]. exists c, r. split; [done |].
  destruct c as [[] [] [] [] [] [] [] []]; (discriminate Hc || done).
Qed.

Section Scanned.
Context {S : Type} (src : source S) (V P : S -> list Z -> Prop) {Hsrc : CharSource src V P}.

Lemma scan_item_spec t : forall fuel s st st' item ch rest, (length t < fuel)%nat -> runs st t = Some st' ->
  match rest with c :: _ => real_step st' (chr c) = None | [] => True end -> at_char V P s ch (codes t ++ rest) ->
  exists ch' s', scan_item src fuel st item ch s = Ok (item ++ t, st', ch', s') /\ at_char V P s' ch' rest.
Proof using Hsrc.
  induction t as [| c t IH]; intros fuel s st st' item ch rest Hl Hr Hrest Hat; (destruct fuel as [| f]; [lia |]); cbn [scan_item].
  - injection Hr as ->. cbn [codes map app] in Hat. exists ch, s. rewrite app_nil_r. split; [| done].
    destruct rest as [| d rest]; [destruct Hat as [-> _]; done |]. destruct Hat as (-> & Hd & _). rewrite Hrest. by destruct (d =? EOF).
  - unfold codes in Hat. cbn [map app] in Hat. destruct Hat as (-> & Hc & HP). destruct (Z.eqb_spec (code c) EOF) as [E | _]; [unfold EOF in E; lia |].
    rewrite chr_code. destruct (real_step st c) as [st1 |] eqn:E1; [| unfold runs in Hr; cbn in Hr; rewrite E1, runs_none in Hr; done].
    rewrite (runs_cons _ _ _ _ E1) in Hr. destruct (src_next s _ (src_room _ _ HP)) as (ch' & s1 & En & Hat1). rewrite (bind_ok _ _ _ _ _ En).
    destruct (IH f s1 st1 st' (item ++ [c]) ch' rest) as (ch2 & s2 & E & Hat2); [cbn [length] in Hl; lia | done | done | done |].
    exists ch2, s2. rewrite E, <- app_assoc. done.
Qed.

(** [scanf] of a printed number. *)
Lemma scanf_spec fuel s sp v rest : valid_binary prec emax v = true -> isfinite v = true ->
  Forall (fun c => is_space c = true) sp -> match rest with c :: _ => stop_char c = true | [] => True end ->
  V s (sp ++ codes (chars (fmt_17g v)) ++ rest) -> (length (sp ++ codes (chars (fmt_17g v)) ++ rest) < fuel)%nat ->
  exists s', scanf_lf src fuel s = Ok (Some v, s') /\ V s' rest.
Proof using Hsrc.
  intros Hv Hf Hsp Hrest Hview Hl. destruct (printed_number v Hv Hf) as (sg & t & u & st & Et & Hn & Hd & Hu & Hs & Hr & Hst). rewrite Et in *.
  destruct (number_head sg t Hn) as (c & r & Ec & Hc).
  unfold scanf_lf. destruct (skip_while_spec src V P is_space fuel s _ Hview Hl) as (ch & s1 & E1 & Hat). rewrite (bind_ok _ _ _ _ _ E1).
  rewrite after_all in Hat by done. assert (after is_space (codes (sign_text sg ++ t) ++ rest) = codes (sign_text sg ++ t) ++ rest) as Ea.
  { rewrite Ec. unfold codes. cbn [map app after]. by rewrite Hc. }
  rewrite Ea in Hat. assert (runs RStart (sign_text sg ++ t) = Some st) as Hr'.
  { destruct sg; [done |]. destruct Hn as (d & q & -> & Hdd & _). cbn [sign_text app]. revert Hr. unfold runs. cbn [fold_left run_step real_step].
    unfold is_sign. destruct (digit_letters d Hdd) as (_ & _ & _ & _ & -> & ->). done. }
  destruct (scan_item_spec (sign_text sg ++ t) fuel s1 RStart st [] ch rest) as (ch' & s2 & E2 & Hat2).
  { unfold codes in Hl. rewrite !length_app, length_map, length_app in Hl. rewrite length_app. lia. }
  { done. }
  { destruct rest as [| d rest]; [done |]. by apply stop_step. }
  { done. }
  rewrite (bind_ok _ _ _ _ _ E2). destruct (src_unget s2 ch' rest Hat2) as (s3 & E3 & Hv3). rewrite (bind_ok _ _ _ _ _ E3).
  exists s3. split; [| done]. cbn [app]. rewrite (strtod_number sg t u Hn Hd Hu), Hs. unfold ret.
  by destruct Hst as [-> | [-> | [-> | ->]]].
Qed.

End Scanned.

(** * Streams *)

Section ReadReals.
Context (H : host).
Hypothesis Hread : forall i p, read_ok H i p = true.
Hypothesis Hpush : (0 < pushback H)%nat.

(** What is left of the stream [h] of the world [w0]; nothing else of it changes. *)
Definition raw_view (w0 : world) (h : nat) (w : world) (r : list Z) : Prop :=
  exists s, w = put_stream h s w0 /\ Forall byte (avail w0 s) /\ (length (s_back s) <= pushback H)%nat /\ r = avail w0 s.
Definition raw_room (w0 : world) (h : nat) (w : world) (r : list Z) : Prop :=
  exists s, w = put_stream h s w0 /\ Forall byte (avail w0 s) /\ (length (s_back s) < pushback H)%nat /\ r = avail w0 s.

#[export] Instance raw_is_source w0 h : CharSource (raw_source H h) (raw_view w0 h) (raw_room w0 h).
Proof using Hread Hpush.
  split.
  - intros w r (s & -> & Hb & Hl & ->). cbn [next raw_source].
    destruct (fgetc_spec H Hread (put_stream h s w0) h s (lookup_insert_eq _ _ _)) as (s' & Hi & Hl' & Hg).
    change (avail (put_stream h s w0)) with (avail w0) in Hg. rewrite put_stream_twice in Hg.
    destruct (avail w0 s) as [| c l] eqn:Ea.
    + destruct Hg as (E & Ha & _). eexists _, _. split; [exact E |]. split; [done |]. exists s'. rewrite Ha. split; [done |]. split; [done |]. split; [lia | done].
    + destruct Hg as (E & Ha). eexists _, _. split; [exact E |]. apply Forall_cons_1 in Hb as [Hc Hb]. split; [done |]. split; [done |].
      exists s'. rewrite Ha. split; [done |]. split; [done |]. split; [lia | done].
  - intros w ch r. cbn [unget raw_source]. destruct r as [| c r]; cbn [at_char]; [intros [-> Hv]; by exists w |].
    intros (-> & Hc & s & -> & Hb & Hl & ->). destruct (Z.eqb_spec c EOF) as [E | _]; [unfold EOF in E; lia |].
    destruct (ungetc_spec H Hpush (put_stream h s w0) h s c (lookup_insert_eq _ _ _) Hl Hc) as (s' & E & Ha & _ & Hl').
    change (avail (put_stream h s w0)) with (avail w0) in Ha. rewrite put_stream_twice in E. eexists. split; [exact E |].
    exists s'. rewrite Ha. split; [done |]. split; [by constructor |]. split; [lia | done].
  - intros w r (s & -> & Hb & Hl & ->). exists s. split; [done |]. split; [done |]. split; [lia | done].
Qed.

(** The text of a REAL between blanks and a character that ends it. *)
Definition real_text (sp : list Z) (v : spec_float) (rest : list Z) : list Z := sp ++ codes (chars (fmt_17g v)) ++ rest.
Definition real_text_ok (sp : list Z) (v : spec_float) (rest : list Z) : Prop :=
  valid_binary prec emax v = true /\ isfinite v = true /\ Forall (fun c => is_space c = true) sp /\
  match rest with c :: _ => stop_char c = true | [] => True end.

(** After the first blanks the text still is one. *)
Lemma real_text_skip sp v rest : real_text_ok sp v rest -> exists sp' c r,
  after (fun c => is_space c && negb (c =? LF)) (real_text sp v rest) = real_text sp' v rest /\ real_text sp' v rest = c :: r /\
  real_text_ok sp' v rest /\ c <> CR.
Proof using Type.
  intros (Hv & Hf & Hsp & Hr). unfold real_text. induction Hsp as [| c sp Hc Hsp IH].
  - destruct (printed_number v Hv Hf) as (sg & t & u & st & Et & Hn & _). destruct (number_head sg t Hn) as (c & r & Ec & Hc). rewrite Et, Ec.
    exists [], (code c), (codes r ++ rest). unfold codes. cbn [app map after]. rewrite Hc. split; [done |]. split; [done |]. split; [done |].
    intros E. rewrite E in Hc. done.
  - cbn [app after]. rewrite Hc. destruct (Z.eqb_spec c LF) as [-> | Hne]; cbn [negb andb]; [| exact IH].
    exists (LF :: sp), LF, (sp ++ codes (chars (fmt_17g v)) ++ rest). split; [done |]. split; [done |]. split; [| done].
    split; [done |]. split; [done |]. split; [by constructor | done].
Qed.

(** Standard input without a held component is its stream. *)
Lemma std_raw w r : std_room H w r -> exists s, raw_room w stdin w r /\ streams w !! stdin = Some s.
Proof using Type.
  intros (s & Hs & Hb & Hq & Hl & ->). exists s. split; [| done]. exists s. split; [| done].
  unfold put_stream. rewrite insert_id by done. by destruct w.
Qed.

Lemma raw_fuel w0 h w r : raw_view w0 h w r -> exists n, fuel_for h w = Ok (n, w) /\ (length r < n)%nat.
Proof using Hpush.
  intros (s & -> & _ & _ & ->). unfold fuel_for. rewrite (bind_ok _ _ _ _ _ (stream_ok _ _ _ (lookup_insert_eq _ _ _))).
  eexists. split; [reflexivity |]. unfold avail. rewrite length_app, length_drop. cbn [inodes put_stream]. lia.
Qed.

(** [scanf] from the stream. *)
Lemma raw_scanf w0 h w sp v rest : raw_view w0 h w (real_text sp v rest) -> real_text_ok sp v rest ->
  exists n w', fuel_for h w = Ok (n, w) /\ scanf_lf (raw_source H h) n w = Ok (Some v, w') /\ raw_view w0 h w' rest.
Proof using Hread Hpush.
  intros Hw (Hv & Hf & Hsp & Hr). destruct (raw_fuel w0 h w _ Hw) as (n & En & Hn).
  destruct (scanf_spec (raw_source H h) (raw_view w0 h) (raw_room w0 h) n w sp v rest Hv Hf Hsp Hr Hw Hn) as (w' & E & Hw'). eauto.
Qed.

Lemma std_real w sp v rest : std_view H w (real_text sp v rest) -> real_text_ok sp v rest ->
  exists w', pas_read_real H w = Ok (v, w') /\ std_view H w' rest.
Proof using Hread Hpush.
  intros Hv Hok. unfold pas_read_real. destruct (std_fuel H w _ Hv) as (n & En & Hn). rewrite (bind_ok _ _ _ _ _ En).
  pose proof (std_is_source H Hread Hpush) as Hstd. unfold skip_ws_except_nl.
  destruct (skip_while_spec (std_source H) (std_view H) (std_room H) (fun c => is_space c && negb (c =? LF)) n w _ Hv Hn) as (ch & w1 & E1 & Hat).
  rewrite (bind_ok _ _ _ _ _ E1). destruct (real_text_skip sp v rest Hok) as (sp' & c & r & Ea & Ec & Hok' & _). rewrite Ea, Ec in Hat.
  destruct Hat as (-> & Hc & Hroom). destruct (Z.eqb_spec c EOF) as [E | _]; [unfold EOF in E; lia |].
  destruct (std_raw w1 r Hroom) as (s & Hraw & _).
  assert (at_char (raw_view w1 stdin) (raw_room w1 stdin) w1 c (c :: r)) as Hat by done.
  destruct (src_unget w1 c (c :: r) Hat) as (w2 & E2 & Hw2). change (unget (raw_source H stdin) c) with (unread H c) in E2. rewrite (bind_ok _ _ _ _ _ E2).
  rewrite <- Ec in Hw2. destruct (raw_scanf w1 stdin w2 sp' v rest Hw2 Hok') as (n2 & w3 & En2 & E3 & s3 & -> & Hb3 & Hl3 & ->).
  rewrite (bind_ok _ _ _ _ _ En2), (bind_ok _ _ _ _ _ E3). eexists. split; [reflexivity |].
  destruct Hroom as (s0 & _ & _ & Hq & _). exists s3. split; [apply lookup_insert_eq |].
  change (avail (put_stream stdin s3 w1)) with (avail w1). split; [done |]. left. split; [by apply quiet_stream | done].
Qed.

(** ** TEXT files *)

(** A component that waits in the buffer leaves room for a character to be taken back. *)
Definition roomy (w : world) (f h : nat) : Prop :=
  exists fc s, fcbs w !! f = Some fc /\ streams w !! h = Some s /\ (is_eof fc = true \/ is_pending fc = true \/ (length (s_back s) < pushback H)%nat).


Lemma next_room t w f h r ch w' : text_view H t f h w r -> roomy w f h -> fcb_next_char H (Some f) h w = Ok (ch, w') ->
  ch <> CR -> ch <> EOF -> exists s', streams w' !! h = Some s' /\ (length (s_back s') < pushback H)%nat.
Proof using Hread Hpush.
  intros (fc & s & Hta & ->) (fc' & s' & Hf & Hs & Hr) E Hcr Heof. pose proof (ta_fcb _ _ _ _ _ _ _ Hta) as Hf'.
  pose proof (ta_stream _ _ _ _ _ _ _ Hta) as Hs'. simplify_eq. unfold fcb_next_char in E. rewrite (run_deref _ _ _ _ Hf), (reads_ok _ _ _ _ _ _ _ Hta) in E.
  cbn [negb] in E. destruct (is_eof fc'); [injection E as <- <-; done |]. rewrite (ta_text _ _ _ _ _ _ _ Hta) in E. change (STRUCT_TEXT =? STRUCT_TEXT) with true in E.
  destruct (is_pending fc'); cbn [negb andb] in E.
  - destruct (text_getc_spec H Hread Hpush w h s' Hs (ta_bytes _ _ _ _ _ _ _ Hta) (ta_back _ _ _ _ _ _ _ Hta)) as (s2 & Eg & _ & _ & _ & _ & Hroom).
    rewrite (bind_ok _ _ _ _ _ Eg) in E. revert E Hroom. generalize (front (fold_crlf (avail w s'))). intros c E Hroom.
    destruct (Z.eqb_spec c EOF) as [Ec | Hc]; cbn match in E.
    + unfold set_mode_flags in E. rewrite (run_upd _ f fc') in E by done. injection E as E0 _. congruence.
    + injection E as E0 <-. exists s2. split; [apply lookup_insert_eq |]. apply Hroom. by rewrite E0.
  - destruct Hr as [? | [? | Hr]]; [done | done |]. exists s'. split; [| done].
    destruct (ta_buf _ _ _ _ _ _ _ Hta) as (b & q & Hbuf & _). unfold first_byte in E. rewrite Hbuf in E. rewrite (bind_ok (ret b) _ w b w) in E by done.
    unfold set_mode_flags in E. rewrite (run_upd _ _ _ _ _ Hf), (run_upd _ _ _ _ _ (fcb_put _ _ _)) in E. injection E as _ <-. done.
Qed.

(** Skipping blanks, CR among them, leaves room to take the next character back. *)
Lemma skip_room t f h p : p CR = true -> forall fuel w r, text_view H t f h w r -> roomy w f h -> (length r < fuel)%nat ->
  exists ch w', skip_while (fcb_source H (Some f) h) p fuel w = Ok (ch, w') /\ at_char (text_view H t f h) (text_room H t f h) w' ch (after p r) /\
    (ch <> EOF -> exists s', streams w' !! h = Some s' /\ (length (s_back s') < pushback H)%nat).
Proof using Hread Hpush.
  intros Hcr. induction fuel as [| n IH]; intros w r Hv Hro Hl; [lia |]. cbn [skip_while].
  destruct (text_next H Hread Hpush t f h w r Hv) as (ch & w1 & En & Hat). change (next (fcb_source H (Some f) h)) with (fcb_next_char H (Some f) h).
  rewrite (bind_ok _ _ _ _ _ En). pose proof (next_room t w f h r ch w1 Hv Hro En) as Hroom. destruct r as [| c r]; cbn [after].
  - destruct Hat as [-> Hv1]. exists EOF, w1. done.
  - destruct Hat as (-> & Hc & HP). destruct (Z.eqb_spec c EOF) as [E | Hne]; [unfold EOF in E; lia |]. cbn [negb andb].
    destruct (p c) eqn:Ep.
    + apply IH; [by apply text_room_view | | cbn [length] in Hl; lia]. destruct HP as (fc & s & Hta & _ & Hp & _).
      exists fc, s. split; [apply (ta_fcb _ _ _ _ _ _ _ Hta) |]. split; [apply (ta_stream _ _ _ _ _ _ _ Hta) | auto].
    + exists c, w1. split; [done |]. split; [done |]. intros _. apply Hroom; [intros -> | done]. congruence.
Qed.

(** ** CR LF in the text *)

Lemma fold_cons l c x : fold_crlf l = c :: x -> exists p l', l = p ++ l' /\ fold_crlf l' = x /\ (p = [c] \/ (c = LF /\ p = [CR; LF])).
Proof using Type.
  destruct l as [| a l]; [done |]. cbn [fold_crlf]. destruct (Z.eqb_spec a CR) as [-> | Ha].
  - destruct l as [| d l]; [intros [= <- <-]; exists [CR], []; auto |]. destruct (Z.eqb_spec d LF) as [-> | Hd]; intros [= <- <-].
    + exists [CR; LF], l. auto.
    + exists [CR], (d :: l). auto.
  - intros [= <- <-]. exists [a], l. auto.
Qed.

Lemma fold_text t : Forall (fun c => c <> LF) t -> forall l x, fold_crlf l = t ++ x -> exists l', l = t ++ l' /\ fold_crlf l' = x.
Proof using Type.
  induction 1 as [| c t Hc _ IH]; intros l x E; [eauto |]. destruct (fold_cons _ _ _ E) as (p & l1 & -> & E1 & Hp).
  destruct (IH l1 x E1) as (l' & -> & E'). destruct Hp as [-> | [-> _]]; [eauto | done].
Qed.

Lemma fold_spaces sp : Forall (fun c => is_space c = true) sp -> forall l x, fold_crlf l = sp ++ x ->
  exists sp' l', l = sp' ++ l' /\ fold_crlf l' = x /\ Forall (fun c => is_space c = true) sp'.
Proof using Type.
  induction 1 as [| c sp Hc _ IH]; intros l x E; [exists [], l; auto |]. destruct (fold_cons _ _ _ E) as (p & l1 & -> & E1 & Hp).
  destruct (IH l1 x E1) as (sp' & l' & -> & E' & Hsp). exists (p ++ sp'), l'. rewrite app_assoc. split; [done |]. split; [done |].
  apply Forall_app. split; [| done]. destruct Hp as [-> | [-> ->]]; repeat constructor; done.
Qed.

Lemma fold_real l sp v rest : fold_crlf l = real_text sp v rest -> real_text_ok sp v rest ->
  exists sp' rest', l = real_text sp' v rest' /\ real_text_ok sp' v rest' /\ fold_crlf rest' = rest.
Proof using Type.
  intros E (Hv & Hf & Hsp & Hr). destruct (fold_spaces sp Hsp l _ E) as (sp' & l1 & -> & E1 & Hsp').
  assert (Forall (fun c => c <> LF) (codes (chars (fmt_17g v)))) as Hlf.
  { unfold codes. apply Forall_map, list.Forall_forall. intros c Hc%list_elem_of_In E0. pose proof (plain_fmt v) as Hp. unfold plain in Hp.
    rewrite forallb_forall in Hp. specialize (Hp c Hc). apply (f_equal chr) in E0. rewrite chr_code in E0. rewrite E0 in Hp. done. }
  destruct (fold_text _ Hlf l1 rest E1) as (rest' & -> & E2). exists sp', rest'. split; [done |]. split; [| done].
  split; [done |]. split; [done |]. split; [done |]. destruct rest' as [| c r]; [done |]. destruct rest as [| d rest]; [by apply fold_nil in E2 |].
  destruct (fold_cons _ _ _ E2) as (p & l' & E3 & _ & [-> | [-> ->]]); injection E3 as -> _; done.
Qed.

Lemma file_real t f h w sp v rest : text_view H t f h w (real_text sp v rest) -> roomy w f h -> real_text_ok sp v rest ->
  exists w', pas_fread_real H (Some f) w = Ok (Some v, w') /\ text_view H t f h w' rest /\ roomy w' f h.
Proof using Hread Hpush.
  intros Hv Hro Hok. unfold pas_fread_real. rewrite (bind_ok _ _ _ _ _ (stream_for_text H t f h w _ Hv)).
  destruct (fuel_text H t f h w _ Hv) as (n & En & Hn). rewrite (bind_ok _ _ _ _ _ En). unfold skip_ws_except_nl.
  destruct (skip_room t f h (fun c => is_space c && negb (c =? LF)) eq_refl n w _ Hv Hro Hn) as (ch & w1 & E1 & Hat & Hroom).
  rewrite (bind_ok _ _ _ _ _ E1). destruct (real_text_skip sp v rest Hok) as (sp' & c & r & Ea & Ec & Hok' & Hcr). rewrite Ea, Ec in Hat.
  destruct Hat as (-> & Hc & fc & s & Hta & He & Hp & ->). destruct (Z.eqb_spec c EOF) as [E | Hne]; [unfold EOF in E; lia |].
  pose proof (ta_stream _ _ _ _ _ _ _ Hta) as Hs. destruct (Hroom Hne) as (s0 & Hs0 & Hl). simplify_eq.
  destruct (ungetc_spec H Hpush w1 h s c Hs Hl Hc) as (s2 & E2 & Ha & _ & Hl2). rewrite (bind_ok _ _ _ _ _ E2).
  assert (fold_crlf (c :: avail w1 s) = real_text sp' v rest) as Ef.
  { rewrite Ec. cbn [fold_crlf]. by destruct (Z.eqb_spec c CR). }
  destruct (fold_real _ _ _ _ Ef Hok') as (sp2 & rest2 & E3 & Hok2 & Er).
  assert (raw_view w1 h (put_stream h s2 w1) (real_text sp2 v rest2)) as Hraw.
  { exists s2. rewrite Ha. split; [done |]. split; [constructor; [done | apply (ta_bytes _ _ _ _ _ _ _ Hta)] |]. split; [lia | done]. }
  destruct (raw_scanf w1 h _ sp2 v rest2 Hraw Hok2) as (n2 & w3 & En2 & E4 & s3 & -> & Hb3 & Hl3 & Ea3).
  rewrite (bind_ok _ _ _ _ _ En2), (bind_ok _ _ _ _ _ E4). eexists. split; [reflexivity |].
  pose proof (text_at_stream H t w1 f h fc s s3 Hta Hb3 Hl3) as Hta3. split.
  - exists fc, s3. split; [done |]. unfold left_of. rewrite He, Hp. change (avail (put_stream h s3 w1)) with (avail w1). by rewrite <- Ea3, Er.
  - exists fc, s3. split; [apply (ta_fcb _ _ _ _ _ _ _ Hta3) |]. split; [apply lookup_insert_eq | auto].
Qed.

End ReadReals.

(** C27: a REAL that was written is read back. The 17 digits of any finite double, with any
    blanks and line ends before them and a character that ends a number (or the end of the
    text) after them, are read to that double, to the sign of zero, from standard input as
    from a TEXT file, also when INPUT^ or F^ holds the first character and when lines end
    in CR LF; the character after the number is the next to be read. *)
Theorem read_real_roundtrip H w sp v rest (Hread : forall i p, read_ok H i p = true) (Hpush : (0 < pushback H)%nat)
    (Hok : real_text_ok sp v rest) :
  (std_view H w (real_text sp v rest) -> exists w', pas_read_real H w = Ok (v, w') /\ std_view H w' rest) /\
  (forall t f h, text_view H t f h w (real_text sp v rest) -> roomy H w f h ->
    exists w', pas_fread_real H (Some f) w = Ok (Some v, w') /\ text_view H t f h w' rest /\ roomy H w' f h).
Proof. split; [intros Hv; by apply std_real with sp | intros t f h Hv Hr; by apply file_real with sp]. Qed.

(** A TEXT file that holds [text], just opened. *)
Definition reading_fcb : fcb :=
  mkFcb 1 STRUCT_TEXT false (Z.lor (Z.lor MODE_READ MODE_PENDING) MODE_OWNS_HANDLE) (Some [0]) (Some 5%nat) None 0 0 None 0.
Definition reading_world (text : list Z) : world :=
  mkWorld {[7%nat := text]} ∅ {[5%nat := mkStream 7 0 [] false false]} {[3%nat := reading_fcb]} None 10.

Lemma reading_view text : Forall byte text -> text_view easy_host 0 3 5 (reading_world text) (fold_crlf text) /\ roomy easy_host (reading_world text) 3 5.
Proof.
  intros Hb. split.
  - exists reading_fcb, (mkStream 7 0 [] false false). split; [| reflexivity].
    constructor; [reflexivity | reflexivity | reflexivity | reflexivity | reflexivity | discriminate | discriminate | | reflexivity | exact Hb | cbn; lia].
    exists 0, []. split; [reflexivity | unfold byte; lia].
  - exists reading_fcb, (mkStream 7 0 [] false false). split; [reflexivity |]. split; [reflexivity |]. right. left. reflexivity.
Qed.

Lemma read_real_roundtrip_witness :
  (exists w', pas_read_real easy_host (input_world (codes (chars " -0.10000000000000001 ;"))) = Ok (SFopp (strtod (chars "0.1")), w')) /\
  (exists w', pas_fread_real easy_host (Some 3%nat) (reading_world ([13; 10] ++ codes (chars "-0.10000000000000001") ++ [13; 10])) =
    Ok (Some (SFopp (strtod (chars "0.1"))), w')).
Proof.
  set (v := SFopp (strtod (chars "0.1"))). vm_compute in v.
  assert (codes (chars "-0.10000000000000001") = codes (chars (fmt_17g v))) as Et by (vm_compute; reflexivity).
  assert (forall sp rest, Forall (fun c => is_space c = true) sp -> match rest with c :: _ => stop_char c = true | [] => True end -> real_text_ok sp v rest) as Hok.
  { intros sp rest H1 H2. split; [reflexivity |]. split; [reflexivity |]. split; done. }
  split.
  - destruct (read_real_roundtrip easy_host (input_world (codes (chars " -0.10000000000000001 ;"))) [32] v [32; 59]) as [Hstd _];
      [done | cbn; lia | apply Hok; [by repeat constructor | done] |].
    destruct Hstd as (w' & E & _); [| eauto]. unfold real_text. rewrite <- Et. apply input_view. vm_compute. repeat constructor; discriminate.
  - destruct (read_real_roundtrip easy_host (reading_world ([13; 10] ++ codes (chars "-0.10000000000000001") ++ [13; 10])) [10] v [10]) as [_ Hfile];
      [done | cbn; lia | apply Hok; [by repeat constructor | done] |].
    destruct (reading_view ([13; 10] ++ codes (chars "-0.10000000000000001") ++ [13; 10])) as [Hv Hr];
      [vm_compute; repeat constructor; discriminate |].
    destruct (Hfile 0 3%nat 5%nat) as (w' & E & _); [| exact Hr | eauto]. unfold real_text. rewrite <- Et. exact Hv.
Defined.
