(* ===== verification/FileInv.v ===== *)
(** The INITCK state of file buffers. The leaves of a tracked buffer count as
    initialized while the buffer holds a component (in reading, not at the end, and not
    waiting for the next fill), and where the program has written to F^ since the last
    transition. Every operation of fileops.c either leaves the leaves and what the buffer
    holds as they are or sets all of them. *)

From Stdlib Require Import ZArith Ascii String Lia.
From stdpp Require Import base list strings gmap numbers.
From S2P Require Import Prelude Files Readers ReaderProps FileProps RtErrors Json ReadReal.
#[local] Open Scope Z_scope.

(** * The invariant *)

Definition holds_component (fc : fcb) : bool := (current_mode fc =? MODE_READ) && negb (is_eof fc) && negb (is_pending fc).

Definition follows (fc : fcb) : Prop :=
  match initck_state fc with
  | None => True
  | Some st => st = replicate (Z.to_nat (initck_n fc)) (if holds_component fc then 1 else 0)
  end.

(** Every FCB of the program. *)
Definition good (w : world) : Prop := map_Forall (fun _ fc => follows fc) (fcbs w).

(** What one operation does to an FCB: nothing that the leaves could tell, or a
    transition, after which all leaves follow the buffer. *)
Definition same_leaves (fc fc' : fcb) : Prop :=
  initck_state fc' = initck_state fc /\ initck_n fc' = initck_n fc /\ holds_component fc' = holds_component fc.
Definition steps (fc fc' : fcb) : Prop := same_leaves fc fc' \/ (follows fc' /\ initck_n fc' = initck_n fc).
Definition evolves (w w' : world) : Prop := forall k,
  match fcbs w !! k, fcbs w' !! k with Some fc, Some fc' => steps fc fc' | None, None => True | _, _ => False end.

Definition keeps {A} (m : ST world A) : Prop := forall w a w', m w = Ok (a, w') -> evolves w w'.

Lemma steps_refl fc : steps fc fc.
Proof. by left. Qed.
Lemma steps_trans a b c : steps a b -> steps b c -> steps a c.
Proof.
  intros H1 [(E1 & E2 & E3) | [Hc Hn]]; [| right; split; [done |]; destruct H1 as [(_ & <- & _) | [_ <-]]; done].
  destruct H1 as [(F1 & F2 & F3) | [Hb Hn]]; [left; unfold same_leaves; by rewrite E1, E2, E3, F1, F2, F3 |].
  right. split; [| by rewrite E2]. unfold follows in *. by rewrite E1, E2, E3.
Qed.
Lemma evolves_refl w : evolves w w.
Proof. intros k. destruct (fcbs w !! k); [apply steps_refl | done]. Qed.
Lemma evolves_trans w1 w2 w3 : evolves w1 w2 -> evolves w2 w3 -> evolves w1 w3.
Proof.
  intros H1 H2 k. specialize (H1 k). specialize (H2 k). destruct (fcbs w1 !! k), (fcbs w2 !! k), (fcbs w3 !! k); try done. by eapply steps_trans.
Qed.
Lemma evolves_same w w' : fcbs w' = fcbs w -> evolves w w'.
Proof. intros E k. rewrite E. destruct (fcbs w !! k); [apply steps_refl | done]. Qed.
Lemma evolves_put w i fc fc' : fcbs w !! i = Some fc -> steps fc fc' -> evolves w (put_fcb i fc' w).
Proof.
  intros Hi Hs k. cbn. destruct (decide (k = i)) as [-> | Hn].
  - by rewrite Hi, lookup_insert_eq.
  - rewrite lookup_insert_ne by done. destruct (fcbs w !! k); [apply steps_refl | done].
Qed.

Create HintDb keeps.

Lemma fkeeps_bind {A B} (m : ST world A) (k : A -> ST world B) : keeps m -> (forall a, keeps (k a)) -> keeps (bind m k).
Proof. intros Hm Hk w b w' E. apply bind_Ok in E as (a & w1 & E1 & E2). eapply evolves_trans; [by eapply Hm | by eapply Hk]. Qed.
Lemma fkeeps_ret {A} (a : A) : keeps (ret a).
Proof. intros w b w' [= _ <-]. apply evolves_refl. Qed.
Lemma keeps_fail {A} e : keeps (@fail world A e).
Proof. by intros w b w' E. Qed.
Lemma keeps_lift {A} (r : res A) : keeps (@lift world A r).
Proof. intros w b w' E. unfold lift in E. destruct r; [| done]. injection E as _ <-. apply evolves_refl. Qed.
Lemma fkeeps_get : keeps (@get world).
Proof. intros w b w' [= _ <-]. apply evolves_refl. Qed.
(** A step that does not touch the FCBs. *)
Lemma keeps_modify g : (forall w, fcbs (g w) = fcbs w) -> keeps (modify g).
Proof. intros Hg w b w' [= _ <-]. by apply evolves_same. Qed.

(** What may be done to one FCB. *)
Lemma keeps_upd f g : (forall fc, steps fc (g fc)) -> keeps (upd f g).
Proof.
  intros Hg w b w' E. unfold upd, deref in E. destruct f as [i|]; [| done]. unfold bind in E.
  destruct (fcbs w !! i) as [fc|] eqn:Hi; [| done]. injection E as _ <-. by eapply evolves_put.
Qed.

(** [set_mode_flags] sets the leaves whatever they were before. *)
Lemma flags_follow m eof eoln pending fc : a_mode m -> follows (with_flags m eof eoln pending fc).
Proof.
  intros Hm. unfold follows, holds_component. rewrite (flags_mode _ _ _ _ _ Hm), (flags_eof _ _ _ _ _ Hm), (flags_pending _ _ _ _ _ Hm).
  unfold with_flags. cbn [initck_state set_mode]. destruct (initck_state fc) eqn:E; cbn; [done | by rewrite E].
Qed.

Lemma flags_n m eof eoln pending fc : initck_n (with_flags m eof eoln pending fc) = initck_n fc.
Proof. unfold with_flags. cbn. by destruct (initck_state fc). Qed.

Lemma keeps_flags f m eof eoln pending : a_mode m -> keeps (set_mode_flags f m eof eoln pending).
Proof. intros Hm. apply keeps_upd. intros fc. right. split; [by apply flags_follow | apply flags_n]. Qed.

(** A change that a [set_mode_flags] follows at once. *)
Lemma keeps_upd_flags f g m eof eoln pending : a_mode m -> (forall fc, initck_n (g fc) = initck_n fc) ->
  keeps (do* upd f g in set_mode_flags f m eof eoln pending).
Proof.
  intros Hm Hg w b w' E. apply bind_Ok in E as ([] & w1 & E1 & E2). unfold upd, deref, bind in E1. destruct f as [i|]; [| done].
  destruct (fcbs w !! i) as [fc|] eqn:Hi; [| done]. injection E1 as <-.
  unfold set_mode_flags in E2. rewrite (upd_ok _ _ _ _ (fcb_put _ _ _)), put_fcb_twice in E2. injection E2 as _ <-.
  eapply evolves_put; [done |]. right. split; [by apply flags_follow | by rewrite flags_n, Hg].
Qed.

(** Bits of the mode that say nothing about the buffer. *)
Lemma or_mode_steps b fc : b = MODE_STD \/ b = MODE_OWNS_HANDLE \/ b = MODE_TEMP -> steps fc (or_mode b fc).
Proof.
  intros Hb. left. split; [done |]. split; [done |]. unfold holds_component, current_mode, is_eof, is_pending. cbn. rewrite !Z.land_lor_distr_l.
  destruct Hb as [-> | [-> | ->]]; rewrite !Z.lor_0_r; done.
Qed.
Lemma land_ldiff x b m : Z.land b m = 0 -> Z.land (Z.ldiff x b) m = Z.land x m.
Proof.
  intros Hb. apply Z.bits_inj'. intros i Hi. apply (f_equal (fun z => Z.testbit z i)) in Hb.
  rewrite !Z.land_spec in *. rewrite Z.ldiff_spec. rewrite Z.bits_0 in Hb.
  destruct (Z.testbit x i), (Z.testbit b i), (Z.testbit m i); done.
Qed.
Lemma clear_mode_steps b fc : b = MODE_STD \/ b = MODE_OWNS_HANDLE \/ b = MODE_TEMP -> steps fc (clear_mode b fc).
Proof.
  intros Hb. left. split; [done |]. split; [done |]. unfold holds_component, current_mode, is_eof, is_pending. cbn.
  rewrite !land_ldiff by (by destruct Hb as [-> | [-> | ->]]). done.
Qed.
Lemma handle_or_mode_steps h b fc : b = MODE_OWNS_HANDLE -> steps fc (or_mode b (set_handle h fc)).
Proof. intros ->. eapply steps_trans; [| apply or_mode_steps; tauto]. by left. Qed.
Lemma handle_clear_mode_steps h b fc : b = MODE_OWNS_HANDLE -> steps fc (clear_mode b (set_handle h fc)).
Proof. intros ->. eapply steps_trans; [| apply clear_mode_steps; tauto]. by left. Qed.
Lemma name_clear_mode_steps n b fc : b = MODE_TEMP -> steps fc (clear_mode b (set_name n fc)).
Proof. intros ->. eapply steps_trans; [| apply clear_mode_steps; tauto]. by left. Qed.
Lemma store_first_steps c fc : steps fc (store_first c fc).
Proof. left. unfold store_first. by destruct (buffer fc) as [[|]|]. Qed.
Lemma store_bytes_steps c fc : steps fc (store_bytes c fc).
Proof. left. unfold store_bytes. by destruct (buffer fc). Qed.
Lemma store_first_n c fc : initck_n (store_first c fc) = initck_n fc.
Proof. unfold store_first. by destruct (buffer fc) as [[|]|]. Qed.

Lemma keeps_deref f : keeps (deref f).
Proof. intros w b w' E. unfold deref in E. destruct f as [i|]; [| done]. destruct (fcbs w !! i); [| done]. injection E as _ <-; by apply evolves_same. Qed.
Lemma keeps_stream_of h : keeps (stream_of h).
Proof. intros w b w' E. unfold stream_of in E. destruct (streams w !! h); [| done]. injection E as _ <-; by apply evolves_same. Qed.
Lemma keeps_content_of h : keeps (content_of h).
Proof. intros w b w' E. injection E as _ <-; by apply evolves_same. Qed.

(** Takes a function apart into steps that keep the invariant. *)
Ltac keeps_step :=
  match goal with
  | |- keeps (bind (upd _ _) (fun _ => set_mode_flags _ _ _ _ _)) => apply keeps_upd_flags; [by eauto with pas | intros; first [done | apply store_first_n]]
  | |- keeps (bind _ _) => apply fkeeps_bind; [| intros ?]
  | |- keeps (ret _) => apply fkeeps_ret
  | |- keeps (die _) => apply keeps_fail
  | |- keeps (qdie _) => apply keeps_fail
  | |- keeps (undef _) => apply keeps_fail
  | |- keeps (fail _) => apply keeps_fail
  | |- keeps (lift _) => apply keeps_lift
  | |- keeps get => apply fkeeps_get
  | |- keeps (modify _) => apply keeps_modify; done
  | |- keeps (set_mode_flags _ _ _ _ _) => apply keeps_flags; by eauto with pas
  | |- keeps (upd _ _) => apply keeps_upd; intros ?fc;
      first [by left | apply store_first_steps | apply store_bytes_steps
            | apply handle_or_mode_steps; done | apply handle_clear_mode_steps; done | apply name_clear_mode_steps; done
            | apply or_mode_steps; tauto | apply clear_mode_steps; tauto]
  | |- keeps (match ?x with _ => _ end) => destruct x
  | |- keeps _ => solve [eauto with keeps]
  end.
Ltac keeps_all := repeat keeps_step.

#[export] Hint Resolve keeps_deref keeps_stream_of keeps_content_of : keeps.

Lemma a_closed : a_mode MODE_CLOSED.
Proof. by left. Qed.
#[export] Hint Resolve a_closed : pas.

Section Ops.
Context (H : host).

Lemma keeps_fgetc h : keeps (fgetc H h).
Proof. unfold fgetc. keeps_all. Qed.
Lemma keeps_ungetc c h : keeps (ungetc H c h).
Proof. unfold ungetc. keeps_all. Qed.
Lemma keeps_feof h : keeps (feof h).
Proof. unfold feof. keeps_all. Qed.
#[local] Hint Resolve keeps_fgetc keeps_ungetc keeps_feof : keeps.

Lemma keeps_fread n h : keeps (fread H n h).
Proof. induction n; cbn [fread]; keeps_all. Qed.
Lemma keeps_fwrite bs h : keeps (fwrite H bs h).
Proof. induction bs; cbn [fwrite]; keeps_all. Qed.
Lemma keeps_fflush h : keeps (fflush H h).
Proof. unfold fflush. keeps_all. Qed.
Lemma keeps_rewind h : keeps (rewind h).
Proof. unfold rewind. keeps_all. Qed.
Lemma keeps_fseek h n : keeps (fseek_end h n).
Proof. unfold fseek_end. keeps_all. Qed.
Lemma keeps_ftell h : keeps (ftell h).
Proof. unfold ftell. keeps_all. Qed.
Lemma keeps_fclose h : keeps (fclose h).
Proof. intros w b w' E. unfold fclose in E. destruct (streams w !! h); [| done]. injection E as _ <-; by apply evolves_same. Qed.
Lemma keeps_fopen_r n : keeps (fopen_rplus H n).
Proof.
  intros w b w' E. unfold fopen_rplus in E. destruct (dir w !! cstr n); [| injection E as _ <-; by apply evolves_same].
  destruct (openable H (cstr n)); injection E as _ <-; by apply evolves_same.
Qed.
Lemma keeps_fopen_w n : keeps (fopen_wplus H n).
Proof.
  intros w b w' E. unfold fopen_wplus in E. destruct (negb (creatable H (cstr n))); [injection E as _ <-; by apply evolves_same |].
  destruct (dir w !! cstr n); injection E as _ <-; by apply evolves_same.
Qed.
Lemma keeps_tmpfile : keeps (pas_project_tmpfile H).
Proof. intros w b w' E. unfold pas_project_tmpfile in E. destruct (negb (tmp_ok H)); injection E as _ <-; by apply evolves_same. Qed.
#[local] Hint Resolve keeps_fread keeps_fwrite keeps_fflush keeps_rewind keeps_fseek keeps_ftell keeps_fclose keeps_fopen_r
  keeps_fopen_w keeps_tmpfile : keeps.

Lemma keeps_io_error f code msg : keeps (io_error f code msg).
Proof. unfold io_error. keeps_all. Qed.
Lemma keeps_ensure f : keeps (ensure_handle H f).
Proof. unfold ensure_handle. keeps_all. Qed.
Lemma keeps_checked f : keeps (checked_buffer f).
Proof. unfold checked_buffer. keeps_all. Qed.
Lemma keeps_text_getc h : keeps (text_getc H h).
Proof. unfold text_getc. keeps_all. Qed.
Lemma keeps_first fc : keeps (first_byte fc).
Proof. unfold first_byte. keeps_all. Qed.
#[local] Hint Resolve keeps_io_error keeps_ensure keeps_checked keeps_text_getc keeps_first : keeps.

Lemma keeps_raw_get f allow : keeps (raw_get H f allow).
Proof. unfold raw_get. keeps_all. Qed.
#[local] Hint Resolve keeps_raw_get : keeps.
Lemma keeps_force_fill f : keeps (force_fill H f).
Proof. unfold force_fill. keeps_all. Qed.
Lemma keeps_next f h : keeps (fcb_next_char H f h).
Proof. unfold fcb_next_char. keeps_all. Qed.
Lemma keeps_unget f h ch : keeps (fcb_unget_char H f h ch).
Proof. unfold fcb_unget_char. keeps_all. Qed.
#[local] Hint Resolve keeps_force_fill keeps_next keeps_unget : keeps.

Lemma keeps_attach i o : keeps (pas_file_attach_std i o).
Proof. unfold pas_file_attach_std, set_std_input. keeps_all. Qed.
Lemma keeps_sync : keeps (pas_std_input_sync H).
Proof. unfold pas_std_input_sync. keeps_all. Qed.
Lemma keeps_buffer f : keeps (pas_file_buffer H f).
Proof. unfold pas_file_buffer. keeps_all. Qed.
Lemma keeps_get_op f : keeps (pas_file_get H f).
Proof. unfold pas_file_get. keeps_all. Qed.
Lemma keeps_reset_open f : keeps (reset_open H f).
Proof. unfold reset_open. keeps_all. Qed.
#[local] Hint Resolve keeps_attach keeps_sync keeps_buffer keeps_get_op keeps_reset_open : keeps.
Lemma keeps_reset f : keeps (pas_file_reset H f).
Proof. unfold pas_file_reset. keeps_all. Qed.
Lemma keeps_rewrite f : keeps (pas_file_rewrite H f).
Proof. unfold pas_file_rewrite. keeps_all. Qed.
Lemma keeps_put f : keeps (pas_file_put H f).
Proof. unfold pas_file_put. keeps_all. Qed.
Lemma keeps_append f : keeps (append_final_text_marker_if_needed H f).
Proof. unfold append_final_text_marker_if_needed. keeps_all. Qed.
#[local] Hint Resolve keeps_reset keeps_rewrite keeps_put keeps_append : keeps.
Lemma keeps_close f : keeps (pas_file_close H f).
Proof. unfold pas_file_close. keeps_all. Qed.
#[local] Hint Resolve keeps_close : keeps.
Lemma keeps_discard f : keeps (pas_file_discard H f).
Proof. unfold pas_file_discard, remove. keeps_all. Qed.
Lemma keeps_assign f n : keeps (assign_name_closed f n).
Proof. unfold assign_name_closed. keeps_all. Qed.
Lemma keeps_eof f : keeps (pas_file_eof H f).
Proof. unfold pas_file_eof. keeps_all. Qed.
#[local] Hint Resolve keeps_discard keeps_assign keeps_eof : keeps.
Lemma keeps_eoln f : keeps (pas_file_eoln H f).
Proof. unfold pas_file_eoln. keeps_all. Qed.
Lemma keeps_stream_for f b : keeps (stream_for H f b).
Proof. unfold stream_for. keeps_all. Qed.
Lemma keeps_require f : keeps (require_text_read H f).
Proof. unfold require_text_read. keeps_all. Qed.
Lemma keeps_fuel h : keeps (fuel_for h).
Proof. unfold fuel_for. keeps_all. Qed.
#[local] Hint Resolve keeps_eoln keeps_stream_for keeps_require keeps_fuel : keeps.

(** ** The readers, on any source that keeps the invariant *)

Section Source.
Context (src : source world) (Hn : keeps (next src)) (Hu : forall c, keeps (unget src c)).
#[local] Hint Resolve Hn Hu : keeps.

Lemma keeps_skip p n : keeps (skip_while src p n).
Proof using Hn. induction n; cbn [skip_while]; keeps_all. Qed.
Lemma keeps_digits n : forall room tok over ch, keeps (digits src n room tok over ch).
Proof using Hn. induction n; intros; cbn [digits]; keeps_all. Qed.
Lemma keeps_zeros n : forall seen ch, keeps (skip_zeros src n seen ch).
Proof using Hn. induction n; intros; cbn [skip_zeros]; keeps_all. Qed.
Lemma keeps_base_token base n : forall tok over ch, keeps (base_token src n base tok over ch).
Proof using Hn. induction n; intros; cbn [base_token]; keeps_all. Qed.
Lemma keeps_ident n : forall tok ch, keeps (ident_token src n tok ch).
Proof using Hn. induction n; intros; cbn [ident_token]; keeps_all. Qed.
Lemma fkeeps_line n : forall cap got k, keeps (line_chars src n cap got k).
Proof using Hn. induction n; intros; cbn [line_chars]; keeps_all. Qed.
Lemma keeps_fixed n : forall got, keeps (fixed_chars src n got).
Proof using Hn. induction n; intros; cbn [fixed_chars]; keeps_all. Qed.
Lemma keeps_member n : forall cap m got ch, keeps (member_chars src n cap m got ch).
Proof using Hn. induction n; intros; cbn [member_chars]; keeps_all. Qed.
#[local] Hint Resolve keeps_skip keeps_digits keeps_zeros keeps_base_token : keeps.
Lemma keeps_decimal n bits : keeps (scan_decimal src n bits).
Proof using Hn Hu. unfold scan_decimal. keeps_all. Qed.
Lemma keeps_scan_ptr n : keeps (pas_scan_ptr_token src n).
Proof using Hn Hu. unfold pas_scan_ptr_token. keeps_all. Qed.
Lemma keeps_line_skip n : keeps (line_skip src n).
Proof using Hn. unfold line_skip. keeps_all. Qed.
End Source.

Lemma keeps_getchar : keeps (next (std_source H)).
Proof. cbn [next std_source]. unfold std_getchar. keeps_all. Qed.
Lemma keeps_unread c : keeps (unget (std_source H) c).
Proof. cbn [unget std_source]. unfold unread. keeps_all. Qed.
Lemma keeps_fnext f h : keeps (next (fcb_source H f h)).
Proof. apply keeps_next. Qed.
Lemma keeps_funget f h c : keeps (unget (fcb_source H f h) c).
Proof. apply keeps_unget. Qed.
Lemma keeps_std_getchar : keeps (std_getchar H).
Proof. apply keeps_getchar. Qed.
Lemma keeps_std_unread c : keeps (unread H c).
Proof. apply keeps_unread. Qed.
#[local] Hint Resolve keeps_getchar keeps_unread keeps_fnext keeps_funget keeps_std_getchar keeps_std_unread : keeps.
#[local] Hint Extern 1 (keeps (skip_while _ _ _)) => apply keeps_skip : keeps.
#[local] Hint Extern 1 (keeps (skip_ws_except_nl _ _)) => apply keeps_skip : keeps.
#[local] Hint Extern 1 (keeps (ident_token _ _ _ _)) => apply keeps_ident : keeps.
#[local] Hint Extern 1 (keeps (line_chars _ _ _ _ _)) => apply fkeeps_line : keeps.
#[local] Hint Extern 1 (keeps (fixed_chars _ _ _)) => apply keeps_fixed : keeps.
#[local] Hint Extern 1 (keeps (member_chars _ _ _ _ _ _)) => apply keeps_member : keeps.
#[local] Hint Extern 1 (keeps (scan_decimal _ _ _)) => apply keeps_decimal : keeps.
#[local] Hint Extern 1 (keeps (pas_scan_ptr_token _ _)) => apply keeps_scan_ptr : keeps.
#[local] Hint Extern 1 (keeps (line_skip _ _)) => apply keeps_line_skip : keeps.

Lemma keeps_trapped {A} f msg : keeps (@trapped A f msg).
Proof. unfold trapped. keeps_all. Qed.
#[local] Hint Resolve keeps_trapped : keeps.
Lemma keeps_wide f bits : keeps (fread_wide_decimal H f bits).
Proof. unfold fread_wide_decimal. keeps_all. Qed.
#[local] Hint Resolve keeps_wide : keeps.
Lemma keeps_enum_ord f lo hi : keeps (pas_fread_enum_ord H f lo hi).
Proof. unfold pas_fread_enum_ord. keeps_all. Qed.
#[local] Hint Resolve keeps_enum_ord : keeps.
Lemma keeps_std_wide bits : keeps (read_wide_decimal H bits).
Proof. unfold read_wide_decimal. keeps_all. Qed.
#[local] Hint Resolve keeps_std_wide : keeps.
Lemma keeps_std_enum_ord lo hi : keeps (pas_read_enum_ord H lo hi).
Proof. unfold pas_read_enum_ord. keeps_all. Qed.
#[local] Hint Resolve keeps_std_enum_ord : keeps.
Lemma keeps_std_ident : keeps (read_identifier_token H).
Proof. unfold read_identifier_token. keeps_all. Qed.
#[local] Hint Resolve keeps_std_ident : keeps.

(** ** REAL *)

Lemma keeps_scan_item (src : source world) (Hn : keeps (next src)) n : forall st item ch, keeps (scan_item src n st item ch).
Proof. induction n; intros; cbn [scan_item]; keeps_all. Qed.
Lemma keeps_raw_next h : keeps (next (raw_source H h)).
Proof. cbn. keeps_all. Qed.
Lemma keeps_raw_unget h c : keeps (unget (raw_source H h) c).
Proof. cbn. keeps_all. Qed.
#[local] Hint Resolve keeps_raw_next keeps_raw_unget : keeps.
#[local] Hint Extern 1 (keeps (scan_item _ _ _ _ _)) => apply keeps_scan_item : keeps.
Lemma keeps_scanf h n : keeps (scanf_lf (raw_source H h) n).
Proof. unfold scanf_lf. keeps_all. Qed.
#[local] Hint Resolve keeps_scanf : keeps.
Lemma keeps_real : keeps (pas_read_real H).
Proof. unfold pas_read_real. keeps_all. Qed.
Lemma keeps_freal f : keeps (pas_fread_real H f).
Proof. unfold pas_fread_real. keeps_all. Qed.
#[local] Hint Resolve keeps_real keeps_freal : keeps.

(** * Programs *)

(** An assignment to F^ or a part of it, as compiled code makes it: the buffer is asked
    for, which fills it if need be, its bytes become [bs], and the leaf that was written
    becomes initialized. *)
Definition set_leaf (leaf : nat) (fc : fcb) : fcb :=
  match initck_state fc with Some st => set_initck (Some (<[leaf := 1]> st)) fc | None => fc end.
Definition has_leaf (leaf : nat) (fc : fcb) : bool :=
  match initck_state fc with Some st => (leaf <? length st)%nat | None => true end.
Definition store_component (f : option nat) (leaf : nat) (bs : list Z) : ST world unit :=
  do* pas_file_buffer H f in
  let* fc := deref f in
  match buffer fc with
  | Some b =>
      if negb (Nat.eqb (length bs) (length b)) || negb (has_leaf leaf fc) then undef "write outside the buffer"
      else upd f (fun fc => set_leaf leaf (set_touched true (set_buffer (Some bs) fc)))
  | None => undef "write to F^ without a buffer"
  end.

(** Every entry point that touches a file, on any FCB, and the writes to F^; the readers
    of standard input are there too, for they move the component INPUT holds. *)
Inductive file_op :=
  | FAttach (i o : option nat) | FBuffer (f : option nat) | FTouch (f : option nat) | FGet (f : option nat)
  | FReset (f : option nat) | FRewrite (f : option nat) | FPut (f : option nat) | FClose (f : option nat)
  | FDiscard (f : option nat) | FAssign (f : option nat) (n : option (list Z)) | FEof (f : option nat) | FEoln (f : option nat)
  | FWrite (f : option nat) (text : list Z) | FInt (f : option nat) (bits : Z) | FWord (f : option nat) | FPtr (f : option nat)
  | FEnum (f : option nat) (names : option (list (option (list Z)))) (lo hi : Z) | FChar (f : option nat)
  | FLstring (f : option nat) (cap : Z) | FString (f : option nat) (cap : Z) | FReadln (f : option nat)
  | FReadset (f : option nat) (cap : Z) (words : list Z) | FReadfn (f target : option nat) | FReal (f : option nat)
  | FStore (f : option nat) (leaf : nat) (bs : list Z)
  | SInt (bits : Z) | SWord | SPtr | SEnum (names : option (list (option (list Z)))) (lo hi : Z) | SChar
  | SLstring (cap : Z) | SString (cap : Z) | SEof | SEoln | SReadln | SReal.

Definition quietly {A} (m : ST world A) : ST world unit := do* m in ret tt.

Definition exec_file (o : file_op) : ST world unit :=
  match o with
  | FAttach i o => pas_file_attach_std i o
  | FBuffer f => quietly (pas_file_buffer H f)
  | FTouch f => pas_file_touch_buffer f
  | FGet f => pas_file_get H f
  | FReset f => pas_file_reset H f
  | FRewrite f => pas_file_rewrite H f
  | FPut f => pas_file_put H f
  | FClose f => pas_file_close H f
  | FDiscard f => pas_file_discard H f
  | FAssign f n => pas_file_assign f n
  | FEof f => quietly (pas_file_eof H f)
  | FEoln f => quietly (pas_file_eoln H f)
  | FWrite f text => quietly (pas_write_fmt H f text)
  | FInt f bits => quietly (if bits =? 16 then pas_fread_int16 H f else if bits =? 32 then pas_fread_int32 H f else pas_fread_int64 H f)
  | FWord f => quietly (pas_fread_word H f)
  | FPtr f => quietly (pas_fread_ptr H f)
  | FEnum f names lo hi => quietly (pas_fread_enum_name H f names lo hi)
  | FChar f => quietly (pas_fread_char H f)
  | FLstring f cap => quietly (pas_fread_lstring H f cap)
  | FString f cap => quietly (pas_fread_string H f cap)
  | FReadln f => pas_freadln_skip H f
  | FReadset f cap words => quietly (pas_freadset H f cap words)
  | FReadfn f target => pas_fread_filename H f target
  | FReal f => quietly (pas_fread_real H f)
  | FStore f leaf bs => store_component f leaf bs
  | SInt bits => quietly (if bits =? 16 then pas_read_int16 H else if bits =? 32 then pas_read_int32 H else pas_read_int64 H)
  | SWord => quietly (pas_read_word H)
  | SPtr => quietly (pas_read_ptr H)
  | SEnum names lo hi => quietly (pas_read_enum_name H names lo hi)
  | SChar => quietly (pas_read_char H)
  | SLstring cap => quietly (pas_read_lstring H cap)
  | SString cap => quietly (pas_read_string H cap)
  | SEof => quietly (pas_read_eof H)
  | SEoln => quietly (pas_read_eoln H)
  | SReadln => pas_readln_skip H
  | SReal => quietly (pas_read_real H)
  end.

Fixpoint exec_files (os : list file_op) : ST world unit :=
  match os with [] => ret tt | o :: os' => do* exec_file o in exec_files os' end.

Definition is_store (o : file_op) : bool := match o with FStore _ _ _ => true | _ => false end.

Lemma keeps_exec o : is_store o = false -> keeps (exec_file o).
Proof.
  intros Ho. destruct o; try done; cbn [exec_file]; unfold quietly, pas_file_touch_buffer, pas_file_assign, pas_write_fmt, pas_fread_int16, pas_fread_int32,
    pas_fread_int64, pas_fread_word, pas_fread_ptr, pas_fread_enum_name, pas_fread_char, pas_fread_lstring, pas_fread_string,
    pas_freadln_skip, pas_freadset, pas_fread_filename, pas_read_int16, pas_read_int32, pas_read_int64, pas_read_word, pas_read_ptr,
    pas_read_enum_name, pas_read_char, pas_read_lstring, pas_read_string, pas_read_eof, pas_read_eoln, pas_readln_skip; keeps_all.
Qed.

(** ** Transitions *)

(** The operations that move a file on, or end what was done with it. *)
Definition moves (o : file_op) (k : nat) : bool :=
  match o with
  | FGet f | FReset f | FRewrite f | FPut f | FClose f | FDiscard f => bool_decide (f = Some k)
  | _ => false
  end.

(** After [m] the leaves of [k] follow its buffer, unless an error was trapped. *)
Definition settles {A} (k : nat) (m : ST world A) : Prop := forall w a w', m w = Ok (a, w') ->
  exists fc, fcbs w' !! k = Some fc /\ (errs fc = 0 -> follows fc).

Lemma settles_bind {A B} k (m : ST world A) (c : A -> ST world B) : (forall a, settles k (c a)) -> settles k (bind m c).
Proof. intros Hc w b w' E. apply bind_Ok in E as (a & w1 & E1 & E2). by eapply Hc. Qed.
Lemma settles_fail {A} k e : settles k (@fail world A e).
Proof. by intros w b w' E. Qed.
Lemma settles_upd k g : (forall fc, errs (g fc) = 0 -> follows (g fc)) -> settles k (upd (Some k) g).
Proof.
  intros Hg w b w' E. unfold upd, deref, bind in E. destruct (fcbs w !! k) as [fc|] eqn:Hi; [| done]. injection E as _ <-.
  exists (g fc). split; [apply lookup_insert_eq | apply Hg].
Qed.
Lemma settles_flags k m eof eoln pending : a_mode m -> settles k (set_mode_flags (Some k) m eof eoln pending).
Proof. intros Hm. apply settles_upd. intros fc _. by apply flags_follow. Qed.
Lemma settles_flags_touch k m eof eoln pending : a_mode m ->
  settles k (do* set_mode_flags (Some k) m eof eoln pending in upd (Some k) (set_touched false)).
Proof.
  intros Hm w b w' E. apply bind_Ok in E as ([] & w1 & E1 & E2). destruct (settles_flags k m eof eoln pending Hm _ _ _ E1) as (fc & Hi & Hf).
  unfold upd, deref, bind in E2. rewrite Hi in E2. injection E2 as _ <-. exists (set_touched false fc). split; [apply lookup_insert_eq | exact Hf].
Qed.
Lemma settles_error k code msg : code <> 0 -> settles k (do* io_error (Some k) code msg in ret tt).
Proof.
  intros Hc w b w' E. apply bind_Ok in E as (a & w1 & E1 & [= _ <-]). unfold io_error in E1. apply bind_Ok in E1 as (fc & w2 & E1 & E2).
  destruct (negb _); [| done]. apply bind_Ok in E2 as ([] & w3 & E3 & [= _ <-]). eapply settles_upd; [| exact E3]. done.
Qed.
Lemma settles_remove {A} k (m : ST world A) n : settles k m -> settles k (do* m in match n with Some n => remove n | None => ret tt end).
Proof.
  intros Hm w b w' E. apply bind_Ok in E as (a & w1 & E1 & E2). destruct (Hm _ _ _ E1) as (fc & Hi & Hf). exists fc. split; [| done].
  destruct n; [unfold remove, modify in E2 |]; injection E2 as _ <-; done.
Qed.

Ltac settles_step :=
  match goal with
  | |- settles _ (die _) => apply settles_fail
  | |- settles _ (undef _) => apply settles_fail
  | |- settles _ (bind (io_error _ _ _) (fun _ => ret tt)) => by apply settles_error
  | |- settles _ (bind (set_mode_flags _ _ _ _ _) (fun _ => upd _ (set_touched false))) => apply settles_flags_touch; by eauto with pas
  | |- settles _ (set_mode_flags _ _ _ _ _) => apply settles_flags; by eauto with pas
  | |- settles _ (bind _ _) => apply settles_bind; intros ?
  | |- settles _ (match ?x with _ => _ end) => destruct x
  end.

Lemma settles_moves o k : moves o k = true -> settles k (exec_file o).
Proof.
  intros Hm. destruct o; try done; cbn [moves] in Hm; apply bool_decide_eq_true in Hm as ->; cbn [exec_file].
  - unfold pas_file_get, raw_get. repeat settles_step.
  - unfold pas_file_reset, reset_open. repeat settles_step.
  - unfold pas_file_rewrite. repeat settles_step.
  - unfold pas_file_put. repeat settles_step.
  - unfold pas_file_close. repeat settles_step.
  - unfold pas_file_discard. apply settles_bind. intros fc. apply settles_remove. unfold pas_file_close. repeat settles_step.
Qed.

(** ** Sequences *)

(** The leaves of [k] that the operations write. *)
Definition leaves_written (k : nat) (os : list file_op) : list nat :=
  omap (fun o => match o with FStore (Some i) leaf _ => if Nat.eqb i k then Some leaf else None | _ => None end) os.

(** Initialized where the buffer holds a component or [written] says so. *)
Definition leaves_are (fc : fcb) (written : list nat) : Prop :=
  match initck_state fc with
  | None => True
  | Some st => length st = Z.to_nat (initck_n fc) /\
      forall i v, st !! i = Some v -> v = if holds_component fc || bool_decide (i ∈ written) then 1 else 0
  end.

Lemma follows_leaves fc : follows fc -> leaves_are fc [].
Proof.
  unfold follows, leaves_are. destruct (initck_state fc) as [st |]; [| done]. intros ->. split; [apply length_replicate |].
  intros i v [-> _]%lookup_replicate. rewrite bool_decide_eq_false_2 by set_solver. by rewrite orb_false_r.
Qed.

Lemma leaves_same fc fc' ls : leaves_are fc ls -> same_leaves fc fc' -> leaves_are fc' ls.
Proof. intros H1 (E1 & E2 & E3). unfold leaves_are in *. by rewrite E1, E2, E3. Qed.

Lemma leaves_set fc ls leaf bs : leaves_are fc ls -> leaves_are (set_leaf leaf (set_touched true (set_buffer bs fc))) (ls ++ [leaf]).
Proof.
  unfold leaves_are, set_leaf. cbn [initck_state set_touched set_buffer]. destruct (initck_state fc) as [st |] eqn:E; cbn; [| by rewrite E].
  intros [Hl Hv]. split; [by rewrite length_insert |]. intros i v Hi.
  assert (holds_component (set_initck (Some (<[leaf := 1]> st)) (set_touched true (set_buffer bs fc))) = holds_component fc) as -> by done.
  apply list_lookup_insert_Some in Hi as [(-> & -> & _) | [Hn Hi]].
  - rewrite bool_decide_eq_true_2 by set_solver. by rewrite orb_true_r.
  - rewrite (Hv i v Hi). by rewrite (bool_decide_ext (i ∈ ls ++ [leaf]) (i ∈ ls)) by set_solver.
Qed.

Lemma exec_files_app a b w w2 : exec_files (a ++ b) w = Ok (tt, w2) <-> exists w1, exec_files a w = Ok (tt, w1) /\ exec_files b w1 = Ok (tt, w2).
Proof.
  revert w. induction a as [| o a IH]; intros w; cbn [app exec_files].
  - split; [by exists w | by intros (w1 & [= <-] & E)].
  - split.
    + intros E. apply bind_Ok in E as ([] & w1 & E1 & E2). apply IH in E2 as (w3 & E2 & E3). exists w3. by rewrite (bind_ok _ _ _ _ _ E1).
    + intros (w3 & E & E3). apply bind_Ok in E as ([] & w1 & E1 & E2). rewrite (bind_ok _ _ _ _ _ E1). apply IH. by exists w3.
Qed.

(** All transitions of [k] that were completed lie in [os1]. *)
Definition no_transition (w : world) (k : nat) (os1 os2 : list file_op) : Prop :=
  forall a o b w2 fc2, os2 = a ++ o :: b -> moves o k = true -> exec_files (os1 ++ a ++ [o]) w = Ok (tt, w2) ->
    fcbs w2 !! k = Some fc2 -> errs fc2 <> 0.

Lemma leaves_written_snoc k os o : leaves_written k (os ++ [o]) = leaves_written k os ++ leaves_written k [o].
Proof. apply omap_app. Qed.

(** A store on [k] adds its leaf. *)
Lemma store_leaves k leaf bs w w' fc fc' ls : store_component (Some k) leaf bs w = Ok (tt, w') ->
  fcbs w !! k = Some fc -> fcbs w' !! k = Some fc' -> leaves_are fc ls ->
  leaves_are fc' (ls ++ [leaf]) \/ leaves_are fc' [leaf].
Proof.
  intros E Hk Hk' Hl. unfold store_component in E. apply bind_Ok in E as (r & w1 & E1 & E2). pose proof (keeps_buffer (Some k) _ _ _ E1 k) as He. rewrite Hk in He.
  destruct (fcbs w1 !! k) as [fc1 |] eqn:Hk1; [| done]. apply bind_Ok in E2 as (fc2 & w2 & E2 & E3).
  unfold deref in E2. rewrite Hk1 in E2. injection E2 as <- <-. destruct (buffer fc1); [| done]. destruct (_ || _); [done |].
  rewrite (upd_ok _ _ _ _ Hk1) in E3. injection E3 as <-. cbn in Hk'. rewrite lookup_insert_eq in Hk'. injection Hk' as <-.
  destruct He as [Hs | [Hf _]]; [left; apply leaves_set; by eapply leaves_same |]. right. apply (leaves_set fc1 []). by apply follows_leaves.
Qed.
(** A store elsewhere leaves [k] alone. *)
Lemma store_other k f leaf bs w w' : store_component f leaf bs w = Ok (tt, w') -> f <> Some k ->
  match fcbs w !! k, fcbs w' !! k with Some fc, Some fc' => steps fc fc' | None, None => True | _, _ => False end.
Proof.
  intros E Hf. unfold store_component in E. apply bind_Ok in E as (r & w1 & E1 & E2). pose proof (keeps_buffer f _ _ _ E1 k) as He.
  apply bind_Ok in E2 as (fc2 & w2 & E2 & E3). pose proof (keeps_deref f _ _ _ E2 k) as He2. destruct (buffer fc2); [| done]. destruct (_ || _); [done |].
  assert (fcbs w' !! k = fcbs w2 !! k) as ->.
  { unfold upd, deref, bind in E3. destruct f as [i |]; [| done]. destruct (fcbs w2 !! i); [| done]. injection E3 as <-. cbn. apply lookup_insert_ne. congruence. }
  destruct (fcbs w !! k), (fcbs w1 !! k), (fcbs w2 !! k); try done. by eapply steps_trans.
Qed.

(** What an operation does to [k], if it is not a store to it. *)
Lemma op_cases o k : (exists leaf bs, o = FStore (Some k) leaf bs) \/
  (leaves_written k [o] = [] /\ forall w w', exec_file o w = Ok (tt, w') ->
     match fcbs w !! k, fcbs w' !! k with Some fc, Some fc' => steps fc fc' | None, None => True | _, _ => False end).
Proof.
  destruct (is_store o) eqn:Eo.
  - destruct o; try done. destruct (decide (f = Some k)) as [-> | Hn]; [left; eauto | right]. split.
    + destruct f as [i |]; [| done]. cbn. by rewrite (proj2 (Nat.eqb_neq i k)) by congruence.
    + intros w w' E. by apply (store_other k f leaf bs).
  - right. split; [by destruct o |]. intros w w' E. apply (keeps_exec o Eo _ _ _ E k).
Qed.

Lemma op_known o k w w' fc' : exec_file o w = Ok (tt, w') -> fcbs w' !! k = Some fc' -> exists fc, fcbs w !! k = Some fc.
Proof.
  intros E Hk. destruct (op_cases o k) as [(leaf & bs & ->) | [_ Hs]].
  - cbn in E. unfold store_component in E. apply bind_Ok in E as (r & w3 & E3 & _).
    destruct (fcbs w !! k) eqn:Ek; [eauto |]. exfalso. unfold pas_file_buffer, force_fill, deref, bind in E3. by rewrite Ek in E3.
  - specialize (Hs w w' E). rewrite Hk in Hs. destruct (fcbs w !! k); [eauto | done].
Qed.

Lemma no_transition_snoc w k os1 os2 o w' fc' : no_transition w k os1 os2 -> exec_files ((os1 ++ os2) ++ [o]) w = Ok (tt, w') ->
  fcbs w' !! k = Some fc' -> ~ (moves o k = true /\ errs fc' = 0) -> no_transition w k os1 (os2 ++ [o]).
Proof.
  intros Hnt Eall Hk Hno a o' b w3 fc3 Eq Hm Ex Hk3. destruct b as [| b0 b _] using rev_ind.
  - apply app_inj_tail in Eq as [-> ->]. rewrite app_assoc in Ex. rewrite Eall in Ex. injection Ex as <-. rewrite Hk in Hk3. injection Hk3 as <-. tauto.
  - rewrite app_comm_cons, app_assoc in Eq. apply app_inj_tail in Eq as [-> _]. by apply (Hnt a o' b w3 fc3).
Qed.

End Ops.

(** A TEXT file with a tracked buffer, read to its end. *)
Definition tracked_fcb : fcb := mkFcb 1 STRUCT_TEXT false MODE_CLOSED (Some [0]) None (Some [97]) 1 0 (Some [0]) 1.
Definition tracked_world : world := mkWorld {[3%nat := [65]]} {[[97] := 3%nat]} ∅ {[0%nat := tracked_fcb]} None 10.

