(* ===== verification/Cuda.v ===== *)
(** cuda_launch.c of runtime/: a GPU as the device of a Pascal program, behind the same
    symbols as the CPU device. The CUDA driver is an interface, its state is opaque.
    The context is made once, before the first allocation or module load; the blob of
    device code is loaded once; a launch returns only when the kernel has run and no
    device check failed, and a recorded failure is reported as the host's check would
    report it. *)

From Stdlib Require Import ZArith Ascii String SpecFloat Lia.
From stdpp Require Import base list strings gmap numbers.
From S2P Require Import Prelude Real CPrelude LexProps EmitText EmitFrame Runtime Numeric RtErrors.
Import Move EmitText.Ints.
#[local] Open Scope Z_scope.

(** * The driver *)

Definition CUDA_SUCCESS : Z := 0.
Definition CUDA_ERROR_NOT_FOUND : Z := 500.

(** The calls the shim makes of the driver, as functions of the driver's state: the
    result code, what the call stores, the new state. [mem] is the host's memory where
    the call reads it. *)
Class Driver (D : Type) := {
  cuGetErrorName : Z -> option string;
  cuGetErrorString : Z -> option string;
  cuInit : D -> Z * D;
  cuDeviceGet : Z -> D -> Z * Z * D;
  cuCtxCreate : Z -> D -> Z * Z * D;
  cuMemAlloc : Z -> D -> Z * Z * D;
  cuMemcpyHtoD : Z -> bytes -> D -> Z * D;
  cuMemcpyDtoH : Z -> Z -> D -> Z * bytes * D;
  cuMemsetD8 : Z -> Z -> Z -> D -> Z * D;
  cuMemFree : Z -> D -> Z * D;
  cuModuleLoadData : mem -> Z -> D -> Z * Z * D;
  cuModuleGetFunction : Z -> string -> D -> Z * Z * D;
  cuModuleGetGlobal : Z -> string -> D -> Z * (Z * Z) * D;
  cuFuncGetModule : Z -> D -> Z * Z * D;
  cuLaunchKernel : Z -> Z * Z * Z -> Z * Z * Z -> mem -> Z -> D -> Z * D;
  cuCtxSynchronize : D -> Z * D
}.

(** The calls by name, for the record of those that were made. *)
Inductive call :=
  | CInit | CDeviceGet | CCtxCreate (device : Z) | CMemAlloc (n : Z) | CHtoD (dst n : Z) | CDtoH (src n : Z)
  | CMemset (dst n : Z) | CFree (p : Z) | CModuleLoad (ptx : Z) | CGetFunction (module : Z) (name : string)
  | CGetGlobal (module : Z) (name : string) | CFuncModule (fn : Z) | CLaunch (fn : Z) (g b : Z * Z * Z) | CSync.

#[export] Instance call_eq_dec : EqDecision call.
Proof. solve_decision. Defined.

Lemma base_aux_length b fuel : forall n acc, (length (base_aux b fuel n acc) <= fuel + length acc)%nat.
Proof.
  induction fuel as [| f IH]; intros n acc; cbn [base_aux]; [lia |].
  destruct (n / b =? 0); [cbn [length]; lia |]. etrans; [apply IH |]. cbn [length]. lia.
Qed.

Lemma length_chars s : length (chars s) = String.length s.
Proof. induction s as [| c s IH]; [done |]. simpl. by rewrite IH. Qed.

Section Shim.
Context {D : Type} `{Driver D}.

(** * The state *)

(** The globals of the file, the host's memory, the driver, the process; [calls] are the
    driver calls that were made and what they returned. *)
Record shim := mkShim {
  g_cu_ready : bool; g_cu_device : Z; g_cu_context : Z;
  g_module_cache : list (Z * Z);      (* the first g_module_cache_count entries: blob and module *)
  host : mem; driver : D; proc : Proc; calls : list (call * Z)
}.

Definition set_proc (p : Proc) (s : shim) : shim :=
  mkShim (g_cu_ready s) (g_cu_device s) (g_cu_context s) (g_module_cache s) (host s) (driver s) p (calls s).
Definition set_host (m : mem) (s : shim) : shim :=
  mkShim (g_cu_ready s) (g_cu_device s) (g_cu_context s) (g_module_cache s) m (driver s) (proc s) (calls s).
Definition set_cache (l : list (Z * Z)) (s : shim) : shim :=
  mkShim (g_cu_ready s) (g_cu_device s) (g_cu_context s) l (host s) (driver s) (proc s) (calls s).
Definition set_context (ready : bool) (dev ctx : Z) (s : shim) : shim :=
  mkShim ready dev ctx (g_module_cache s) (host s) (driver s) (proc s) (calls s).
Definition called (c : call) (rc : Z) (d : D) (s : shim) : shim :=
  mkShim (g_cu_ready s) (g_cu_device s) (g_cu_context s) (g_module_cache s) (host s) d (proc s) (calls s ++ [(c, rc)]).

(** Code of the shim: [None] when the process was ended. *)
Definition M (A : Type) : Type := ST shim (option A).
Definition mret {A} (a : A) : M A := ret (Some a).
Definition mbind {A B} (m : M A) (k : A -> M B) : M B := fun s =>
  match m s with
  | Ok (Some a, s') => k a s'
  | Ok (None, s') => Ok (None, s')
  | Err e => Err e
  end.
#[local] Notation "'let?' x ':=' m 'in' k" := (mbind m (fun x => k))
  (at level 10, x pattern, m at level 100, k at level 200).
#[local] Notation "'do?' m 'in' k" := (mbind m (fun _ => k)) (at level 10, m at level 100, k at level 200).

Definition on_shim (f : shim -> shim) : M unit := fun s => Ok (Some tt, f s).

(** A driver call that stores a value, and one that does not. *)
Definition drive {A} (c : call) (f : D -> Z * A * D) : M (Z * A) := fun s =>
  let '(rc, a, d) := f (driver s) in Ok (Some (rc, a), called c rc d s).
Definition drive0 (c : call) (f : D -> Z * D) : M (Z * unit) :=
  drive c (fun d => let '(rc, d') := f d in (rc, tt, d')).

(** * Failures *)

Definition cu_fail_text (what : string) (rc : Z) : string :=
  "pascal-cuda: " +:+ what +:+ " failed: " +:+ default "UNKNOWN" (cuGetErrorName rc) +:+ " (" +:+ Zs rc +:+ ")"
  +:+ (match cuGetErrorString rc with Some _ => " - " | None => EmptyString end)
  +:+ default EmptyString (cuGetErrorString rc) +:+ nl.

(** A message on stderr, then [abort]. *)
Definition die {A} (text : string) : M A := fun s => Ok (None, set_proc (abort (eput text (proc s))) s).
Definition pas_cu_fail {A} (what : string) (rc : Z) : M A := die (cu_fail_text what rc).

Definition CU_CHECK {A} (what : string) (m : M (Z * A)) : M A :=
  let? (rc, a) := m in
  if rc =? CUDA_SUCCESS then mret a else pas_cu_fail what rc.

Definition pas_cu_ensure : M unit := fun s =>
  if g_cu_ready s then mret tt s
  else
    (do? CU_CHECK "cuInit(0)" (drive0 CInit cuInit) in
     let? dev := CU_CHECK "cuDeviceGet(&g_cu_device, 0)" (drive CDeviceGet (cuDeviceGet 0)) in
     let? ctx := CU_CHECK "cuCtxCreate(&g_cu_context, 0, g_cu_device)" (drive (CCtxCreate dev) (cuCtxCreate dev)) in
     on_shim (set_context true dev ctx)) s.

(** * Memory *)

(** [n] bytes of the host's memory at [a], read and written. *)
Fixpoint load_bytes (m : mem) (a : Z) (n : nat) : res bytes :=
  match n with
  | O => Ok []
  | S n' => let! c := load m a in let! r := load_bytes m (a + 1) n' in Ok (c :: r)
  end.
Fixpoint store_bytes (m : mem) (a : Z) (bs : bytes) : res mem :=
  match bs with
  | [] => Ok m
  | c :: r => let! m' := store m a c in store_bytes m' (a + 1) r
  end.

(** A handle is the device's address; NULL is 0. *)
Definition pas_dev_alloc (nbytes : Z) : M Z :=
  if nbytes <=? 0 then mret 0
  else
    do? pas_cu_ensure in
    CU_CHECK "cuMemAlloc(&dptr, (size_t) nbytes)" (drive (CMemAlloc nbytes) (cuMemAlloc nbytes)).

Definition pas_dev_copy_to (dev_dst host_src nbytes : Z) : M unit := fun s =>
  if negb (dev_dst =? 0) && negb (host_src =? 0) && (0 <? nbytes) then
    let! bs := load_bytes (host s) host_src (Z.to_nat nbytes) in
    CU_CHECK "cuMemcpyHtoD((CUdeviceptr) (uintptr_t) dev_dst, host_src, (size_t) nbytes)"
      (drive0 (CHtoD dev_dst nbytes) (cuMemcpyHtoD dev_dst bs)) s
  else mret tt s.

(** What the driver stored, as far as the call succeeded. *)
Definition pas_dev_copy_from (host_dst dev_src nbytes : Z) : M unit :=
  if negb (host_dst =? 0) && negb (dev_src =? 0) && (0 <? nbytes) then
    let? bs := CU_CHECK "cuMemcpyDtoH(host_dst, (CUdeviceptr) (uintptr_t) dev_src, (size_t) nbytes)"
      (drive (CDtoH dev_src nbytes) (cuMemcpyDtoH dev_src nbytes)) in
    fun s => let! m := store_bytes (host s) host_dst bs in Ok (Some tt, set_host m s)
  else mret tt.

Definition pas_dev_free (dev_ptr : Z) : M unit :=
  if negb (dev_ptr =? 0)
  then CU_CHECK "cuMemFree((CUdeviceptr) (uintptr_t) dev_ptr)" (drive0 (CFree dev_ptr) (cuMemFree dev_ptr))
  else mret tt.

(** * Modules *)

Definition PAS_MODULE_CACHE_MAX : nat := 32.

(** The loop over the cache. *)
Fixpoint cache_find (ptx : Z) (l : list (Z * Z)) : option Z :=
  match l with
  | [] => None
  | (p, m) :: r => if p =? ptx then Some m else cache_find ptx r
  end.

Definition no_ptx_text : string :=
  "pascal-cuda: pas_dev_module_load: no embedded PTX (rebuild the host with --embed-device-ptx)" +:+ nl.

Definition load_module (ptx : Z) : M Z := fun s =>
  match cache_find ptx (g_module_cache s) with
  | Some m => mret m s
  | None =>
      (let? m := CU_CHECK "cuModuleLoadData(&module, ptx)" (drive (CModuleLoad ptx) (cuModuleLoadData (host s) ptx)) in
       do? on_shim (fun s => if (length (g_module_cache s) <? PAS_MODULE_CACHE_MAX)%nat
                             then set_cache (g_module_cache s ++ [(ptx, m)]) s else s) in
       mret m) s
  end.

Definition pas_dev_module_load (ptx : Z) : M Z := fun s =>
  if ptx =? 0 then die no_ptx_text s
  else
    let! c := load (host s) ptx in
    if Ascii.eqb c "000" then die no_ptx_text s
    else (do? pas_cu_ensure in load_module ptx) s.

Definition pas_dev_module_get_function (module : Z) (name : option string) : M Z :=
  match name with
  | Some n =>
      if module =? 0 then mret 0
      else CU_CHECK "cuModuleGetFunction(&fn, (CUmodule) module, name)"
             (drive (CGetFunction module n) (cuModuleGetFunction module n))
  | None => mret 0
  end.

(** * The device error channel *)

Definition PAS_DEV_ERROR_SYMBOL : string := "__pas_dev_error".

(** The cell: four 32-bit integers and a double, little-endian. *)
Definition le_nat (bs : bytes) : Z := foldr (fun c v => Z.of_nat (nat_of_ascii c) + 256 * v) 0 bs.
Definition field32 (bs : bytes) (i : nat) : Z := swrap 32 (le_nat (firstn 4 (skipn i bs))).
(** The double of 64 bits. *)
Definition double_of_bits (b : Z) : spec_float :=
  let s := Z.testbit b 63 in
  let ex := (b / 2 ^ 52) `mod` 2 ^ 11 in
  let fr := b `mod` 2 ^ 52 in
  if ex =? 2047 then (if fr =? 0 then S754_infinity s else S754_nan)
  else if ex =? 0 then match fr with Z.pos m => S754_finite s m (-1074) | _ => S754_zero s end
  else match fr + 2 ^ 52 with Z.pos m => S754_finite s m (ex - 1075) | _ => S754_zero s end.
Definition cell_size : Z := 24.
Definition read_cell (bs : bytes) : ErrorCell :=
  mkCell (field32 bs 0) (field32 bs 4) (field32 bs 8) (field32 bs 12) (double_of_bits (le_nat (firstn 8 (skipn 16 bs)))).

(** [malloc_ok]: what the allocation of the name answers. *)
Definition pas_cu_device_error_file (malloc_ok : bool) (module file : Z) : M (option string) :=
  match pas_dev_error_file_symbol file 64 with
  | None => mret None
  | Some symbol =>
      let? (rc, (p, size)) := drive (CGetGlobal module symbol) (cuModuleGetGlobal module symbol) in
      if negb (rc =? CUDA_SUCCESS) || (size =? 0) then mret None
      else if negb malloc_ok then mret None
      else
        let? (rc, bs) := drive (CDtoH p size) (cuMemcpyDtoH p size) in
        mret (if negb (rc =? CUDA_SUCCESS) then None else Some (str (until_nul bs)))
  end.

Definition wrong_size_text (size : Z) : string :=
  "pascal-cuda: " +:+ PAS_DEV_ERROR_SYMBOL +:+ " has " +:+ Zs size +:+ " bytes, expected " +:+ Zs cell_size +:+ nl.

(** [pas_dev_error_report] on this process; it returns only when there is nothing to report. *)
Definition report_cell (c : ErrorCell) (file : option string) : M unit := fun s =>
  let p := pas_dev_error_report (Some c) file (proc s) in
  Ok (if ec_code c =? PAS_DEV_ERROR_NONE then Some tt else None, set_proc p s).

Definition pas_cu_check_device_error (malloc_ok : bool) (fn : Z) : M unit :=
  let? module := CU_CHECK "cuFuncGetModule(&module, fn)" (drive (CFuncModule fn) (cuFuncGetModule fn)) in
  let? (rc, (p, size)) := drive (CGetGlobal module PAS_DEV_ERROR_SYMBOL) (cuModuleGetGlobal module PAS_DEV_ERROR_SYMBOL) in
  if rc =? CUDA_ERROR_NOT_FOUND then mret tt
  else if negb (rc =? CUDA_SUCCESS) then pas_cu_fail ("cuModuleGetGlobal(" +:+ PAS_DEV_ERROR_SYMBOL +:+ ")") rc
  else if negb (size =? cell_size) then die (wrong_size_text size)
  else
    let? bs := CU_CHECK "cuMemcpyDtoH(&cell, cell_ptr, sizeof cell)" (drive (CDtoH p cell_size) (cuMemcpyDtoH p cell_size)) in
    let cell := read_cell bs in
    if ec_code cell =? PAS_DEV_ERROR_NONE then mret tt
    else
      do? CU_CHECK "cuMemsetD8(cell_ptr, 0, sizeof cell)" (drive0 (CMemset p cell_size) (cuMemsetD8 p 0 cell_size)) in
      let? name := pas_cu_device_error_file malloc_ok module (ec_file cell) in
      report_cell cell name.

Definition launch_text : string :=
  "cuLaunchKernel((CUfunction) entry, (unsigned) gx, (unsigned) gy, (unsigned) gz, (unsigned) bx, (unsigned) by, (unsigned) bz, 0, NULL, argv, NULL)".

(** [(unsigned) v], for the three sizes. *)
Definition unsigned3 (x y z : Z) : Z * Z * Z := (uwrap 32 x, uwrap 32 y, uwrap 32 z).

Definition pas_dev_launch (malloc_ok : bool) (entry gx gy gz bx by_ bz argv : Z) : M unit := fun s =>
  if entry =? 0 then mret tt s
  else
    (do? CU_CHECK launch_text (drive0 (CLaunch entry (unsigned3 gx gy gz) (unsigned3 bx by_ bz))
       (cuLaunchKernel entry (unsigned3 gx gy gz) (unsigned3 bx by_ bz) (host s) argv)) in
     do? CU_CHECK "cuCtxSynchronize()" (drive0 CSync cuCtxSynchronize) in
     pas_cu_check_device_error malloc_ok entry) s.

(** * Programs *)

(** What a program does with the device, and a sequence of it; the results of the
    operations, or [None] when the process was ended. *)
Inductive op :=
  | OAlloc (n : Z) | OCopyTo (dst src n : Z) | OCopyFrom (dst src n : Z) | OFree (p : Z) | OLoad (ptx : Z)
  | OFunction (module : Z) (name : option string) | OLaunch (entry gx gy gz bx by_ bz argv : Z).

Definition unit_op (m : M unit) : M Z := do? m in mret 0.
Definition run_op (malloc_ok : bool) (o : op) : M Z :=
  match o with
  | OAlloc n => pas_dev_alloc n
  | OCopyTo d a n => unit_op (pas_dev_copy_to d a n)
  | OCopyFrom a d n => unit_op (pas_dev_copy_from a d n)
  | OFree p => unit_op (pas_dev_free p)
  | OLoad ptx => pas_dev_module_load ptx
  | OFunction m name => pas_dev_module_get_function m name
  | OLaunch e gx gy gz bx by_ bz argv => unit_op (pas_dev_launch malloc_ok e gx gy gz bx by_ bz argv)
  end.
Fixpoint run_ops (malloc_ok : bool) (ops : list op) : M (list Z) :=
  match ops with
  | [] => mret []
  | o :: r => let? v := run_op malloc_ok o in let? vs := run_ops malloc_ok r in mret (v :: vs)
  end.

(** ** Reasoning about the shim *)

(** From a state with [P], [m] returns with [Q] or ends the process with [R]. *)
Definition spec {A} (P : shim -> Prop) (m : M A) (Q : A -> shim -> Prop) (R : shim -> Prop) : Prop :=
  forall s, P s -> match m s with
                   | Ok (Some a, s') => Q a s'
                   | Ok (None, s') => R s'
                   | Err _ => True
                   end.

Lemma spec_ret {A} (a : A) (P : shim -> Prop) (Q : A -> shim -> Prop) R : (forall s, P s -> Q a s) -> spec P (mret a) Q R.
Proof using. intros HQ s Hs. by apply HQ. Qed.

Lemma spec_bind {A B} P (m : M A) (k : A -> M B) Q Q' R :
  spec P m Q R -> (forall a, spec (Q a) (k a) Q' R) -> spec P (mbind m k) Q' R.
Proof using.
  intros Hm Hk s Hs. specialize (Hm s Hs). unfold mbind. destruct (m s) as [[[a |] s'] | e]; [| done | done].
  by apply Hk.
Qed.

Lemma spec_conseq {A} (P P' : shim -> Prop) (m : M A) (Q Q' : A -> shim -> Prop) (R R' : shim -> Prop) :
  spec P' m Q' R' -> (forall s, P s -> P' s) -> (forall a s, Q' a s -> Q a s) -> (forall s, R' s -> R s) -> spec P m Q R.
Proof using.
  intros Hm H1 H2 H3 s Hs. specialize (Hm s (H1 s Hs)). destruct (m s) as [[[a |] s'] | e]; auto.
Qed.

Lemma spec_drive {A} c (f : D -> Z * A * D) (P : shim -> Prop) (Q : Z * A -> shim -> Prop) R :
  (forall s rc a d, P s -> f (driver s) = (rc, a, d) -> Q (rc, a) (called c rc d s)) -> spec P (drive c f) Q R.
Proof using.
  intros HQ s Hs. unfold drive. destruct (f (driver s)) as [[rc a] d] eqn:E. by apply (HQ s rc a d).
Qed.

(** A checked call: the process is ended unless the call succeeds. *)
Lemma spec_check {A} what c (f : D -> Z * A * D) (P : shim -> Prop) (Q : A -> shim -> Prop) (R : shim -> Prop) :
  (forall s a d, P s -> f (driver s) = (CUDA_SUCCESS, a, d) -> Q a (called c CUDA_SUCCESS d s)) ->
  (forall s rc a d p, P s -> f (driver s) = (rc, a, d) -> rc <> CUDA_SUCCESS -> R (set_proc p (called c rc d s))) ->
  spec P (CU_CHECK what (drive c f)) Q R.
Proof using.
  intros HQ HR s Hs. unfold CU_CHECK, mbind, drive. destruct (f (driver s)) as [[rc a] d] eqn:E.
  destruct (Z.eqb_spec rc CUDA_SUCCESS) as [-> | Hn]; [by apply HQ |]. by apply (HR s rc a d).
Qed.

Lemma spec_check0 what c (f : D -> Z * D) (P : shim -> Prop) (Q : unit -> shim -> Prop) (R : shim -> Prop) :
  (forall s d, P s -> f (driver s) = (CUDA_SUCCESS, d) -> Q tt (called c CUDA_SUCCESS d s)) ->
  (forall s rc d p, P s -> f (driver s) = (rc, d) -> rc <> CUDA_SUCCESS -> R (set_proc p (called c rc d s))) ->
  spec P (CU_CHECK what (drive0 c f)) Q R.
Proof using.
  intros HQ HR. apply spec_check.
  - intros s [] d Hs. destruct (f (driver s)) as [rc d'] eqn:E. intros [= -> ->]. by apply HQ.
  - intros s rc [] d p Hs. destruct (f (driver s)) as [rc' d'] eqn:E. intros [= -> ->] Hn. by apply HR.
Qed.

(** ** The calls that were made *)

Definition loads (l : list (call * Z)) : list Z := omap (fun c => match c.1 with CModuleLoad p => Some p | _ => None end) l.
Definition inits (l : list (call * Z)) : list (call * Z) := filter (fun c => c.1 = CInit) l.
(** All calls but those that make the context need one; two are made by routines that
    bring it up first. *)
Definition needs_context (c : call) : bool := match c with CInit | CDeviceGet | CCtxCreate _ => false | _ => true end.
Definition ensured (c : call) : bool := match c with CMemAlloc _ | CModuleLoad _ => true | _ => false end.
Definition in_context (l : list (call * Z)) : Prop := exists dev, (CCtxCreate dev, CUDA_SUCCESS) ∈ l.
Definition context_first (which : call -> bool) (l : list (call * Z)) : Prop := forall i c rc,
  l !! i = Some (c, rc) -> which c = true -> in_context (take i l).
Definition loaded_once (l : list Z) : Prop :=
  NoDup (take PAS_MODULE_CACHE_MAX l) /\ forall p, p ∈ take PAS_MODULE_CACHE_MAX l -> p ∉ drop PAS_MODULE_CACHE_MAX l.

Definition trace_ok (l : list (call * Z)) : Prop :=
  (length (inits l) <= 1)%nat /\ context_first ensured l /\ loaded_once (loads l).

#[local] Arguments loads _ : simpl never.
#[local] Arguments inits _ : simpl never.

Definition live (s : shim) : Prop :=
  trace_ok (calls s) /\ map fst (g_module_cache s) = take PAS_MODULE_CACHE_MAX (loads (calls s)) /\
  if g_cu_ready s then in_context (calls s) else inits (calls s) = [].
Definition over (s : shim) : Prop := trace_ok (calls s).

Lemma loads_app l r : loads (l ++ r) = loads l ++ loads r.
Proof using. apply omap_app. Qed.
Lemma inits_app l r : inits (l ++ r) = inits l ++ inits r.
Proof using. apply list.filter_app. Qed.

Lemma loads_snoc l c rc : loads (l ++ [(c, rc)]) = match c with CModuleLoad p => loads l ++ [p] | _ => loads l end.
Proof using. rewrite loads_app. destruct c; try done; apply app_nil_r. Qed.
Lemma inits_snoc l c rc : length (inits (l ++ [(c, rc)])) = (if bool_decide (c = CInit) then S else id) (length (inits l)).
Proof using.
  rewrite inits_app, length_app. unfold inits at 2. case_bool_decide as E.
  - rewrite filter_cons_True, filter_nil by done. cbn [length]. lia.
  - rewrite filter_cons_False, filter_nil by done. cbn [length]. unfold id. lia.
Qed.

Lemma in_context_app l r : in_context l -> in_context (l ++ r).
Proof using. intros [dev Hd]. exists dev. apply elem_of_app. by left. Qed.

Lemma context_first_snoc which l c rc : context_first which l -> (which c = true -> in_context l) -> context_first which (l ++ [(c, rc)]).
Proof using.
  intros Hl Hc i c' rc' Hi Hn. destruct (decide (i < length l)%nat) as [Hlt | Hge].
  - rewrite lookup_app_l in Hi by done. rewrite take_app_le by lia. by apply (Hl i c' rc').
  - rewrite lookup_app_r in Hi by lia. apply list_lookup_singleton_Some in Hi as [Hz [= <- <-]].
    rewrite take_app_ge by lia. apply in_context_app. by apply Hc.
Qed.

Definition quiet (c : call) : bool := match c with CInit | CMemAlloc _ | CModuleLoad _ => false | _ => true end.

Lemma quiet_trace l c rc : quiet c = true ->
  loads (l ++ [(c, rc)]) = loads l /\ inits (l ++ [(c, rc)]) = inits l /\ (trace_ok l -> trace_ok (l ++ [(c, rc)])).
Proof using.
  intros Hq. assert (loads (l ++ [(c, rc)]) = loads l) as El by (rewrite loads_app; destruct c; try done; apply app_nil_r).
  assert (inits (l ++ [(c, rc)]) = inits l) as Ei by (rewrite inits_app; destruct c; try done; apply app_nil_r).
  split; [done |]. split; [done |]. intros (H1 & H2 & H3). unfold trace_ok. rewrite El, Ei. split; [done |]. split; [| done].
  apply context_first_snoc; [done |]. by destruct c.
Qed.

Lemma live_quiet s c rc d : quiet c = true -> live s -> live (called c rc d s).
Proof using.
  intros Hq (Ht & Hc & Hr). destruct (quiet_trace (calls s) c rc Hq) as (El & Ei & Hok).
  unfold live. cbn. rewrite El, Ei. split; [auto |]. split; [done |].
  destruct (g_cu_ready s); [by apply in_context_app | done].
Qed.
Lemma over_quiet s c rc d p : quiet c = true -> live s -> over (set_proc p (called c rc d s)).
Proof using. intros Hq (Ht & _). by apply (quiet_trace (calls s) c rc Hq). Qed.
Lemma live_over s p : live s -> over (set_proc p s).
Proof using. by intros (Ht & _). Qed.

(** Loading a blob that is not in the cache. *)
Lemma loaded_once_snoc l p : loaded_once l -> p ∉ take PAS_MODULE_CACHE_MAX l -> loaded_once (l ++ [p]).
Proof using.
  intros [Hn Hd] Hp. unfold loaded_once. destruct (decide (length l < PAS_MODULE_CACHE_MAX)%nat) as [Hlt | Hge].
  - rewrite (take_ge (l ++ [p])), (drop_ge (l ++ [p])) by (rewrite length_app; cbn; lia).
    rewrite (take_ge l) in Hp, Hn by lia. split; [| set_solver].
    apply list.NoDup_app. split; [done |]. split; [set_solver |]. apply NoDup_singleton.
  - rewrite take_app_le, drop_app_le by lia. split; [done |]. intros q Hq. specialize (Hd q Hq). set_solver.
Qed.

Lemma cache_find_None ptx l : cache_find ptx l = None <-> ptx ∉ map fst l.
Proof using.
  induction l as [| [q m] l IH]; cbn; [set_solver |]. destruct (Z.eqb_spec q ptx) as [-> | Hn]; [set_solver |].
  rewrite IH. set_solver.
Qed.

Lemma cache_find_app ptx m l r : cache_find ptx l = Some m -> cache_find ptx (l ++ r) = Some m.
Proof using. induction l as [| [q k] l IH]; cbn; [done |]. by destruct (q =? ptx). Qed.

Lemma cache_find_snoc ptx m l : cache_find ptx l = None -> cache_find ptx (l ++ [(ptx, m)]) = Some m.
Proof using. induction l as [| [q k] l IH]; cbn; [by rewrite Z.eqb_refl |]. by destruct (q =? ptx). Qed.

(** A live state that follows [s0]. *)
Definition after (s0 s : shim) : Prop :=
  live s /\ g_module_cache s0 `prefix_of` g_module_cache s /\ calls s0 `prefix_of` calls s.

Lemma spec_quiet {A} what c (f : D -> Z * A * D) s0 : quiet c = true ->
  spec (after s0) (CU_CHECK what (drive c f)) (fun _ => after s0) over.
Proof using.
  intros Hq. apply spec_check.
  - intros s a d (Hs & Hl & Hc) _. split; [by apply live_quiet |]. split; [done | by apply prefix_app_r].
  - intros s rc a d p [Hs _] _ _. by apply over_quiet.
Qed.
Lemma spec_quiet0 what c (f : D -> Z * D) s0 : quiet c = true ->
  spec (after s0) (CU_CHECK what (drive0 c f)) (fun _ => after s0) over.
Proof using. apply spec_quiet. Qed.
Lemma spec_quiet_call {A} c (f : D -> Z * A * D) s0 : quiet c = true ->
  spec (after s0) (drive c f) (fun _ => after s0) over.
Proof using. intros Hq. apply spec_drive. intros s rc a d (Hs & Hl & Hc) _. split; [by apply live_quiet |]. split; [done | by apply prefix_app_r]. Qed.

Lemma spec_die {A} text s0 Q : spec (after s0) (die (A := A) text) Q over.
Proof using. intros s [Hs _]. by apply live_over. Qed.
Lemma spec_mret {A} (a : A) s0 : spec (after s0) (mret a) (fun _ => after s0) over.
Proof using. by apply spec_ret. Qed.

(** While the context is brought up. *)
Definition starting (s0 s : shim) : Prop :=
  trace_ok (calls s) /\ map fst (g_module_cache s) = take PAS_MODULE_CACHE_MAX (loads (calls s)) /\
  g_module_cache s0 `prefix_of` g_module_cache s /\ calls s0 `prefix_of` calls s.

Lemma starting_quiet s0 s c rc d : quiet c = true -> starting s0 s -> starting s0 (called c rc d s).
Proof using.
  intros Hq (Ht & Hc & Hl & Hp). destruct (quiet_trace (calls s) c rc Hq) as (El & _ & Hok).
  split; [by apply Hok |]. split; [cbn [called calls g_module_cache]; by rewrite El |]. split; [done | by apply prefix_app_r].
Qed.
Lemma spec_starting {A} what c (f : D -> Z * A * D) s0 : quiet c = true ->
  spec (starting s0) (CU_CHECK what (drive c f)) (fun _ s => starting s0 s /\ (c, CUDA_SUCCESS) ∈ calls s) over.
Proof using.
  intros Hq. apply spec_check.
  - intros s a d Hs _. split; [by apply starting_quiet |]. cbn. set_solver.
  - intros s rc a d p Hs _ _. apply (starting_quiet s0 s c rc d Hq Hs).
Qed.

Lemma spec_init s0 : spec (fun s => after s0 s /\ g_cu_ready s = false) (CU_CHECK "cuInit(0)" (drive0 CInit cuInit))
  (fun _ => starting s0) over.
Proof using.
  assert (forall s rc, after s0 s -> g_cu_ready s = false -> trace_ok (calls s ++ [(CInit, rc)])) as Hok.
  { intros s rc [(Ht & _ & Hr) _] Er. rewrite Er in Hr. destruct Ht as (_ & H2 & H3).
    split; [by rewrite inits_snoc, bool_decide_true, Hr |]. split; [by apply context_first_snoc | by rewrite loads_snoc]. }
  apply spec_check0.
  - intros s d [Hs Er] _. split; [by apply Hok |]. destruct Hs as [(_ & Hc & _) [Hl Hp]].
    split; [cbn [called calls g_module_cache]; by rewrite loads_snoc |]. split; [done | by apply prefix_app_r].
  - intros s rc d p [Hs Er] _ _. by apply Hok.
Qed.

Lemma spec_ensure s0 : spec (after s0) pas_cu_ensure (fun _ s => after s0 s /\ g_cu_ready s = true) over.
Proof using.
  intros s Hs. unfold pas_cu_ensure. destruct (g_cu_ready s) eqn:Er; [done |].
  assert (after s0 s /\ g_cu_ready s = false) as Hs' by done. clear Hs Er. revert s Hs'.
  eapply spec_bind; [apply spec_init | cbv beta; intros _]. eapply spec_bind; [by apply spec_starting |]. intros dev.
  eapply spec_bind. { eapply spec_conseq; [by apply (spec_starting _ (CCtxCreate dev) _ s0) | by intros ? [? _] | intros ? ? ?; eassumption | done]. }
  intros ctx s [(Ht & Hc & Hl & Hp) Hx]. split; [| done]. split; [| done]. split; [done |]. split; [done |]. by exists dev.
Qed.

(** The module a load returns is in the cache while there is room. *)
Definition cached (ptx m : Z) (s : shim) : Prop :=
  (length (loads (calls s)) <= PAS_MODULE_CACHE_MAX)%nat -> cache_find ptx (g_module_cache s) = Some m.

Lemma spec_load_module ptx s0 :
  spec (fun s => after s0 s /\ g_cu_ready s = true) (load_module ptx) (fun m s => after s0 s /\ cached ptx m s) over.
Proof using.
  intros s [Hs Er]. unfold load_module. destruct (cache_find ptx (g_module_cache s)) as [m |] eqn:E; [by split; [| intros _] |].
  destruct Hs as [(Ht & Hc & Hr) [Hl Hp]]. rewrite Er in Hr. unfold mbind, CU_CHECK, mbind, drive.
  destruct (cuModuleLoadData _ _ _) as [[rc m] d].
  assert (trace_ok (calls s ++ [(CModuleLoad ptx, rc)])) as Ht'.
  { destruct Ht as (H1 & H2 & H3). split; [by rewrite inits_snoc |]. split; [by apply context_first_snoc |].
    rewrite loads_snoc. apply loaded_once_snoc; [done |]. rewrite <- Hc. by apply cache_find_None. }
  destruct (Z.eqb_spec rc CUDA_SUCCESS) as [-> | Hn]; [| done]. cbn [mret ret on_shim g_module_cache called].
  pose proof (f_equal length Hc) as Hlen. rewrite length_map, length_take in Hlen.
  destruct (Nat.ltb_spec (length (g_module_cache s)) PAS_MODULE_CACHE_MAX) as [Hlt | Hge].
  - split.
    + split; [| by split; apply prefix_app_r]. split; [done |]. split.
      * cbn [set_cache called g_module_cache calls]. rewrite map_app, Hc, loads_snoc.
        rewrite (take_ge (loads (calls s))), take_ge by (rewrite ?length_app; cbn [length]; lia). done.
      * cbn. rewrite Er. by apply in_context_app.
    + intros _. cbn. by apply cache_find_snoc.
  - split.
    + split; [| by split; [| apply prefix_app_r]]. split; [done |]. split.
      * cbn [called g_module_cache calls]. rewrite Hc, loads_snoc, take_app_le by lia. done.
      * cbn. rewrite Er. by apply in_context_app.
    + intros Hle. cbn [called calls] in Hle. rewrite loads_snoc, length_app in Hle. cbn [length] in Hle. lia.
Qed.

Lemma spec_check_error mo fn s0 : spec (after s0) (pas_cu_check_device_error mo fn) (fun _ => after s0) over.
Proof using.
  eapply spec_bind; [by apply spec_quiet |]. intros module. eapply spec_bind; [by apply spec_quiet_call |]. intros [rc [p size]].
  destruct (rc =? CUDA_ERROR_NOT_FOUND); [apply spec_mret |]. destruct (negb _); [apply spec_die |].
  destruct (negb _); [apply spec_die |]. eapply spec_bind; [by apply spec_quiet |]. intros bs. cbn zeta.
  destruct (_ =? PAS_DEV_ERROR_NONE) eqn:Ec; [apply spec_mret |]. eapply spec_bind; [by apply spec_quiet0 | cbv beta; intros _].
  eapply (spec_bind _ _ _ (fun _ => after s0)).
  - unfold pas_cu_device_error_file. destruct (pas_dev_error_file_symbol _ _) as [sym |]; [| apply spec_mret].
    eapply spec_bind; [by apply spec_quiet_call |]. intros [rc' [p' n]]. destruct (_ || _); [apply spec_mret |].
    destruct (negb mo); [apply spec_mret |]. eapply spec_bind; [by apply spec_quiet_call |]. intros [rc'' bs']. apply spec_mret.
  - intros name s [Hs _]. unfold report_cell. rewrite Ec. by apply live_over.
Qed.

Lemma spec_unit_op (m : M unit) s0 : spec (after s0) m (fun _ => after s0) over ->
  spec (after s0) (unit_op m) (fun _ => after s0) over.
Proof using. intros Hm. eapply spec_bind; [exact Hm | cbv beta; intros _]. apply spec_mret. Qed.

(** Operations other than the load of a module. *)
Lemma spec_op mo o s0 : (forall ptx, o <> OLoad ptx) -> spec (after s0) (run_op mo o) (fun _ => after s0) over.
Proof using.
  intros Ho. destruct o as [n | a b n | a b n | q | q | m [name |] | e gx gy gz bx by_ bz argv]; cbn [run_op].
  - unfold pas_dev_alloc. destruct (n <=? 0); [apply spec_mret |]. eapply spec_bind; [apply spec_ensure | cbv beta; intros _].
    apply spec_check.
    + intros s h d [[(Ht & Hc & Hr) [Hl Hp]] Er] _. rewrite Er in Hr. split; [| by split; [| apply prefix_app_r]].
      destruct Ht as (H1 & H2 & H3). unfold live. cbn [called calls g_module_cache g_cu_ready]. rewrite loads_snoc, Er.
      split; [| split; [done | by apply in_context_app]].
      split; [by rewrite inits_snoc |]. split; [by apply context_first_snoc | by rewrite loads_snoc].
    + intros s rc h d p [[(Ht & Hc & Hr) _] Er] _ _. rewrite Er in Hr. destruct Ht as (H1 & H2 & H3).
      split; cbn; [by rewrite inits_snoc |]. split; [by apply context_first_snoc | by rewrite loads_snoc].
  - apply spec_unit_op. intros s Hs. unfold pas_dev_copy_to. destruct (_ && _); [| done].
    unfold rbind. destruct (load_bytes _ _ _) as [bs | e]; [| done]. by eapply spec_quiet0.
  - apply spec_unit_op. unfold pas_dev_copy_from. destruct (_ && _); [| apply spec_mret].
    eapply spec_bind; [by apply spec_quiet |]. intros bs s Hs. unfold rbind. by destruct (store_bytes _ _ _).
  - apply spec_unit_op. unfold pas_dev_free. destruct (negb _); [by apply spec_quiet0 | apply spec_mret].
  - by destruct (Ho q).
  - cbn. destruct (m =? 0); [apply spec_mret | by apply spec_quiet].
  - apply spec_mret.
  - apply spec_unit_op. intros s Hs. unfold pas_dev_launch. destruct (e =? 0); [done |].
    generalize (host s). intros hm. revert s Hs. eapply spec_bind; [by apply spec_quiet0 | cbv beta; intros _].
    eapply spec_bind; [by apply spec_quiet0 | cbv beta; intros _]. apply spec_check_error.
Qed.

Lemma spec_load ptx s0 : spec (after s0) (pas_dev_module_load ptx) (fun m s => after s0 s /\ cached ptx m s) over.
Proof using.
  intros s Hs. unfold pas_dev_module_load. destruct (ptx =? 0); [by apply (spec_die _ s0) |].
  unfold rbind. destruct (load _ _) as [c | e]; [| done]. destruct (Ascii.eqb c "000"); [by apply (spec_die _ s0) |].
  revert s Hs. eapply spec_bind; [apply spec_ensure | cbv beta; intros _]. apply spec_load_module.
Qed.

Lemma after_refl s : live s -> after s s.
Proof using. done. Qed.
Lemma after_trans s1 s2 s3 : after s1 s2 -> after s2 s3 -> after s1 s3.
Proof using. intros (_ & H1 & H2) (Hs & H3 & H4). split; [done |]. split; by etrans. Qed.

Lemma cached_after ptx m s s' : cached ptx m s -> after s s' -> cached ptx m s'.
Proof using.
  intros Hc (_ & [r Hr] & [k Hk]) Hle. rewrite Hk, loads_app, length_app in Hle. rewrite Hr. apply cache_find_app, Hc. lia.
Qed.

Lemma spec_run mo ops : forall s0, spec (after s0) (run_ops mo ops)
  (fun vs s => after s0 s /\ length vs = length ops /\
     forall i ptx m, ops !! i = Some (OLoad ptx) -> vs !! i = Some m -> cached ptx m s) over.
Proof using.
  induction ops as [| o ops IH]; intros s0; [by apply spec_ret |]. cbn [run_ops].
  eapply (spec_bind _ _ _ (fun v s => after s0 s /\ forall ptx, o = OLoad ptx -> cached ptx v s)).
  { assert ((exists ptx, o = OLoad ptx) \/ forall ptx, o <> OLoad ptx) as [[ptx ->] | Hn] by (destruct o; eauto).
    - eapply spec_conseq; [apply (spec_load ptx s0) | done | | done]. intros m s [Hs Hc]. split; [done |]. by intros ? [= <-].
    - eapply spec_conseq; [apply (spec_op mo o s0) | done | | done]; [done |].
      intros v s Hs. split; [done |]. intros ptx ->. by destruct (Hn ptx). }
  intros v s [Hs Hc]. unfold mbind. pose proof (IH s s (after_refl s (proj1 Hs))) as Hr.
  destruct (run_ops mo ops s) as [[[vs |] s'] | e]; [| done | done]. destruct Hr as (Ha & Hlen & Hl). cbn [mret ret].
  split; [by eapply after_trans |]. split; [cbn; by rewrite Hlen |]. intros [| i] ptx m; cbn.
  - intros [= ->] [= <-]. apply (cached_after ptx v s); auto.
  - apply Hl.
Qed.

(** The state a program starts in. *)
Definition start (h : mem) (d : D) (p : Proc) : shim := mkShim false 0 0 [] h d p [].

Lemma start_live h d p : live (start h d p).
Proof using.
  split; [| done]. split; [change (0 <= 1)%nat; lia |]. split; [by intros i c rc Hi |].
  split; [apply NoDup_nil_2 | intros q Hq; apply elem_of_nil in Hq; done].
Qed.

(** ** Programs that open the device first *)

(** An operation that brings the context up, and one that makes no driver call. *)
Definition opens (o : op) : bool := match o with OAlloc n => 0 <? n | OLoad _ => true | _ => false end.
Definition silent (o : op) : bool :=
  match o with
  | OAlloc n => n <=? 0
  | OCopyTo d a n => negb (negb (d =? 0) && negb (a =? 0) && (0 <? n))
  | OCopyFrom a d n => negb (negb (a =? 0) && negb (d =? 0) && (0 <? n))
  | OFree p => p =? 0
  | OLoad _ => false
  | OFunction m name => (m =? 0) || match name with None => true | Some _ => false end
  | OLaunch e _ _ _ _ _ _ _ => e =? 0
  end.
(** The first operation that is not silent allocates or loads: only those give handles. *)
Fixpoint opens_first (ops : list op) : bool :=
  match ops with
  | [] => true
  | o :: r => opens o || (silent o && opens_first r)
  end.

Definition covered (s : shim) : Prop := context_first needs_context (calls s).
Definition up (s : shim) : Prop := g_cu_ready s = true /\ in_context (calls s) /\ covered s.
(** Nothing that needs a context was called, or there is one. *)
Definition cold (s : shim) : Prop := covered s /\ (g_cu_ready s = true -> in_context (calls s)).

Lemma covered_snoc s c rc d : covered s -> (needs_context c = true -> in_context (calls s)) -> covered (called c rc d s).
Proof using. apply context_first_snoc. Qed.

Lemma up_called c rc d s : up s -> up (called c rc d s).
Proof using. intros (Hr & Hc & Hf). split; [done |]. split; [by apply in_context_app | by apply covered_snoc]. Qed.

Lemma up_drive {A} c (f : D -> Z * A * D) : spec up (drive c f) (fun _ => up) covered.
Proof using. apply spec_drive. intros s rc a d Hs _. by apply up_called. Qed.
Lemma up_check {A} what c (f : D -> Z * A * D) : spec up (CU_CHECK what (drive c f)) (fun _ => up) covered.
Proof using.
  apply spec_check; [intros s a d Hs _; by apply up_called |]. intros s rc a d p Hs _ _. apply (up_called c rc d s Hs).
Qed.
Lemma up_mret {A} (a : A) : spec up (mret a) (fun _ => up) covered.
Proof using. by apply spec_ret. Qed.
Lemma up_die {A} text Q : spec up (die (A := A) text) Q covered.
Proof using. by intros s (_ & _ & Hs). Qed.
Lemma up_unit_op (m : M unit) : spec up m (fun _ => up) covered -> spec up (unit_op m) (fun _ => up) covered.
Proof using. intros Hm. eapply spec_bind; [exact Hm | cbv beta; intros _]. apply up_mret. Qed.

Lemma cold_start (c : call) rc d s : needs_context c = false -> cold s -> g_cu_ready s = false -> cold (called c rc d s).
Proof using. intros Hn [Hc _] Hr. split; [apply covered_snoc; [done | by rewrite Hn] | cbn; by rewrite Hr]. Qed.

Lemma cold_check {A} what c (f : D -> Z * A * D) : needs_context c = false ->
  spec (fun s => cold s /\ g_cu_ready s = false) (CU_CHECK what (drive c f)) (fun _ s => (cold s /\ g_cu_ready s = false) /\ (c, CUDA_SUCCESS) ∈ calls s) covered.
Proof using.
  intros Hn. apply spec_check.
  - intros s a d [Hs Hr] _. split; [split; [by apply cold_start | done] |]. cbn. set_solver.
  - intros s rc a d p [Hs Hr] _ _. apply (cold_start c rc d s Hn Hs Hr).
Qed.

Lemma up_ensure : spec cold pas_cu_ensure (fun _ => up) covered.
Proof using.
  intros s Hs. unfold pas_cu_ensure. destruct (g_cu_ready s) eqn:Er; [split; [done |]; split; [by apply Hs | apply Hs] |].
  assert (cold s /\ g_cu_ready s = false) as Hs' by done. clear Hs Er. revert s Hs'.
  eapply spec_bind; [by apply (cold_check _ CInit) | cbv beta; intros _].
  eapply (spec_bind _ _ _ (fun _ s => cold s /\ g_cu_ready s = false)).
  { eapply spec_conseq; [by apply (cold_check _ CDeviceGet) | by intros ? [? _] | by intros ? ? [? _] | done]. }
  intros dev. eapply spec_bind; [by apply (cold_check _ (CCtxCreate dev)) |].
  intros ctx s [[[Hc _] _] Hx]. split; [done |]. split; [by exists dev | done].
Qed.
Lemma up_cold s : up s -> cold s.
Proof using. by intros (Hr & Hc & Hf). Qed.

Lemma up_check_error mo fn : spec up (pas_cu_check_device_error mo fn) (fun _ => up) covered.
Proof using.
  eapply spec_bind; [apply up_check |]. intros module. eapply spec_bind; [apply up_drive |]. intros [rc [p size]].
  destruct (rc =? CUDA_ERROR_NOT_FOUND); [apply up_mret |]. destruct (negb _); [apply up_die |].
  destruct (negb _); [apply up_die |]. eapply spec_bind; [apply up_check |]. intros bs. cbn zeta.
  destruct (_ =? PAS_DEV_ERROR_NONE) eqn:Ec; [apply up_mret |]. eapply spec_bind; [apply up_check | cbv beta; intros _].
  eapply (spec_bind _ _ _ (fun _ => up)).
  - unfold pas_cu_device_error_file. destruct (pas_dev_error_file_symbol _ _) as [sym |]; [| apply up_mret].
    eapply spec_bind; [apply up_drive |]. intros [rc' [p' n]]. destruct (_ || _); [apply up_mret |].
    destruct (negb mo); [apply up_mret |]. eapply spec_bind; [apply up_drive |]. intros [rc'' bs']. apply up_mret.
  - intros name s (_ & _ & Hs). unfold report_cell. by rewrite Ec.
Qed.

Lemma up_load_module ptx : spec up (load_module ptx) (fun _ => up) covered.
Proof using.
  intros s Hs. unfold load_module. destruct (cache_find ptx (g_module_cache s)); [done |]. generalize (host s). intros hm. revert s Hs.
  eapply spec_bind; [apply up_check |]. intros m. eapply (spec_bind _ _ _ (fun _ => up)); [| intros _; apply up_mret].
  intros s Hs. unfold on_shim. by destruct (length (g_module_cache s) <? PAS_MODULE_CACHE_MAX)%nat.
Qed.

(** An operation that opens the device leaves it up; one on a device that is up, too. *)
Lemma opens_up mo o : opens o = true -> spec cold (run_op mo o) (fun _ => up) covered.
Proof using.
  destruct o as [n | | | | ptx | |]; try done; cbn [opens run_op]; intros Ho.
  - unfold pas_dev_alloc. apply Z.ltb_lt in Ho. rewrite (proj2 (Z.leb_gt _ _)) by lia.
    eapply spec_bind; [apply up_ensure | cbv beta; intros _]. apply up_check.
  - intros s Hs. unfold pas_dev_module_load. destruct (ptx =? 0); [apply Hs |].
    unfold rbind. destruct (load _ _) as [c | e]; [| done]. destruct (Ascii.eqb c "000"); [apply Hs |].
    revert s Hs. eapply spec_bind; [apply up_ensure | cbv beta; intros _]. apply up_load_module.
Qed.

Lemma op_up mo o : spec up (run_op mo o) (fun _ => up) covered.
Proof using.
  destruct (opens o) eqn:Ho; [eapply spec_conseq; [by apply opens_up | apply up_cold | done | done] |].
  destruct o as [n | a b n | a b n | q | q | m [name |] | e gx gy gz bx by_ bz argv]; cbn [run_op]; cbn [opens] in Ho.
  - unfold pas_dev_alloc. apply Z.ltb_ge in Ho. rewrite (proj2 (Z.leb_le _ _)) by lia. apply up_mret.
  - apply up_unit_op. intros s Hs. unfold pas_dev_copy_to. destruct (_ && _); [| done].
    unfold rbind. destruct (load_bytes _ _ _) as [bs | e]; [| done]. by eapply up_check.
  - apply up_unit_op. unfold pas_dev_copy_from. destruct (_ && _); [| apply up_mret].
    eapply spec_bind; [apply up_check |]. intros bs s Hs. unfold rbind. by destruct (store_bytes _ _ _).
  - apply up_unit_op. unfold pas_dev_free. destruct (negb _); [apply up_check | apply up_mret].
  - done.
  - cbn. destruct (m =? 0); [apply up_mret | apply up_check].
  - apply up_mret.
  - apply up_unit_op. intros s Hs. unfold pas_dev_launch. destruct (e =? 0); [done |].
    generalize (host s). intros hm. revert s Hs. eapply spec_bind; [apply up_check | cbv beta; intros _].
    eapply spec_bind; [apply up_check | cbv beta; intros _]. apply up_check_error.
Qed.

Lemma silent_op mo o s : silent o = true -> run_op mo o s = mret 0 s.
Proof using.
  destruct o as [n | a b n | a b n | q | q | m [name |] | e gx gy gz bx by_ bz argv]; cbn [silent run_op]; intros Hs; try done.
  - unfold pas_dev_alloc. by rewrite Hs.
  - unfold unit_op, mbind, pas_dev_copy_to. apply negb_true_iff in Hs. by rewrite Hs.
  - unfold unit_op, mbind, pas_dev_copy_from. apply negb_true_iff in Hs. by rewrite Hs.
  - unfold unit_op, mbind, pas_dev_free. by rewrite Hs.
  - rewrite orb_false_r in Hs. cbn. by rewrite Hs.
  - unfold unit_op, mbind, pas_dev_launch. by rewrite Hs.
Qed.

Lemma run_up mo ops : spec up (run_ops mo ops) (fun _ => covered) covered.
Proof using.
  induction ops as [| o ops IH]; [by intros s (_ & _ & Hs) |]. eapply spec_bind; [apply op_up |]. intros v.
  eapply spec_bind; [exact IH |]. intros vs. by apply spec_ret.
Qed.

Lemma run_cold mo ops : opens_first ops = true -> spec cold (run_ops mo ops) (fun _ => covered) covered.
Proof using.
  induction ops as [| o ops IH]; cbn [opens_first run_ops]; intros Ho; [by intros s [Hs _] |].
  destruct (opens o) eqn:Eo.
  - eapply spec_bind; [by apply opens_up |]. intros v. eapply spec_bind; [apply run_up |]. intros vs. by apply spec_ret.
  - apply andb_true_iff in Ho as [Hsil Ho]. intros s Hs. unfold mbind at 1. rewrite silent_op by done. cbn [mret ret].
    revert s Hs. eapply spec_bind; [by apply IH |]. intros vs. by apply spec_ret.
Qed.

(** C16: whatever a program does with the GPU, in whatever order and whatever the
    driver answers: the driver is initialized at most once; no memory is allocated and
    no module loaded before a context was created; of the first 32 module loads no two
    are of the same blob of device code, and no later load is of one of those blobs;
    and while there are at most 32 loads, every request for a blob gets the module of
    its one load. Copies, frees, lookups and launches do not bring the context up
    themselves: in a program whose first operation with a handle is an allocation or a
    module load, as the handles make it, they come after the context too. *)
Theorem device_code_loaded_once malloc_ok ops h d p r s (Hrun : run_ops malloc_ok ops (start h d p) = Ok (r, s)) :
  trace_ok (calls s) /\
  (opens_first ops = true -> context_first needs_context (calls s)) /\
  forall vs, r = Some vs -> (length (loads (calls s)) <= PAS_MODULE_CACHE_MAX)%nat ->
    NoDup (loads (calls s)) /\ length vs = length ops /\
    forall i j ptx, ops !! i = Some (OLoad ptx) -> ops !! j = Some (OLoad ptx) -> vs !! i = vs !! j.
Proof using.
  pose proof (spec_run malloc_ok ops (start h d p) (start h d p) (after_refl _ (start_live h d p))) as Hs. rewrite Hrun in Hs.
  assert (opens_first ops = true -> context_first needs_context (calls s)) as Hcov.
  { intros Ho. assert (cold (start h d p)) as Hst by (split; [by intros i c rc Hi | done]).
    pose proof (run_cold malloc_ok ops Ho _ Hst) as Hs'. rewrite Hrun in Hs'. by destruct r. }
  destruct r as [vs |]; [| by split]. destruct Hs as ((Hlive & _) & Hlen & Hc). pose proof (proj1 Hlive) as Ht. split; [done |]. split; [done |].
  intros ? [= <-] Hle. split; [destruct Ht as (_ & _ & Hn & _); by rewrite take_ge in Hn by lia |]. split; [done |].
  assert (forall i ptx, ops !! i = Some (OLoad ptx) -> vs !! i = cache_find ptx (g_module_cache s)) as Hf.
  { intros i ptx Hi. destruct (lookup_lt_is_Some_2 vs i) as [m Hm].
    { rewrite Hlen. by eapply lookup_lt_Some. }
    rewrite Hm. symmetry. by apply (Hc i ptx m). }
  intros i j ptx Hi Hj. by rewrite (Hf i ptx Hi), (Hf j ptx Hj).
Qed.

(** ** A launch *)

(** The kernel was launched and ran to its end. *)
Definition ran (e : Z) (g b : Z * Z * Z) (h : mem) (argv : Z) (d d2 : D) : Prop :=
  exists d1, cuLaunchKernel e g b h argv d = (CUDA_SUCCESS, d1) /\ cuCtxSynchronize d1 = (CUDA_SUCCESS, d2).

(** The module of the kernel has the error cell at [p], and the driver reads [c] there. *)
Definition holds_cell (fn m p : Z) (c : ErrorCell) (d d5 : D) : Prop :=
  exists d3 d4 bs, cuFuncGetModule fn d = (CUDA_SUCCESS, m, d3) /\
    cuModuleGetGlobal m PAS_DEV_ERROR_SYMBOL d3 = (CUDA_SUCCESS, (p, cell_size), d4) /\
    cuMemcpyDtoH p cell_size d4 = (CUDA_SUCCESS, bs, d5) /\ read_cell bs = c.
Definition has_no_cell (fn : Z) (d : D) : Prop :=
  exists m x d3 d4, cuFuncGetModule fn d = (CUDA_SUCCESS, m, d3) /\
    cuModuleGetGlobal m PAS_DEV_ERROR_SYMBOL d3 = (CUDA_ERROR_NOT_FOUND, x, d4).

(** The name the report gives the file [k]: the module's string for it, when it can be read. *)
Definition file_named (malloc_ok : bool) (m k : Z) (name : option string) (d : D) : Prop :=
  match name with
  | Some f => malloc_ok = true /\ 0 < k /\ exists p n bs d1 d2,
      cuModuleGetGlobal m (PAS_DEV_FILE_SYMBOL +:+ Zs k) d = (CUDA_SUCCESS, (p, n), d1) /\ n <> 0 /\
      cuMemcpyDtoH p n d1 = (CUDA_SUCCESS, bs, d2) /\ f = str (until_nul bs)
  | None => malloc_ok = true -> forall p n bs d1 d2, 0 < k < 2 ^ 31 -> n <> 0 ->
      cuModuleGetGlobal m (PAS_DEV_FILE_SYMBOL +:+ Zs k) d = (CUDA_SUCCESS, (p, n), d1) ->
      cuMemcpyDtoH p n d1 <> (CUDA_SUCCESS, bs, d2)
  end.

(** The process was ended by the shim's own message. *)
Definition died (s s' : shim) : Prop :=
  p_ended (proc s') = true /\ p_out (proc s') = p_out (proc s) /\
  exists text, p_err (proc s') = p_err (proc s) +:+ "pascal-cuda: " +:+ text.
(** The kernel did not run to its end: the launch or the synchronization failed. *)
Definition not_run (e : Z) (g b : Z * Z * Z) (h : mem) (argv : Z) (d : D) : Prop :=
  (exists rc d1, cuLaunchKernel e g b h argv d = (rc, d1) /\ rc <> CUDA_SUCCESS) \/
  exists d1 rc d2, cuLaunchKernel e g b h argv d = (CUDA_SUCCESS, d1) /\ cuCtxSynchronize d1 = (rc, d2) /\ rc <> CUDA_SUCCESS.
(** The driver could not give the error cell: a call failed, or the cell has another size. *)
Definition cell_unread (fn : Z) (d : D) : Prop :=
  (exists rc m d3, cuFuncGetModule fn d = (rc, m, d3) /\ rc <> CUDA_SUCCESS) \/
  exists m d3, cuFuncGetModule fn d = (CUDA_SUCCESS, m, d3) /\
   ((exists rc x d4, cuModuleGetGlobal m PAS_DEV_ERROR_SYMBOL d3 = (rc, x, d4) /\ rc <> CUDA_SUCCESS /\ rc <> CUDA_ERROR_NOT_FOUND) \/
    (exists p n d4, cuModuleGetGlobal m PAS_DEV_ERROR_SYMBOL d3 = (CUDA_SUCCESS, (p, n), d4) /\ n <> cell_size) \/
    exists p d4 rc bs d5, cuModuleGetGlobal m PAS_DEV_ERROR_SYMBOL d3 = (CUDA_SUCCESS, (p, cell_size), d4) /\
      cuMemcpyDtoH p cell_size d4 = (rc, bs, d5) /\ rc <> CUDA_SUCCESS).
(** The cell holds an error, and the driver could not clear it. *)
Definition cell_kept (fn : Z) (d : D) : Prop :=
  exists m p c d1 rc d2, holds_cell fn m p c d d1 /\ ec_code c <> PAS_DEV_ERROR_NONE /\ cuMemsetD8 p 0 cell_size d1 = (rc, d2) /\ rc <> CUDA_SUCCESS.

(** What a launch leaves alone. *)
Definition same_host (s s' : shim) : Prop :=
  host s' = host s /\ g_module_cache s' = g_module_cache s /\ g_cu_ready s' = g_cu_ready s.

Lemma file_symbol_small k : 0 < k < 2 ^ 31 -> pas_dev_error_file_symbol k 64 = Some (PAS_DEV_FILE_SYMBOL +:+ Zs k).
Proof using.
  intros Hk. unfold pas_dev_error_file_symbol. destruct (Z.leb_spec k 0); [lia |]. cbn [orb Nat.eqb].
  assert (String.length (PAS_DEV_FILE_SYMBOL +:+ Zs k) <= 46)%nat as Hl.
  { rewrite <- length_chars, chars_app, length_app. unfold Zs. destruct (Z.ltb_spec k 0); [lia |]. rewrite chars_str.
    unfold dec_bytes, base_digits. pose proof (base_aux_length 10 (S (Z.to_nat (Z.log2 k))) k []) as Hb.
    assert (Z.log2 k < 31) by (apply Z.log2_lt_pow2; lia). cbn [length] in Hb. change (length (chars PAS_DEV_FILE_SYMBOL)) with 15%nat. lia. }
  assert (String.length (PAS_DEV_FILE_SYMBOL +:+ Zs k) <> 0)%nat as Hz by done.
  rewrite (proj2 (Z.ltb_lt _ _)), (proj2 (Z.ltb_lt _ _)) by lia. cbn [andb]. f_equal. unfold snprintf.
  rewrite firstn_all2; [apply str_chars | rewrite length_chars; lia].
Qed.

Lemma file_symbol_some k sym : pas_dev_error_file_symbol k 64 = Some sym -> 0 < k /\ sym = PAS_DEV_FILE_SYMBOL +:+ Zs k.
Proof using.
  unfold pas_dev_error_file_symbol. destruct (Z.leb_spec k 0); [done |]. cbn [orb Nat.eqb].
  destruct (Z.ltb_spec 0 (Z.of_nat (String.length (PAS_DEV_FILE_SYMBOL +:+ Zs k)))); [| done].
  destruct (Z.ltb_spec (Z.of_nat (String.length (PAS_DEV_FILE_SYMBOL +:+ Zs k))) (Z.of_nat 64)); [| done]. cbn [andb].
  intros [= <-]. split; [done |]. unfold snprintf. rewrite firstn_all2; [apply str_chars | rewrite length_chars; lia].
Qed.

(** The name of the file: what the process sees does not change. *)
Lemma error_file_spec mo m k s : exists name s', pas_cu_device_error_file mo m k s = Ok (Some name, s') /\
  same_host s s' /\ proc s' = proc s /\ (forall c, c ∈ calls s -> c ∈ calls s') /\ file_named mo m k name (driver s).
Proof using.
  unfold pas_cu_device_error_file. destruct (pas_dev_error_file_symbol k 64) as [sym |] eqn:Es.
  2:{ exists None, s. split_and!; try done. intros _ p n bs d1 d2 Hk. by rewrite file_symbol_small in Es. }
  apply file_symbol_some in Es as [Hk ->]. unfold mbind, drive.
  destruct (cuModuleGetGlobal _ _ (driver s)) as [[rc [p n]] d1] eqn:Eg.
  destruct (Z.eqb_spec rc CUDA_SUCCESS) as [-> | Hrc]; cbn [negb orb].
  2:{ eexists None, _. split_and!; try done; [cbn; set_solver |]. intros _ ? ? ? ? ? _ _ E. congruence. }
  destruct (Z.eqb_spec n 0) as [-> | Hn].
  { eexists None, _. split_and!; try done; [cbn; set_solver |]. intros _ ? ? ? ? ? _ Hn E. congruence. }
  destruct mo; cbn [negb].
  2:{ eexists None, _. split_and!; try done. cbn. set_solver. }
  cbn [called driver]. destruct (cuMemcpyDtoH p n d1) as [[rc bs] d2] eqn:Ec.
  destruct (Z.eqb_spec rc CUDA_SUCCESS) as [-> | Hrc]; cbn [negb].
  - eexists (Some _), _. split_and!; try done; [cbn; set_solver |]. split; [done |]. split; [done |]. by exists p, n, bs, d1, d2.
  - eexists None, _. split_and!; try done; [cbn; set_solver |]. intros _ ? ? ? ? ? _ _ E. congruence.
Qed.

Lemma pas_cu_fail_died {A} what rc s : exists s', pas_cu_fail (A := A) what rc s = Ok (None, s') /\ same_host s s' /\ died s s'.
Proof using.
  eexists. split; [done |]. split; [done |]. split; [done |]. split; [done |]. eexists. done.
Qed.

(** A checked call returns, or its failure ends the process. *)
Lemma check_cases {A} what c (f : D -> Z * A * D) s :
  (exists a d, f (driver s) = (CUDA_SUCCESS, a, d) /\
     CU_CHECK what (drive c f) s = Ok (Some a, called c CUDA_SUCCESS d s)) \/
  (exists rc a d s', f (driver s) = (rc, a, d) /\ rc <> CUDA_SUCCESS /\
     CU_CHECK what (drive c f) s = Ok (None, s') /\ same_host s s' /\ died s s').
Proof using.
  unfold CU_CHECK, mbind, drive. destruct (f (driver s)) as [[rc a] d] eqn:E.
  destruct (Z.eqb_spec rc CUDA_SUCCESS) as [-> | Hn]; [left; eauto |]. right.
  destruct (pas_cu_fail_died (A := A) what rc (called c rc d s)) as (s' & E' & Hh & Hd). by exists rc, a, d, s'.
Qed.
Lemma check0_cases what c (f : D -> Z * D) s :
  (exists d, f (driver s) = (CUDA_SUCCESS, d) /\
     CU_CHECK what (drive0 c f) s = Ok (Some tt, called c CUDA_SUCCESS d s)) \/
  (exists rc d s', f (driver s) = (rc, d) /\ rc <> CUDA_SUCCESS /\
     CU_CHECK what (drive0 c f) s = Ok (None, s') /\ same_host s s' /\ died s s').
Proof using.
  destruct (check_cases what c (fun d => let '(rc, d') := f d in (rc, tt, d')) s) as [([] & d & E & E') | (rc & [] & d & s' & E & Hd)]; [left | right].
  - exists d. split; [| done]. destruct (f (driver s)) as [rc d']. by injection E as -> ->.
  - exists rc, d, s'. split; [| done]. destruct (f (driver s)) as [rc' d']. by injection E as -> ->.
Qed.

(** What a check of the error cell ends with. *)
Definition checked (mo : bool) (fn : Z) (s : shim) (r : option unit) (s' : shim) : Prop :=
  same_host s s' /\
  match r with
  | Some _ => proc s' = proc s /\
      (has_no_cell fn (driver s) \/ exists m p c d, holds_cell fn m p c (driver s) d /\ ec_code c = PAS_DEV_ERROR_NONE)
  | None => (died s s' /\ (cell_unread fn (driver s) \/ cell_kept fn (driver s))) \/
      exists m p c d d' name, holds_cell fn m p c (driver s) d /\ ec_code c <> PAS_DEV_ERROR_NONE /\
        cuMemsetD8 p 0 cell_size d = (CUDA_SUCCESS, d') /\ (CMemset p cell_size, CUDA_SUCCESS) ∈ calls s' /\
        file_named mo m (ec_file c) name d' /\ proc s' = pas_dev_error_report (Some c) name (proc s)
  end.

Lemma check_error_spec mo fn s : exists r s', pas_cu_check_device_error mo fn s = Ok (r, s') /\ checked mo fn s r s'.
Proof using.
  unfold pas_cu_check_device_error. unfold mbind at 1.
  destruct (check_cases "cuFuncGetModule(&module, fn)" (CFuncModule fn) (cuFuncGetModule fn) s)
    as [(m & d3 & E1 & ->) | (rc & m & d3 & s' & E1 & Hn & -> & Hh & Hd)].
  2:{ exists None, s'. split; [done |]. split; [done |]. left. split; [done |]. left. left. by exists rc, m, d3. }
  set (s1 := called _ _ _ s). assert (same_host s s1 /\ proc s1 = proc s) as [Hh1 Hp1] by done.
  unfold mbind at 1, drive at 1. cbn [driver s1 called]. destruct (cuModuleGetGlobal m PAS_DEV_ERROR_SYMBOL d3) as [[rc [p size]] d4] eqn:E2.
  destruct (Z.eqb_spec rc CUDA_ERROR_NOT_FOUND) as [-> | Hrc].
  { eexists (Some tt), _. split; [done |]. split; [done |]. split; [done |]. left. by exists m, (p, size), d3, d4. }
  destruct (Z.eqb_spec rc CUDA_SUCCESS) as [-> | Hn]; cbn [negb].
  2:{ destruct (pas_cu_fail_died (A := unit) ("cuModuleGetGlobal(" +:+ PAS_DEV_ERROR_SYMBOL +:+ ")") rc
        (called (CGetGlobal m PAS_DEV_ERROR_SYMBOL) rc d4 s1)) as (s' & -> & Hh & Hd). exists None, s'. split; [done |]. split; [done |]. left. split; [done |]. left. right. exists m, d3. split; [done |].
      left. by exists rc, (p, size), d4. }
  destruct (Z.eqb_spec size cell_size) as [-> | Hs]; cbn [negb].
  2:{ eexists None, _. split; [done |]. split; [done |]. left. split; [split; [done |]; split; [done |]; eexists; cbn; done |].
      left. right. exists m, d3. split; [done |]. right. left. by exists p, size, d4. }
  set (s2 := called _ _ _ s1). unfold mbind at 1.
  destruct (check_cases "cuMemcpyDtoH(&cell, cell_ptr, sizeof cell)" (CDtoH p cell_size) (cuMemcpyDtoH p cell_size) s2)
    as [(bs & d5 & E3 & ->) | (rc & bs & d5 & s' & E3 & Hn & -> & Hh & Hd)].
  2:{ exists None, s'. split; [done |]. split; [done |]. left. split; [done |]. left. right. exists m, d3. split; [done |]. right. right. by exists p, d4, rc, bs, d5. }
  assert (holds_cell fn m p (read_cell bs) (driver s) d5) as Hcell by (by exists d3, d4, bs).
  set (s3 := called _ _ _ s2). destruct (Z.eqb_spec (ec_code (read_cell bs)) PAS_DEV_ERROR_NONE) as [Hc | Hc].
  { eexists (Some tt), _. split; [done |]. split; [done |]. split; [done |]. right. by exists m, p, (read_cell bs), d5. }
  unfold mbind at 1.
  destruct (check0_cases "cuMemsetD8(cell_ptr, 0, sizeof cell)" (CMemset p cell_size) (cuMemsetD8 p 0 cell_size) s3)
    as [(d6 & E4 & ->) | (rc & d6 & s' & E4 & Hn & -> & Hh & Hd)].
  2:{ exists None, s'. split; [done |]. split; [done |]. left. split; [done |]. right. by exists m, p, (read_cell bs), d5, rc, d6. }
  unfold mbind. set (s4 := called _ _ _ s3).
  destruct (error_file_spec mo m (ec_file (read_cell bs)) s4) as (name & s5 & -> & Hh5 & Hp5 & Hc5 & Hf).
  unfold report_cell. destruct (Z.eqb_spec (ec_code (read_cell bs)) PAS_DEV_ERROR_NONE); [done |].
  eexists None, _. split; [done |]. split; [done |]. right.
  exists m, p, (read_cell bs), d5, d6, name. split_and!; try done; [| cbn; by rewrite Hp5].
  apply Hc5. cbn. set_solver.
Qed.

Definition plain_name (name : option string) : Prop := match name with Some f => plain f = true | None => True end.

(** C30: a launch never returns over a failed device check. It always comes to an end,
    without touching host memory or the cache: it returns, having written nothing,
    only when the kernel ran to its end and its module has no error cell or a cell
    without an error; otherwise the process is ended. It ends with a message of the
    shim's own only if a driver call failed (the launch, the synchronization, or one of
    those that find, read and clear the cell) or the cell has another size; otherwise
    the kernel recorded a failure: then the cell was cleared, and the report is the
    host's own, with the name of the included file when the module gives it: stdout is
    flushed and, for a name without line ends, one line goes to stderr. *)
Theorem launch_checked mo entry gx gy gz bx by_ bz argv s (He : entry <> 0) :
  let ran_to d := ran entry (unsigned3 gx gy gz) (unsigned3 bx by_ bz) (host s) argv (driver s) d in
  exists r s', pas_dev_launch mo entry gx gy gz bx by_ bz argv s = Ok (r, s') /\ same_host s s' /\
  match r with
  | Some _ => proc s' = proc s /\ exists d, ran_to d /\
      (has_no_cell entry d \/ exists m p c d', holds_cell entry m p c d d' /\ ec_code c = PAS_DEV_ERROR_NONE)
  | None => (died s s' /\ (not_run entry (unsigned3 gx gy gz) (unsigned3 bx by_ bz) (host s) argv (driver s) \/
                            exists d, ran_to d /\ (cell_unread entry d \/ cell_kept entry d))) \/
      exists d m p c d1 d2 name, ran_to d /\ holds_cell entry m p c d d1 /\ ec_code c <> PAS_DEV_ERROR_NONE /\
        cuMemsetD8 p 0 cell_size d1 = (CUDA_SUCCESS, d2) /\ (CMemset p cell_size, CUDA_SUCCESS) ∈ calls s' /\
        file_named mo m (ec_file c) name d2 /\ proc s' = pas_dev_error_report (Some c) name (proc s) /\
        (plain_name name -> stops_with "runtime error: " (proc s) (proc s'))
  end.
Proof using.
  cbv zeta. unfold pas_dev_launch. rewrite (proj2 (Z.eqb_neq _ _) He). unfold mbind at 1.
  destruct (check0_cases launch_text (CLaunch entry (unsigned3 gx gy gz) (unsigned3 bx by_ bz))
      (cuLaunchKernel entry (unsigned3 gx gy gz) (unsigned3 bx by_ bz) (host s) argv) s)
    as [(d1 & E1 & ->) | (rc & d1 & s' & E1 & Hn & -> & Hh & Hd)].
  2:{ exists None, s'. split; [done |]. split; [done |]. left. split; [done |]. left. left. by exists rc, d1. }
  set (s1 := called _ _ _ s). unfold mbind at 1.
  destruct (check0_cases "cuCtxSynchronize()" CSync cuCtxSynchronize s1)
    as [(d2 & E2 & ->) | (rc & d2 & s' & E2 & Hn & -> & Hh & Hd)].
  2:{ exists None, s'. split; [done |]. split; [done |]. left. split; [done |]. left. right. by exists d1, rc, d2. }
  set (s2 := called _ _ _ s1).
  assert (ran entry (unsigned3 gx gy gz) (unsigned3 bx by_ bz) (host s) argv (driver s) (driver s2)) as Hran by (by exists d1).
  destruct (check_error_spec mo entry s2) as (r & s' & -> & Hh & Hr). exists r, s'. split; [done |]. split; [done |].
  destruct r as [u |].
  - destruct Hr as [Hp Hc]. split; [done |]. by exists (driver s2).
  - destruct Hr as [[Hd Hw] | (m & p & c & da & db & name & Hcell & Hc & Em & Hin & Hf & Hp)]; [left; split; [done |]; right; by exists (driver s2) |]. right.
    exists (driver s2), m, p, c, da, db, name. split_and!; try done. intros Hn. rewrite Hp. by apply device_stops.
Qed.

End Shim.

(** ** A device *)

(** A driver whose kernels fail a TRUNC check at line 7, column 9 of file 1: its state
    is the error cell. *)
Definition failing_cell : bytes :=
  map ascii_of_nat [1; 0; 0; 0; 7; 0; 0; 0; 9; 0; 0; 0; 1; 0; 0; 0; 0; 0; 0; 0; 0; 0; 240; 127]%nat.
#[local] Instance toy_driver : Driver bytes := {|
  cuGetErrorName rc := if rc =? CUDA_ERROR_NOT_FOUND then Some "CUDA_ERROR_NOT_FOUND" else None;
  cuGetErrorString _ := None;
  cuInit d := (0, d);
  cuDeviceGet _ d := (0, 5, d);
  cuCtxCreate _ d := (0, 6, d);
  cuMemAlloc _ d := (0, 4096, d);
  cuMemcpyHtoD _ _ d := (0, d);
  cuMemcpyDtoH p n d := (0, if p =? 64 then d else chars "a.inc" ++ ["000"%char], d);
  cuMemsetD8 _ _ _ _ := (0, replicate 24 "000"%char);
  cuMemFree _ d := (0, d);
  cuModuleLoadData _ p d := (0, p + 1, d);
  cuModuleGetFunction m _ d := (0, m + 1, d);
  cuModuleGetGlobal _ sym d :=
    if String.eqb sym PAS_DEV_ERROR_SYMBOL then (0, (64, 24), d)
    else if String.eqb sym "__pas_dev_file_1" then (0, (128, 6), d) else (CUDA_ERROR_NOT_FOUND, (0, 0), d);
  cuFuncGetModule f d := (0, f - 1, d);
  cuLaunchKernel _ _ _ _ _ _ := (0, failing_cell);
  cuCtxSynchronize d := (0, d)
|}.

Definition toy_host : mem := {[1000 := "."%char]}.
Definition toy_proc : Proc := mkProc "a" "b" EmptyString false None.
Definition toy_start : shim := start toy_host (replicate 24 "000"%char) toy_proc.
Definition toy_ops : list op := [OLoad 1000; OAlloc 8; OLoad 1000; OFunction 1001 (Some "k")].

Lemma device_code_loaded_once_witness : exists vs s, run_ops true toy_ops toy_start = Ok (Some vs, s) /\
  trace_ok (calls s) /\ context_first needs_context (calls s) /\ vs !! 0%nat = vs !! 2%nat /\ loads (calls s) = [1000].
Proof.
  eexists _, _. split; [vm_compute; reflexivity |].
  edestruct (device_code_loaded_once true toy_ops toy_host (replicate 24 "000"%char) toy_proc) as (Ht & Ho & Hv); [vm_compute; reflexivity |].
  split; [exact Ht |]. split; [apply Ho; reflexivity |]. split; [| vm_compute; reflexivity].
  destruct (Hv _ eq_refl) as (_ & _ & Hl); [vm_compute; lia |]. apply (Hl 0%nat 2%nat 1000); reflexivity.
Defined.

(** The report of the failing kernel, and what it does to the process. *)
Lemma launch_checked_witness : exists s', pas_dev_launch true 1002 1 1 1 1 1 1 0 toy_start = Ok (None, s') /\
  same_host toy_start s' /\ p_out (proc s') = "ab" /\
  p_err (proc s') = "runtime error: TRUNC result out of INTEGER range at line 7 column 9 of file a.inc (value=inf)" +:+ nl.
Proof.
  destruct (launch_checked true 1002 1 1 1 1 1 1 0 toy_start ltac:(done)) as (r & s' & E & Hh & Hr).
  assert (pas_dev_launch true 1002 1 1 1 1 1 1 0 toy_start = Ok (r, s')) as E' by exact E. vm_compute in E'. injection E' as <- <-.
  eexists. split; [exact E |]. split; [exact Hh |]. split; vm_compute; reflexivity.
Defined.
