(* ===== verification/Units.v ===== *)
(** The unit model of emit.c: the order in which the units a compiland uses are
    initialized. *)

From Stdlib Require Import ZArith Ascii String SpecFloat Lia.
From stdpp Require Import base list strings relations.
From S2P Require Import Prelude Ast Sem Emit.
#[local] Open Scope nat_scope.

Section Order.
Variable ifaces : list Interface.

Abbreviation find := (find_iface ifaces).

(** Unit [i] uses unit [j], of the units whose interface is there. *)
Definition uses (i j : nat) : Prop :=
  exists it u, ifaces !! i = Some it /\ In u (in_uses it) /\ find u = Some j.

(** The units a list of names leads to. *)
Definition leads (us : list string) (j : nat) : Prop :=
  exists u i, In u us /\ find u = Some i /\ rtc uses i j.

Lemma find_iface_lt u i : find u = Some i -> i < length ifaces.
Proof using Type.
  revert i. induction ifaces as [|it l IH]; simpl; intros i H; [done |].
  destruct (_ =? _)%string; [injection H as <-; lia |].
  destruct (find_iface l u) as [k |]; [| done]. injection H as <-. specialize (IH k eq_refl). lia.
Qed.

(** ** The invariant of the walk *)

(** Every unit comes after the units it uses. *)
Definition sorted (order : list nat) : Prop :=
  forall pre i post, order = pre ++ i :: post -> forall j, uses i j -> In j pre.

Record Inv (w : list mark * list nat) : Prop := {
  inv_len : length (fst w) = length ifaces;
  inv_done : forall i, fst w !! i = Some Done <-> In i (snd w);
  inv_nodup : NoDup (snd w);
  inv_sorted : sorted (snd w) }.

(** The units not reached yet. *)
Definition fresh (marks : list mark) : nat := length (filter (fun m => m = NotVisited) marks).

(** What a visit keeps of the walk, and what it adds. *)
Record Ext (w w' : list mark * list nat) : Prop := {
  ext_inv : Inv w';
  ext_walk : forall i, fst w' !! i = Some OnWalk <-> fst w !! i = Some OnWalk;
  ext_order : exists new, snd w' = snd w ++ new;
  ext_fresh : fresh (fst w') <= fresh (fst w) }.

Lemma ext_refl w : Inv w -> Ext w w.
Proof using Type. intros H. split; [done | done | exists []; by rewrite app_nil_r | done]. Qed.

Lemma ext_trans w1 w2 w3 : Ext w1 w2 -> Ext w2 w3 -> Ext w1 w3.
Proof using Type.
  intros [I2 W2 [n2 O2] F2] [I3 W3 [n3 O3] F3]. split; [done | | | lia].
  - intros i. by rewrite W3, W2.
  - exists (n2 ++ n3). by rewrite O3, O2, app_assoc.
Qed.

Lemma ext_done w w' i : Inv w -> Ext w w' -> fst w !! i = Some Done -> fst w' !! i = Some Done.
Proof using Type.
  intros I [I' _ [n E] _] H. apply (inv_done _ I'). rewrite E. apply in_app_iff. left. by apply (inv_done _ I).
Qed.

(** Marking a unit. *)
Lemma fresh_set marks i m : marks !! i = Some NotVisited -> m <> NotVisited ->
  fresh marks = S (fresh (<[i := m]> marks)).
Proof using Type.
  unfold fresh. revert i. induction marks as [|m0 marks IH]; intros i Hi Hm; [done |].
  destruct i as [|i]; simpl in Hi |- *.
  - injection Hi as ->. rewrite filter_cons_True, filter_cons_False by done. done.
  - rewrite !filter_cons. specialize (IH i Hi Hm). destruct (decide (m0 = NotVisited)); simpl; by rewrite IH.
Qed.

Lemma fresh_set_done marks i m : marks !! i = Some OnWalk -> m <> NotVisited ->
  fresh (<[i := m]> marks) = fresh marks.
Proof using Type.
  unfold fresh. revert i. induction marks as [|m0 marks IH]; intros i Hi Hm; [done |].
  destruct i as [|i]; simpl in Hi |- *.
  - injection Hi as ->. by rewrite !filter_cons_False by done.
  - rewrite !filter_cons. specialize (IH i Hi Hm). destruct (decide (m0 = NotVisited)); simpl; by rewrite IH.
Qed.

(** ** The walk *)

(** How a walk from the names [us] may end: with all of them visited and nothing
    else added than what they lead to, or at a cycle they lead to. *)
Definition Post (us : list string) (w : list mark * list nat) (r : res (list mark * list nat)) : Prop :=
  match r with
  | Ok w' =>
      Ext w w' /\ (forall u i, In u us -> find u = Some i -> fst w' !! i = Some Done) /\
      (forall j, In j (snd w') -> In j (snd w) \/ leads us j)
  | Err (Fatal _ _) => exists j, leads us j /\ tc uses j j
  | Err _ => False
  end.

(** The units on the walk lead to the ones about to be visited. *)
Definition below_walk (us : list string) (w : list mark * list nat) : Prop :=
  forall k u i, fst w !! k = Some OnWalk -> In u us -> find u = Some i -> tc uses k i.

Lemma leads_more us us' j : (forall u, In u us -> In u us') -> leads us j -> leads us' j.
Proof using Type. intros H (u & i & Hu & E & R). exists u, i. auto. Qed.

Lemma visit_units_spec f visit us l :
  (forall u l w, Inv w -> fresh (fst w) < f -> below_walk [u] w -> Post [u] w (visit u l w)) ->
  forall w, Inv w -> fresh (fst w) < f -> below_walk us w -> Post us w (visit_units visit us l w).
Proof using Type.
  intros Hv. induction us as [|u us IH]; intros w I F B; cbn [visit_units].
  - split; [by apply ext_refl | split; [done | auto]].
  - assert (below_walk [u] w) as Bu.
    { intros k v i Hk [<- | []] Hi. apply (B k u i); [done | by left | done]. }
    pose proof (Hv u l w I F Bu) as P1. destruct (visit u l w) as [w1 | e]; simpl.
    + destruct P1 as (X1 & D1 & L1).
      assert (below_walk us w1) as B1.
      { intros k v i Hk Hv' Hi. apply (ext_walk _ _ X1) in Hk. apply (B k v i); [done | by right | done]. }
      pose proof (ext_fresh _ _ X1) as F1.
      specialize (IH w1 (ext_inv _ _ X1) ltac:(lia) B1). destruct (visit_units visit us l w1) as [w2 | e]; simpl.
      * destruct IH as (X2 & D2 & L2). split; [by eapply ext_trans |]. split.
        -- intros v i [<- | Hv'] Hi; [| by eapply D2].
           eapply ext_done; [exact (ext_inv _ _ X1) | done |]. by apply (D1 u); [left |].
        -- intros j Hj. destruct (L2 j Hj) as [Hj1 | Hj2].
           ++ destruct (L1 j Hj1) as [| Hl]; [by left | right]. eapply leads_more; [| exact Hl].
              intros v [<- | []]. by left.
           ++ right. eapply leads_more; [| exact Hj2]. by right.
      * destruct e; try done. destruct IH as (j & Hj & Hc). exists j. split; [| done].
        eapply leads_more; [| exact Hj]. by right.
    + destruct e; try done. destruct P1 as (j & Hj & Hc). exists j. split; [| done].
      eapply leads_more; [| exact Hj]. intros v [<- | []]. by left.
Qed.

(** A unit whose uses are all done is done next. *)
Lemma finish_unit w w1 i it :
  fst w !! i = Some NotVisited -> ifaces !! i = Some it -> Inv w ->
  Ext (<[i := OnWalk]> (fst w), snd w) w1 ->
  (forall u j, In u (in_uses it) -> find u = Some j -> fst w1 !! j = Some Done) ->
  Ext w (<[i := Done]> (fst w1), snd w1 ++ [i]).
Proof using Type.
  intros Hi Hit I X D. destruct X as [I1 W1 [new O1] F1]. simpl in *.
  assert (fst w1 !! i = Some OnWalk) as Hw.
  { apply W1. by rewrite list_lookup_insert_eq by (by apply lookup_lt_Some in Hi). }
  assert (~ In i (snd w1)) as Hni by (intros H; apply (inv_done _ I1) in H; congruence).
  assert (i < length (fst w1)) as Hlt by (by apply lookup_lt_Some in Hw).
  split; simpl.
  - split; simpl.
    + rewrite length_insert. apply (inv_len _ I1).
    + intros j. rewrite in_app_iff. simpl. destruct (decide (i = j)) as [<- | Hn].
      * rewrite list_lookup_insert_eq by done. split; [auto | done].
      * rewrite list_lookup_insert_ne by done. rewrite (inv_done _ I1). split; [auto |].
        by intros [| [|]].
    + apply NoDup_app. split; [apply (inv_nodup _ I1) |]. split; [| apply NoDup_singleton].
      intros j Hj Hj'. apply list_elem_of_singleton in Hj' as ->. by apply Hni, list_elem_of_In.
    + intros pre j post E k Hk.
      destruct (decide (post = [])) as [-> | Hp].
      * apply app_inj_tail in E as [<- <-]. destruct Hk as (it' & u & Hit' & Hu & Hf).
        assert (it' = it) as -> by congruence. apply (inv_done _ I1). by apply (D u).
      * destruct (exists_last Hp) as (post' & x & ->).
        assert (snd w1 = pre ++ j :: post') as E'.
        { rewrite app_comm_cons, app_assoc in E. by apply app_inj_tail in E as [-> _]. }
        by apply (inv_sorted _ I1 pre j post').
  - intros j. destruct (decide (i = j)) as [<- | Hn].
    + rewrite list_lookup_insert_eq by done. split; congruence.
    + rewrite list_lookup_insert_ne by done. rewrite W1. by rewrite list_lookup_insert_ne.
  - exists (new ++ [i]). by rewrite O1, app_assoc.
  - rewrite fresh_set_done by done. rewrite (fresh_set (fst w) i OnWalk) by done. lia.
Qed.

Lemma leads_uses i it us j : ifaces !! i = Some it -> us = in_uses it -> leads us j ->
  tc uses i j.
Proof using Type.
  intros Hi -> (u & k & Hu & Hf & R). eapply tc_rtc_r; [apply tc_once | exact R]. by exists it, u.
Qed.

Lemma visit_unit_spec f : forall u l w, Inv w -> fresh (fst w) < f -> below_walk [u] w ->
  Post [u] w (visit_unit ifaces f u l w).
Proof using Type.
  induction f as [|f IH]; intros u l w I F B; [lia |]. cbn [visit_unit].
  destruct (find u) as [i |] eqn:Eu.
  2: { split; [by apply ext_refl |]. split; [| auto]. intros v k [<- | []] Hk. congruence. }
  pose proof (find_iface_lt _ _ Eu) as Hlt.
  destruct (lookup_lt_is_Some_2 ifaces i Hlt) as [it Hit]. rewrite Hit.
  destruct (lookup_lt_is_Some_2 (fst w) i) as [m Hm]; [by rewrite (inv_len _ I) |]. rewrite Hm.
  assert (forall j, rtc uses i j -> leads [u] j) as Hlead by (intros j R; exists u, i; simpl; auto).
  destruct m.
  - assert (Inv (<[i := OnWalk]> (fst w), snd w)) as I1.
    { split; simpl; [rewrite length_insert; apply (inv_len _ I) | | apply (inv_nodup _ I) | apply (inv_sorted _ I)].
      intros j. rewrite <- (inv_done _ I). destruct (decide (i = j)) as [<- | Hn].
      - rewrite list_lookup_insert_eq by (by apply lookup_lt_Some in Hm). split; congruence.
      - by rewrite list_lookup_insert_ne. }
    assert (below_walk (in_uses it) (<[i := OnWalk]> (fst w), snd w)) as B1.
    { intros k v j Hk Hv Hj. assert (uses i j) as Huj by (by exists it, v). simpl in Hk.
      destruct (decide (i = k)) as [<- | Hn]; [by apply tc_once |].
      rewrite list_lookup_insert_ne in Hk by done. eapply tc_r; [| exact Huj]. apply (B k u i); simpl; auto. }
    pose proof (fresh_set (fst w) i OnWalk Hm ltac:(done)) as Hf.
    pose proof (visit_units_spec f (visit_unit ifaces f) (in_uses it) (in_loc it) IH _ I1 ltac:(simpl; lia) B1) as P1.
    destruct (visit_units _ _ _ _) as [[marks order] | e]; simpl.
    + destruct P1 as (X & D & L). split; [by apply (finish_unit w (marks, order) i it) |]. split.
      * intros v k [<- | []] Hk. assert (k = i) as -> by congruence. simpl.
        rewrite list_lookup_insert_eq; [done |]. pose proof (inv_len _ (ext_inv _ _ X)) as El. simpl in El. by rewrite El.
      * simpl in *. intros j [Hj | [<- | []]]%in_app_iff; [| right; by apply Hlead].
        destruct (L j Hj) as [| Hl]; [by left | right]. apply Hlead, tc_rtc. by eapply leads_uses.
    + destruct e; try done. destruct P1 as (j & Hj & Hc). exists j. split; [| done].
      apply Hlead, tc_rtc. by eapply leads_uses.
  - exists i. split; [by apply Hlead |]. apply (B i u i); simpl; auto.
  - split; [by apply ext_refl |]. split; [| auto]. intros v k [<- | []] Hk. by assert (k = i) as -> by congruence.
Qed.

(** ** The order of initialization *)

Lemma inv_start : Inv (replicate (length ifaces) NotVisited, []).
Proof using Type.
  split; simpl; [apply length_replicate | | constructor |].
  - intros i. split; [| done]. intros H. apply lookup_replicate in H as [H _]. discriminate H.
  - intros pre i post E. by destruct pre.
Qed.

Lemma fresh_le marks : fresh marks <= length marks.
Proof using Type. apply length_filter. Qed.

(** Every unit that a done unit leads to is done. *)
Lemma sorted_closed order i j : sorted order -> In i order -> rtc uses i j -> In j order.
Proof using Type.
  intros Hs Hi R. induction R as [|i k j Hik _ IH]; [done |]. apply IH.
  apply in_split in Hi as (pre & post & E). rewrite E. apply in_app_iff. left. by apply (Hs pre i post).
Qed.

Lemma unit_order_cases us l :
  match unit_order ifaces us l with
  | Ok order => NoDup order /\ sorted order /\ (forall j, In j order <-> leads us j)
  | Err (Fatal _ _) => exists j, leads us j /\ tc uses j j
  | Err _ => False
  end.
Proof using Type.
  unfold unit_order. set (w := (replicate (length ifaces) NotVisited, [])).
  assert (fresh (fst w) < S (length ifaces)) as F.
  { pose proof (fresh_le (fst w)) as H. simpl in H. rewrite length_replicate in H. simpl. lia. }
  assert (below_walk us w) as B.
  { intros k u i H. apply lookup_replicate in H as [H _]. discriminate H. }
  pose proof (visit_units_spec _ _ us l (visit_unit_spec (S (length ifaces))) w inv_start F B) as P1.
  destruct (visit_units _ us l w) as [[marks order] | e]; simpl; [| by destruct e].
  destruct P1 as (X & D & L). pose proof (ext_inv _ _ X) as I. split; [apply (inv_nodup _ I) |].
  split; [apply (inv_sorted _ I) |]. intros j. split.
  - intros Hj. by destruct (L j Hj).
  - intros (u & i & Hu & Hi & R). eapply (sorted_closed order i); [apply (inv_sorted _ I) | | done].
    apply (inv_done _ I). by apply (D u).
Qed.

(** What comes before a unit is closed under use. *)
Lemma sorted_tc order i j : sorted order -> tc uses i j ->
  forall pre post, order = pre ++ i :: post -> In j pre.
Proof using Type.
  intros Hs R. induction R as [i j Hij | i k j Hik _ IH]; intros pre post E; [by apply (Hs pre i post) |].
  pose proof (Hs pre i post E k Hik) as Hk. apply in_split in Hk as (p1 & p2 & ->).
  rewrite <- app_assoc in E. apply in_app_iff. left. by apply (IH p1 (p2 ++ i :: post)).
Qed.

Lemma sorted_acyclic order i : sorted order -> NoDup order -> In i order -> ~ tc uses i i.
Proof using Type.
  intros Hs Hn Hi R. apply in_split in Hi as (pre & post & ->).
  pose proof (sorted_tc _ _ _ Hs R pre post eq_refl) as Hp.
  apply NoDup_app in Hn as (_ & Hd & _). apply (Hd i); [by apply list_elem_of_In | by left].
Qed.
End Order.

(** C12: the units a compiland uses are ordered for initialization: the order lists
    exactly the units the USES lead to, directly or through other units, each
    once, and each after all the units it uses itself; when no order is found
    there is a circular USES among them. The walk always ends. *)
Theorem unit_order_topological ifaces us l :
  match unit_order ifaces us l with
  | Ok order =>
      NoDup order /\ (forall j, In j order <-> leads ifaces us j) /\
      (forall pre i post j, order = pre ++ i :: post -> uses ifaces i j -> In j pre)
  | Err (Fatal _ _) => exists j, leads ifaces us j /\ tc (uses ifaces) j j
  | Err _ => False
  end.
Proof.
  pose proof (unit_order_cases ifaces us l) as H. destruct (unit_order ifaces us l) as [order | e]; [| by destruct e].
  destruct H as (Hn & Hs & Hl). split; [done |]. split; [done |]. intros pre i post j E Hu. by apply (Hs pre i post).
Qed.

(** a compiland whose USES lead into a circle is refused, always; without one its
    units are ordered. *)
Theorem unit_order_iff_acyclic ifaces us l :
  (exists order, unit_order ifaces us l = Ok order) <->
  ~ exists j, leads ifaces us j /\ tc (uses ifaces) j j.
Proof.
  pose proof (unit_order_cases ifaces us l) as H. destruct (unit_order ifaces us l) as [order | e]; split.
  - intros _ (j & Hl & Hc). destruct H as (Hn & Hs & Hi). apply Hi in Hl. by eapply sorted_acyclic.
  - eauto.
  - by intros [order E].
  - intros Hn. exfalso. destruct e; try done.
Qed.
