(* ===== verification/Gaps.v ===== *)
(** Inputs on which the translator does not do what its comments say or what its
    checks intend. *)

From Stdlib Require Import ZArith Ascii String SpecFloat Lia.
From stdpp Require Import base list strings gmap.
From S2P Require Import Prelude Real Ast Lex Parse Sem Emit Main CPrelude SemProps.
Import SemProps.Consts.
#[local] Open Scope Z_scope.

(** ** Types *)

(** the capacity of an LSTRING is cut to 32 bits before its range is checked, so
    capacities far above 255 are accepted: [LSTRING(4294967297)] is
    [LSTRING(1)]. *)
Theorem lstring_capacity_cut l :
  exists st, resolve_type (TE_LSTRING l (E_INT l 4294967297)) init_state = Ok (13%nat, st) /\
    desc_at st 13 = Some (TY_LSTR 1).
Proof.
  destruct (resolve_type (TE_LSTRING l (E_INT l 4294967297)) init_state) as [[t st] | e] eqn:E.
  - exists st. vm_compute in E. injection E as <- <-. split; vm_compute; reflexivity.
  - vm_compute in E. discriminate E.
Qed.

(** an array whose length does not fit INTEGER64 passes the check of its bounds,
    and its C spelling then overflows a signed integer. *)
Theorem array_length_overflows l :
  exists t st, resolve_type (TE_ARRAY l (E_UN l OP_NEG (E_INT l 1)) (E_INT l INT64_MAX) (TE_NAME l "char"))
    init_state = Ok (t, st) /\
  ctype t st = Err (Undef "signed overflow in an array length").
Proof.
  destruct (resolve_type (TE_ARRAY l (E_UN l OP_NEG (E_INT l 1)) (E_INT l INT64_MAX) (TE_NAME l "char")) init_state)
    as [[t st] | e] eqn:E.
  - exists t, st. split; [done |]. vm_compute in E. injection E as <- <-. vm_compute. reflexivity.
  - vm_compute in E. discriminate E.
Qed.

(** ** Pointer types that only name each other *)

(** [TYPE p1 = ^p4; p2 = ^p1; p3 = ^p2; p4 = ^p3;] *)
Definition pointer_circle : list TypeDecl :=
  [mkTypeDecl "p1" no_loc (TE_POINTER no_loc "p4"); mkTypeDecl "p2" no_loc (TE_POINTER no_loc "p1");
   mkTypeDecl "p3" no_loc (TE_POINTER no_loc "p2"); mkTypeDecl "p4" no_loc (TE_POINTER no_loc "p3")].

Definition circle_state : option Sem :=
  match type_section pointer_circle (with_sem init_state init_emit) with
  | Ok (_, st) => Some (sem st)
  | Err _ => None
  end.

(** [TYPE p = ^q; q = ^p;] *)
Definition short_circle : list TypeDecl :=
  [mkTypeDecl "p" no_loc (TE_POINTER no_loc "q"); mkTypeDecl "q" no_loc (TE_POINTER no_loc "p")].

(** The pointer types are 13 to 16, each the target of the next one. *)
Definition circle_next (t : tyid) : tyid := if (t =? 13)%nat then 16%nat else (t - 1)%nat.
Definition in_circle (t : tyid) : Prop := (13 <= t <= 16)%nat.

Lemma circle_types : exists st, circle_state = Some st /\
  forall t, in_circle t -> exists ty, types st !! t = Some ty /\ t_desc ty = TY_PTR (Some (circle_next t)) None.
Proof.
  destruct circle_state as [st |] eqn:E; [| vm_compute in E; discriminate E].
  exists st. split; [done |]. vm_compute in E. injection E as <-. intros t Ht.
  assert (t = 13 \/ t = 14 \/ t = 15 \/ t = 16)%nat as [-> | [-> | [-> | ->]]] by (unfold in_circle in Ht; lia);
    (eexists; split; reflexivity).
Qed.

Lemma circle_diverges st :
  (forall t, in_circle t -> exists ty, types st !! t = Some ty /\ t_desc ty = TY_PTR (Some (circle_next t)) None) ->
  forall fuel t need, in_circle t -> ctype_ref fuel t need st = Err OutOfFuel.
Proof.
  intros H. induction fuel as [|f IH]; intros t need Ht; [done |]. cbn [ctype_ref].
  destruct (H t Ht) as (ty & E & Ed).
  rewrite (bind_ok (get_type t) _ st ty st) by (unfold get_type; by rewrite E). rewrite Ed.
  apply bind_err, IH. unfold in_circle, circle_next in *. destruct (Nat.eqb_spec t 13); lia.
Qed.

(** C40: the check for pointer types that only name each other follows a number of
    targets bounded by the pointers pending in the section, not by the pointer
    types. So the TYPE section p1 = ^p4; p2 = ^p1; p3 = ^p2; p4 = ^p3, in which only
    p1's target is pending, is accepted, and spelling any of its four types in C then
    never ends; the shorter p = ^q; q = ^p is refused. *)
Theorem pointer_circle_accepted :
  type_section short_circle (with_sem init_state init_emit) = Err (Fatal no_loc "pointer type cycle through type 'q'") /\
  exists st, circle_state = Some st /\
    forall fuel t need, in_circle t -> ctype_ref fuel t need st = Err OutOfFuel.
Proof.
  split; [vm_compute; reflexivity |]. destruct circle_types as (st & E & H). exists st. split; [done |]. by apply circle_diverges.
Qed.

(** ** The output file *)

(** PROGRAM p; BEGIN nosuch END. *)
Definition bad_program : string := "program p; begin nosuch end.".
Definition one_file (name : string) : Host :=
  mkHost (fun f => if String.eqb f name then Some (chars bad_program) else None) (fun _ => true) (fun _ => true).

(** a translation that stops leaves the output file it opened behind, empty:
    the statements of [main] that would remove it are not reached, because the
    message ends the program. *)
Theorem stopped_output_left :
  pasboot (one_file "p.pas") ["p.pas"; "-o"; "p.c"] =
  Stopped (Fatal (mkLoc (Some "p.pas") 1) "undeclared identifier 'nosuch'") (Some "p.c").
Proof. vm_compute. reflexivity. Qed.

(** ** TRUNC *)

(** The real -2^63 is an INTEGER64 value, yet TRUNC of it is a run-time error. *)
Theorem trunc_least_refused file line :
  CPrelude.Trunc.real_trunc (S754_finite true 4503599627370496 11) = INT64_MIN /\
  CPrelude.Trunc.pas_trunc16 (S754_finite true 4503599627370496 11) file line =
    Err (RtAbort (CPrelude.Trunc.trunc_range file line)).
Proof. split; reflexivity. Qed.
